(* ===== verification/_CoqProject ===== *)
-Q . S2P
Prelude.v
Dag.v
TaskBatch.v
StateMachine.v
Breaker.v
PubSub.v
GoStrings.v
PkgUtil.v
GoText.v
AtomicFile.v
TaskModel.v
Backend.v
Store.v
StoreUpdate.v
StoreWf.v
StoreDurable.v
StoreRestart.v
StoreSpec.v
StoreEvents.v
StoreQuery.v
StoreSearch.v
FsBackend.v
FsBackendSpec.v
FsRefines.v
FsRun.v
GoTime.v
GitExec.v
GitSpec.v
RoutineEngine.v
RoutineSpec.v
Flow.v
FlowSpec.v
FlowRun.v
Tree.v
SpecArchive.v
SpecTree.v
SpecGraph.v
SpecValidate.v
SpecFront.v
SpecScaffold.v
SpecSection.v
Regex.v
Verdict.v
World.v
WorldRules.v
Runner.v
RunnerSpec.v
RunnerRun.v
Sync.v
Execute.v
ExecuteSpec.v
Automation.v
AutomationSpec.v
AutomationRun.v
TaskRequests.v
TaskRequestsSpec.v
BatchSpec.v
TaskRequestsRun.v
Routines.v
RoutinesSpec.v
RoutinesRun.v
CommitPipeline.v
CommitSpec.v
Recovery.v
RecoverySpec.v
CommitRun.v
RecoveryRun.v
