(* ===== verification/Prelude.v ===== *)
(** * Wallfacer: verification library

    Wallfacer (src/) is a task board for coding agents.  A task is a card with a
    prompt; it waits in a backlog, is worked on by an agent in a container with git
    worktrees of its own, is tested and reviewed, and is committed to the branches of
    its repositories.  The parts that are modelled here, and how they call each other:

    - the task store (internal/store) keeps the tasks, tombstones, events and indexes
      in memory and on a storage backend; everything else reads and writes through it;
    - the handlers (internal/handler) answer requests on tasks and routines, and the
      watchers among them promote, retry, test, submit, review and sync tasks;
    - the runner (internal/runner) runs the turns of an agent, synchronises worktrees,
      commits finished work, and settles after a restart what a crash left;
    - flows (internal/flow) are multi-agent plans that the runner executes; the routine
      scheduler (internal/routine) fires cards by time and the handlers spawn tasks;
    - git operations (internal/gitutil, internal/pkg/cmdexec) serve the runner;
    - specs (internal/spec) are design documents with a dependency graph;
    - small packages (internal/pkg) serve all of them.

    ** Files

    Shared: this file (results, field updates, machine integers, orders of map ranges,
    lists); GoStrings, GoText, GoTime, Regex (the parts of Go's standard library that
    the sources call, on bytes, runes, paths, times and patterns).

    Packages: Dag (pkg/dag, pkg/dagscorer), TaskBatch (the dependency search and the
    topological sort of the handlers), StateMachine (pkg/statemachine and its two
    tables), Breaker (pkg/circuitbreaker), PubSub (pkg/pubsub), PkgUtil (tail, set,
    registry, pagination, sanitize, slugutil, uuidutil), AtomicFile (pkg/atomicfile),
    Tree (pkg/tree).

    Store: TaskModel (models.go, migrate.go), Backend (backend.go, the class
    [StorageBackend] and the instance [MemBackend] with injected faults), Store and
    StoreUpdate (the record [Store] and one definition per method), StoreQuery
    (listings, views of a principal, search, scores); StoreWf, StoreDurable,
    StoreRestart, StoreSpec, StoreEvents, StoreSearch hold the theorems.  FsBackend is
    backend_fs.go over a file system whose calls can fail, FsBackendSpec and FsRefines
    the simulation between it and the interface, FsRun concrete runs.

    Goroutines: World is the monad [W] of code that works on a store it shares with
    others, WorldRules its program logic.  Runner, RunnerSpec, RunnerRun are [Run] of
    runner/execute.go; Sync is [SyncWorktrees]; Verdict is [parseTestVerdict];
    Execute, ExecuteSpec are handler/execute.go; Automation, AutomationSpec,
    AutomationRun the watchers; TaskRequests, TaskRequestsSpec, BatchSpec,
    TaskRequestsRun are handler/tasks.go; Routines, RoutinesSpec, RoutinesRun are
    routines.go and routines_engine.go on top of RoutineEngine and RoutineSpec, which
    are internal/routine.

    Git: GitExec is the monad [H] of code that makes calls, with cmdexec and gitutil;
    GitSpec its trace logic.  CommitPipeline, CommitSpec, CommitRun are runner/commit.go,
    worktree.go and snapshot.go in the monad [P] over a world and a history of calls;
    Recovery, RecoverySpec, RecoveryRun are recovery.go and worktree_gc.go.

    Flows and specs: Flow, FlowSpec, FlowRun (internal/flow, pkg/yamldir); SpecArchive,
    SpecTree, SpecGraph, SpecValidate, SpecFront, SpecScaffold, SpecSection.

    ** How code is represented

    A struct is a record with the fields of the source, an enumeration that is a Go
    string stays a string, an error is a value of a sum.  [int] is [Z]; where overflow
    can matter (sequence numbers, durations, back-off) the wrap-around is written out.
    A map is a [gmap]; where the code ranges over one, the order is an argument and the
    theorems hold for every order.  A panic is a value ([None], [Panics], [Panic]).
    A method that holds a lock is one step; before each step of a goroutine the
    schedule [others] runs any operations of other goroutines.  Theorems that need the
    others to keep something state it ("rely"), and [solo] says that nothing else runs.
    An update reaches memory even if its save fails, as in the code.

    What is outside the sources is an argument, with its laws in a class: uuids
    ([UUIDLib]), YAML ([YamlLib] and the codec of flows), the storage backend, the
    answers of git, of the disk ([reply], [Outcomes], fault schedules), of containers
    and agents ([Collab], [Answers]), the clock, and Unicode's case tables.  Each
    theorem with hypotheses has a closed instance that satisfies them.

    ** What is shown

    Store: the four indexes agree in every reachable state whatever the backend does
    ([store_wf_reachable]); acknowledged work survives a restart ([restart_recovers]);
    the event log is complete ([event_log_complete]); update, status change and deletion
    on every branch ([mutateTask_ack], [UpdateTaskStatus_spec], [DeleteTask_releases]);
    no caller sees tasks outside of their view ([principal_isolation]).  The file
    system backend implements the interface for the calls that [permitted] lists
    ([FilesystemBackend_refines]), and its file writes are atomic ([write_atomic]).

    Runner: runs and syncs end and leave no task in progress ([Run_returns],
    [Run_settles], [SyncWorktrees_settles]; [calm] excludes panics in the flow engine,
    the in-process runner and the oversight call, after which a task does stay in
    progress, [engine_panic_stuck]); one turn of the agent ([turn_outcome]); the verdict
    parser ([parseTestVerdict_spec]).  The commit pipeline throws no counted work away
    ([commit_keeps_work], [staging_complete], [ensure_ready]); transactions roll back
    ([Tx_run_spec]) and a merge gives the stash back ([FFMerge_restores_stash]);
    recovery settles every orphan ([recovery_settles]).

    Handlers: feedback, cancellation, commit, batches and patches on every branch
    ([SubmitFeedback_spec], [applyCancel_spec], [commit_outcome],
    [BatchCreateTasks_spec], [patch_keeps_acyclic]); the watchers keep their limits and
    submit only what was verified ([promote_capacity], [promote_selection],
    [tryAutoSubmit_safe], [tryAutoReview_slots]); cards and scheduler agree
    ([reconcile_schedules], [fireRoutine_spawns]) and the scheduler forgets no routine
    ([routine_never_forgotten]).

    Flows, specs and packages: groups are connected components and are run in order
    ([buildParallelGroups_correct], [Execute_spec], [user_flow_roundtrip]); impact and
    validation of specs and updates of their frontmatter ([ComputeImpact_spec],
    [ValidateTree_spec], [UpdateFrontmatter_spec]); the hub loses nothing on reconnect
    ([reconnect_loses_nothing]); the back-off schedule ([backoff_default_schedule]).

    The files that end in Run, and modules of that name, also hold concrete runs in
    which the code does not do what its comments say.

    ** Fuel and bounds

    Recursions that are not structural take fuel and answer [None] without it.  Graph
    searches (Dag, TaskBatch, Flow, StoreQuery) get one unit per node and one more, walks
    of a tree the number of its nodes, and the binary search of the hub the length of
    its buffer; the theorems about them state that a result is returned.  A repetition in
    Regex tries at most the length of the text ([MatchString_language] shows that this
    loses no match).  The rebase loops get the number of attempts of the source.  The
    turn loop of [Run] has no bound in the source: it follows the list of answers of the
    container, and [Run_returns] shows that it ends by the first decisive one.

    ** Not modelled

    The database backend (SQL), containers, agent programs and their output formats,
    the HTTP layer and decoding of requests, JSON encodings except of event payloads,
    authentication and GitHub, the coordinator, workspaces and configuration, prompts,
    titles and boards, start-up, logging and metrics, and the scan of directories for
    specs.  They are input and output, external services, or data handed through
    unchanged.  The loss of power is not modelled: files are what other processes see.
    The tickers that repeat a round of a watcher are not, the rounds are. *)

From Stdlib Require Export ZArith Lia.
From stdpp Require Export sorting relations base tactics option numbers sets strings.
From stdpp Require Export fin_maps fin_sets gmap list.

(** ** Results of fallible Go functions

    A Go function returning [(T, error)] is modelled by [result E T]. *)

Inductive result (E A : Type) : Type :=
| Ok (a : A)
| Err (e : E).
Arguments Ok {E A} a.
Arguments Err {E A} e.

Definition result_bind {E A B : Type} (r : result E A) (k : A -> result E B) : result E B :=
  match r with
  | Ok a => k a
  | Err e => Err e
  end.

Definition is_ok {E A : Type} (r : result E A) : bool :=
  match r with Ok _ => true | Err _ => false end.

Declare Scope go_scope.
Delimit Scope go_scope with go.

Notation "'let!' x ':=' r 'in' k" := (result_bind r (fun x => k))
  (at level 10, x name, r at level 100, k at level 200) : go_scope.
Notation "'let!' ' p ':=' r 'in' k" := (result_bind r (fun x => match x with p => k end))
  (at level 10, p strict pattern, r at level 100, k at level 200) : go_scope.

(** ** Field update for Go structs

    [Setter f] says how to replace field [f] of a record; instances are
    derived from the record's eta expansion by [derive_setter]. *)

Class Eta (R : Type) := eta : R -> R.
Class Setter {R F : Type} (proj : R -> F) := set : F -> R -> R.
Arguments set {R F} proj {_} v r : assert.

Ltac derive_setter :=
  lazymatch goal with
  | |- @Setter ?R ?F ?proj =>
    intros v r;
    let e := eval hnf in (@eta R _ r) in
    let p := eval pattern (proj r) in e in
    lazymatch p with
    | ?G _ => let t := eval cbv beta in (G v) in exact t
    end
  end.

#[warnings="-postfix-notation-not-level-1"]
Notation "r <| f := v |>" := (set f v r)
  (at level 12, f at next level, left associativity, format "r  <| f  :=  v |>") : go_scope.
#[global] Open Scope go_scope.

(** ** Machine integers

    Go's [int] and [int64] are 64-bit and [int32] is 32-bit two's complement;
    arithmetic wraps.  [wrap w z] is the signed [w]-bit value of [z]. *)

Definition wrap (w : Z) (z : Z) : Z := ((z + 2 ^ (w - 1)) mod 2 ^ w - 2 ^ (w - 1))%Z.
Definition wrap64 : Z → Z := wrap 64.
Definition wrap32 : Z → Z := wrap 32.

(** [1 << n] at [int64]: the bits shifted out are lost. *)
Definition shl64 (x : Z) (n : Z) : Z := wrap64 (Z.shiftl x n).

#[global] Arguments wrap64 : simpl never.
#[global] Arguments wrap32 : simpl never.
#[global] Arguments shl64 : simpl never.

Section machine_integers.
Local Open Scope Z_scope.

Lemma wrap_id w z : 0 < w → - 2 ^ (w - 1) <= z < 2 ^ (w - 1) → wrap w z = z.
Proof.
  intros Hw Hz. unfold wrap. assert (2 ^ w = 2 * 2 ^ (w - 1)) by
    (rewrite <- Z.pow_succ_r by lia; f_equal; lia).
  rewrite Z.mod_small; lia.
Qed.

Lemma wrap_range w z : 0 < w → - 2 ^ (w - 1) <= wrap w z < 2 ^ (w - 1).
Proof.
  intros Hw. unfold wrap. assert (2 ^ w = 2 * 2 ^ (w - 1)) by
    (rewrite <- Z.pow_succ_r by lia; f_equal; lia).
  pose proof (Z.mod_pos_bound (z + 2 ^ (w - 1)) (2 ^ w)). lia.
Qed.

(** The wrapped value differs from the exact one by a multiple of [2^w]. *)
Lemma wrap_eqm w z : ∃ m, wrap w z = z - m * 2 ^ w.
Proof.
  exists ((z + 2 ^ (w - 1)) / 2 ^ w). unfold wrap.
  pose proof (Z.div_mod (z + 2 ^ (w - 1)) (2 ^ w)) as Hd.
  destruct (decide (2 ^ w = 0)) as [E|E]; [rewrite E, Z.mod_0_r; lia|].
  specialize (Hd E). lia.
Qed.

Lemma wrap64_id z : - 2 ^ 63 <= z < 2 ^ 63 → wrap64 z = z.
Proof. intros. apply wrap_id; lia. Qed.

Lemma wrap32_id z : - 2 ^ 31 <= z < 2 ^ 31 → wrap32 z = z.
Proof. intros. apply wrap_id; lia. Qed.
End machine_integers.

(** ** Ranging over a Go map

    The iteration order of [range] over a map is unspecified; code that depends
    on it takes the order as an argument, some enumeration of the keys. *)

Definition range_order `{Countable K} {V} (m : gmap K V) (order : list K) : Prop :=
  order ≡ₚ (map_to_list m).*1.

Section range_order.
Context `{Countable K} {V : Type}.
Implicit Types (m : gmap K V).

#[export] Instance range_order_dec m order : Decision (range_order m order).
Proof. unfold range_order. apply _. Defined.

Lemma range_order_elem m order x : range_order m order → x ∈ order ↔ x ∈ dom m.
Proof.
  intros ->. rewrite elem_of_dom. split.
  - intros ((?&l)&->&?%elem_of_map_to_list)%list_elem_of_fmap. by eexists.
  - intros [l Hl]. apply list_elem_of_fmap. exists (x, l). by rewrite elem_of_map_to_list.
Qed.

Lemma range_order_NoDup m order : range_order m order → NoDup order.
Proof. intros ->. apply NoDup_fst_map_to_list. Qed.

Lemma range_order_exists m : ∃ order, range_order m order.
Proof. exists (map_to_list m).*1. unfold range_order. reflexivity. Qed.
End range_order.

(** Discharges [range_order] at a concrete map. *)
Ltac range_order_tac := apply (bool_decide_unpack _); vm_compute; exact I.

(** ** Lists *)

Lemma list_filter_agree {A} (P Q : A → Prop) `{!∀ x, Decision (P x), !∀ x, Decision (Q x)} (l : list A) :
  (∀ x, x ∈ l → P x ↔ Q x) → filter P l = filter Q l.
Proof.
  induction l as [|x l IH]; intros Hl; [done|]. rewrite !filter_cons, IH by (intros; apply Hl; by right).
  destruct (Hl x ltac:(left)). repeat case_decide; naive_solver.
Qed.

Lemma sorted_filter {A} (R : A → A → Prop) (P : A → Prop) `{!∀ x, Decision (P x)} (l : list A) :
  StronglySorted R l → StronglySorted R (filter P l).
Proof.
  induction 1 as [|x l Hs IH Hx]; [constructor|]. rewrite filter_cons. case_decide; [|done].
  constructor; [done|]. rewrite Forall_forall in *. intros y [_ ?]%list_elem_of_filter. auto.
Qed.

Lemma sorted_sublist {A} (R : A → A → Prop) (k l : list A) :
  k `sublist_of` l → StronglySorted R l → StronglySorted R k.
Proof.
  intros Hsub Hl. revert k Hsub. induction Hl as [|x l Hl IH Hall]; intros k Hsub.
  - apply sublist_nil_r in Hsub as ->. constructor.
  - apply sublist_cons_r in Hsub as [?|(k' & -> & Hsub)]; [auto|]. constructor; [auto|].
    rewrite Forall_forall in *. intros y Hy. apply Hall. by eapply elem_of_sublist.
Qed.
