(* ===== verification/Dag.v ===== *)
(** * internal/pkg/dag and internal/pkg/dagscorer

    Adjacency lists are Go maps [map[K][]K], modelled by [gmap K (list K)];
    reading an absent key yields the nil slice.  Where the code ranges over a
    Go map the visiting order is unspecified, so the model takes the order as
    an argument and the theorems quantify over every enumeration of the keys.

    Definitions: [ReverseEdges], [DetectCycles] (DFS with three colours and a
    parent map), [Reachable] (BFS), [Score] (memoised longest downstream
    chain).  The recursions of the code are not structural; each takes fuel,
    and the theorems show that one unit per graph node, plus one, is enough. *)

From S2P Require Import Prelude.

Section definitions.
Context {K : Type} `{Countable K}.

(** [adj[x]] in Go: the nil slice when the key is absent. *)
Definition succs (adj : gmap K (list K)) (x : K) : list K := default [] (adj !! x).

Definition edge (adj : gmap K (list K)) (x y : K) : Prop := y ∈ succs adj x.

Definition acyclic (adj : gmap K (list K)) : Prop := ∀ x, ¬ tc (edge adj) x x.

(** Every node mentioned by the graph, as a source or as a target. *)
Definition nodes (adj : gmap K (list K)) : gset K :=
  dom adj ∪ ⋃ ((λ l : list K, list_to_set l) <$> (map_to_list adj).*2).

(** [rev[to] = append(rev[to], from)]. *)
Definition push_edge (rev : gmap K (list K)) (to from : K) : gmap K (list K) :=
  <[to := succs rev to ++ [from]]> rev.

Definition ReverseEdges (order : list K) (adj : gmap K (list K)) : gmap K (list K) :=
  foldl (λ rev from,
    let rev' := foldl (λ r to, push_edge r to from) rev (succs adj from) in
    match rev' !! from with
    | Some _ => rev'
    | None => <[from := []]> rev'
    end) ∅ order.

(** DFS colours; an absent entry of [colors] reads as [white], Go's zero. *)
Inductive color := white | gray | black.

#[export] Instance color_eq_dec : EqDecision color.
Proof. solve_decision. Defined.

Record dfs_state := DfsState {
  colors : gmap K color;
  parent : gmap K K;
  cycles : list (list K)
}.

Definition color_of (st : dfs_state) (x : K) : color := default white (colors st !! x).

Definition paint (x : K) (c : color) (st : dfs_state) : dfs_state :=
  DfsState (<[x := c]> (colors st)) (parent st) (cycles st).

Definition set_parent (x p : K) (st : dfs_state) : dfs_state :=
  DfsState (colors st) (<[x := p]> (parent st)) (cycles st).

Definition add_cycle (c : list K) (st : dfs_state) : dfs_state :=
  DfsState (colors st) (parent st) (cycles st ++ [c]).

(** [for cur != next { cur = parent[cur]; cycle = append(cycle, cur) }];
    [zero] is what Go returns for a key absent from [parent]. *)
Fixpoint unwind (zero : K) (par : gmap K K) (fuel : nat) (cur next : K) (cycle : list K)
  : option (list K) :=
  if decide (cur = next) then Some cycle
  else match fuel with
       | O => None
       | S fuel' =>
         let cur' := default zero (par !! cur) in
         unwind zero par fuel' cur' next (cycle ++ [cur'])
       end.

(** The loop over [adj[node]] inside [dfs]; [rec] is the recursive call. *)
Fixpoint dfs_edges (zero : K) (ufuel : nat) (rec : K → dfs_state → option dfs_state)
    (node : K) (nexts : list K) (st : dfs_state) : option dfs_state :=
  match nexts with
  | [] => Some st
  | next :: rest =>
    match color_of st next with
    | white =>
      st' ← rec next (set_parent next node st);
      dfs_edges zero ufuel rec node rest st'
    | gray =>
      cycle ← unwind zero (parent st) ufuel node next [next; node];
      dfs_edges zero ufuel rec node rest (add_cycle (reverse cycle) st)
    | black => dfs_edges zero ufuel rec node rest st
    end
  end.

Fixpoint dfs (zero : K) (adj : gmap K (list K)) (ufuel fuel : nat) (node : K) (st : dfs_state)
  : option dfs_state :=
  match fuel with
  | O => None
  | S fuel' =>
    st' ← dfs_edges zero ufuel (dfs zero adj ufuel fuel') node (succs adj node) (paint node gray st);
    Some (paint node black st')
  end.

(** The outer [for node := range adj]. *)
Fixpoint dfs_roots (zero : K) (adj : gmap K (list K)) (fuel : nat) (order : list K) (st : dfs_state)
  : option dfs_state :=
  match order with
  | [] => Some st
  | node :: rest =>
    match color_of st node with
    | white => st' ← dfs zero adj fuel fuel node st; dfs_roots zero adj fuel rest st'
    | _ => dfs_roots zero adj fuel rest st
    end
  end.

Definition graph_fuel (adj : gmap K (list K)) : nat := S (size (nodes adj)).

Definition DetectCycles (zero : K) (order : list K) (adj : gmap K (list K))
  : option (list (list K)) :=
  cycles <$> dfs_roots zero adj (graph_fuel adj) order (DfsState ∅ ∅ []).

(** BFS: the inner loop marks and enqueues the unvisited successors. *)
Fixpoint bfs_edges (nexts : list K) (visited result : gset K) (queue : list K)
  : gset K * gset K * list K :=
  match nexts with
  | [] => (visited, result, queue)
  | next :: rest =>
    if decide (next ∈ visited) then bfs_edges rest visited result queue
    else bfs_edges rest ({[next]} ∪ visited) ({[next]} ∪ result) (queue ++ [next])
  end.

Fixpoint bfs (adj : gmap K (list K)) (fuel : nat) (visited result : gset K) (queue : list K)
  : option (gset K) :=
  match queue with
  | [] => Some result
  | cur :: queue' =>
    match fuel with
    | O => None
    | S fuel' =>
      let '(visited', result', queue'') := bfs_edges (succs adj cur) visited result queue' in
      bfs adj fuel' visited' result' queue''
    end
  end.

Definition Reachable (adj : gmap K (list K)) (start : K) : option (gset K) :=
  bfs adj (S (size ({[start]} ∪ nodes adj))) {[start]} ∅ [start].

(** [score]: the loop over the children, threading [memo] and [visiting]. *)
Fixpoint score_children
    (rec : K → gmap K nat → gset K → option (nat * gmap K nat * gset K))
    (cs : list K) (best : nat) (memo : gmap K nat) (visiting : gset K)
  : option (nat * gmap K nat * gset K) :=
  match cs with
  | [] => Some (best, memo, visiting)
  | child :: rest =>
    '(s, memo', visiting') ← rec child memo visiting;
    score_children rec rest (if decide (best < s) then s else best) memo' visiting'
  end.

Fixpoint score (children : K → list K) (fuel : nat) (id : K) (memo : gmap K nat) (visiting : gset K)
  : option (nat * gmap K nat * gset K) :=
  match memo !! id with
  | Some v => Some (v, memo, visiting)
  | None =>
    if decide (id ∈ visiting) then Some (1, memo, visiting)
    else match fuel with
         | O => None
         | S fuel' =>
           '(best, memo', visiting') ←
             score_children (score children fuel') (children id) 0 memo ({[id]} ∪ visiting);
           let result := 1 + best in
           Some (result, <[id := result]> memo', visiting' ∖ {[id]})
         end
  end.

(** [Score start children], the children being given by a Go map. *)
Definition Score (adj : gmap K (list K)) (start : K) : option nat :=
  (λ r, r.1.1) <$> score (succs adj) (S (size ({[start]} ∪ nodes adj))) start ∅ ∅.

(** *** Reference notions *)

(** A walk lists nodes along consecutive edges. *)
Inductive walk (adj : gmap K (list K)) : list K → Prop :=
| walk_one x : walk adj [x]
| walk_step x y l : edge adj x y → walk adj (y :: l) → walk adj (x :: y :: l).

(** A closed walk [x; ...; x] with at least one edge. *)
Definition closed_walk (adj : gmap K (list K)) (c : list K) : Prop :=
  walk adj c ∧ ∃ x l, c = x :: l ++ [x].

(** [downchain x n]: some chain of [n] nodes starts at [x]. *)
Inductive downchain (adj : gmap K (list K)) : K → nat → Prop :=
| downchain_one x : downchain adj x 1
| downchain_step x y n : edge adj x y → downchain adj y n → downchain adj x (S n).

Definition longest_chain (adj : gmap K (list K)) (x : K) (n : nat) : Prop :=
  downchain adj x n ∧ ∀ m, downchain adj x m → m ≤ n.

(** Black nodes, latest first: every successor of a node is further back. *)
Inductive topo (adj : gmap K (list K)) : list K → Prop :=
| topo_nil : topo adj []
| topo_cons x l : x ∉ l → (∀ y, edge adj x y → y ∈ l) → topo adj l → topo adj (x :: l).

(** The gray nodes form a path of the parent map, the current node first. *)
Fixpoint chained (adj : gmap K (list K)) (par : gmap K K) (stk : list K) : Prop :=
  match stk with
  | x :: (y :: _) as rest => par !! x = Some y ∧ edge adj y x ∧ chained adj par rest
  | _ => True
  end.
End definitions.

(** ** Basic facts *)

Section graph_facts.
Context {K : Type} `{Countable K}.
Implicit Types (adj : gmap K (list K)) (x y : K).

#[export] Instance edge_dec adj : RelDecision (edge adj).
Proof. intros x y. unfold edge. apply _. Defined.

Lemma edge_nodes adj x y : edge adj x y → x ∈ nodes adj ∧ y ∈ nodes adj.
Proof.
  unfold edge, succs, nodes. destruct (adj !! x) as [l|] eqn:E; simpl; [|set_solver].
  intros Hy. split; [apply elem_of_union_l; by apply elem_of_dom|].
  apply elem_of_union_r, elem_of_union_list. exists (list_to_set l). split; [|set_solver].
  apply list_elem_of_fmap. exists l; split; [done|].
  apply list_elem_of_fmap. exists (x, l). split; [done|]. by apply elem_of_map_to_list.
Qed.

Lemma edge_dom adj x y : edge adj x y → x ∈ dom adj.
Proof. unfold edge, succs. rewrite elem_of_dom. destruct (adj !! x); set_solver. Qed.

Lemma dom_nodes adj x : x ∈ dom adj → x ∈ nodes adj.
Proof. unfold nodes. set_solver. Qed.

(** A duplicate-free list of graph nodes is no longer than the node count. *)
Lemma NoDup_size_le (U : gset K) (l : list K) :
  NoDup l → (∀ x, x ∈ l → x ∈ U) → length l ≤ size U.
Proof.
  intros Hnd Hin. rewrite <- (size_list_to_set (C:=gset K) l Hnd).
  apply subseteq_size. intros x. rewrite elem_of_list_to_set. apply Hin.
Qed.

Lemma walk_tc adj x l y : walk adj (x :: l ++ [y]) → tc (edge adj) x y.
Proof.
  revert x; induction l as [|z l IH]; simpl; intros x Hw; inversion Hw; subst.
  - by apply tc_once.
  - eapply tc_l; eauto.
Qed.

Lemma walk_app adj l x y l' :
  walk adj (l ++ [x]) → edge adj x y → walk adj (y :: l') → walk adj (l ++ [x] ++ y :: l').
Proof.
  induction l as [|z l IH]; simpl; intros Hw He Hw'; [by constructor|].
  destruct l as [|z' l]; simpl in *; inversion Hw; subst; constructor; auto.
Qed.

Lemma closed_walk_cyclic adj c : closed_walk adj c → ¬ acyclic adj.
Proof. intros [Hw (x & l & ->)] Hac. apply (Hac x). by eapply walk_tc. Qed.

Lemma topo_step adj l x y : topo adj l → x ∈ l → edge adj x y →
  ∃ l1 l2, l = l1 ++ x :: l2 ∧ y ∈ l2 ∧ topo adj l2 ∧ x ∉ l2.
Proof.
  induction 1 as [|z l Hz Hs Ht IH]; [set_solver|].
  intros [->|Hx]%elem_of_cons He.
  - exists [], l. eauto.
  - destruct (IH Hx He) as (l1 & l2 & -> & ?). exists (z :: l1), l2. eauto.
Qed.

(** Along edges one only moves further back in a [topo] list. *)
Lemma topo_tc adj x y : tc (edge adj) x y →
  ∀ l, topo adj l → x ∈ l → ∃ l1 l2, l = l1 ++ x :: l2 ∧ y ∈ l2 ∧ topo adj l2 ∧ x ∉ l2.
Proof.
  induction 1 as [x y He|x y z He Htc IH]; intros l Ht Hx.
  - by eapply topo_step.
  - destruct (topo_step _ _ _ _ Ht Hx He) as (l1 & l2 & -> & Hy & Ht2 & Hn).
    exists l1, l2. split; [done|].
    destruct (IH l2 Ht2 Hy) as (l3 & l4 & -> & Hz & ? & ?). set_solver.
Qed.

Lemma topo_acyclic_on adj l : topo adj l → ∀ x, x ∈ l → ¬ tc (edge adj) x x.
Proof. intros Ht x Hx Htc. destruct (topo_tc _ _ _ Htc l Ht Hx) as (?&?&?&?&?&?). done. Qed.

Lemma tc_first adj x y : tc (edge adj) x y → ∃ z, edge adj x z.
Proof. inversion 1; eauto. Qed.
End graph_facts.

(** ** DetectCycles *)

Section detect_cycles.
Context {K : Type} `{Countable K} (zero : K) (adj : gmap K (list K)).
Implicit Types (x y : K) (stk fin : list K) (st : dfs_state (K:=K)).

(** [stk] lists the gray nodes, innermost first, and [fin] the black ones,
    latest first. *)
Record dfs_inv st stk fin : Prop := {
  inv_gray : ∀ x, color_of st x = gray ↔ x ∈ stk;
  inv_black : ∀ x, color_of st x = black ↔ x ∈ fin;
  inv_nodup : NoDup stk;
  inv_nodes : ∀ x, x ∈ stk → x ∈ nodes adj;
  inv_chain : chained adj (parent st) stk;
  inv_sound : Forall (closed_walk adj) (cycles st);
  inv_topo : cycles st = [] → topo adj fin
}.

Lemma color_of_paint st x c y :
  color_of (paint x c st) y = if decide (x = y) then c else color_of st y.
Proof. unfold color_of, paint; simpl. rewrite lookup_insert. by case_decide. Qed.

Lemma chained_insert par x p stk : x ∉ stk → chained adj par stk → chained adj (<[x:=p]> par) stk.
Proof.
  induction stk as [|a [|b stk] IH]; simpl; [done..|].
  intros Hx (Hp & He & Hc). rewrite lookup_insert_ne by set_solver.
  split; [done|]. split; [done|]. apply IH; [set_solver|done].
Qed.

(** The unwinding loop walks the stack down to [next]. *)
Lemma unwind_chained par l1 next l2 fuel cur acc :
  chained adj par (cur :: l1 ++ next :: l2) → NoDup (cur :: l1 ++ next :: l2) →
  S (length l1) ≤ fuel →
  unwind zero par fuel cur next acc = Some (acc ++ l1 ++ [next]).
Proof.
  revert cur acc fuel. induction l1 as [|a l1 IH]; intros cur acc fuel Hc Hnd Hf;
    (destruct fuel as [|fuel]; [simpl in Hf; lia|]); simpl in *.
  - destruct Hc as (Hp & _). rewrite decide_False by (apply NoDup_cons in Hnd; set_solver).
    rewrite Hp. simpl. destruct fuel; simpl; by rewrite decide_True.
  - destruct Hc as (Hp & He & Hc). rewrite decide_False by (apply NoDup_cons in Hnd; set_solver).
    rewrite Hp. simpl. rewrite (IH a); [by rewrite <- app_assoc|done| |lia].
    by apply NoDup_cons in Hnd as [_ ?].
Qed.

Lemma unwind_stack par stk node next fuel :
  chained adj par (node :: stk) → NoDup (node :: stk) → next ∈ node :: stk →
  length (node :: stk) ≤ fuel →
  ∃ l1 l2, node :: stk = l1 ++ next :: l2 ∧
    unwind zero par fuel node next [next; node] = Some (next :: (if l1 is [] then [node] else l1 ++ [next])).
Proof.
  intros Hc Hnd [->|Hin]%elem_of_cons Hf.
  - exists [], stk. split; [done|]. destruct fuel; simpl; by rewrite decide_True.
  - apply list_elem_of_split in Hin as (l1 & l2 & ->).
    exists (node :: l1), l2. split; [done|].
    rewrite (unwind_chained _ l1 next l2); [done|done|done|].
    simpl in Hf. rewrite length_app in Hf. simpl in Hf. lia.
Qed.

Lemma chained_walk par x l : chained adj par (x :: l) → walk adj (reverse (x :: l)).
Proof.
  revert x. induction l as [|y l IH]; intros x Hc; [constructor|].
  destruct Hc as (_ & He & Hc). specialize (IH y Hc).
  rewrite !reverse_cons, <- app_assoc in *. apply walk_app; [done|done|constructor].
Qed.

Lemma chained_app_l par l1 l2 : chained adj par (l1 ++ l2) → chained adj par l1.
Proof.
  induction l1 as [|a l1 IH]; [done|]. destruct l1 as [|b l1]; [done|].
  intros (? & ? & ?). split_and!; auto.
Qed.

(** A back edge found on the stack is reported as a closed walk. *)
Lemma back_edge_closed par stk node next fuel :
  chained adj par (node :: stk) → NoDup (node :: stk) → next ∈ node :: stk →
  edge adj node next → length (node :: stk) ≤ fuel →
  ∃ c, unwind zero par fuel node next [next; node] = Some c ∧ closed_walk adj (reverse c).
Proof.
  intros Hc Hnd Hin He Hf.
  destruct (unwind_stack par stk node next fuel) as (l1 & l2 & Hs & ->); [done..|].
  eexists; split; [done|]. destruct l1 as [|a l1]; simpl in Hs; injection Hs as <- Hs.
  - split; [|by exists node, []]. by repeat constructor.
  - rewrite Hs, cons_middle, (app_assoc l1 [next] l2) in Hc. apply (chained_app_l _ (node :: l1 ++ [next]) l2) in Hc.
    apply chained_walk in Hc.
    assert (reverse (node :: l1 ++ [next]) = (next :: reverse l1) ++ [node]) as Hrev
      by (by rewrite reverse_cons, reverse_app).
    cbn [app]. rewrite Hrev in Hc. rewrite reverse_cons, Hrev. split; [|by exists next, (reverse l1 ++ [node])].
    rewrite <- app_assoc. apply walk_app; [done|done|constructor].
Qed.

Definition dfs_post stk (node : K) fin st (r : option (dfs_state (K:=K))) : Prop :=
  ∃ st' fin' cs, r = Some st' ∧ dfs_inv st' stk fin' ∧ node ∈ fin' ∧
    fin `suffix_of` fin' ∧ cycles st' = cycles st ++ cs.

(** The loop over the successors, given the recursive call's contract. *)
Lemma dfs_edges_spec ufuel rec node stk nexts st fin :
  (∀ next st fin, dfs_inv st (node :: stk) fin → color_of st next = white →
     parent st !! next = Some node → edge adj node next →
     dfs_post (node :: stk) next fin st (rec next st)) →
  dfs_inv st (node :: stk) fin → (∀ next, next ∈ nexts → edge adj node next) →
  size (nodes adj) ≤ ufuel →
  ∃ st' fin' cs, dfs_edges zero ufuel rec node nexts st = Some st' ∧
    dfs_inv st' (node :: stk) fin' ∧ fin `suffix_of` fin' ∧ cycles st' = cycles st ++ cs ∧
    (cycles st' = [] → ∀ next, next ∈ nexts → next ∈ fin').
Proof.
  intros Hrec. revert st fin. induction nexts as [|next nexts IH]; intros st fin Hinv Hedge Hu; simpl.
  { exists st, fin, []. rewrite app_nil_r. split_and!; set_solver. }
  assert (edge adj node next) as Hen by set_solver.
  destruct (color_of st next) eqn:Hc.
  - destruct (Hrec next (set_parent next node st) fin) as (st1 & fin1 & cs1 & -> & Hinv1 & Hn1 & Hsuf1 & Hcs1).
    { destruct Hinv; split; try done. apply chained_insert; [|done].
      intros Hin. assert (color_of st next = gray) by (by apply inv_gray0). congruence. }
    { done. } { simpl. by rewrite lookup_insert_eq. } { done. }
    simpl. destruct (IH st1 fin1) as (st2 & fin2 & cs2 & -> & Hinv2 & Hsuf2 & Hcs2 & Hall); [done|set_solver|done|].
    exists st2, fin2, (cs1 ++ cs2). split_and!; try done.
    + by etrans.
    + by rewrite Hcs2, Hcs1, app_assoc.
    + intros Hnil next' [->|?]%elem_of_cons; [|by auto].
      destruct Hsuf2 as [? ->]. set_solver.
  - destruct (back_edge_closed (parent st) stk node next ufuel) as (c & -> & Hcl).
    { apply Hinv. } { apply Hinv. } { by apply (inv_gray _ _ _ Hinv). } { done. }
    { etrans; [|done]. apply NoDup_size_le; apply Hinv. }
    simpl. destruct (IH (add_cycle (reverse c) st) fin) as (st2 & fin2 & cs2 & -> & Hinv2 & Hsuf2 & Hcs2 & Hall); [|set_solver|done|].
    { destruct Hinv; split; try done; simpl; [by apply Forall_app_2; [|apply Forall_singleton]|].
      intros Hnil. by apply app_nil in Hnil as [_ ?]. }
    exists st2, fin2, (reverse c :: cs2). simpl in Hcs2. rewrite <- app_assoc in Hcs2.
    split_and!; try done. rewrite Hcs2. intros Hnil. by apply app_nil in Hnil as [_ ?].
  - destruct (IH st fin) as (st2 & fin2 & cs2 & -> & Hinv2 & Hsuf2 & Hcs2 & Hall); [done|set_solver|done|].
    exists st2, fin2, cs2. split_and!; try done.
    intros Hnil next' [->|?]%elem_of_cons; [|by auto].
    apply (inv_black _ _ _ Hinv) in Hc. destruct Hsuf2 as [? ->]. set_solver.
Qed.

Lemma dfs_spec ufuel fuel node stk st fin :
  dfs_inv st stk fin → color_of st node = white → node ∈ nodes adj →
  chained adj (parent st) (node :: stk) →
  size (nodes adj) ≤ ufuel → size (nodes adj) ≤ fuel + length stk →
  dfs_post stk node fin st (dfs zero adj ufuel fuel node st).
Proof.
  revert node stk st fin. induction fuel as [|fuel IH]; intros node stk st fin Hinv Hw Hn Hc Hu Hf.
  - exfalso. assert (node ∉ stk) by (rewrite <- (inv_gray _ _ _ Hinv), Hw; done).
    pose proof (NoDup_size_le (nodes adj) (node :: stk)) as Hle. simpl in Hle, Hf.
    assert (S (length stk) ≤ size (nodes adj)); [|lia].
    apply Hle; [constructor; [done|apply Hinv]|].
    intros x [->|?]%elem_of_cons; [done|by apply (inv_nodes _ _ _ Hinv)].
  - simpl. assert (node ∉ stk) as Hns by (rewrite <- (inv_gray _ _ _ Hinv), Hw; done).
    destruct (dfs_edges_spec ufuel (dfs zero adj ufuel fuel) node stk (succs adj node) (paint node gray st) fin)
      as (st1 & fin1 & cs & -> & Hinv1 & Hsuf & Hcs & Hall).
    { intros next st0 fin0 Hinv0 Hw0 Hp0 He0. apply IH; try done.
      - by apply (edge_nodes adj node).
      - split_and!; [done|done|apply Hinv0].
      - simpl. lia. }
    { destruct Hinv; split; try done.
      - intros x. rewrite color_of_paint. case_decide; set_solver.
      - intros x. rewrite color_of_paint. case_decide; [|done]. subst.
        rewrite <- inv_black0. split; [done|congruence].
      - by constructor.
      - set_solver. }
    { done. } { done. }
    simpl. exists (paint node black st1), (node :: fin1), cs.
    assert (node ∉ fin1) as Hnf.
    { rewrite <- (inv_black _ _ _ Hinv1). intros Hb.
      assert (color_of st1 node = gray) by (apply (inv_gray _ _ _ Hinv1); set_solver). congruence. }
    split_and!; try done; [|set_solver|by apply suffix_cons_r].
    destruct Hinv1 as [Hg Hb Hnd Hnodes Hch Hs Ht]. split; simpl; try done.
    + intros x. rewrite color_of_paint. case_decide; [subst; set_solver|]. rewrite Hg. set_solver.
    + intros x. rewrite color_of_paint. case_decide; [subst; set_solver|]. rewrite Hb. set_solver.
    + by apply NoDup_cons in Hnd as [_ ?].
    + set_solver.
    + destruct stk; [done|]. by destruct Hch as (_ & _ & ?).
    + intros Hnil. constructor; [done| |by apply Ht]. intros y Hy. by apply Hall.
Qed.
End detect_cycles.

Section detect_cycles_top.
Context {K : Type} `{Countable K} (zero : K) (adj : gmap K (list K)).

Lemma dfs_roots_spec order (st : dfs_state (K:=K)) fin :
  dfs_inv adj st [] fin → (∀ x, x ∈ order → x ∈ nodes adj) →
  ∃ st' fin', dfs_roots zero adj (graph_fuel adj) order st = Some st' ∧
    dfs_inv adj st' [] fin' ∧ fin `suffix_of` fin' ∧ (∀ x, x ∈ order → x ∈ fin').
Proof.
  revert st fin. induction order as [|x order IH]; intros st fin Hinv Hin; cbn [dfs_roots].
  { exists st, fin. split_and!; set_solver. }
  destruct (color_of st x) eqn:Hc.
  - destruct (dfs_spec zero adj (graph_fuel adj) (graph_fuel adj) x [] st fin)
      as (st1 & fin1 & cs & -> & Hinv1 & Hx & Hsuf & _);
      [done|done|set_solver|done|unfold graph_fuel; lia|unfold graph_fuel; simpl; lia|].
    cbn [mbind option_bind].
    destruct (IH st1 fin1) as (st2 & fin2 & -> & Hinv2 & Hsuf2 & Hall); [done|set_solver|].
    exists st2, fin2. split_and!; try done; [by etrans|].
    intros y [->|?]%elem_of_cons; [|auto]. destruct Hsuf2 as [? ->]. set_solver.
  - apply (inv_gray _ _ _ _ Hinv) in Hc. set_solver.
  - destruct (IH st fin) as (st2 & fin2 & -> & Hinv2 & Hsuf2 & Hall); [done|set_solver|].
    exists st2, fin2. split_and!; try done.
    intros y [->|?]%elem_of_cons; [|auto].
    apply (inv_black _ _ _ _ Hinv) in Hc. destruct Hsuf2 as [? ->]. set_solver.
Qed.

Lemma DetectCycles_spec order :
  range_order adj order →
  ∃ cs, DetectCycles zero order adj = Some cs ∧
    Forall (closed_walk adj) cs ∧ (cs = [] ↔ acyclic adj).
Proof.
  intros Ho. destruct (dfs_roots_spec order (DfsState ∅ ∅ []) []) as (st & fin & Hr & Hinv & _ & Hall).
  { split; simpl; [intros x; unfold color_of; simpl; rewrite lookup_empty; set_solver|intros x; unfold color_of; simpl; rewrite lookup_empty; set_solver|constructor|set_solver|done|done|constructor]. }
  { intros x Hx. apply dom_nodes. by apply (range_order_elem adj order). }
  exists (cycles st). unfold DetectCycles. rewrite Hr. split; [done|]. split; [apply Hinv|].
  split.
  - intros Hnil x Htc. destruct (tc_first _ _ _ Htc) as [y Hy%edge_dom].
    eapply topo_acyclic_on; [by apply (inv_topo _ _ _ _ Hinv)| |done].
    apply Hall. by apply (range_order_elem adj order).
  - intros Hac. destruct (cycles st) as [|c cs] eqn:E; [done|].
    exfalso. pose proof (inv_sound _ _ _ _ Hinv) as Hs. rewrite E in Hs.
    apply Forall_cons in Hs as [Hc _]. by apply closed_walk_cyclic in Hc.
Qed.

(** [DetectCycles] terminates on every adjacency map and in every map
    iteration order; each cycle it returns is a closed walk of the graph, and
    it returns none exactly when the graph is acyclic. *)
Theorem DetectCycles_correct order :
  range_order adj order →
  ∃ cs, DetectCycles zero order adj = Some cs ∧
    Forall (closed_walk adj) cs ∧ (cs = [] ↔ acyclic adj).
Proof. apply DetectCycles_spec. Qed.
End detect_cycles_top.

Lemma DetectCycles_correct_witness :
  DetectCycles 0 [1; 2; 3] {[1 := [2]; 2 := [3]; 3 := [1]]} = Some [[1; 2; 3; 1]] ∧
  ∃ cs, DetectCycles 0 [1; 2; 3] {[1 := [2]; 2 := [3]; 3 := [1]]} = Some cs ∧
    Forall (closed_walk {[1 := [2]; 2 := [3]; 3 := [1]]}) cs ∧
    (cs = [] ↔ acyclic {[1 := [2]; 2 := [3]; 3 := [1]]}).
Proof.
  split; [vm_compute; reflexivity|].
  apply (DetectCycles_correct 0 {[1 := [2]; 2 := [3]; 3 := [1]]} [1; 2; 3]).
  range_order_tac.
Defined.

(** ** ReverseEdges *)

Section reverse_edges.
Context {K : Type} `{Countable K}.
Implicit Types (adj rev : gmap K (list K)) (x y : K).

Lemma succs_insert rev x y l : succs (<[x := l]> rev) y = if decide (x = y) then l else succs rev y.
Proof. unfold succs. rewrite lookup_insert. by case_decide. Qed.

Lemma push_edges_elem from tos rev to x :
  x ∈ succs (foldl (λ r to, push_edge r to from) rev tos) to ↔
  x ∈ succs rev to ∨ (x = from ∧ to ∈ tos).
Proof.
  revert rev. induction tos as [|t tos IH]; intros rev; simpl; [set_solver|].
  rewrite IH. unfold push_edge. rewrite succs_insert. case_decide; set_solver.
Qed.

Lemma push_edges_dom from tos rev :
  dom rev ⊆ dom (foldl (λ r to, push_edge r to from) rev tos).
Proof.
  revert rev. induction tos as [|t tos IH]; intros rev; simpl; [done|].
  etrans; [|apply IH]. unfold push_edge. rewrite dom_insert_L. set_solver.
Qed.

Lemma ReverseEdges_fold adj order rev :
  let r := foldl (λ rev from,
    let rev' := foldl (λ r to, push_edge r to from) rev (succs adj from) in
    match rev' !! from with
    | Some _ => rev'
    | None => <[from := []]> rev'
    end) rev order in
  (∀ x to, x ∈ succs r to ↔ x ∈ succs rev to ∨ (x ∈ order ∧ edge adj x to)) ∧
  (∀ x, x ∈ order ∨ x ∈ dom rev → x ∈ dom r).
Proof.
  revert rev. induction order as [|from order IH]; intros rev; simpl; [set_solver|].
  set (rev' := foldl (λ r to, push_edge r to from) rev (succs adj from)).
  set (rev'' := match rev' !! from with Some _ => rev' | None => <[from:=[]]> rev' end).
  assert (∀ x to, x ∈ succs rev'' to ↔ x ∈ succs rev' to) as Hsame.
  { intros x to. unfold rev''. destruct (rev' !! from) eqn:E; [done|].
    rewrite succs_insert. case_decide; [|done]. subst to. unfold succs at 1. by rewrite E. }
  assert (from ∈ dom rev'' ∧ dom rev' ⊆ dom rev'') as [Hf Hd].
  { unfold rev''. destruct (rev' !! from) eqn:E; [by split; [apply elem_of_dom; eauto|]|].
    rewrite dom_insert_L. set_solver. }
  destruct (IH rev'') as [IH1 IH2]. split.
  - intros x to. rewrite IH1, Hsame. unfold rev'. rewrite push_edges_elem. unfold edge. set_solver.
  - intros x Hx. apply IH2. pose proof (push_edges_dom from (succs adj from) rev). set_solver.
Qed.

Lemma ReverseEdges_spec adj order :
  range_order adj order →
  (∀ x y, edge (ReverseEdges order adj) y x ↔ edge adj x y) ∧
  (∀ x, x ∈ dom adj → x ∈ dom (ReverseEdges order adj)).
Proof.
  intros Ho. destruct (ReverseEdges_fold adj order ∅) as [H1 H2]. unfold ReverseEdges, edge. split.
  - intros x y. rewrite H1. unfold succs at 1. rewrite lookup_empty. simpl.
    rewrite (range_order_elem adj order) by done. split; [set_solver|].
    intros Hx. right. split; [by eapply edge_dom|done].
  - intros x Hx. apply H2. left. by apply (range_order_elem adj order).
Qed.

(** [ReverseEdges] inverts exactly the edges of the graph and keeps every
    node of the input as a key, whatever the map iteration order. *)
Theorem ReverseEdges_correct adj order :
  range_order adj order →
  (∀ x y, edge (ReverseEdges order adj) y x ↔ edge adj x y) ∧
  (∀ x, x ∈ dom adj → x ∈ dom (ReverseEdges order adj)).
Proof. apply ReverseEdges_spec. Qed.
End reverse_edges.

Lemma ReverseEdges_correct_witness :
  ReverseEdges [2; 1] {[1 := [2; 3]; 2 := [3]]} = {[1 := []; 2 := [1]; 3 := [2; 1]]} ∧
  (∀ x y, edge (ReverseEdges [2; 1] {[1 := [2; 3]; 2 := [3]]}) y x ↔ edge {[1 := [2; 3]; 2 := [3]]} x y) ∧
  (∀ x, x ∈ dom ({[1 := [2; 3]; 2 := [3]]} : gmap nat (list nat)) →
        x ∈ dom (ReverseEdges [2; 1] {[1 := [2; 3]; 2 := [3]]})).
Proof.
  split; [vm_compute; reflexivity|].
  apply (ReverseEdges_correct {[1 := [2; 3]; 2 := [3]]} [2; 1]).
  range_order_tac.
Defined.

(** ** Reachable *)

Section reachable.
Context {K : Type} `{Countable K}.
Implicit Types (adj : gmap K (list K)) (visited result : gset K) (queue nexts : list K).

Lemma bfs_edges_spec nexts visited result queue :
  ∃ new, bfs_edges nexts visited result queue =
      (list_to_set new ∪ visited, list_to_set new ∪ result, queue ++ new) ∧
    NoDup new ∧ (∀ x, x ∈ new → x ∈ nexts ∧ x ∉ visited) ∧
    (∀ x, x ∈ nexts → x ∈ new ∨ x ∈ visited).
Proof.
  revert visited result queue.
  induction nexts as [|n nexts IH]; intros visited result queue; simpl.
  { exists []. rewrite app_nil_r. split_and!; [simpl; by rewrite !(left_id_L ∅ (∪))|constructor|set_solver..]. }
  case_decide.
  { destruct (IH visited result queue) as (new & -> & ? & ? & ?). exists new. set_solver. }
  destruct (IH ({[n]} ∪ visited) ({[n]} ∪ result) (queue ++ [n])) as (new & -> & Hnd & Hin & Hall).
  exists (n :: new). rewrite <- app_assoc. split_and!; [|constructor; set_solver|set_solver..].
  assert (∀ X : gset K, list_to_set new ∪ ({[n]} ∪ X) = list_to_set (n :: new) ∪ X) as Heq by set_solver.
  by rewrite !Heq.
Qed.

(** What holds at the head of the BFS loop. *)
Record bfs_inv adj (start : K) visited result queue : Prop := {
  bfs_visited : visited = {[start]} ∪ result;
  bfs_start : start ∉ result;
  bfs_queue : ∀ x, x ∈ queue → x ∈ visited;
  bfs_sound : ∀ x, x ∈ visited → rtc (edge adj) start x;
  bfs_closed : ∀ x y, x ∈ visited → edge adj x y → x ∈ queue ∨ y ∈ visited
}.

Lemma rtc_universe adj start x : rtc (edge adj) start x → x ∈ {[start]} ∪ nodes adj.
Proof.
  intros Hr. apply rtc_inv_r in Hr as [->|(y & _ & [_ ?]%edge_nodes)]; set_solver.
Qed.

Lemma bfs_inv_step adj start visited result cur queue new :
  bfs_inv adj start visited result (cur :: queue) →
  (∀ x, x ∈ new → x ∈ succs adj cur ∧ x ∉ visited) →
  (∀ x, x ∈ succs adj cur → x ∈ new ∨ x ∈ visited) →
  bfs_inv adj start (list_to_set new ∪ visited) (list_to_set new ∪ result) (queue ++ new).
Proof.
  intros [Hv Hs Hq Hsnd Hcl] Hin Hall. split.
  - set_solver.
  - intros [Hn%elem_of_list_to_set|?]%elem_of_union; [|done].
    apply Hin in Hn as [_ Hn]. set_solver.
  - set_solver.
  - intros x [Hx%elem_of_list_to_set|?]%elem_of_union; [|auto].
    apply Hin in Hx as [Hx _]. apply rtc_r with cur; [apply Hsnd, Hq; set_solver|done].
  - intros x y [Hx%elem_of_list_to_set|Hx]%elem_of_union Hxy; [set_solver|].
    destruct (Hcl x y Hx Hxy) as [[->|?]%elem_of_cons|?]; [|set_solver..].
    destruct (Hall y Hxy); set_solver.
Qed.

Lemma bfs_spec adj start fuel visited result queue :
  bfs_inv adj start visited result queue →
  size ({[start]} ∪ nodes adj) + length queue ≤ fuel + size visited →
  ∃ r, bfs adj fuel visited result queue = Some r ∧
    ∀ x, x ∈ r ↔ x ≠ start ∧ rtc (edge adj) start x.
Proof.
  revert visited result queue.
  induction fuel as [|fuel IH]; intros visited result [|cur queue] Hinv Hfuel; cbn [bfs].
  2: { assert (size visited ≤ size ({[start]} ∪ nodes adj)); [|simpl in *; lia].
       apply subseteq_size. intros x Hx. by eapply rtc_universe, bfs_sound. }
  3: { destruct (bfs_edges_spec (succs adj cur) visited result queue) as (new & -> & Hnd & Hin & Hall).
       apply IH; [by eapply bfs_inv_step|].
       rewrite (size_union (list_to_set new)) by set_solver.
       rewrite (size_list_to_set (C:=gset K) new), length_app by done.
       simpl in *. lia. }
  all: exists result; split; [done|]; destruct Hinv as [-> Hs _ Hsnd Hcl]; intros x; split;
    [intros Hx; split; [set_solver|apply Hsnd; set_solver]|].
  all: intros [Hne Hr]; enough (x ∈ {[start]} ∪ result) by set_solver;
    revert Hr; apply (rtc_ind_r (λ x, x ∈ {[start]} ∪ result)); [set_solver|];
    intros y z _ Hyz Hy; destruct (Hcl y z Hy Hyz); set_solver.
Qed.

Lemma Reachable_spec adj (start : K) :
  ∃ r, Reachable adj start = Some r ∧ ∀ x, x ∈ r ↔ x ≠ start ∧ rtc (edge adj) start x.
Proof.
  apply bfs_spec.
  - split; [set_solver..| |set_solver].
    intros x ->%elem_of_singleton. apply rtc_refl.
  - rewrite size_singleton. simpl. lia.
Qed.

(** [Reachable] terminates and returns exactly the nodes other than
    [start] that a path from [start] reaches. *)
Theorem Reachable_correct adj (start : K) :
  ∃ r, Reachable adj start = Some r ∧ ∀ x, x ∈ r ↔ x ≠ start ∧ rtc (edge adj) start x.
Proof. apply Reachable_spec. Qed.
End reachable.

(** ** Score *)

Section score.
Context {K : Type} `{Countable K} (adj : gmap K (list K)).
Implicit Types (memo : gmap K nat) (visiting U : gset K).

Lemma downchain_pos x n : downchain adj x n → 1 ≤ n.
Proof. inversion 1; lia. Qed.

Lemma longest_chain_unfold x best :
  (best = 0 ∨ ∃ y, edge adj x y ∧ downchain adj y best) →
  (∀ y m, edge adj x y → downchain adj y m → m ≤ best) →
  longest_chain adj x (S best).
Proof.
  intros Hb Hmax. split.
  - destruct Hb as [->|(y & ? & ?)]; [apply downchain_one|by eapply downchain_step].
  - intros m Hm. inversion Hm; subst; [lia|]. apply le_n_S. eauto.
Qed.

Definition memo_chains memo : Prop := ∀ x v, memo !! x = Some v → downchain adj x v.
Definition memo_longest memo : Prop := ∀ x v, memo !! x = Some v → longest_chain adj x v.

(** The result of one call of [score]: it returns, restores [visiting], and its
    value is the length of a chain, the longest one when the graph is acyclic
    and the nodes being visited are ancestors. *)
Definition score_post (id : K) memo visiting (r : option (nat * gmap K nat * gset K)) : Prop :=
  ∃ v memo', r = Some (v, memo', visiting) ∧ downchain adj id v ∧ memo_chains memo' ∧
    (acyclic adj → (∀ y, y ∈ visiting → tc (edge adj) y id) → memo_longest memo →
     longest_chain adj id v ∧ memo_longest memo').

Lemma score_children_spec rec id cs best memo visiting :
  (∀ c memo, c ∈ cs → memo_chains memo → score_post c memo visiting (rec c memo visiting)) →
  (∀ c, c ∈ cs → edge adj id c) →
  memo_chains memo →
  (best = 0 ∨ ∃ y, edge adj id y ∧ downchain adj y best) →
  ∃ best' memo', score_children rec cs best memo visiting = Some (best', memo', visiting) ∧
    memo_chains memo' ∧ (best' = 0 ∨ ∃ y, edge adj id y ∧ downchain adj y best') ∧ best ≤ best' ∧
    (acyclic adj → (∀ y, y ∈ visiting → rtc (edge adj) y id) → memo_longest memo →
     memo_longest memo' ∧ ∀ y m, y ∈ cs → downchain adj y m → m ≤ best').
Proof.
  revert best memo. induction cs as [|c cs IH]; intros best memo Hrec Hcs Hm Hb; simpl.
  { exists best, memo. split_and!; try done. intros; split; [done|set_solver]. }
  destruct (Hrec c memo) as (s & memo1 & -> & Hs & Hm1 & Hl1); [set_solver|done|]. simpl.
  destruct (IH (if decide (best < s) then s else best) memo1)
    as (best' & memo' & -> & Hm' & Hb' & Hle & Hl'); [set_solver|set_solver|done| |].
  { case_decide; [right; exists c; split; [apply Hcs; set_solver|done]|done]. }
  exists best', memo'. split_and!; try done; [case_decide; lia|].
  intros Hac Hvis Hlong. destruct Hl1 as [Hs1 Hl1]; [done| |done|].
  { intros y Hy. eapply tc_rtc_l; [by apply Hvis|]. apply tc_once, Hcs. set_solver. }
  destruct Hl' as [? Hmax]; [done..|]. split; [done|].
  intros y m [->|Hy]%elem_of_cons Hd; [|by eapply Hmax].
  apply Hs1 in Hd. case_decide; lia.
Qed.

Lemma score_spec U fuel id memo visiting :
  (∀ x y, x ∈ U → edge adj x y → y ∈ U) →
  id ∈ U → visiting ⊆ U → memo_chains memo → size U < fuel + size visiting →
  score_post id memo visiting (score (succs adj) fuel id memo visiting).
Proof.
  intros HU. revert id memo visiting. induction fuel as [|fuel IH]; intros id memo visiting Hid Hvis Hm Hf.
  { apply subseteq_size in Hvis. lia. }
  simpl. destruct (memo !! id) as [v|] eqn:E.
  { exists v, memo. split_and!; auto. }
  case_decide as Hv.
  { exists 1, memo. split_and!; [done|constructor|done|].
    intros Hac Hanc _. by destruct (Hac id); apply Hanc. }
  destruct (score_children_spec (score (succs adj) fuel) id (succs adj id) 0 memo ({[id]} ∪ visiting))
    as (best & memo' & -> & Hm' & Hb & _ & Hl); [| |done|by left|].
  { intros c m Hc Hmm. apply IH; [by eapply HU|set_solver|done|].
    rewrite size_union, size_singleton by set_solver. lia. }
  { done. }
  cbn -[Nat.add]. replace (({[id]} ∪ visiting) ∖ {[id]}) with visiting by set_solver.
  exists (1 + best), (<[id:=1 + best]> memo').
  assert (downchain adj id (1 + best)) as Hd.
  { destruct Hb as [->|(y & ? & ?)]; [apply downchain_one|by eapply downchain_step]. }
  split_and!; [done|done| |].
  { intros x v [[<- <-]|[_ ?]]%lookup_insert_Some; [done|by apply Hm']. }
  intros Hac Hanc Hlong. destruct Hl as [Hlm Hmax]; [done| |done|].
  { intros y [->%elem_of_singleton|?]%elem_of_union; [apply rtc_refl|by apply tc_rtc, Hanc]. }
  assert (longest_chain adj id (1 + best)) by (apply longest_chain_unfold; eauto).
  split; [done|]. intros x v [[<- <-]|[_ ?]]%lookup_insert_Some; [done|by apply Hlm].
Qed.

(** [Score] against the reference notions. *)
Lemma Score_spec (start : K) :
  ∃ n, Score adj start = Some n ∧ downchain adj start n ∧
    (acyclic adj → longest_chain adj start n).
Proof.
  destruct (score_spec ({[start]} ∪ nodes adj) (S (size ({[start]} ∪ nodes adj))) start ∅ ∅)
    as (v & memo & Hr & Hd & _ & Hl).
  - intros x y _ [_ ?]%edge_nodes. set_solver.
  - set_solver.
  - set_solver.
  - intros x w. by rewrite lookup_empty.
  - lia.
  - exists v. unfold Score. rewrite Hr. split_and!; [done|done|].
    intros Hac. destruct Hl as [? _]; [done|set_solver| |done]. intros x w. by rewrite lookup_empty.
Qed.

(** [Score] terminates on every graph, cyclic ones included; its value is
    the number of nodes of some downstream chain of [start], and on an acyclic
    graph it is the longest such chain. *)
Theorem Score_correct (start : K) :
  ∃ n, Score adj start = Some n ∧ downchain adj start n ∧
    (acyclic adj → longest_chain adj start n).
Proof. apply Score_spec. Qed.

(** A node without outgoing edges, known to the graph or not, scores 1 (the
    comment of [Score] says 0 for an unknown node). *)
Lemma Score_unknown (start : K) : adj !! start = None → Score adj start = Some 1.
Proof.
  intros E. unfold Score. cbn [score]. rewrite lookup_empty. simpl. unfold succs. rewrite E.
  rewrite decide_False by set_solver. done.
Qed.
End score.
