(* ===== verification/TaskBatch.v ===== *)
(** * Dependency checks of task requests (internal/handler: tasks.go, tasks_autoimplement.go)

    [taskReachableInAdj] is the depth-first search that guards a new dependency;
    [batch_order] is the topological sort of a batch of new tasks ([BatchCreateTasks],
    step 5).  Slices indexed by position are lists; the searches take fuel, and
    the theorems show that one unit per node is enough. *)

From S2P Require Import Prelude Dag.
From stdpp Require Import list gmap.

Section reach.
Context {K : Type} `{Countable K}.
Implicit Types (adj : gmap K (list K)) (visited U : gset K).

Fixpoint reach_edges (rec : K → gset K → option (bool * gset K)) (deps : list K) visited : option (bool * gset K) :=
  match deps with
  | [] => Some (false, visited)
  | dep :: rest =>
    match rec dep visited with
    | Some (true, visited') => Some (true, visited')
    | Some (false, visited') => reach_edges rec rest visited'
    | None => None
    end
  end.

Fixpoint reach_dfs adj (target : K) (fuel : nat) (cur : K) visited : option (bool * gset K) :=
  match fuel with
  | O => None
  | S fuel =>
    if decide (cur = target) then Some (true, visited)
    else if decide (cur ∈ visited) then Some (false, visited)
    else reach_edges (reach_dfs adj target fuel) (succs adj cur) ({[cur]} ∪ visited)
  end.

Definition taskReachableInAdj adj (start target : K) : option bool :=
  fst <$> reach_dfs adj target (S (size ({[start]} ∪ nodes adj))) start ∅.
End reach.

(** ** The topological sort of a batch *)

(** [inDegree] and [batchAdj] for the edges (dependency, dependent), in order. *)
Definition in_degree (n : nat) (es : list (nat * nat)) : list Z :=
  foldl (λ deg e, alter (Z.add 1) e.2 deg) (replicate n 0%Z) es.
Definition batch_adj (n : nat) (es : list (nat * nat)) : list (list nat) :=
  foldl (λ adj e, alter (λ l, l ++ [e.2]) e.1 adj) (replicate n []) es.

(** The dependents of a task that was emitted: their degrees go down, and those
    that reach zero join the queue. *)
Fixpoint relax (nexts : list nat) (deg : list Z) (queue : list nat) : list Z * list nat :=
  match nexts with
  | [] => (deg, queue)
  | next :: rest =>
    let deg := alter Z.pred next deg in
    relax rest deg (if bool_decide (deg !! next = Some 0%Z) then queue ++ [next] else queue)
  end.

Fixpoint kahn (adj : list (list nat)) (fuel : nat) (deg : list Z) (queue order : list nat) : option (list nat) :=
  match queue with
  | [] => Some order
  | curr :: queue =>
    match fuel with
    | O => None
    | S fuel =>
      let '(deg, queue) := relax (default [] (adj !! curr)) deg queue in
      kahn adj fuel deg queue (order ++ [curr])
    end
  end.

Definition batch_order (n : nat) (es : list (nat * nat)) : option (list nat) :=
  let deg := in_degree n es in
  kahn (batch_adj n es) n deg (filter (λ i, deg !! i = Some 0%Z) (seq 0 n)) [].

(** ** The search *)

Section reach_facts.
Context {K : Type} `{Countable K} (adj : gmap K (list K)) (target : K).
Implicit Types (visited U : gset K).

(** What a search from the nodes [l] returns: the target is reachable, or the
    nodes it visited are closed and avoid it. *)
Definition reach_post (l : list K) visited (r : option (bool * gset K)) : Prop :=
  match r with
  | None => False
  | Some (true, _) => ∃ x, x ∈ l ∧ rtc (edge adj) x target
  | Some (false, v) => visited ⊆ v ∧ (∀ x, x ∈ l → x ∈ v) ∧ (target ∉ visited → target ∉ v) ∧
      ∀ x y, x ∈ v → x ∉ visited → edge adj x y → y ∈ v
  end.

Lemma reach_edges_spec rec l visited U :
  (∀ x v, visited ⊆ v → x ∈ l → v ⊆ U → reach_post [x] v (rec x v) ∧ ∀ b v', rec x v = Some (b, v') → v' ⊆ U) → visited ⊆ U →
  reach_post l visited (reach_edges rec l visited) ∧ ∀ b v', reach_edges rec l visited = Some (b, v') → v' ⊆ U.
Proof.
  revert visited. induction l as [|x l IH]; intros visited Hrec HU.
  { split; [|by intros ? ? [= <- <-]]. simpl. set_solver. }
  cbn [reach_edges]. destruct (Hrec x visited) as [Hx HxU]; [done|set_solver|done|].
  destruct (rec x visited) as [[[] v]|]; [split; [|naive_solver]| |done].
  { destruct Hx as (z & ->%list_elem_of_singleton & Hz). exists x. split; [set_solver|done]. }
  specialize (HxU _ _ eq_refl). destruct Hx as (Hsub & Hin & Ht & Hcl).
  destruct (IH v) as [Hp HpU]; [|done|].
  { intros z v' Hv Hz. apply Hrec; [set_solver|set_solver]. }
  split; [|done]. destruct (reach_edges rec l v) as [[[] v']|]; [|split_and!|done].
  - destruct Hp as (z & Hz & ?). exists z. set_solver.
  - destruct Hp. set_solver.
  - destruct Hp as (? & Hl & _). intros z [-> |?]%elem_of_cons; [|auto]. set_solver.
  - destruct Hp as (? & _ & Hn & _). auto.
  - destruct Hp as (? & _ & _ & Hc). intros z y Hz Hn Hzy. destruct (decide (z ∈ v)); [|by eapply Hc]. set_solver.
Qed.

Lemma reach_dfs_spec fuel cur visited U :
  nodes adj ⊆ U → cur ∈ U → visited ⊆ U → size (U ∖ visited) < fuel →
  reach_post [cur] visited (reach_dfs adj target fuel cur visited) ∧
  ∀ b v', reach_dfs adj target fuel cur visited = Some (b, v') → v' ⊆ U.
Proof.
  revert cur visited. induction fuel as [|fuel IH]; intros cur visited HN Hc HU Hf; [lia|]. cbn [reach_dfs].
  destruct (decide (cur = target)) as [->|Hne]; [split; [|naive_solver]; exists target; split; [set_solver|apply rtc_refl]|].
  destruct (decide (cur ∈ visited)); [split; [simpl; set_solver|naive_solver]|].
  destruct (reach_edges_spec (reach_dfs adj target fuel) (succs adj cur) ({[cur]} ∪ visited) U) as [Hp HpU].
  - intros x v Hv Hx HvU. apply IH; [done| |done|].
    + apply HN. by apply (edge_nodes adj cur x).
    + assert (U ∖ v ⊂ U ∖ visited) as Hs%subset_size by set_solver. lia.
  - set_solver.
  - split; [|done]. destruct (reach_edges _ _ _) as [[[] v]|]; [| |done].
    + destruct Hp as (x & Hx & Hr). exists cur. split; [set_solver|]. by eapply rtc_l.
    + destruct Hp as (Hs & Hl & Ht & Hcl). split_and!; [set_solver|set_solver|set_solver|].
      intros x y Hx Hn Hxy. destruct (decide (x = cur)) as [-> |]; [by apply Hl|]. eapply Hcl; [done|set_solver|done].
Qed.

Lemma reachable_spec start : ∃ b, taskReachableInAdj adj start target = Some b ∧ (b = true ↔ rtc (edge adj) start target).
Proof.
  unfold taskReachableInAdj.
  destruct (reach_dfs_spec (S (size ({[start]} ∪ nodes adj))) start ∅ ({[start]} ∪ nodes adj)) as [Hp _]; [set_solver|set_solver|set_solver| |].
  { rewrite difference_empty_L. lia. }
  destruct (reach_dfs _ _ _ _ _) as [[[] v]|]; [| |done]; eexists; (split; [reflexivity|]); split; [|done|done|].
  - destruct Hp as (x & ->%list_elem_of_singleton & ?). done.
  - destruct Hp as (_ & Hin & Ht & Hcl). intros Hr. exfalso. apply Ht; [set_solver|].
    assert (start ∈ v) as Hs by (apply Hin; set_solver). clear -Hr Hs Hcl.
    induction Hr as [x|x y z Hxy Hr IH]; [done|]. apply IH. eapply Hcl; [done|set_solver|done].
Qed.
End reach_facts.

(** The search for a dependency cycle always ends, also on cyclic data, and
    answers whether the target can be reached along dependencies. *)
Theorem taskReachableInAdj_correct {K : Type} `{Countable K} (adj : gmap K (list K)) (start target : K) :
  ∃ b, taskReachableInAdj adj start target = Some b ∧ (b = true ↔ rtc (edge adj) start target).
Proof. apply reachable_spec. Qed.

(** ** The sort *)

Section kahn.
Implicit Types (E : list (nat * nat)) (deg : list Z) (l queue order : list nat) (i d n : nat).

Lemma in_degree_lookup n E i : i < n → in_degree n E !! i = Some (Z.of_nat (length (filter (λ e, e.2 = i) E))).
Proof.
  intros Hi. unfold in_degree. induction E as [|e E IH] using rev_ind; [simpl; by rewrite lookup_replicate_2|].
  rewrite foldl_app, filter_app, length_app. simpl. rewrite filter_cons, filter_nil. destruct (decide (e.2 = i)) as [-> |Hne].
  - rewrite list_lookup_alter_eq, IH. simpl. f_equal. lia.
  - rewrite list_lookup_alter_ne, IH by done. simpl. f_equal. lia.
Qed.

Lemma batch_adj_lookup n E d : d < n → batch_adj n E !! d = Some (snd <$> filter (λ e, e.1 = d) E).
Proof.
  intros Hd. unfold batch_adj. induction E as [|e E IH] using rev_ind; [simpl; by rewrite lookup_replicate_2|].
  rewrite foldl_app, filter_app, fmap_app. simpl. rewrite filter_cons, filter_nil. destruct (decide (e.1 = d)) as [-> |Hne].
  - by rewrite list_lookup_alter_eq, IH.
  - rewrite list_lookup_alter_ne, IH by done. simpl. by rewrite app_nil_r.
Qed.

(** How often [i] occurs in [l]. *)
Definition occ i l : nat := length (filter (λ j, j = i) l).

Lemma occ_cons i x l : occ i (x :: l) = if decide (x = i) then S (occ i l) else occ i l.
Proof. unfold occ. rewrite filter_cons. by destruct (decide (x = i)). Qed.

Lemma occ_0 i l : occ i l = 0 ↔ i ∉ l.
Proof.
  induction l as [|x l IH]; [split; [by intros _ ?%not_elem_of_nil|done]|]. rewrite occ_cons, not_elem_of_cons.
  destruct (decide (x = i)); naive_solver.
Qed.

Lemma relax_spec l deg queue : (∀ i, i ∈ l → ∃ k, deg !! i = Some k ∧ (Z.of_nat (occ i l) <= k)%Z) →
  ∃ deg' new, relax l deg queue = (deg', queue ++ new) ∧ NoDup new ∧
    (∀ i, deg' !! i = (λ k, k - Z.of_nat (occ i l))%Z <$> deg !! i) ∧
    ∀ i, i ∈ new ↔ i ∈ l ∧ deg !! i = Some (Z.of_nat (occ i l)).
Proof.
  revert deg queue. induction l as [|x l IH]; intros deg queue Hl.
  { exists deg, []. rewrite app_nil_r. split_and!; [done|constructor| |].
    - intros i. destruct (deg !! i); [|done]. simpl. f_equal. rewrite (proj2 (occ_0 i [])) by apply not_elem_of_nil. lia.
    - intros i. split; [by intros ?%not_elem_of_nil|by intros [?%not_elem_of_nil _]]. }
  cbn [relax]. set (deg1 := alter Z.pred x deg).
  assert (∀ i, deg1 !! i = (λ k, k - if decide (x = i) then 1 else 0)%Z <$> deg !! i) as Hd.
  { intros i. unfold deg1. destruct (decide (x = i)) as [->|?]; [rewrite list_lookup_alter_eq|rewrite list_lookup_alter_ne by done];
      destruct (deg !! i); simpl; f_equal; lia. }
  destruct (Hl x) as (kx & Hx & Hkx); [apply list_elem_of_here|]. rewrite occ_cons, decide_True in Hkx by done.
  set (q := if bool_decide (deg1 !! x = Some 0%Z) then queue ++ [x] else queue).
  destruct (IH deg1 q) as (deg' & new & -> & Hnd & Hdeg & Hnew).
  { intros i Hi. destruct (Hl i) as (k & Hk & Ho); [by right|]. rewrite occ_cons in Ho. rewrite Hd, Hk. simpl.
    eexists. split; [done|]. destruct (decide (x = i)); lia. }
  assert (deg1 !! x = Some (kx - 1)%Z) as Hx1 by (rewrite Hd, Hx, decide_True by done; done).
  assert (∀ i, deg !! i = Some (Z.of_nat (occ i (x :: l))) ↔ deg1 !! i = Some (Z.of_nat (occ i l))) as Heq.
  { intros i. rewrite Hd, occ_cons. destruct (deg !! i) as [k|]; [|done]. simpl.
    split; intros [= E]; f_equal; destruct (decide (x = i)); lia. }
  exists deg'. unfold q. destruct (bool_decide_reflect (deg1 !! x = Some 0%Z)) as [E|E].
  - assert (x ∉ l) as Hn by (apply occ_0; rewrite Hx1 in E; simplify_eq; lia).
    exists (x :: new). rewrite <- app_assoc. split_and!; [done| | |].
    + constructor; [|done]. by intros [? _]%Hnew.
    + intros i. rewrite Hdeg, Hd, occ_cons. destruct (deg !! i); [|done]. simpl. f_equal. destruct (decide (x = i)); lia.
    + intros i. rewrite elem_of_cons, Hnew, elem_of_cons, Heq. split; [|naive_solver].
      intros [-> |[? ?]]; [|auto]. split; [by left|]. by rewrite E, (proj2 (occ_0 x l)).
  - exists new. split_and!; [done|done| |].
    + intros i. rewrite Hdeg, Hd, occ_cons. destruct (deg !! i); [|done]. simpl. f_equal. destruct (decide (x = i)); lia.
    + intros i. rewrite Hnew, elem_of_cons, Heq. split; [naive_solver|]. intros [[-> |?] Hi]; [|done]. split; [|done].
      destruct (decide (x ∈ l)) as [|Hn]; [done|]. by rewrite (proj2 (occ_0 x l) Hn) in Hi.
Qed.

(** The dependencies of [i] that are not emitted yet. *)
Definition remaining E order i : nat := length (filter (λ e, e.2 = i ∧ e.1 ∉ order) E).

Lemma remaining_snoc E order c i : c ∉ order →
  remaining E order i = remaining E (order ++ [c]) i + occ i (snd <$> filter (λ e, e.1 = c) E).
Proof.
  intros Hc. unfold remaining. induction E as [|[d j] E IH]; [done|]. rewrite !filter_cons. cbn [fst snd].
  assert ((d ∉ order ++ [c]) ↔ d ∉ order ∧ d ≠ c) as Hd by (rewrite elem_of_app, list_elem_of_singleton; tauto).
  destruct (decide (d = c)) as [-> |Hdc]; cbn [fmap list_fmap]; rewrite ?occ_cons.
  - rewrite (decide_False (P := j = i ∧ c ∉ order ++ [c])) by tauto. cbn [snd].
    destruct (decide (j = i)); [rewrite (decide_True (P := j = i ∧ _)) by done|rewrite (decide_False (P := j = i ∧ _)) by tauto]; simpl; lia.
  - destruct (decide (j = i ∧ d ∉ order)); [rewrite decide_True by tauto|rewrite decide_False by tauto]; simpl; lia.
Qed.

Lemma remaining_0 E order i : remaining E order i = 0 ↔ ∀ d, (d, i) ∈ E → d ∈ order.
Proof.
  unfold remaining. split.
  - intros Hl%nil_length_inv d Hd. destruct (decide (d ∈ order)) as [|Hn]; [done|].
    assert ((d, i) ∈ filter (λ e, e.2 = i ∧ e.1 ∉ order) E) as Hf by (by apply list_elem_of_filter). rewrite Hl in Hf. by apply not_elem_of_nil in Hf.
  - intros Hd. destruct (filter _ E) as [|[d j] l] eqn:Hf; [done|].
    assert ((d, j) ∈ filter (λ e, e.2 = i ∧ e.1 ∉ order) E) as [[<- Hn] Hin]%list_elem_of_filter by (rewrite Hf; apply list_elem_of_here).
    destruct Hn. by apply Hd.
Qed.

(** Dependencies come first. *)
Definition topological E order : Prop := ∀ l1 i l2 d, order = l1 ++ i :: l2 → (d, i) ∈ E → d ∈ l1.

Record kahn_inv n E deg queue order : Prop := {
  ki_nodup : NoDup (order ++ queue);
  ki_lt : ∀ i, i ∈ order ++ queue → i < n;
  ki_deg : ∀ i, i < n → deg !! i = Some (Z.of_nat (remaining E order i));
  ki_zero : ∀ i, i < n → i ∈ order ++ queue ↔ remaining E order i = 0;
  ki_topo : topological E order
}.

Lemma topological_snoc E order c : topological E order → (∀ d, (d, c) ∈ E → d ∈ order) → topological E (order ++ [c]).
Proof.
  intros Ht Hc l1 i l2 d E1 Hd. destruct l2 as [|x l2 _] using rev_ind.
  - apply app_inj_tail in E1 as [<- <-]. by apply Hc.
  - rewrite app_comm_cons, app_assoc in E1. apply app_inj_tail in E1 as [-> _]. by eapply Ht.
Qed.

(** The dependents of an emitted task that become free. *)
Lemma relax_free n E deg c queue order : (∀ d i, (d, i) ∈ E → d < n ∧ i < n) → kahn_inv n E deg (c :: queue) order → c ∉ order → c < n →
  ∃ deg' new, relax (default [] (batch_adj n E !! c)) deg queue = (deg', queue ++ new) ∧ NoDup new ∧
    (∀ i, i < n → deg' !! i = Some (Z.of_nat (remaining E (order ++ [c]) i))) ∧
    ∀ i, (i ∈ new) ↔ (i < n) ∧ i ∉ order ++ c :: queue ∧ remaining E (order ++ [c]) i = 0.
Proof.
  intros HE [_ _ Hdeg Hz _] Hco Hc. set (l := snd <$> filter (λ e, e.1 = c) E).
  replace (default [] (batch_adj n E !! c)) with l by (by rewrite batch_adj_lookup).
  assert (∀ i, remaining E order i = remaining E (order ++ [c]) i + occ i l) as Hr by (intros; by apply remaining_snoc).
  assert (∀ i, i ∈ l → i < n) as Hl.
  { intros i (e & -> & [He Hin]%list_elem_of_filter)%list_elem_of_fmap. destruct e. by apply HE in Hin as [_ ?]. }
  destruct (relax_spec l deg queue) as (deg' & new & -> & Hndn & Hd' & Hnew).
  { intros i Hi. exists (Z.of_nat (remaining E order i)). split; [by apply Hdeg, Hl|]. rewrite Hr. lia. }
  exists deg', new. split_and!; [done|done| |].
  { intros i Hi. rewrite Hd', Hdeg by done. simpl. f_equal. specialize (Hr i). lia. }
  intros i. specialize (Hr i). rewrite Hnew. split.
  - intros [Hi Hdi]. specialize (Hl i Hi). rewrite Hdeg in Hdi by done. simplify_eq. split; [done|]. split; [|lia]. rewrite (Hz i Hl).
    assert (occ i l ≠ 0) by (rewrite occ_0; tauto). lia.
  - intros (Hi & Hno & Hr0). rewrite (Hz i Hi) in Hno. split; [|rewrite Hdeg by done; f_equal; lia].
    destruct (decide (i ∈ l)) as [|Hil]; [done|]. apply occ_0 in Hil. lia.
Qed.

Lemma kahn_inv_step n E deg c queue order : (∀ d i, (d, i) ∈ E → d < n ∧ i < n) → kahn_inv n E deg (c :: queue) order →
  ∃ deg' new, relax (default [] (batch_adj n E !! c)) deg queue = (deg', queue ++ new) ∧ kahn_inv n E deg' (queue ++ new) (order ++ [c]).
Proof.
  intros HE Hinv. pose proof Hinv as [Hnd Hlt _ Hz Ht].
  assert (c < n) as Hc by (apply Hlt; rewrite elem_of_app; right; apply list_elem_of_here).
  apply NoDup_app in Hnd as (Hn1 & Hdis & Hn2). assert (c ∉ order) as Hco by (intros ?; eapply Hdis; [done|apply list_elem_of_here]).
  destruct (relax_free n E deg c queue order) as (deg' & new & -> & Hndn & Hd' & Hn); [done..|].
  exists deg', new. split; [done|]. apply NoDup_cons in Hn2 as [Hcq Hn2]. split.
  - rewrite <- app_assoc. apply NoDup_app. split; [done|]. split.
    + intros x Hx. rewrite elem_of_app, list_elem_of_singleton, elem_of_app, Hn, elem_of_app. specialize (Hdis x Hx).
      rewrite elem_of_cons in Hdis. naive_solver.
    + rewrite app_assoc. apply NoDup_app. split; [by apply NoDup_cons|]. split; [|done].
      intros x Hx (_ & Hno & _)%Hn. apply Hno. rewrite elem_of_app. by right.
  - intros i. rewrite <- app_assoc, !elem_of_app, list_elem_of_singleton, Hn. specialize (Hlt i). rewrite elem_of_app, elem_of_cons in Hlt. naive_solver.
  - done.
  - intros i Hi. specialize (Hz i Hi). rewrite <- app_assoc, !elem_of_app, list_elem_of_singleton, Hn.
    rewrite elem_of_app, elem_of_cons in *. pose proof (remaining_snoc E order c i Hco).
    destruct (decide (remaining E order i = 0)); [|naive_solver]. split; [intros; lia|naive_solver].
  - apply topological_snoc; [done|]. apply remaining_0, Hz; [done|]. rewrite elem_of_app, elem_of_cons. tauto.
Qed.

Lemma kahn_inv_length n E deg queue order : kahn_inv n E deg queue order → length (order ++ queue) ≤ n.
Proof.
  intros [Hnd Hlt _ _ _]. rewrite <- (length_seq n 0). apply submseteq_length, NoDup_submseteq; [done|].
  intros i Hi. apply elem_of_seq. specialize (Hlt i Hi). lia.
Qed.

Lemma kahn_spec n E fuel deg queue order : (∀ d i, (d, i) ∈ E → d < n ∧ i < n) →
  kahn_inv n E deg queue order → n ≤ fuel + length order →
  ∃ order' deg', kahn (batch_adj n E) fuel deg queue order = Some order' ∧ kahn_inv n E deg' [] order'.
Proof.
  intros HE. revert deg queue order. induction fuel as [|fuel IH]; intros deg [|c queue] order Hinv Hf; cbn [kahn]; [eauto| |eauto|].
  - apply kahn_inv_length in Hinv. rewrite length_app in Hinv. simpl in *. lia.
  - destruct (kahn_inv_step n E deg c queue order HE Hinv) as (deg' & new & -> & Hinv'). eapply IH; [done|]. rewrite length_app. simpl. lia.
Qed.

Lemma kahn_inv_init n E : kahn_inv n E (in_degree n E) (filter (λ i, in_degree n E !! i = Some 0%Z) (seq 0 n)) [].
Proof.
  assert (∀ i, i < n → in_degree n E !! i = Some (Z.of_nat (remaining E [] i))) as Hd.
  { intros i Hi. rewrite in_degree_lookup by done. do 2 f_equal. unfold remaining. f_equal. apply list_filter_iff. intros e.
    split; [|tauto]. intros ->. split; [done|]. apply not_elem_of_nil. }
  split; [apply NoDup_filter, NoDup_seq| |done| |].
  - intros i [_ Hi%elem_of_seq]%list_elem_of_filter. lia.
  - intros i Hi. simpl. rewrite list_elem_of_filter, elem_of_seq, Hd by done. split; [intros [[= ?] _]; lia|]. intros ->. split; [done|lia].
  - intros l1 i l2 d E1. by destruct l1.
Qed.

(** The position of [x] in [l]. *)
Fixpoint pos (x : nat) l : nat := match l with [] => 0 | y :: l => if decide (y = x) then 0 else S (pos x l) end.

Lemma pos_in x l1 l2 : x ∈ l1 → pos x (l1 ++ l2) < length l1.
Proof.
  induction l1 as [|y l1 IH]; [by intros ?%not_elem_of_nil|]. rewrite elem_of_cons. simpl. destruct (decide (y = x)); [lia|].
  intros [? |Hx]; [congruence|]. specialize (IH Hx). lia.
Qed.

Lemma pos_at x l1 l2 : x ∉ l1 → pos x (l1 ++ x :: l2) = length l1.
Proof.
  induction l1 as [|y l1 IH]; intros Hx; simpl; [by destruct (decide (x = x))|]. rewrite not_elem_of_cons in Hx.
  rewrite decide_False by naive_solver. f_equal. apply IH, Hx.
Qed.

Lemma topological_rank E order : NoDup order → topological E order → ∀ d i, (d, i) ∈ E → i ∈ order → pos d order < pos i order.
Proof.
  intros Hn Ht d i HE (l1 & l2 & ->)%list_elem_of_split. specialize (Ht l1 i l2 d eq_refl HE).
  apply NoDup_app in Hn as (_ & Hdis & _). rewrite pos_at; [by apply pos_in|]. intros Hi. eapply Hdis; [done|apply list_elem_of_here].
Qed.

(** With nothing left to emit, what can be ordered is emitted. *)
Lemma kahn_inv_complete n E deg order (rank : nat → nat) : (∀ d i, (d, i) ∈ E → d < n ∧ i < n) → kahn_inv n E deg [] order →
  (∀ d i, (d, i) ∈ E → rank d < rank i) → ∀ i, i < n → i ∈ order.
Proof.
  intros HE [_ _ _ Hz _] Hr. assert (∀ k i, rank i = k → i < n → i ∈ order) as Hk; [|by intros i; apply (Hk (rank i))].
  intros k. induction (lt_wf k) as [k _ IH]. intros i <- Hi. specialize (Hz i Hi). rewrite app_nil_r in Hz. apply Hz, remaining_0.
  intros d Hd. apply (IH (rank d)); [by apply Hr|done|]. by apply (HE d i).
Qed.

Lemma NoDup_full n order : NoDup order → (∀ i, i ∈ order → i < n) → length order = n ↔ ∀ i, i < n → i ∈ order.
Proof.
  intros Hnd Hlt. assert (order ⊆+ seq 0 n) as Hs.
  { apply NoDup_submseteq; [done|]. intros i Hi. apply elem_of_seq. specialize (Hlt i Hi). lia. }
  split.
  - intros Hl i Hi. assert (order ≡ₚ seq 0 n) as ->; [|apply elem_of_seq; lia]. apply submseteq_length_Permutation; [done|]. by rewrite length_seq, Hl.
  - intros Hall. apply submseteq_length in Hs. rewrite length_seq in Hs.
    assert (seq 0 n ⊆+ order) as Hs2%submseteq_length; [|rewrite length_seq in Hs2; lia].
    apply NoDup_submseteq; [apply NoDup_seq|]. intros i [_ Hi]%elem_of_seq. by apply Hall.
Qed.
End kahn.

Lemma batch_order_spec n (E : list (nat * nat)) : (∀ d i, (d, i) ∈ E → d < n ∧ i < n) →
  ∃ order, batch_order n E = Some order ∧ NoDup order ∧ (∀ i, i ∈ order → i < n) ∧ topological E order ∧
    (length order = n ↔ ∃ rank : nat → nat, ∀ d i, (d, i) ∈ E → rank d < rank i).
Proof.
  intros HE. destruct (kahn_spec n E n (in_degree n E) (filter (λ i, in_degree n E !! i = Some 0%Z) (seq 0 n)) []) as (order & deg & Ho & Hinv);
    [done|apply kahn_inv_init|simpl; lia|]. exists order. split; [exact Ho|]. pose proof Hinv as [Hnd Hlt _ _ Ht].
  rewrite app_nil_r in Hnd, Hlt. split_and!; [done..|]. rewrite NoDup_full by done. split.
  - intros Hall. exists (λ i, pos i order). intros d i Hd. apply (topological_rank E); [done..|]. by apply Hall, (HE d i).
  - intros [rank Hr]. by eapply kahn_inv_complete.
Qed.

(** The topological sort of a batch always ends, and what it emits are distinct
    tasks with every dependency before its dependents; it emits all of them
    exactly when the dependencies can be ordered at all, that is, unless they
    contain a cycle. *)
Theorem batch_order_correct n (E : list (nat * nat)) : (∀ d i, (d, i) ∈ E → d < n ∧ i < n) →
  ∃ order, batch_order n E = Some order ∧ NoDup order ∧ (∀ i, i ∈ order → i < n) ∧ topological E order ∧
    (length order = n ↔ ∃ rank : nat → nat, ∀ d i, (d, i) ∈ E → rank d < rank i).
Proof. exact (batch_order_spec n E). Qed.

(** A batch of three in a chain, and one with a cycle. *)
Lemma batch_order_correct_witness :
  (∀ d i, (d, i) ∈ [(1, 0); (2, 1)] → d < 3 ∧ i < 3) ∧
  ∃ order, batch_order 3 [(1, 0); (2, 1)] = Some order ∧ NoDup order ∧ (∀ i, i ∈ order → i < 3) ∧ topological [(1, 0); (2, 1)] order ∧
    (length order = 3 ↔ ∃ rank : nat → nat, ∀ d i, (d, i) ∈ [(1, 0); (2, 1)] → rank d < rank i).
Proof.
  assert (∀ d i, (d, i) ∈ [(1, 0); (2, 1)] → d < 3 ∧ i < 3) as H.
  { intros d i. rewrite !elem_of_cons. intros [[= -> ->]|[[= -> ->]|?%not_elem_of_nil]]; [lia|lia|done]. }
  split; [exact H|]. exact (batch_order_correct 3 [(1, 0); (2, 1)] H).
Defined.

Lemma batch_order_runs : batch_order 3 [(1, 0); (2, 1)] = Some [2; 1; 0] ∧ batch_order 3 [(0, 1); (1, 0)] = Some [2].
Proof. split; vm_compute; reflexivity. Qed.
