(* ===== verification/StateMachine.v ===== *)
(** * internal/pkg/statemachine and the transition tables built on it

    [Machine], [New], [Validate], [CanTransition] and [Allowed] of
    [internal/pkg/statemachine/statemachine.go]. The error text of [Validate]
    only names the two states, so the error value is the pair itself. *)

From S2P Require Import Prelude.

Section definitions.
Context {S : Type} `{Countable S}.

Record Machine := MkMachine { transitions : gmap S (list S) }.

Definition New (ts : gmap S (list S)) : Machine := MkMachine ts.

(** [ErrInvalidTransition] wrapped with the rejected pair. *)
Record ErrInvalidTransition := InvalidTransition { from_state : S; to_state : S }.

(** A key absent from the table has no successors. *)
Definition Allowed (m : Machine) (from : S) : list S := default [] (transitions m !! from).

Definition Validate (m : Machine) (from to : S) : result ErrInvalidTransition unit :=
  if bool_decide (to ∈ Allowed m from) then Ok tt else Err (InvalidTransition from to).

Definition CanTransition (m : Machine) (from to : S) : bool := is_ok (Validate m from to).

(** The transitions as a relation, and what a run of validated steps reaches. *)
Definition allowed_step (m : Machine) (from to : S) : Prop := CanTransition m from to = true.
Definition reaches (m : Machine) : S → S → Prop := rtc (allowed_step m).
End definitions.
Arguments Machine S {_ _}.
Arguments ErrInvalidTransition S : clear implicits.

Section facts.
Context {S : Type} `{Countable S}.
Implicit Types m : Machine S.

Lemma CanTransition_spec m from to : CanTransition m from to = true ↔ to ∈ Allowed m from.
Proof. unfold CanTransition, Validate. case_bool_decide; simpl; naive_solver. Qed.

Lemma Validate_ok m from to : Validate m from to = Ok tt ↔ to ∈ Allowed m from.
Proof. unfold Validate. case_bool_decide; naive_solver. Qed.

Lemma Validate_err m from to : to ∉ Allowed m from → Validate m from to = Err (InvalidTransition from to).
Proof. intros. unfold Validate. by rewrite bool_decide_false. Qed.

(** A set of states that no transition leaves is closed under [reaches]. *)
Lemma reaches_closed m (P : S → Prop) x y :
  (∀ a b, P a → b ∈ Allowed m a → P b) → P x → reaches m x y → P y.
Proof. intros Hcl Hx. induction 1 as [|? ? ? Hs%CanTransition_spec]; eauto. Qed.
End facts.
