(* ===== verification/Breaker.v ===== *)
(** * internal/pkg/circuitbreaker

    [Breaker] (breaker.go) keeps three atomics and takes no lock.  Each method
    is given twice: as a function of one uninterrupted call ([Allow],
    [RecordSuccess], [RecordFailure]), and as a thread program counter with one
    atomic access per [step], so that calls interleave as goroutines do.  Each
    path of a method reads the clock at most once, so a call takes one reading
    [now], in Unix nanoseconds.

    [BackoffBreaker] (backoff.go) holds its mutex through each method, so its
    methods are plain functions of the state.  Times are nanoseconds since Go's
    zero time; [0] is [time.Time{}]. *)

From S2P Require Import Prelude.
Local Open Scope Z_scope.

(** ** Breaker *)

Definition Closed : Z := 0.
Definition Open : Z := 1.
Definition HalfOpen : Z := 2.

Record Breaker := MkBreaker {
  state : Z;
  failures : Z;
  threshold : Z;
  openDuration : Z;
  openAt : Z
}.

Definition New (threshold openDuration : Z) : Breaker := MkBreaker 0 0 threshold openDuration 0.

Definition with_state (s : Z) (b : Breaker) : Breaker :=
  MkBreaker s (failures b) (threshold b) (openDuration b) (openAt b).
Definition with_failures (f : Z) (b : Breaker) : Breaker :=
  MkBreaker (state b) f (threshold b) (openDuration b) (openAt b).
Definition with_openAt (t : Z) (b : Breaker) : Breaker :=
  MkBreaker (state b) (failures b) (threshold b) (openDuration b) t.

(** [CompareAndSwap(old, new)] on the state word. *)
Definition cas_state (old new : Z) (b : Breaker) : bool * Breaker :=
  if Z.eqb (state b) old then (true, with_state new b) else (false, b).

Definition Allow (now : Z) (b : Breaker) : bool * Breaker :=
  if Z.eqb (state b) Closed then (true, b)
  else if Z.eqb (state b) Open then
    let elapsed := wrap64 (now - openAt b) in
    if Z.ltb elapsed (openDuration b) then (false, b)
    else cas_state Open HalfOpen b
  else if Z.eqb (state b) HalfOpen then
    let '(ok, b') := cas_state HalfOpen Open b in
    (false, if ok then with_openAt now b' else b')
  else (false, b).

Definition RecordSuccess (b : Breaker) : Breaker := with_failures 0 (with_state Closed b).

Definition RecordFailure (now : Z) (b : Breaker) : Breaker :=
  let f := wrap32 (failures b + 1) in
  let b := with_failures f b in
  if Z.eqb (state b) Closed then
    if Z.leb (threshold b) f then
      let '(ok, b') := cas_state Closed Open b in
      if ok then with_openAt now b' else b'
    else b
  else if Z.eqb (state b) HalfOpen then
    let '(ok, b') := cas_state HalfOpen Open b in
    if ok then with_openAt now b' else b'
  else b.

(** *** Interleaved calls: one constructor per point between atomic accesses. *)
Inductive pc :=
| AllowLoad | AllowNow | AllowOpenAt (now : Z) | AllowProbe
| AllowRearm | AllowRearmNow | AllowRearmStore (now : Z)
| SuccessSwap | SuccessReset
| FailureAdd | FailureLoad (f : Z) | FailureTrip | FailureReopen
| FailureNow | FailureStore (now : Z)
| Returned (r : option bool).

Definition step (now : Z) (p : pc) (b : Breaker) : pc * Breaker :=
  match p with
  | AllowLoad =>
    (if Z.eqb (state b) Closed then Returned (Some true)
     else if Z.eqb (state b) Open then AllowNow
     else if Z.eqb (state b) HalfOpen then AllowRearm
     else Returned (Some false), b)
  | AllowNow => (AllowOpenAt now, b)
  | AllowOpenAt n =>
    (if Z.ltb (wrap64 (n - openAt b)) (openDuration b) then Returned (Some false) else AllowProbe, b)
  | AllowProbe => let '(ok, b') := cas_state Open HalfOpen b in (Returned (Some ok), b')
  | AllowRearm =>
    let '(ok, b') := cas_state HalfOpen Open b in
    (if ok then AllowRearmNow else Returned (Some false), b')
  | AllowRearmNow => (AllowRearmStore now, b)
  | AllowRearmStore n => (Returned (Some false), with_openAt n b)
  | SuccessSwap => (SuccessReset, with_state Closed b)
  | SuccessReset => (Returned None, with_failures 0 b)
  | FailureAdd => let f := wrap32 (failures b + 1) in (FailureLoad f, with_failures f b)
  | FailureLoad f =>
    (if Z.eqb (state b) Closed then
       if Z.leb (threshold b) f then FailureTrip else Returned None
     else if Z.eqb (state b) HalfOpen then FailureReopen
     else Returned None, b)
  | FailureTrip =>
    let '(ok, b') := cas_state Closed Open b in (if ok then FailureNow else Returned None, b')
  | FailureReopen =>
    let '(ok, b') := cas_state HalfOpen Open b in (if ok then FailureNow else Returned None, b')
  | FailureNow => (FailureStore now, b)
  | FailureStore n => (Returned None, with_openAt n b)
  | Returned r => (Returned r, b)
  end.

(** A breaker shared by the calls [threads], and the clock they read. *)
Record world := World { shared : Breaker; clock : Z; threads : list pc }.

Inductive wstep : world → world → Prop :=
| wstep_tick b t t' ps : t <= t' → wstep (World b t ps) (World b t' ps)
| wstep_thread b t ps i p p' b' :
    ps !! i = Some p → step t p b = (p', b') →
    wstep (World b t ps) (World b' t (<[i := p']> ps)).

(** One call run alone, at most [n] accesses. *)
Fixpoint run_alone (n : nat) (now : Z) (p : pc) (b : Breaker) : pc * Breaker :=
  match n with
  | O => (p, b)
  | S n' => let '(p', b') := step now p b in run_alone n' now p' b'
  end.

(** Scheduling thread [i] at the current time, for executable schedules. *)
Definition wsched (w : world) (i : nat) : world :=
  match threads w !! i with
  | Some p => let '(p', b') := step (clock w) p (shared w) in
              World b' (clock w) (<[i := p']> (threads w))
  | None => w
  end.

(** *** Sequences of uninterrupted calls *)
Inductive op := OpAllow | OpSuccess | OpFailure.

Definition apply_op (now : Z) (o : op) (b : Breaker) : option bool * Breaker :=
  match o with
  | OpAllow => let '(r, b') := Allow now b in (Some r, b')
  | OpSuccess => (None, RecordSuccess b)
  | OpFailure => (None, RecordFailure now b)
  end.

Fixpoint run_ops (ops : list (Z * op)) (b : Breaker) : list (option bool) * Breaker :=
  match ops with
  | [] => ([], b)
  | (now, o) :: rest =>
    let '(r, b') := apply_op now o b in
    let '(rs, b'') := run_ops rest b' in (r :: rs, b'')
  end.

(** ** BackoffBreaker *)

Record BackoffBreaker := MkBackoff {
  bfailures : Z;
  openUntil : Z;
  baseDelay : Z;
  maxDelay : Z
}.

Definition NewBackoff (cfgBase cfgMax : Z) : BackoffBreaker :=
  MkBackoff 0 0 (if Z.leb cfgBase 0 then 30 * 10 ^ 9 else cfgBase)
                (if Z.leb cfgMax 0 then 5 * 60 * 10 ^ 9 else cfgMax).

Definition IsOpen (now : Z) (b : BackoffBreaker) : bool :=
  negb (Z.eqb (openUntil b) 0) && Z.ltb now (openUntil b).

(** The delay computed by [RecordFailure] for the failure count [n]; the shift
    and the product are 64-bit. *)
Definition backoff_delay (base max n : Z) : Z :=
  let backoff := wrap64 (base * shl64 1 (n - 1)) in
  if Z.leb backoff 0 || Z.ltb max backoff then max else backoff.

Definition BackoffRecordFailure (now : Z) (b : BackoffBreaker) : Z * BackoffBreaker :=
  let n := wrap64 (bfailures b + 1) in
  (n, MkBackoff n (now + backoff_delay (baseDelay b) (maxDelay b) n) (baseDelay b) (maxDelay b)).

Definition BackoffRecordSuccess (b : BackoffBreaker) : BackoffBreaker :=
  MkBackoff 0 0 (baseDelay b) (maxDelay b).

Definition Failures (b : BackoffBreaker) : Z := bfailures b.

Definition RetryAt (now : Z) (b : BackoffBreaker) : Z * bool :=
  if Z.eqb (openUntil b) 0 || negb (Z.ltb now (openUntil b)) then (0, false)
  else (openUntil b, true).

(** [n] failures in a row at the given times. *)
Fixpoint fail_at (times : list Z) (b : BackoffBreaker) : BackoffBreaker :=
  match times with
  | [] => b
  | now :: rest => fail_at rest (BackoffRecordFailure now b).2
  end.

(** ** Breaker: theorems *)

(** A call whose atomic accesses are not interleaved with those of another
    call behaves as the method: each method of [Breaker] returns within four
    accesses, with the result and the final state of its function. *)
Theorem run_alone_refines now b :
  run_alone 5 now AllowLoad b = (Returned (Some (Allow now b).1), (Allow now b).2) ∧
  run_alone 5 now SuccessSwap b = (Returned None, RecordSuccess b) ∧
  run_alone 5 now FailureAdd b = (Returned None, RecordFailure now b).
Proof.
  destruct b as [s f th d o].
  destruct (Z.eqb_spec s Closed) as [->|E0]; [|destruct (Z.eqb_spec s Open) as [->|E1];
    [|destruct (Z.eqb_spec s HalfOpen) as [->|E2]]].
  1-3: unfold Allow, RecordFailure; split_and!; cbn; try done; repeat (case_match; simplify_eq/=); done.
  apply Z.eqb_neq in E0, E1, E2.
  unfold Allow, RecordFailure, RecordSuccess; split_and!; cbn; rewrite ?E0, ?E1, ?E2; done.
Qed.

(** A scheduled thread is a step of the interleaving relation. *)
Lemma wsched_wstep w i : rtc wstep w (wsched w i).
Proof.
  unfold wsched. destruct (threads w !! i) as [p|] eqn:E; [|apply rtc_refl].
  destruct (step _ _ _) as [p' b'] eqn:Es. destruct w as [b t ps].
  apply rtc_once. by eapply wstep_thread.
Qed.

(** Run thread [i] for one access, deciding clock comparisons with [Hlt]. *)
Ltac sched Hlt i :=
  etrans; [apply (wsched_wstep _ i)|]; cbn; rewrite ?Hlt; cbn.

(** The three-call race of [Allow]. A caller that finds the breaker half
    open sets it back to open before it stores the new opening time, so another
    caller in between sees an open breaker whose opening time is long past and
    takes a second probe while the first one is outstanding. *)
Theorem Allow_two_probes (b : Breaker) (now : Z) :
  state b = Open → openDuration b <= wrap64 (now - openAt b) →
  ∃ w, rtc wstep (World b now [AllowLoad; AllowLoad; AllowLoad]) w ∧
    clock w = now ∧ threads w = [Returned (Some true); Returned (Some false); Returned (Some true)].
Proof.
  destruct b as [s f th d o]; simpl; intros -> Hd.
  assert (Z.ltb (wrap64 (now - o)) d = false) as Hlt by (apply Z.ltb_ge; lia).
  eexists. split.
  - do 4 sched Hlt 0%nat. do 2 sched Hlt 1%nat.
    do 4 sched Hlt 2%nat. do 2 sched Hlt 1%nat. apply rtc_refl.
  - done.
Qed.

Lemma Allow_two_probes_witness :
  ∃ w, rtc wstep (World (MkBreaker Open 5 5 30 100) 130 [AllowLoad; AllowLoad; AllowLoad]) w ∧
    clock w = 130 ∧ threads w = [Returned (Some true); Returned (Some false); Returned (Some true)].
Proof. apply (Allow_two_probes (MkBreaker Open 5 5 30 100) 130); [reflexivity|vm_compute; discriminate]. Defined.

(** Blocked since [t0]: half open, or open since [t0] or later. *)
Definition blocked_since (t0 : Z) (b : Breaker) : Prop :=
  state b = HalfOpen ∨ (state b = Open ∧ t0 <= openAt b).

Definition sane_time (t : Z) : Prop := 0 <= t < 2 ^ 62.

Lemma elapsed_exact now t : sane_time now → sane_time t → wrap64 (now - t) = now - t.
Proof. unfold sane_time. intros. apply wrap64_id. lia. Qed.

Lemma blocked_step t0 now o b r b' :
  blocked_since t0 b → sane_time t0 → sane_time now → sane_time (openAt b) →
  t0 <= now < t0 + openDuration b → o ≠ OpSuccess → apply_op now o b = (r, b') →
  blocked_since t0 b' ∧ sane_time (openAt b') ∧ openDuration b' = openDuration b ∧ r ≠ Some true.
Proof.
  intros Hb Ht0 Hn Hsa Hw Ho Hr.
  assert (wrap64 (now - openAt b) = now - openAt b) as He by by apply elapsed_exact.
  destruct b as [s f th d oa]; unfold blocked_since in *; simpl in *.
  destruct o; [| done |]; unfold apply_op, Allow, RecordFailure, cas_state, Closed, Open, HalfOpen in *; simpl in *;
    destruct Hb as [->|[-> Hoa]]; simpl in *; simplify_eq/=; auto with lia.
  rewrite He in Hr. assert (Z.ltb (now - oa) d = true) as Hlt by (apply Z.ltb_lt; lia).
  rewrite Hlt in Hr. simplify_eq/=. auto.
Qed.

(** In a sequence of uninterrupted calls, once [Allow] has granted a probe of
    an open breaker at [t0], no [Allow] of the next [openDuration] is granted
    unless a success is recorded in between, whatever failures are. *)
Theorem probe_window t0 b b1 ops :
  state b = Open → Allow t0 b = (true, b1) →
  sane_time t0 → sane_time (openAt b) →
  Forall (λ '(now, o), sane_time now ∧ t0 <= now < t0 + openDuration b ∧ o ≠ OpSuccess) ops →
  Some true ∉ (run_ops ops b1).1.
Proof.
  intros Hs Ha Ht0 Hsa Hops.
  assert (blocked_since t0 b1 ∧ sane_time (openAt b1) ∧ openDuration b1 = openDuration b) as (Hb & Hsa1 & Hd).
  { destruct b; simpl in *; subst. unfold Allow, cas_state in Ha; simpl in Ha. case_match; simplify_eq/=.
    split_and!; try done. by left. }
  clear Ha Hs. rewrite <- Hd in Hops. clear Hd Hsa b.
  revert b1 Hb Hsa1 Hops. induction ops as [|[now o] ops IH]; intros b Hb Hsa Hops; simpl; [set_solver|].
  apply Forall_cons in Hops as ((Hn & Hw & Ho) & Hops).
  destruct (apply_op now o b) as [r b'] eqn:E.
  destruct (blocked_step t0 now o b r b') as (Hb' & Hsa' & Hd' & Hr); try done.
  specialize (IH b' Hb' Hsa'). rewrite Hd' in IH.
  destruct (run_ops ops b') as [rs b'']. simpl in *. set_solver.
Qed.

Lemma probe_window_witness :
  Some true ∉ (run_ops [(40, OpAllow); (41, OpFailure); (60, OpAllow)]
                 (MkBreaker HalfOpen 5 5 30 0)).1.
Proof.
  apply (probe_window 35 (MkBreaker Open 5 5 30 0)); try reflexivity; unfold sane_time; simpl; try lia.
  repeat constructor; try lia; discriminate.
Defined.

(** [n] failures recorded at the times [ts]. *)
Definition failures_at (ts : list Z) : list (Z * op) := (λ t, (t, OpFailure)) <$> ts.

Lemma closed_failures ts b :
  state b = Closed → 0 <= failures b → failures b + Z.of_nat (length ts) < threshold b →
  threshold b < 2 ^ 31 →
  (run_ops (failures_at ts) b).2 = with_failures (failures b + Z.of_nat (length ts)) b.
Proof.
  revert b. induction ts as [|t ts IH]; intros [s f th d o]; simpl; intros -> Hf Hlt Hth.
  { by rewrite Z.add_0_r. }
  unfold RecordFailure; simpl. rewrite wrap32_id by lia.
  assert (Z.leb th (f + 1) = false) as -> by (apply Z.leb_gt; lia).
  specialize (IH (MkBreaker 0 (f + 1) th d o)). simpl in IH.
  destruct (run_ops (failures_at ts) _) as [rs b'] eqn:E. simpl in *. rewrite IH by (done || lia).
  unfold with_failures; simpl. f_equal. lia.
Qed.

(** A new breaker stays closed, and lets every call through, for fewer than
    [threshold] consecutive failures; the failure that reaches [threshold]
    opens it, and then every call within [openDuration] is refused. *)
Theorem threshold_trips th d ts t now :
  1 <= th < 2 ^ 31 → Z.of_nat (length ts) + 1 = th → sane_time t → sane_time now → t <= now < t + d →
  Allow now (run_ops (failures_at ts) (New th d)).2 = (true, (run_ops (failures_at ts) (New th d)).2) ∧
  (Allow now (RecordFailure t (run_ops (failures_at ts) (New th d)).2)).1 = false.
Proof.
  intros Hth Hlen Ht Hn Hw.
  rewrite closed_failures by (done || (simpl; lia)). simpl. split; [done|].
  unfold RecordFailure; simpl. rewrite wrap32_id by lia.
  assert (Z.leb th (0 + Z.of_nat (length ts) + 1) = true) as -> by (apply Z.leb_le; lia).
  unfold Allow; simpl. rewrite elapsed_exact by done.
  assert (Z.ltb (now - t) d = true) as -> by (apply Z.ltb_lt; lia). done.
Qed.

Lemma threshold_trips_witness :
  Allow 12 (run_ops (failures_at [1; 2]) (New 3 30)).2 = (true, (run_ops (failures_at [1; 2]) (New 3 30)).2) ∧
  (Allow 12 (RecordFailure 10 (run_ops (failures_at [1; 2]) (New 3 30)).2)).1 = false.
Proof. apply (threshold_trips 3 30 [1; 2] 10 12); repeat split; vm_compute; (reflexivity || discriminate). Defined.

(** ** BackoffBreaker: theorems *)

(** A positive 64-bit wrap of [o * 2^j] is at least [2^j]. *)
Lemma wrap64_pow_multiple o j :
  0 <= j → 0 < wrap64 (o * 2 ^ j) → 2 ^ j <= wrap64 (o * 2 ^ j).
Proof.
  intros Hj Hpos. destruct (wrap_eqm 64 (o * 2 ^ j)) as [m Hm].
  pose proof (wrap_range 64 (o * 2 ^ j) ltac:(lia)) as Hr.
  unfold wrap64 in *. change (64 - 1) with 63 in Hr.
  destruct (Z.le_gt_cases j 64) as [Hle|Hgt].
  - assert (2 ^ 64 = 2 ^ (64 - j) * 2 ^ j) as E by (rewrite <- Z.pow_add_r by lia; f_equal; lia).
    rewrite Hm, E in Hpos |- *.
    replace (o * 2 ^ j - m * (2 ^ (64 - j) * 2 ^ j)) with ((o - m * 2 ^ (64 - j)) * 2 ^ j) in * by ring.
    assert (0 < 2 ^ j) by (apply Z.pow_pos_nonneg; lia).
    assert (0 < o - m * 2 ^ (64 - j)) by nia. nia.
  - assert (2 ^ j = 2 ^ (j - 64) * 2 ^ 64) as E by (rewrite <- Z.pow_add_r by lia; f_equal; lia).
    rewrite Hm, E in Hpos, Hr. replace (o * (2 ^ (j - 64) * 2 ^ 64) - m * 2 ^ 64)
      with ((o * 2 ^ (j - 64) - m) * 2 ^ 64) in * by ring.
    assert (0 < o * 2 ^ (j - 64) - m) by lia. lia.
Qed.

Lemma shl64_one k : 0 <= k → shl64 1 k = if Z.leb k 62 then 2 ^ k else if Z.eqb k 63 then - 2 ^ 63 else 0.
Proof.
  intros Hk. unfold shl64. rewrite Z.shiftl_1_l. destruct (Z.leb_spec k 62).
  - apply wrap64_id. pose proof (Z.pow_pos_nonneg 2 k). pose proof (Z.pow_lt_mono_r 2 k 63). lia.
  - destruct (Z.eqb_spec k 63) as [->|]; [done|].
    unfold wrap64, wrap. replace (2 ^ k) with (2 ^ (k - 64) * 2 ^ 64) by
      (rewrite <- Z.pow_add_r by lia; f_equal; lia).
    rewrite Z.add_comm, Z_mod_plus_full. done.
Qed.

(** The delay is exact when the odd part [o] of the base delay [o * 2^t]
    times the cap stays below [2^63]: a product that overflows is then either
    not positive or above the cap. *)
Lemma backoff_delay_exact o t max n :
  0 < o → 0 <= t → 0 < max → o * 2 ^ t < 2 ^ 63 → o * max < 2 ^ 63 → 1 <= n →
  backoff_delay (o * 2 ^ t) max n = Z.min (o * 2 ^ t * 2 ^ (n - 1)) max.
Proof.
  intros Ho Ht Hmax Hbase Hodd Hn. unfold backoff_delay. rewrite shl64_one by lia.
  set (k := n - 1). assert (0 <= k) by lia. clearbody k. clear Hn n.
  assert (0 < 2 ^ t) by (apply Z.pow_pos_nonneg; lia).
  assert (0 < 2 ^ k) by (apply Z.pow_pos_nonneg; lia).
  assert (62 < k → max < o * 2 ^ t * 2 ^ k) as Hbig.
  { intros Hk. assert (2 ^ 63 <= 2 ^ k) by (apply Z.pow_le_mono_r; lia). nia. }
  destruct (Z.leb_spec k 62).
  - destruct (Z.lt_ge_cases (o * 2 ^ t * 2 ^ k) (2 ^ 63)) as [Hlt|Hge].
    + rewrite wrap64_id by nia. destruct (Z.leb_spec (o * 2 ^ t * 2 ^ k) 0); [nia|].
      destruct (Z.ltb_spec max (o * 2 ^ t * 2 ^ k)); simpl; lia.
    + replace (o * 2 ^ t * 2 ^ k) with (o * 2 ^ (t + k)) in * by (rewrite Z.pow_add_r by lia; ring).
      assert (max < 2 ^ (t + k)) by nia.
      pose proof (wrap64_pow_multiple o (t + k) ltac:(lia)) as Hmul.
      destruct (Z.leb_spec (wrap64 (o * 2 ^ (t + k))) 0); simpl; [nia|].
      destruct (Z.ltb_spec max (wrap64 (o * 2 ^ (t + k)))); nia.
  - assert (wrap64 (o * 2 ^ t * (if Z.eqb k 63 then - 2 ^ 63 else 0)) <= 0) as Hle.
    { destruct (Z.eqb k 63); [|by rewrite Z.mul_0_r].
      destruct (Z.le_gt_cases (wrap64 (o * 2 ^ t * - 2 ^ 63)) 0); [done|].
      pose proof (wrap64_pow_multiple (- (o * 2 ^ t)) 63 ltac:(lia)) as Hmul.
      replace (- (o * 2 ^ t) * 2 ^ 63) with (o * 2 ^ t * - 2 ^ 63) in Hmul by ring.
      pose proof (wrap_range 64 (o * 2 ^ t * - 2 ^ 63) ltac:(lia)) as Hr.
      unfold wrap64 in *. change (64 - 1) with 63 in Hr. lia. }
    apply Z.leb_le in Hle. rewrite Hle. simpl. specialize (Hbig ltac:(lia)). lia.
Qed.

Lemma fail_at_spec b ts now :
  0 <= bfailures b → bfailures b + Z.of_nat (length ts) + 1 < 2 ^ 63 →
  let b' := fail_at (ts ++ [now]) b in
  let n := bfailures b + Z.of_nat (length ts) + 1 in
  b' = MkBackoff n (now + backoff_delay (baseDelay b) (maxDelay b) n) (baseDelay b) (maxDelay b).
Proof.
  revert b. induction ts as [|t ts IH]; intros b Hb Hlt; simpl in *.
  - rewrite wrap64_id by lia. by rewrite Z.add_0_r.
  - rewrite IH; cbn [BackoffRecordFailure snd bfailures baseDelay maxDelay];
      rewrite wrap64_id by lia; [|lia..].
    by replace (bfailures b + 1 + Z.of_nat (length ts) + 1)
      with (bfailures b + Z.of_nat (S (length ts)) + 1) by lia.
Qed.

(** C36: With the default configuration the [n]th consecutive failure, at time
    [now], opens the breaker until exactly [min(30s * 2^(n-1), 5min)] later,
    for every [n] below the range of [int]: the 64-bit overflow of the shift
    and of the product never yields a shorter delay. The breaker reads as open
    until then and as closed from then on, and [RetryAt] returns that time. *)
Theorem backoff_default_schedule ts now t :
  let n := Z.of_nat (length ts) + 1 in
  let b := fail_at (ts ++ [now]) (NewBackoff 0 0) in
  let until := now + Z.min (30 * 10 ^ 9 * 2 ^ (n - 1)) (300 * 10 ^ 9) in
  n < 2 ^ 63 → until ≠ 0 →
  Failures b = n ∧ IsOpen t b = Z.ltb t until ∧
  RetryAt t b = (if Z.ltb t until then (until, true) else (0, false)).
Proof.
  intros n b until Hn Hu. subst b. rewrite fail_at_spec by (simpl; lia).
  cbn [bfailures baseDelay maxDelay NewBackoff]. change (0 <=? 0) with true. cbn iota.
  replace (0 + Z.of_nat (length ts) + 1) with n by lia.
  assert (backoff_delay (30 * 10 ^ 9) (5 * 60 * 10 ^ 9) n
          = Z.min (30 * 10 ^ 9 * 2 ^ (n - 1)) (300 * 10 ^ 9)) as ->.
  { change (30 * 10 ^ 9) with (29296875 * 2 ^ 10). apply backoff_delay_exact; lia. }
  unfold Failures, IsOpen, RetryAt; cbn [bfailures openUntil]. fold until.
  apply Z.eqb_neq in Hu. rewrite Hu. simpl. destruct (Z.ltb t until); done.
Qed.

Lemma backoff_default_schedule_witness :
  let b := fail_at ([1; 2; 3; 4] ++ [10]) (NewBackoff 0 0) in
  Failures b = 5 ∧ IsOpen 11 b = true ∧ RetryAt 11 b = (300000000010, true).
Proof. apply (backoff_default_schedule [1; 2; 3; 4] 10 11); vm_compute; (reflexivity || discriminate). Defined.

(** A success closes the breaker and restarts the schedule. *)
Lemma BackoffRecordSuccess_closes b t :
  IsOpen t (BackoffRecordSuccess b) = false ∧ Failures (BackoffRecordSuccess b) = 0.
Proof. done. Qed.
