(* ===== verification/PubSub.v ===== *)
(** * internal/pkg/pubsub: the fan-out hub with bounded replay

    A Go channel is a buffer with a capacity and a closed flag, named by an
    identity so that the hub and a consumer share it.  A send in a [select]
    with a [default] arm never blocks: it succeeds when the buffer has room.
    Sending on or closing a closed channel panics; a panic is [None].

    [Publish] takes its locks one after the other, so it is the composition of
    four atomic parts ([pub_seq], [pub_replay], [pub_fanout], [pub_wake]) and
    other goroutines may run between them: [hstep] is that interleaving, with
    one publisher at a time (the store publishes under its own lock). *)

From S2P Require Import Prelude.
Local Open Scope Z_scope.

Definition DefaultReplayCapacity : Z := 512.
Definition DefaultChannelSize : Z := 256.

Record Sequenced (T : Type) := MkSequenced { Seq : Z; Value : T }.
Arguments MkSequenced {T} Seq Value.
Arguments Seq {T} _.
Arguments Value {T} _.

Record chan (A : Type) := MkChan { buf : list A; cap : Z; closed : bool }.
Arguments MkChan {A} buf cap closed.
Arguments buf {A} _.
Arguments cap {A} _.
Arguments closed {A} _.

Inductive sent (A : Type) := Sent (c : chan A) | Full | Panic.
Arguments Sent {A} c.
Arguments Full {A}.
Arguments Panic {A}.

(** [select { case ch <- v: ... default: ... }]. *)
Definition try_send {A} (v : A) (c : chan A) : sent A :=
  if closed c then Panic
  else if Z.ltb (Z.of_nat (length (buf c))) (cap c) then Sent (MkChan (buf c ++ [v]) (cap c) false)
  else Full.

Section hub.
Context {T : Type}.

Record Hub := MkHub {
  deltaSeq : Z;
  replayBuf : list (Sequenced T);
  replayCap : Z;
  subscribers : gmap Z nat;
  nextSubID : Z;
  channelSize : Z;
  wakeSubscribers : gmap Z nat;
  nextWakeSubID : Z;
  clone : option (T → T);
  chans : gmap nat (chan (Sequenced T));
  wakeChans : gmap nat (chan unit);
  nextChan : nat
}.

#[export] Instance eta_Hub : Eta Hub := λ h, MkHub (deltaSeq h) (replayBuf h) (replayCap h)
  (subscribers h) (nextSubID h) (channelSize h) (wakeSubscribers h) (nextWakeSubID h) (clone h)
  (chans h) (wakeChans h) (nextChan h).
#[export] Instance set_deltaSeq : Setter deltaSeq. Proof. derive_setter. Defined.
#[export] Instance set_replayBuf : Setter replayBuf. Proof. derive_setter. Defined.
#[export] Instance set_replayCap : Setter replayCap. Proof. derive_setter. Defined.
#[export] Instance set_subscribers : Setter subscribers. Proof. derive_setter. Defined.
#[export] Instance set_nextSubID : Setter nextSubID. Proof. derive_setter. Defined.
#[export] Instance set_channelSize : Setter channelSize. Proof. derive_setter. Defined.
#[export] Instance set_wakeSubscribers : Setter wakeSubscribers. Proof. derive_setter. Defined.
#[export] Instance set_nextWakeSubID : Setter nextWakeSubID. Proof. derive_setter. Defined.
#[export] Instance set_clone : Setter clone. Proof. derive_setter. Defined.
#[export] Instance set_chans : Setter chans. Proof. derive_setter. Defined.
#[export] Instance set_wakeChans : Setter wakeChans. Proof. derive_setter. Defined.
#[export] Instance set_nextChan : Setter nextChan. Proof. derive_setter. Defined.

(** Options are functions on the hub, applied in order by [NewHub]. *)
Definition WithReplayCapacity (n : Z) (h : Hub) : Hub := h <| replayCap := n |>.
Definition WithChannelSize (n : Z) (h : Hub) : Hub := h <| channelSize := n |>.
Definition WithClone (fn : T → T) (h : Hub) : Hub := h <| clone := Some fn |>.

Definition NewHub (opts : list (Hub → Hub)) : Hub :=
  foldl (λ h opt, opt h)
    (MkHub 0 [] DefaultReplayCapacity ∅ 0 DefaultChannelSize ∅ 0 None ∅ ∅ 0) opts.

Definition cloneValue (h : Hub) (v : T) : T :=
  match clone h with Some f => f v | None => v end.

(** *** Publish *)

Definition pub_seq (h : Hub) : Z * Hub :=
  let seq := wrap64 (deltaSeq h + 1) in (seq, h <| deltaSeq := seq |>).

(** Appending to the ring; re-slicing with a bound outside the slice panics. *)
Definition pub_replay (seq : Z) (value : T) (h : Hub) : option Hub :=
  let b := replayBuf h ++ [MkSequenced seq (cloneValue h value)] in
  if Z.ltb (replayCap h) (Z.of_nat (length b)) then
    let lo := Z.of_nat (length b) - replayCap h in
    if Z.leb lo (Z.of_nat (length b)) then Some (h <| replayBuf := drop (Z.to_nat lo) b |>) else None
  else Some (h <| replayBuf := b |>).

(** The loop over the subscribers, in the map's iteration order [order]. *)
Fixpoint fan_out (msg : Sequenced T) (subs : gmap Z nat) (order : list Z)
    (cs : gmap nat (chan (Sequenced T))) (overflowed : list Z)
  : option (gmap nat (chan (Sequenced T)) * list Z) :=
  match order with
  | [] => Some (cs, overflowed)
  | id :: rest =>
    c ← subs !! id;
    ch ← cs !! c;
    match try_send msg ch with
    | Sent ch' => fan_out msg subs rest (<[c := ch']> cs) overflowed
    | Full => fan_out msg subs rest (<[c := MkChan (buf ch) (cap ch) true]> cs) (overflowed ++ [id])
    | Panic => None
    end
  end.

Definition pub_fanout (order : list Z) (seq : Z) (value : T) (h : Hub) : option Hub :=
  '(cs, overflowed) ← fan_out (MkSequenced seq (cloneValue h value)) (subscribers h) order (chans h) [];
  Some (h <| chans := cs |> <| subscribers := foldr delete (subscribers h) overflowed |>).

Fixpoint wake_all (subs : gmap Z nat) (order : list Z) (cs : gmap nat (chan unit))
  : option (gmap nat (chan unit)) :=
  match order with
  | [] => Some cs
  | id :: rest =>
    c ← subs !! id;
    ch ← cs !! c;
    match try_send tt ch with
    | Sent ch' => wake_all subs rest (<[c := ch']> cs)
    | Full => wake_all subs rest cs
    | Panic => None
    end
  end.

Definition pub_wake (order : list Z) (h : Hub) : option Hub :=
  cs ← wake_all (wakeSubscribers h) order (wakeChans h);
  Some (h <| wakeChans := cs |>).

Definition Publish (order worder : list Z) (value : T) (h : Hub) : option Hub :=
  let '(seq, h) := pub_seq h in
  h ← pub_replay seq value h;
  h ← pub_fanout order seq value h;
  pub_wake worder h.

(** *** Subscribers *)

Definition Subscribe (h : Hub) : Z * nat * Hub :=
  let id := nextSubID h in
  let c := nextChan h in
  (id, c, h <| nextSubID := id + 1 |> <| nextChan := S c |>
            <| chans := <[c := MkChan [] (channelSize h) false]> (chans h) |>
            <| subscribers := <[id := c]> (subscribers h) |>).

Definition SubscribeWake (h : Hub) : Z * nat * Hub :=
  let id := nextWakeSubID h in
  let c := nextChan h in
  (id, c, h <| nextWakeSubID := id + 1 |> <| nextChan := S c |>
            <| wakeChans := <[c := MkChan [] 1 false]> (wakeChans h) |>
            <| wakeSubscribers := <[id := c]> (wakeSubscribers h) |>).

(** Draining: receives until the buffer is empty. A closed channel never
    reaches the [default] arm, so draining it does not return. *)
Definition drain {A} (c : chan A) : option (chan A) :=
  if closed c then None else Some (MkChan [] (cap c) false).

Definition Unsubscribe (id : Z) (h : Hub) : option Hub :=
  match subscribers h !! id with
  | None => Some h
  | Some c =>
    ch ← chans h !! c;
    ch' ← drain ch;
    Some (h <| subscribers := delete id (subscribers h) |> <| chans := <[c := ch']> (chans h) |>)
  end.

Definition UnsubscribeWake (id : Z) (h : Hub) : option Hub :=
  match wakeSubscribers h !! id with
  | None => Some h
  | Some c =>
    ch ← wakeChans h !! c;
    Some (h <| wakeSubscribers := delete id (wakeSubscribers h) |>
            <| wakeChans := <[c := MkChan (tail (buf ch)) (cap ch) (closed ch)]> (wakeChans h) |>)
  end.

Definition SubscriberCount (h : Hub) : nat := size (subscribers h).
Definition LatestSeq (h : Hub) : Z := deltaSeq h.

(** A consumer's non-blocking receive on the channel [c]. *)
Definition Recv (c : nat) (h : Hub) : option (Sequenced T) * Hub :=
  match chans h !! c with
  | Some ch =>
    match buf ch with
    | m :: rest => (Some m, h <| chans := <[c := MkChan rest (cap ch) (closed ch)]> (chans h) |>)
    | [] => (None, h)
    end
  | None => (None, h)
  end.

(** *** Since *)

(** The binary search loop; [fuel] bounds the halvings. *)
Fixpoint search (b : list (Sequenced T)) (seq : Z) (fuel lo hi : nat) : option nat :=
  if Nat.ltb lo hi then
    match fuel with
    | O => None
    | S fuel' =>
      let mid := Nat.div (lo + hi) 2 in
      m ← b !! mid;
      if Z.leb (Seq m) seq then search b seq fuel' (S mid) hi else search b seq fuel' lo mid
    end
  else Some lo.

Definition Since (seq : Z) (h : Hub) : option (list (Sequenced T) * bool) :=
  match replayBuf h with
  | [] => Some ([], false)
  | first :: _ =>
    if Z.ltb (wrap64 (seq + 1)) (Seq first) then Some ([], true)
    else
      lo ← search (replayBuf h) seq (length (replayBuf h)) 0 (length (replayBuf h));
      if Nat.leb (length (replayBuf h)) lo then Some ([], false)
      else Some ((λ m, MkSequenced (Seq m) (cloneValue h (Value m))) <$> drop lo (replayBuf h), false)
  end.

(** *** What the replay buffer holds *)

(** The messages of the published values [vs], numbered from [1]. *)
Definition numbered (h : Hub) (vs : list T) : list (Sequenced T) :=
  imap (λ i v, MkSequenced (Z.of_nat i + 1) (cloneValue h v)) vs.

(** The ring holds the last [replayCap] of the values [vs]. *)
Definition replay_of (vs : list T) (h : Hub) : Prop :=
  replayBuf h = drop (length vs - Z.to_nat (replayCap h)) (numbered h vs).

(** Every registered channel is open and is registered once. *)
Record hub_wf (h : Hub) : Prop := {
  wf_open : ∀ id c, subscribers h !! id = Some c → ∃ ch, chans h !! c = Some ch ∧ closed ch = false;
  wf_wake : ∀ id c, wakeSubscribers h !! id = Some c → ∃ ch, wakeChans h !! c = Some ch ∧ closed ch = false;
  wf_inj : ∀ id id' c, subscribers h !! id = Some c → subscribers h !! id' = Some c → id = id';
  wf_ids : ∀ id c, subscribers h !! id = Some c → id < nextSubID h;
  wf_fresh : ∀ c ch, chans h !! c = Some ch → (c < nextChan h)%nat
}.
End hub.
Arguments Hub : clear implicits.

Section replay.
Context {T : Type}.
Implicit Types (h : Hub T) (b : list (Sequenced T)).

(** Binary search: [k] splits [b] into sequence numbers [<= seq] and [> seq]. *)
Definition splits b seq (k : nat) : Prop :=
  (∀ i m, (i < k)%nat → b !! i = Some m → Seq m <= seq) ∧
  (∀ i m, (k <= i)%nat → b !! i = Some m → seq < Seq m).

Definition seq_sorted b : Prop :=
  ∀ i j mi mj, (i <= j)%nat → b !! i = Some mi → b !! j = Some mj → Seq mi <= Seq mj.

Lemma search_spec b seq fuel lo hi :
  seq_sorted b → (lo <= hi)%nat → (hi <= length b)%nat → (hi - lo <= fuel)%nat →
  (∀ i m, (i < lo)%nat → b !! i = Some m → Seq m <= seq) →
  (∀ i m, (hi <= i)%nat → b !! i = Some m → seq < Seq m) →
  ∃ k, search b seq fuel lo hi = Some k ∧ (k <= length b)%nat ∧ splits b seq k.
Proof.
  intros Hs. revert lo hi. induction fuel as [|fuel IH]; intros lo hi Hle Hhi Hf Hlo Hup; cbn [search].
  - destruct (Nat.ltb_spec lo hi); [lia|]. exists lo. split; [done|]. split; [lia|].
    split; [done|]. intros; eapply Hup; [|done]; lia.
  - destruct (Nat.ltb_spec lo hi).
    2: { exists lo. split; [done|]. split; [lia|]. split; [done|]. intros; eapply Hup; [|done]; lia. }
    pose proof (Nat.div_mod_eq (lo + hi) 2). pose proof (Nat.mod_upper_bound (lo + hi) 2 ltac:(lia)).
    set (mid := Nat.div (lo + hi) 2) in *.
    destruct (lookup_lt_is_Some_2 b mid) as [m Hm]; [lia|]. rewrite Hm. cbn [mbind option_bind].
    destruct (Z.leb_spec (Seq m) seq).
    + apply IH; [lia..| |done]. intros i m' Hi Hm'. etrans; [|done]. eapply Hs; [|done..]. lia.
    + apply IH; [lia..|done|]. intros i m' Hi Hm'. eapply Z.lt_le_trans; [done|]. eapply Hs; [|done..]. lia.
Qed.

Lemma numbered_lookup h vs i m :
  numbered h vs !! i = Some m ↔ ∃ v, vs !! i = Some v ∧ m = MkSequenced (Z.of_nat i + 1) (cloneValue h v).
Proof. unfold numbered. rewrite list_lookup_imap. destruct (vs !! i); naive_solver. Qed.

Lemma numbered_length h vs : length (numbered h vs) = length vs.
Proof. apply length_imap. Qed.

Lemma numbered_snoc h vs v :
  numbered h (vs ++ [v]) = numbered h vs ++ [MkSequenced (Z.of_nat (length vs) + 1) (cloneValue h v)].
Proof. unfold numbered. rewrite imap_app. simpl. by rewrite Nat.add_0_r. Qed.

Lemma replay_lookup h vs i m :
  replay_of vs h → replayBuf h !! i = Some m →
  ∃ v, vs !! (length vs - Z.to_nat (replayCap h) + i)%nat = Some v ∧
    m = MkSequenced (Z.of_nat (length vs - Z.to_nat (replayCap h) + i) + 1) (cloneValue h v).
Proof. intros -> Hi. rewrite lookup_drop in Hi. by apply numbered_lookup. Qed.

Lemma replay_sorted h vs : replay_of vs h → seq_sorted (replayBuf h).
Proof.
  intros Hr i j mi mj Hij Hi Hj.
  destruct (replay_lookup _ _ _ _ Hr Hi) as (? & _ & ->).
  destruct (replay_lookup _ _ _ _ Hr Hj) as (? & _ & ->). simpl. lia.
Qed.

(** A copy of the messages, as [Since] hands them out. *)
Definition copies h b := (λ m, MkSequenced (Seq m) (cloneValue h (Value m))) <$> b.

(** [Since] returns exactly the published messages after [seq], or reports a
    gap exactly when one of them has left the ring; it never reports too little. *)
Theorem Since_correct h vs seq :
  replay_of vs h → 1 <= replayCap h → 0 <= seq < 2 ^ 63 - 1 →
  Since seq h = Some (if Z.ltb (seq + replayCap h) (Z.of_nat (length vs)) then ([], true)
                      else (copies h (drop (Z.to_nat seq) (numbered h vs)), false)).
Proof.
  intros Hr Hcap Hseq. unfold Since.
  destruct (replayBuf h) as [|first rest] eqn:E.
  { assert (length vs = 0%nat) as Hl.
    { apply (f_equal length) in E. rewrite Hr, length_drop, numbered_length in E. simpl in E. lia. }
    rewrite Hl. destruct (Z.ltb_spec (seq + replayCap h) (Z.of_nat 0)); [lia|].
    rewrite drop_ge; [done|]. rewrite numbered_length. lia. }
  destruct (replay_lookup h vs 0 first Hr) as (v0 & Hv0 & ->); [by rewrite E|].
  apply lookup_lt_Some in Hv0. rewrite Nat.add_0_r in Hv0.
  simpl Seq. rewrite wrap64_id by lia. rewrite <- E.
  destruct (Z.ltb_spec (seq + 1) (Z.of_nat (length vs - Z.to_nat (replayCap h) + 0) + 1)) as [Hgap|Hnogap];
    destruct (Z.ltb_spec (seq + replayCap h) (Z.of_nat (length vs))); try lia; [done|].
  destruct (search_spec (replayBuf h) seq (length (replayBuf h)) 0 (length (replayBuf h)))
    as (k & -> & Hk & Hlo & Hhi); [by eapply replay_sorted|lia|lia|lia|intros; lia| |].
  { intros i m Hi Hm. apply lookup_lt_Some in Hm. lia. }
  cbn [mbind option_bind].
  set (base := (length vs - Z.to_nat (replayCap h))%nat) in *.
  assert (length (replayBuf h) = (length vs - base)%nat) as Hlen by
    by rewrite Hr, length_drop, numbered_length.
  assert (base + k = Z.to_nat seq ∨ (k = length (replayBuf h) ∧ base + k <= Z.to_nat seq))%nat as Hkk.
  { destruct (lookup_lt_is_Some_2 (replayBuf h) 0) as [m0 Hm0]; [lia|].
    destruct (decide (k = length (replayBuf h))) as [->|Hne].
    - right. split; [done|]. destruct (lookup_lt_is_Some_2 (replayBuf h) (length (replayBuf h) - 1)) as [m Hm]; [lia|].
      pose proof (Hlo (length (replayBuf h) - 1)%nat m ltac:(lia) Hm) as Hle.
      destruct (replay_lookup _ _ _ _ Hr Hm) as (? & _ & ->). simpl in Hle. fold base in Hle. lia.
    - left. destruct (lookup_lt_is_Some_2 (replayBuf h) k) as [m Hm]; [lia|].
      pose proof (Hhi k m ltac:(lia) Hm) as Hgt.
      destruct (replay_lookup _ _ _ _ Hr Hm) as (? & _ & ->). simpl in Hgt. fold base in Hgt.
      destruct k as [|k]; [lia|]. destruct (lookup_lt_is_Some_2 (replayBuf h) k) as [m' Hm']; [lia|].
      pose proof (Hlo k m' ltac:(lia) Hm') as Hle.
      destruct (replay_lookup _ _ _ _ Hr Hm') as (? & _ & ->). simpl in Hle. fold base in Hle. lia. }
  destruct (Nat.leb_spec (length (replayBuf h)) k).
  - rewrite drop_ge; [done|]. rewrite numbered_length. lia.
  - do 3 f_equal. rewrite Hr, drop_drop. f_equal. fold base. lia.
Qed.
End replay.

Lemma Since_correct_witness :
  ∃ h : Hub nat, replay_of [10; 20; 30]%nat h ∧ replayCap h = 2 ∧
    Since 1 h = Some ([MkSequenced 2 20; MkSequenced 3 30]%nat, false) ∧ Since 0 h = Some ([], true).
Proof.
  exists (MkHub 3 [MkSequenced 2 20; MkSequenced 3 30]%nat 2 ∅ 0 256 ∅ 0 None ∅ ∅ 0).
  split; [reflexivity|]. split; [reflexivity|]. split.
  - apply (Since_correct (MkHub 3 [MkSequenced 2 20; MkSequenced 3 30]%nat 2 ∅ 0 256 ∅ 0 None ∅ ∅ 0)
             [10; 20; 30]%nat 1); [reflexivity|simpl; lia|lia].
  - apply (Since_correct (MkHub 3 [MkSequenced 2 20; MkSequenced 3 30]%nat 2 ∅ 0 256 ∅ 0 None ∅ ∅ 0)
             [10; 20; 30]%nat 0); [reflexivity|simpl; lia|lia].
Defined.

Section fanout.
Context {T : Type}.
Implicit Types (h : Hub T) (cs : gmap nat (chan (Sequenced T))) (subs : gmap Z nat).

(** What the fan-out did to the channel [ch] of one subscriber. *)
Definition delivery (msg : Sequenced T) (ch ch' : chan (Sequenced T)) (evicted : Prop) : Prop :=
  if Z.ltb (Z.of_nat (length (buf ch))) (cap ch)
  then ch' = MkChan (buf ch ++ [msg]) (cap ch) false ∧ ¬ evicted
  else ch' = MkChan (buf ch) (cap ch) true ∧ evicted.

Lemma fan_out_spec msg subs order cs ov :
  NoDup order →
  (∀ id, id ∈ order → ∃ c ch, subs !! id = Some c ∧ cs !! c = Some ch ∧ closed ch = false) →
  (∀ id id' c, subs !! id = Some c → subs !! id' = Some c → id = id') →
  ∃ cs' ov', fan_out msg subs order cs ov = Some (cs', ov ++ ov') ∧
    (∀ id, id ∈ ov' → id ∈ order) ∧
    (∀ c, (∀ id, id ∈ order → subs !! id ≠ Some c) → cs' !! c = cs !! c) ∧
    (∀ id c ch, id ∈ order → subs !! id = Some c → cs !! c = Some ch →
       ∃ ch', cs' !! c = Some ch' ∧ delivery msg ch ch' (id ∈ ov')).
Proof.
  intros Hnd Hreg Hinj. revert cs ov Hreg. induction Hnd as [|id order Hid Hnd IH]; intros cs ov Hreg; simpl.
  { exists cs, []. rewrite app_nil_r. set_solver. }
  destruct (Hreg id) as (c & ch & Hc & Hch & Hcl); [set_solver|].
  rewrite Hc; simpl; rewrite Hch; simpl.
  assert (∃ ch1 o1, delivery msg ch ch1 (id ∈ o1) ∧ (∀ x, x ∈ o1 → x = id) ∧
    match try_send msg ch with
    | Sent ch' => fan_out msg subs order (<[c:=ch']> cs) ov
    | Full => fan_out msg subs order (<[c:=MkChan (buf ch) (cap ch) true]> cs) (ov ++ [id])
    | Panic => None
    end = fan_out msg subs order (<[c:=ch1]> cs) (ov ++ o1)) as (ch1 & o1 & Hd & Ho1 & ->).
  { unfold try_send, delivery. rewrite Hcl. case_match.
    - eexists _, []. rewrite app_nil_r. split_and!; [done|set_solver..|done].
    - eexists _, [id]. split_and!; [done|set_solver..|done]. }
  destruct (IH (<[c:=ch1]> cs) (ov ++ o1)) as (cs' & ov' & -> & Hov & Hfr & Hdel).
  { intros id' Hid'. destruct (Hreg id') as (c' & ch' & Hc' & Hch' & ?); [set_solver|].
    exists c', ch'. rewrite lookup_insert_ne; [done|]. intros <-.
    by rewrite (Hinj _ _ _ Hc Hc') in Hid. }
  exists cs', (o1 ++ ov'). rewrite (assoc_L (++)). split; [done|]. split_and!.
  - set_solver.
  - intros c' Hc'. rewrite Hfr by set_solver. rewrite lookup_insert_ne; [done|].
    intros <-. by apply (Hc' id); [set_solver|].
  - intros id' c' ch' [->|Hin]%elem_of_cons Hc' Hch'; simplify_eq.
    + exists ch1. rewrite Hfr.
      2: { intros id' Hin E. by rewrite (Hinj _ _ _ Hc E) in Hid. }
      rewrite lookup_insert_eq. split; [done|]. unfold delivery in *. case_match; set_solver.
    + assert (id ≠ id') by (intros ->; done).
      assert (c ≠ c') by (intros <-; by rewrite (Hinj _ _ _ Hc Hc') in *).
      destruct (Hdel id' c' ch') as (ch2 & ? & Hd2); [done|done|by rewrite lookup_insert_ne|].
      exists ch2. split; [done|]. unfold delivery in *. case_match; set_solver.
Qed.

Lemma wake_all_spec subs order (cs : gmap nat (chan unit)) :
  (∀ id, id ∈ order → ∃ c ch, subs !! id = Some c ∧ cs !! c = Some ch ∧ closed ch = false) →
  ∃ (cs' : gmap nat (chan unit)), wake_all subs order cs = Some cs' ∧
    (∀ c ch, cs !! c = Some ch → ∃ ch', cs' !! c = Some ch' ∧ closed ch' = closed ch).
Proof.
  revert cs. induction order as [|id order IH]; intros cs Hreg; simpl; [naive_solver|].
  destruct (Hreg id) as (c & ch & Hc & Hch & Hcl); [set_solver|].
  rewrite Hc; simpl; rewrite Hch; simpl. unfold try_send. rewrite Hcl.
  destruct (Z.ltb _ _).
  - destruct (IH (<[c:=MkChan (buf ch ++ [()]) (cap ch) false]> cs)) as (cs' & -> & Hcs').
    { intros id' Hid'. destruct (Hreg id') as (c' & ch' & Hc' & Hch' & ?); [set_solver|].
      destruct (decide (c = c')) as [<-|]; [|exists c', ch'; by rewrite lookup_insert_ne].
      eexists c, _. by rewrite lookup_insert_eq. }
    exists cs'. split; [done|]. intros c' ch' Hch'.
    destruct (decide (c = c')) as [<-|Hne].
    + destruct (Hcs' c _ ltac:(by rewrite lookup_insert_eq)) as (ch2 & ? & Hx). exists ch2.
      simplify_eq. by rewrite Hx.
    + apply Hcs'. by rewrite lookup_insert_ne.
  - destruct (IH cs) as (cs' & -> & Hcs'); [set_solver|]. eauto.
Qed.

Lemma foldr_delete_lookup subs ov id :
  foldr delete subs ov !! id = if decide (id ∈ ov) then None else subs !! id.
Proof.
  induction ov as [|x ov IH]; [by rewrite decide_False by set_solver|]; cbn [foldr].
  destruct (decide (id = x)) as [->|Hne].
  - rewrite lookup_delete_eq, decide_True by set_solver. done.
  - rewrite lookup_delete_ne by done. rewrite IH. repeat case_decide; set_solver.
Qed.

(** The fan-out on a well-formed hub does not panic, keeps it well formed, and
    treats each subscriber as [delivery] says. *)
Lemma pub_fanout_spec order seq value h :
  hub_wf h → range_order (subscribers h) order →
  ∃ h', pub_fanout order seq value h = Some h' ∧ hub_wf h' ∧
    (∃ cs subs, h' = h <| chans := cs |> <| subscribers := subs |>) ∧
    (∀ id c, subscribers h' !! id = Some c → subscribers h !! id = Some c) ∧
    (∀ c, (∀ id, subscribers h !! id ≠ Some c) → chans h' !! c = chans h !! c) ∧
    (∀ id c ch, subscribers h !! id = Some c → chans h !! c = Some ch →
       ∃ ch', chans h' !! c = Some ch' ∧
         delivery (MkSequenced seq (cloneValue h value)) ch ch' (subscribers h' !! id = None)).
Proof.
  intros [Hop Hwk Hinj Hids Hfr] Ho. unfold pub_fanout.
  destruct (fan_out_spec (MkSequenced seq (cloneValue h value)) (subscribers h) order (chans h) [])
    as (cs & ov & -> & Hov & Hframe & Hdel); [by eapply range_order_NoDup| |done|].
  { intros id Hid. apply (range_order_elem _ _ id Ho) in Hid. apply elem_of_dom in Hid as [c Hc].
    destruct (Hop _ _ Hc) as (ch & ? & ?). eauto 10. }
  assert (∀ id c, subscribers h !! id = Some c → id ∈ order) as Hin.
  { intros id c Hc. apply (range_order_elem _ _ id Ho), elem_of_dom. eauto. }
  simpl. eexists. split; [done|]. split; [split|split_and!]; simpl.
  - intros id c. rewrite foldr_delete_lookup. case_decide as Hnov; [done|]. intros Hc.
    destruct (Hop _ _ Hc) as (ch & Hch & Hcl).
    destruct (Hdel id c ch) as (ch' & ? & Hd); [by eapply Hin|done..|]. exists ch'. split; [done|].
    unfold delivery in Hd. case_match; [by destruct Hd as [-> _]|by destruct Hd as [_ ?]].
  - apply Hwk.
  - intros id id' c. rewrite !foldr_delete_lookup. repeat case_decide; naive_solver.
  - intros id c. rewrite foldr_delete_lookup. case_decide; naive_solver.
  - intros c ch Hc. destruct (chans h !! c) as [ch0|] eqn:E; [by eapply Hfr|].
    rewrite Hframe in Hc by (intros id _ Hid; destruct (Hop _ _ Hid) as (? & ? & _); congruence). congruence.
  - by eexists _, _.
  - intros id c. rewrite foldr_delete_lookup. case_decide; naive_solver.
  - intros c Hc. by apply Hframe.
  - intros id c ch Hc Hch. destruct (Hdel id c ch) as (ch' & ? & Hd); [by eapply Hin|done..|].
    exists ch'. split; [done|]. rewrite foldr_delete_lookup.
    unfold delivery in *. case_match; destruct Hd as [-> ?]; (split; [done|]).
    + rewrite decide_False by done. congruence.
    + by rewrite decide_True.
Qed.

Lemma pub_wake_spec order h :
  hub_wf h → range_order (wakeSubscribers h) order →
  ∃ (cs : gmap nat (chan unit)), pub_wake order h = Some (h <| wakeChans := cs |>) ∧ hub_wf (h <| wakeChans := cs |>).
Proof.
  intros [Hop Hwk Hinj Hids Hfr] Ho. unfold pub_wake.
  destruct (wake_all_spec (wakeSubscribers h) order (wakeChans h)) as (cs & -> & Hcs).
  { intros id Hid. apply (range_order_elem _ _ id Ho) in Hid. apply elem_of_dom in Hid as [c Hc].
    destruct (Hwk _ _ Hc) as (ch & ? & ?). eauto 10. }
  exists cs. split; [done|]. split; simpl; try done.
  intros id c Hc. destruct (Hwk _ _ Hc) as (ch & Hch & Hcl).
  destruct (Hcs _ _ Hch) as (ch' & ? & ?). exists ch'. split; [done|congruence].
Qed.

Lemma pub_replay_spec seq value h vs :
  replay_of vs h → 0 <= replayCap h → seq = Z.of_nat (length vs) + 1 →
  ∃ b, pub_replay seq value h = Some (h <| replayBuf := b |>) ∧
    replay_of (vs ++ [value]) (h <| replayBuf := b |>).
Proof.
  intros Hr Hcap ->. unfold pub_replay, replay_of in *. rewrite Hr.
  rewrite length_app, length_drop, numbered_length; simpl.
  set (m := MkSequenced (Z.of_nat (length vs) + 1) (cloneValue h value)).
  assert (∀ h' : Hub T, clone h' = clone h → numbered h' (vs ++ [value]) = numbered h vs ++ [m]) as Hn.
  { intros h' Hcl. rewrite numbered_snoc. unfold m, numbered, cloneValue. by rewrite Hcl. }
  case_match eqn:E.
  - apply Z.ltb_lt in E. case_match eqn:E2; [|apply Z.leb_gt in E2; lia].
    eexists. split; [done|]. simpl. rewrite Hn by done. rewrite length_app; simpl.
    rewrite <- (drop_app_le (numbered h vs) [m]) by (rewrite numbered_length; lia).
    rewrite drop_drop. f_equal. lia.
  - apply Z.ltb_ge in E. eexists. split; [done|]. simpl. rewrite Hn by done. rewrite length_app; simpl.
    rewrite <- (drop_app_le (numbered h vs) [m]) by (rewrite numbered_length; lia). f_equal. lia.
Qed.

Lemma hub_wf_frame h h' :
  subscribers h' = subscribers h → wakeSubscribers h' = wakeSubscribers h → chans h' = chans h →
  wakeChans h' = wakeChans h → nextSubID h' = nextSubID h → nextChan h' = nextChan h →
  hub_wf h → hub_wf h'.
Proof. intros E1 E2 E3 E4 E5 E6 [????]. split; rewrite ?E1, ?E2, ?E3, ?E4, ?E5, ?E6; done. Qed.

(** On a well-formed hub [Publish] never panics, whatever the iteration
    orders; it numbers the value one past the values published before it, keeps
    the last [replayCap] of them for replay, appends the message to the channel
    of every subscriber with room, and closes and evicts every other one. *)
Theorem Publish_correct order worder value h vs :
  hub_wf h → replay_of vs h → 0 <= replayCap h → deltaSeq h = Z.of_nat (length vs) →
  Z.of_nat (length vs) + 1 < 2 ^ 63 →
  range_order (subscribers h) order → range_order (wakeSubscribers h) worder →
  ∃ h', Publish order worder value h = Some h' ∧ hub_wf h' ∧
    replay_of (vs ++ [value]) h' ∧ LatestSeq h' = Z.of_nat (length vs) + 1 ∧
    ∀ id c ch, subscribers h !! id = Some c → chans h !! c = Some ch →
      ∃ ch', chans h' !! c = Some ch' ∧
        delivery (MkSequenced (Z.of_nat (length vs) + 1) (cloneValue h value)) ch ch'
          (subscribers h' !! id = None).
Proof.
  intros Hwf Hr Hcap Hseq Hlt Ho Hwo. unfold Publish, pub_seq.
  rewrite Hseq, wrap64_id by lia. set (seq := Z.of_nat (length vs) + 1).
  set (h1 := h <| deltaSeq := seq |>).
  destruct (pub_replay_spec seq value h1 vs) as (b & -> & Hr2); [done..|]. cbn [mbind option_bind].
  set (h2 := h1 <| replayBuf := b |>) in *.
  destruct (pub_fanout_spec order seq value h2) as (h3 & -> & Hwf3 & (cs & subs & ->) & _ & _ & Hdel).
  { by apply (hub_wf_frame h). }
  { done. }
  cbn [mbind option_bind].
  destruct (pub_wake_spec worder (h2 <| chans := cs |> <| subscribers := subs |>)) as (ws & -> & Hwf4); [done..|].
  eexists. split; [done|]. split_and!; [done|exact Hr2|done|].
  intros id c ch Hc Hch. by apply (Hdel id c ch).
Qed.
End fanout.

Lemma Publish_correct_witness :
  let h : Hub nat := (Subscribe (NewHub [WithReplayCapacity 2])).2 in
  ∃ h', Publish [0] [] 7%nat h = Some h' ∧ hub_wf h' ∧
    replay_of ([] ++ [7%nat]) h' ∧ LatestSeq h' = 1 ∧
    ∀ id c ch, subscribers h !! id = Some c → chans h !! c = Some ch →
      ∃ ch', chans h' !! c = Some ch' ∧
        delivery (MkSequenced 1 (cloneValue h 7%nat)) ch ch' (subscribers h' !! id = None).
Proof.
  intros h. apply (Publish_correct [0] [] 7%nat h []);
    [|reflexivity|vm_compute; discriminate|reflexivity|reflexivity|range_order_tac|range_order_tac].
  split; simpl.
  - intros id c [[<- <-]|[_ ?]]%lookup_insert_Some; [|done]. eexists. split; reflexivity.
  - done.
  - intros id id' c [[<- <-]|[_ ?]]%lookup_insert_Some [[<- ?]|[_ ?]]%lookup_insert_Some; done.
  - intros id c [[<- <-]|[_ ?]]%lookup_insert_Some; [lia|done].
  - intros c ch [[<- <-]|[_ ?]]%lookup_insert_Some; [lia|done].
Defined.

(** ** Interleaving with one publisher *)

Section interleaving.
Context {T : Type}.

(** Where the publisher stands inside [Publish]. *)
Inductive pub_pc := PubIdle | PubReplay (v : T) | PubFan (v : T) | PubWake.

(** [hist] lists the values whose [Publish] has started, [recvd] what the
    consumer of each channel has received. *)
Record hworld := HWorld {
  hub : Hub T;
  pub : pub_pc;
  hist : list T;
  recvd : gmap nat (list (Sequenced T))
}.

Definition received (w : hworld) (c : nat) : list (Sequenced T) := default [] (recvd w !! c).

(** Everything ever delivered to the channel [c]. *)
Definition delivered (w : hworld) (c : nat) : list (Sequenced T) :=
  received w c ++ match chans (hub w) !! c with Some ch => buf ch | None => [] end.

Inductive hstep : hworld → hworld → Prop :=
| hs_seq h hs r v seq h' :
    Z.of_nat (length hs) + 1 < 2 ^ 63 → pub_seq h = (seq, h') →
    hstep (HWorld h PubIdle hs r) (HWorld h' (PubReplay v) (hs ++ [v]) r)
| hs_replay h hs r v h' :
    pub_replay (deltaSeq h) v h = Some h' →
    hstep (HWorld h (PubReplay v) hs r) (HWorld h' (PubFan v) hs r)
| hs_fan h hs r v order h' :
    range_order (subscribers h) order → pub_fanout order (deltaSeq h) v h = Some h' →
    hstep (HWorld h (PubFan v) hs r) (HWorld h' PubWake hs r)
| hs_wake h hs r order h' :
    range_order (wakeSubscribers h) order → pub_wake order h = Some h' →
    hstep (HWorld h PubWake hs r) (HWorld h' PubIdle hs r)
| hs_subscribe h p hs r id c h' :
    Subscribe h = (id, c, h') → hstep (HWorld h p hs r) (HWorld h' p hs r)
| hs_unsubscribe h p hs r id h' :
    Unsubscribe id h = Some h' → hstep (HWorld h p hs r) (HWorld h' p hs r)
| hs_recv h p hs r c m h' :
    Recv c h = (Some m, h') →
    hstep (HWorld h p hs r) (HWorld h' p hs (<[c := default [] (r !! c) ++ [m]]> r)).

(** The values already in the ring, and how many have been fanned out. *)
Definition appended (w : hworld) : list T :=
  match pub w with PubReplay _ => take (length (hist w) - 1) (hist w) | _ => hist w end.

Definition fanned (w : hworld) : nat :=
  match pub w with PubReplay _ | PubFan _ => length (hist w) - 1 | _ => length (hist w) end.

Record hinv (w : hworld) : Prop := {
  hinv_wf : hub_wf (hub w);
  hinv_cap : 1 <= replayCap (hub w);
  hinv_seq : deltaSeq (hub w) = Z.of_nat (length (hist w));
  hinv_replay : replay_of (appended w) (hub w);
  hinv_pub : ∀ v, pub w = PubReplay v ∨ pub w = PubFan v → last (hist w) = Some v
}.

Lemma last_snoc_inv (l : list T) v : last l = Some v → ∃ l', l = l' ++ [v].
Proof. destruct l as [|x l _] using rev_ind; [done|]. rewrite last_snoc. intros [= ->]. eauto. Qed.

Lemma Subscribe_wf (h : Hub T) id c h' : hub_wf h → Subscribe h = (id, c, h') → hub_wf h'.
Proof.
  intros [Hop Hwk Hinj Hids Hfr] [= <- <- <-]. split; simpl.
  - intros id c [[<- <-]|[_ Hc]]%lookup_insert_Some; [eexists; by rewrite lookup_insert_eq|].
    destruct (Hop _ _ Hc) as (ch & Hch & ?). exists ch.
    rewrite lookup_insert_ne; [done|]. apply Hfr in Hch. lia.
  - done.
  - intros id id' c [[<- <-]|[_ Hc]]%lookup_insert_Some [[<- E]|[_ Hc']]%lookup_insert_Some;
      [done| | |by eapply Hinj].
    + destruct (Hop _ _ Hc') as (ch & Hch%Hfr & _). lia.
    + destruct (Hop _ _ Hc) as (ch & Hch%Hfr & _). lia.
  - intros id c [[<- <-]|[_ Hc%Hids]]%lookup_insert_Some; lia.
  - intros c ch [[<- <-]|[_ Hc%Hfr]]%lookup_insert_Some; lia.
Qed.

Lemma Unsubscribe_spec (h : Hub T) id :
  hub_wf h → ∃ h', Unsubscribe id h = Some h' ∧ hub_wf h' ∧ subscribers h' = delete id (subscribers h) ∧
    ∃ cs, h' = h <| subscribers := delete id (subscribers h) |> <| chans := cs |> ∧
      (∀ id' c, id' ≠ id → subscribers h !! id' = Some c → cs !! c = chans h !! c).
Proof.
  intros [Hop Hwk Hinj Hids Hfr]. unfold Unsubscribe. destruct (subscribers h !! id) as [c|] eqn:Hc.
  2: { exists h. rewrite delete_id by done. split_and!; try done. exists (chans h). by destruct h. }
  destruct (Hop _ _ Hc) as (ch & Hch & Hcl). rewrite Hch; simpl. unfold drain. rewrite Hcl; simpl.
  assert (∀ id' c', id' ≠ id → subscribers h !! id' = Some c' → c ≠ c') as Hne by (intros ? ? ? ? ->; naive_solver).
  eexists. split; [done|]. split; [split; simpl|split; [done|]].
  - intros id' c' [? Hc']%lookup_delete_Some. rewrite lookup_insert_ne by eauto. eauto.
  - done.
  - intros ? ? ? [_ ?]%lookup_delete_Some [_ ?]%lookup_delete_Some. eauto.
  - intros ? ? [_ ?]%lookup_delete_Some. eauto.
  - intros c' ch' [[<- _]|[_ ?]]%lookup_insert_Some; eauto.
  - eexists. split; [done|]. intros id' c' ? Hc'. rewrite lookup_insert_ne by eauto. done.
Qed.

Lemma Recv_spec (h : Hub T) c m h' :
  Recv c h = (Some m, h') → ∃ ch rest, chans h !! c = Some ch ∧ buf ch = m :: rest ∧
    h' = h <| chans := <[c := MkChan rest (cap ch) (closed ch)]> (chans h) |>.
Proof. unfold Recv. repeat case_match; intros; simplify_eq; eauto 10. Qed.

Lemma Recv_wf (h : Hub T) c m h' : hub_wf h → Recv c h = (Some m, h') → hub_wf h'.
Proof.
  intros [Hop Hwk Hinj Hids Hfr] (ch & rest & Hch & Hb & ->)%Recv_spec. split; simpl; try done.
  - intros id c' Hc'. destruct (Hop _ _ Hc') as (ch' & Hch' & ?).
    destruct (decide (c = c')) as [<-|]; [|rewrite lookup_insert_ne by done; eauto].
    rewrite lookup_insert_eq. simplify_eq. eauto.
  - intros c' ch' [[<- _]|[_ ?]]%lookup_insert_Some; eauto.
Qed.

(** Replay and numbering do not depend on the subscribers. *)
Lemma replay_of_frame vs (h h' : Hub T) :
  replayBuf h' = replayBuf h → replayCap h' = replayCap h → clone h' = clone h →
  replay_of vs h → replay_of vs h'.
Proof. unfold replay_of, numbered, cloneValue. by intros -> -> ->. Qed.

Lemma hinv_step w w' : hinv w → hstep w w' → hinv w'.
Proof.
  intros [Hwf Hcap Hseq Hr Hp] Hs. inversion Hs; subst; simpl in *.
  - unfold pub_seq in *. simplify_eq/=. split; simpl; try done.
    + by apply (hub_wf_frame h).
    + rewrite Hseq, wrap64_id, length_app by lia; simpl; lia.
    + unfold appended in *; simpl in *. rewrite length_app; simpl.
      rewrite Nat.add_sub, take_app_length. by apply (replay_of_frame _ h).
    + intros v' [[= ->]|[=]]. apply last_snoc.
  - unfold appended in Hr; simpl in *. destruct (last_snoc_inv hs v) as [l ->]; [auto|].
    rewrite length_app in *; simpl in *. rewrite Nat.add_sub, take_app_length in Hr.
    destruct (pub_replay_spec (deltaSeq h) v h l) as (b & E & Hr2); [done|lia|lia|].
    simplify_eq. split; simpl; try done; [by apply (hub_wf_frame h)|rewrite length_app; simpl; lia|].
    intros v' [[=]|[= ->]]. apply last_snoc.
  - destruct (pub_fanout_spec order (deltaSeq h) v h) as (h2 & E & Hwf2 & (cs & subs & ->) & _); [done..|].
    simplify_eq. split; simpl; try done. naive_solver.
  - destruct (pub_wake_spec order h) as (cs & E & Hwf2); [done..|]. simplify_eq. split; simpl; try done. naive_solver.
  - pose proof (Subscribe_wf _ _ _ _ Hwf H). unfold Subscribe in *. simplify_eq. split; try done.
  - destruct (Unsubscribe_spec h id Hwf) as (h2 & E & Hwf2 & _ & (cs & -> & _)). simplify_eq. split; done.
  - pose proof (Recv_wf _ _ _ _ Hwf H). apply Recv_spec in H as (ch & rest & _ & _ & ->). split; done.
Qed.
(** The subscription [id] on channel [c], opened when [f] messages had been
    fanned out, has been given every message fanned out since. *)
Definition watched (id : Z) (c f : nat) (w : hworld) : Prop :=
  id < nextSubID (hub w) ∧ (c < nextChan (hub w))%nat ∧
  (subscribers (hub w) !! id = Some c → ∀ i v, (f <= i < fanned w)%nat → hist w !! i = Some v →
     MkSequenced (Z.of_nat i + 1) (cloneValue (hub w) v) ∈ delivered w c).

Lemma delivery_buf (msg : Sequenced T) ch ch' P :
  delivery msg ch ch' P → ¬ P → buf ch' = buf ch ++ [msg].
Proof. unfold delivery. case_match; intros [-> ?]; naive_solver. Qed.

Lemma watched_fan id c f h hs r v order h' :
  hinv (HWorld h (PubFan v) hs r) → range_order (subscribers h) order →
  pub_fanout order (deltaSeq h) v h = Some h' →
  watched id c f (HWorld h (PubFan v) hs r) → watched id c f (HWorld h' PubWake hs r).
Proof.
  intros [Hwf _ Hseq _ Hp] Ho E (Hid & Hc & Hw). simpl in *.
  destruct (pub_fanout_spec order (deltaSeq h) v h Hwf Ho)
    as (h2 & E2 & _ & (cs & subs & Heq) & Hsub & _ & Hdel). simplify_eq.
  split; [done|]. split; [done|]. intros Hreg i u Hi Hu. unfold delivered, received, fanned in *; simpl in *.
  pose proof (Hsub _ _ Hreg) as Hreg0. destruct (wf_open _ Hwf _ _ Hreg0) as (ch & Hch & _).
  destruct (Hdel _ _ _ Hreg0 Hch) as (ch' & Hch' & Hd). rewrite Hch'.
  apply delivery_buf in Hd as ->; [|congruence].
  destruct (decide (i = length hs - 1)%nat) as [->|Hne].
  - destruct (last_snoc_inv hs v) as [l ->]; [auto|]. rewrite length_app in *; simpl in *.
    rewrite Nat.add_sub, list_lookup_middle in Hu by done. simplify_eq.
    rewrite Hseq. rewrite Nat.add_sub, !elem_of_app, list_elem_of_singleton.
    right. right. f_equal. lia.
  - specialize (Hw Hreg0 i u ltac:(lia) Hu). rewrite Hch in Hw. set_solver.
Qed.

Lemma watched_step id c f w w' : hinv w → watched id c f w → hstep w w' → watched id c f w'.
Proof.
  intros Hinv Hwa Hs. inversion Hs; subst; simpl in *.
  3: { by eapply watched_fan. }
  all: destruct Hwa as (Hid & Hc & Hw); destruct Hinv as [Hwf _ _ _ _];
    unfold watched, delivered, received, fanned in *; simpl in *.
  - unfold pub_seq in *. simplify_eq/=. split_and!; [done..|]. intros Hreg i u Hi Hu.
    rewrite length_app in Hi; simpl in Hi. rewrite lookup_app_l in Hu by lia. apply Hw; [done|lia|done].
  - unfold pub_replay in *. repeat case_match; simplify_eq/=; auto.
  - destruct (pub_wake_spec order h) as (cs & E & _); [done..|]. simplify_eq/=. auto.
  - unfold Subscribe in *. simplify_eq/=. split; [lia|]. split; [lia|].
    rewrite !lookup_insert_ne by lia. auto.
  - destruct (Unsubscribe_spec h id0 Hwf) as (h2 & E & _ & _ & (cs & -> & Hcs)). simplify_eq/=.
    split_and!; [done..|]. intros [Hne Hreg]%lookup_delete_Some. rewrite (Hcs id c) by done. exact (Hw Hreg).
  - apply Recv_spec in H as (ch & rest & Hch & Hb & ->); simpl. split_and!; [done..|].
    intros Hreg i u Hi Hu. specialize (Hw Hreg i u Hi Hu).
    destruct (decide (c0 = c)) as [->|Hne]; [|by rewrite !lookup_insert_ne].
    rewrite !lookup_insert_eq; simpl. rewrite Hch, Hb in Hw. set_solver.
Qed.

Lemma hstep_mono w w' :
  hstep w w' → hist w `prefix_of` hist w' ∧ clone (hub w') = clone (hub w).
Proof.
  destruct 1; simpl; (split; [try done; by eexists|]).
  - unfold pub_seq in *. by simplify_eq.
  - unfold pub_replay in *. by repeat case_match; simplify_eq.
  - unfold pub_fanout in *. destruct (fan_out _ _ _ _ _) as [[]|]; by simplify_eq/=.
  - unfold pub_wake in *. destruct (wake_all _ _ _); by simplify_eq/=.
  - unfold Subscribe in *. by simplify_eq.
  - unfold Unsubscribe in *. case_match; [|by simplify_eq].
    destruct (chans h !! _); simpl in *; [|done]. unfold drain in *. case_match; by simplify_eq/=.
  - by apply Recv_spec in H as (ch & rest & _ & _ & ->).
Qed.

Lemma hstep_fanned w w' : hstep w w' → (fanned w <= fanned w')%nat.
Proof. destruct 1; unfold fanned; simpl; rewrite ?length_app; simpl; try case_match; lia. Qed.

Lemma hsteps_fanned w w' : rtc hstep w w' → (fanned w <= fanned w')%nat.
Proof. induction 1 as [|x y z ?%hstep_fanned _ ?]; lia. Qed.

Lemma fanned_appended w : (fanned w <= length (appended w))%nat.
Proof. unfold fanned, appended. case_match; rewrite ?length_take; lia. Qed.

Lemma hsteps_mono w w' :
  rtc hstep w w' → hist w `prefix_of` hist w' ∧ clone (hub w') = clone (hub w).
Proof.
  induction 1 as [|x y z [? ?]%hstep_mono _ [? ?]]; [done|]. split; [by etrans|congruence].
Qed.

Lemma watched_steps id c f w w' :
  rtc hstep w w' → hinv w → watched id c f w → hinv w' ∧ watched id c f w'.
Proof. induction 1; eauto using watched_step, hinv_step. Qed.

(** C37: the reconnect protocol loses nothing. A client subscribes and then asks
    [Since] for what it missed after [seq], while a publisher and other clients
    run in between, in any interleaving. If [Since] reports no gap and the
    client is not evicted, then every message after [seq] whose fan-out has
    ended is in the answer or has been delivered to the client's channel. *)
Theorem reconnect_loses_nothing w0 w1 w2 w3 id c seq entries i v :
  hinv w0 → Subscribe (hub w0) = (id, c, hub w1) →
  w1 = HWorld (hub w1) (pub w0) (hist w0) (recvd w0) →
  rtc hstep w1 w2 → Since seq (hub w2) = Some (entries, false) → 0 <= seq < 2 ^ 63 - 1 →
  rtc hstep w2 w3 → subscribers (hub w3) !! id = Some c →
  hist w3 !! i = Some v → seq < Z.of_nat i + 1 → (i < fanned w3)%nat →
  MkSequenced (Z.of_nat i + 1) (cloneValue (hub w3) (cloneValue (hub w3) v)) ∈ entries ∨
  MkSequenced (Z.of_nat i + 1) (cloneValue (hub w3) v) ∈ delivered w3 c.
Proof.
  intros Hinv0 Hsub Hw1 H12 Hsince Hseq H23 Hreg Hv Hi Hfan.
  assert (hstep w0 w1) as H01.
  { rewrite Hw1. destruct w0 as [h0 p0 hs0 r0]. simpl in *. by eapply hs_subscribe. }
  assert (watched id c (fanned w1) w1) as Hwa1.
  { unfold Subscribe in Hsub. injection Hsub as <- <- Hh. unfold watched. rewrite <- Hh. simpl.
    split; [lia|]. split; [lia|]. intros; lia. }
  destruct (watched_steps id c (fanned w1) w1 w2) as [Hinv2 Hwa2]; [done|by eapply hinv_step|done|].
  destruct (watched_steps id c (fanned w1) w2 w3) as [Hinv3 (_ & _ & Hwa3)]; [done..|].
  destruct (hsteps_mono _ _ H23) as [Hp23 Hcl].
  destruct (decide (length (appended w2) <= i)%nat) as [Hge|Hlt].
  - right. apply Hwa3; [done| |done].
    apply hsteps_fanned in H12. pose proof (fanned_appended w2). lia.
  - left. rewrite (Since_correct _ (appended w2)) in Hsince; [|apply Hinv2|apply Hinv2|done].
    case_match; simplify_eq. apply list_elem_of_lookup. exists (i - Z.to_nat seq)%nat.
    assert (appended w2 !! i = Some v) as Hav.
    { assert (appended w2 `prefix_of` hist w3) as Hpre.
      { etrans; [|done]. unfold appended. destruct (pub w2); try done. apply prefix_take. }
      destruct Hpre as [k Hk]. rewrite Hk, lookup_app_l in Hv by lia. done. }
    unfold copies. rewrite list_lookup_fmap, lookup_drop.
    replace (Z.to_nat seq + (i - Z.to_nat seq))%nat with i by lia.
    rewrite (proj2 (numbered_lookup (hub w2) (appended w2) i _) (ex_intro _ v (conj Hav eq_refl))). simpl.
    unfold cloneValue. by rewrite Hcl.
Qed.
End interleaving.

(** A run for the witness: subscribe, number 7, append it to the ring (the
    client calls [Since] here), fan it out. *)
Definition run_h0 : Hub nat := NewHub [].
Definition run_h1 : Hub nat := (Subscribe run_h0).2.
Definition run_h2 : Hub nat := (pub_seq run_h1).2.
Definition run_h3 : Hub nat := default run_h2 (pub_replay 1 7%nat run_h2).
Definition run_h4 : Hub nat := default run_h3 (pub_fanout [0] 1 7%nat run_h3).

Lemma reconnect_loses_nothing_witness :
  MkSequenced 1 7%nat ∈ [MkSequenced 1 7%nat] ∨
  MkSequenced 1 7%nat ∈ delivered (HWorld run_h4 PubWake [7%nat] ∅) 0.
Proof.
  apply (reconnect_loses_nothing (HWorld run_h0 PubIdle [] ∅) (HWorld run_h1 PubIdle [] ∅)
           (HWorld run_h3 (PubFan 7%nat) [7%nat] ∅) (HWorld run_h4 PubWake [7%nat] ∅)
           0 0 0 [MkSequenced 1 7%nat] 0 7%nat).
  - split; simpl; try done; first [naive_solver|split; simpl; done].
  - reflexivity.
  - reflexivity.
  - eapply rtc_l; [apply (hs_seq _ [] _ 7%nat 1 run_h2); [vm_compute; reflexivity|reflexivity]|].
    eapply rtc_l; [apply (hs_replay _ _ _ _ run_h3); vm_compute; reflexivity|apply rtc_refl].
  - vm_compute. reflexivity.
  - lia.
  - apply rtc_once. apply (hs_fan _ _ _ _ [0]); [range_order_tac|vm_compute; reflexivity].
  - vm_compute. reflexivity.
  - reflexivity.
  - lia.
  - unfold fanned; simpl; lia.
Defined.
