(* ===== verification/GoStrings.v ===== *)
(** * Go strings

    A Go string is a sequence of bytes, a [string] here.  The functions of the
    standard library that the sources call are modelled on its bytes and, where
    they work on runes, on its UTF-8 decoding: an invalid byte decodes as
    [RuneError] with width 1, as [utf8.DecodeRuneInString] does.

    [unicode.ToLower] outside ASCII is a table of the Unicode version of the
    toolchain; it is the variable [to_lower_table] of the definitions that use
    it, and no theorem assumes anything of it. *)

From S2P Require Import Prelude.
From Stdlib Require Import Ascii String.
From stdpp Require Import list.
Local Open Scope Z_scope.

Definition byte_of (a : ascii) : Z := Z.of_N (N_of_ascii a).
Definition ascii_of (z : Z) : ascii := ascii_of_N (Z.to_N z).
Definition bytes (s : string) : list Z := byte_of <$> list_ascii_of_string s.
Definition of_bytes (l : list Z) : string := string_of_list_ascii (ascii_of <$> l).

Definition len (s : string) : Z := Z.of_nat (String.length s).

(** ** UTF-8 *)

Definition RuneError : Z := 65533.

Definition in_range (lo b hi : Z) : bool := Z.leb lo b && Z.leb b hi.
Definition cont (b : Z) : bool := in_range 128 b 191.

(** [utf8.DecodeRune]: the rune and its width. *)
Definition decode_rune (l : list Z) : Z * nat :=
  match l with
  | [] => (RuneError, 0%nat)
  | b0 :: t =>
    if Z.ltb b0 128 then (b0, 1%nat)
    else if in_range 194 b0 223 then
      match t with
      | b1 :: _ => if cont b1 then ((b0 - 192) * 64 + (b1 - 128), 2%nat) else (RuneError, 1%nat)
      | _ => (RuneError, 1%nat)
      end
    else if in_range 224 b0 239 then
      let lo := if Z.eqb b0 224 then 160 else 128 in
      let hi := if Z.eqb b0 237 then 159 else 191 in
      match t with
      | b1 :: b2 :: _ =>
        if in_range lo b1 hi && cont b2
        then ((b0 - 224) * 4096 + (b1 - 128) * 64 + (b2 - 128), 3%nat) else (RuneError, 1%nat)
      | _ => (RuneError, 1%nat)
      end
    else if in_range 240 b0 244 then
      let lo := if Z.eqb b0 240 then 144 else 128 in
      let hi := if Z.eqb b0 244 then 143 else 191 in
      match t with
      | b1 :: b2 :: b3 :: _ =>
        if in_range lo b1 hi && cont b2 && cont b3
        then ((b0 - 240) * 262144 + (b1 - 128) * 4096 + (b2 - 128) * 64 + (b3 - 128), 4%nat)
        else (RuneError, 1%nat)
      | _ => (RuneError, 1%nat)
      end
    else (RuneError, 1%nat)
  end.

(** [utf8.AppendRune]: surrogates and values out of range become [RuneError]. *)
Definition encode_rune (r : Z) : list Z :=
  if Z.ltb r 0 then [239; 191; 189]
  else if Z.ltb r 128 then [r]
  else if Z.ltb r 2048 then [192 + r / 64; 128 + r mod 64]
  else if in_range 55296 r 57343 || Z.ltb 1114111 r then [239; 191; 189]
  else if Z.ltb r 65536 then [224 + r / 4096; 128 + r / 64 mod 64; 128 + r mod 64]
  else [240 + r / 262144; 128 + r / 4096 mod 64; 128 + r / 64 mod 64; 128 + r mod 64].

(** The runes of a string with the bytes each was decoded from. *)
Fixpoint chunks_fuel (fuel : nat) (l : list Z) : list (Z * list Z) :=
  match fuel, l with
  | S fuel', _ :: _ =>
    let '(r, k) := decode_rune l in (r, take k l) :: chunks_fuel fuel' (drop k l)
  | _, _ => []
  end.

Definition chunks (l : list Z) : list (Z * list Z) := chunks_fuel (length l) l.
Definition runes_of (l : list Z) : list Z := (chunks l).*1.

(** [[]rune(s)] and [string(rs)]. *)
Definition runes (s : string) : list Z := runes_of (bytes s).
Definition string_of_runes (rs : list Z) : string := of_bytes (rs ≫= encode_rune).

(** [utf8.RuneStart]. *)
Definition RuneStart (b : Z) : bool := negb (cont b).

(** A Unicode scalar value. *)
Definition valid_rune (r : Z) : Prop := 0 <= r < 55296 ∨ 57343 < r <= 1114111.

(** ** Package strings *)

Section lower.
Variable to_lower_table : Z → Z.

Definition lower_rune (r : Z) : Z :=
  if Z.ltb r 128 then (if in_range 65 r 90 then r + 32 else r) else to_lower_table r.

(** [strings.ToLower]: invalid bytes come out as [RuneError]. *)
Definition ToLower (s : string) : string := string_of_runes (lower_rune <$> runes s).
End lower.

(** [unicode.IsSpace]. *)
Definition IsSpace (r : Z) : bool :=
  in_range 9 r 13 || Z.eqb r 32 || Z.eqb r 133 || Z.eqb r 160 || Z.eqb r 5760 || in_range 8192 r 8202 ||
  Z.eqb r 8232 || Z.eqb r 8233 || Z.eqb r 8239 || Z.eqb r 8287 || Z.eqb r 12288.

Fixpoint drop_while {A} (p : A → bool) (l : list A) : list A :=
  match l with
  | [] => []
  | x :: l' => if p x then drop_while p l' else l
  end.

Definition drop_while_end {A} (p : A → bool) (l : list A) : list A :=
  reverse (drop_while p (reverse l)).

Definition space_chunk (c : Z * list Z) : bool := IsSpace c.1.

Definition TrimSpace (s : string) : string :=
  of_bytes (mjoin (drop_while_end space_chunk (drop_while space_chunk (chunks (bytes s)))).*2).

(** [strings.Join]. *)
Definition strings_Join (l : list string) (sep : string) : string := String.concat sep l.

(** [strings.Index]: the first position of [sub] in [s], in bytes, or [-1]. *)
Definition Index (s sub : string) : Z :=
  match String.index 0 sub s with Some n => Z.of_nat n | None => -1 end.

Definition Contains (s sub : string) : bool := negb (Z.eqb (Index s sub) (-1)).

Definition HasPrefix (s p : string) : bool := String.prefix p s.

(** [s[i:j]]; out of range panics. *)
Definition slice (s : string) (i j : Z) : option string :=
  if Z.leb 0 i && Z.leb i j && Z.leb j (len s)
  then Some (String.substring (Z.to_nat i) (Z.to_nat (j - i)) s) else None.

(** [s[i]]. *)
Definition byte_at (s : string) (i : Z) : option Z :=
  if Z.leb 0 i then bytes s !! Z.to_nat i else None.

Definition HasSuffix (s p : string) : bool :=
  match slice s (len s - len p) (len s) with Some t => String.eqb t p | None => false end.

Definition TrimSuffix (s p : string) : string :=
  if HasSuffix s p then default s (slice s 0 (len s - len p)) else s.

Definition string_leb (a b : string) : bool := String.leb a b.

(** ** Facts *)

Lemma of_bytes_bytes s : of_bytes (bytes s) = s.
Proof.
  unfold of_bytes, bytes. rewrite <- list_fmap_compose.
  rewrite <- (string_of_list_ascii_of_string s) at 2. f_equal.
  rewrite <- (list_fmap_id (list_ascii_of_string s)) at 2. apply list_fmap_ext. intros _ a _.
  unfold ascii_of, byte_of. simpl. rewrite N2Z.id. apply ascii_N_embedding.
Qed.

Lemma ascii_of_byte_of a : ascii_of (byte_of a) = a.
Proof. unfold ascii_of, byte_of. rewrite N2Z.id. apply ascii_N_embedding. Qed.

Definition is_byte (b : Z) : Prop := 0 <= b < 256.

Lemma byte_of_ascii_of b : is_byte b → byte_of (ascii_of b) = b.
Proof.
  unfold is_byte, ascii_of, byte_of. intros. rewrite N_ascii_embedding by lia. lia.
Qed.

Lemma bytes_of_bytes l : Forall is_byte l → bytes (of_bytes l) = l.
Proof.
  intros Hl. unfold bytes, of_bytes. rewrite list_ascii_of_string_of_list_ascii, <- list_fmap_compose.
  rewrite <- (list_fmap_id l) at 2. apply list_fmap_ext. intros i b Hb.
  apply byte_of_ascii_of. by eapply Forall_lookup_1.
Qed.

Lemma bytes_app s t : bytes (s ++ t) = (bytes s ++ bytes t)%list.
Proof.
  unfold bytes. rewrite <- fmap_app. f_equal. induction s as [|a s IH]; simpl; [done|]. by rewrite IH.
Qed.

Lemma bytes_is_byte s : Forall is_byte (bytes s).
Proof.
  unfold bytes. apply Forall_fmap, Forall_true. intros a. unfold is_byte, byte_of; simpl.
  pose proof (N_ascii_bounded a). lia.
Qed.

Lemma length_bytes s : length (bytes s) = String.length s.
Proof.
  unfold bytes. rewrite length_fmap. induction s as [|a s IH]; simpl; [done|]. by rewrite IH.
Qed.

(** The decoded width is at least one and within the input. *)
Lemma decode_rune_width b l : (1 <= (decode_rune (b :: l)).2 <= length (b :: l))%nat.
Proof. simpl. repeat case_match; simplify_eq/=; lia. Qed.

Lemma chunks_fuel_concat fuel l : (length l <= fuel)%nat → mjoin (chunks_fuel fuel l).*2 = l.
Proof.
  revert l. induction fuel as [|fuel IH]; intros [|b l] Hl; [done|simpl in *; lia|done|].
  cbn [chunks_fuel]. pose proof (decode_rune_width b l) as Hw.
  destruct (decode_rune (b :: l)) as [r k]. cbn [fmap list_fmap snd] in *.
  change (mjoin ((take k (b :: l)) :: (chunks_fuel fuel (drop k (b :: l))).*2))
    with (take k (b :: l) ++ mjoin (chunks_fuel fuel (drop k (b :: l))).*2).
  rewrite IH; [apply take_drop|]. rewrite length_drop. simpl in *. lia.
Qed.

(** Decoding loses no byte. *)
Lemma chunks_concat l : mjoin (chunks l).*2 = l.
Proof. apply chunks_fuel_concat. done. Qed.

Lemma chunks_fuel_enough fuel l : (length l <= fuel)%nat → chunks_fuel fuel l = chunks l.
Proof.
  unfold chunks. remember (length l) as n eqn:Hn. revert fuel l Hn.
  induction (lt_wf n) as [n _ IH]. intros fuel [|b l] -> Hf; [by destruct fuel|].
  destruct fuel as [|fuel]; simpl in Hf; [lia|]. cbn [chunks_fuel length].
  pose proof (decode_rune_width b l) as Hw. destruct (decode_rune (b :: l)) as [r k]. simpl in Hw.
  assert (length (drop k (b :: l)) < length (b :: l))%nat as Hd by (rewrite length_drop; simpl; lia).
  f_equal. rewrite (IH _ Hd fuel) by (simpl in *; lia). symmetry. apply (IH _ Hd); [done|simpl in *; lia].
Qed.

Lemma in_range_true lo b hi : lo <= b <= hi → in_range lo b hi = true.
Proof. unfold in_range. rewrite andb_true_iff, !Z.leb_le. lia. Qed.

Lemma in_range_false lo b hi : b < lo ∨ hi < b → in_range lo b hi = false.
Proof. unfold in_range. rewrite andb_false_iff, !Z.leb_gt. lia. Qed.

Lemma cont_mod x : cont (128 + x mod 64) = true.
Proof. apply in_range_true. pose proof (Z.mod_pos_bound x 64). lia. Qed.

(** Encoding a scalar value and decoding gives it back. *)
Lemma decode_encode r l : valid_rune r → decode_rune (encode_rune r ++ l) = (r, length (encode_rune r)).
Proof.
  intros Hr. unfold valid_rune in Hr.
  pose proof (Z.mod_pos_bound r 64 ltac:(lia)). pose proof (Z.div_mod r 64 ltac:(lia)).
  pose proof (Z.mod_pos_bound (r / 64) 64 ltac:(lia)). pose proof (Z.div_mod (r / 64) 64 ltac:(lia)).
  pose proof (Z.mod_pos_bound (r / 4096) 64 ltac:(lia)). pose proof (Z.div_mod (r / 4096) 64 ltac:(lia)).
  assert (r / 4096 = r / 64 / 64) by (rewrite Z.div_div by lia; done).
  assert (r / 262144 = r / 4096 / 64) by (rewrite Z.div_div by lia; done).
  unfold encode_rune. destruct (Z.ltb_spec r 0); [lia|].
  destruct (Z.ltb_spec r 128); [simpl; destruct (Z.ltb_spec r 128); [done|lia]|].
  destruct (Z.ltb_spec r 2048).
  { cbn [decode_rune app]. rewrite !cont_mod. destruct (Z.ltb_spec (192 + r / 64) 128); [lia|].
    rewrite in_range_true by lia. cbn [length]. f_equal. lia. }
  destruct (Z.ltb_spec 1114111 r); [lia|]. rewrite in_range_false by lia. simpl orb. cbn iota.
  destruct (Z.ltb_spec r 65536).
  { cbn [decode_rune app]. rewrite !cont_mod. destruct (Z.ltb_spec (224 + r / 4096) 128); [lia|].
    rewrite (in_range_false 194) by lia. rewrite (in_range_true 224) by lia.
    destruct (Z.eqb_spec (224 + r / 4096) 224), (Z.eqb_spec (224 + r / 4096) 237); try lia;
      rewrite in_range_true by lia; cbn [andb length]; f_equal; lia. }
  cbn [decode_rune app]. rewrite !cont_mod. destruct (Z.ltb_spec (240 + r / 262144) 128); [lia|].
  rewrite (in_range_false 194), (in_range_false 224) by lia. rewrite (in_range_true 240) by lia.
  destruct (Z.eqb_spec (240 + r / 262144) 240), (Z.eqb_spec (240 + r / 262144) 244); try lia;
    rewrite in_range_true by lia; cbn [andb length]; f_equal; lia.
Qed.

Lemma encode_rune_nonempty r : encode_rune r ≠ [].
Proof. unfold encode_rune. by repeat case_match. Qed.

Lemma encode_rune_bytes r : Forall is_byte (encode_rune r).
Proof.
  unfold encode_rune, is_byte. destruct (Z.ltb_spec r 0); [repeat constructor; lia|].
  pose proof (Z.mod_pos_bound r 64 ltac:(lia)). pose proof (Z.div_mod r 64 ltac:(lia)).
  pose proof (Z.mod_pos_bound (r / 64) 64 ltac:(lia)). pose proof (Z.div_mod (r / 64) 64 ltac:(lia)).
  pose proof (Z.mod_pos_bound (r / 4096) 64 ltac:(lia)). pose proof (Z.div_mod (r / 4096) 64 ltac:(lia)).
  assert (r / 4096 = r / 64 / 64) by (rewrite Z.div_div by lia; done).
  assert (r / 262144 = r / 4096 / 64) by (rewrite Z.div_div by lia; done).
  destruct (Z.ltb_spec r 128); [repeat constructor; lia|].
  destruct (Z.ltb_spec r 2048); [repeat constructor; lia|].
  destruct (Z.ltb_spec 1114111 r); [rewrite orb_true_r; repeat constructor; lia|].
  destruct (in_range 55296 r 57343); simpl; [repeat constructor; lia|].
  destruct (Z.ltb_spec r 65536); repeat constructor; lia.
Qed.

(** A list of scalar values survives encoding and decoding. *)
Lemma runes_of_encode rs : Forall valid_rune rs → runes_of (rs ≫= encode_rune) = rs.
Proof.
  intros Hrs. unfold runes_of, chunks. remember (length (rs ≫= encode_rune)) as n eqn:Hn.
  assert (length (rs ≫= encode_rune) <= n)%nat as Hle by lia. clear Hn. revert n Hle.
  induction Hrs as [|r rs Hr Hrs IH]; intros n Hle; [by destruct n|].
  rewrite bind_cons in *. rewrite length_app in Hle.
  pose proof (decode_encode r (rs ≫= encode_rune) Hr) as Hd.
  destruct (encode_rune r) as [|b l] eqn:E; [by apply encode_rune_nonempty in E|].
  destruct n as [|n]; [simpl in *; lia|]. cbn [chunks_fuel app]. rewrite <- app_comm_cons in Hd. rewrite Hd.
  cbn [fmap list_fmap fst]. f_equal. rewrite app_comm_cons, drop_app_length. apply IH. simpl in *. lia.
Qed.

Lemma runes_string_of_runes rs : Forall valid_rune rs → runes (string_of_runes rs) = rs.
Proof.
  intros Hrs. unfold runes, string_of_runes. rewrite bytes_of_bytes; [by apply runes_of_encode|].
  clear Hrs. induction rs as [|r rs IH]; simpl; [constructor|].
  apply Forall_app; split; [apply encode_rune_bytes|done].
Qed.

(** ** Searching *)

Lemma prefix_length p s : String.prefix p s = true → (String.length p <= String.length s)%nat.
Proof.
  revert s. induction p as [|a p IH]; intros [|b s] Hp; simpl in *; [lia|lia|done|].
  destruct (Ascii.ascii_dec a b); [|done]. apply IH in Hp. lia.
Qed.

Lemma index_length q s n : String.index 0 q s = Some n → (n + String.length q <= String.length s)%nat.
Proof.
  revert n. induction s as [|b s IH]; intros n E.
  - destruct q; simpl in E; [|done]. by injection E as <-.
  - cbn [String.index] in E. destruct (String.prefix q (String b s)) eqn:Ep.
    + injection E as <-. by apply prefix_length in Ep.
    + destruct (String.index 0 q s) as [m|]; [|done]. injection E as <-. specialize (IH m eq_refl). simpl. lia.
Qed.

Lemma Index_bound s q : Index s q ≠ -1 → 0 <= Index s q ∧ Index s q + len q <= len s.
Proof.
  unfold Index, len. destruct (String.index 0 q s) as [n|] eqn:E; [|done]. apply index_length in E. lia.
Qed.
