(* ===== verification/PkgUtil.v ===== *)
(** * Small packages: tail, set, registry, pagination, sanitize, slugutil, uuidutil

    [tail.Of], [set.Set], [registry.MergeUnique], [pagination.Paginate],
    [sanitize.Truncate] and [Slug], [slugutil.IsValid], [uuidutil.IsValid]. *)

From S2P Require Import Prelude GoStrings.
From Stdlib Require Import String.
From stdpp Require Import list.
Local Open Scope Z_scope.

(** ** tail *)

(** [tail.Of]: the last [n] elements, all of them when [n <= 0]. *)
Definition tail_Of {A} (s : list A) (n : Z) : list A :=
  if Z.leb n 0 || Z.leb (Z.of_nat (length s)) n then s
  else drop (Z.to_nat (Z.of_nat (length s) - n)) s.

(** ** registry *)

Section registry.
Context {T : Type} (slugOf : T → string).

(** The loop over the user items; [Err] carries the colliding slug. *)
Fixpoint merge_user (user : list T) (seen : gset string) (all : list T) : result string (list T) :=
  match user with
  | [] => Ok all
  | u :: rest =>
    if decide (slugOf u ∈ seen) then Err (slugOf u)
    else merge_user rest ({[slugOf u]} ∪ seen) (all ++ [u])
  end.

Definition MergeUnique (builtins user : list T) (mark : option (T → T)) : result string (list T) :=
  let bs := match mark with Some f => f <$> builtins | None => builtins end in
  merge_user user (list_to_set (slugOf <$> bs)) bs.

Fixpoint ContainsSlug (items : list T) (slug : string) : bool :=
  match items with
  | [] => false
  | x :: rest => if String.eqb (slugOf x) slug then true else ContainsSlug rest slug
  end.
End registry.

(** ** pagination *)

Record Page (T : Type) := MkPage { Items : list T; NextCursor : Z; HasMore : bool; TotalFiltered : Z }.
Arguments MkPage {T} _ _ _ _.
Arguments Items {T} _.
Arguments NextCursor {T} _.
Arguments HasMore {T} _.
Arguments TotalFiltered {T} _.

Section pagination.
Context {T : Type} (cursor : T → Z).

Definition page_limit (limit defaultLimit maxLimit : Z) : Z :=
  let limit := if Z.leb limit 0 then defaultLimit else limit in
  if Z.ltb maxLimit limit then maxLimit else limit.

Fixpoint page_loop (items : list T) (after limit : Z) (flt : option (T → bool))
    (result : list T) (total : Z) : list T * Z :=
  match items with
  | [] => (result, total)
  | item :: rest =>
    if Z.ltb 0 after && Z.leb (cursor item) after then page_loop rest after limit flt result total
    else if match flt with Some f => negb (f item) | None => false end
    then page_loop rest after limit flt result total
    else page_loop rest after limit flt
           (if Z.ltb (Z.of_nat (length result)) limit then result ++ [item] else result) (total + 1)
  end.

Definition Paginate (items : list T) (after limit defaultLimit maxLimit : Z) (flt : option (T → bool))
  : Page T :=
  let limit := page_limit limit defaultLimit maxLimit in
  let '(result, total) := page_loop items after limit flt [] 0 in
  MkPage result (match last result with Some x => cursor x | None => 0 end)
         (Z.ltb (Z.of_nat (length result)) total) total.

(** A client that follows [NextCursor] while [HasMore]. *)
Fixpoint all_pages (fuel : nat) (items : list T) (after limit defaultLimit maxLimit : Z)
    (flt : option (T → bool)) : option (list T) :=
  match fuel with
  | O => None
  | S fuel' =>
    let p := Paginate items after limit defaultLimit maxLimit flt in
    if HasMore p
    then app (Items p) <$> all_pages fuel' items (NextCursor p) limit defaultLimit maxLimit flt
    else Some (Items p)
  end.

Definition passes (flt : option (T → bool)) (x : T) : bool :=
  match flt with Some f => f x | None => true end.
End pagination.

(** ** sanitize *)

Definition ellipsis : string := of_bytes [226; 128; 166].

(** [runes[:n]] with a negative [n] panics; the callers pass constants. *)
Definition Truncate (s : string) (n : Z) : option string :=
  let rs := runes s in
  if Z.leb (Z.of_nat (length rs)) n then Some s
  else if Z.ltb n 0 then None
  else Some (string_of_runes (take (Z.to_nat n) rs) ++ ellipsis)%string.

Definition slug_char (r : Z) : bool := in_range 97 r 122 || in_range 48 r 57.
Definition dash : Z := 45.

Fixpoint slug_loop (maxLen : Z) (rs : list Z) (b : list Z) (prevDash : bool) : list Z :=
  match rs with
  | [] => b
  | r :: rest =>
    let '(b', pd) :=
      if slug_char r then (b ++ [r], false)
      else if negb prevDash then (b ++ [dash], true) else (b, prevDash) in
    if Z.leb maxLen (Z.of_nat (length b')) then b' else slug_loop maxLen rest b' pd
  end.

Definition slug_bytes (to_lower_table : Z → Z) (s : string) (maxLen : Z) : list Z :=
  let slug := drop_while_end (Z.eqb dash) (slug_loop maxLen (runes (ToLower to_lower_table s)) [] true) in
  if bool_decide (slug = []) then [116; 97; 115; 107] else slug.

Definition Slug (to_lower_table : Z → Z) (s : string) (maxLen : Z) : string :=
  of_bytes (slug_bytes to_lower_table s maxLen).

(** ** slugutil and uuidutil: loops over [for i, c := range s] *)

Definition MinLen : Z := 2.
Definition MaxLen : Z := 40.

(** The runes of [s] with their byte offsets. *)
Fixpoint with_offsets (i : Z) (cs : list (Z * list Z)) : list (Z * Z) :=
  match cs with
  | [] => []
  | (r, bs) :: rest => (i, r) :: with_offsets (i + Z.of_nat (length bs)) rest
  end.

Definition range_string (s : string) : list (Z * Z) := with_offsets 0 (chunks (bytes s)).

Definition slug_IsValid (s : string) : bool :=
  if Z.ltb (len s) MinLen || Z.ltb MaxLen (len s) then false
  else forallb (λ '(i, c),
    if in_range 97 c 122 then true
    else if in_range 48 c 57 then true
    else if Z.eqb c 45 then negb (Z.eqb i 0 || Z.eqb i (len s - 1))
    else false) (range_string s).

Definition uuid_IsValid (s : string) : bool :=
  if negb (Z.eqb (len s) 36) then false
  else forallb (λ '(i, c),
    if Z.eqb i 8 || Z.eqb i 13 || Z.eqb i 18 || Z.eqb i 23 then Z.eqb c 45
    else in_range 48 c 57 || in_range 97 c 102 || in_range 65 c 70) (range_string s).

(** ** Theorems *)

Lemma tail_Of_spec {A} (s : list A) n :
  ∃ pre, s = pre ++ tail_Of s n ∧
    (0 < n → Z.of_nat (length (tail_Of s n)) = Z.min (Z.of_nat (length s)) n).
Proof.
  unfold tail_Of. destruct (Z.leb_spec n 0); simpl; [exists []; split; [done|lia]|].
  destruct (Z.leb_spec (Z.of_nat (length s)) n); [exists []; split; [done|lia]|].
  exists (take (Z.to_nat (Z.of_nat (length s) - n)) s). split; [by rewrite take_drop|].
  rewrite length_drop. lia.
Qed.

Lemma tail_Of_idem {A} (s : list A) n : tail_Of (tail_Of s n) n = tail_Of s n.
Proof.
  destruct (Z.leb_spec n 0) as [Hn|Hn].
  { unfold tail_Of. by rewrite (proj2 (Z.leb_le n 0) Hn). }
  destruct (tail_Of_spec s n) as (pre & _ & Hlen). specialize (Hlen Hn).
  unfold tail_Of at 1. destruct (Z.leb_spec (Z.of_nat (length (tail_Of s n))) n); [by rewrite orb_true_r|lia].
Qed.

Section registry_facts.
Context {T : Type} (slugOf : T → string).

Lemma merge_user_spec user seen all r :
  merge_user slugOf user seen all = Ok r →
  r = all ++ user ∧ NoDup (slugOf <$> user) ∧ (∀ u, u ∈ user → slugOf u ∉ seen).
Proof.
  revert seen all. induction user as [|u user IH]; intros seen all; simpl.
  { intros [= <-]. rewrite app_nil_r. split_and!; [done|constructor|set_solver]. }
  case_decide as Hin; [done|]. intros (-> & Hnd & Hnot)%IH. rewrite <- app_assoc. split_and!; [done| |].
  - constructor; [|done]. intros (v & Hv & Hin')%list_elem_of_fmap. specialize (Hnot v Hin'). set_solver.
  - intros v [->|Hv]%elem_of_cons; [done|]. specialize (Hnot v Hv). set_solver.
Qed.

Lemma merge_user_err user seen all slug :
  merge_user slugOf user seen all = Err slug →
  ∃ pre u post, user = pre ++ u :: post ∧ slugOf u = slug ∧ (slug ∈ seen ∨ slug ∈ slugOf <$> pre).
Proof.
  revert seen all. induction user as [|u user IH]; intros seen all; simpl; [done|].
  case_decide as Hin.
  - intros [= <-]. exists [], u, user. auto.
  - intros (pre & v & post & -> & <- & Hor)%IH. exists (u :: pre), v, post. simpl. set_solver.
Qed.

(** The merged catalog of agents or flows keeps the built-ins first and has
    one item per slug; merging fails exactly by naming a user slug that repeats
    a built-in's or an earlier user item's. *)
Theorem MergeUnique_spec builtins user mark :
  let bs := match mark with Some f => f <$> builtins | None => builtins end in
  NoDup (slugOf <$> bs) →
  match MergeUnique slugOf builtins user mark with
  | Ok all => all = bs ++ user ∧ NoDup (slugOf <$> all)
  | Err slug => ∃ pre u post, user = pre ++ u :: post ∧ slugOf u = slug ∧ slug ∈ slugOf <$> (bs ++ pre)
  end.
Proof.
  intros bs Hnd. unfold MergeUnique. fold bs.
  destruct (merge_user slugOf user _ _) as [all|slug] eqn:E.
  - apply merge_user_spec in E as (-> & Hu & Hnot). split; [done|].
    rewrite fmap_app. apply NoDup_app. split_and!; [done| |done].
    intros x Hx (u & -> & Hin)%list_elem_of_fmap. apply (Hnot u Hin). by apply elem_of_list_to_set.
  - apply merge_user_err in E as (pre & u & post & -> & <- & Hor). exists pre, u, post.
    split_and!; [done..|]. rewrite fmap_app, elem_of_app. rewrite elem_of_list_to_set in Hor. done.
Qed.

Lemma ContainsSlug_spec items slug : ContainsSlug slugOf items slug = true ↔ slug ∈ slugOf <$> items.
Proof.
  induction items as [|x items IH]; simpl; [set_solver|].
  rewrite elem_of_cons. destruct (String.eqb_spec (slugOf x) slug); naive_solver.
Qed.
End registry_facts.

Lemma MergeUnique_spec_witness :
  match MergeUnique id ["impl"; "test"]%string ["mine"; "test"]%string None with
  | Ok all => all = ["impl"; "test"; "mine"; "test"]%string ∧ NoDup (id <$> all)
  | Err slug => ∃ pre u post, ["mine"; "test"]%string = pre ++ u :: post ∧ id u = slug ∧
      slug ∈ id <$> (["impl"; "test"]%string ++ pre)
  end.
Proof. apply (MergeUnique_spec id ["impl"; "test"]%string ["mine"; "test"]%string None). apply (bool_decide_unpack _). vm_compute. exact I. Defined.

Section pagination_facts.
Context {T : Type} (cursor : T → Z).

(** What the single pass keeps: the matching items after the cursor. *)
Definition matching (items : list T) (after : Z) (flt : option (T → bool)) : list T :=
  filter (λ x, ¬ (0 < after ∧ cursor x <= after) ∧ passes flt x = true) items.

Lemma page_loop_spec items after limit flt result total :
  0 <= limit → (length result <= Z.to_nat limit)%nat →
  page_loop cursor items after limit flt result total =
    (result ++ take (Z.to_nat limit - length result) (matching items after flt),
     total + Z.of_nat (length (matching items after flt))).
Proof.
  intros Hlim. revert result total. unfold matching.
  induction items as [|x items IH]; intros result total Hlen; cbn [page_loop].
  { rewrite filter_nil, take_nil, app_nil_r. simpl. by rewrite Z.add_0_r. }
  rewrite filter_cons. destruct (Z.ltb_spec 0 after), (Z.leb_spec (cursor x) after); simpl.
  1: rewrite decide_False by naive_solver; by apply IH.
  all: destruct (passes flt x) eqn:Hp; unfold passes in Hp; destruct flt as [f|]; simplify_eq/=; rewrite ?Hp; simpl.
  all: try (rewrite decide_False by naive_solver; by apply IH).
  all: rewrite decide_True by (split; [lia|done]).
  all: destruct (Z.ltb_spec (Z.of_nat (length result)) limit); rewrite IH by (rewrite ?length_app; simpl; lia).
  all: rewrite ?length_app; simpl; f_equal; try lia.
  all: try (replace (Z.to_nat limit - length result)%nat with O by lia; done).
  all: replace (Z.to_nat limit - length result)%nat with (S (Z.to_nat limit - (length result + 1))) by lia.
  all: by rewrite <- app_assoc.
Qed.

(** A page holds the first [limit] matching items after the cursor, counts
    all of them, and says there are more exactly when some are left out. *)
Lemma Paginate_spec items after limit dl ml flt :
  let lim := page_limit limit dl ml in
  let ms := matching items after flt in
  0 <= lim →
  Paginate cursor items after limit dl ml flt =
    MkPage (take (Z.to_nat lim) ms)
      (match last (take (Z.to_nat lim) ms) with Some x => cursor x | None => 0 end)
      (Z.ltb lim (Z.of_nat (length ms))) (Z.of_nat (length ms)).
Proof.
  intros lim ms Hlim. unfold Paginate. fold lim. rewrite page_loop_spec by (simpl; lia). simpl.
  rewrite Nat.sub_0_r. fold ms. f_equal. rewrite length_take.
  destruct (Z.ltb_spec lim (Z.of_nat (length ms))), (Z.ltb_spec (Z.of_nat (Z.to_nat lim `min` length ms)) (0 + Z.of_nat (length ms))); lia || done.
Qed.

Definition cursor_lt (x y : T) : Prop := cursor x < cursor y.

(** In a list sorted by cursor, the items after the one at [j] are its tail. *)
Lemma filter_after_drop (l : list T) j x :
  StronglySorted cursor_lt l → l !! j = Some x →
  filter (λ y, cursor x < cursor y) l = drop (S j) l.
Proof.
  intros Hs. revert j. induction Hs as [|y l Hs IH Hall]; intros j Hj; [done|].
  rewrite filter_cons. destruct j as [|j]; simpl in *.
  - simplify_eq. rewrite decide_False by lia. rewrite drop_0.
    clear -Hall. induction Hall as [|z l Hz Hall IH]; [done|].
    rewrite filter_cons, decide_True, IH by done. done.
  - rewrite decide_False, (IH j Hj); [done|]. rewrite Forall_lookup in Hall.
    specialize (Hall _ _ Hj). unfold cursor_lt in Hall. lia.
Qed.

Lemma all_pages_drop items limit dl ml flt k fuel after :
  let fs := filter (λ x, passes flt x = true) items in
  1 <= page_limit limit dl ml → StronglySorted cursor_lt items → Forall (λ x, 0 < cursor x) items →
  matching items after flt = drop k fs → (length fs - k < fuel)%nat →
  all_pages cursor fuel items after limit dl ml flt = Some (drop k fs).
Proof.
  intros fs Hlim Hs Hpos. revert k after.
  induction fuel as [|fuel IH]; intros k after Hm Hf; [lia|]. cbn [all_pages].
  set (lim := page_limit limit dl ml) in *.
  rewrite Paginate_spec by (fold lim; lia). fold lim. cbn [HasMore Items NextCursor]. rewrite Hm.
  destruct (Z.ltb_spec lim (Z.of_nat (length (drop k fs)))) as [Hmore|Hdone].
  2: { by rewrite take_ge by lia. }
  rewrite length_drop in Hmore.
  destruct (lookup_lt_is_Some_2 fs (k + (Z.to_nat lim - 1))) as [x Hx]; [lia|].
  assert (last (take (Z.to_nat lim) (drop k fs)) = Some x) as ->.
  { rewrite last_lookup, length_take, length_drop, lookup_take_lt by lia. rewrite lookup_drop.
    rewrite <- Hx. f_equal. lia. }
  assert (0 < cursor x) as Hpx.
  { eapply Forall_forall in Hpos; [done|]. eapply list_elem_of_lookup_2 in Hx.
    by apply list_elem_of_filter in Hx as [_ ?]. }
  rewrite (IH (k + Z.to_nat lim)%nat).
  - simpl. f_equal. rewrite <- drop_drop. apply take_drop.
  - unfold matching. transitivity (filter (λ y, cursor x < cursor y) fs).
    + unfold fs. rewrite list_filter_filter. apply list_filter_iff. intros y. split; intros [? ?]; split; try done; lia.
    + rewrite (filter_after_drop fs _ x) by (done || by apply sorted_filter). f_equal. lia.
  - lia.
Qed.

(** A client that follows the cursors from the start sees every matching item
    of a cursor-sorted list exactly once, in order, whatever the page size. *)
Theorem pagination_complete items limit dl ml flt :
  1 <= page_limit limit dl ml → StronglySorted cursor_lt items → Forall (λ x, 0 < cursor x) items →
  all_pages cursor (S (length items)) items 0 limit dl ml flt =
    Some (filter (λ x, passes flt x = true) items).
Proof.
  intros Hlim Hs Hpos. rewrite <- (drop_0 (filter _ items)).
  apply all_pages_drop; [done..| |].
  - rewrite drop_0. unfold matching. apply list_filter_iff. intros y. split; [by intros [_ ?]|split; [lia|done]].
  - pose proof (length_filter (λ x, passes flt x = true) items). lia.
Qed.
End pagination_facts.

Lemma pagination_complete_witness :
  all_pages id 6 [1; 2; 3; 5; 8] 0 2 200 1000 (Some Z.odd) = Some [1; 3; 5].
Proof.
  apply (pagination_complete id [1; 2; 3; 5; 8] 2 200 1000 (Some Z.odd)).
  - vm_compute. discriminate.
  - repeat constructor; unfold cursor_lt; simpl; lia.
  - repeat constructor; simpl; lia.
Defined.

(** ** sanitize *)

Definition slug_byte (b : Z) : Prop := slug_char b = true ∨ b = dash.

Lemma slug_loop_spec maxLen rs b pd :
  (Z.of_nat (length b) < maxLen) → Forall slug_byte b → (b = [] → pd = true) → head b ≠ Some dash →
  let r := slug_loop maxLen rs b pd in
  Z.of_nat (length r) <= maxLen ∧ Forall slug_byte r ∧ head r ≠ Some dash.
Proof.
  revert b pd. induction rs as [|c rs IH]; intros b pd Hlen Hb Hnil Hhd; simpl; [split_and!; [lia|done..]|].
  assert (∀ x, slug_byte x → (b = [] → x ≠ dash) → Forall slug_byte (b ++ [x]) ∧ head (b ++ [x]) ≠ Some dash) as Hpush.
  { intros x Hx Hne. split; [apply Forall_app; split; [done|by apply Forall_singleton]|].
    destruct b; simpl; [intros [= ->]; by apply Hne|done]. }
  destruct (slug_char c) eqn:Hc; [|destruct pd; simpl].
  - destruct (Hpush c) as [? ?]; [by left|intros _ ->; done|].
    destruct (Z.leb_spec maxLen (Z.of_nat (length (b ++ [c])))); rewrite length_app in *; simpl in *.
    + split_and!; [lia|done..].
    + apply IH; [rewrite length_app; simpl; lia|done| |done]. intros E. by destruct b.
  - destruct (Z.leb_spec maxLen (Z.of_nat (length b))); [lia|]. by apply IH.
  - destruct (Hpush dash) as [? ?]; [by right|intros ->; by specialize (Hnil eq_refl)|].
    destruct (Z.leb_spec maxLen (Z.of_nat (length (b ++ [dash])))); rewrite length_app in *; simpl in *.
    + split_and!; [lia|done..].
    + apply IH; [rewrite length_app; simpl; lia|done| |done]. intros E. by destruct b.
Qed.

Lemma drop_while_end_prefix {A} (p : A → bool) l :
  ∃ suf, l = drop_while_end p l ++ suf ∧ Forall (λ x, p x = true) suf ∧
    match last (drop_while_end p l) with Some x => p x = false | None => True end.
Proof.
  unfold drop_while_end.
  assert (∀ k, ∃ pre, k = pre ++ drop_while p k ∧ Forall (λ x, p x = true) pre ∧
            match head (drop_while p k) with Some x => p x = false | None => True end) as Hdw.
  { intros k. induction k as [|x k (pre & Hk & Hpre & Hh)]; simpl; [by exists []|].
    destruct (p x) eqn:Hp; [|exists []; simpl; split_and!; [done|constructor|done]].
    exists (x :: pre). simpl. rewrite <- Hk. split_and!; [done|by constructor|done]. }
  destruct (Hdw (reverse l)) as (pre & Hl & Hpre & Hh). exists (reverse pre). split_and!.
  - rewrite <- reverse_app, <- Hl. by rewrite reverse_involutive.
  - by apply Forall_reverse.
  - by rewrite last_reverse.
Qed.

(** A generated slug is never empty, uses only [a-z0-9-] with no dash at
    either end, and has at most [maxLen] bytes, whatever text it is made from. *)
Theorem Slug_shape tbl s maxLen :
  4 <= maxLen →
  let b := bytes (Slug tbl s maxLen) in
  b ≠ [] ∧ Forall slug_byte b ∧ Z.of_nat (length b) <= maxLen ∧
  head b ≠ Some dash ∧ last b ≠ Some dash.
Proof.
  intros Hlen. unfold Slug. set (l := slug_bytes tbl s maxLen).
  assert (l ≠ [] ∧ Forall slug_byte l ∧ Z.of_nat (length l) <= maxLen ∧
          head l ≠ Some dash ∧ last l ≠ Some dash) as Hl.
  { unfold l, slug_bytes. clear l.
    destruct (slug_loop_spec maxLen (runes (ToLower tbl s)) [] true) as (Hle & Hb & Hh); [simpl; lia|constructor|done|done|].
    set (r := slug_loop _ _ _ _) in *. destruct (drop_while_end_prefix (Z.eqb dash) r) as (suf & Hr & _ & Hlast).
    set (d := drop_while_end _ _) in *. case_bool_decide as Hd.
    { split_and!; [done|repeat constructor; by left|simpl; lia|done|done]. }
    rewrite Hr in Hle, Hb, Hh. rewrite length_app in Hle. apply Forall_app in Hb as [Hb _]. split_and!; [done|done|lia| |].
    - by destruct d.
    - intros E. by rewrite E in Hlast. }
  rewrite bytes_of_bytes; [done|]. destruct Hl as (_ & Hl & _). eapply Forall_impl; [exact Hl|].
  intros x [Hx| ->]; [|unfold is_byte; unfold dash; lia]. unfold slug_char, in_range, is_byte in *.
  rewrite orb_true_iff, !andb_true_iff, !Z.leb_le in Hx. lia.
Qed.

Lemma Slug_shape_witness :
  let b := bytes (Slug id "Fix: the Bug!!" 6) in
  b ≠ [] ∧ Forall slug_byte b ∧ Z.of_nat (length b) <= 6 ∧ head b ≠ Some dash ∧ last b ≠ Some dash.
Proof. apply (Slug_shape id "Fix: the Bug!!"%string 6). lia. Defined.
