(* ===== verification/GoText.v ===== *)
(** * Go text and paths

    The functions of [strings], [path] and [path/filepath] (on Unix, where the
    two agree) that the text-handling sources call, beyond those of GoStrings.
    [unicode.ToUpper] outside ASCII is the variable [to_upper_table]. *)

From S2P Require Import Prelude GoStrings.
From Stdlib Require Import Ascii String.
From stdpp Require Import list pretty.
Local Open Scope string_scope.
#[local] Arguments String.append : simpl nomatch.

Definition newline : ascii := Ascii.ascii_of_nat 10.
Definition slash : ascii := Ascii.ascii_of_nat 47.
Definition nl : string := String newline EmptyString.
Definition sl : string := String slash EmptyString.

(** ** Splitting *)

(** [strings.Split(s, c)] for a separator of one byte. *)
Fixpoint Split (c : ascii) (s : string) : list string :=
  match s with
  | EmptyString => [EmptyString]
  | String a s' =>
    if decide (a = c) then EmptyString :: Split c s'
    else match Split c s' with x :: rest => String a x :: rest | [] => [] end
  end.

(** [strings.Cut(s, c)] for a separator of one byte. *)
Fixpoint Cut (c : ascii) (s : string) : option (string * string) :=
  match s with
  | EmptyString => None
  | String a s' =>
    if decide (a = c) then Some (EmptyString, s')
    else (λ '(x, y), (String a x, y)) <$> Cut c s'
  end.

(** [strings.CutPrefix] and [strings.TrimPrefix]. *)
Fixpoint CutPrefix (s p : string) {struct p} : option string :=
  match p, s with
  | EmptyString, _ => Some s
  | String a p', String b s' => if decide (a = b) then CutPrefix s' p' else None
  | _, _ => None
  end.

Definition TrimPrefix (s p : string) : string := default s (CutPrefix s p).

(** [strings.TrimLeft] and [strings.TrimRight] for a cut set of ASCII bytes. *)
Fixpoint trim_left (p : ascii → bool) (s : string) : string :=
  match s with
  | EmptyString => EmptyString
  | String a s' => if p a then trim_left p s' else s
  end.

Fixpoint trim_right (p : ascii → bool) (s : string) : string :=
  match s with
  | EmptyString => EmptyString
  | String a s' =>
    match trim_right p s' with
    | EmptyString => if p a then EmptyString else String a EmptyString
    | r => String a r
    end
  end.

Definition is_ascii (c : ascii) (a : ascii) : bool := bool_decide (a = c).

(** [strings.ReplaceAll(s, old, new)] for a non-empty [old]; [skip] bytes of the
    last match are still to be dropped. *)
Fixpoint replace_from (old new : string) (skip : nat) (s : string) : string :=
  match s with
  | EmptyString => EmptyString
  | String a s' =>
    match skip with
    | S k => replace_from old new k s'
    | O => if String.prefix old s then new +:+ replace_from old new (String.length old - 1) s'
           else String a (replace_from old new 0 s')
    end
  end.

Definition ReplaceAll (s old new : string) : string := replace_from old new 0 s.

(** [strings.Count(s, c)] for one byte. *)
Fixpoint count_byte (c : ascii) (s : string) : nat :=
  match s with
  | EmptyString => 0
  | String a s' => if decide (a = c) then S (count_byte c s') else count_byte c s'
  end.

(** [strings.FieldsFunc]: the maximal runs of runes that do not satisfy [p]. *)
Fixpoint fields_loop (p : Z → bool) (cs : list (Z * list Z)) (cur : list Z) : list string :=
  match cs with
  | [] => match cur with [] => [] | _ => [of_bytes cur] end
  | (r, b) :: cs' =>
    if p r then match cur with [] => fields_loop p cs' [] | _ => of_bytes cur :: fields_loop p cs' [] end
    else fields_loop p cs' (cur ++ b)%list
  end.

Definition FieldsFunc (p : Z → bool) (s : string) : list string := fields_loop p (chunks (bytes s)) [].
Definition Fields (s : string) : list string := FieldsFunc IsSpace s.

Section upper.
Variable to_upper_table : Z → Z.

Definition upper_rune (r : Z) : Z :=
  if Z.ltb r 128 then (if in_range 97 r 122 then r - 32 else r)%Z else to_upper_table r.

(** [runes := []rune(p); runes[0] = unicode.ToUpper(runes[0]); string(runes)],
    the identity on the empty string as at its call sites. *)
Definition capitalize (p : string) : string :=
  match runes p with
  | [] => p
  | r :: rs => string_of_runes (upper_rune r :: rs)
  end.
End upper.

(** ** strconv.Quote *)

Section quote.
Local Open Scope Z_scope.

Definition hex_digit (d : Z) : Z := if Z.ltb d 10 then 48 + d else 87 + d.

Fixpoint hex (width : nat) (r : Z) : list Z :=
  match width with
  | O => []
  | S w => (hex w (Z.shiftr r 4) ++ [hex_digit (Z.land r 15)])%list
  end.

(** [IsPrint], a table above 255. *)
Definition is_printable (high : Z → bool) (r : Z) : bool :=
  if Z.leb r 255 then in_range 32 r 126 || (in_range 161 r 255 && negb (Z.eqb r 173)) else high r.

Definition escape_rune (high : Z → bool) (r : Z) : list Z :=
  if Z.eqb r 34 || Z.eqb r 92 then [92; r]
  else if is_printable high r then encode_rune r
  else if in_range 7 r 13 then [92; nth (Z.to_nat (r - 7)) [97; 98; 116; 110; 118; 102; 114] 0]
  else if Z.ltb r 32 || Z.eqb r 127 then (92 :: 120 :: hex 2 r)%list
  else if Z.ltb r 65536 then (92 :: 117 :: hex 4 r)%list
  else (92 :: 85 :: hex 8 r)%list.

Definition quote_chunk (high : Z → bool) (c : Z * list Z) : list Z :=
  match c with
  | (r, [b]) => if Z.eqb r RuneError then (92 :: 120 :: hex 2 b)%list else escape_rune high r
  | (r, _) => escape_rune high r
  end.

Definition Quote (high : Z → bool) (s : string) : string :=
  of_bytes (34 :: (chunks (bytes s) ≫= quote_chunk high) ++ [34])%list.
End quote.

(** ** Numbers *)

(** [strconv.Atoi]: an optional sign and decimal digits, within 64 bits. *)
Definition add_digit (acc : option Z) (c : Z) : option Z :=
  match acc with
  | Some v => if Z.leb 48 c && Z.leb c 57 then Some (v * 10 + (c - 48))%Z else None
  | None => None
  end.

Definition digits_value (l : list Z) : option Z :=
  match l with [] => None | _ => foldl add_digit (Some 0%Z) l end.

Definition Atoi (s : string) : option Z :=
  let v := match bytes s with
           | 43%Z :: l => digits_value l
           | 45%Z :: l => Z.opp <$> digits_value l
           | l => digits_value l
           end in
  match v with
  | Some z => if Z.leb (- 2 ^ 63) z && Z.ltb z (2 ^ 63) then Some z else None
  | None => None
  end.

(** [%0wd] of a number that is not negative. *)
Definition zero_padded (w : nat) (z : Z) : string :=
  let s := pretty z in of_bytes (replicate (w - String.length s) 48%Z) +:+ s.

(** ** Paths *)

(** One component of the path, with the reversed stack of those before. *)
Definition clean_step (rooted : bool) (stack : list string) (c : string) : list string :=
  if bool_decide (c = EmptyString) || bool_decide (c = ".") then stack
  else if decide (c = "..") then
    match stack with
    | top :: rest => if decide (top = "..") then ".." :: stack else rest
    | [] => if rooted then [] else [".."]
    end
  else c :: stack.

Definition rooted (p : string) : bool := String.prefix sl p.

Definition clean_parts (p : string) : list string :=
  reverse (foldl (clean_step (rooted p)) [] (Split slash p)).

(** [path.Clean]. *)
Definition Clean (p : string) : string :=
  let body := strings_Join (clean_parts p) sl in
  if rooted p then sl +:+ body else if decide (body = EmptyString) then "." else body.

(** [path.Join]: empty elements are ignored. *)
Definition path_Join (elems : list string) : string :=
  match filter (λ e, e ≠ EmptyString) elems with
  | [] => EmptyString
  | es => Clean (strings_Join es sl)
  end.

(** The part of the path after its last slash, and the part up to it. *)
Definition split_last (p : string) : string * string :=
  let parts := Split slash p in
  (match removelast parts with [] => EmptyString | ds => strings_Join ds sl +:+ sl end, List.last parts EmptyString).

(** [path.Dir]. *)
Definition path_Dir (p : string) : string := Clean (split_last p).1.

(** [path.Base]. *)
Definition path_Base (p : string) : string :=
  if decide (p = EmptyString) then "."
  else match trim_right (is_ascii slash) p with
       | EmptyString => sl
       | q => (split_last q).2
       end.

(** [path.Ext]: from the last dot of the last element. *)
Definition path_Ext (p : string) : string :=
  let base := (split_last p).2 in
  match reverse (Split (Ascii.ascii_of_nat 46) base) with
  | x :: _ :: _ => "." +:+ x
  | _ => EmptyString
  end.

(** ** Facts about strings *)

Lemma str_app_nil_r s : s +:+ EmptyString = s.
Proof. induction s as [|a s IH]; simpl; [done|]. by rewrite IH. Qed.

Lemma str_app_assoc s t u : (s +:+ t) +:+ u = s +:+ (t +:+ u).
Proof. induction s as [|a s IH]; simpl; [done|]. by rewrite IH. Qed.

Lemma str_length_app s t : String.length (s +:+ t) = (String.length s + String.length t)%nat.
Proof. induction s as [|a s IH]; simpl; [done|]. by rewrite IH. Qed.

Lemma str_app_inj_l s t u : s +:+ t = s +:+ u → t = u.
Proof. induction s as [|a s IH]; simpl; [done|]. intros [= ?]. auto. Qed.

Lemma str_app_eq_length s1 s2 t1 t2 :
  s1 +:+ t1 = s2 +:+ t2 → String.length s1 = String.length s2 → s1 = s2 ∧ t1 = t2.
Proof.
  revert s2. induction s1 as [|a s1 IH]; intros [|b s2]; simpl; try done.
  intros [= -> E] [= L]. destruct (IH _ E L) as [-> ->]. done.
Qed.

Lemma str_app_empty s t : s +:+ t = EmptyString → s = EmptyString ∧ t = EmptyString.
Proof. destruct s; [done|discriminate]. Qed.

Lemma str_app_inj_r s1 s2 t : s1 +:+ t = s2 +:+ t → s1 = s2.
Proof.
  intros E. pose proof (f_equal String.length E) as L. rewrite !str_length_app in L.
  by destruct (str_app_eq_length _ _ _ _ E); [lia|].
Qed.

(** One of two strings that are prefixes of the same string is a prefix of the other. *)
Lemma str_app_compare s1 s2 t1 t2 :
  s1 +:+ t1 = s2 +:+ t2 → (∃ u, s1 = s2 +:+ u ∧ t2 = u +:+ t1) ∨ (∃ u, s2 = s1 +:+ u ∧ t1 = u +:+ t2).
Proof.
  revert s2. induction s1 as [|a s1 IH]; intros [|b s2]; simpl.
  - intros ->. left. by exists EmptyString.
  - intros ->. right. by exists (String b s2).
  - intros <-. left. by exists (String a s1).
  - intros [= -> E]. destruct (IH _ E) as [(u & -> & ->)|(u & -> & ->)]; [left|right]; by exists u.
Qed.

Lemma prefix_iff p s : String.prefix p s = true ↔ ∃ r, s = p +:+ r.
Proof.
  revert s. induction p as [|a p IH]; intros s; simpl.
  - destruct s; (split; [by eexists|done]).
  - destruct s as [|b s]; simpl; [split; [done|intros [r [=]]]|]. destruct (ascii_dec a b) as [->|Hn].
    + rewrite IH. split; intros [r E]; exists r; [by rewrite E|by injection E].
    + split; [done|]. intros [r [= ? _]]. congruence.
Qed.

Lemma CutPrefix_iff s p r : CutPrefix s p = Some r ↔ s = p +:+ r.
Proof.
  revert s. induction p as [|a p IH]; intros s; simpl; [split; congruence|].
  destruct s as [|b s]; [done|]. case_decide as E; [subst|].
  - rewrite IH. split; [by intros ->|by intros [= ->]].
  - split; [done|]. intros [= ? _]. congruence.
Qed.

Lemma CutPrefix_None s p : CutPrefix s p = None ↔ String.prefix p s = false.
Proof.
  destruct (CutPrefix s p) as [r|] eqn:E.
  - apply CutPrefix_iff in E. split; [done|]. intros Hf. assert (String.prefix p s = true) by (apply prefix_iff; eauto). congruence.
  - split; [|done]. intros _. destruct (String.prefix p s) eqn:Hp; [|done]. apply prefix_iff in Hp as [r Hr].
    apply CutPrefix_iff in Hr. congruence.
Qed.

(** Bytes of a string. *)
Fixpoint all_bytes (p : ascii → Prop) (s : string) : Prop :=
  match s with EmptyString => True | String a s' => p a ∧ all_bytes p s' end.

Definition free_of (c : ascii) (s : string) : Prop := all_bytes (λ a, a ≠ c) s.

#[export] Instance all_bytes_dec p `{∀ a, Decision (p a)} s : Decision (all_bytes p s).
Proof. induction s as [|a s IH]; simpl; apply _. Defined.

#[export] Instance free_of_dec c s : Decision (free_of c s).
Proof. unfold free_of. apply _. Defined.

Lemma all_bytes_app p s t : all_bytes p (s +:+ t) ↔ all_bytes p s ∧ all_bytes p t.
Proof. induction s as [|a s IH]; simpl; [tauto|]. rewrite IH. tauto. Qed.

Lemma all_bytes_impl (p q : ascii → Prop) s : (∀ a, p a → q a) → all_bytes p s → all_bytes q s.
Proof. intros Hpq. induction s as [|a s IH]; simpl; [done|]. intros [? ?]. auto. Qed.

(** *** Splitting and joining *)

Lemma Split_cons c s : ∃ x rest, Split c s = x :: rest.
Proof. induction s as [|a s (x & rest & IH)]; simpl; [eauto|]. case_decide; [eauto|]. rewrite IH. eauto. Qed.

Lemma Join_cons x y l sep : strings_Join (x :: y :: l) sep = x +:+ sep +:+ strings_Join (y :: l) sep.
Proof. done. Qed.

Lemma Join_Split c s : strings_Join (Split c s) (String c EmptyString) = s.
Proof.
  induction s as [|a s IH]; [done|]. simpl. destruct (Split_cons c s) as (x & rest & E). rewrite E in *. case_decide as Ha.
  - subst a. rewrite Join_cons, IH. done.
  - rewrite <- IH. by destruct rest.
Qed.

Lemma Split_free c s : Forall (free_of c) (Split c s).
Proof.
  induction s as [|a s IH]; simpl; [by repeat constructor|]. destruct (Split_cons c s) as (x & rest & E). rewrite E in *.
  case_decide; [by constructor|]. inversion_clear IH. constructor; [done|]. done.
Qed.

Lemma Split_app c s t : Split c (s +:+ String c t) = (Split c s ++ Split c t)%list.
Proof.
  induction s as [|a s IH]; simpl; [by rewrite decide_True|].
  rewrite IH. destruct (Split_cons c s) as (x & rest & ->). simpl. by case_decide.
Qed.

Lemma Split_free_id c s : free_of c s → Split c s = [s].
Proof. induction s as [|a s IH]; simpl; [done|]. intros [Ha Hs]. rewrite IH by done. by rewrite decide_False. Qed.

Lemma Split_Join c l : l ≠ [] → Forall (free_of c) l → Split c (strings_Join l (String c EmptyString)) = l.
Proof.
  intros Hne Hf. induction Hf as [|x l Hx Hf IH]; [done|]. destruct l as [|y l]; [by apply Split_free_id|].
  rewrite Join_cons. change (String c EmptyString +:+ ?t) with (String c t). by rewrite Split_app, Split_free_id, IH.
Qed.

Lemma Join_app l1 l2 sep : l1 ≠ [] → l2 ≠ [] → strings_Join (l1 ++ l2) sep = strings_Join l1 sep +:+ sep +:+ strings_Join l2 sep.
Proof.
  intros H1 H2. induction l1 as [|x l1 IH]; [done|]. destruct l1 as [|y l1]; [by destruct l2|].
  change ((x :: y :: l1) ++ l2)%list with (x :: y :: (l1 ++ l2)%list). rewrite !Join_cons.
  change (y :: (l1 ++ l2)%list) with ((y :: l1) ++ l2)%list. rewrite IH by done. by rewrite !str_app_assoc.
Qed.

Lemma Split_inj c s1 s2 : Split c s1 = Split c s2 → s1 = s2.
Proof. intros E. by rewrite <- (Join_Split c s1), E, Join_Split. Qed.

(** The components of one path start with those of another exactly when it is
    that path or lies below it. *)
Lemma Split_prefix c d p :
  Split c d `prefix_of` Split c p ↔ d = p ∨ ∃ r, p = d +:+ String c r.
Proof.
  split.
  - intros [k E]. destruct k as [|x k]; [rewrite app_nil_r in E; left; symmetry; by eapply Split_inj|]. right.
    exists (strings_Join (x :: k) (String c EmptyString)). rewrite <- (Join_Split c p), E, Join_app, Join_Split; [done| |done].
    by destruct (Split_cons c d) as (? & ? & ->).
  - intros [->|[r ->]]; [done|]. rewrite Split_app. by apply prefix_app_r.
Qed.

(** *** Trimming *)

Lemma trim_right_split p s : ∃ t, s = trim_right p s +:+ t ∧ all_bytes (λ a, p a = true) t.
Proof.
  induction s as [|a s (t & E & Ht)]; simpl; [by exists EmptyString|].
  destruct (trim_right p s) as [|b r] eqn:Er.
  - simpl in E. subst t. destruct (p a) eqn:Ha; [by exists (String a s)|]. exists s. done.
  - exists t. simpl in *. by rewrite <- E.
Qed.

Lemma trim_right_all p s : all_bytes (λ a, p a = true) s → trim_right p s = EmptyString.
Proof. induction s as [|a s IH]; simpl; [done|]. intros [Ha Hs]. by rewrite IH, Ha. Qed.

Lemma trim_right_app p s t : all_bytes (λ a, p a = true) t → trim_right p (s +:+ t) = trim_right p s.
Proof. intros Ht. induction s as [|a s IH]; simpl; [by apply trim_right_all|]. by rewrite IH. Qed.

Lemma trim_right_idem p s : trim_right p (trim_right p s) = trim_right p s.
Proof.
  destruct (trim_right_split p s) as (t & E & Ht). transitivity (trim_right p (trim_right p s +:+ t)).
  - by rewrite trim_right_app.
  - by rewrite <- E.
Qed.

Lemma trim_right_id p s a : p a = false → trim_right p (s +:+ String a EmptyString) = s +:+ String a EmptyString.
Proof.
  intros Ha. induction s as [|b s IH]; simpl; [by rewrite Ha|]. rewrite IH. by destruct s.
Qed.

Lemma trim_left_split p s : ∃ t, s = t +:+ trim_left p s ∧ all_bytes (λ a, p a = true) t.
Proof.
  induction s as [|a s (t & E & Ht)]; simpl; [by exists EmptyString|]. destruct (p a) eqn:Ha; [|by exists EmptyString].
  exists (String a t). simpl. by rewrite <- E.
Qed.

(** *** Searching *)

Lemma index_cons q a s :
  String.index 0 q (String a s) = if String.prefix q (String a s) then Some 0%nat else S <$> String.index 0 q s.
Proof. simpl. by destruct (String.index 0 q s). Qed.

Lemma index_Some q s n :
  String.index 0 q s = Some n → ∃ pre post, s = pre +:+ q +:+ post ∧ String.length pre = n ∧
    ∀ pre' post', s = pre' +:+ q +:+ post' → (n <= String.length pre')%nat.
Proof.
  revert n. induction s as [|a s IH]; intros n.
  - destruct q as [|b q]; [|done]. intros [= <-]. exists EmptyString, EmptyString. split_and!; [done..|lia].
  - rewrite index_cons. destruct (String.prefix q (String a s)) eqn:Hp.
    + intros [= <-]. apply prefix_iff in Hp as [r Hr]. exists EmptyString, r. split_and!; [done..|lia].
    + destruct (String.index 0 q s) as [m|]; intros [= <-]. destruct (IH m eq_refl) as (pre & post & -> & <- & Hmin).
      exists (String a pre), post. split_and!; [done..|]. intros [|b pre'] post' E; simpl in E |- *.
      * assert (String.prefix q (String a (pre +:+ q +:+ post)) = true) by (apply prefix_iff; eauto). congruence.
      * injection E as -> E. apply Hmin in E. lia.
Qed.

Lemma index_None q s : String.index 0 q s = None → ∀ pre post, s ≠ pre +:+ q +:+ post.
Proof.
  induction s as [|a s IH].
  - destruct q as [|b q]; [done|]. intros _ [|] post; discriminate.
  - rewrite index_cons. destruct (String.prefix q (String a s)) eqn:Hp; [done|]. destruct (String.index 0 q s); [done|].
    intros _ [|b pre] post E; simpl in E.
    + assert (String.prefix q (String a s) = true) by (apply prefix_iff; eauto). congruence.
    + injection E as -> E. by eapply IH.
Qed.

(** The position found is the first one. *)
Lemma index_first q pre post :
  (∀ pre' post', pre +:+ q +:+ post = pre' +:+ q +:+ post' → (String.length pre <= String.length pre')%nat) →
  String.index 0 q (pre +:+ q +:+ post) = Some (String.length pre).
Proof.
  intros Hmin. destruct (String.index 0 q (pre +:+ q +:+ post)) as [n|] eqn:E.
  - apply index_Some in E as (pre1 & post1 & E & <- & Hm). specialize (Hmin _ _ E). specialize (Hm _ _ eq_refl). f_equal. lia.
  - exfalso. by apply (index_None _ _ E pre post).
Qed.

(** *** Clean paths *)

(** An ordinary path component. *)
Definition normal_part (c : string) : Prop := free_of slash c ∧ c ≠ EmptyString ∧ c ≠ "." ∧ c ≠ "..".

#[export] Instance normal_part_dec c : Decision (normal_part c).
Proof. unfold normal_part. apply _. Defined.

(** The components of a clean path: steps up, then ordinary components; none up
    when the path starts at the root. *)
Definition clean_shape (r : bool) (parts : list string) : Prop :=
  ∃ k n, parts = (replicate k ".." ++ n)%list ∧ Forall normal_part n ∧ (r = true → k = 0%nat).

Lemma clean_step_shape r st c : free_of slash c → clean_shape r (reverse st) → clean_shape r (reverse (clean_step r st c)).
Proof.
  intros Hc (k & n & E & Hn & Hr). assert (st = (reverse n ++ replicate k "..")%list) as ->.
  { apply (f_equal reverse) in E. by rewrite reverse_involutive, reverse_app, reverse_replicate in E. }
  unfold clean_step. destruct (bool_decide_reflect (c = EmptyString)); simpl; [by exists k, n|].
  destruct (bool_decide_reflect (c = ".")); simpl; [by exists k, n|]. case_decide as Hdd.
  - destruct n as [|x n _] using rev_ind; simpl.
    + destruct k as [|k]; simpl; [destruct r; [by exists 0%nat, []|by exists 1%nat, []]|].
      exists (S (S k)), []. rewrite app_nil_r. split; [|split; [done|intros ?; exfalso; by specialize (Hr ltac:(done))]].
      change (".." :: ".." :: replicate k "..") with (replicate (S (S k)) ".."). by rewrite reverse_replicate.
    + rewrite reverse_snoc. simpl. apply Forall_app in Hn as [Hn Hx]. inversion_clear Hx as [|?? (? & ? & ? & ?)].
      rewrite decide_False by done. exists k, n. rewrite reverse_app, reverse_involutive, reverse_replicate. done.
  - exists k, (n ++ [c])%list. rewrite reverse_cons, reverse_app, reverse_involutive, reverse_replicate, <- app_assoc.
    split; [done|]. split; [|done]. apply Forall_app. split; [done|]. by repeat constructor.
Qed.

Lemma clean_fold_shape r parts st :
  Forall (free_of slash) parts → clean_shape r (reverse st) → clean_shape r (reverse (foldl (clean_step r) st parts)).
Proof.
  intros Hf. revert st. induction Hf as [|c parts Hc Hf IH]; intros st Hst; simpl; [done|].
  apply IH. by apply clean_step_shape.
Qed.

Lemma clean_parts_shape p : clean_shape (rooted p) (clean_parts p).
Proof. apply clean_fold_shape; [apply Split_free|]. by exists 0%nat, []. Qed.

(** Clean components are left alone. *)
Lemma clean_fold_clean r parts :
  clean_shape r parts → foldl (clean_step r) [] parts = reverse parts.
Proof.
  intros (k & n & -> & Hn & Hr). rewrite foldl_app, reverse_app, reverse_replicate.
  assert (foldl (clean_step r) [] (replicate k "..") = replicate k "..") as ->.
  { destruct r; [by rewrite Hr|]. clear Hn Hr. induction k as [|k IH]; [done|].
    rewrite replicate_S_end at 1. rewrite foldl_app, IH. by destruct k. }
  generalize (replicate k ".."). intros st. clear Hr. revert st.
  induction Hn as [|c n (? & ? & ? & ?) Hn IH]; intros st; [done|]. simpl. rewrite IH, reverse_cons, <- app_assoc. simpl.
  unfold clean_step. rewrite !bool_decide_eq_false_2 by done. simpl. by rewrite decide_False.
Qed.

Lemma clean_shape_free r parts : clean_shape r parts → Forall (λ c, free_of slash c ∧ c ≠ EmptyString) parts.
Proof.
  intros (k & n & -> & Hn & _). apply Forall_app. split.
  - apply Forall_replicate. by vm_compute.
  - eapply Forall_impl; [done|]. by intros ? (? & ? & _).
Qed.

Lemma Join_empty_iff parts : Forall (λ c, free_of slash c ∧ c ≠ EmptyString) parts → strings_Join parts sl = EmptyString → parts = [].
Proof.
  intros Hf. destruct Hf as [|x l [_ Hx] Hf]; [done|]. destruct l as [|y l]; [done|]. rewrite Join_cons.
  intros [? _]%str_app_empty. done.
Qed.

Lemma rooted_join parts : Forall (λ c, free_of slash c ∧ c ≠ EmptyString) parts → rooted (strings_Join parts sl) = false.
Proof.
  intros Hf. unfold rooted. destruct (String.prefix sl (strings_Join parts sl)) eqn:E; [|done].
  apply prefix_iff in E as [r Hr]. destruct Hf as [|x l [Hx Hne] Hf]; [done|]. exfalso.
  assert (∃ a x', x = String a x' ∧ a ≠ slash) as (a & x' & -> & Ha) by (destruct x as [|a x']; [done|]; exists a, x'; by destruct Hx).
  destruct l as [|y l]; [|rewrite Join_cons in Hr]; injection Hr as ? _; done.
Qed.

Lemma rooted_Clean p : rooted (Clean p) = rooted p.
Proof.
  pose proof (clean_shape_free _ _ (clean_parts_shape p)) as Hf. unfold Clean. destruct (rooted p) eqn:Hr; [apply prefix_iff; eauto|].
  case_decide; [done|]. by apply rooted_join.
Qed.

Lemma clean_parts_Clean p : clean_parts (Clean p) = clean_parts p.
Proof.
  pose proof (clean_parts_shape p) as Hs. pose proof (clean_shape_free _ _ Hs) as Hf.
  unfold clean_parts at 1. rewrite rooted_Clean. unfold Clean.
  assert (clean_parts p ≠ [] → foldl (clean_step (rooted p)) [] (Split slash (strings_Join (clean_parts p) sl)) = reverse (clean_parts p)) as Hfold.
  { intros Hne. unfold sl. rewrite Split_Join; [by apply clean_fold_clean|done|]. eapply Forall_impl; [done|]. by intros ? [? _]. }
  destruct (rooted p) eqn:Hr.
  - change (sl +:+ ?x) with (EmptyString +:+ String slash x).
    rewrite Split_app, foldl_app. change (foldl (clean_step true) [] (Split slash EmptyString)) with (@nil string).
    destruct (clean_parts p) as [|c l] eqn:E; [done|]. rewrite Hfold by done. by rewrite reverse_involutive.
  - case_decide as E; [apply Join_empty_iff in E; [|done]; by rewrite E|]. rewrite Hfold; [by rewrite reverse_involutive|].
    intros E'. by rewrite E' in E.
Qed.

(** Cleaning twice changes nothing. *)
Lemma Clean_idem p : Clean (Clean p) = Clean p.
Proof. unfold Clean at 1. rewrite rooted_Clean, clean_parts_Clean. done. Qed.

(** *** Slices *)

Lemma substring_app a b c : String.substring (String.length a) (String.length b) (a +:+ b +:+ c) = b.
Proof.
  induction a as [|x a IH]; simpl; [|done]. induction b as [|y b IH]; simpl; [by destruct c|]. by rewrite IH.
Qed.

Lemma slice_mid a b c : slice (a +:+ b +:+ c) (len a) (len a + len b) = Some b.
Proof.
  unfold slice, len. rewrite !str_length_app.
  rewrite (proj2 (Z.leb_le _ _)), (proj2 (Z.leb_le _ _)), (proj2 (Z.leb_le _ _)) by lia. simpl.
  rewrite Nat2Z.id. replace (Z.to_nat _) with (String.length b) by lia. by rewrite substring_app.
Qed.

Lemma slice_from a b i j : i = len a → j = (len a + len b)%Z → slice (a +:+ b) i j = Some b.
Proof. intros -> ->. pose proof (slice_mid a b EmptyString) as E. by rewrite str_app_nil_r in E. Qed.

Lemma slice_to a b j : j = len a → slice (a +:+ b) 0 j = Some a.
Proof. intros ->. exact (slice_mid EmptyString a b). Qed.

Lemma len_app a b : len (a +:+ b) = (len a + len b)%Z.
Proof. unfold len. rewrite str_length_app. lia. Qed.

Lemma len_nonneg a : (0 <= len a)%Z.
Proof. unfold len. lia. Qed.

(** What [strings.Index] finds. *)
Lemma Index_found s q : Index s q ≠ (-1)%Z →
  ∃ pre post, s = pre +:+ q +:+ post ∧ Index s q = len pre ∧
    ∀ pre' post', s = pre' +:+ q +:+ post' → (len pre <= len pre')%Z.
Proof.
  unfold Index. destruct (String.index 0 q s) as [n|] eqn:E; [|done]. intros _.
  apply index_Some in E as (pre & post & -> & <- & Hmin). exists pre, post. split_and!; [done..|].
  intros pre' post' E. apply Hmin in E. unfold len. lia.
Qed.

Lemma Index_absent s q : Index s q = (-1)%Z ↔ ∀ pre post, s ≠ pre +:+ q +:+ post.
Proof.
  unfold Index. destruct (String.index 0 q s) as [n|] eqn:E.
  - apply index_Some in E as (pre & post & -> & <- & _). split; [lia|]. intros Hn. exfalso. by apply (Hn pre post).
  - split; [|done]. intros _. by apply index_None.
Qed.

Lemma Index_first pre q post :
  (∀ pre' post', pre +:+ q +:+ post = pre' +:+ q +:+ post' → (len pre <= len pre')%Z) →
  Index (pre +:+ q +:+ post) q = len pre.
Proof.
  intros Hmin. unfold Index. rewrite index_first; [done|]. intros pre' post' E. apply Hmin in E. unfold len in *. lia.
Qed.

Lemma substring_full s : String.substring 0 (String.length s) s = s.
Proof. induction s as [|a s IH]; simpl; [done|]. by rewrite IH. Qed.

Lemma HasSuffix_iff s p : HasSuffix s p = true ↔ ∃ r, s = r +:+ p.
Proof.
  unfold HasSuffix. split.
  - unfold slice. destruct (_ && _ && _) eqn:Eb; [|done]. intros Heq%String.eqb_eq.
    apply andb_true_iff in Eb as [[H1%Z.leb_le H2%Z.leb_le]%andb_true_iff H3%Z.leb_le].
    exists (String.substring 0 (String.length s - String.length p) s). unfold len in *.
    replace (Z.to_nat (Z.of_nat (String.length s) - Z.of_nat (String.length p))) with (String.length s - String.length p)%nat in Heq by lia.
    replace (Z.to_nat (_ - _)) with (String.length p) in Heq by lia.
    assert (String.length p <= String.length s)%nat as Hle by lia. clear -Heq Hle. rewrite <- Heq at 2.
    remember (String.length s - String.length p)%nat as n eqn:En. replace (String.length p) with (String.length s - n)%nat by lia.
    assert (n <= String.length s)%nat as Hn by lia. clear -Hn. revert s Hn. induction n as [|n IH]; intros s Hn; simpl.
    + rewrite Nat.sub_0_r, substring_full. by destruct s.
    + destruct s as [|a s]; [simpl in Hn; lia|]. simpl. f_equal. apply IH. simpl in Hn. lia.
  - intros [r ->]. rewrite (slice_from r p); [apply String.eqb_refl| |]; rewrite len_app; lia.
Qed.

(** *** Lines *)

(** Splitting a concatenation joins the last part of one with the first of the other. *)
Lemma Split_concat c p q : ∃ init x y rest,
  Split c p = (init ++ [x])%list ∧ Split c q = y :: rest ∧ Split c (p +:+ q) = (init ++ (x +:+ y) :: rest)%list.
Proof.
  destruct (Split_cons c q) as (y & rest & Eq). rewrite Eq. induction p as [|a p (init & x & y' & rest' & E1 & E0 & E2)]; simpl.
  - exists [], EmptyString, y, rest. by rewrite Eq.
  - injection E0 as <- <-. rewrite E1, E2. case_decide.
    + exists (EmptyString :: init), x, y, rest. done.
    + destruct init as [|z init]; simpl; [by exists [], (String a x), y, rest|]. by exists (String a z :: init), x, y, rest.
Qed.

(** A part of a prefix starts a part of the whole. *)
Lemma Split_part c p q l : l ∈ Split c p → ∃ l', l' ∈ Split c (p +:+ q) ∧ ∃ r, l' = l +:+ r.
Proof.
  destruct (Split_concat c p q) as (init & x & y & rest & -> & _ & ->). intros [Hl| ->%list_elem_of_singleton]%elem_of_app.
  - exists l. split; [set_solver|]. exists EmptyString. by rewrite str_app_nil_r.
  - exists (x +:+ y). split; [set_solver|]. by exists y.
Qed.

(** The first line break of a line that is not in [fm] comes after [fm]. *)
Lemma line_first (m fm body pre post : string) :
  m ∉ Split newline fm → free_of newline m →
  fm +:+ (nl +:+ m +:+ nl) +:+ body = pre +:+ (nl +:+ m +:+ nl) +:+ post → (len fm <= len pre)%Z.
Proof.
  intros Hm Hfree E. destruct (str_app_compare _ _ _ _ E) as [(u & -> & Eu)|(u & -> & Eu)]; [|rewrite len_app; pose proof (len_nonneg u); lia].
  destruct u as [|a u]; [rewrite str_app_nil_r; lia|]. exfalso. simpl in Eu. injection Eu as <- Eu. apply Hm.
  rewrite Split_app. apply elem_of_app. right.
  apply (f_equal (Split newline)) in Eu. rewrite !str_app_assoc in Eu. change (nl +:+ ?x) with (String newline x) in Eu.
  rewrite !Split_app in Eu. rewrite Split_free_id in Eu by done. destruct (Split_cons newline u) as (x & r & Er). rewrite Er in *.
  injection Eu as -> _. left.
Qed.

Lemma ReplaceAll_absent s a old' new : free_of a s → ReplaceAll s (String a old') new = s.
Proof.
  unfold ReplaceAll. induction s as [|b s IH]; simpl; [done|]. intros [Hb Hs].
  destruct (ascii_dec a b) as [->|]; [done|]. by rewrite IH.
Qed.

(** *** Numbers *)

Section numbers.
Local Open Scope Z_scope.

Lemma digit_char (d : N) : (d < 10)%N → byte_of (pretty_N_char d) = 48 + Z.of_N d.
Proof.
  intros Hd. assert (d = 0 ∨ d = 1 ∨ d = 2 ∨ d = 3 ∨ d = 4 ∨ d = 5 ∨ d = 6 ∨ d = 7 ∨ d = 8 ∨ d = 9)%N as Hc by lia.
  by repeat destruct Hc as [->|Hc]; [..|subst].
Qed.

Lemma add_digit_ok v d : 0 <= d < 10 → add_digit (Some v) (48 + d) = Some (v * 10 + d).
Proof. intros Hd. unfold add_digit. rewrite (proj2 (Z.leb_le _ _)), (proj2 (Z.leb_le _ _)) by lia. cbn. f_equal. lia. Qed.

Lemma pretty_digits (x : N) s : foldl add_digit (Some 0) (bytes (pretty_N_go x s)) = foldl add_digit (Some (Z.of_N x)) (bytes s).
Proof.
  revert s. induction (N.lt_wf_0 x) as [x _ IH]. intros s. assert (x = 0 ∨ 0 < x)%N as [->|Hx] by lia; [done|].
  rewrite pretty_N_go_step by done. rewrite IH by (apply N.div_lt; lia).
  change (bytes (String (pretty_N_char (x `mod` 10)) s)) with (byte_of (pretty_N_char (x `mod` 10)) :: bytes s). cbn [foldl].
  assert (x `mod` 10 < 10)%N as Hm by (apply N.mod_lt; lia). pose proof (N.div_mod x 10 ltac:(lia)) as Hdm.
  revert Hm Hdm. generalize (x `mod` 10)%N, (x `div` 10)%N. intros r q Hm Hdm.
  rewrite digit_char, add_digit_ok by lia. do 2 f_equal. lia.
Qed.

Definition digit_bytes (s : string) : Prop := Forall (λ c, 48 <= c <= 57) (bytes s).

Lemma pretty_go_digits (x : N) s : digit_bytes s → digit_bytes (pretty_N_go x s).
Proof.
  revert s. induction (N.lt_wf_0 x) as [x _ IH]. intros s Hs. assert (x = 0 ∨ 0 < x)%N as [->|Hx] by lia; [done|].
  rewrite pretty_N_go_step by done. apply IH; [apply N.div_lt; lia|]. constructor; [|done].
  assert (x `mod` 10 < 10)%N as Hm by (apply N.mod_lt; lia). rewrite digit_char by done. revert Hm. generalize (x `mod` 10)%N. lia.
Qed.

Lemma pretty_value (z : Z) : 0 <= z → digits_value (bytes (pretty z)) = Some z ∧ digit_bytes (pretty z).
Proof.
  intros Hz. destruct z as [|p|p]; [|change (pretty (Zpos p)) with (pretty (Npos p))|lia].
  { split; [reflexivity|]. repeat constructor; done. }
  unfold pretty, pretty_N. rewrite decide_False by done. pose proof (pretty_digits (Npos p) EmptyString) as Hv.
  split; [|by apply pretty_go_digits; constructor]. unfold digits_value. destruct (bytes _); [|done]. discriminate.
Qed.

Lemma digits_nonneg l a v : Forall (λ c, 48 <= c <= 57) l → 0 <= a → foldl add_digit (Some a) l = Some v → 0 <= v.
Proof.
  intros Hd. revert a. induction Hd as [|c l Hc _ IH]; intros a Ha; [by intros [= <-]|]. cbn [foldl]. replace c with (48 + (c - 48)) by lia.
  rewrite add_digit_ok by lia. apply IH. lia.
Qed.

Lemma Atoi_digits s v : digit_bytes s → digits_value (bytes s) = Some v → v < 2 ^ 63 → Atoi s = Some v.
Proof.
  intros Hd Hv Hlt. assert (0 <= v) as Hpos.
  { unfold digits_value in Hv. destruct (bytes s) as [|c l] eqn:E; [done|]. eapply (digits_nonneg (c :: l) 0); [|done..].
    unfold digit_bytes in Hd. by rewrite E in Hd. }
  unfold Atoi. assert (match bytes s with 43 :: l => digits_value l | 45 :: l => Z.opp <$> digits_value l | l => digits_value l end = Some v) as ->.
  { unfold digit_bytes in Hd. destruct (bytes s) as [|c l]; [done|]. inversion_clear Hd as [|?? Hc _].
    assert (c = 48 ∨ c = 49 ∨ c = 50 ∨ c = 51 ∨ c = 52 ∨ c = 53 ∨ c = 54 ∨ c = 55 ∨ c = 56 ∨ c = 57) as Hcs by lia.
    by repeat destruct Hcs as [->|Hcs]; [..|subst]. }
  rewrite (proj2 (Z.leb_le _ _)), (proj2 (Z.ltb_lt _ _)) by lia. done.
Qed.

Lemma zeros_value k v l : digits_value l = Some v → digits_value (replicate k 48 ++ l) = Some v.
Proof.
  intros Hv. unfold digits_value in *. destruct l as [|c l]; [done|]. destruct (replicate k 48 ++ c :: l)%list eqn:E; [by destruct k|].
  rewrite <-E, foldl_app. assert (foldl add_digit (Some 0) (replicate k 48) = Some 0) as ->; [|done].
  clear. induction k as [|k IH]; [done|]. exact IH.
Qed.

(** A number printed with leading zeros is read back. *)
Lemma Atoi_zero_padded w z : 0 <= z < 2 ^ 63 → Atoi (zero_padded w z) = Some z.
Proof.
  intros [Hz Hlt]. destruct (pretty_value z Hz) as [Hv Hd]. unfold zero_padded.
  assert (bytes (of_bytes (replicate (w - String.length (pretty z)) 48) +:+ pretty z) =
    (replicate (w - String.length (pretty z)) 48 ++ bytes (pretty z))%list) as Hb.
  { rewrite bytes_app, bytes_of_bytes; [done|]. apply Forall_replicate. split; lia. }
  apply Atoi_digits; [|rewrite Hb; by apply zeros_value|done]. unfold digit_bytes. rewrite Hb. apply Forall_app.
  split; [|done]. apply Forall_replicate. lia.
Qed.
End numbers.
