(* ===== verification/AtomicFile.v ===== *)
(** * Atomic file writes (internal/pkg/atomicfile/atomicfile.go)

    The file system is a map from paths to regular files, generic in the paths
    and in what a file holds (bytes, for the specs; documents, for the task
    store).  A run of [write]
    makes a sequence of system calls; the outcome of each, and the name that
    [os.CreateTemp] picks, is given by an [Outcomes] record, so that every
    failure can happen.  The model returns the result and all the states that
    the file system goes through: a crash or a concurrent reader sees one of
    them. *)

From S2P Require Import Prelude GoStrings GoText.
From Stdlib Require Import String.
From stdpp Require Import list gmap.
Local Open Scope Z_scope.

(** What a file holds: what a new one holds, and what is left of a short write. *)
Class Data (D : Type) := { no_data : D; cut_data : nat → D → D }.

#[export] Instance string_data : Data string := {| no_data := EmptyString; cut_data n d := String.substring 0 n d |}.

Record File (D : Type) := MkFile { f_data : D; f_mode : Z }.
Arguments MkFile {D}.
Arguments f_data {D}.
Arguments f_mode {D}.

Abbreviation FileSystem := (gmap string (File string)).

(** What the system answers: [None] is success, [Some e] the error. *)
Record Outcomes (K : Type) := MkOutcomes {
  oc_create : result string K;
  oc_write : option (nat * string);
  oc_sync : option string;
  oc_close : option string;
  oc_chmod : option string;
  oc_rename : option string;
  oc_remove : option string
}.
Arguments MkOutcomes {K}.
Arguments oc_create {K}.
Arguments oc_write {K}.
Arguments oc_sync {K}.
Arguments oc_close {K}.
Arguments oc_chmod {K}.
Arguments oc_rename {K}.
Arguments oc_remove {K}.

Definition temp_mode : Z := 384.

Section write.
Context {K : Type} `{Countable K} {D : Type} `{!Data D}.
Abbreviation FileSystem := (gmap K (File D)).
Abbreviation Outcomes := (Outcomes K).


Definition set_data (p : K) (d : D) (fs : FileSystem) : FileSystem := alter (λ f, MkFile d (f_mode f)) p fs.
Definition set_mode (p : K) (m : Z) (fs : FileSystem) : FileSystem := alter (λ f, MkFile (f_data f) m) p fs.

(** [os.Remove(tmp)], its error ignored. *)
Definition remove_tmp (o : Outcomes) (tmp : K) (fs : FileSystem) : FileSystem :=
  match oc_remove o with None => delete tmp fs | Some _ => fs end.

Definition rename_file (src dst : K) (fs : FileSystem) : FileSystem :=
  match fs !! src with Some f => <[dst := f]> (delete src fs) | None => fs end.

(** The states reached, the last one first.  The states are those other processes
    see; a loss of power is not modelled, so [sync] only adds a call that can fail. *)
Definition write (o : Outcomes) (path : K) (data : D) (perm : Z) (sync : bool) (fs : FileSystem)
  : result string unit * list FileSystem :=
  match oc_create o with
  | Err e => (Err e, [fs])
  | Ok tmp =>
    let fs1 := <[tmp := MkFile no_data temp_mode]> fs in
    let '(writeErr, fs2) :=
      match oc_write o with
      | None => (None, set_data tmp data fs1)
      | Some (n, e) => (Some e, set_data tmp (cut_data n data) fs1)
      end in
    let syncErr := if bool_decide (writeErr = None) && sync then oc_sync o else None in
    let closeErr := oc_close o in
    let fail e fs' trace := (Err e, remove_tmp o tmp fs' :: fs' :: trace) in
    match writeErr, syncErr, closeErr with
    | Some e, _, _ => fail e fs2 [fs1; fs]
    | _, Some e, _ => fail e fs2 [fs1; fs]
    | _, _, Some e => fail e fs2 [fs1; fs]
    | None, None, None =>
      match oc_chmod o with
      | Some e => fail e fs2 [fs1; fs]
      | None =>
        let fs3 := set_mode tmp perm fs2 in
        match oc_rename o with
        | Some e => fail e fs3 [fs2; fs1; fs]
        | None => (Ok tt, [rename_file tmp path fs3; fs3; fs2; fs1; fs])
        end
      end
    end
  end.

Definition Write (o : Outcomes) (path : K) (data : D) (perm : Z) (fs : FileSystem) := write o path data perm false fs.
Definition WriteSync (o : Outcomes) (path : K) (data : D) (perm : Z) (fs : FileSystem) := write o path data perm true fs.

(** The file system after the call. *)
Definition after (r : result string unit * list FileSystem) (fs : FileSystem) : FileSystem := default fs (head r.2).

(** A run of the system: a temporary name is new and lies beside the target. *)
Definition admissible (o : Outcomes) (path : K) (fs : FileSystem) : Prop :=
  match oc_create o with
  | Ok tmp => fs !! tmp = None ∧ tmp ≠ path
  | Err _ => True
  end.

(** ** Facts *)

(** Nothing but the temporary file differs. *)
Definition only_tmp (tmp : K) (fs fs' : FileSystem) : Prop := (∃ f, fs' = <[tmp := f]> fs) ∨ fs' = fs.

(** The target is as before or complete; the other files are as before. *)
Definition intact (path : K) (data : D) (perm : Z) (fs fs' : FileSystem) : Prop :=
  (fs' !! path = fs !! path ∨ fs' !! path = Some (MkFile data perm)) ∧
  ∀ q f, q ≠ path → fs !! q = Some f → fs' !! q = Some f.

Section facts.
Context (o : Outcomes) (path : K) (data : D) (perm : Z) (fs : FileSystem) (tmp : K).
Hypothesis (Hnew : fs !! tmp = None) (Hne : tmp ≠ path).

Lemma only_tmp_lookup fs' q : only_tmp tmp fs fs' → q ≠ tmp → fs' !! q = fs !! q.
Proof. intros [[f ->]| ->] Hq; [by rewrite lookup_insert_ne|done]. Qed.

Lemma only_tmp_intact fs' : only_tmp tmp fs fs' → intact path data perm fs fs'.
Proof.
  intros Ho. split; [left; by apply only_tmp_lookup|]. intros q f _ Hq. rewrite only_tmp_lookup; [done..|]. intros ->. congruence.
Qed.

Lemma remove_only fs' : only_tmp tmp fs fs' → only_tmp tmp fs (remove_tmp o tmp fs').
Proof.
  unfold remove_tmp. destruct (oc_remove o); [done|]. intros [[f ->]| ->]; right.
  - by rewrite delete_insert_id.
  - by apply delete_id.
Qed.

(** A failed write leaves the target alone. *)
Lemma fail_intact (e : string) fs' trace :
  only_tmp tmp fs fs' → Forall (only_tmp tmp fs) trace →
  let r := (Err e : result string unit, remove_tmp o tmp fs' :: fs' :: trace) in
  Forall (intact path data perm fs) r.2 ∧ after r fs !! path = fs !! path.
Proof.
  intros Hfs' Htr. simpl. split; [|apply only_tmp_lookup; [by apply remove_only|done]].
  constructor; [by apply only_tmp_intact, remove_only|]. constructor; [by apply only_tmp_intact|].
  eapply Forall_impl; [done|apply only_tmp_intact].
Qed.

(** Renaming the prepared temporary file. *)
Lemma rename_complete q :
  rename_file tmp path (<[tmp := MkFile data perm]> fs) !! q =
  if decide (q = path) then Some (MkFile data perm) else fs !! q.
Proof.
  unfold rename_file. rewrite lookup_insert_eq, delete_insert_id by done.
  case_decide; [subst; by rewrite lookup_insert_eq|by rewrite lookup_insert_ne].
Qed.
End facts.

(** The states and the end of a write. *)
Lemma write_states o path data perm sync fs :
  admissible o path fs →
  let r := write o path data perm sync fs in
  Forall (intact path data perm fs) r.2 ∧
  match r.1 with
  | Ok _ => ∀ q, after r fs !! q = if decide (q = path) then Some (MkFile data perm) else fs !! q
  | Err _ => after r fs !! path = fs !! path
  end.
Proof.
  unfold admissible, write. destruct (oc_create o) as [tmp|e]; [|intros _; simpl; split; [|done]; repeat constructor; by auto].
  intros [Hnew Hne]. set (fs1 := <[tmp := MkFile no_data temp_mode]> fs).
  assert (∀ d, set_data tmp d fs1 = <[tmp := MkFile d temp_mode]> fs) as Hdata.
  { intros d. unfold set_data, fs1. by rewrite alter_insert_eq. }
  assert (set_mode tmp perm (<[tmp := MkFile data temp_mode]> fs) = <[tmp := MkFile data perm]> fs) as Hmode.
  { unfold set_mode. by rewrite alter_insert_eq. }
  assert (∀ f, only_tmp tmp fs (<[tmp := f]> fs)) as Htmp by (left; eauto).
  assert (Forall (only_tmp tmp fs) [fs1; fs]) as Htr.
  { constructor; [apply Htmp|]. constructor; [by right|constructor]. }
  destruct (oc_write o) as [[n e]|]; rewrite Hdata; [by apply fail_intact|]. rewrite Hmode.
  destruct (if _ && _ then oc_sync o else None) as [e|]; [by apply fail_intact|].
  destruct (oc_close o) as [e|]; [by apply fail_intact|]. destruct (oc_chmod o) as [e|]; [by apply fail_intact|].
  destruct (oc_rename o) as [e|]; [apply fail_intact; [done..|by constructor]|].
  pose proof (rename_complete path data perm fs tmp Hnew) as Hren. simpl. split; [|done].
  constructor; [split; [right; by rewrite Hren, decide_True|]; intros q f Hq Hf; by rewrite Hren, decide_False|].
  eapply Forall_impl; [|apply (only_tmp_intact path data perm fs tmp Hnew Hne)]. do 2 (constructor; [apply Htmp|]). done.
Qed.


(** A write that fails leaves at most its temporary file. *)
Lemma write_failed o path data perm sync fs e : (write o path data perm sync fs).1 = Err e → admissible o path fs →
  after (write o path data perm sync fs) fs = fs ∨
  ∃ tmp, oc_create o = Ok tmp ∧ only_tmp tmp fs (after (write o path data perm sync fs) fs).
Proof.
  unfold admissible, write. destruct (oc_create o) as [tmp|e']; [|intros _ _; by left]. intros He [Hnew Hne]. right. exists tmp. split; [done|]. revert He.
  set (fs1 := <[tmp := MkFile no_data temp_mode]> fs).
  assert (∀ d, set_data tmp d fs1 = <[tmp := MkFile d temp_mode]> fs) as Hdata by (intros d; unfold set_data, fs1; by rewrite alter_insert_eq).
  assert (∀ f, only_tmp tmp fs (remove_tmp o tmp (<[tmp := f]> fs))) as Hrm by (intros f; apply remove_only; [done|]; left; eauto).
  destruct (oc_write o) as [[n e']|]; rewrite Hdata; [intros _; apply Hrm|]. destruct (if _ && _ then oc_sync o else None); [intros _; apply Hrm|].
  destruct (oc_close o); [intros _; apply Hrm|]. destruct (oc_chmod o); [intros _; apply Hrm|]. destruct (oc_rename o); [|intros [=]]. intros _. unfold set_mode. rewrite alter_insert_eq. apply Hrm.
Qed.

Lemma write_created o path data perm sync fs u : (write o path data perm sync fs).1 = Ok u → ∃ tmp, oc_create o = Ok tmp.
Proof. unfold write. destruct (oc_create o) as [tmp|e]; [eauto|done]. Qed.
End write.

(** C35: a write is atomic.  In every state that the file system goes through,
    also when a call fails half way, the target holds what it held before or the
    complete new content with its final mode, and no other existing file
    changes.  After a success the target holds the new content and the temporary
    file is gone; after an error the target is as before. *)
Theorem write_atomic {K : Type} `{Countable K} {D : Type} `{!Data D} (o : Outcomes K) path (data : D) perm sync fs :
  admissible o path fs →
  let r := write o path data perm sync fs in
  Forall (intact path data perm fs) r.2 ∧
  match r.1 with
  | Ok _ => ∀ q, after r fs !! q = if decide (q = path) then Some (MkFile data perm) else fs !! q
  | Err _ => after r fs !! path = fs !! path
  end.
Proof. apply write_states. Qed.

Module AtomicRun.
Definition disk : FileSystem := <["d/a"%string := MkFile "old" 420]> ∅.

(** The rename fails and the temporary file cannot be removed. *)
Definition stuck : Outcomes string := MkOutcomes (Ok "d/.tmp-1"%string) None None None None (Some "EIO"%string) (Some "EIO"%string).

Lemma write_atomic_witness :
  (write stuck "d/a" "new" 420 true disk).1 = Err "EIO"%string ∧
  after (write stuck "d/a" "new" 420 true disk) disk !! "d/a"%string = Some (MkFile "old" 420).
Proof.
  split; [reflexivity|].
  destruct (write_atomic stuck "d/a" "new" 420 true disk) as [_ H]; [split; [vm_compute; reflexivity|discriminate]|].
  change ((write stuck "d/a" "new" 420 true disk).1) with (Err "EIO"%string : result string unit) in H. rewrite H. reflexivity.
Defined.
End AtomicRun.
