(* ===== verification/TaskModel.v ===== *)
(** * internal/store/models.go: the task and its parts

    [Task] has the fields of the Go struct in their order ([Timeout] is
    [TaskTimeout] and [FailureCategory] is [TaskFailureCategory]).  Conventions:
    [int] is [Z]; [time.Time] is [Z], nanoseconds since Go's zero time, so [0]
    is [time.Time{}]; a pointer to a scalar is an [option]; a nil slice or map
    is the empty one, except [AutoRetryBudget], whose nil is told apart by the
    migration; status, kind and category are Go string types and stay strings,
    since a file on disk may hold any value.

    [github.com/google/uuid] is the class [UUIDLib]: identifiers, their text
    form and parser, with the one law the code relies on, that parsing the text
    form of an identifier gives it back. *)

From S2P Require Import Prelude StateMachine GoStrings PkgUtil.
From Stdlib Require Import String SpecFloat.
From stdpp Require Import list gmap.
Local Open Scope Z_scope.

(** ** float64 *)

Definition float64 := spec_float.
Definition f64_zero : float64 := S754_zero false.
Definition f64_add : float64 → float64 → float64 := SFadd 53 1024.
Definition f64_div : float64 → float64 → float64 := SFdiv 53 1024.
Definition f64_ltb : float64 → float64 → bool := SFltb.
Definition f64_of_Z (z : Z) : float64 := binary_normalize 53 1024 z 0 false.

(** [time.Time.Sub] saturates at the range of [time.Duration]. *)
Definition time_sub (a b : Z) : Z := Z.max (- 2 ^ 63) (Z.min (2 ^ 63 - 1) (a - b)).

(** [Duration.Seconds]; Go's division truncates. *)
Definition Seconds (d : Z) : float64 :=
  f64_add (f64_of_Z (Z.quot d 1000000000))
          (f64_div (f64_of_Z (Z.rem d 1000000000)) (f64_of_Z 1000000000)).

(** ** Identifiers *)

Class UUIDLib := {
  uuid : Type;
  uuid_eq_dec :: EqDecision uuid;
  uuid_countable :: Countable uuid;
  uuid_Parse : string → option uuid;
  uuid_String : uuid → string;
  uuid_Nil : uuid;
  uuid_Parse_String : ∀ u, uuid_Parse (uuid_String u) = Some u
}.

(** A concrete library for running the model: an identifier is its own text. *)
Definition text_uuid : UUIDLib := {|
  uuid := string; uuid_Parse := Some; uuid_String := λ u, u; uuid_Nil := EmptyString;
  uuid_Parse_String := λ _, eq_refl
|}.

(** ** Enumerations (Go string types) *)

Definition TaskStatus := string.
Definition TaskStatusBacklog : TaskStatus := "backlog"%string.
Definition TaskStatusInProgress : TaskStatus := "in_progress"%string.
Definition TaskStatusWaiting : TaskStatus := "waiting"%string.
Definition TaskStatusCommitting : TaskStatus := "committing"%string.
Definition TaskStatusDone : TaskStatus := "done"%string.
Definition TaskStatusFailed : TaskStatus := "failed"%string.
Definition TaskStatusCancelled : TaskStatus := "cancelled"%string.

Definition FailureCategory := string.
Definition FailureCategoryTimeout : FailureCategory := "timeout"%string.
Definition FailureCategoryBudget : FailureCategory := "budget_exceeded"%string.
Definition FailureCategoryWorktree : FailureCategory := "worktree_setup"%string.
Definition FailureCategoryContainerCrash : FailureCategory := "container_crash"%string.
Definition FailureCategoryAgentError : FailureCategory := "agent_error"%string.
Definition FailureCategorySyncError : FailureCategory := "sync_error"%string.
Definition FailureCategoryUnknown : FailureCategory := "unknown"%string.

Definition TaskKind := string.
Definition TaskKindTask : TaskKind := EmptyString.
Definition TaskKindPlanning : TaskKind := "planning"%string.
Definition TaskKindRoutine : TaskKind := "routine"%string.

Definition SandboxActivity := string.
Definition SandboxActivities : list SandboxActivity :=
  ["implementation"; "testing"; "refinement"; "title"; "oversight"; "commit_message"; "agent-session"]%string.

Definition RefinementJobStatusRunning : string := "running"%string.
Definition RefinementJobStatusDone : string := "done"%string.
Definition RefinementJobStatusFailed : string := "failed"%string.

(** [internal/harness]: the harnesses registered by the package's [init]s. *)
Definition harness_registry : list string :=
  ["pi"; "claude"; "cursor"; "topos"; "opencode"; "codex"]%string.

(** [internal/constants]. *)
Definition MaxAutoRetries : Z := 3.
Definition CurrentTaskSchemaVersion : Z := 2.
Definition MaxSearchResults : Z := 50.
Definition SnippetPadding : Z := 60.
Definition RefinementRecentCompleteWindow : Z := 500 * 1000000.

(** ** Parts of a task *)

Record TaskUsage := MkUsage {
  InputTokens : Z;
  OutputTokens : Z;
  CacheReadInputTokens : Z;
  CacheCreationTokens : Z;
  CostUSD : float64
}.

Definition zero_usage : TaskUsage := MkUsage 0 0 0 0 f64_zero.

(** [TaskUsage.Add]. *)
Definition usage_Add (u other : TaskUsage) : TaskUsage :=
  MkUsage (wrap64 (InputTokens u + InputTokens other))
          (wrap64 (OutputTokens u + OutputTokens other))
          (wrap64 (CacheReadInputTokens u + CacheReadInputTokens other))
          (wrap64 (CacheCreationTokens u + CacheCreationTokens other))
          (f64_add (CostUSD u) (CostUSD other)).

Record ExecutionEnvironment := MkEnv {
  ContainerImage : string;
  ContainerDigest : string;
  ModelName : string;
  APIBaseURL : string;
  env_Sandbox : string;
  RecordedAt : Z
}.

Record RefinementMessage := MkRefMsg { Role : string; Content : string; msg_CreatedAt : Z }.

Record RefinementSession := MkSession {
  sess_ID : string;
  sess_CreatedAt : Z;
  StartPrompt : string;
  Messages : list RefinementMessage;
  sess_Result : string;
  ResultPrompt : string
}.

Record RetryRecord := MkRetry {
  RetiredAt : Z;
  rr_Prompt : string;
  rr_Status : TaskStatus;
  rr_Result : string;
  rr_SessionID : string;
  rr_Turns : Z;
  rr_CostUSD : float64;
  rr_FailureCategory : FailureCategory
}.

Record RefinementJob := MkJob {
  job_ID : string;
  job_CreatedAt : Z;
  job_Status : string;
  job_Result : string;
  job_Error : string;
  job_Source : string
}.

(** ** Task *)

Section task.
Context `{UUIDLib}.

Record Task := MkTask {
  SchemaVersion : Z;
  ID : uuid;
  Title : string;
  Prompt : string;
  Criteria : string;
  PromptHistory : list string;
  RetryHistory : list RetryRecord;
  RefineSessions : list RefinementSession;
  CurrentRefinement : option RefinementJob;
  Status : TaskStatus;
  Archived : bool;
  SessionID : option string;
  FreshStart : bool;
  Result : option string;
  Lineage : option string;
  StopReason : option string;
  Turns : Z;
  TaskTimeout : Z;
  MaxCostUSD : float64;
  MaxInputTokens : Z;
  Usage : TaskUsage;
  Sandbox : string;
  SandboxByActivity : gmap string string;
  UsageBreakdown : gmap string TaskUsage;
  Environment : option ExecutionEnvironment;
  Position : Z;
  CreatedAt : Z;
  StartedAt : option Z;
  UpdatedAt : Z;
  CreatedBy : string;
  OrgID : string;
  WorktreePaths : gmap string string;
  BranchName : string;
  CommitHashes : gmap string string;
  BaseCommitHashes : gmap string string;
  SnapshotDiffs : gmap string string;
  CommitMessage : string;
  MountWorktrees : bool;
  Model : string;
  ModelOverride : option string;
  IsTestRun : bool;
  LastTestResult : string;
  TestRunStartTurn : Z;
  PendingTestFeedback : string;
  CustomPassPatterns : list string;
  CustomFailPatterns : list string;
  Kind : TaskKind;
  FlowID : string;
  Tags : list string;
  SpecSourcePath : string;
  ExecutionPrompt : string;
  DependsOn : list string;
  ScheduledAt : option Z;
  TaskFailureCategory : FailureCategory;
  TruncatedTurns : list Z;
  AutoRetryBudget : option (gmap FailureCategory Z);
  AutoRetryCount : Z;
  TestFailCount : Z;
  LastFetchError : string;
  LastFetchErrorAt : option Z;
  RoutineIntervalSeconds : Z;
  RoutineEnabled : bool;
  RoutineNextRun : option Z;
  RoutineLastFiredAt : option Z;
  RoutineSpawnKind : TaskKind;
  RoutineSpawnFlow : string;
  ReviewUnresolved : option Z;
  ReviewHeadline : string;
  ReviewSessionDir : string
}.

#[export] Instance eta_Task : Eta Task := λ t,
  MkTask (SchemaVersion t) (ID t) (Title t) (Prompt t) (Criteria t) (PromptHistory t) (RetryHistory
    t) (RefineSessions t) (CurrentRefinement t) (Status t) (Archived t) (SessionID t) (FreshStart t)
    (Result t) (Lineage t) (StopReason t) (Turns t) (TaskTimeout t) (MaxCostUSD t) (MaxInputTokens
    t) (Usage t) (Sandbox t) (SandboxByActivity t) (UsageBreakdown t) (Environment t) (Position t)
    (CreatedAt t) (StartedAt t) (UpdatedAt t) (CreatedBy t) (OrgID t) (WorktreePaths t) (BranchName
    t) (CommitHashes t) (BaseCommitHashes t) (SnapshotDiffs t) (CommitMessage t) (MountWorktrees t)
    (Model t) (ModelOverride t) (IsTestRun t) (LastTestResult t) (TestRunStartTurn t)
    (PendingTestFeedback t) (CustomPassPatterns t) (CustomFailPatterns t) (Kind t) (FlowID t) (Tags
    t) (SpecSourcePath t) (ExecutionPrompt t) (DependsOn t) (ScheduledAt t) (TaskFailureCategory t)
    (TruncatedTurns t) (AutoRetryBudget t) (AutoRetryCount t) (TestFailCount t) (LastFetchError t)
    (LastFetchErrorAt t) (RoutineIntervalSeconds t) (RoutineEnabled t) (RoutineNextRun t)
    (RoutineLastFiredAt t) (RoutineSpawnKind t) (RoutineSpawnFlow t) (ReviewUnresolved t)
    (ReviewHeadline t) (ReviewSessionDir t).

#[export] Instance set_SchemaVersion : Setter SchemaVersion. Proof. derive_setter. Defined.
#[export] Instance set_ID : Setter ID. Proof. derive_setter. Defined.
#[export] Instance set_Title : Setter Title. Proof. derive_setter. Defined.
#[export] Instance set_Prompt : Setter Prompt. Proof. derive_setter. Defined.
#[export] Instance set_Criteria : Setter Criteria. Proof. derive_setter. Defined.
#[export] Instance set_PromptHistory : Setter PromptHistory. Proof. derive_setter. Defined.
#[export] Instance set_RetryHistory : Setter RetryHistory. Proof. derive_setter. Defined.
#[export] Instance set_RefineSessions : Setter RefineSessions. Proof. derive_setter. Defined.
#[export] Instance set_CurrentRefinement : Setter CurrentRefinement. Proof. derive_setter. Defined.
#[export] Instance set_Status : Setter Status. Proof. derive_setter. Defined.
#[export] Instance set_Archived : Setter Archived. Proof. derive_setter. Defined.
#[export] Instance set_SessionID : Setter SessionID. Proof. derive_setter. Defined.
#[export] Instance set_FreshStart : Setter FreshStart. Proof. derive_setter. Defined.
#[export] Instance set_Result : Setter Result. Proof. derive_setter. Defined.
#[export] Instance set_Lineage : Setter Lineage. Proof. derive_setter. Defined.
#[export] Instance set_StopReason : Setter StopReason. Proof. derive_setter. Defined.
#[export] Instance set_Turns : Setter Turns. Proof. derive_setter. Defined.
#[export] Instance set_TaskTimeout : Setter TaskTimeout. Proof. derive_setter. Defined.
#[export] Instance set_MaxCostUSD : Setter MaxCostUSD. Proof. derive_setter. Defined.
#[export] Instance set_MaxInputTokens : Setter MaxInputTokens. Proof. derive_setter. Defined.
#[export] Instance set_Usage : Setter Usage. Proof. derive_setter. Defined.
#[export] Instance set_Sandbox : Setter Sandbox. Proof. derive_setter. Defined.
#[export] Instance set_SandboxByActivity : Setter SandboxByActivity. Proof. derive_setter. Defined.
#[export] Instance set_UsageBreakdown : Setter UsageBreakdown. Proof. derive_setter. Defined.
#[export] Instance set_Environment : Setter Environment. Proof. derive_setter. Defined.
#[export] Instance set_Position : Setter Position. Proof. derive_setter. Defined.
#[export] Instance set_CreatedAt : Setter CreatedAt. Proof. derive_setter. Defined.
#[export] Instance set_StartedAt : Setter StartedAt. Proof. derive_setter. Defined.
#[export] Instance set_UpdatedAt : Setter UpdatedAt. Proof. derive_setter. Defined.
#[export] Instance set_CreatedBy : Setter CreatedBy. Proof. derive_setter. Defined.
#[export] Instance set_OrgID : Setter OrgID. Proof. derive_setter. Defined.
#[export] Instance set_WorktreePaths : Setter WorktreePaths. Proof. derive_setter. Defined.
#[export] Instance set_BranchName : Setter BranchName. Proof. derive_setter. Defined.
#[export] Instance set_CommitHashes : Setter CommitHashes. Proof. derive_setter. Defined.
#[export] Instance set_BaseCommitHashes : Setter BaseCommitHashes. Proof. derive_setter. Defined.
#[export] Instance set_SnapshotDiffs : Setter SnapshotDiffs. Proof. derive_setter. Defined.
#[export] Instance set_CommitMessage : Setter CommitMessage. Proof. derive_setter. Defined.
#[export] Instance set_MountWorktrees : Setter MountWorktrees. Proof. derive_setter. Defined.
#[export] Instance set_Model : Setter Model. Proof. derive_setter. Defined.
#[export] Instance set_ModelOverride : Setter ModelOverride. Proof. derive_setter. Defined.
#[export] Instance set_IsTestRun : Setter IsTestRun. Proof. derive_setter. Defined.
#[export] Instance set_LastTestResult : Setter LastTestResult. Proof. derive_setter. Defined.
#[export] Instance set_TestRunStartTurn : Setter TestRunStartTurn. Proof. derive_setter. Defined.
#[export] Instance set_PendingTestFeedback : Setter PendingTestFeedback. Proof. derive_setter. Defined.
#[export] Instance set_CustomPassPatterns : Setter CustomPassPatterns. Proof. derive_setter. Defined.
#[export] Instance set_CustomFailPatterns : Setter CustomFailPatterns. Proof. derive_setter. Defined.
#[export] Instance set_Kind : Setter Kind. Proof. derive_setter. Defined.
#[export] Instance set_FlowID : Setter FlowID. Proof. derive_setter. Defined.
#[export] Instance set_Tags : Setter Tags. Proof. derive_setter. Defined.
#[export] Instance set_SpecSourcePath : Setter SpecSourcePath. Proof. derive_setter. Defined.
#[export] Instance set_ExecutionPrompt : Setter ExecutionPrompt. Proof. derive_setter. Defined.
#[export] Instance set_DependsOn : Setter DependsOn. Proof. derive_setter. Defined.
#[export] Instance set_ScheduledAt : Setter ScheduledAt. Proof. derive_setter. Defined.
#[export] Instance set_TaskFailureCategory : Setter TaskFailureCategory. Proof. derive_setter. Defined.
#[export] Instance set_TruncatedTurns : Setter TruncatedTurns. Proof. derive_setter. Defined.
#[export] Instance set_AutoRetryBudget : Setter AutoRetryBudget. Proof. derive_setter. Defined.
#[export] Instance set_AutoRetryCount : Setter AutoRetryCount. Proof. derive_setter. Defined.
#[export] Instance set_TestFailCount : Setter TestFailCount. Proof. derive_setter. Defined.
#[export] Instance set_LastFetchError : Setter LastFetchError. Proof. derive_setter. Defined.
#[export] Instance set_LastFetchErrorAt : Setter LastFetchErrorAt. Proof. derive_setter. Defined.
#[export] Instance set_RoutineIntervalSeconds : Setter RoutineIntervalSeconds. Proof. derive_setter. Defined.
#[export] Instance set_RoutineEnabled : Setter RoutineEnabled. Proof. derive_setter. Defined.
#[export] Instance set_RoutineNextRun : Setter RoutineNextRun. Proof. derive_setter. Defined.
#[export] Instance set_RoutineLastFiredAt : Setter RoutineLastFiredAt. Proof. derive_setter. Defined.
#[export] Instance set_RoutineSpawnKind : Setter RoutineSpawnKind. Proof. derive_setter. Defined.
#[export] Instance set_RoutineSpawnFlow : Setter RoutineSpawnFlow. Proof. derive_setter. Defined.
#[export] Instance set_ReviewUnresolved : Setter ReviewUnresolved. Proof. derive_setter. Defined.
#[export] Instance set_ReviewHeadline : Setter ReviewHeadline. Proof. derive_setter. Defined.
#[export] Instance set_ReviewSessionDir : Setter ReviewSessionDir. Proof. derive_setter. Defined.

(** The zero [Task{}]. *)
Definition zero_Task : Task :=
    MkTask 0 uuid_Nil EmptyString EmptyString EmptyString [] [] [] None EmptyString false None false
    None None None 0 0 f64_zero 0 zero_usage EmptyString ∅ ∅ None 0 0 None 0 EmptyString EmptyString
    ∅ EmptyString ∅ ∅ ∅ EmptyString false EmptyString None false EmptyString 0 EmptyString [] []
    EmptyString EmptyString [] EmptyString EmptyString [] None EmptyString [] None 0 0 EmptyString
    None 0 false None None EmptyString EmptyString None EmptyString EmptyString.

(** *** Status machine *)

Definition TaskMachine : Machine TaskStatus := New (list_to_map [
  (TaskStatusBacklog, [TaskStatusInProgress]);
  (TaskStatusInProgress, [TaskStatusBacklog; TaskStatusWaiting; TaskStatusFailed; TaskStatusCancelled]);
  (TaskStatusCommitting, [TaskStatusDone; TaskStatusFailed]);
  (TaskStatusWaiting, [TaskStatusInProgress; TaskStatusCommitting; TaskStatusCancelled]);
  (TaskStatusFailed, [TaskStatusBacklog; TaskStatusCancelled]);
  (TaskStatusDone, [TaskStatusCancelled]);
  (TaskStatusCancelled, [TaskStatusBacklog])]).

Definition CanTransitionTo (s next : TaskStatus) : bool := CanTransition TaskMachine s next.
Definition AllowedTransitions (s : TaskStatus) : list TaskStatus := Allowed TaskMachine s.

Definition isTerminalStatus (status : TaskStatus) : bool :=
  bool_decide (status ∈ [TaskStatusDone; TaskStatusFailed; TaskStatusCancelled]).

(** *** Predicates and small helpers *)

Definition HasTag (t : Task) (tag : string) : bool := bool_decide (tag ∈ Tags t).
Definition IsRoutine (t : Task) : bool := bool_decide (Kind t = TaskKindRoutine).

(** Reading an absent key of a nil or non-nil map yields [0]. *)
Definition budget_of (t : Task) (category : FailureCategory) : Z :=
  default 0 (default ∅ (AutoRetryBudget t) !! category).

Definition IsAutoRetryEligible (t : Task) (category : FailureCategory) : bool :=
  Z.ltb 0 (budget_of t category) && Z.ltb (AutoRetryCount t) MaxAutoRetries.

Definition defaultAutoRetryBudget : gmap FailureCategory Z := list_to_map [
  (FailureCategoryContainerCrash, 2); (FailureCategorySyncError, 2); (FailureCategoryWorktree, 1)].

Definition ParseFailureCategory (raw : string) : FailureCategory * bool :=
  let category := TrimSpace raw in
  if bool_decide (category ∈ [FailureCategoryTimeout; FailureCategoryBudget; FailureCategoryWorktree;
       FailureCategoryContainerCrash; FailureCategoryAgentError; FailureCategorySyncError;
       FailureCategoryUnknown])
  then (category, true) else (EmptyString, false).

Definition clampTimeout (v : Z) : Z :=
  if Z.leb v 0 then 60 else if Z.ltb 1440 v then 1440 else v.

(** [harness.NormalizeID] and [harness.ParseID]. *)
Definition NormalizeID (tbl : Z → Z) (value : string) : string := ToLower tbl (TrimSpace value).

Definition ParseID (tbl : Z → Z) (value : string) : string * bool :=
  let id := NormalizeID tbl value in
  if bool_decide (id ∈ harness_registry) then (id, true) else (EmptyString, false).

(** The loop of [normalizeSandboxByActivity], in the map's iteration order. *)
Definition normalizeSandboxByActivity (tbl : Z → Z) (order : list string) (input : gmap string string)
  : gmap string string :=
  foldl (λ out k,
    let key := ToLower tbl (TrimSpace k) in
    if bool_decide (key ∈ SandboxActivities) then
      let '(val, ok) := ParseID tbl (default EmptyString (input !! k)) in
      if ok then <[key := val]> out else out
    else out) ∅ order.

(** *** Migration of a task read from disk *)

Fixpoint canonicalize_loop (deps : list string) (seen : gset uuid) (out : list string) : list string :=
  match deps with
  | [] => out
  | dep :: rest =>
    match uuid_Parse (TrimSpace dep) with
    | None => canonicalize_loop rest seen out
    | Some id =>
      if decide (id ∈ seen) then canonicalize_loop rest seen out
      else canonicalize_loop rest ({[id]} ∪ seen) (out ++ [uuid_String id])
    end
  end.

Definition string_le (a b : string) : Prop := string_leb a b = true.

#[export] Instance string_le_dec : RelDecision string_le.
Proof. intros a b. unfold string_le. apply _. Defined.

Definition canonicalizeDependsOn (deps : list string) : list string :=
  merge_sort string_le (canonicalize_loop deps ∅ []).

(** One migration step: the task and whether anything changed so far. *)
Definition mig (cond : bool) (f : Task → Task) (tc : Task * bool) : Task * bool :=
  if cond then (f tc.1, true) else tc.

(** The part of [migrateTaskJSON] after [json.Unmarshal].  The first step
    stores [&task.Model] and then clears the field it points to. *)
Definition migrate (tbl : Z → Z) (order : list string) (fileModTime : Z) (task : Task) : Task * bool :=
  let tc := (task, false) in
  let tc := mig (negb (bool_decide (Model tc.1 = EmptyString)) && bool_decide (ModelOverride tc.1 = None))
              (λ t, t <| ModelOverride := Some EmptyString |> <| Model := EmptyString |>) tc in
  let tc := mig (bool_decide (Status tc.1 = EmptyString)) (λ t, t <| Status := TaskStatusBacklog |>) tc in
  let tc := mig (Z.eqb (TaskTimeout tc.1) 0) (λ t, t <| TaskTimeout := clampTimeout 0 |>) tc in
  let tc := mig (Z.eqb (CreatedAt tc.1) 0) (λ t, t <| CreatedAt := fileModTime |>) tc in
  let tc := mig (Z.eqb (UpdatedAt tc.1) 0) (λ t, t <| UpdatedAt := fileModTime |>) tc in
  let tc := mig (negb (bool_decide (DependsOn tc.1 = [])) &&
                 negb (bool_decide (canonicalizeDependsOn (DependsOn tc.1) = DependsOn tc.1)))
              (λ t, t <| DependsOn := canonicalizeDependsOn (DependsOn t) |>) tc in
  let tc := mig (negb (bool_decide (NormalizeID tbl (Sandbox tc.1) = Sandbox tc.1)))
              (λ t, t <| Sandbox := NormalizeID tbl (Sandbox t) |>) tc in
  let tc := mig (negb (bool_decide (normalizeSandboxByActivity tbl order (SandboxByActivity tc.1)
                                     = SandboxByActivity tc.1)))
              (λ t, t <| SandboxByActivity := normalizeSandboxByActivity tbl order (SandboxByActivity t) |>) tc in
  let tc := mig (bool_decide (AutoRetryBudget tc.1 = None))
              (λ t, t <| AutoRetryBudget := Some defaultAutoRetryBudget |>) tc in
  mig (negb (Z.eqb (SchemaVersion tc.1) CurrentTaskSchemaVersion))
    (λ t, t <| SchemaVersion := CurrentTaskSchemaVersion |>) tc.

(** *** Oversight, tombstones, summaries, events *)

Record OversightPhase := MkPhase {
  ph_Timestamp : Z;
  ph_Title : string;
  ph_Summary : string;
  ToolsUsed : list string;
  Commands : list string;
  Actions : list string
}.

Definition OversightStatusPending : string := "pending"%string.

Record TaskOversight := MkOversight {
  ov_Status : string;
  GeneratedAt : Z;
  ov_Error : string;
  Phases : list OversightPhase
}.

Record Tombstone := MkTombstone { DeletedAt : Z; Reason : string }.

Record TaskSummary := MkSummary {
  sum_TaskID : uuid;
  sum_Title : string;
  sum_Status : TaskStatus;
  CompletedAt : Z;
  sum_CreatedAt : Z;
  DurationSeconds : float64;
  ExecutionDurationSeconds : float64;
  TotalTurns : Z;
  TotalCostUSD : float64;
  ByActivity : gmap string TaskUsage;
  TestResult : string;
  PhaseCount : Z;
  sum_FailureCategory : FailureCategory
}.

Definition EventType := string.
Definition EventTypeSpanStart : EventType := "span_start"%string.
Definition EventTypeSpanEnd : EventType := "span_end"%string.

(** [Data] is the marshalled payload. *)
Record TaskEvent := MkEvent {
  ev_ID : Z;
  ev_TaskID : uuid;
  ev_EventType : EventType;
  ev_Data : string;
  ev_CreatedAt : Z;
  ActorSub : string;
  ActorType : string
}.

(** A change notification; for a deletion only [Task.ID] is set. *)
Record TaskDelta := MkDelta { delta_Task : Task; Deleted : bool }.
End task.
