(* ===== verification/Backend.v ===== *)
(** * internal/store/backend.go: the storage interface

    [StorageBackend] is the Go interface as a class: its operations take the
    backend and return a result and the backend after the call, and its laws
    say, in terms of the contents [view], what each documented operation
    promises the store.  A write that fails leaves the contents as they were
    (the writes are atomic); a read never changes them; removing a task may fail
    halfway, but touches no other task.  [healthy] means that no operation of
    the backend fails from now on; reads answer from the contents when it holds.
    An event is appended after all the others of its task, and a compaction must
    reach at least as far as the one before it.  FsBackendSpec shows that the
    file system backend keeps these promises.

    JSON documents are represented by the value they encode; bytes that are not
    such a document are [BlobRaw].

    [MemBackend] is the reference implementation, with a schedule of injected
    faults; the store's theorems are proved from the laws and run on it. *)

From S2P Require Import Prelude GoStrings TaskModel.
From Stdlib Require Import String.
From stdpp Require Import list gmap.
Local Open Scope Z_scope.

Inductive io_error := ErrNotExist | ErrIO (code : Z).

#[export] Instance io_error_eq_dec : EqDecision io_error.
Proof. solve_decision. Defined.

Section backend.
Context `{UUIDLib}.

Inductive blob :=
| BlobRaw (data : list Z)
| BlobTombstone (t : Tombstone)
| BlobOversight (o : TaskOversight)
| BlobSummary (s : TaskSummary).

(** What a backend holds: task records, events by sequence number, blobs. *)
Record contents := Contents {
  c_tasks : gmap uuid Task;
  c_events : gmap uuid (gmap Z TaskEvent);
  c_blobs : gmap (uuid * string) blob
}.

Definition events_at (c : contents) (id : uuid) : gmap Z TaskEvent := default ∅ (c_events c !! id).

Definition put_task (t : Task) (c : contents) : contents :=
  Contents (<[ID t := t]> (c_tasks c)) (c_events c) (c_blobs c).
Definition put_event (id : uuid) (seq : Z) (e : TaskEvent) (c : contents) : contents :=
  Contents (c_tasks c) (<[id := <[seq := e]> (events_at c id)]> (c_events c)) (c_blobs c).
Definition put_blob (id : uuid) (key : string) (b : blob) (c : contents) : contents :=
  Contents (c_tasks c) (c_events c) (<[(id, key) := b]> (c_blobs c)).
Definition del_blob (id : uuid) (key : string) (c : contents) : contents :=
  Contents (c_tasks c) (c_events c) (delete (id, key) (c_blobs c)).
Definition del_task (id : uuid) (c : contents) : contents :=
  Contents (delete id (c_tasks c)) (delete id (c_events c)) (filter (λ kv, kv.1.1 ≠ id) (c_blobs c)).

(** Two contents that agree on every task but [id]. *)
Definition agree_except (id : uuid) (c c' : contents) : Prop :=
  (∀ id', id' ≠ id → c_tasks c' !! id' = c_tasks c !! id') ∧
  (∀ id', id' ≠ id → c_events c' !! id' = c_events c !! id') ∧
  (∀ id' k, id' ≠ id → c_blobs c' !! (id', k) = c_blobs c !! (id', k)).

Definition seq_le (a b : Z * TaskEvent) : Prop := a.1 <= b.1.

#[export] Instance seq_le_dec : RelDecision seq_le.
Proof. intros a b. unfold seq_le. apply _. Defined.

(** The stored events in the order of their sequence numbers. *)
Definition sorted_events (m : gmap Z TaskEvent) : list TaskEvent :=
  (merge_sort seq_le (map_to_list m)).*2.

Definition max_seq (m : gmap Z TaskEvent) : Z := foldr Z.max 0 (map_to_list m).*1.

Class StorageBackend (B : Type) := {
  view : B → contents;
  healthy : B → Prop;
  (** [reloads t t']: a saved [t] comes back from [LoadAll] as [t']. *)
  reloads : Task → Task → Prop;
  (** The events of a task up to this number are in compact form. *)
  covered : B → uuid → Z;

  be_Init : uuid → B → result io_error unit * B;
  be_LoadAll : B → result io_error (list Task) * B;
  be_SaveTask : Task → B → result io_error unit * B;
  be_RemoveTask : uuid → B → result io_error unit * B;
  be_SaveEvent : uuid → Z → TaskEvent → B → result io_error unit * B;
  be_LoadEvents : uuid → B → result io_error (list TaskEvent * Z) * B;
  be_CompactEvents : uuid → list TaskEvent → B → result io_error unit * B;
  be_SaveBlob : uuid → string → blob → B → result io_error unit * B;
  be_ReadBlob : uuid → string → B → result io_error blob * B;
  be_DeleteBlob : uuid → string → B → result io_error unit * B;
  be_ListBlobOwners : string → B → result io_error (list uuid) * B;

  init_law : ∀ id b r b', be_Init id b = (r, b') →
    view b' = view b ∧ (healthy b → is_ok r = true ∧ healthy b');
  load_all_view : ∀ b r b', be_LoadAll b = (r, b') →
    ∀ id, c_events (view b') !! id = c_events (view b) !! id ∧
      ∀ k, c_blobs (view b') !! (id, k) = c_blobs (view b) !! (id, k);
  load_all_NoDup : ∀ b ts b', (∀ id t, c_tasks (view b) !! id = Some t → ID t = id) →
    be_LoadAll b = (Ok ts, b') → NoDup (ID <$> ts);
  load_all_law : ∀ b, healthy b → (∀ id t, c_tasks (view b) !! id = Some t → ID t = id) → ∃ ts b', be_LoadAll b = (Ok ts, b') ∧ healthy b' ∧
    (∀ t', t' ∈ ts → ∃ t, c_tasks (view b) !! ID t' = Some t ∧ reloads t t') ∧
    (∀ id t, c_tasks (view b) !! id = Some t →
       ∃ t', t' ∈ ts ∧ ID t' = id ∧ reloads t t' ∧ c_tasks (view b') !! id = Some t') ∧
    (∀ id, c_tasks (view b) !! id = None → c_tasks (view b') !! id = None);
  save_task_law : ∀ t b r b', be_SaveTask t b = (r, b') →
    view b' = (if is_ok r then put_task t (view b) else view b) ∧
    (healthy b → is_ok r = true ∧ healthy b');
  remove_task_law : ∀ id b r b', be_RemoveTask id b = (r, b') →
    (if is_ok r then view b' = del_task id (view b) else agree_except id (view b) (view b')) ∧
    (healthy b → is_ok r = true ∧ healthy b');
  save_event_law : ∀ id seq e b r b', be_SaveEvent id seq e b = (r, b') →
    c_tasks (view b') = c_tasks (view b) ∧ c_blobs (view b') = c_blobs (view b) ∧
    (max_seq (events_at (view b) id) < seq → view b' = (if is_ok r then put_event id seq e (view b) else view b)) ∧
    (healthy b → is_ok r = true ∧ healthy b');
  load_events_law : ∀ id b r b', be_LoadEvents id b = (r, b') →
    view b' = view b ∧
    (healthy b → r = Ok (sorted_events (events_at (view b) id), max_seq (events_at (view b) id)) ∧ healthy b');
  compact_law : ∀ id evs b r b', be_CompactEvents id evs b = (r, b') →
    c_tasks (view b') = c_tasks (view b) ∧ c_blobs (view b') = c_blobs (view b) ∧
    (∀ id', id' ≠ id → events_at (view b') id' = events_at (view b) id') ∧
    (∀ m, covered b id <= m → evs = sorted_events (filter (λ kv, kv.1 <= m) (events_at (view b) id)) → view b' = view b) ∧
    (healthy b → healthy b');
  save_blob_law : ∀ id k d b r b', be_SaveBlob id k d b = (r, b') →
    view b' = (if is_ok r then put_blob id k d (view b) else view b) ∧
    (healthy b → is_ok r = true ∧ healthy b');
  read_blob_law : ∀ id k b r b', be_ReadBlob id k b = (r, b') →
    view b' = view b ∧
    match r with
    | Ok d => c_blobs (view b) !! (id, k) = Some d
    | Err ErrNotExist => c_blobs (view b) !! (id, k) = None
    | Err (ErrIO _) => ¬ healthy b
    end ∧
    (healthy b → healthy b');
  delete_blob_law : ∀ id k b r b', be_DeleteBlob id k b = (r, b') →
    match r with
    | Ok _ => view b' = del_blob id k (view b)
    | Err ErrNotExist => view b' = view b ∧ c_blobs (view b) !! (id, k) = None
    | Err (ErrIO _) => view b' = view b ∧ ¬ healthy b
    end ∧
    (healthy b → healthy b');
  list_owners_law : ∀ k b r b', be_ListBlobOwners k b = (r, b') →
    view b' = view b ∧
    (healthy b → ∃ ids, r = Ok ids ∧ NoDup ids ∧ (∀ id, id ∈ ids ↔ is_Some (c_blobs (view b) !! (id, k))) ∧ healthy b')
}.
End backend.

(** ** The reference backend: a map with a schedule of faults *)

Section mem_backend.
Context `{UUIDLib}.

Record MemBackend := Mem { m_contents : contents; m_faults : list bool }.

(** Run [f] on the contents unless the schedule says that this call fails. *)
Definition faulty {A} (f : contents → result io_error A * contents) (m : MemBackend)
  : result io_error A * MemBackend :=
  match m_faults m with
  | true :: fs => (Err (ErrIO 5), Mem (m_contents m) fs)
  | fs => let '(r, c) := f (m_contents m) in (r, Mem c (tail fs))
  end.

Definition mem_healthy (m : MemBackend) : Prop := Forall (λ b, b = false) (m_faults m).

Definition owners (k : string) (c : contents) : list uuid :=
  (filter (λ kv : uuid * string * blob, kv.1.2 = k) (map_to_list (c_blobs c))).*1.*1.

Lemma faulty_cases {A} (f : contents → result io_error A * contents) m r m' :
  faulty f m = (r, m') →
  (∃ fs, m_faults m = true :: fs ∧ r = Err (ErrIO 5) ∧ m_contents m' = m_contents m) ∨
  (∃ c, f (m_contents m) = (r, c) ∧ m_contents m' = c ∧ (mem_healthy m → mem_healthy m')).
Proof.
  unfold faulty, mem_healthy. destruct (m_faults m) as [|[] fs] eqn:E.
  - destruct (f (m_contents m)) as [r0 c] eqn:Ef. intros [= <- <-]. right. exists c. split_and!; done.
  - intros [= <- <-]. left. eauto.
  - destruct (f (m_contents m)) as [r0 c] eqn:Ef. intros [= <- <-]. right. exists c. split_and!; [done..|].
    simpl. by intros [_ ?]%Forall_cons.
Qed.

Lemma not_healthy m fs : m_faults m = true :: fs → ¬ mem_healthy m.
Proof. unfold mem_healthy. intros ->. by intros [? _]%Forall_cons. Qed.

Definition always {A} (a : A) (f : contents → contents) (c : contents) : result io_error A * contents :=
  (Ok a, f c).

Lemma faulty_put {A} (a : A) (f : contents → contents) m r m' :
  faulty (always a f) m = (r, m') →
  m_contents m' = (if is_ok r then f (m_contents m) else m_contents m) ∧
  (mem_healthy m → is_ok r = true ∧ mem_healthy m').
Proof.
  intros [(fs & Hf & -> & ->)|(c & [= <- <-] & -> & Hh)]%faulty_cases; simpl; split; auto.
  intros Hh. by apply not_healthy in Hf.
Qed.

Lemma faulty_get {A} (g : contents → A) m r m' :
  faulty (λ c, (Ok (g c), c)) m = (r, m') →
  m_contents m' = m_contents m ∧ (∀ a, r = Ok a → a = g (m_contents m)) ∧
  (mem_healthy m → is_ok r = true ∧ mem_healthy m').
Proof.
  intros [(fs & Hf & -> & ->)|(c & [= <- <-] & -> & Hh)]%faulty_cases; simpl; split_and!; try done; auto.
  - intros Hh. by apply not_healthy in Hf.
  - by intros a [= <-].
Qed.

Lemma owners_spec k c id : id ∈ owners k c ↔ is_Some (c_blobs c !! (id, k)).
Proof.
  unfold owners. rewrite list_elem_of_fmap. split.
  - intros ((? & k') & -> & ((p & d) & Hp & [Hk Hin]%list_elem_of_filter)%list_elem_of_fmap).
    simpl in *. subst. apply elem_of_map_to_list in Hin. eauto.
  - intros [d Hd]. exists (id, k). split; [done|]. apply list_elem_of_fmap. exists (id, k, d).
    split; [done|]. apply list_elem_of_filter. split; [done|]. by apply elem_of_map_to_list.
Qed.

Lemma owners_NoDup k c : NoDup (owners k c).
Proof.
  unfold owners. apply NoDup_fmap_2_strong.
  - intros [id1 k1] [id2 k2] ((p1 & d1) & Hp1 & [Hk1 _]%list_elem_of_filter)%list_elem_of_fmap
      ((p2 & d2) & Hp2 & [Hk2 _]%list_elem_of_filter)%list_elem_of_fmap. simpl. naive_solver.
  - apply (sublist_NoDup _ (map_to_list (c_blobs c)).*1); [apply NoDup_fst_map_to_list|].
    apply fmap_sublist, sublist_filter.
Qed.

Lemma values_NoDup (m : gmap uuid Task) :
  (∀ id t, m !! id = Some t → ID t = id) → NoDup (ID <$> (map_to_list m).*2).
Proof.
  intros Hid. rewrite <- list_fmap_compose.
  assert ((ID ∘ snd <$> map_to_list m) = (map_to_list m).*1) as ->; [|apply NoDup_fst_map_to_list].
  apply list_fmap_ext. intros i [id t] Hi. simpl. apply Hid, elem_of_map_to_list. by eapply list_elem_of_lookup_2.
Qed.

Lemma values_elem (m : gmap uuid Task) t : t ∈ (map_to_list m).*2 ↔ ∃ id, m !! id = Some t.
Proof.
  rewrite list_elem_of_fmap. split.
  - intros ([id t'] & -> & ?%elem_of_map_to_list). eauto.
  - intros [id Ht]. exists (id, t). split; [done|]. by apply elem_of_map_to_list.
Qed.

#[export, refine] Instance MemBackend_backend : StorageBackend MemBackend := {|
  view := m_contents;
  healthy := mem_healthy;
  reloads := eq;
  covered _ _ := 0;
  be_Init := λ _, faulty (always tt id);
  be_LoadAll := faulty (λ c, (Ok (map_to_list (c_tasks c)).*2, c));
  be_SaveTask := λ t, faulty (always tt (put_task t));
  be_RemoveTask := λ id, faulty (always tt (del_task id));
  be_SaveEvent := λ id seq e, faulty (always tt (put_event id seq e));
  be_LoadEvents := λ id, faulty (λ c, (Ok (sorted_events (events_at c id), max_seq (events_at c id)), c));
  be_CompactEvents := λ _ _, faulty (always tt id);
  be_SaveBlob := λ id k d, faulty (always tt (put_blob id k d));
  be_ReadBlob := λ id k, faulty (λ c, (match c_blobs c !! (id, k) with Some d => Ok d | None => Err ErrNotExist end, c));
  be_DeleteBlob := λ id k, faulty (λ c, match c_blobs c !! (id, k) with
                     | Some _ => (Ok tt, del_blob id k c) | None => (Err ErrNotExist, c) end);
  be_ListBlobOwners := λ k, faulty (λ c, (Ok (owners k c), c))
|}.
Proof.
  - intros id b r b' [Hv Hh]%faulty_put. split; [by destruct r|done].
  - intros b r b' (-> & _)%faulty_get id. done.
  - intros b ts b' Hid (_ & Ha & _)%faulty_get. rewrite (Ha _ eq_refl). by apply values_NoDup.
  - intros b Hh Hid. destruct (faulty _ b) as [r b'] eqn:E.
    apply faulty_get in E as (Hv & Ha & Hok). destruct (Hok Hh) as [Hr Hh'].
    destruct r as [ts|e]; [|done]. specialize (Ha _ eq_refl) as ->.
    eexists _, b'. split; [done|]. split_and!; [done| | |by rewrite Hv].
    + intros t' [id Ht]%values_elem. exists t'. by rewrite (Hid _ _ Ht).
    + intros id t Ht. exists t. rewrite Hv. split_and!; [apply values_elem; eauto|by eapply Hid|done..].
  - intros t b r b' ?%faulty_put. done.
  - intros id b r b' [Hv Hh]%faulty_put. split; [|done]. destruct r; simpl in *; [done|]. rewrite Hv. by split_and!.
  - intros id seq e b r b' [Hv Hh]%faulty_put. rewrite Hv. by destruct r.
  - intros id b r b' (Hv & Ha & Hh)%faulty_get. split; [done|]. intros [Hr Hb]%Hh. split; [|done].
    destruct r as [x|]; [|done]. by rewrite (Ha _ eq_refl).
  - intros id evs b r b' [Hv Hh]%faulty_put. assert (m_contents b' = m_contents b) as -> by (by destruct r).
    split_and!; [done..|]. intros Hb. by apply Hh.
  - intros id k d b r b' ?%faulty_put. done.
  - intros id k b r b' [(fs & Hf & -> & Hv)|(c & Hc & Hv & Hh)]%faulty_cases.
    + split_and!; [done|by eapply not_healthy|]. intros Hh. by apply not_healthy in Hf.
    + simplify_eq. split_and!; [done| |done]. by destruct (c_blobs _ !! _).
  - intros id k b r b' [(fs & Hf & -> & Hv)|(c & Hc & Hv & Hh)]%faulty_cases.
    + split; [split; [done|by eapply not_healthy]|]. intros Hh. by apply not_healthy in Hf.
    + destruct (c_blobs _ !! _) eqn:Eb; simplify_eq; by split.
  - intros k b r b' (Hv & Ha & Hh)%faulty_get. split; [done|]. intros [Hr Hb]%Hh. destruct r as [ids|]; [|done].
    exists ids. split; [done|]. rewrite (Ha _ eq_refl). split; [apply owners_NoDup|]. split; [intros id; apply owners_spec|done].
Defined.
End mem_backend.
