(* ===== verification/Store.v ===== *)
(** * internal/store: the task database (state, persistence, status, lifecycle)

    The state of [Store] (store.go) and the operations that load, save, notify,
    create, delete, restore, purge and change the status of tasks, and those
    that record events and oversight: store.go, io.go, events.go, oversight.go,
    subscribe.go, tasks_create_delete.go and the status part of
    tasks_update.go.  The field setters are in [StoreUpdate].

    An operation is a function of the state in the monad [M]: a result, with
    the errors the code returns, and the state after, which an error does not
    roll back.  Each lock section runs atomically.  Clock readings and fresh
    identifiers are arguments.  The hub is the list [deltas] of the values
    passed to its [Publish], in order ([PubSub] proves what the hub does with
    them); background compactions are the queue [compactions], executed by
    [compactTaskEvents]. *)

From S2P Require Import Prelude StateMachine GoStrings PkgUtil TaskModel Backend.
From Stdlib Require Import String.
From stdpp Require Import list gmap pretty.
Local Open Scope Z_scope.

Section state.
Context `{UUIDLib} {B : Type}.

(** ** State *)

Record indexedTaskText := MkIndexed {
  ix_title : string;
  ix_prompt : string;
  ix_tags : string;
  ix_oversight : string;
  ix_oversightRaw : string
}.

Record Store := MkStore {
  backend : B;
  closed : bool;
  tasks : gmap uuid Task;
  deleted : gmap uuid Task;
  events : gmap uuid (list TaskEvent);
  nextSeq : gmap uuid Z;
  tasksByStatus : gmap TaskStatus (gset uuid);
  searchIndex : gmap uuid indexedTaskText;
  deltas : list TaskDelta;
  retryHistoryLimit : Z;
  refineSessionsLimit : Z;
  promptHistoryLimit : Z;
  maxTurnOutputBytes : Z;
  compactions : list (uuid * Z);
  eventsLoaded : gmap uuid bool;
  OnDone : bool;
  doneCalls : list Task
}.

#[export] Instance eta_Store : Eta Store := λ s, MkStore (backend s) (closed s) (tasks s) (deleted s)
  (events s) (nextSeq s) (tasksByStatus s) (searchIndex s) (deltas s) (retryHistoryLimit s)
  (refineSessionsLimit s) (promptHistoryLimit s) (maxTurnOutputBytes s) (compactions s)
  (eventsLoaded s) (OnDone s) (doneCalls s).
#[export] Instance set_backend : Setter backend. Proof. derive_setter. Defined.
#[export] Instance set_closed : Setter closed. Proof. derive_setter. Defined.
#[export] Instance set_tasks : Setter tasks. Proof. derive_setter. Defined.
#[export] Instance set_deleted : Setter deleted. Proof. derive_setter. Defined.
#[export] Instance set_events : Setter events. Proof. derive_setter. Defined.
#[export] Instance set_nextSeq : Setter nextSeq. Proof. derive_setter. Defined.
#[export] Instance set_tasksByStatus : Setter tasksByStatus. Proof. derive_setter. Defined.
#[export] Instance set_searchIndex : Setter searchIndex. Proof. derive_setter. Defined.
#[export] Instance set_deltas : Setter deltas. Proof. derive_setter. Defined.
#[export] Instance set_compactions : Setter compactions. Proof. derive_setter. Defined.
#[export] Instance set_eventsLoaded : Setter eventsLoaded. Proof. derive_setter. Defined.
#[export] Instance set_doneCalls : Setter doneCalls. Proof. derive_setter. Defined.

(** ** Errors and the monad *)

Inductive store_error :=
| ErrTaskNotFound (id : uuid)
| ErrDeletedTaskNotFound (id : uuid)
| ErrNoTombstonedTask (id : uuid)
| ErrTransition (from to : TaskStatus)
| ErrBackend (e : io_error)
| ErrMarshal
| ErrParse
| ErrNotRoutine (id : uuid)
| ErrPromptStatus (s : TaskStatus)
| ErrRefinementAlreadyRunning.

Definition M (A : Type) : Type := Store → result store_error A * Store.

Definition ret {A} (a : A) : M A := λ s, (Ok a, s).
Definition throw {A} (e : store_error) : M A := λ s, (Err e, s).
Definition bind {A C} (m : M A) (k : A → M C) : M C := λ s,
  match m s with
  | (Ok a, s') => k a s'
  | (Err e, s') => (Err e, s')
  end.
Definition gets {A} (f : Store → A) : M A := λ s, (Ok (f s), s).
Definition modify (f : Store → Store) : M unit := λ s, (Ok tt, f s).

(** A backend call whose error the code returns, and one it inspects. *)
Definition call {A} (f : B → result io_error A * B) : M A := λ s,
  match f (backend s) with
  | (Ok a, b) => (Ok a, s <| backend := b |>)
  | (Err e, b) => (Err (ErrBackend e), s <| backend := b |>)
  end.
Definition attempt {A} (f : B → result io_error A * B) : M (result io_error A) := λ s,
  let '(r, b) := f (backend s) in (Ok r, s <| backend := b |>).

(** An error that the code logs and drops. *)
Definition ignore {A} (m : M A) : M unit := λ s, (Ok tt, (m s).2).


#[export] Instance M_ret : MRet M := λ A, ret.
#[export] Instance M_bind : MBind M := λ A C k m, bind m k.
End state.
Arguments Store {_} B.

Section store.
Context `{UUIDLib} {B : Type} `{!StorageBackend B} (tbl : Z → Z).
Abbreviation Store := (Store B).
Abbreviation M := (M (B:=B)).

Definition buildIndexEntry (t : Task) (oversightRaw : string) : indexedTaskText :=
  MkIndexed (ToLower tbl (Title t)) (ToLower tbl (Prompt t))
            (ToLower tbl (strings_Join (Tags t) " "%string)) (ToLower tbl oversightRaw) oversightRaw.

Fixpoint iterM {A} (f : A → M unit) (l : list A) : M unit :=
  match l with
  | [] => mret tt
  | x :: rest => f x ;; iterM f rest
  end.

(** [t, ok := s.tasks[id]; if !ok { return "task not found" }]. *)
Definition find_task (id : uuid) : M Task := λ s,
  match tasks s !! id with
  | Some t => (Ok t, s)
  | None => (Err (ErrTaskNotFound id), s)
  end.

(** ** Status index *)

Definition ids_with (s : Store) (status : TaskStatus) : gset uuid := default ∅ (tasksByStatus s !! status).

Definition addToStatusIndex (status : TaskStatus) (id : uuid) (s : Store) : Store :=
  s <| tasksByStatus := <[status := {[id]} ∪ ids_with s status]> (tasksByStatus s) |>.

(** Deleting from a nil inner map is a no-op. *)
Definition removeFromStatusIndex (status : TaskStatus) (id : uuid) (s : Store) : Store :=
  match tasksByStatus s !! status with
  | Some ids => s <| tasksByStatus := <[status := ids ∖ {[id]}]> (tasksByStatus s) |>
  | None => s
  end.

(** ** Saving and notifying *)

Definition pruneTaskPayload (s : Store) (t : Task) : Task :=
  t <| RetryHistory := tail_Of (RetryHistory t) (retryHistoryLimit s) |>
    <| RefineSessions := tail_Of (RefineSessions t) (refineSessionsLimit s) |>
    <| PromptHistory := tail_Of (PromptHistory t) (promptHistoryLimit s) |>.

(** The schema version is stamped on the task in memory; the copy that is
    written is pruned. *)
Definition stamp (t : Task) : Task := t <| SchemaVersion := CurrentTaskSchemaVersion |>.

Definition saveTask (t : Task) : M unit := λ s,
  call (be_SaveTask (pruneTaskPayload s (stamp t))) s.

Definition notify (t : Task) (del : bool) : M unit :=
  modify (λ s, s <| deltas := deltas s ++
    [if del then MkDelta (zero_Task <| ID := ID t |>) true else MkDelta t false] |>).

(** The assignment through the task pointer held by [s.tasks]. *)
Definition put_mem (id : uuid) (t : Task) : M unit :=
  modify (λ s, s <| tasks := <[id := t]> (tasks s) |>).

(** [fn] gets the task and may use the store; a task it changes is in memory
    before it is saved, whether or not the save succeeds. *)
Definition mutateTask (now : Z) (id : uuid) (fn : Task → M Task) : M unit :=
  t ← find_task id;
  t ← fn t;
  let t := stamp (t <| UpdatedAt := now |>) in
  put_mem id t ;;
  saveTask t ;;
  notify t false.

(** [if entry, ok := s.searchIndex[id]; ok { ...; s.searchIndex[id] = entry }]. *)
Definition update_index (id : uuid) (f : indexedTaskText → indexedTaskText) : M unit :=
  modify (λ s, s <| searchIndex := alter f id (searchIndex s) |>).

(** ** Oversight *)

(** [sb.WriteString] of the non-empty titles and summaries, each with a space. *)
Definition oversightText (o : TaskOversight) : string :=
  let piece s := if bool_decide (s = EmptyString) then EmptyString else (s ++ " ")%string in
  TrimSpace (foldr (λ p acc, (piece (ph_Title p) ++ piece (ph_Summary p) ++ acc)%string)
                   EmptyString (Phases o)).

(** Reading a document: absent, unreadable, or not the expected JSON. *)
Inductive doc (A : Type) := DocNone | DocErr (e : store_error) | DocOk (a : A).
Arguments DocNone {A}.
Arguments DocErr {A} e.
Arguments DocOk {A} a.

Definition read_doc {A} (id : uuid) (key : string) (parse : blob → option A) : M (doc A) :=
  r ← attempt (be_ReadBlob id key);
  mret (match r with
       | Err ErrNotExist => DocNone
       | Err e => DocErr (ErrBackend e)
       | Ok d => match parse d with Some a => DocOk a | None => DocErr ErrParse end
       end).

Definition parse_oversight (d : blob) : option TaskOversight :=
  match d with BlobOversight o => Some o | _ => None end.
Definition parse_summary (d : blob) : option TaskSummary :=
  match d with BlobSummary o => Some o | _ => None end.
Definition parse_tombstone (d : blob) : option Tombstone :=
  match d with BlobTombstone o => Some o | _ => None end.

Definition pending_oversight : TaskOversight := MkOversight OversightStatusPending 0 EmptyString [].

Definition get_oversight (key : string) (id : uuid) : M TaskOversight :=
  d ← read_doc id key parse_oversight;
  match d with
  | DocNone => mret pending_oversight
  | DocErr e => throw e
  | DocOk o => mret o
  end.

Definition GetOversight (id : uuid) : M TaskOversight := get_oversight "oversight.json"%string id.
Definition GetTestOversight (id : uuid) : M TaskOversight := get_oversight "oversight-test.json"%string id.

Definition LoadOversightText (id : uuid) : M string :=
  d ← read_doc id "oversight.json"%string parse_oversight;
  match d with
  | DocNone => mret EmptyString
  | DocErr e => throw e
  | DocOk o => mret (oversightText o)
  end.

(** [raw, _ := s.LoadOversightText(id)]: the empty string on error. *)
Definition oversight_text_or_empty (id : uuid) : M string := λ s,
  match LoadOversightText id s with
  | (Ok raw, s') => (Ok raw, s')
  | (Err _, s') => (Ok EmptyString, s')
  end.

Definition SaveOversight (id : uuid) (o : TaskOversight) : M unit :=
  call (be_SaveBlob id "oversight.json"%string (BlobOversight o)) ;;
  let raw := oversightText o in
  update_index id (λ e, MkIndexed (ix_title e) (ix_prompt e) (ix_tags e) (ToLower tbl raw) raw).

Definition SaveTestOversight (id : uuid) (o : TaskOversight) : M unit :=
  call (be_SaveBlob id "oversight-test.json"%string (BlobOversight o)).

(** ** Summaries *)

Definition SaveSummary (id : uuid) (summary : TaskSummary) : M unit :=
  call (be_SaveBlob id "summary.json"%string (BlobSummary summary)).

Definition LoadSummary (id : uuid) : M (option TaskSummary) :=
  d ← read_doc id "summary.json"%string parse_summary;
  match d with
  | DocNone => mret None
  | DocErr e => throw e
  | DocOk x => mret (Some x)
  end.

Definition summary_of (t : Task) (phaseCount : Z) : TaskSummary :=
  let duration := Seconds (time_sub (UpdatedAt t) (CreatedAt t)) in
  MkSummary (ID t) (Title t) (Status t) (UpdatedAt t) (CreatedAt t) duration
    (match StartedAt t with Some st => Seconds (time_sub (UpdatedAt t) st) | None => duration end)
    (Turns t) (CostUSD (Usage t)) (UsageBreakdown t) (LastTestResult t) phaseCount (TaskFailureCategory t).

Definition buildAndSaveSummary (t : Task) : M unit := λ s,
  let '(r, s) := GetOversight (ID t) s in
  let phaseCount := match r with Ok o => Z.of_nat (length (Phases o)) | Err _ => 0 end in
  ignore (SaveSummary (ID t) (summary_of t phaseCount)) s.

(** ** Events *)

Definition loadEvents (id : uuid) : M unit :=
  r ← call (be_LoadEvents id);
  let '(evs, maxSeq) := r in
  modify (λ s, s <| events := <[id := evs]> (events s) |>
                 <| nextSeq := <[id := if Z.eqb maxSeq 0 && bool_decide (evs = []) then 1
                                       else wrap64 (maxSeq + 1)]> (nextSeq s) |>).

Definition ensureEventsLoadedLocked (id : uuid) : M unit := λ s,
  if default false (eventsLoaded s !! id) then (Ok tt, s)
  else
    let '(_, s) := loadEvents id s in
    (Ok tt, s <| eventsLoaded := <[id := true]> (eventsLoaded s) |>).

(** [data] is the marshalled payload, [None] when marshalling fails. *)
Definition InsertEvent (now : Z) (actorSub actorType : string) (id : uuid) (ty : EventType)
    (data : option string) : M unit :=
  match data with
  | None => throw ErrMarshal
  | Some json =>
    _ ← find_task id;
    ensureEventsLoadedLocked id ;;
    seq ← gets (λ s, default 0 (nextSeq s !! id));
    let event := MkEvent seq id ty json now actorSub actorType in
    call (be_SaveEvent id seq event) ;;
    modify (λ s, s <| events := <[id := default [] (events s !! id) ++ [event]]> (events s) |>
                   <| nextSeq := <[id := wrap64 (seq + 1)]> (nextSeq s) |>)
  end.

Definition GetEvents (id : uuid) : M (list TaskEvent) :=
  ensureEventsLoadedLocked id ;;
  gets (λ s, default [] (events s !! id)).

Definition GetEventsPage (id : uuid) (afterID limit : Z) (typeSet : gset EventType) : M (Page TaskEvent) :=
  ensureEventsLoadedLocked id ;;
  gets (λ s, Paginate ev_ID (default [] (events s !! id)) afterID limit 200 1000
    (if decide (typeSet = ∅) then None else Some (λ ev, bool_decide (ev_EventType ev ∈ typeSet)))).

(** The background goroutine started by [scheduleTerminalCompaction]. *)
Definition compactTaskEvents (id : uuid) (maxSeq : Z) : M unit :=
  evs ← gets (λ s, filter (λ ev, ev_ID ev <= maxSeq) (default [] (events s !! id)));
  match evs with
  | [] => mret tt
  | _ => call (be_CompactEvents id evs)
  end.

Definition scheduleTerminalCompaction (id : uuid) : M unit := modify (λ s,
  if closed s then s
  else s <| compactions := compactions s ++ [(id, wrap64 (default 0 (nextSeq s !! id) - 1))] |>).

(** ** Status changes *)

(** The body shared by [UpdateTaskStatus] and [ForceUpdateTaskStatus]. *)
Definition set_status (now1 now2 : Z) (id : uuid) (t : Task) (status : TaskStatus) : M unit :=
  modify (removeFromStatusIndex (Status t) id) ;;
  let t := t <| Status := status |> in
  modify (addToStatusIndex (Status t) id) ;;
  let t := if bool_decide (status = TaskStatusInProgress) && bool_decide (StartedAt t = None)
           then t <| StartedAt := Some now1 |> else t in
  let t := stamp (t <| UpdatedAt := now2 |>) in
  put_mem id t ;;
  saveTask t ;;
  (if bool_decide (status = TaskStatusDone) then
     buildAndSaveSummary t ;;
     modify (λ s, if OnDone s then s <| doneCalls := doneCalls s ++ [t] |> else s)
   else mret tt) ;;
  notify t false ;;
  (if isTerminalStatus status then scheduleTerminalCompaction id else mret tt).

Definition UpdateTaskStatus (now1 now2 : Z) (id : uuid) (status : TaskStatus) : M unit :=
  t ← find_task id;
  match Validate TaskMachine (Status t) status with
  | Err e => throw (ErrTransition (from_state e) (to_state e))
  | Ok _ => set_status now1 now2 id t status
  end.

Definition ForceUpdateTaskStatus (now1 now2 : Z) (id : uuid) (status : TaskStatus) : M unit :=
  t ← find_task id;
  set_status now1 now2 id t status.
(** ** Creation *)

Record TaskCreateOptions := MkOptions {
  o_ID : uuid;
  o_Prompt : string;
  o_Criteria : string;
  o_Timeout : Z;
  o_MountWorktrees : bool;
  o_Kind : TaskKind;
  o_FlowID : string;
  o_Tags : list string;
  o_Sandbox : string;
  o_SandboxByActivity : gmap string string;
  o_MaxCostUSD : float64;
  o_MaxInputTokens : Z;
  o_ScheduledAt : option Z;
  o_DependsOn : list string;
  o_SpecSourcePath : string;
  o_ModelOverride : string;
  o_CustomPassPatterns : list string;
  o_CustomFailPatterns : list string;
  o_RoutineIntervalSeconds : Z;
  o_RoutineEnabled : bool;
  o_RoutineSpawnKind : TaskKind;
  o_RoutineSpawnFlow : string;
  o_CreatedBy : string;
  o_OrgID : string
}.

(** The task built before the lock is taken; [order] is the iteration order of
    the sandbox map and [fresh] what [uuid.New] returns. *)
Definition build_task (order : list string) (fresh : uuid) (now : Z) (o : TaskCreateOptions) : Task :=
  let t := zero_Task
    <| SchemaVersion := CurrentTaskSchemaVersion |>
    <| ID := if decide (o_ID o = uuid_Nil) then fresh else o_ID o |>
    <| Prompt := o_Prompt o |>
    <| Criteria := o_Criteria o |>
    <| Status := TaskStatusBacklog |>
    <| TaskTimeout := clampTimeout (o_Timeout o) |>
    <| MountWorktrees := o_MountWorktrees o |>
    <| Kind := o_Kind o |>
    <| FlowID := o_FlowID o |>
    <| CreatedAt := now |>
    <| UpdatedAt := now |>
    <| AutoRetryBudget := Some defaultAutoRetryBudget |>
    <| Tags := o_Tags o |>
    <| DependsOn := o_DependsOn o |>
    <| SpecSourcePath := o_SpecSourcePath o |>
    <| Sandbox := if decide (o_Sandbox o = EmptyString) then EmptyString else NormalizeID tbl (o_Sandbox o) |>
    <| SandboxByActivity := normalizeSandboxByActivity tbl order (o_SandboxByActivity o) |>
    <| MaxCostUSD := if f64_ltb (o_MaxCostUSD o) f64_zero then f64_zero else o_MaxCostUSD o |>
    <| MaxInputTokens := if Z.ltb (o_MaxInputTokens o) 0 then 0 else o_MaxInputTokens o |>
    <| ScheduledAt := o_ScheduledAt o |>
    <| ModelOverride := let m := TrimSpace (o_ModelOverride o) in
                        if decide (m = EmptyString) then None else Some m |>
    <| CustomPassPatterns := o_CustomPassPatterns o |>
    <| CustomFailPatterns := o_CustomFailPatterns o |>
    <| CreatedBy := o_CreatedBy o |>
    <| OrgID := o_OrgID o |> in
  if decide (o_Kind o = TaskKindRoutine) then
    t <| RoutineIntervalSeconds := o_RoutineIntervalSeconds o |>
      <| RoutineEnabled := o_RoutineEnabled o |>
      <| RoutineSpawnKind := o_RoutineSpawnKind o |>
      <| RoutineSpawnFlow := o_RoutineSpawnFlow o |>
  else t.

(** The scan for the smallest backlog position: [(minPos, hasBacklog)]. *)
Definition min_backlog_pos (ts : list Task) : Z * bool :=
  foldl (λ '(minPos, has) t,
    if decide (Status t = TaskStatusBacklog) then
      if negb has || Z.ltb (Position t) minPos then (Position t, true) else (minPos, has)
    else (minPos, has)) (0, false) ts.

Definition CreateTaskWithOptions (order : list string) (fresh : uuid) (now : Z) (o : TaskCreateOptions)
  : M Task :=
  let t := build_task order fresh now o in
  let entry := buildIndexEntry t EmptyString in
  call (be_Init (ID t)) ;;
  s ← gets id;
  let '(minPos, hasBacklog) := min_backlog_pos (map_to_list (tasks s)).*2 in
  let t := if (hasBacklog : bool) then t <| Position := wrap64 (minPos - 1) |> else t in
  saveTask t ;;
  put_mem (ID t) t ;;
  modify (addToStatusIndex (Status t) (ID t)) ;;
  modify (λ s, s <| events := <[ID t := []]> (events s) |>
                 <| nextSeq := <[ID t := 1]> (nextSeq s) |>
                 <| eventsLoaded := <[ID t := true]> (eventsLoaded s) |>
                 <| searchIndex := <[ID t := entry]> (searchIndex s) |>) ;;
  notify t false ;;
  mret t.

(** ** Dependents of a task that is gone *)

Definition active_status (st : TaskStatus) : bool :=
  bool_decide (st ∈ [TaskStatusBacklog; TaskStatusInProgress; TaskStatusWaiting; TaskStatusFailed]).

Definition depends_on (id : uuid) (t : Task) : bool :=
  active_status (Status t) && bool_decide (uuid_String id ∈ DependsOn t).

(** In the iteration order [order] of [s.tasks]. *)
Definition TasksDependingOn (order : list uuid) (id : uuid) : M (list Task) :=
  gets (λ s, filter (λ t, depends_on id t = true) (omap (λ i, tasks s !! i) order)).

Definition drop_dep (id : uuid) (t : Task) : Task :=
  t <| DependsOn := filter (λ d, d ≠ uuid_String id) (DependsOn t) |>.

(** [now i] is the clock when the dependent [i] is rewritten. *)
Definition removeOrphanedDependents (order : list uuid) (now : uuid → Z) (id : uuid) : M unit :=
  deps ← TasksDependingOn order id;
  iterM (λ d, ignore (mutateTask (now (ID d)) (ID d) (λ t, mret (drop_dep id t)))) deps.

(** ** Deletion, restoration, purge *)

Definition tombstone_key : string := "tombstone.json"%string.

Definition delete_locked (now : Z) (id : uuid) (reason : string) : M unit :=
  t ← find_task id;
  call (be_SaveBlob id tombstone_key (BlobTombstone (MkTombstone now reason))) ;;
  modify (removeFromStatusIndex (Status t) id) ;;
  modify (λ s, s <| tasks := delete id (tasks s) |>
                 <| searchIndex := delete id (searchIndex s) |>
                 <| deleted := <[id := t]> (deleted s) |>) ;;
  notify t true.

Definition DeleteTask (order : list uuid) (now : Z) (nows : uuid → Z) (id : uuid) (reason : string) : M unit :=
  delete_locked now id reason ;;
  removeOrphanedDependents order nows id.

Definition CancelTask (order : list uuid) (now1 now2 : Z) (nows : uuid → Z) (id : uuid) : M unit :=
  ForceUpdateTaskStatus now1 now2 id TaskStatusCancelled ;;
  removeOrphanedDependents order nows id.

Definition RestoreTask (id : uuid) : M unit := λ s,
  match deleted s !! id with
  | None => (Err (ErrDeletedTaskNotFound id), s)
  | Some t =>
    (raw ← oversight_text_or_empty id;
     let entry := buildIndexEntry t raw in
     r ← attempt (be_DeleteBlob id tombstone_key);
     match r with
     | Err (ErrIO c) => throw (ErrBackend (ErrIO c))
     | _ =>
       modify (λ s, s <| deleted := delete id (deleted s) |> <| tasks := <[id := t]> (tasks s) |>) ;;
       modify (addToStatusIndex (Status t) id) ;;
       modify (λ s, s <| searchIndex := <[id := entry]> (searchIndex s) |>) ;;
       notify t false
     end) s
  end.

Definition purgeTaskLocked (id : uuid) : M unit := λ s,
  match deleted s !! id with
  | None => (Err (ErrNoTombstonedTask id), s)
  | Some _ =>
    (call (be_RemoveTask id) ;;
     modify (λ s, s <| deleted := delete id (deleted s) |>
                    <| events := delete id (events s) |>
                    <| nextSeq := delete id (nextSeq s) |>
                    <| eventsLoaded := delete id (eventsLoaded s) |>)) s
  end.

Definition PurgeTask (id : uuid) : M unit := purgeTaskLocked id.

(** [threshold] is [time.Now().AddDate(0, 0, -retentionDays)]. *)
Definition PurgeExpiredTombstones (order : list uuid) (threshold : Z) : M unit :=
  iterM (λ id,
    d ← read_doc id tombstone_key parse_tombstone;
    match d with
    | DocOk tomb => if Z.ltb (DeletedAt tomb) threshold then ignore (purgeTaskLocked id) else mret tt
    | _ => mret tt
    end) order.

(** ** Loading *)

(** One iteration of the loop of [loadAll]. *)
Definition load_task (t : Task) : M unit :=
  let id := ID t in
  r ← attempt (be_ReadBlob id tombstone_key);
  match r with
  | Ok _ => modify (λ s, s <| deleted := <[id := t]> (deleted s) |>
                           <| eventsLoaded := <[id := false]> (eventsLoaded s) |>)
  | Err _ =>
    limits ← gets Datatypes.id;
    let t := pruneTaskPayload limits t in
    raw ← oversight_text_or_empty id;
    modify (λ s, s <| tasks := <[id := t]> (tasks s) |>
                   <| searchIndex := <[id := buildIndexEntry t raw]> (searchIndex s) |>) ;;
    if isTerminalStatus (Status t) || Archived t
    then modify (λ s, s <| eventsLoaded := <[id := false]> (eventsLoaded s) |>)
    else loadEvents id ;;
         modify (λ s, s <| eventsLoaded := <[id := true]> (eventsLoaded s) |>)
  end.

Definition loadAll : M unit :=
  ts ← call be_LoadAll;
  iterM load_task ts.

(** The environment's limits are arguments; the status index is built from the
    loaded tasks in the iteration order of the map, which does not matter. *)
Definition NewStore (b : B) (retry refine prompt turnBytes : Z) : result store_error Store :=
  let s := MkStore b false ∅ ∅ ∅ ∅ ∅ ∅ [] retry refine prompt turnBytes [] ∅ false [] in
  match loadAll s with
  | (Err e, _) => Err e
  | (Ok _, s) => Ok (foldl (λ s '(id, t), addToStatusIndex (Status t) id s) s (map_to_list (tasks s)))
  end.

Definition Close : M unit := modify (λ s, s <| closed := true |>).
Definition IsClosed : M bool := gets closed.
End store.
