(* ===== verification/StoreUpdate.v ===== *)
(** * internal/store: the mutators of task fields

    tasks_update.go and tasks_worktree.go: one definition per method, each a
    closure given to [mutateTask] as in the code, plus the methods that hold
    the lock themselves ([ResetTaskForRetry], [ResumeTask], [ArchiveAllDone]),
    the turn output writer of io.go and the index rebuild of reconcile.go. *)

From S2P Require Import Prelude StateMachine GoStrings PkgUtil TaskModel Backend Store.
From Stdlib Require Import String.
From stdpp Require Import list gmap pretty.
Local Open Scope Z_scope.

Section update.
Context `{UUIDLib} {B : Type} `{!StorageBackend B} (tbl : Z → Z).
Abbreviation Store := (Store B).
Abbreviation M := (M (B:=B)).

(** A closure that only rewrites the task. *)
Definition pure_fn (f : Task → Task) (t : Task) : M Task := mret (f t).

(** ** tasks_update.go *)

Definition set_ix_title (v : string) (e : indexedTaskText) : indexedTaskText :=
  MkIndexed v (ix_prompt e) (ix_tags e) (ix_oversight e) (ix_oversightRaw e).
Definition set_ix_prompt (v : string) (e : indexedTaskText) : indexedTaskText :=
  MkIndexed (ix_title e) v (ix_tags e) (ix_oversight e) (ix_oversightRaw e).
Definition set_ix_tags (v : string) (e : indexedTaskText) : indexedTaskText :=
  MkIndexed (ix_title e) (ix_prompt e) v (ix_oversight e) (ix_oversightRaw e).

Definition UpdateTaskTitle (now : Z) (id : uuid) (title : string) : M unit :=
  let loweredTitle := ToLower tbl title in
  mutateTask now id (λ t,
    update_index id (set_ix_title loweredTitle) ;;
    mret (t <| Title := title |>)).

Definition UpdateTaskExecutionPrompt (now : Z) (id : uuid) (executionPrompt : string) : M unit :=
  mutateTask now id (pure_fn (λ t, t <| ExecutionPrompt := executionPrompt |>)).

Definition UpdateTaskTurns (now : Z) (id : uuid) (turns : Z) : M unit :=
  mutateTask now id (pure_fn (λ t, t <| Turns := turns |>)).

Definition UpdateTaskResult (now : Z) (id : uuid) (result sessionID stopReason : string) (turns : Z) : M unit :=
  mutateTask now id (pure_fn (λ t,
    t <| Result := Some result |> <| SessionID := Some sessionID |>
      <| StopReason := Some stopReason |> <| Turns := turns |>)).

Definition UpdateTaskLineage (now : Z) (id : uuid) (lineageJSON : string) : M unit :=
  mutateTask now id (pure_fn (λ t, t <| Lineage := Some lineageJSON |>)).

Definition UpdateTaskReview (now : Z) (id : uuid) (unresolved : Z) (headline sessionDir : string) : M unit :=
  mutateTask now id (pure_fn (λ t,
    t <| ReviewUnresolved := Some unresolved |> <| ReviewHeadline := headline |>
      <| ReviewSessionDir := sessionDir |>)).

Definition UpdateTaskCriteria (now : Z) (id : uuid) (criteria : string) : M unit :=
  mutateTask now id (pure_fn (λ t, t <| Criteria := criteria |>)).

Definition ClearReviewResult (now : Z) (id : uuid) : M unit :=
  mutateTask now id (pure_fn (λ t,
    t <| ReviewUnresolved := None |> <| ReviewHeadline := EmptyString |>
      <| ReviewSessionDir := EmptyString |>)).

Definition AccumulateSubAgentUsage (now : Z) (id : uuid) (agent : SandboxActivity) (delta : TaskUsage) : M unit :=
  mutateTask now id (pure_fn (λ t,
    t <| Usage := usage_Add (Usage t) delta |>
      <| UsageBreakdown := <[agent := usage_Add (default zero_usage (UsageBreakdown t !! agent)) delta]>
                             (UsageBreakdown t) |>)).

Definition UpdateTaskPosition (now : Z) (id : uuid) (position : Z) : M unit :=
  mutateTask now id (pure_fn (λ t, t <| Position := position |>)).

Definition UpdateTaskScheduledAt (now : Z) (id : uuid) (scheduledAt : option Z) : M unit :=
  mutateTask now id (pure_fn (λ t, t <| ScheduledAt := scheduledAt |>)).

Definition UpdateTaskDependsOn (now : Z) (id : uuid) (dependsOn : list string) : M unit :=
  mutateTask now id (pure_fn (λ t, t <| DependsOn := dependsOn |>)).

Definition UpdateTaskTags (now : Z) (id : uuid) (tags : list string) : M unit :=
  mutateTask now id (λ t,
    let t := t <| Tags := tags |> in
    update_index id (set_ix_tags (ToLower tbl (strings_Join (Tags t) " "%string))) ;;
    mret t).

(** [order] is the iteration order of the sandbox map, when one is given. *)
Definition UpdateTaskBacklog (now : Z) (order : list string) (id : uuid) (prompt : option string)
    (timeout : option Z) (freshStart mountWorktrees : option bool)
    (sandboxByActivity : option (gmap string string)) (maxCostUSD : option float64)
    (maxInputTokens : option Z) : M unit :=
  mutateTask now id (λ t,
    let t := match prompt with Some p => t <| Prompt := p |> | None => t end in
    let t := match timeout with Some v => t <| TaskTimeout := clampTimeout v |> | None => t end in
    let t := match freshStart with Some v => t <| FreshStart := v |> | None => t end in
    let t := match mountWorktrees with Some v => t <| MountWorktrees := v |> | None => t end in
    let t := match sandboxByActivity with
             | Some m => t <| SandboxByActivity := normalizeSandboxByActivity tbl order m |>
             | None => t end in
    let t := match maxCostUSD with
             | Some v => t <| MaxCostUSD := if f64_ltb v f64_zero then f64_zero else v |> | None => t end in
    let t := match maxInputTokens with
             | Some v => t <| MaxInputTokens := if Z.ltb v 0 then 0 else v |> | None => t end in
    match prompt with
    | Some p => update_index id (set_ix_prompt (ToLower tbl p)) ;; mret t
    | None => mret t
    end).

Definition UpdateTaskBudget (now : Z) (id : uuid) (maxCostUSD : option float64) (maxInputTokens : option Z)
  : M unit :=
  mutateTask now id (pure_fn (λ t,
    let t := match maxCostUSD with
             | Some v => t <| MaxCostUSD := if f64_ltb v f64_zero then f64_zero else v |> | None => t end in
    match maxInputTokens with
    | Some v => t <| MaxInputTokens := if Z.ltb v 0 then 0 else v |> | None => t end)).

Definition UpdateTaskSandboxByActivity (now : Z) (order : list string) (id : uuid) (m : gmap string string)
  : M unit :=
  mutateTask now id (pure_fn (λ t, t <| SandboxByActivity := normalizeSandboxByActivity tbl order m |>)).

Definition UpdateTaskSandbox (now : Z) (id : uuid) (sb : string) : M unit :=
  mutateTask now id (pure_fn (λ t, t <| Sandbox := NormalizeID tbl sb |>)).

Definition UpdateTaskFlow (now : Z) (id : uuid) (flowID : string) : M unit :=
  mutateTask now id (pure_fn (λ t, t <| FlowID := flowID |>)).

Definition UpdateTaskModelOverride (now : Z) (id : uuid) (model : string) : M unit :=
  let model := TrimSpace model in
  mutateTask now id (pure_fn (λ t,
    t <| ModelOverride := if decide (model = EmptyString) then None else Some model |>)).

Definition UpdateTaskCustomPatterns (now : Z) (id : uuid) (passPatterns failPatterns : list string) : M unit :=
  mutateTask now id (pure_fn (λ t,
    t <| CustomPassPatterns := passPatterns |> <| CustomFailPatterns := failPatterns |>)).

Definition UpdateTaskEnvironment (now : Z) (id : uuid) (env : ExecutionEnvironment) : M unit :=
  mutateTask now id (pure_fn (λ t, t <| Environment := Some env |>)).

(** The record that [ResetTaskForRetry] appends for the run it retires. *)
Definition retired (now : Z) (t : Task) : RetryRecord :=
  MkRetry now (Prompt t) (Status t)
    (match Result t with Some r => default r (Truncate r 2000) | None => EmptyString end)
    (default EmptyString (SessionID t)) (Turns t) (CostUSD (Usage t)) (TaskFailureCategory t).

Definition reset_task (now1 now2 : Z) (newPrompt : string) (freshStart : bool) (t : Task) : Task :=
  let t' := t
    <| RetryHistory := RetryHistory t ++ [retired now1 t] |>
    <| TaskFailureCategory := EmptyString |>
    <| PromptHistory := PromptHistory t ++ [Prompt t] |>
    <| Prompt := newPrompt |>
    <| FreshStart := freshStart |>
    <| Result := None |>
    <| StopReason := None |>
    <| Turns := 0 |>
    <| Status := TaskStatusBacklog |>
    <| WorktreePaths := if freshStart then ∅ else WorktreePaths t |>
    <| BranchName := if freshStart then EmptyString else BranchName t |>
    <| CommitHashes := ∅ |>
    <| BaseCommitHashes := ∅ |>
    <| IsTestRun := false |>
    <| LastTestResult := EmptyString |>
    <| PendingTestFeedback := EmptyString |>
    <| TestFailCount := 0 |>
    <| AutoRetryCount := 0 |>
    <| AutoRetryBudget := Some defaultAutoRetryBudget |>
    <| CurrentRefinement := None |>
    <| RefineSessions := if freshStart then [] else RefineSessions t |> in
  t' <| UpdatedAt := now2 |>.

Definition ResetTaskForRetry (now1 now2 : Z) (id : uuid) (newPrompt : string) (freshStart : bool) : M unit :=
  t ← find_task id;
  let t' := stamp (reset_task now1 now2 newPrompt freshStart t) in
  update_index id (set_ix_prompt (ToLower tbl newPrompt)) ;;
  modify (removeFromStatusIndex (Status t) id) ;;
  modify (addToStatusIndex (Status t') id) ;;
  put_mem id t' ;;
  saveTask t' ;;
  notify t' false.

(** Returns the archived identifiers and the error that stopped the loop. *)
Fixpoint archive_loop (now : uuid → Z) (order : list uuid) (archived : list uuid) (s : Store)
  : (list uuid * option store_error) * Store :=
  match order with
  | [] => ((archived, None), s)
  | id :: rest =>
    match tasks s !! id with
    | None => archive_loop now rest archived s
    | Some t =>
      if Archived t || negb (bool_decide (Status t = TaskStatusDone) || bool_decide (Status t = TaskStatusCancelled))
      then archive_loop now rest archived s
      else
        let t := stamp (t <| Archived := true |> <| UpdatedAt := now id |>) in
        match (put_mem id t ;; saveTask t) s with
        | (Err e, s') => ((archived, Some e), s')
        | (Ok _, s') => archive_loop now rest (archived ++ [id]) (notify t false s').2
        end
    end
  end.

Definition ArchiveAllDone (order : list uuid) (now : uuid → Z) (s : Store)
  : (list uuid * option store_error) * Store := archive_loop now order [] s.

Definition SetTaskArchived (now : Z) (id : uuid) (archived : bool) : M unit :=
  mutateTask now id (pure_fn (λ t, t <| Archived := archived |>)).

Definition ResumeTask (now1 now2 : Z) (id : uuid) (timeout : option Z) : M unit :=
  t ← find_task id;
  modify (removeFromStatusIndex (Status t) id) ;;
  let t := t <| Status := TaskStatusInProgress |> in
  modify (addToStatusIndex (Status t) id) ;;
  let t := if decide (StartedAt t = None) then t <| StartedAt := Some now1 |> else t in
  let t := match timeout with Some v => t <| TaskTimeout := clampTimeout v |> | None => t end in
  let t := stamp (t <| UpdatedAt := now2 |>) in
  put_mem id t ;;
  saveTask t ;;
  notify t false.

(** A closure that first rejects tasks that are not routine cards. *)
Definition routine_fn (id : uuid) (f : Task → Task) (t : Task) : M Task :=
  if IsRoutine t then mret (f t) else throw (ErrNotRoutine id).

Definition UpdateRoutineSchedule (now : Z) (id : uuid) (intervalSeconds : Z) : M unit :=
  mutateTask now id (routine_fn id (λ t,
    t <| RoutineIntervalSeconds := if Z.ltb intervalSeconds 0 then 0 else intervalSeconds |>)).

Definition UpdateRoutineEnabled (now : Z) (id : uuid) (enabled : bool) : M unit :=
  mutateTask now id (routine_fn id (λ t,
    t <| RoutineEnabled := enabled |>
      <| RoutineNextRun := if enabled then RoutineNextRun t else None |>)).

(** [next == nil || next.IsZero()] clears the field. *)
Definition nonzero_time (v : option Z) : option Z :=
  match v with Some 0 => None | _ => v end.

Definition UpdateRoutineNextRun (now : Z) (id : uuid) (next : option Z) : M unit :=
  mutateTask now id (routine_fn id (λ t, t <| RoutineNextRun := nonzero_time next |>)).

Definition UpdateRoutineLastFiredAt (now : Z) (id : uuid) (fired : option Z) : M unit :=
  mutateTask now id (routine_fn id (λ t, t <| RoutineLastFiredAt := nonzero_time fired |>)).

(** Returns the previous prompt and whether the task is waiting. *)
Definition UpdateTaskPromptDirect (now : Z) (id : uuid) (newPrompt : string) : M (string * bool) :=
  t0 ← find_task id;
  mutateTask now id (λ t,
    if bool_decide (Status t = TaskStatusBacklog) || bool_decide (Status t = TaskStatusWaiting) then
      update_index id (set_ix_prompt (ToLower tbl newPrompt)) ;;
      mret (t <| Prompt := newPrompt |>)
    else throw (ErrPromptStatus (Status t))) ;;
  mret (Prompt t0, bool_decide (Status t0 = TaskStatusWaiting)).

(** ** tasks_worktree.go *)

Definition UpdateTaskWorktrees (now : Z) (id : uuid) (worktreePaths : gmap string string) (branchName : string)
  : M unit :=
  mutateTask now id (pure_fn (λ t, t <| WorktreePaths := worktreePaths |> <| BranchName := branchName |>)).

Definition UpdateTaskCommitHashes (now : Z) (id : uuid) (hashes : gmap string string) : M unit :=
  mutateTask now id (pure_fn (λ t, t <| CommitHashes := hashes |>)).

Definition UpdateTaskTestRun (now : Z) (id : uuid) (isTestRun : bool) (lastTestResult : string) : M unit :=
  mutateTask now id (pure_fn (λ t,
    t <| IsTestRun := isTestRun |> <| LastTestResult := lastTestResult |>
      <| PendingTestFeedback := if isTestRun || negb (bool_decide (lastTestResult = "fail"%string))
                                then EmptyString else PendingTestFeedback t |>
      <| TestRunStartTurn := if isTestRun then Turns t else TestRunStartTurn t |>)).

Definition UpdateTaskPendingTestFeedback (now : Z) (id : uuid) (message : string) : M unit :=
  mutateTask now id (pure_fn (λ t, t <| PendingTestFeedback := message |>)).

Definition IncrementTestFailCount (now : Z) (id : uuid) : M unit :=
  mutateTask now id (pure_fn (λ t, t <| TestFailCount := wrap64 (TestFailCount t + 1) |>)).

Definition ResetTestFailCount (now : Z) (id : uuid) : M unit :=
  mutateTask now id (pure_fn (λ t, t <| TestFailCount := 0 |>)).

Definition SetTaskFailureCategory (now : Z) (id : uuid) (cat : FailureCategory) : M unit :=
  mutateTask now id (pure_fn (λ t, t <| TaskFailureCategory := cat |>)).

Definition UpdateTaskCommitMessage (now : Z) (id : uuid) (msg : string) : M unit :=
  mutateTask now id (pure_fn (λ t, t <| CommitMessage := msg |>)).

Definition UpdateTaskSnapshotDiffs (now : Z) (id : uuid) (diffs : gmap string string) : M unit :=
  mutateTask now id (pure_fn (λ t, t <| SnapshotDiffs := diffs |>)).

Definition UpdateTaskBaseCommitHashes (now : Z) (id : uuid) (hashes : gmap string string) : M unit :=
  mutateTask now id (pure_fn (λ t, t <| BaseCommitHashes := hashes |>)).

Definition UpdateRefinementJob (now : Z) (id : uuid) (job : option RefinementJob) : M unit :=
  mutateTask now id (pure_fn (λ t, t <| CurrentRefinement := job |>)).

(** [since] is the clock read by [time.Since]. *)
Definition refinement_busy (since : Z) (t : Task) : bool :=
  match CurrentRefinement t with
  | None => false
  | Some job =>
    let status := job_Status job in
    bool_decide (status = RefinementJobStatusRunning) ||
    (bool_decide (job_Source job = "runner"%string) &&
     (bool_decide (status = RefinementJobStatusFailed) || bool_decide (status = RefinementJobStatusDone)) &&
     (let elapsed := time_sub since (UpdatedAt t) in
      Z.leb 0 elapsed && Z.ltb elapsed RefinementRecentCompleteWindow) &&
     (negb (bool_decide (job_Error job = EmptyString)) || negb (bool_decide (job_Result job = EmptyString))))
  end.

Definition StartRefinementJobIfIdle (since now : Z) (id : uuid) (job : RefinementJob) : M unit :=
  mutateTask now id (λ t,
    if refinement_busy since t then throw ErrRefinementAlreadyRunning
    else mret (t <| CurrentRefinement := Some job |>)).

Definition ApplyRefinement (now : Z) (id : uuid) (newPrompt : string) (session : RefinementSession) : M unit :=
  let loweredPrompt := ToLower tbl newPrompt in
  let session := MkSession (sess_ID session) (sess_CreatedAt session) (StartPrompt session)
                   (Messages session) (sess_Result session) newPrompt in
  mutateTask now id (λ t,
    update_index id (set_ix_prompt loweredPrompt) ;;
    mret (t <| PromptHistory := PromptHistory t ++ [Prompt t] |>
            <| RefineSessions := RefineSessions t ++ [session] |>
            <| Prompt := newPrompt |>
            <| CurrentRefinement := None |>)).

Definition DismissRefinement (now : Z) (id : uuid) : M unit :=
  mutateTask now id (pure_fn (λ t, t <| CurrentRefinement := None |>)).

Definition MarkTurnTruncated (now : Z) (id : uuid) (turn : Z) : M unit :=
  mutateTask now id (pure_fn (λ t, t <| TruncatedTurns := TruncatedTurns t ++ [turn] |>)).

Definition spend_retry (category : FailureCategory) (t : Task) : Task :=
  let budget := default ∅ (AutoRetryBudget t) in
  t <| AutoRetryCount := wrap64 (AutoRetryCount t + 1) |>
    <| AutoRetryBudget := Some (if Z.ltb 0 (budget_of t category)
                                then <[category := budget_of t category - 1]> budget else budget) |>.

Definition IncrementAutoRetryCount (now : Z) (id : uuid) (category : FailureCategory) : M unit :=
  mutateTask now id (pure_fn (spend_retry category)).

Definition RecordFetchFailure (now1 now2 : Z) (id : uuid) (msg : string) : M unit :=
  mutateTask now2 id (pure_fn (λ t, t <| LastFetchError := msg |> <| LastFetchErrorAt := Some now1 |>)).

Definition ClearFetchFailure (now : Z) (id : uuid) : M unit := λ s,
  match tasks s !! id with
  | None => (Ok tt, s)
  | Some t =>
    if bool_decide (LastFetchError t = EmptyString) && bool_decide (LastFetchErrorAt t = None) then (Ok tt, s)
    else mutateTask now id (pure_fn (λ t, t <| LastFetchError := EmptyString |> <| LastFetchErrorAt := None |>)) s
  end.

(** ** Turn output (io.go) *)

Definition quote : string := of_bytes [34].

Definition pretty_Z (z : Z) : string :=
  if Z.ltb z 0 then ("-" ++ pretty (Z.to_N (- z)))%string else pretty (Z.to_N z).

(** The truncation notice; its keys and string values are quoted. *)
Definition sentinel (originalLen cutoff : Z) : string :=
  let q x := (quote ++ x ++ quote)%string in
  ("{" ++ q "type" ++ ":" ++ q "system" ++ "," ++ q "subtype" ++ ":" ++ q "truncation_notice" ++ "," ++
   q "total_bytes" ++ ":" ++ pretty_Z originalLen ++ "," ++ q "truncated_at" ++ ":" ++ pretty_Z cutoff ++ "}")%string.

(** [bytes.LastIndexByte]. *)
Fixpoint last_index_byte (l : list Z) (b : Z) (i : Z) : Z :=
  match l with
  | [] => -1
  | x :: rest => let r := last_index_byte rest b (i + 1) in
                 if Z.eqb r (-1) then (if Z.eqb x b then i else -1) else r
  end.

Definition newline : Z := 10.

Definition truncateTurnData (maxBytes : Z) (data : list Z) : list Z * Z :=
  let n := Z.of_nat (length data) in
  if Z.leb maxBytes 0 || Z.leb n maxBytes then (data, 0)
  else
    let cutoff := last_index_byte (take (Z.to_nat maxBytes) data) newline 0 in
    let cutoff := if Z.ltb cutoff 0 then maxBytes else cutoff in
    (take (Z.to_nat cutoff) data ++ [newline] ++ bytes (sentinel n cutoff) ++ [newline], n).

(** [fmt.Sprintf("%04d", n)]. *)
Definition pad4 (n : Z) : string :=
  let d := pretty (Z.to_N (Z.abs n)) in
  let w := if Z.ltb n 0 then 3%nat else 4%nat in
  let zeros := String.concat EmptyString (replicate (w - String.length d) "0"%string) in
  ((if Z.ltb n 0 then "-" else EmptyString) ++ zeros ++ d)%string.

Definition stdout_key (turn : Z) : string := ("outputs/turn-" ++ pad4 turn ++ ".json")%string.
Definition stderr_key (turn : Z) : string := ("outputs/turn-" ++ pad4 turn ++ ".stderr.txt")%string.

Definition SaveTurnOutput (now : Z) (id : uuid) (turn : Z) (stdout stderr : list Z) : M unit :=
  maxBytes ← gets maxTurnOutputBytes;
  let '(out, outLen) := truncateTurnData maxBytes stdout in
  call (be_SaveBlob id (stdout_key turn) (BlobRaw out)) ;;
  let '(err, errLen) := truncateTurnData maxBytes stderr in
  (if decide (stderr = []) then mret tt else call (be_SaveBlob id (stderr_key turn) (BlobRaw err))) ;;
  (if Z.ltb 0 outLen || (negb (bool_decide (stderr = [])) && Z.ltb 0 errLen)
   then ignore (MarkTurnTruncated now id turn) else mret tt).

(** ** Rebuilding the search index (reconcile.go)

    For each task a read-locked snapshot, an unlocked disk read, and a
    write-locked comparison; [rebuild_snapshot] and [rebuild_write] are the
    sections on either side of the unlocked read. *)

Definition rebuild_snapshot (id : uuid) : M (option Task) :=
  gets (λ s, (λ t, zero_Task <| Title := Title t |> <| Prompt := Prompt t |> <| Tags := Tags t |>)
               <$> tasks s !! id).

#[export] Instance indexedTaskText_eq_dec : EqDecision indexedTaskText.
Proof. solve_decision. Defined.

Definition rebuild_write (id : uuid) (snap : Task) (raw : string) (repaired : Z) : M Z := λ s,
  let entry := buildIndexEntry tbl snap raw in
  if decide (searchIndex s !! id = Some entry) then (Ok repaired, s)
  else (Ok (wrap64 (repaired + 1)), s <| searchIndex := <[id := entry]> (searchIndex s) |>).

Fixpoint RebuildSearchIndex (order : list uuid) (repaired : Z) : M Z :=
  match order with
  | [] => mret repaired
  | id :: rest =>
    snap ← rebuild_snapshot id;
    match snap with
    | None => RebuildSearchIndex rest repaired
    | Some t =>
      raw ← oversight_text_or_empty id;
      repaired ← rebuild_write id t raw repaired;
      RebuildSearchIndex rest repaired
    end
  end.
End update.
