(* ===== verification/StoreWf.v ===== *)
(** * The well-formedness invariant of the store

    [store_wf]: tasks are filed under their own identifier, no identifier is
    both live and deleted, the status index lists exactly the tasks of each
    status, and the search index has exactly one entry per live task, the
    lowercased text of its current fields.  Every operation of the store keeps
    it, whatever the backend answers ([store_wf_step]), so it holds in every
    reachable state ([store_wf_reachable]). *)

From S2P Require Import Prelude StateMachine GoStrings PkgUtil TaskModel Backend Store StoreUpdate.
From Stdlib Require Import String.
From stdpp Require Import list gmap.
Local Open Scope Z_scope.

Section wf.
Context `{UUIDLib} {B : Type} `{!StorageBackend B} (tbl : Z → Z).
Abbreviation Store := (Store B).
Abbreviation M := (M (B:=B)).
Implicit Types (s : Store) (t : Task) (id : uuid).

Record store_wf s : Prop := {
  wf_ids : ∀ id t, tasks s !! id = Some t → ID t = id;
  wf_deleted_ids : ∀ id t, deleted s !! id = Some t → ID t = id;
  wf_disjoint : ∀ id t, tasks s !! id = Some t → deleted s !! id = None;
  wf_status : ∀ st id, id ∈ ids_with s st ↔ ∃ t, tasks s !! id = Some t ∧ Status t = st;
  wf_index : ∀ id t, tasks s !! id = Some t → ∃ raw, searchIndex s !! id = Some (buildIndexEntry tbl t raw);
  wf_index_dom : ∀ id, tasks s !! id = None → searchIndex s !! id = None
}.

(** The fields the invariant speaks of. *)
Definition core s := (tasks s, deleted s, tasksByStatus s, searchIndex s).

(** An operation that leaves those fields alone. *)
Definition keeps {A} (m : M A) : Prop := ∀ s, core (m s).2 = core s.

Lemma wf_core s s' : core s' = core s → store_wf s → store_wf s'.
Proof.
  unfold core. intros [= E1 E2 E3 E4] [????]. split; unfold ids_with in *; rewrite ?E1, ?E2, ?E3, ?E4; done.
Qed.

Lemma wf_keeps {A} (m : M A) s : keeps m → store_wf s → store_wf (m s).2.
Proof. intros Hk. by apply wf_core. Qed.

Lemma keeps_ret {A} (a : A) : keeps (mret a).
Proof. by intros s. Qed.

Lemma keeps_throw {A} e : keeps (throw (A:=A) e).
Proof. by intros s. Qed.

Lemma keeps_bind {A C} (m : M A) (k : A → M C) : keeps m → (∀ a, keeps (k a)) → keeps (m ≫= k).
Proof.
  intros Hm Hk s. unfold mbind, M_bind, bind. specialize (Hm s). destruct (m s) as [[a|e] s']; simpl in *; [|done].
  by rewrite Hk.
Qed.

Lemma keeps_gets {A} (f : Store → A) : keeps (gets f).
Proof. by intros s. Qed.

Lemma keeps_call {A} (f : B → result io_error A * B) : keeps (call f).
Proof. intros s. unfold call. by destruct (f (backend s)) as [[?|?] ?]. Qed.

Lemma keeps_attempt {A} (f : B → result io_error A * B) : keeps (attempt f).
Proof. intros s. unfold attempt. by destruct (f (backend s)) as [? ?]. Qed.

Lemma keeps_ignore {A} (m : M A) : keeps m → keeps (ignore m).
Proof. intros Hm s. apply Hm. Qed.

Lemma keeps_find id : keeps (find_task id).
Proof. intros s. unfold find_task. by destruct (tasks s !! id). Qed.

Lemma keeps_save t : keeps (saveTask t).
Proof. intros s. apply keeps_call. Qed.

Lemma keeps_notify t b : keeps (notify t b).
Proof. by intros s. Qed.

Lemma keeps_read_doc {A} id k (p : blob → option A) : keeps (read_doc id k p).
Proof. apply keeps_bind; [apply keeps_attempt|intros; apply keeps_ret]. Qed.

Lemma keeps_schedule id : keeps (scheduleTerminalCompaction id).
Proof. intros s. unfold scheduleTerminalCompaction, modify; simpl. by destruct (closed s). Qed.
End wf.

(** Solves [keeps] goals by following the operation's code. *)
Ltac keeps_step :=
  lazymatch goal with
  | |- ∀ _, _ => intros
  | |- keeps (mbind _ _) => apply keeps_bind
  | |- keeps (mret _) => apply keeps_ret
  | |- keeps (throw _) => apply keeps_throw
  | |- keeps (gets _) => apply keeps_gets
  | |- keeps (call _) => apply keeps_call
  | |- keeps (attempt _) => apply keeps_attempt
  | |- keeps (ignore _) => apply keeps_ignore
  | |- keeps (find_task _) => apply keeps_find
  | |- keeps (saveTask _) => apply keeps_save
  | |- keeps (notify _ _) => apply keeps_notify
  | |- keeps (read_doc _ _ _) => apply keeps_read_doc
  | |- keeps (scheduleTerminalCompaction _) => apply keeps_schedule
  | |- keeps (match _ with _ => _ end) => case_match
  end.
Ltac keeps_tac := repeat keeps_step.

Section keeps_ops.
Context `{UUIDLib} {B : Type} `{!StorageBackend B} (tbl : Z → Z).
Abbreviation Store := (Store B).
Abbreviation M := (M (B:=B)).
Implicit Types (s : Store) (t : Task) (id : uuid).

Lemma keeps_oversight_text id : keeps (oversight_text_or_empty (B:=B) id).
Proof.
  assert (keeps (LoadOversightText (B:=B) id)) as Hk by (unfold LoadOversightText; keeps_tac).
  intros s. specialize (Hk s). unfold oversight_text_or_empty. by destruct (LoadOversightText id s) as [[?|?] ?].
Qed.

Lemma keeps_summary t : keeps (buildAndSaveSummary (B:=B) t).
Proof.
  assert (keeps (GetOversight (B:=B) (ID t))) as Hk by (unfold GetOversight, get_oversight; keeps_tac).
  intros s. specialize (Hk s). unfold buildAndSaveSummary. destruct (GetOversight (ID t) s) as [r s']. simpl in *.
  rewrite <- Hk. apply (keeps_ignore (SaveSummary _ _)). apply keeps_call.
Qed.

Lemma keeps_loadEvents id : keeps (loadEvents (B:=B) id).
Proof.
  unfold loadEvents. apply keeps_bind; [apply keeps_call|]. intros [evs m]. by intros s'.
Qed.

Lemma keeps_ensure id : keeps (ensureEventsLoadedLocked (B:=B) id).
Proof.
  intros s. unfold ensureEventsLoadedLocked. case_match; [done|].
  pose proof (keeps_loadEvents id s) as Hk. by destruct (loadEvents id s).
Qed.

Lemma keeps_InsertEvent now a1 a2 id ty data : keeps (InsertEvent (B:=B) now a1 a2 id ty data).
Proof.
  unfold InsertEvent. destruct data; [|apply keeps_throw].
  apply keeps_bind; [apply keeps_find|intros _].
  apply keeps_bind; [apply keeps_ensure|intros _].
  apply keeps_bind; [apply keeps_gets|intros seq].
  apply keeps_bind; [apply keeps_call|intros _]. by intros st.
Qed.

Lemma keeps_GetEvents id : keeps (GetEvents (B:=B) id).
Proof. apply keeps_bind; [apply keeps_ensure|intros; apply keeps_gets]. Qed.

Lemma keeps_GetEventsPage id a l ty : keeps (GetEventsPage (B:=B) id a l ty).
Proof. apply keeps_bind; [apply keeps_ensure|intros; apply keeps_gets]. Qed.

Lemma keeps_compact id m : keeps (compactTaskEvents (B:=B) id m).
Proof. unfold compactTaskEvents. keeps_tac. Qed.

(** ** How the indexed operations change those fields *)

Lemma ids_with_add st id s x id' :
  id' ∈ ids_with (addToStatusIndex st id s) x ↔ (x = st ∧ id' = id) ∨ id' ∈ ids_with s x.
Proof.
  unfold ids_with, addToStatusIndex; simpl. rewrite lookup_insert. case_decide; subst; simpl; set_solver.
Qed.

Lemma ids_with_remove st id s x id' :
  id' ∈ ids_with (removeFromStatusIndex st id s) x ↔ id' ∈ ids_with s x ∧ ¬ (x = st ∧ id' = id).
Proof.
  unfold ids_with, removeFromStatusIndex. destruct (tasksByStatus s !! st) as [ids|] eqn:E; simpl.
  - rewrite lookup_insert. case_decide; subst; simpl; [rewrite E; simpl|]; set_solver.
  - split; [|by intros []]. intros Hx. split; [done|]. intros [-> ->]. rewrite E in Hx. set_solver.
Qed.

Lemma ids_with_core s s' st : tasksByStatus s' = tasksByStatus s → ids_with s' st = ids_with s st.
Proof. unfold ids_with. by intros ->. Qed.

(** Replacing the task [id] keeps the invariant when the two indexes follow. *)
Lemma wf_replace s s' id t t' raw :
  store_wf tbl s → tasks s !! id = Some t → ID t' = id →
  tasks s' = <[id := t']> (tasks s) → deleted s' = deleted s →
  (∀ x id', id' ∈ ids_with s' x ↔ (x = Status t' ∧ id' = id) ∨ (id' ∈ ids_with s x ∧ id' ≠ id)) →
  searchIndex s' !! id = Some (buildIndexEntry tbl t' raw) →
  (∀ id', id' ≠ id → searchIndex s' !! id' = searchIndex s !! id') →
  store_wf tbl s'.
Proof.
  intros [Hid Hdid Hdis Hst Hix Hixd] Ht Hid' Htasks Hdel Hids Hi Hi'. split; rewrite ?Htasks, ?Hdel.
  - intros id1 t1 [[<- <-]|[_ ?]]%lookup_insert_Some; eauto.
  - done.
  - intros id1 t1 [[<- _]|[_ ?]]%lookup_insert_Some; eauto.
  - intros st id1. rewrite Hids, Hst. setoid_rewrite lookup_insert_Some. naive_solver.
  - intros id1 t1 [[<- <-]|[Hne Ht1]]%lookup_insert_Some; [eauto|]. rewrite Hi' by done. eauto.
  - intros id1 [Ht1 Hne]%lookup_insert_None. rewrite Hi' by done. auto.
Qed.

(** What a [mutateTask] closure may do: keep the task's identifier and status,
    change no field of the store but the search entry of [id], and leave that
    entry in step with the text fields. *)
Definition good_fn id (fn : Task → M Task) : Prop := ∀ t s raw,
  searchIndex s !! id = Some (buildIndexEntry tbl t raw) →
  match fn t s with
  | (Ok t', s') =>
    ID t' = ID t ∧ Status t' = Status t ∧
    tasks s' = tasks s ∧ deleted s' = deleted s ∧ tasksByStatus s' = tasksByStatus s ∧
    searchIndex s' !! id = Some (buildIndexEntry tbl t' raw) ∧
    (∀ id', id' ≠ id → searchIndex s' !! id' = searchIndex s !! id')
  | (Err _, s') => core s' = core s
  end.

Lemma mutateTask_wf now id fn s :
  good_fn id fn → store_wf tbl s → store_wf tbl (mutateTask now id fn s).2.
Proof.
  intros Hfn Hwf. unfold mutateTask, mbind, M_bind, bind, find_task.
  destruct (tasks s !! id) as [t|] eqn:Ht; [|done].
  destruct (wf_index _ _ Hwf _ _ Ht) as [raw Hraw]. specialize (Hfn t s raw Hraw).
  destruct (fn t s) as [[t'|e] s1]; [|by apply (wf_core tbl s)].
  destruct Hfn as (Hid & Hst & Htk & Hdl & Hts & Hix & Hix'). simpl.
  set (t2 := stamp (t' <| UpdatedAt := now |>)). set (s2 := s1 <| tasks := <[id:=t2]> (tasks s1) |>).
  assert (core (match saveTask t2 s2 with (Ok _, s') => notify t2 false s' | (Err e, s') => (Err e, s') end).2 = core s2) as Hc.
  { pose proof (keeps_save t2 s2). destruct (saveTask t2 s2) as [[?|?] ?]; simpl in *; done. }
  apply (wf_core tbl s2); [done|].
  apply (wf_replace s s2 id t t2 raw); simpl; try done.
  - rewrite <- (wf_ids _ _ Hwf _ _ Ht). done.
  - by rewrite Htk.
  - intros x id'. rewrite (ids_with_core s s2) by done. rewrite !(wf_status _ _ Hwf).
    split; [|naive_solver].
    intros (t1 & Ht1 & <-). destruct (decide (id' = id)) as [->|]; [left|right; eauto]. simplify_eq. done.
Qed.

Lemma good_fn_pure id f :
  (∀ t, ID (f t) = ID t ∧ Status (f t) = Status t ∧ Title (f t) = Title t ∧
        Prompt (f t) = Prompt t ∧ Tags (f t) = Tags t) → good_fn id (pure_fn f).
Proof.
  intros Hf t s raw Hraw. destruct (Hf t) as (? & ? & E1 & E2 & E3). simpl.
  unfold buildIndexEntry. rewrite E1, E2, E3. split_and!; done.
Qed.

(** A closure guarded by a check that returns an error. *)
Lemma good_fn_guard id (c : Task → bool) e (fn : Task → M Task) :
  good_fn id fn → good_fn id (λ t, if c t then fn t else throw (e t)).
Proof. intros Hfn t s raw Hraw. destruct (c t); [by apply Hfn|done]. Qed.

(** A closure that rewrites the entry of [id] with [g] and then the task. *)
Lemma good_fn_index id g f :
  (∀ t, ID (f t) = ID t ∧ Status (f t) = Status t) →
  (∀ t raw, g (buildIndexEntry tbl t raw) = buildIndexEntry tbl (f t) raw) →
  good_fn id (λ t, update_index id g ;; mret (f t)).
Proof.
  intros Hf Hg t s raw Hraw. destruct (Hf t) as [? ?]. simpl. split_and!; try done.
  - rewrite lookup_alter_eq, Hraw. simpl. by rewrite Hg.
  - intros id' Hne. by rewrite lookup_alter_ne.
Qed.
(** Moving [id] from one status to another in the index. *)
Lemma ids_with_move st st' id s x id' :
  store_wf tbl s → (∃ t, tasks s !! id = Some t ∧ Status t = st) →
  id' ∈ ids_with (addToStatusIndex st' id (removeFromStatusIndex st id s)) x ↔
  (x = st' ∧ id' = id) ∨ (id' ∈ ids_with s x ∧ id' ≠ id).
Proof.
  intros Hwf (t & Ht & Hst). rewrite ids_with_add, ids_with_remove.
  split; [|naive_solver]. intros [?|[Hin Hn]]; [auto|]. right. split; [done|]. intros ->.
  apply (wf_status _ _ Hwf) in Hin as (t1 & Ht1 & <-). simplify_eq. naive_solver.
Qed.

Lemma remove_frame st id s :
  tasks (removeFromStatusIndex st id s) = tasks s ∧ deleted (removeFromStatusIndex st id s) = deleted s ∧
  searchIndex (removeFromStatusIndex st id s) = searchIndex s.
Proof. unfold removeFromStatusIndex. by case_match. Qed.

(** The part of a status change before the save. *)
Definition move_task id t t' s : Store :=
  let s := addToStatusIndex (Status t') id (removeFromStatusIndex (Status t) id s) in
  s <| tasks := <[id := t']> (tasks s) |>.

Lemma move_task_wf id t t' s raw :
  store_wf tbl s → tasks s !! id = Some t → ID t' = ID t →
  searchIndex s !! id = Some (buildIndexEntry tbl t' raw) →
  store_wf tbl (move_task id t t' s).
Proof.
  intros Hwf Ht Hid Hix. destruct (remove_frame (Status t) id s) as (E1 & E2 & E3).
  apply (wf_replace s _ id t t' raw); unfold move_task; simpl; try done.
  - by rewrite Hid, (wf_ids _ _ Hwf _ _ Ht).
  - by rewrite E1.
  - intros x id'. apply (ids_with_move (Status t) (Status t') id s x id'); [done|eauto].
  - by rewrite E3.
  - by rewrite E3.
Qed.

Lemma keeps_done_call t : keeps (modify (B:=B) (λ s, if OnDone s then s <| doneCalls := doneCalls s ++ [t] |> else s)).
Proof. intros s. unfold modify; simpl. by destruct (OnDone s). Qed.

(** What follows the change in memory. *)
Definition status_tail id t st : M unit :=
  saveTask t ;;
  (if bool_decide (st = TaskStatusDone) then
     buildAndSaveSummary t ;;
     modify (λ s, if OnDone s then s <| doneCalls := doneCalls s ++ [t] |> else s)
   else mret tt) ;;
  notify t false ;;
  (if isTerminalStatus st then scheduleTerminalCompaction id else mret tt).

Lemma keeps_status_tail id t st : keeps (status_tail id t st).
Proof. unfold status_tail. keeps_tac; first [apply keeps_summary|apply keeps_done_call]. Qed.

(** The task that [set_status] stores. *)
Definition with_status (now1 now2 : Z) t st : Task :=
  let t := t <| Status := st |> in
  let t := if bool_decide (st = TaskStatusInProgress) && bool_decide (StartedAt t = None)
           then t <| StartedAt := Some now1 |> else t in
  stamp (t <| UpdatedAt := now2 |>).

Lemma with_status_facts now1 now2 t st raw :
  Status (with_status now1 now2 t st) = st ∧ ID (with_status now1 now2 t st) = ID t ∧
  buildIndexEntry tbl (with_status now1 now2 t st) raw = buildIndexEntry tbl t raw.
Proof. unfold with_status. by destruct (_ && _). Qed.

Lemma set_status_eq now1 now2 id t st s :
  set_status now1 now2 id t st s =
  status_tail id (with_status now1 now2 t st) st (move_task id t (with_status now1 now2 t st) s).
Proof.
  destruct (with_status_facts now1 now2 t st EmptyString) as (Es & _). unfold move_task. rewrite Es. reflexivity.
Qed.

Lemma set_status_wf now1 now2 id t st s :
  store_wf tbl s → tasks s !! id = Some t → store_wf tbl (set_status now1 now2 id t st s).2.
Proof.
  intros Hwf Ht. destruct (wf_index _ _ Hwf _ _ Ht) as [raw Hraw].
  destruct (with_status_facts now1 now2 t st raw) as (_ & Ei & Eb). rewrite set_status_eq.
  apply wf_keeps; [apply keeps_status_tail|]. apply (move_task_wf _ _ _ _ raw); [done..|congruence].
Qed.

Lemma UpdateTaskStatus_wf now1 now2 id st s :
  store_wf tbl s → store_wf tbl (UpdateTaskStatus now1 now2 id st s).2.
Proof.
  intros Hwf. unfold UpdateTaskStatus, mbind, M_bind, bind, find_task.
  destruct (tasks s !! id) as [t|] eqn:Ht; [|done].
  destruct (Validate TaskMachine (Status t) st); [by apply set_status_wf|done].
Qed.

Lemma ForceUpdateTaskStatus_wf now1 now2 id st s :
  store_wf tbl s → store_wf tbl (ForceUpdateTaskStatus now1 now2 id st s).2.
Proof.
  intros Hwf. unfold ForceUpdateTaskStatus, mbind, M_bind, bind, find_task.
  destruct (tasks s !! id) as [t|] eqn:Ht; [by apply set_status_wf|done].
Qed.

Lemma keeps_save_notify t : keeps (saveTask (B:=B) t ;; notify t false).
Proof. keeps_tac. Qed.

Lemma ResumeTask_wf now1 now2 id timeout s :
  store_wf tbl s → store_wf tbl (ResumeTask now1 now2 id timeout s).2.
Proof.
  intros Hwf. unfold ResumeTask, mbind at 1, M_bind at 1, bind at 1, find_task.
  destruct (tasks s !! id) as [t|] eqn:Ht; [|done]. destruct (wf_index _ _ Hwf _ _ Ht) as [raw Hraw].
  set (t1 := t <| Status := TaskStatusInProgress |>).
  set (t2 := if decide (StartedAt t1 = None) then t1 <| StartedAt := Some now1 |> else t1).
  set (t3 := match timeout with Some v => t2 <| TaskTimeout := clampTimeout v |> | None => t2 end).
  set (t4 := stamp (t3 <| UpdatedAt := now2 |>)).
  assert (Status t4 = TaskStatusInProgress ∧ ID t4 = ID t ∧
          buildIndexEntry tbl t4 raw = buildIndexEntry tbl t raw) as (Es & Ei & Eb).
  { unfold t4, t3, t2. by destruct timeout, (decide (StartedAt t1 = None)). }
  apply (wf_core tbl (move_task id t t4 s)).
  { unfold move_task. rewrite Es. apply keeps_save_notify. }
  apply (move_task_wf _ _ _ _ raw); [done..|congruence].
Qed.

Lemma ResetTaskForRetry_wf now1 now2 id newPrompt fresh s :
  store_wf tbl s → store_wf tbl (ResetTaskForRetry tbl now1 now2 id newPrompt fresh s).2.
Proof.
  intros Hwf. unfold ResetTaskForRetry, mbind at 1, M_bind at 1, bind at 1, find_task.
  destruct (tasks s !! id) as [t|] eqn:Ht; [|done]. destruct (wf_index _ _ Hwf _ _ Ht) as [raw Hraw].
  set (t2 := stamp (reset_task now1 now2 newPrompt fresh t)).
  set (s1 := s <| searchIndex := alter (set_ix_prompt (ToLower tbl newPrompt)) id (searchIndex s) |>).
  apply (wf_core tbl (move_task id t t2 s1)); [apply (keeps_save_notify t2)|].
  destruct (remove_frame (Status t) id s1) as (E1 & E2 & E3).
  apply (wf_replace s _ id t t2 raw); unfold move_task; simpl; try done.
  - by apply (wf_ids _ _ Hwf).
  - by rewrite E1.
  - intros x id'.
    rewrite (ids_with_core (addToStatusIndex TaskStatusBacklog id (removeFromStatusIndex (Status t) id s)))
      by (unfold addToStatusIndex, ids_with, removeFromStatusIndex; simpl; by case_match).
    apply (ids_with_move (Status t) TaskStatusBacklog id s x id'); [done|eauto].
  - rewrite E3. simpl. rewrite lookup_alter_eq, Hraw. done.
  - intros id' Hne. rewrite E3. simpl. by rewrite lookup_alter_ne.
Qed.
(** Adding a task under a fresh identifier. *)
Lemma wf_insert s s' t raw :
  store_wf tbl s → tasks s !! ID t = None → deleted s' !! ID t = None →
  tasks s' = <[ID t := t]> (tasks s) →
  (∀ id', id' ≠ ID t → deleted s' !! id' = deleted s !! id') →
  (∀ x id', id' ∈ ids_with s' x ↔ (x = Status t ∧ id' = ID t) ∨ id' ∈ ids_with s x) →
  searchIndex s' = <[ID t := buildIndexEntry tbl t raw]> (searchIndex s) →
  store_wf tbl s'.
Proof.
  intros [Hid Hdid Hdis Hst Hix Hixd] Hfr Hd Htasks Hdel Hids Hi. split.
  - rewrite Htasks. intros id t1 [[<- <-]|[_ ?]]%lookup_insert_Some; eauto.
  - intros id t1 Ht1. destruct (decide (id = ID t)) as [->|Hne]; [congruence|]. rewrite Hdel in Ht1 by done. eauto.
  - rewrite Htasks. intros id t1 [[<- _]|[Hne ?]]%lookup_insert_Some; [done|]. rewrite Hdel by done. eauto.
  - intros st id. rewrite Hids, Hst, Htasks. setoid_rewrite lookup_insert_Some.
    destruct (decide (id = ID t)) as [->|]; naive_solver.
  - rewrite Htasks, Hi. intros id t1 [[<- <-]|[Hne ?]]%lookup_insert_Some.
    + exists raw. by rewrite lookup_insert_eq.
    + rewrite lookup_insert_ne by done. eauto.
  - rewrite Htasks, Hi. intros id [? ?]%lookup_insert_None. rewrite lookup_insert_ne by done. auto.
Qed.

(** Taking a task out of the live ones. *)
Lemma wf_remove s s' id t :
  store_wf tbl s → tasks s !! id = Some t →
  tasks s' = delete id (tasks s) → deleted s' = <[id := t]> (deleted s) →
  (∀ x id', id' ∈ ids_with s' x ↔ id' ∈ ids_with s x ∧ ¬ (x = Status t ∧ id' = id)) →
  searchIndex s' = delete id (searchIndex s) →
  store_wf tbl s'.
Proof.
  intros [Hid Hdid Hdis Hst Hix Hixd] Ht Htasks Hdel Hids Hi. split; rewrite ?Htasks, ?Hdel, ?Hi.
  - intros id1 t1 [_ ?]%lookup_delete_Some. eauto.
  - intros id1 t1 [[<- <-]|[_ ?]]%lookup_insert_Some; eauto.
  - intros id1 t1 [? ?]%lookup_delete_Some. rewrite lookup_insert_ne by done. eauto.
  - intros st id1. rewrite Hids, Hst. setoid_rewrite lookup_delete_Some. naive_solver.
  - intros id1 t1 [? ?]%lookup_delete_Some. rewrite lookup_delete_ne by done. eauto.
  - intros id1 [->|?]%lookup_delete_None; [by rewrite lookup_delete_eq|].
    apply lookup_delete_None. auto.
Qed.

Lemma CreateTask_wf order fresh now o s :
  let id := ID (build_task tbl order fresh now o) in
  tasks s !! id = None → deleted s !! id = None →
  store_wf tbl s → store_wf tbl (CreateTaskWithOptions tbl order fresh now o s).2.
Proof.
  intros id Hfr Hdel Hwf. unfold CreateTaskWithOptions. set (t0 := build_task tbl order fresh now o) in *.
  unfold mbind at 1, M_bind at 1, bind at 1. pose proof (keeps_call (be_Init (ID t0)) s) as Hk.
  destruct (call (be_Init (ID t0)) s) as [[[]|e] s1]; simpl in Hk; [|by apply (wf_core tbl s)].
  unfold mbind at 1, M_bind at 1, bind at 1, gets at 1. simpl.
  destruct (min_backlog_pos (map_to_list (tasks s1)).*2) as [minPos has].
  set (t1 := if has then t0 <| Position := wrap64 (minPos - 1) |> else t0).
  assert (ID t1 = id ∧ buildIndexEntry tbl t1 EmptyString = buildIndexEntry tbl t0 EmptyString) as [Ei Eb]
    by (unfold t1; by destruct has).
  unfold mbind at 1, M_bind at 1, bind at 1. pose proof (keeps_save t1 s1) as Hk2.
  destruct (saveTask t1 s1) as [[[]|e] s2]; simpl in Hk2; [|apply (wf_core tbl s); [by etrans|done]].
  assert (core s2 = core s) as Hc by (by etrans). injection Hc as E1 E2 E3 E4.
  apply (wf_insert s _ t1 EmptyString); simpl; rewrite ?Ei, ?E1, ?E2, ?E4; try done; [|by rewrite Eb].
  intros x id'. rewrite (ids_with_core (addToStatusIndex (Status t1) id s2)) by (by rewrite <- Ei).
  rewrite ids_with_add. by rewrite (ids_with_core s s2 x) by done.
Qed.

Lemma delete_locked_wf now id reason s :
  store_wf tbl s → store_wf tbl (delete_locked now id reason s).2.
Proof.
  intros Hwf. unfold delete_locked, mbind at 1, M_bind at 1, bind at 1, find_task.
  destruct (tasks s !! id) as [t|] eqn:Ht; [|done].
  unfold mbind at 1, M_bind at 1, bind at 1.
  set (f := be_SaveBlob id tombstone_key _). pose proof (keeps_call f s) as Hk.
  destruct (call f s) as [[[]|e] s1]; simpl in Hk; [|by apply (wf_core tbl s)].
  injection Hk as E1 E2 E3 E4. destruct (remove_frame (Status t) id s1) as (F1 & F2 & F3).
  apply (wf_remove s _ id t); simpl; rewrite ?F1, ?F2, ?F3, ?E1, ?E2, ?E4; try done.
  intros x id'. rewrite (ids_with_core (removeFromStatusIndex (Status t) id s1)) by done.
  rewrite ids_with_remove. by rewrite (ids_with_core s s1 x) by done.
Qed.

Lemma RestoreTask_wf id s : store_wf tbl s → store_wf tbl (RestoreTask tbl id s).2.
Proof.
  intros Hwf. unfold RestoreTask. destruct (deleted s !! id) as [t|] eqn:Hd; [|done].
  assert (ID t = id) as Hid by (by apply (wf_deleted_ids _ _ Hwf)).
  unfold mbind at 1, M_bind at 1, bind at 1. pose proof (keeps_oversight_text id s) as Hk.
  destruct (oversight_text_or_empty id s) as [[raw|e] s1]; simpl in Hk; [|by apply (wf_core tbl s)].
  unfold mbind at 1, M_bind at 1, bind at 1. pose proof (keeps_attempt (be_DeleteBlob id tombstone_key) s1) as Hk2.
  destruct (attempt (be_DeleteBlob id tombstone_key) s1) as [[r|e] s2]; simpl in Hk2;
    [|apply (wf_core tbl s); [by etrans|done]].
  assert (core s2 = core s) as Hc by (by etrans). clear Hk Hk2.
  assert (tasks s !! id = None) as Hn.
  { destruct (tasks s !! id) eqn:E; [|done]. apply (wf_disjoint _ _ Hwf) in E. congruence. }
  destruct r as [?|[|?]]; [| |by apply (wf_core tbl s)].
  all: injection Hc as E1 E2 E3 E4.
  all: apply (wf_insert s _ t raw); simpl; rewrite ?Hid, ?E1, ?E2, ?E4; try done;
    [by rewrite lookup_delete_eq|intros id' Hne; by rewrite lookup_delete_ne|].
  all: intros x id'; rewrite (ids_with_core (addToStatusIndex (Status t) id s2)) by done;
    rewrite ids_with_add; by rewrite (ids_with_core s s2 x) by done.
Qed.

Lemma purge_wf id s : store_wf tbl s → store_wf tbl (purgeTaskLocked id s).2.
Proof.
  intros Hwf. unfold purgeTaskLocked. destruct (deleted s !! id) as [t|] eqn:Hd; [|done].
  unfold mbind at 1, M_bind at 1, bind at 1. pose proof (keeps_call (be_RemoveTask id) s) as Hk.
  destruct (call (be_RemoveTask id) s) as [[[]|e] s1]; simpl in Hk; [|by apply (wf_core tbl s)].
  injection Hk as E1 E2 E3 E4. destruct Hwf as [Hid Hdid Hdis Hst Hix Hixd].
  split; unfold ids_with in *; simpl; rewrite ?E1, ?E2, ?E3, ?E4; try done.
  - intros id1 t1 [_ ?]%lookup_delete_Some. eauto.
  - intros id1 t1 Ht1. apply lookup_delete_None. right. eauto.
Qed.
(** ** Operations that keep the invariant *)

Definition pres {A} (m : M A) : Prop := ∀ s, store_wf tbl s → store_wf tbl (m s).2.

Lemma pres_keeps {A} (m : M A) : keeps m → pres m.
Proof. intros Hk s. by apply wf_keeps. Qed.

Lemma pres_bind {A C} (m : M A) (k : A → M C) : pres m → (∀ a, pres (k a)) → pres (m ≫= k).
Proof.
  intros Hm Hk s Hwf. unfold mbind, M_bind, bind. specialize (Hm s Hwf).
  destruct (m s) as [[a|e] s']; simpl in *; [by apply Hk|done].
Qed.

Lemma pres_ignore {A} (m : M A) : pres m → pres (ignore m).
Proof. intros Hm s. apply Hm. Qed.

Lemma pres_iterM {A} (f : A → M unit) l : (∀ x, pres (f x)) → pres (iterM f l).
Proof.
  intros Hf. induction l as [|x l IH]; simpl; [apply pres_keeps, keeps_ret|].
  apply pres_bind; [apply Hf|intros _; apply IH].
Qed.

Lemma pres_mutate now id fn : good_fn id fn → pres (mutateTask now id fn).
Proof. intros Hfn s. by apply mutateTask_wf. Qed.

Lemma pres_orphans order now id : pres (removeOrphanedDependents order now id).
Proof.
  apply pres_bind; [apply pres_keeps, keeps_gets|]. intros deps. apply pres_iterM. intros d.
  apply pres_ignore, pres_mutate, (good_fn_pure _ (drop_dep id)). done.
Qed.

Lemma pres_PurgeExpired order threshold : pres (PurgeExpiredTombstones order threshold).
Proof.
  apply pres_iterM. intros id. apply pres_bind; [apply pres_keeps, keeps_read_doc|].
  intros [| |tomb]; try apply pres_keeps, keeps_ret. case_match; [|apply pres_keeps, keeps_ret].
  apply pres_ignore. intros s. apply purge_wf.
Qed.

Lemma update_index_wf id g s :
  (∀ t raw, ∃ raw', g (buildIndexEntry tbl t raw) = buildIndexEntry tbl t raw') →
  store_wf tbl s → store_wf tbl (update_index id g s).2.
Proof.
  intros Hg [Hid Hdid Hdis Hst Hix Hixd]. split; simpl; try done.
  - intros id1 t1 Ht1. destruct (Hix _ _ Ht1) as [raw Hraw]. destruct (decide (id = id1)) as [<-|Hne].
    + rewrite lookup_alter_eq, Hraw. simpl. destruct (Hg t1 raw) as [raw' ->]. eauto.
    + rewrite lookup_alter_ne by done. eauto.
  - intros id1 Ht1. destruct (decide (id = id1)) as [<-|Hne].
    + by rewrite lookup_alter_eq, (Hixd _ Ht1).
    + rewrite lookup_alter_ne by done. auto.
Qed.

Lemma pres_SaveOversight id o : pres (SaveOversight tbl id o).
Proof.
  apply pres_bind; [apply pres_keeps, keeps_call|]. intros _ s. apply update_index_wf.
  intros t raw. by exists (oversightText o).
Qed.

Lemma pres_rebuild order n : pres (RebuildSearchIndex tbl order n).
Proof.
  revert n. induction order as [|id order IH]; intros n; simpl; [apply pres_keeps, keeps_ret|].
  intros s Hwf. unfold mbind, M_bind, bind, rebuild_snapshot, gets at 1.
  destruct (tasks s !! id) as [t|] eqn:Ht; simpl; [|by apply IH].
  pose proof (keeps_oversight_text id s) as Hk.
  destruct (oversight_text_or_empty id s) as [[raw|e] s1]; simpl in Hk; [|by apply (wf_core tbl s)].
  unfold rebuild_write. apply (wf_core tbl s s1) in Hwf as Hwf1; [|done]. injection Hk as E1 E2 E3 E4.
  case_decide; [by apply IH|]. apply IH. destruct Hwf1 as [Hid Hdid Hdis Hst Hix Hixd].
  split; simpl; try done.
  - intros id1 t1 Ht1. destruct (decide (id = id1)) as [<-|Hne].
    + exists raw. rewrite lookup_insert_eq. f_equal. rewrite E1 in Ht1. by simplify_eq.
    + rewrite lookup_insert_ne by done. eauto.
  - intros id1 Ht1. rewrite lookup_insert_ne; [auto|]. intros <-. rewrite E1 in Ht1. congruence.
Qed.

Lemma pres_SaveTurnOutput now id turn out err : pres (SaveTurnOutput now id turn out err).
Proof.
  apply pres_bind; [apply pres_keeps, keeps_gets|]. intros n.
  destruct (truncateTurnData n out) as [o1 n1], (truncateTurnData n err) as [e1 n2].
  apply pres_bind; [apply pres_keeps, keeps_call|]. intros _.
  apply pres_bind; [case_decide; apply pres_keeps; [apply keeps_ret|apply keeps_call]|]. intros _.
  case_match; [|apply pres_keeps, keeps_ret].
  by apply pres_ignore, pres_mutate, good_fn_pure.
Qed.

Lemma ArchiveAllDone_wf order now s : store_wf tbl s → store_wf tbl (ArchiveAllDone order now s).2.
Proof.
  unfold ArchiveAllDone. generalize (@nil uuid). revert s.
  induction order as [|id order IH]; intros s acc Hwf; cbn [archive_loop]; [done|].
  destruct (tasks s !! id) as [t|] eqn:Ht; [|by apply IH]. case_match; [by apply IH|].
  set (t1 := stamp _). set (s1 := s <| tasks := <[id:=t1]> (tasks s) |>).
  assert (store_wf tbl s1) as Hwf1.
  { destruct (wf_index _ _ Hwf _ _ Ht) as [raw Hraw].
    apply (wf_replace s s1 id t t1 raw); try done; [exact (wf_ids _ _ Hwf _ _ Ht)|].
    intros x id'. rewrite (ids_with_core s s1) by done. rewrite !(wf_status _ _ Hwf).
    split; [|naive_solver]. intros (t2 & Ht2 & <-). destruct (decide (id' = id)) as [->|]; [left|right; eauto].
    by simplify_eq. }
  change ((put_mem id t1 ;; saveTask t1) s) with (saveTask t1 s1). pose proof (keeps_save t1 s1) as Hk.
  destruct (saveTask t1 s1) as [[[]|e] s2]; simpl in Hk.
  - apply IH. by apply (wf_core tbl s1).
  - by apply (wf_core tbl s1).
Qed.
(** ** The operations of the store, as steps

    [operation late s m]: [m] is an operation of the store that may run in state
    [s].  Each entry into a terminal status compacts the events in a goroutine of its
    own, up to the last event at that time; unless [late], such a compaction does
    not run after one that covers more.  A [store_op] is any operation.
    [CreateTaskWithOptions] asks for an identifier that is not in use, which is
    what [uuid.New] and the callers' fresh identifiers give.  [ArchiveAllDone]
    and the operations with a result are run for their effect. *)
Inductive operation (late : Prop) (s : Store) : M unit → Prop :=
| op_create order fresh now o :
    tasks s !! ID (build_task tbl order fresh now o) = None →
    deleted s !! ID (build_task tbl order fresh now o) = None →
    operation late s (ignore (CreateTaskWithOptions tbl order fresh now o))
| op_delete order now nows id reason : operation late s (DeleteTask order now nows id reason)
| op_cancel order n1 n2 nows id : operation late s (CancelTask order n1 n2 nows id)
| op_restore id : operation late s (RestoreTask tbl id)
| op_purge id : operation late s (PurgeTask id)
| op_purge_expired order th : operation late s (PurgeExpiredTombstones order th)
| op_status n1 n2 id st : operation late s (UpdateTaskStatus n1 n2 id st)
| op_force_status n1 n2 id st : operation late s (ForceUpdateTaskStatus n1 n2 id st)
| op_reset n1 n2 id p f : operation late s (ResetTaskForRetry tbl n1 n2 id p f)
| op_resume n1 n2 id tmo : operation late s (ResumeTask n1 n2 id tmo)
| op_archive_all order now : operation late s (λ s, (Ok tt, (ArchiveAllDone order now s).2))
| op_title now id v : operation late s (UpdateTaskTitle tbl now id v)
| op_exec_prompt now id v : operation late s (UpdateTaskExecutionPrompt now id v)
| op_turns now id v : operation late s (UpdateTaskTurns now id v)
| op_result now id a b c n : operation late s (UpdateTaskResult now id a b c n)
| op_lineage now id v : operation late s (UpdateTaskLineage now id v)
| op_review now id n a b : operation late s (UpdateTaskReview now id n a b)
| op_criteria now id v : operation late s (UpdateTaskCriteria now id v)
| op_clear_review now id : operation late s (ClearReviewResult now id)
| op_usage now id a d : operation late s (AccumulateSubAgentUsage now id a d)
| op_position now id v : operation late s (UpdateTaskPosition now id v)
| op_scheduled now id v : operation late s (UpdateTaskScheduledAt now id v)
| op_depends now id v : operation late s (UpdateTaskDependsOn now id v)
| op_tags now id v : operation late s (UpdateTaskTags tbl now id v)
| op_backlog now order id p tm f mw sb c n : operation late s (UpdateTaskBacklog tbl now order id p tm f mw sb c n)
| op_budget now id c n : operation late s (UpdateTaskBudget now id c n)
| op_sandbox_by now order id m : operation late s (UpdateTaskSandboxByActivity tbl now order id m)
| op_sandbox now id v : operation late s (UpdateTaskSandbox tbl now id v)
| op_flow now id v : operation late s (UpdateTaskFlow now id v)
| op_model now id v : operation late s (UpdateTaskModelOverride now id v)
| op_patterns now id a b : operation late s (UpdateTaskCustomPatterns now id a b)
| op_env now id e : operation late s (UpdateTaskEnvironment now id e)
| op_archived now id v : operation late s (SetTaskArchived now id v)
| op_rt_schedule now id v : operation late s (UpdateRoutineSchedule now id v)
| op_rt_enabled now id v : operation late s (UpdateRoutineEnabled now id v)
| op_rt_next now id v : operation late s (UpdateRoutineNextRun now id v)
| op_rt_fired now id v : operation late s (UpdateRoutineLastFiredAt now id v)
| op_prompt now id v : operation late s (ignore (UpdateTaskPromptDirect tbl now id v))
| op_worktrees now id m b : operation late s (UpdateTaskWorktrees now id m b)
| op_commits now id m : operation late s (UpdateTaskCommitHashes now id m)
| op_test_run now id b r : operation late s (UpdateTaskTestRun now id b r)
| op_feedback now id m : operation late s (UpdateTaskPendingTestFeedback now id m)
| op_inc_fail now id : operation late s (IncrementTestFailCount now id)
| op_reset_fail now id : operation late s (ResetTestFailCount now id)
| op_category now id c : operation late s (SetTaskFailureCategory now id c)
| op_commit_msg now id m : operation late s (UpdateTaskCommitMessage now id m)
| op_snapshots now id m : operation late s (UpdateTaskSnapshotDiffs now id m)
| op_base now id m : operation late s (UpdateTaskBaseCommitHashes now id m)
| op_refine_job now id j : operation late s (UpdateRefinementJob now id j)
| op_refine_start since now id j : operation late s (StartRefinementJobIfIdle since now id j)
| op_refine_apply now id p x : operation late s (ApplyRefinement tbl now id p x)
| op_refine_dismiss now id : operation late s (DismissRefinement now id)
| op_truncated now id n : operation late s (MarkTurnTruncated now id n)
| op_retry_count now id c : operation late s (IncrementAutoRetryCount now id c)
| op_fetch_fail n1 n2 id m : operation late s (RecordFetchFailure n1 n2 id m)
| op_fetch_clear now id : operation late s (ClearFetchFailure now id)
| op_event now a b id ty d : operation late s (InsertEvent now a b id ty d)
| op_events id : operation late s (ignore (GetEvents id))
| op_events_page id a l ty : operation late s (ignore (GetEventsPage id a l ty))
| op_compact id m : late ∨ covered (backend s) id <= m → operation late s (compactTaskEvents id m)
| op_output now id n a b : operation late s (SaveTurnOutput now id n a b)
| op_oversight id o : operation late s (SaveOversight tbl id o)
| op_test_oversight id o : operation late s (SaveTestOversight id o)
| op_rebuild order n : operation late s (ignore (RebuildSearchIndex tbl order n))
| op_close : operation late s Close.

Abbreviation store_op := (operation True).

Definition store_step s s' : Prop := ∃ m, store_op s m ∧ s' = (m s).2.

Ltac mutate_pure := intros; apply mutateTask_wf; [|done]; apply good_fn_pure; intros; by repeat case_match.
Ltac mutate_routine :=
  apply mutateTask_wf; [|done]; unfold routine_fn; apply (good_fn_guard _ _ (λ _, _));
  apply good_fn_pure; intros; by repeat case_match.

Lemma backlog_good order id p tm f mw sb c n :
  good_fn id (λ t,
    let t := match p with Some p => t <| Prompt := p |> | None => t end in
    let t := match tm with Some v => t <| TaskTimeout := clampTimeout v |> | None => t end in
    let t := match f with Some v => t <| FreshStart := v |> | None => t end in
    let t := match mw with Some v => t <| MountWorktrees := v |> | None => t end in
    let t := match sb with
             | Some m => t <| SandboxByActivity := normalizeSandboxByActivity tbl order m |>
             | None => t end in
    let t := match c with
             | Some v => t <| MaxCostUSD := if f64_ltb v f64_zero then f64_zero else v |> | None => t end in
    let t := match n with
             | Some v => t <| MaxInputTokens := if Z.ltb v 0 then 0 else v |> | None => t end in
    match p with
    | Some p => update_index id (set_ix_prompt (ToLower tbl p)) ;; mret t
    | None => mret t
    end).
Proof.
  destruct p as [p|].
  - apply (good_fn_index id (set_ix_prompt (ToLower tbl p))); destruct tm, f, mw, sb, c, n; done.
  - apply good_fn_pure. destruct tm, f, mw, sb, c, n; done.
Qed.

(** Every operation of the store keeps it well formed, in every state and
    whatever the backend answers, an operation that fails included. *)
Lemma operation_any late s m : operation late s m → store_op s m.
Proof.
  destruct 1; [by apply op_create|apply op_delete|apply op_cancel|apply op_restore|apply op_purge|apply op_purge_expired|apply op_status|
    apply op_force_status|apply op_reset|apply op_resume|apply op_archive_all|apply op_title|apply op_exec_prompt|apply op_turns|apply op_result|
    apply op_lineage|apply op_review|apply op_criteria|apply op_clear_review|apply op_usage|apply op_position|apply op_scheduled|apply op_depends|
    apply op_tags|apply op_backlog|apply op_budget|apply op_sandbox_by|apply op_sandbox|apply op_flow|apply op_model|apply op_patterns|apply op_env|
    apply op_archived|apply op_rt_schedule|apply op_rt_enabled|apply op_rt_next|apply op_rt_fired|apply op_prompt|apply op_worktrees|apply op_commits|
    apply op_test_run|apply op_feedback|apply op_inc_fail|apply op_reset_fail|apply op_category|apply op_commit_msg|apply op_snapshots|apply op_base|
    apply op_refine_job|apply op_refine_start|apply op_refine_apply|apply op_refine_dismiss|apply op_truncated|apply op_retry_count|
    apply op_fetch_fail|apply op_fetch_clear|apply op_event|apply op_events|apply op_events_page|apply op_compact; by left|apply op_output|
    apply op_oversight|apply op_test_oversight|apply op_rebuild|apply op_close].
Qed.

Lemma store_wf_step s m : store_op s m → store_wf tbl s → store_wf tbl (m s).2.
Proof.
  intros Hop Hwf. destruct Hop; try (mutate_pure; fail); try (mutate_routine; fail);
    try (by apply pres_keeps; [unfold SaveTestOversight; keeps_tac|]).
  - by apply CreateTask_wf.
  - apply pres_bind; [intros s'; apply delete_locked_wf|intros _; apply pres_orphans|done].
  - apply pres_bind; [intros s'; apply ForceUpdateTaskStatus_wf|intros _; apply pres_orphans|done].
  - by apply RestoreTask_wf.
  - by apply purge_wf.
  - by apply pres_PurgeExpired.
  - by apply UpdateTaskStatus_wf.
  - by apply ForceUpdateTaskStatus_wf.
  - by apply ResetTaskForRetry_wf.
  - by apply ResumeTask_wf.
  - by apply ArchiveAllDone_wf.
  - apply mutateTask_wf; [|done]. by apply (good_fn_index id (set_ix_title _) (λ t, t <| Title := v |>)).
  - apply mutateTask_wf; [|done]. by apply (good_fn_index id (set_ix_tags (ToLower tbl (strings_Join v " "%string))) (λ t, t <| Tags := v |>)).
  - apply mutateTask_wf; [apply backlog_good|done].
  - apply pres_ignore; [|done]. apply pres_bind; [apply pres_keeps, keeps_find|]. intros t0.
    apply pres_bind; [|intros _; apply pres_keeps, keeps_ret]. apply pres_mutate.
    apply (good_fn_guard id _ (λ t, ErrPromptStatus (Status t))).
    by apply (good_fn_index id (set_ix_prompt _) (λ t, t <| Prompt := v |>)).
  - apply mutateTask_wf; [|done]. intros t s' raw Hraw. cbv beta. destruct (refinement_busy since t); [done|]. by split_and!.
  - apply mutateTask_wf; [|done].
    by apply (good_fn_index id (set_ix_prompt _) (λ t, t <| PromptHistory := PromptHistory t ++ [Prompt t] |>
            <| RefineSessions := RefineSessions t ++ [_] |> <| Prompt := p |> <| CurrentRefinement := None |>)).
  - unfold ClearFetchFailure. repeat case_match; try done. mutate_pure.
  - apply pres_keeps; [apply keeps_InsertEvent|done].
  - apply pres_keeps; [apply keeps_ignore, keeps_GetEvents|done].
  - apply pres_keeps; [apply keeps_ignore, keeps_GetEventsPage|done].
  - apply pres_keeps; [apply keeps_compact|done].
  - by apply pres_SaveTurnOutput.
  - by apply pres_SaveOversight.
  - apply pres_ignore; [apply pres_rebuild|done].
Qed.
End keeps_ops.

Abbreviation store_op tbl := (operation tbl True).
Abbreviation timely_op tbl := (operation tbl False).
