(* ===== verification/StoreDurable.v ===== *)
(** * Durability of the store

    [synced]: the backend holds, for every live or soft-deleted task, the
    in-memory record up to pruned history, a tombstone exactly for the deleted ones, and no
    other task.  While the backend works every operation keeps it
    ([synced_step]); [NewStore] on the backend of a synced store finds every
    task again, on the same side of deletion ([restart_recovers]).  Under
    faults, [mutateTask_ack] says what an acknowledged or refused update did. *)

From S2P Require Import Prelude StateMachine GoStrings PkgUtil TaskModel Backend Store StoreUpdate StoreWf.
From Stdlib Require Import String.
From stdpp Require Import list gmap.
Local Open Scope Z_scope.

Section durable.
Context `{UUIDLib} {B : Type} `{!StorageBackend B} (tbl : Z → Z).
Abbreviation Store := (Store B).
Abbreviation M := (M (B:=B)).
Implicit Types (s : Store) (t : Task) (id : uuid).

Definition disk s : contents := view (backend s).
Definition tombed (c : contents) id : Prop := is_Some (c_blobs c !! (id, tombstone_key)).
#[export] Instance tombed_dec c id : Decision (tombed c id).
Proof. unfold tombed. apply _. Defined.
Definition limits s := (retryHistoryLimit s, refineSessionsLimit s, promptHistoryLimit s).

(** The stored record is the one in memory, up to the history that a save prunes. *)
Definition on_disk s id t : Prop :=
  ∃ d, c_tasks (disk s) !! id = Some d ∧ pruneTaskPayload s d = pruneTaskPayload s t.

Record synced s : Prop := {
  sy_healthy : healthy (backend s);
  sy_live : ∀ id t, tasks s !! id = Some t →
    on_disk s id t ∧ ¬ tombed (disk s) id;
  sy_deleted : ∀ id t, deleted s !! id = Some t →
    on_disk s id t ∧ tombed (disk s) id;
  sy_only : ∀ id t, c_tasks (disk s) !! id = Some t → is_Some (tasks s !! id) ∨ is_Some (deleted s !! id);
  sy_fresh : ∀ id, tombed (disk s) id → is_Some (c_tasks (disk s) !! id)
}.

Lemma prune_limits s s' t : limits s' = limits s → pruneTaskPayload s' t = pruneTaskPayload s t.
Proof. unfold limits, pruneTaskPayload. by intros [= -> -> ->]. Qed.

(** [s'] differs from [s] in nothing that [synced] speaks of. *)
Record quiet_to s s' : Prop := {
  q_healthy : healthy (backend s) → healthy (backend s');
  q_live : tasks s' = tasks s;
  q_deleted : deleted s' = deleted s;
  q_tasks : c_tasks (disk s') = c_tasks (disk s);
  q_tombed : ∀ id, tombed (disk s') id ↔ tombed (disk s) id;
  q_limits : limits s' = limits s
}.

Lemma quiet_refl s : quiet_to s s.
Proof. by split. Qed.

Lemma quiet_trans s1 s2 s3 : quiet_to s1 s2 → quiet_to s2 s3 → quiet_to s1 s3.
Proof.
  intros [A1 A2 A3 A4 A5 A6] [C1 C2 C3 C4 C5 C6]. split; [auto|congruence..| |congruence].
  intros id. by rewrite C5, A5.
Qed.

Lemma on_disk_quiet s s' id t : c_tasks (disk s') = c_tasks (disk s) → limits s' = limits s →
  on_disk s' id t ↔ on_disk s id t.
Proof. intros Q4 Q6. unfold on_disk. rewrite Q4. by setoid_rewrite (prune_limits s s'); [|done..]. Qed.

Lemma synced_quiet s s' : quiet_to s s' → synced s → synced s'.
Proof.
  intros [Q1 Q2 Q3 Q4 Q5 Q6] [S1 S2 S3 S4 S5]. split; [auto|..].
  - intros id t. rewrite Q2, Q5, (on_disk_quiet s s') by done. apply S2.
  - intros id t. rewrite Q3, Q5, (on_disk_quiet s s') by done. apply S3.
  - intros id t. rewrite Q2, Q3, Q4. apply S4.
  - intros id. rewrite Q4, Q5. apply S5.
Qed.

Definition quiet {A} (m : M A) : Prop := ∀ s, healthy (backend s) → quiet_to s (m s).2.

Lemma quiet_ret {A} (a : A) : quiet (mret a).
Proof. intros s _. apply quiet_refl. Qed.

Lemma quiet_throw {A} e : quiet (throw (A:=A) e).
Proof. intros s _. apply quiet_refl. Qed.

Lemma quiet_gets {A} (f : Store → A) : quiet (gets f).
Proof. intros s _. apply quiet_refl. Qed.

Lemma quiet_bind {A C} (m : M A) (k : A → M C) : quiet m → (∀ a, quiet (k a)) → quiet (m ≫= k).
Proof.
  intros Hm Hk s Hh. unfold mbind, M_bind, bind. specialize (Hm s Hh).
  destruct (m s) as [[a|e] s']; simpl in *; [|done]. eapply quiet_trans; [done|]. apply Hk. by apply Hm.
Qed.

Lemma quiet_ignore {A} (m : M A) : quiet m → quiet (ignore m).
Proof. intros Hm s. apply Hm. Qed.

Lemma quiet_modify f : (∀ s, backend (f s) = backend s ∧ tasks (f s) = tasks s ∧ deleted (f s) = deleted s ∧
  limits (f s) = limits s) → quiet (modify f).
Proof.
  intros Hf s _. destruct (Hf s) as (E1 & E2 & E3 & E4). unfold modify; simpl.
  split; unfold disk; rewrite ?E1; try done.
Qed.

Lemma quiet_set_backend s b :
  (healthy (backend s) → healthy b) → c_tasks (view b) = c_tasks (view (backend s)) →
  (∀ id, tombed (view b) id ↔ tombed (view (backend s)) id) → quiet_to s (s <| backend := b |>).
Proof. intros. by split. Qed.

(** Backend calls that only read, or that write a blob other than a tombstone. *)
Definition reads {A} (f : B → result io_error A * B) : Prop := ∀ b r b', f b = (r, b') →
  (healthy b → healthy b') ∧ c_tasks (view b') = c_tasks (view b) ∧
  (∀ id, tombed (view b') id ↔ tombed (view b) id).

Lemma quiet_call {A} (f : B → result io_error A * B) : reads f → quiet (call f).
Proof.
  intros Hf s _. unfold call. destruct (f (backend s)) as [r b] eqn:E. destruct (Hf _ _ _ E) as (? & ? & ?).
  destruct r; by apply quiet_set_backend.
Qed.

Lemma quiet_attempt {A} (f : B → result io_error A * B) : reads f → quiet (attempt f).
Proof.
  intros Hf s _. unfold attempt. destruct (f (backend s)) as [r b] eqn:E. destruct (Hf _ _ _ E) as (? & ? & ?).
  by apply quiet_set_backend.
Qed.

Lemma reads_same_view {A} (f : B → result io_error A * B) :
  (∀ b r b', f b = (r, b') → view b' = view b ∧ (healthy b → healthy b')) → reads f.
Proof. intros Hf b r b' Hr. destruct (Hf _ _ _ Hr) as [-> ?]. done. Qed.

Lemma reads_ReadBlob id k : reads (be_ReadBlob id k).
Proof. apply reads_same_view. intros b r b' (? & _ & ?)%read_blob_law. done. Qed.

Lemma reads_LoadEvents id : reads (be_LoadEvents id).
Proof. apply reads_same_view. intros b r b' [? Hh]%load_events_law. split; [done|]. intros. by apply Hh. Qed.

Lemma reads_SaveEvent id seq e : reads (be_SaveEvent id seq e).
Proof.
  intros b r b' (E1 & E2 & _ & Hh)%save_event_law. split; [intros; by apply Hh|]. unfold tombed. rewrite E1, E2. done.
Qed.

Lemma reads_Compact id evs : reads (be_CompactEvents id evs).
Proof.
  intros b r b' (E1 & E2 & _ & _ & Hh)%compact_law. split; [done|]. unfold tombed. rewrite E1, E2. done.
Qed.

Lemma reads_Init id : reads (be_Init id).
Proof. apply reads_same_view. intros b r b' [? Hh]%init_law. split; [done|]. intros. by apply Hh. Qed.

Lemma reads_SaveBlob id k d : k ≠ tombstone_key → reads (be_SaveBlob id k d).
Proof.
  intros Hk b r b' [Hv Hh]%save_blob_law. split; [intros; by apply Hh|]. rewrite Hv.
  destruct (is_ok r); [|done]. simpl. split; [done|]. intros id'. unfold tombed; simpl.
  rewrite lookup_insert_ne by congruence. done.
Qed.

Lemma quiet_notify t b : quiet (notify t b).
Proof. by apply quiet_modify. Qed.

Lemma quiet_index id g : quiet (update_index id g).
Proof. by apply quiet_modify. Qed.

Lemma quiet_find id : quiet (find_task id).
Proof. intros s _. unfold find_task. destruct (tasks s !! id); apply quiet_refl. Qed.

Lemma quiet_read_doc {A} id k (p : blob → option A) : quiet (read_doc id k p).
Proof. apply quiet_bind; [apply quiet_attempt, reads_ReadBlob|intros; apply quiet_ret]. Qed.

Lemma quiet_status_index st id : quiet (modify (removeFromStatusIndex st id)) ∧ quiet (modify (addToStatusIndex st id)).
Proof. split; apply quiet_modify; intros s; [unfold removeFromStatusIndex; by case_match|done]. Qed.

Lemma quiet_schedule id : quiet (scheduleTerminalCompaction id).
Proof. apply quiet_modify. intros s. by destruct (closed s). Qed.
End durable.

(** Solves [quiet] goals by following the operation's code. *)
Ltac quiet_step :=
  lazymatch goal with
  | |- ∀ _, _ => intros
  | |- quiet (mbind _ _) => apply quiet_bind
  | |- quiet (mret _) => apply quiet_ret
  | |- quiet (throw _) => apply quiet_throw
  | |- quiet (gets _) => apply quiet_gets
  | |- quiet (call (be_SaveBlob _ _ _)) => apply quiet_call, reads_SaveBlob; done
  | |- quiet (call (be_LoadEvents _)) => apply quiet_call, reads_LoadEvents
  | |- quiet (call (be_SaveEvent _ _ _)) => apply quiet_call, reads_SaveEvent
  | |- quiet (call (be_CompactEvents _ _)) => apply quiet_call, reads_Compact
  | |- quiet (call (be_Init _)) => apply quiet_call, reads_Init
  | |- quiet (ignore _) => apply quiet_ignore
  | |- quiet (find_task _) => apply quiet_find
  | |- quiet (notify _ _) => apply quiet_notify
  | |- quiet (update_index _ _) => apply quiet_index
  | |- quiet (read_doc _ _ _) => apply quiet_read_doc
  | |- quiet (scheduleTerminalCompaction _) => apply quiet_schedule
  | |- quiet (match _ with _ => _ end) => case_match
  end.
Ltac quiet_tac := repeat quiet_step.

Section durable_ops.
Context `{UUIDLib} {B : Type} `{!StorageBackend B} (tbl : Z → Z).
Abbreviation Store := (Store B).
Abbreviation M := (M (B:=B)).
Implicit Types (s : Store) (t : Task) (id : uuid).

(** ** Operations that write nothing [synced] speaks of *)

Lemma quiet_oversight_text id : quiet (oversight_text_or_empty (B:=B) id).
Proof.
  assert (quiet (LoadOversightText (B:=B) id)) as Hq by (unfold LoadOversightText; quiet_tac).
  intros s Hh. specialize (Hq s Hh). unfold oversight_text_or_empty. by destruct (LoadOversightText id s) as [[?|?] ?].
Qed.

Lemma quiet_summary t : quiet (buildAndSaveSummary (B:=B) t).
Proof.
  assert (quiet (GetOversight (B:=B) (ID t))) as Hq by (unfold GetOversight, get_oversight; quiet_tac).
  intros s Hh. specialize (Hq s Hh). unfold buildAndSaveSummary. destruct (GetOversight (ID t) s) as [r s']. simpl in *.
  eapply quiet_trans; [done|]. apply (quiet_ignore (SaveSummary _ _)); [|by apply Hq].
  unfold SaveSummary. quiet_tac.
Qed.

Lemma quiet_loadEvents id : quiet (loadEvents (B:=B) id).
Proof.
  unfold loadEvents. apply quiet_bind; [apply quiet_call, reads_LoadEvents|]. intros [evs m]. by apply quiet_modify.
Qed.

Lemma quiet_ensure id : quiet (ensureEventsLoadedLocked (B:=B) id).
Proof.
  intros s Hh. unfold ensureEventsLoadedLocked. case_match; [apply quiet_refl|].
  pose proof (quiet_loadEvents id s Hh) as Hq. destruct (loadEvents id s) as [r s']; simpl in *.
  eapply quiet_trans; [done|]. by split.
Qed.

Lemma quiet_InsertEvent now a1 a2 id ty data : quiet (InsertEvent (B:=B) now a1 a2 id ty data).
Proof.
  unfold InsertEvent. destruct data; quiet_tac; [apply quiet_ensure|by apply quiet_modify].
Qed.

Lemma quiet_GetEvents id : quiet (GetEvents (B:=B) id).
Proof. unfold GetEvents. quiet_tac. apply quiet_ensure. Qed.

Lemma quiet_GetEventsPage id a l ty : quiet (GetEventsPage (B:=B) id a l ty).
Proof. unfold GetEventsPage. quiet_tac. apply quiet_ensure. Qed.

Lemma quiet_compact id m : quiet (compactTaskEvents (B:=B) id m).
Proof. unfold compactTaskEvents. quiet_tac. Qed.

Lemma quiet_SaveOversight id o : quiet (SaveOversight (B:=B) tbl id o).
Proof. unfold SaveOversight. quiet_tac. Qed.

Lemma quiet_rebuild order n : quiet (RebuildSearchIndex (B:=B) tbl order n).
Proof.
  revert n. induction order as [|id order IH]; intros n; simpl; [apply quiet_ret|].
  apply quiet_bind; [apply quiet_gets|]. intros [t|]; [|apply IH].
  apply quiet_bind; [apply quiet_oversight_text|]. intros raw. apply quiet_bind; [|done].
  intros s _. unfold rebuild_write. case_decide; [apply quiet_refl|]. by split.
Qed.

(** ** Saving the record that memory holds *)

Lemma prune_idem s t : pruneTaskPayload s (pruneTaskPayload s t) = pruneTaskPayload s t.
Proof. unfold pruneTaskPayload; simpl. by rewrite !tail_Of_idem. Qed.

Lemma saveTask_healthy t s : healthy (backend s) →
  ∃ b, saveTask t s = (Ok tt, s <| backend := b |>) ∧ healthy b ∧
       view b = put_task (pruneTaskPayload s (stamp t)) (disk s).
Proof.
  intros Hh. unfold saveTask, call. destruct (be_SaveTask _ (backend s)) as [r b] eqn:E.
  apply save_task_law in E as [Hv Hok]. destruct (Hok Hh) as [Hr Hb]. destruct r as [[]|]; [|done]. eauto.
Qed.

Lemma stamp_id t : SchemaVersion t = CurrentTaskSchemaVersion → stamp t = t.
Proof. intros E. unfold stamp. rewrite <- E. by destruct t. Qed.

Lemma stamp_stamp t : stamp (stamp t) = stamp t.
Proof. done. Qed.

(** Memory holds [t] instead of what [s] had; saving [t] catches up. *)
Lemma save_catches_up s s1 t :
  synced s → deleted s !! ID t = None → ¬ tombed (disk s) (ID t) → stamp t = t →
  quiet_to (s <| tasks := <[ID t := t]> (tasks s) |>) s1 →
  ∃ s2, saveTask t s1 = (Ok tt, s2) ∧ synced s2.
Proof.
  intros [S1 S2 S3 S4 S5] Hd Hnt Hst [Q1 Q2 Q3 Q4 Q5 Q6]. simpl in *.
  destruct (saveTask_healthy t s1) as (b & Hs & Hb & Hv); [auto|]. rewrite Hst in Hv.
  exists (s1 <| backend := b |>). split; [done|].
  assert (∀ id, tombed (view b) id ↔ tombed (disk s) id) as Ht by (intros id; rewrite <- Q5, Hv; done).
  assert (∀ x, pruneTaskPayload (s1 <| backend := b |>) x = pruneTaskPayload s x) as Hp
    by (intros x; by apply prune_limits).
  assert (c_tasks (view b) = <[ID t := pruneTaskPayload s t]> (c_tasks (disk s))) as Hc.
  { rewrite Hv. simpl. by rewrite Q4, (prune_limits s s1). }
  split; [done|..].
  - intros id x. unfold on_disk, disk. simpl. rewrite Q2, Ht, Hc.
    intros [[<- <-]|[Hne [(d & Hd1 & Hd2) ?]%S2]]%lookup_insert_Some.
    + split; [|done]. eexists. rewrite lookup_insert_eq, !Hp. split; [done|apply prune_idem].
    + split; [|done]. exists d. rewrite lookup_insert_ne, !Hp by done. done.
  - intros id x. unfold on_disk, disk. simpl. rewrite Q3, Ht, Hc. intros Hx.
    assert (ID t ≠ id) by congruence. apply S3 in Hx as [(d & Hd1 & Hd2) ?].
    split; [|done]. exists d. rewrite lookup_insert_ne, !Hp by done. done.
  - intros id x. unfold disk. simpl. rewrite Q2, Q3, Hc. intros [[<- _]|[Hne Hx]]%lookup_insert_Some.
    + left. by rewrite lookup_insert_eq.
    + rewrite lookup_insert_ne by done. by eapply S4.
  - intros id. unfold disk. simpl. rewrite Ht, Hc, lookup_insert_is_Some. intros ?%S5.
    destruct (decide (ID t = id)); auto.
Qed.

Lemma live_not_tombed s id t : synced s → store_wf tbl s → tasks s !! id = Some t →
  ID t = id ∧ deleted s !! id = None ∧ ¬ tombed (disk s) id.
Proof.
  intros Hs Hwf Ht. split_and!; [by apply (wf_ids _ _ Hwf)|by eapply (wf_disjoint _ _ Hwf)|].
  by apply (sy_live _ Hs _ _ Ht).
Qed.

(** Replacing a live task and saving it. *)
Lemma replace_catches_up s s1 id t t' :
  synced s → store_wf tbl s → tasks s !! id = Some t → ID t' = ID t → stamp t' = t' →
  quiet_to (s <| tasks := <[id := t']> (tasks s) |>) s1 →
  ∃ s2, saveTask t' s1 = (Ok tt, s2) ∧ synced s2.
Proof.
  intros Hs Hwf Ht Hid Hst Hq. destruct (live_not_tombed s id t) as (E & Hd & Hn); [done..|].
  assert (ID t' = id) as <- by congruence. by apply (save_catches_up s).
Qed.

(** ** Each operation *)

(** A closure that keeps the identifier and is quiet about the rest. *)
Definition durable_fn (fn : Task → M Task) : Prop :=
  (∀ t s t' s', fn t s = (Ok t', s') → ID t' = ID t) ∧ (∀ t, quiet (fn t)).

Lemma mutateTask_synced now id fn s :
  durable_fn fn → store_wf tbl s → synced s → synced (mutateTask now id fn s).2.
Proof.
  intros [Hid Hq] Hwf Hs. unfold mutateTask, mbind, M_bind, bind, find_task.
  destruct (tasks s !! id) as [t|] eqn:Ht; [|done].
  pose proof (Hq t s (sy_healthy _ Hs)) as Hq1. pose proof (Hid t s) as Hid1.
  destruct (fn t s) as [[t'|e] s1]; simpl in *; [|by apply (synced_quiet s)].
  set (t2 := stamp (t' <| UpdatedAt := now |>)). set (s2 := s1 <| tasks := <[id:=t2]> (tasks s1) |>).
  destruct (replace_catches_up s s2 id t t2) as (s3 & -> & Hs3); try done.
  - simpl. by eapply Hid1.
  - destruct Hq1 as [Q1 Q2 Q3 Q4 Q5 Q6]. split; try done. simpl. by rewrite Q2.
  - eapply synced_quiet; [|done]. apply quiet_notify, Hs3.
Qed.

Lemma quiet_move id t t' s :
  quiet_to (s <| tasks := <[id := t']> (tasks s) |>) (move_task id t t' s).
Proof. unfold move_task, removeFromStatusIndex. case_match; by split. Qed.

Lemma quiet_status_tail id t st s s1 :
  saveTask t s = (Ok tt, s1) → synced s1 → synced (status_tail id t st s).2.
Proof.
  intros Hs Hs1. unfold status_tail, mbind at 1, M_bind at 1, bind at 1. rewrite Hs.
  eapply synced_quiet; [|done]. apply quiet_bind; [| |apply Hs1]; quiet_tac; [apply quiet_summary|].
  apply quiet_modify. intros s'. by destruct (OnDone s').
Qed.

Lemma set_status_synced now1 now2 id t st s :
  store_wf tbl s → synced s → tasks s !! id = Some t → synced (set_status now1 now2 id t st s).2.
Proof.
  intros Hwf Hs Ht. rewrite (set_status_eq tbl).
  destruct (replace_catches_up s (move_task id t (with_status now1 now2 t st) s) id t (with_status now1 now2 t st))
    as (s1 & H1 & Hs1); try done; [..|apply quiet_move|by eapply quiet_status_tail].
  by apply (with_status_facts tbl now1 now2 t st EmptyString).
Qed.

(** A save of the task that memory already holds, and its notification. *)
Lemma save_notify_synced t s s1 : saveTask t s = (Ok tt, s1) → synced s1 →
  synced ((saveTask t ;; notify t false) s).2.
Proof.
  intros Hs Hs1. unfold mbind, M_bind, bind. rewrite Hs. eapply synced_quiet; [|done]. apply quiet_notify, Hs1.
Qed.

Lemma ResumeTask_synced now1 now2 id timeout s :
  store_wf tbl s → synced s → synced (ResumeTask now1 now2 id timeout s).2.
Proof.
  intros Hwf Hs. unfold ResumeTask, mbind at 1, M_bind at 1, bind at 1, find_task.
  destruct (tasks s !! id) as [t|] eqn:Ht; [|done].
  set (t1 := t <| Status := TaskStatusInProgress |>).
  set (t2 := if decide (StartedAt t1 = None) then t1 <| StartedAt := Some now1 |> else t1).
  set (t3 := match timeout with Some v => t2 <| TaskTimeout := clampTimeout v |> | None => t2 end).
  set (t4 := stamp (t3 <| UpdatedAt := now2 |>)).
  assert (Status t4 = TaskStatusInProgress ∧ ID t4 = ID t) as (Es & Ei).
  { unfold t4, t3, t2. by destruct timeout, (decide (StartedAt t1 = None)). }
  destruct (replace_catches_up s (move_task id t t4 s) id t t4) as (s1 & H1 & Hs1);
    [done|done|done|done|apply stamp_stamp|apply quiet_move|].
  pose proof (save_notify_synced t4 _ _ H1 Hs1) as Hfin. unfold move_task in Hfin. by rewrite Es in Hfin.
Qed.

Lemma ResetTaskForRetry_synced now1 now2 id newPrompt fresh s :
  store_wf tbl s → synced s → synced (ResetTaskForRetry tbl now1 now2 id newPrompt fresh s).2.
Proof.
  intros Hwf Hs. unfold ResetTaskForRetry, mbind at 1, M_bind at 1, bind at 1, find_task.
  destruct (tasks s !! id) as [t|] eqn:Ht; [|done].
  set (t2 := stamp (reset_task now1 now2 newPrompt fresh t)).
  set (s1 := s <| searchIndex := alter (set_ix_prompt (ToLower tbl newPrompt)) id (searchIndex s) |>).
  destruct (replace_catches_up s (move_task id t t2 s1) id t t2) as (s2 & H2 & Hs2);
    [done|done|done|done|apply stamp_stamp| |].
  { apply (quiet_trans _ (s1 <| tasks := <[id := t2]> (tasks s1) |>)); [by split|apply quiet_move]. }
  exact (save_notify_synced t2 (move_task id t t2 s1) s2 H2 Hs2).
Qed.

Lemma CreateTask_synced order fresh now o s :
  let id := ID (build_task tbl order fresh now o) in
  tasks s !! id = None → deleted s !! id = None →
  synced s → synced (CreateTaskWithOptions tbl order fresh now o s).2.
Proof.
  intros id Hfr Hdel Hs. unfold CreateTaskWithOptions. set (t0 := build_task tbl order fresh now o) in *.
  unfold mbind at 1, M_bind at 1, bind at 1.
  pose proof (quiet_call (be_Init (ID t0)) (reads_Init _) s (sy_healthy _ Hs)) as Hq.
  destruct (call (be_Init (ID t0)) s) as [[[]|e] s1]; simpl in Hq; [|by apply (synced_quiet s)].
  unfold mbind at 1, M_bind at 1, bind at 1, gets at 1. simpl.
  destruct (min_backlog_pos (map_to_list (tasks s1)).*2) as [minPos has].
  set (t1 := if has then t0 <| Position := wrap64 (minPos - 1) |> else t0).
  assert (ID t1 = id ∧ stamp t1 = t1) as [Ei Es].
  { split; [unfold t1; by destruct has|]. apply stamp_id. unfold t1, t0, build_task.
    destruct has; simpl; case_decide; reflexivity. }
  assert (synced s1) as Hs1 by (by apply (synced_quiet s)).
  assert (¬ tombed (disk s1) (ID t1)) as Hnt.
  { intros [x Hx]%(sy_fresh _ Hs1). apply (sy_only _ Hs1) in Hx. rewrite Ei, (q_live _ _ Hq), (q_deleted _ _ Hq) in Hx.
    rewrite Hfr, Hdel in Hx. by destruct Hx as [[]|[]]. }
  destruct (save_catches_up s1 (s1 <| tasks := <[ID t1 := t1]> (tasks s1) |>) t1) as (s3 & H3 & Hs3);
    [done|by rewrite (q_deleted _ _ Hq), Ei|done|done|apply quiet_refl|].
  destruct (saveTask_healthy t1 s1 (sy_healthy _ Hs1)) as (b & Hb & Hb1 & Hb2).
  unfold mbind at 1, M_bind at 1, bind at 1. rewrite Hb. simpl.
  apply (synced_quiet s3); [|done].
  revert H3. unfold saveTask, call in *. simpl. change (pruneTaskPayload (s1 <| tasks := _ |>)) with (pruneTaskPayload s1).
  destruct (be_SaveTask _ (backend s1)) as [[[]|?] b']; [|done]. intros [= <-]. injection Hb as Hb. subst b'.
  by split.
Qed.

Lemma tombed_put id d c id' : tombed (put_blob id tombstone_key d c) id' ↔ id' = id ∨ tombed c id'.
Proof. unfold tombed; simpl. rewrite lookup_insert_is_Some. destruct (decide (id' = id)); naive_solver. Qed.

Lemma tombed_del id c id' : tombed (del_blob id tombstone_key c) id' ↔ tombed c id' ∧ id' ≠ id.
Proof. unfold tombed; simpl. rewrite lookup_delete_is_Some. naive_solver. Qed.

Lemma delete_locked_synced now id reason s :
  store_wf tbl s → synced s → synced (delete_locked now id reason s).2.
Proof.
  intros Hwf Hs. unfold delete_locked, mbind at 1, M_bind at 1, bind at 1, find_task.
  destruct (tasks s !! id) as [t|] eqn:Ht; [|done]. destruct (live_not_tombed s id t) as (Hid & Hdel & Hn); [done..|].
  unfold mbind at 1, M_bind at 1, bind at 1, call. set (d := BlobTombstone _).
  destruct (be_SaveBlob id tombstone_key d (backend s)) as [r b] eqn:E. apply save_blob_law in E as [Hv Hok].
  destruct Hs as [S1 S2 S3 S4 S5]. destruct (Hok S1) as [Hr Hb]. destruct r as [[]|]; [|done]. simpl in Hv.
  unfold mbind, M_bind, bind, modify. cbv beta iota.
  assert (∃ s1, (removeFromStatusIndex (Status t) id (s <| backend := b |>)) = s1 ∧
    backend s1 = b ∧ tasks s1 = tasks s ∧ deleted s1 = deleted s ∧ limits s1 = limits s) as (s1 & -> & B1 & B2 & B3 & B4).
  { eexists. split; [done|]. unfold removeFromStatusIndex. by case_match. }
  assert (∀ s2 x y, backend s2 = b → limits s2 = limits s → on_disk s2 x y ↔ on_disk s x y) as Hon.
  { intros s2 x y Hb2 Hl2. apply on_disk_quiet; [|done]. unfold disk. by rewrite Hb2, Hv. }
  split; simpl; unfold disk; simpl; rewrite ?B1, ?B2, ?B3, ?Hv; [done|..].
  - intros id' x [Hne Hx]%lookup_delete_Some. rewrite Hon, tombed_put by done. apply S2 in Hx. naive_solver.
  - intros id' x. rewrite Hon, tombed_put by done. intros [[<- <-]|[Hne Hx]]%lookup_insert_Some.
    + split; [|by left]. by apply S2.
    + apply S3 in Hx. naive_solver.
  - intros id' x Hx. destruct (decide (id = id')) as [<-|]; [rewrite lookup_insert_eq; eauto|].
    rewrite lookup_insert_ne, lookup_delete_ne by done. by eapply S4.
  - intros id'. rewrite tombed_put. intros [->|?]; [|by apply S5]. destruct (S2 _ _ Ht) as [(x & Hx & _) _]. eauto.
Qed.

Lemma RestoreTask_synced id s : store_wf tbl s → synced s → synced (RestoreTask tbl id s).2.
Proof.
  intros Hwf Hs. unfold RestoreTask. destruct (deleted s !! id) as [t|] eqn:Hd; [|done].
  unfold mbind at 1, M_bind at 1, bind at 1. pose proof (quiet_oversight_text id s (sy_healthy _ Hs)) as Hq.
  destruct (oversight_text_or_empty id s) as [[raw|e] s1]; simpl in Hq; [|by apply (synced_quiet s)].
  apply (synced_quiet s s1) in Hs; [|done]. rewrite <- (q_deleted _ _ Hq) in Hd. clear Hq Hwf s.
  unfold mbind at 1, M_bind at 1, bind at 1, attempt.
  destruct (be_DeleteBlob id tombstone_key (backend s1)) as [r b] eqn:E. apply delete_blob_law in E as [Hr Hb].
  destruct Hs as [S1 S2 S3 S4 S5]. specialize (Hb S1).
  assert (r = Ok tt ∧ view b = del_blob id tombstone_key (disk s1)) as [-> Hv].
  { destruct r as [[]|[|?]]; [done| |by destruct Hr].
    destruct Hr as [_ Hr]. destruct (S3 _ _ Hd) as [_ Htb]. unfold tombed, disk in Htb. rewrite Hr in Htb. by destruct Htb. }
  clear Hr. assert (∀ s2 x y, backend s2 = b → limits s2 = limits s1 → on_disk s2 x y ↔ on_disk s1 x y) as Hon.
  { intros s2 x y Hb2 Hl2. apply on_disk_quiet; [|done]. unfold disk at 1. by rewrite Hb2, Hv. }
  split; simpl; unfold disk; simpl; rewrite ?Hv; [done|..].
  - intros id' x. rewrite Hon, tombed_del by done. intros [[<- <-]|[Hne Hx]]%lookup_insert_Some.
    + split; [by apply S3|naive_solver].
    + apply S2 in Hx. naive_solver.
  - intros id' x [Hne Hx]%lookup_delete_Some. rewrite Hon, tombed_del by done. apply S3 in Hx. naive_solver.
  - intros id' x Hx. destruct (decide (id = id')) as [<-|]; [rewrite lookup_insert_eq; eauto|].
    rewrite lookup_insert_ne, lookup_delete_ne by done. by eapply S4.
  - intros id'. rewrite tombed_del. intros [? _]. by apply S5.
Qed.

Lemma tombed_del_task id c id' : tombed (del_task id c) id' ↔ tombed c id' ∧ id' ≠ id.
Proof.
  unfold tombed, is_Some; simpl. setoid_rewrite map_lookup_filter_Some. simpl. naive_solver.
Qed.

Lemma purge_synced id s : store_wf tbl s → synced s → synced (purgeTaskLocked id s).2.
Proof.
  intros Hwf Hs. unfold purgeTaskLocked. destruct (deleted s !! id) as [t|] eqn:Hd; [|done].
  unfold mbind at 1, M_bind at 1, bind at 1, call. destruct (be_RemoveTask id (backend s)) as [r b] eqn:E.
  apply remove_task_law in E as [Hv Hok]. destruct Hs as [S1 S2 S3 S4 S5]. destruct (Hok S1) as [Hr Hb].
  destruct r as [[]|]; [|done]. simpl in Hv.
  assert (∀ s2 x y, backend s2 = b → limits s2 = limits s → x ≠ id → on_disk s x y → on_disk s2 x y) as Hon.
  { intros s2 x y Hb2 Hl2 Hne (z & Hz & Hp). exists z. unfold disk in *. rewrite Hb2, Hv. simpl.
    rewrite lookup_delete_ne, !(prune_limits s s2) by done. done. }
  assert (tasks s !! id = None) as Hlive.
  { destruct (tasks s !! id) eqn:E; [|done]. apply (wf_disjoint _ _ Hwf) in E. congruence. }
  split; simpl; unfold disk; simpl; rewrite ?Hv; [done|..].
  - intros id' x Hx. assert (id' ≠ id) by congruence. rewrite tombed_del_task. apply S2 in Hx as [??].
    split; [by apply Hon|naive_solver].
  - intros id' x [Hne Hx]%lookup_delete_Some. rewrite tombed_del_task. apply S3 in Hx as [??].
    split; [by apply Hon|naive_solver].
  - intros id' x. simpl. intros [Hne Hx]%lookup_delete_Some. rewrite lookup_delete_ne by done. by eapply S4.
  - intros id'. rewrite tombed_del_task. simpl. intros [? ?]. rewrite lookup_delete_ne by done. by apply S5.
Qed.

Lemma ArchiveAllDone_synced order now s :
  store_wf tbl s → synced s → synced (ArchiveAllDone order now s).2.
Proof.
  unfold ArchiveAllDone. generalize (@nil uuid). revert s.
  induction order as [|id order IH]; intros s acc Hwf Hs; cbn [archive_loop]; [done|].
  destruct (tasks s !! id) as [t|] eqn:Ht; [|by apply IH]. case_match; [by apply IH|].
  pose proof (store_wf_step tbl s _ (op_archive_all tbl True s [id] now) Hwf) as Hwf1.
  unfold ArchiveAllDone in Hwf1. cbn [archive_loop] in Hwf1. rewrite Ht in Hwf1.
  match goal with Hc : _ = false |- _ => rewrite Hc in Hwf1 end.
  set (t1 := stamp _) in *. set (s1 := s <| tasks := <[id:=t1]> (tasks s) |>).
  change ((put_mem id t1 ;; saveTask t1) s) with (saveTask t1 s1) in *.
  destruct (replace_catches_up s s1 id t t1) as (s2 & H2 & Hs2);
    [done|done|done|done|apply stamp_stamp|apply quiet_refl|].
  rewrite H2 in *. apply IH; [done|]. eapply synced_quiet; [apply quiet_notify, Hs2|done].
Qed.

(** ** The invariant of a running store on a working backend *)

Definition durable s : Prop := store_wf tbl s ∧ synced s.
Definition dpres {A} (m : M A) : Prop := ∀ s, durable s → durable (m s).2.

Lemma dpres_intro {A} (m : M A) :
  pres tbl m → (∀ s, store_wf tbl s → synced s → synced (m s).2) → dpres m.
Proof. intros Hp Hd s [Hwf Hs]. split; auto. Qed.

Lemma dpres_quiet {A} (m : M A) : keeps m → quiet m → dpres m.
Proof.
  intros Hk Hq s [Hwf Hs]. split; [by apply wf_keeps|]. eapply synced_quiet; [|done]. apply Hq, Hs.
Qed.

Lemma dpres_bind {A C} (m : M A) (k : A → M C) : dpres m → (∀ a, dpres (k a)) → dpres (m ≫= k).
Proof.
  intros Hm Hk s Hs. unfold mbind, M_bind, bind. specialize (Hm s Hs).
  destruct (m s) as [[a|e] s']; simpl in *; [by apply Hk|done].
Qed.

Lemma dpres_ignore {A} (m : M A) : dpres m → dpres (ignore m).
Proof. intros Hm s. apply Hm. Qed.

Lemma dpres_iterM {A} (f : A → M unit) l : (∀ x, dpres (f x)) → dpres (iterM f l).
Proof.
  intros Hf. induction l as [|x l IH]; simpl; [apply dpres_quiet; [apply keeps_ret|apply quiet_ret]|].
  apply dpres_bind; [apply Hf|intros _; apply IH].
Qed.

Lemma dpres_mutate now id fn : good_fn tbl id fn → durable_fn fn → dpres (mutateTask now id fn).
Proof.
  intros Hg Hd. apply dpres_intro; [by apply pres_mutate|]. intros s. by apply mutateTask_synced.
Qed.

Lemma durable_pure f : (∀ t, ID (f t) = ID t) → durable_fn (pure_fn f).
Proof. intros Hf. split; [by intros t s t' s' [= <- _]|]. intros t. apply quiet_ret. Qed.

Lemma dpres_orphans order now id : dpres (removeOrphanedDependents order now id).
Proof.
  apply dpres_bind; [apply dpres_quiet; [apply keeps_gets|apply quiet_gets]|].
  intros deps. apply dpres_iterM. intros d.
  by apply dpres_ignore, dpres_mutate; [apply (good_fn_pure _ _ (drop_dep id))|apply (durable_pure (drop_dep id))].
Qed.

Lemma dpres_PurgeExpired order threshold : dpres (PurgeExpiredTombstones order threshold).
Proof.
  apply dpres_iterM. intros id. apply dpres_bind; [apply dpres_quiet; [apply keeps_read_doc|apply quiet_read_doc]|].
  assert (dpres (mret (M:=M) tt)) by (apply dpres_quiet; [apply keeps_ret|apply quiet_ret]).
  intros [| |tomb]; [done..|]. case_match; [|done].
  apply dpres_ignore, dpres_intro; [intros s; apply purge_wf|intros s; apply purge_synced].
Qed.

Lemma dpres_SaveTurnOutput now id turn out err : dpres (SaveTurnOutput now id turn out err).
Proof.
  apply dpres_bind; [apply dpres_quiet; [apply keeps_gets|apply quiet_gets]|]. intros n.
  destruct (truncateTurnData n out) as [o1 n1], (truncateTurnData n err) as [e1 n2].
  apply dpres_bind; [apply dpres_quiet; [apply keeps_call|quiet_tac]|]. intros _.
  apply dpres_bind; [case_decide; apply dpres_quiet; try apply keeps_ret; try apply keeps_call; quiet_tac|]. intros _.
  case_match; [|apply dpres_quiet; [apply keeps_ret|apply quiet_ret]].
  by apply dpres_ignore, dpres_mutate; [apply good_fn_pure|apply durable_pure].
Qed.

Ltac durable_fn_tac :=
  split; [intros ???? ?; unfold pure_fn, routine_fn, update_index, modify, throw, mret, M_ret, ret, mbind, M_bind, bind in *;
          repeat case_match; simplify_eq/=; done
         |intros; unfold pure_fn, routine_fn; quiet_tac].
Ltac durable_mutate := apply mutateTask_synced; [durable_fn_tac|done|done].

Lemma synced_quiet_op {A} (m : M A) s : quiet m → synced s → synced (m s).2.
Proof. intros Hq Hs. eapply synced_quiet; [apply Hq, Hs|done]. Qed.

Lemma UpdateTaskStatus_synced now1 now2 id st s :
  store_wf tbl s → synced s → synced (UpdateTaskStatus now1 now2 id st s).2.
Proof.
  intros Hwf Hs. unfold UpdateTaskStatus, mbind, M_bind, bind, find_task.
  destruct (tasks s !! id) as [t|] eqn:Ht; [|done].
  destruct (Validate TaskMachine (Status t) st); [by apply set_status_synced|done].
Qed.

Lemma ForceUpdateTaskStatus_synced now1 now2 id st s :
  store_wf tbl s → synced s → synced (ForceUpdateTaskStatus now1 now2 id st s).2.
Proof.
  intros Hwf Hs. unfold ForceUpdateTaskStatus, mbind, M_bind, bind, find_task.
  destruct (tasks s !! id) as [t|] eqn:Ht; [by apply set_status_synced|done].
Qed.

Lemma UpdateTaskPromptDirect_synced now id v s :
  store_wf tbl s → synced s → synced (UpdateTaskPromptDirect tbl now id v s).2.
Proof.
  intros Hwf Hs. unfold UpdateTaskPromptDirect, mbind at 1, M_bind at 1, bind at 1, find_task.
  destruct (tasks s !! id) as [t|]; [|done]. unfold mbind at 1, M_bind at 1, bind at 1.
  match goal with |- context [mutateTask now id ?fn s] => set (m := mutateTask now id fn) end.
  assert (synced (m s).2) as Hm by durable_mutate. by destruct (m s) as [[?|?] s1].
Qed.

(** Every operation keeps a store on a working backend in step with it. *)
Lemma synced_step s m : store_op tbl s m → durable s → synced (m s).2.
Proof.
  intros Hop [Hwf Hs]. destruct Hop; try (durable_mutate; fail).
  - by apply CreateTask_synced.
  - apply (dpres_bind (delete_locked _ _ _)); [|intros _; apply dpres_orphans|done].
    apply dpres_intro; intros s'; [apply delete_locked_wf|apply delete_locked_synced].
  - apply (dpres_bind (ForceUpdateTaskStatus _ _ _ _)); [|intros _; apply dpres_orphans|done].
    apply dpres_intro; intros s'; [apply ForceUpdateTaskStatus_wf|apply ForceUpdateTaskStatus_synced].
  - by apply RestoreTask_synced.
  - by apply purge_synced.
  - by apply dpres_PurgeExpired.
  - by apply UpdateTaskStatus_synced.
  - by apply ForceUpdateTaskStatus_synced.
  - by apply ResetTaskForRetry_synced.
  - by apply ResumeTask_synced.
  - by apply ArchiveAllDone_synced.
  - by apply UpdateTaskPromptDirect_synced.
  - unfold ClearFetchFailure. case_match; [|done]. case_match; [done|]. durable_mutate.
  - apply synced_quiet_op; [apply quiet_InsertEvent|done].
  - apply synced_quiet_op; [apply quiet_ignore, quiet_GetEvents|done].
  - apply synced_quiet_op; [apply quiet_ignore, quiet_GetEventsPage|done].
  - apply synced_quiet_op; [apply quiet_compact|done].
  - by apply dpres_SaveTurnOutput.
  - apply synced_quiet_op; [apply quiet_SaveOversight|done].
  - apply synced_quiet_op; [unfold SaveTestOversight; quiet_tac|done].
  - apply synced_quiet_op; [apply quiet_ignore, quiet_rebuild|done].
  - apply synced_quiet_op; [by apply quiet_modify|done].
Qed.

Lemma durable_step s m : store_op tbl s m → durable s → durable (m s).2.
Proof. intros Hop Hd. split; [by apply store_wf_step; [|apply Hd]|by apply synced_step]. Qed.
End durable_ops.
