(* ===== verification/StoreRestart.v ===== *)
(** * Opening a store

    [NewStore] over any backend gives a well-formed store ([NewStore_wf]), so
    every state reachable from it is well formed ([store_wf_reachable]).  Over
    a working backend it succeeds and finds every task, live or deleted, as the
    previous run left it ([restart_recovers]). *)

From S2P Require Import Prelude StateMachine GoStrings PkgUtil TaskModel Backend Store StoreUpdate StoreWf StoreDurable.
From Stdlib Require Import String.
From stdpp Require Import list gmap.
Local Open Scope Z_scope.

Section restart.
Context `{UUIDLib} {B : Type} `{!StorageBackend B} (tbl : Z → Z).
Abbreviation Store := (Store B).
Abbreviation M := (M (B:=B)).
Implicit Types (s : Store) (t : Task) (id : uuid).

(** The backend files each record under its own identifier. *)
Definition filed (b : B) : Prop := ∀ id t, c_tasks (view b) !! id = Some t → ID t = id.

(** [s'] is [s] after reading from the backend. *)
Definition read_to s s' : Prop :=
  disk s' = disk s ∧ core s' = core s ∧ limits s' = limits s ∧ (healthy (backend s) → healthy (backend s')).

Lemma oversight_text_total id s :
  ∃ raw s', oversight_text_or_empty id s = (Ok raw, s') ∧ read_to s s'.
Proof.
  unfold oversight_text_or_empty, LoadOversightText, read_doc, mbind, M_bind, bind, attempt.
  destruct (be_ReadBlob id _ (backend s)) as [r b] eqn:E. apply read_blob_law in E as (Hv & _ & Hh).
  destruct r as [d|[]]; simpl; [destruct (parse_oversight d)|..]; simpl; eexists _, _; (split; [done|]); by split_and!.
Qed.

Lemma loadEvents_reads id s :
  read_to s (loadEvents id s).2 ∧ (healthy (backend s) → is_ok (loadEvents id s).1 = true).
Proof.
  unfold loadEvents, mbind, M_bind, bind, call.
  destruct (be_LoadEvents id (backend s)) as [r b] eqn:E. apply load_events_law in E as [Hv Hh].
  destruct r as [[evs m]|e]; simpl; (split; [split_and!; try done|]); intros Hb; by destruct (Hh Hb).
Qed.

Definition loaded_dead t s s' : Prop :=
  tasks s' = tasks s ∧ deleted s' = <[ID t := t]> (deleted s) ∧ searchIndex s' = searchIndex s.
Definition loaded_live t s s' : Prop :=
  tasks s' = <[ID t := pruneTaskPayload s t]> (tasks s) ∧ deleted s' = deleted s ∧
  ∃ raw, searchIndex s' = <[ID t := buildIndexEntry tbl (pruneTaskPayload s t) raw]> (searchIndex s).

(** One iteration of the loading loop. *)
Lemma load_task_spec t s r s' :
  load_task tbl t s = (r, s') →
  tasksByStatus s' = tasksByStatus s ∧ limits s' = limits s ∧ disk s' = disk s ∧
  (healthy (backend s) → is_ok r = true ∧ healthy (backend s')) ∧
  (loaded_dead t s s' ∧ (healthy (backend s) → tombed (disk s) (ID t)) ∨
   loaded_live t s s' ∧ (healthy (backend s) → ¬ tombed (disk s) (ID t))).
Proof.
  unfold load_task, mbind at 1, M_bind at 1, bind at 1, attempt.
  destruct (be_ReadBlob (ID t) tombstone_key (backend s)) as [x b] eqn:E.
  apply read_blob_law in E as (Hv & Hr & Hh). destruct x as [d|e].
  { intros [= <- <-]. split; [done|]. split; [done|]. split; [exact Hv|]. split; [by split; [|apply Hh]|].
    left. split; [done|]. intros _. by exists d. }
  assert (healthy (backend s) → ¬ tombed (disk s) (ID t)) as Hnt.
  { intros Hb [d Hd]. destruct e; [unfold disk in Hd; congruence|done]. }
  unfold mbind at 1, M_bind at 1, bind at 1, gets at 1. simpl Datatypes.id. cbv beta iota.
  set (s1 := s <| backend := b |>). unfold mbind at 1, M_bind at 1, bind at 1.
  destruct (oversight_text_total (ID t) s1) as (raw & s2 & -> & D2 & C2 & L2 & H2).
  unfold mbind at 1, M_bind at 1, bind at 1, modify at 1. cbv beta iota.
  set (s3 := s2 <| tasks := _ |> <| searchIndex := _ |>).
  injection C2 as C1 C2 C3 C4.
  assert (∀ s', core s' = core s3 → loaded_live t s s') as Hlive.
  { unfold core. intros x [= F1 F2 F3 F4]. split; [by rewrite F1; simpl; rewrite C1|]. split; [by rewrite F2; simpl; rewrite C2|].
    exists raw. rewrite F4. simpl. by rewrite C4. }
  assert (healthy (backend s) → healthy (backend s3)) as H3 by auto.
  assert (disk s3 = disk s) as D3 by (unfold disk; rewrite <- Hv; exact D2).
  destruct (isTerminalStatus (Status (pruneTaskPayload s1 t)) || Archived (pruneTaskPayload s1 t)).
  - intros [= <- <-]. split_and!; [done|done|done|auto|]. right. split; [by apply Hlive|done].
  - destruct (loadEvents_reads (ID t) s3) as [(D4 & C5 & L4 & H4) Hok]. unfold mbind, M_bind, bind, modify.
    destruct (loadEvents (ID t) s3) as [[[]|x] s4]; simpl in *; unfold core in C5; simpl in C5; injection C5 as K1 K2 K3 K4.
    all: intros [= <- <-]; split_and!; [simpl; congruence|exact (eq_trans L4 L2)|exact (eq_trans D4 D3)| |
      right; split; [|done]].
    all: try (apply Hlive; unfold core; simpl; congruence). all: auto.
Qed.

(** ** The loading loop *)

(** The invariant of the loop before the tasks [ts]. *)
Record loading s (ts : list Task) : Prop := {
  l_ids : ∀ id t, tasks s !! id = Some t → ID t = id;
  l_deleted_ids : ∀ id t, deleted s !! id = Some t → ID t = id;
  l_disjoint : ∀ id t, tasks s !! id = Some t → deleted s !! id = None;
  l_index : ∀ id t, tasks s !! id = Some t → ∃ raw, searchIndex s !! id = Some (buildIndexEntry tbl t raw);
  l_index_dom : ∀ id, tasks s !! id = None → searchIndex s !! id = None;
  l_status : tasksByStatus s = ∅;
  l_rest : ∀ t, t ∈ ts → tasks s !! ID t = None ∧ deleted s !! ID t = None
}.

Lemma loading_step t ts s r s' :
  NoDup (ID <$> t :: ts) → loading s (t :: ts) → load_task tbl t s = (r, s') → loading s' ts.
Proof.
  intros [Hnin _]%NoDup_cons [L1 L2 L3 L4 L5 L6 L7] (T1 & _ & _ & _ & Hcase)%load_task_spec.
  assert (∀ x, x ∈ ts → ID x ≠ ID t) as Hne.
  { intros x Hx E. apply Hnin. rewrite <- E. by apply list_elem_of_fmap_2. }
  destruct (L7 t) as [Ht Hd]; [left|].
  destruct Hcase as [[(T2 & T3 & T4) _]|[(T2 & T3 & raw & T4) _]]; split; rewrite ?T1, ?T2, ?T3, ?T4; try done.
  - intros id x [[<- <-]|[_ ?]]%lookup_insert_Some; eauto.
  - intros id x Hx. destruct (decide (ID t = id)) as [<-|]; [congruence|]. rewrite lookup_insert_ne by done. eauto.
  - intros x Hx. rewrite lookup_insert_ne by (apply not_eq_sym; auto). apply L7. by right.
  - intros id x [[<- <-]|[_ ?]]%lookup_insert_Some; eauto.
  - intros id x [[<- <-]|[_ ?]]%lookup_insert_Some; eauto.
  - intros id x [[<- <-]|[Hn Hx]]%lookup_insert_Some; [rewrite lookup_insert_eq; eauto|].
    rewrite lookup_insert_ne by done. eauto.
  - intros id [Hx Hn]%lookup_insert_None. rewrite lookup_insert_ne by done. auto.
  - intros x Hx. rewrite lookup_insert_ne by (apply not_eq_sym; auto). apply L7. by right.
Qed.

Lemma loading_loop ts s s' :
  NoDup (ID <$> ts) → loading s ts → iterM (load_task tbl) ts s = (Ok tt, s') → loading s' [].
Proof.
  revert s. induction ts as [|t ts IH]; intros s Hnd Hl; simpl; [by intros [= <-]|].
  unfold mbind, M_bind, bind. destruct (load_task tbl t s) as [[[]|e] s1] eqn:E; [|done].
  apply IH; [by apply NoDup_cons in Hnd as [_ ?]|]. by eapply loading_step.
Qed.

(** What the loop leaves on a working backend. *)
Lemma loading_contents ts s :
  healthy (backend s) → NoDup (ID <$> ts) →
  ∃ s', iterM (load_task tbl) ts s = (Ok tt, s') ∧ healthy (backend s') ∧ disk s' = disk s ∧ limits s' = limits s ∧
    (∀ t, t ∈ ts → tombed (disk s) (ID t) → deleted s' !! ID t = Some t ∧ tasks s' !! ID t = tasks s !! ID t) ∧
    (∀ t, t ∈ ts → ¬ tombed (disk s) (ID t) →
       tasks s' !! ID t = Some (pruneTaskPayload s t) ∧ deleted s' !! ID t = deleted s !! ID t) ∧
    (∀ id, id ∉ ID <$> ts → tasks s' !! id = tasks s !! id ∧ deleted s' !! id = deleted s !! id).
Proof.
  revert s. induction ts as [|t ts IH]; intros s Hh Hnd; simpl.
  { exists s. split_and!; try done; by intros ? ?%elem_of_nil. }
  apply NoDup_cons in Hnd as [Hnin Hnd]. unfold mbind, M_bind, bind.
  destruct (load_task tbl t s) as [r s1] eqn:E. apply load_task_spec in E as (_ & L1 & D1 & Hok & Hcase).
  destruct (Hok Hh) as [Hr Hh1]. destruct r as [[]|]; [|done].
  destruct (IH s1 Hh1 Hnd) as (s2 & -> & Hh2 & D2 & L2 & P1 & P2 & P3). exists s2.
  rewrite D1 in P1, P2. split_and!; [done|done|congruence|congruence|..].
  - intros x [->|Hx]%elem_of_cons Htb.
    + destruct (P3 (ID t) Hnin) as [-> ->]. destruct Hcase as [[(-> & -> & _) _]|[_ Hn]]; [|by destruct (Hn Hh)].
      by rewrite lookup_insert_eq.
    + destruct (P1 x Hx Htb) as [-> ->]. split; [done|].
      assert (ID t ≠ ID x) by (intros E; apply Hnin; rewrite E; by apply list_elem_of_fmap_2).
      destruct Hcase as [[(-> & _) _]|[(-> & _) _]]; [done|]. by rewrite lookup_insert_ne.
  - intros x [->|Hx]%elem_of_cons Htb.
    + destruct (P3 (ID t) Hnin) as [-> ->]. destruct Hcase as [[_ Hn]|[(-> & -> & _) _]]; [by destruct (Htb (Hn Hh))|].
      by rewrite lookup_insert_eq.
    + destruct (P2 x Hx Htb) as [-> ->]. rewrite (prune_limits s s1) by done. split; [done|].
      assert (ID t ≠ ID x) by (intros E; apply Hnin; rewrite E; by apply list_elem_of_fmap_2).
      destruct Hcase as [[(_ & -> & _) _]|[(_ & -> & _) _]]; [|done]. by rewrite lookup_insert_ne.
  - intros id [Hne Hid]%not_elem_of_cons. destruct (P3 id Hid) as [-> ->].
    destruct Hcase as [[(-> & -> & _) _]|[(-> & -> & _) _]]; by rewrite lookup_insert_ne by done.
Qed.

(** ** The status index built after loading *)

Definition index_all (l : list (uuid * Task)) s : Store :=
  foldl (λ s '(id, t), addToStatusIndex (Status t) id s) s l.

Lemma index_all_frame l s :
  backend (index_all l s) = backend s ∧ tasks (index_all l s) = tasks s ∧ deleted (index_all l s) = deleted s ∧
  searchIndex (index_all l s) = searchIndex s ∧ limits (index_all l s) = limits s.
Proof. revert s. induction l as [|[id t] l IH]; intros s; simpl; [done|].
  by destruct (IH (addToStatusIndex (Status t) id s)) as (-> & -> & -> & -> & ->). Qed.

Lemma index_all_ids l s st id :
  id ∈ ids_with (index_all l s) st ↔ id ∈ ids_with s st ∨ ∃ t, (id, t) ∈ l ∧ Status t = st.
Proof.
  revert s. induction l as [|[id1 t1] l IH]; intros s; simpl.
  - setoid_rewrite elem_of_nil. naive_solver.
  - rewrite IH, ids_with_add. setoid_rewrite elem_of_cons. naive_solver.
Qed.

Lemma loading_done s : loading s [] → store_wf tbl (index_all (map_to_list (tasks s)) s).
Proof.
  intros [L1 L2 L3 L4 L5 L6 _]. destruct (index_all_frame (map_to_list (tasks s)) s) as (_ & F1 & F2 & F3 & _).
  split; rewrite ?F1, ?F2, ?F3; try done.
  intros st id. rewrite index_all_ids. unfold ids_with. rewrite L6, lookup_empty. simpl.
  setoid_rewrite elem_of_map_to_list. set_solver.
Qed.

Definition fresh_store (b : B) (retry refine prompt turnBytes : Z) : Store :=
  MkStore b false ∅ ∅ ∅ ∅ ∅ ∅ [] retry refine prompt turnBytes [] ∅ false [].

Lemma fresh_loading b r1 r2 r3 n ts : loading (fresh_store b r1 r2 r3 n) ts.
Proof. by split. Qed.

Lemma NewStore_wf b r1 r2 r3 n s :
  filed b → NewStore tbl b r1 r2 r3 n = Ok s → store_wf tbl s.
Proof.
  intros Hf. unfold NewStore, loadAll, mbind, M_bind, bind, call. simpl.
  destruct (be_LoadAll b) as [[ts|e] b'] eqn:E; [|done]. pose proof (load_all_NoDup _ _ _ Hf E) as Hnd.
  destruct (iterM (load_task tbl) ts _) as [[[]|e] s1] eqn:E1; [|done]. intros [= <-].
  apply loading_done. eapply loading_loop; [done| |done]. apply (fresh_loading b').
Qed.

(** ** Restart *)

(** Contents that a store leaves: filed records, and no tombstone without one. *)
Definition consistent (b : B) : Prop :=
  filed b ∧ ∀ id, tombed (view b) id → is_Some (c_tasks (view b) !! id).

(** [s] holds what [b] stores, each record as the backend reloads it. *)
Record recovers (b : B) s : Prop := {
  rec_live : ∀ id d, c_tasks (view b) !! id = Some d → ¬ tombed (view b) id →
    ∃ t, reloads d t ∧ tasks s !! id = Some (pruneTaskPayload s t);
  rec_deleted : ∀ id d, c_tasks (view b) !! id = Some d → tombed (view b) id →
    ∃ t, reloads d t ∧ deleted s !! id = Some t;
  rec_only : ∀ id, is_Some (tasks s !! id) ∨ is_Some (deleted s !! id) → is_Some (c_tasks (view b) !! id)
}.

(** What loading a working backend makes of the identifier [id]. *)
Inductive load_outcome (b : B) s id : Prop :=
| out_none : c_tasks (view b) !! id = None → c_tasks (disk s) !! id = None →
    tasks s !! id = None → deleted s !! id = None → load_outcome b s id
| out_live d t : c_tasks (view b) !! id = Some d → reloads d t → c_tasks (disk s) !! id = Some t →
    ¬ tombed (view b) id → tasks s !! id = Some (pruneTaskPayload s t) → deleted s !! id = None → load_outcome b s id
| out_deleted d t : c_tasks (view b) !! id = Some d → reloads d t → c_tasks (disk s) !! id = Some t →
    tombed (view b) id → tasks s !! id = None → deleted s !! id = Some t → load_outcome b s id.

Lemma loadAll_healthy b r1 r2 r3 n :
  healthy b → filed b → ∃ s1, loadAll tbl (fresh_store b r1 r2 r3 n) = (Ok tt, s1) ∧
    healthy (backend s1) ∧ limits s1 = (r1, r2, r3) ∧ (∀ id, tombed (disk s1) id ↔ tombed (view b) id) ∧
    ∀ id, load_outcome b s1 id.
Proof.
  intros Hh Hf. destruct (load_all_law b Hh Hf) as (ts & b' & E & Hh' & P1 & P2 & P3).
  pose proof (load_all_NoDup _ _ _ Hf E) as Hnd. pose proof (load_all_view _ _ _ E) as Hv.
  assert (∀ id, tombed (view b') id ↔ tombed (view b) id) as Htb.
  { intros id. unfold tombed. by rewrite (proj2 (Hv id)). }
  destruct (loading_contents ts (fresh_store b' r1 r2 r3 n) Hh' Hnd) as (s1 & E1 & Hh1 & D1 & L1 & C1 & C2 & C3).
  change (disk (fresh_store b' r1 r2 r3 n)) with (view b') in *.
  exists s1. split; [unfold loadAll, mbind, M_bind, bind, call; simpl; by rewrite E|].
  split; [done|]. split; [done|]. rewrite D1. split; [done|]. intros id.
  destruct (c_tasks (view b) !! id) as [d|] eqn:Ed.
  - destruct (P2 _ _ Ed) as (t & Hin & <- & Hr & Hd). destruct (decide (tombed (view b) (ID t))) as [Hy|Hy].
    + destruct (C1 t) as [C4 C5]; [done|by rewrite Htb|]. apply (out_deleted _ _ _ d t); try done. by rewrite D1.
    + destruct (C2 t) as [C4 C5]; [done|by rewrite Htb|]. apply (out_live _ _ _ d t); try done; [by rewrite D1|].
      by rewrite C4, (prune_limits (fresh_store b' r1 r2 r3 n) s1).
  - assert (id ∉ ID <$> ts) as Hn.
    { intros (t & -> & Ht)%list_elem_of_fmap. destruct (P1 _ Ht) as (d & Hd & _). congruence. }
    destruct (C3 _ Hn) as [? ?]. apply out_none; try done. rewrite D1. auto.
Qed.

(** Building the status index afterwards does not matter to the outcome. *)
Lemma outcome_frame b s s' id :
  backend s' = backend s → tasks s' = tasks s → deleted s' = deleted s → limits s' = limits s →
  load_outcome b s id → load_outcome b s' id.
Proof.
  intros E1 E2 E3 E4. destruct 1; [apply out_none|eapply out_live|eapply out_deleted]; unfold disk in *;
    rewrite ?E1, ?E2, ?E3, ?(prune_limits s s') by done; try done.
Qed.

Lemma outcome_synced b s :
  healthy (backend s) → (∀ id, tombed (disk s) id ↔ tombed (view b) id) →
  (∀ id, tombed (view b) id → is_Some (c_tasks (view b) !! id)) →
  (∀ id, load_outcome b s id) → synced s.
Proof.
  intros Hh Htb Ht Hout. split; [done|..].
  - intros id t Hl. destruct (Hout id) as [|d x|]; [congruence| |congruence]. rewrite Htb. split; [|done].
    exists x. split; [done|]. assert (t = pruneTaskPayload s x) as -> by congruence. by rewrite prune_idem.
  - intros id t Hl. destruct (Hout id) as [|d x|d x]; [congruence..|]. rewrite Htb. split; [|done].
    exists x. split; [done|congruence].
  - intros id t Hl. destruct (Hout id); [congruence|left; eauto|right; eauto].
  - intros id [d Hd]%Htb%Ht. destruct (Hout id); [congruence|eauto..].
Qed.

Lemma outcome_recovers b s : (∀ id, load_outcome b s id) → recovers b s.
Proof.
  intros Hout. split.
  - intros id d Hd Hn. destruct (Hout id); [congruence| |done]. simplify_eq. eauto.
  - intros id d Hd Hn. destruct (Hout id); [congruence|done|]. simplify_eq. eauto.
  - intros id Hid. destruct (Hout id) as [_ _ E1 E2|d t|d t]; [|eauto..]. rewrite E1, E2 in Hid. by destruct Hid as [[]|[]].
Qed.

Lemma NewStore_healthy b r1 r2 r3 n :
  healthy b → consistent b →
  ∃ s, NewStore tbl b r1 r2 r3 n = Ok s ∧ durable tbl s ∧ recovers b s ∧ limits s = (r1, r2, r3).
Proof.
  intros Hh [Hf Htomb]. destruct (loadAll_healthy b r1 r2 r3 n Hh Hf) as (s1 & E1 & Hh1 & L1 & Htb & Hout).
  destruct (index_all_frame (map_to_list (tasks s1)) s1) as (F1 & F2 & F3 & F4 & F5).
  set (s := index_all (map_to_list (tasks s1)) s1) in *.
  assert (NewStore tbl b r1 r2 r3 n = Ok s) as HN.
  { unfold NewStore. fold (fresh_store b r1 r2 r3 n). by rewrite E1. }
  assert (∀ id, load_outcome b s id) as Hout' by (intros id; by eapply outcome_frame).
  exists s. split; [done|]. split; [split|].
  - by eapply NewStore_wf.
  - apply (outcome_synced b); try done; [by rewrite F1|]. unfold disk. by rewrite F1.
  - split; [by apply outcome_recovers|by rewrite F5].
Qed.

(** A durable store leaves consistent contents. *)
Lemma durable_consistent s : durable tbl s → consistent (backend s).
Proof.
  intros [Hwf Hs]. split; [|apply (sy_fresh _ Hs)]. intros id d Hd.
  assert (∀ t, on_disk s id t → ID d = ID t) as Hon.
  { intros t (x & Hx & Hp). unfold disk in Hx. assert (x = d) as -> by congruence.
    apply (f_equal ID) in Hp. done. }
  destruct (sy_only _ Hs _ _ Hd) as [[t Ht]|[t Ht]].
  - rewrite (Hon t); [by apply (wf_ids _ _ Hwf)|]. by apply (sy_live _ Hs).
  - rewrite (Hon t); [by apply (wf_deleted_ids _ _ Hwf)|]. by apply (sy_deleted _ Hs).
Qed.

Lemma reachable_durable s s' : durable tbl s → rtc (store_step tbl) s s' → durable tbl s'.
Proof. intros Hd. induction 1 as [|s1 s2 s3 (m & Hop & ->) _ IH]; [done|]. apply IH. by apply durable_step. Qed.

(** C1: Every state that the operations of the store can reach from a store just
    opened is well formed: tasks and tombstoned tasks are filed under their own
    identifiers and are disjoint, the status index lists exactly the tasks of
    each status, and the search index has exactly the lowercased current text
    of every live task, whatever the backend answers and whatever fails. *)
Theorem store_wf_reachable b r1 r2 r3 n s0 s :
  filed b → NewStore tbl b r1 r2 r3 n = Ok s0 → rtc (store_step tbl) s0 s → store_wf tbl s.
Proof.
  intros Hf H0 Hr. apply NewStore_wf in H0; [|done]. clear Hf.
  induction Hr as [|s1 s2 s3 (m & Hop & ->) _ IH]; [done|]. apply IH. by apply store_wf_step.
Qed.

(** C2: A store opened on a working backend can be abandoned after any sequence
    of operations and opened again, under any history limits: opening succeeds,
    the new store is well formed and in step with the backend, it holds every
    live task and every tombstoned task of the old one, on the same side and as
    its saved record reloads, and no other task. *)
Theorem restart_recovers b r1 r2 r3 n s0 s r1' r2' r3' n' :
  healthy b → consistent b → NewStore tbl b r1 r2 r3 n = Ok s0 → rtc (store_step tbl) s0 s →
  ∃ s', NewStore tbl (backend s) r1' r2' r3' n' = Ok s' ∧ durable tbl s' ∧
    (∀ id t, tasks s !! id = Some t → ∃ d t', pruneTaskPayload s d = pruneTaskPayload s t ∧ reloads d t' ∧
       tasks s' !! id = Some (pruneTaskPayload s' t')) ∧
    (∀ id t, deleted s !! id = Some t → ∃ d t', pruneTaskPayload s d = pruneTaskPayload s t ∧ reloads d t' ∧
       deleted s' !! id = Some t') ∧
    (∀ id, is_Some (tasks s' !! id) ↔ is_Some (tasks s !! id)) ∧
    (∀ id, is_Some (deleted s' !! id) ↔ is_Some (deleted s !! id)).
Proof.
  intros Hh Hc H0 Hr. destruct (NewStore_healthy b r1 r2 r3 n Hh Hc) as (s0' & H0' & Hd & _).
  assert (s0' = s0) as -> by congruence. apply (reachable_durable _ s) in Hd; [|done]. clear H0 H0' Hr Hh Hc.
  destruct Hd as [Hwf Hs].
  destruct (NewStore_healthy (backend s) r1' r2' r3' n') as (s' & H' & Hd' & [R1 R2 R3] & _);
    [apply Hs|apply durable_consistent; by split|]. exists s'. split; [done|]. split; [done|].
  assert (∀ id t, tasks s !! id = Some t → ∃ d t', pruneTaskPayload s d = pruneTaskPayload s t ∧ reloads d t' ∧
       tasks s' !! id = Some (pruneTaskPayload s' t')) as Hl.
  { intros id t Ht. destruct (sy_live _ Hs _ _ Ht) as [(d & Hd & Hp) Hn]. destruct (R1 _ _ Hd Hn) as (t' & ? & ?). eauto. }
  assert (∀ id t, deleted s !! id = Some t → ∃ d t', pruneTaskPayload s d = pruneTaskPayload s t ∧ reloads d t' ∧
       deleted s' !! id = Some t') as Hdl.
  { intros id t Ht. destruct (sy_deleted _ Hs _ _ Ht) as [(d & Hd & Hp) Hn]. destruct (R2 _ _ Hd Hn) as (t' & ? & ?). eauto. }
  split; [done|]. split; [done|]. destruct Hd' as [Hwf' _].
  split; intros id; (split; [|intros [t Ht]; naive_solver]); intros [t Ht].
  - destruct (R3 id) as [d Hd]; [eauto|]. destruct (sy_only _ Hs _ _ Hd) as [?|[x Hx]]; [done|].
    destruct (Hdl _ _ Hx) as (? & ? & _ & _ & E). rewrite (wf_disjoint _ _ Hwf' _ _ Ht) in E. done.
  - destruct (R3 id) as [d Hd]; [eauto|]. destruct (sy_only _ Hs _ _ Hd) as [[x Hx]|?]; [|done].
    destruct (Hl _ _ Hx) as (? & ? & _ & _ & E). apply (wf_disjoint _ _ Hwf') in E. congruence.
Qed.
End restart.

(** ** A run on the reference backend *)

Module Run.
#[local] Existing Instance text_uuid.

Definition lower_ascii (r : Z) : Z := if Z.leb 65 r && Z.leb r 90 then r + 32 else r.

Definition opts (name : string) : TaskCreateOptions :=
  MkOptions name name EmptyString 10 false EmptyString EmptyString ["Tag"%string] EmptyString ∅ f64_zero 0 None []
    EmptyString EmptyString [] [] 0 false EmptyString EmptyString EmptyString EmptyString.

Definition empty_backend (faults : list bool) : MemBackend := Mem (Contents ∅ ∅ ∅) faults.

Definition opened (faults : list bool) : Store MemBackend :=
  match NewStore lower_ascii (empty_backend faults) 10 10 10 100 with
  | Ok s => s
  | Err _ => fresh_store (empty_backend faults) 0 0 0 0
  end.

(** Create two tasks, start the first, delete the second. *)
Definition m1 : M (B:=MemBackend) unit := ignore (CreateTaskWithOptions lower_ascii [] EmptyString 1 (opts "A")).
Definition m2 : M (B:=MemBackend) unit := ignore (CreateTaskWithOptions lower_ascii [] EmptyString 2 (opts "B")).
Definition m3 : M (B:=MemBackend) unit := UpdateTaskStatus 3 3 "A"%string TaskStatusInProgress.
Definition m4 : M (B:=MemBackend) unit := DeleteTask ["A"; "B"]%string 4 (λ _, 4) "B"%string "done"%string.
Definition final (faults : list bool) : Store MemBackend := (m4 (m3 (m2 (m1 (opened faults)).2).2).2).2.

(** The steps are operations of the store; the identifiers are fresh. *)
Ltac run_tac fs :=
  unfold final;
  apply rtc_l with (m1 (opened fs)).2; [by exists m1; split; [apply op_create; vm_compute|]|];
  apply rtc_l with (m2 (m1 (opened fs)).2).2; [by exists m2; split; [apply op_create; vm_compute|]|];
  apply rtc_l with (m3 (m2 (m1 (opened fs)).2).2).2; [by exists m3; split; [apply op_status|]|];
  apply rtc_once; by exists m4; split; [apply op_delete|].

Lemma run_durable : durable lower_ascii (final []).
Proof.
  destruct (NewStore_healthy lower_ascii (empty_backend []) 10 10 10 100) as (s0 & H0 & Hd & _).
  - by constructor.
  - split; [intros id t Ht; discriminate Ht|]. intros id [d Hd]. discriminate Hd.
  - apply (reachable_durable lower_ascii s0); [done|]. assert (s0 = opened []) as ->.
    { unfold opened. by rewrite H0. }
    run_tac (@nil bool).
Qed.

(** A run in which saving the second task fails. *)
Lemma store_wf_reachable_witness :
  store_wf lower_ascii (final [false; false; false; false; true]) ∧
  (map_to_list (tasks (final [false; false; false; false; true]))).*1 = ["A"%string].
Proof.
  split; [|vm_compute; reflexivity].
  apply (store_wf_reachable lower_ascii (empty_backend [false; false; false; false; true]) 10 10 10 100
           (opened [false; false; false; false; true])).
  - intros id t Ht. discriminate Ht.
  - reflexivity.
  - run_tac [false; false; false; false; true].
Defined.

(** The run without faults, stopped and opened again. *)
Lemma restart_recovers_witness :
  ∃ s', NewStore lower_ascii (backend (final [])) 1 1 1 100 = Ok s' ∧ durable lower_ascii s' ∧
    is_Some (tasks s' !! "A"%string) ∧ is_Some (deleted s' !! "B"%string).
Proof.
  destruct (restart_recovers lower_ascii (empty_backend []) 10 10 10 100 (opened []) (final []) 1 1 1 100)
    as (s' & H1 & H2 & _ & _ & H3 & H4).
  - constructor.
  - split; [intros id t Ht; discriminate Ht|]. intros id [d Hd]. discriminate Hd.
  - reflexivity.
  - run_tac (@nil bool).
  - exists s'. split; [exact H1|]. split; [exact H2|]. split; [apply H3|apply H4]; vm_compute; eexists; reflexivity.
Defined.
End Run.
