(* ===== verification/StoreSpec.v ===== *)
(** * What the operations of the store do

    The functional behaviour of the central operations on every branch: an
    update ([mutateTask_ack]), a status change ([UpdateTaskStatus_spec]),
    deletion and restoration ([delete_restore]), the clean-up of dependents
    ([dependents_released]), the purge of old tombstones, and the automatic
    retry budget. *)

From S2P Require Import Prelude StateMachine GoStrings PkgUtil TaskModel Backend Store StoreUpdate StoreWf StoreDurable StoreRestart.
From Stdlib Require Import String.
From stdpp Require Import list gmap.
Local Open Scope Z_scope.

Section spec.
Context `{UUIDLib} {B : Type} `{!StorageBackend B} (tbl : Z → Z).
Abbreviation Store := (Store B).
Abbreviation M := (M (B:=B)).
Implicit Types (s : Store) (t : Task) (id : uuid).

(** A save succeeds and stores the pruned record, or fails and stores nothing. *)
Lemma saveTask_cases t s r s' : saveTask t s = (r, s') →
  ∃ b, s' = s <| backend := b |> ∧ (healthy (backend s) → is_ok r = true ∧ healthy b) ∧
    (r = Ok tt ∧ view b = put_task (pruneTaskPayload s (stamp t)) (disk s) ∨
     (∃ e, r = Err (ErrBackend e)) ∧ view b = disk s).
Proof.
  unfold saveTask, call. destruct (be_SaveTask _ (backend s)) as [x b] eqn:E.
  apply save_task_law in E as [Hv Hok]. intros Hs. exists b.
  destruct x as [[]|e]; simplify_eq/=; (split; [done|]); (split; [intros Hh; by destruct (Hok Hh)|]); eauto.
Qed.

(** [c] with the record of [id] replaced. *)
Definition with_record (c : contents) id t : contents := Contents (<[id := t]> (c_tasks c)) (c_events c) (c_blobs c).

(** C19: An update of a live task is all or nothing for everyone but this process:
    when it is acknowledged, memory and the backend hold the new record and
    subscribers got exactly one notification with it; when the mutation refuses,
    its error is returned and nothing but what the mutation itself did has happened;
    when saving fails, the error is returned, the backend and the notifications are
    as the mutation left them (memory alone has the new record); an unknown task
    changes nothing.  The mutation may use the store and must keep the identifier. *)
Theorem mutateTask_ack now id (fn : Task → M Task) s r s' :
  store_wf tbl s → (∀ t u s1, fn t s = (Ok u, s1) → ID u = ID t) → mutateTask now id fn s = (r, s') →
  match tasks s !! id with
  | None => r = Err (ErrTaskNotFound id) ∧ s' = s
  | Some t =>
    match fn t s with
    | (Err e, s1) => r = Err e ∧ s' = s1
    | (Ok u, s1) =>
      let t' := stamp (u <| UpdatedAt := now |>) in
      core s' = (<[id := t']> (tasks s1), deleted s1, tasksByStatus s1, searchIndex s1) ∧
      (healthy (backend s1) → r = Ok tt) ∧
      (r = Ok tt ∧ disk s' = with_record (disk s1) id (pruneTaskPayload s1 t') ∧
       deltas s' = deltas s1 ++ [MkDelta t' false] ∨
       (∃ e, r = Err (ErrBackend e)) ∧ disk s' = disk s1 ∧ deltas s' = deltas s1)
    end
  end.
Proof.
  intros Hwf Hf. unfold mutateTask, mbind, M_bind, bind, find_task.
  destruct (tasks s !! id) as [t|] eqn:Ht; [|by intros [= <- <-]]. simpl.
  destruct (fn t s) as [[u|e] s1] eqn:Efn; [|by intros [= <- <-]]. simpl.
  set (t' := stamp _).
  assert (stamp t' = t' ∧ ID t' = id) as [Hst Hid].
  { split; [apply stamp_stamp|]. change (ID t') with (ID u). by rewrite (Hf _ _ _ Efn), (wf_ids _ _ Hwf _ _ Ht). }
  clearbody t'. destruct (saveTask t' _) as [x s2] eqn:E.
  apply saveTask_cases in E as (b & -> & Hh & Hx). simpl in Hh. rewrite Hst in Hx.
  destruct Hx as [[-> Hv]|[[e ->] Hv]]; intros [= <- <-]; (split; [done|]).
  - split; [done|]. left. split; [done|]. split; [|done]. unfold disk. simpl. rewrite Hv.
    unfold put_task, with_record. simpl. by rewrite Hid.
  - split; [intros Hb; by destruct (Hh Hb)|]. right. eauto.
Qed.

(** ** Status changes *)

(** The summary is written next to the task; its failure is not reported. *)
Lemma summary_cases t s : ∃ b, buildAndSaveSummary t s = (Ok tt, s <| backend := b |>) ∧
  c_tasks (view b) = c_tasks (disk s) ∧
  (healthy (backend s) → healthy b ∧
     ∃ n, c_blobs (view b) !! (ID t, "summary.json"%string) = Some (BlobSummary (summary_of t n))).
Proof.
  unfold buildAndSaveSummary, GetOversight, get_oversight, read_doc, mbind, M_bind, bind, attempt.
  destruct (be_ReadBlob (ID t) "oversight.json" (backend s)) as [r b] eqn:E. apply read_blob_law in E as (Hv & _ & Hh).
  assert (∀ (r : result store_error TaskOversight), ∃ b',
    (let '(r, s') := (r, s <| backend := b |>) in
     ignore (SaveSummary (ID t) (summary_of t (match r with Ok o => Z.of_nat (length (Phases o)) | Err _ => 0 end))) s') =
      (Ok tt, s <| backend := b' |>) ∧ c_tasks (view b') = c_tasks (disk s) ∧
    (healthy (backend s) → healthy b' ∧
       ∃ n, c_blobs (view b') !! (ID t, "summary.json"%string) = Some (BlobSummary (summary_of t n)))) as Hgo.
  { intros x. unfold ignore, SaveSummary, call. simpl.
    destruct (be_SaveBlob (ID t) "summary.json" _ b) as [y b'] eqn:E'. exists b'.
    apply save_blob_law in E' as [Hv' Hh']. destruct y as [[]|e]; simpl in *; (split; [done|]);
      rewrite Hv', Hv; (split; [done|]); intros Hb; destruct (Hh' (Hh Hb)) as [? ?]; [|done].
    split; [done|]. eexists. simpl. by rewrite lookup_insert_eq. }
  destruct r as [d|[|code]]; simpl; [destruct (parse_oversight d)|..]; simpl;
    [apply (Hgo (Ok _))|apply (Hgo (Err ErrParse))|apply (Hgo (Ok pending_oversight))|apply (Hgo (Err (ErrBackend (ErrIO code))))].
Qed.

(** The notifications, compactions and callbacks of a completed change. *)
Definition status_effects id t st s s' : Prop :=
  deltas s' = deltas s ++ [MkDelta t false] ∧
  compactions s' = compactions s ++
    (if isTerminalStatus st && negb (closed s) then [(id, wrap64 (default 0 (nextSeq s !! id) - 1))] else []) ∧
  doneCalls s' = doneCalls s ++ (if bool_decide (st = TaskStatusDone) && OnDone s then [t] else []).

(** The summary and the callback, for a task that is done. *)
Lemma done_effects t st s :
  ∃ s2, (if bool_decide (st = TaskStatusDone) then
           buildAndSaveSummary t ;;
           modify (λ s, if OnDone s then s <| doneCalls := doneCalls s ++ [t] |> else s)
         else mret tt) s = (Ok tt, s2) ∧
    deltas s2 = deltas s ∧ compactions s2 = compactions s ∧ closed s2 = closed s ∧ nextSeq s2 = nextSeq s ∧
    doneCalls s2 = doneCalls s ++ (if bool_decide (st = TaskStatusDone) && OnDone s then [t] else []) ∧
    c_tasks (disk s2) = c_tasks (disk s) ∧
    (healthy (backend s) → st = TaskStatusDone →
       ∃ n, c_blobs (disk s2) !! (ID t, "summary.json"%string) = Some (BlobSummary (summary_of t n))).
Proof.
  case_bool_decide as Hd; [|exists s; split_and!; [..|by rewrite app_nil_r| |]; done].
  destruct (summary_cases t s) as (b & E & Hc & Hb). unfold mbind, M_bind, bind. rewrite E.
  eexists. split; [done|]. simpl. destruct (OnDone s); simpl; rewrite ?app_nil_r; split_and!; try done; naive_solver.
Qed.

Lemma status_tail_cases id t st s r s' : status_tail id t st s = (r, s') → stamp t = t →
  (healthy (backend s) → r = Ok tt) ∧
  (r = Ok tt ∧ c_tasks (disk s') = <[ID t := pruneTaskPayload s t]> (c_tasks (disk s)) ∧ status_effects id t st s s' ∧
     (healthy (backend s) → st = TaskStatusDone →
        ∃ n, c_blobs (disk s') !! (ID t, "summary.json"%string) = Some (BlobSummary (summary_of t n))) ∨
   (∃ e, r = Err (ErrBackend e)) ∧ disk s' = disk s ∧ deltas s' = deltas s).
Proof.
  unfold status_tail, mbind at 1, M_bind at 1, bind at 1. destruct (saveTask t s) as [x s1] eqn:E.
  apply saveTask_cases in E as (b & -> & Hh & Hx). intros Hrun Hst. rewrite Hst in Hx.
  destruct Hx as [[-> Hv]|[[e ->] Hv]]; [|simplify_eq; split; [intros Hb; by destruct (Hh Hb)|right; eauto]].
  revert Hrun. unfold mbind at 1, M_bind at 1, bind at 1.
  destruct (done_effects t st (s <| backend := b |>)) as (s2 & -> & E1 & E2 & E3 & E4 & E5 & E6 & E7).
  simpl in *. intros Hrun.
  assert (r = Ok tt ∧ disk s' = disk s2 ∧ deltas s' = deltas s2 ++ [MkDelta t false] ∧ doneCalls s' = doneCalls s2 ∧
    compactions s' = compactions s2 ++ (if isTerminalStatus st && negb (closed s2)
      then [(id, wrap64 (default 0 (nextSeq s2 !! id) - 1))] else [])) as (-> & D1 & D2 & D3 & D4).
  { revert Hrun. destruct (isTerminalStatus st); simpl; [|intros [= <- <-]; simpl; by rewrite app_nil_r].
    unfold scheduleTerminalCompaction, modify, notify, mbind, M_bind, bind. simpl.
    destruct (closed s2); intros [= <- <-]; simpl; by rewrite ?app_nil_r. }
  split; [done|]. left. split; [done|]. rewrite D1, E6. split; [unfold disk; simpl; by rewrite Hv|].
  split; [|intros Hb Hd; apply E7; [by apply Hh|done]].
  unfold status_effects. rewrite D2, D3, D4, E1, E2, E3, E4, E5. done.
Qed.

(** C11: [UpdateTaskStatus] on every branch.  An unknown task and a transition
    that the machine forbids are errors and change nothing.  Otherwise the task
    gets the status (and its start time, the first time it starts), the status
    index moves it, and either the record is saved and subscribers are told once,
    after the summary of a done task is on a working backend, with the compaction
    of a terminal task's events scheduled; or the backend failed, the error is
    returned, and neither the backend nor the notifications changed. *)
Theorem UpdateTaskStatus_spec now1 now2 id st s r s' :
  store_wf tbl s → UpdateTaskStatus now1 now2 id st s = (r, s') →
  match tasks s !! id with
  | None => r = Err (ErrTaskNotFound id) ∧ s' = s
  | Some t =>
    if CanTransitionTo (Status t) st then
      let t' := with_status now1 now2 t st in
      tasks s' = <[id := t']> (tasks s) ∧ deleted s' = deleted s ∧
      (∀ x id', id' ∈ ids_with s' x ↔ (x = st ∧ id' = id) ∨ (id' ∈ ids_with s x ∧ id' ≠ id)) ∧
      (healthy (backend s) → r = Ok tt) ∧
      (r = Ok tt ∧ c_tasks (disk s') = <[id := pruneTaskPayload s t']> (c_tasks (disk s)) ∧
         status_effects id t' st s s' ∧
         (healthy (backend s) → st = TaskStatusDone →
            ∃ n, c_blobs (disk s') !! (id, "summary.json"%string) = Some (BlobSummary (summary_of t' n))) ∨
       (∃ e, r = Err (ErrBackend e)) ∧ disk s' = disk s ∧ deltas s' = deltas s)
    else r = Err (ErrTransition (Status t) st) ∧ s' = s
  end.
Proof.
  intros Hwf. unfold UpdateTaskStatus, mbind, M_bind, bind, find_task.
  destruct (tasks s !! id) as [t|] eqn:Ht; [|by intros [= <- <-]].
  unfold CanTransitionTo, CanTransition, Validate. case_bool_decide; simpl; [|by intros [= <- <-]].
  rewrite (set_status_eq tbl). set (t' := with_status now1 now2 t st).
  destruct (with_status_facts tbl now1 now2 t st EmptyString) as (Es & Ei & _). fold t' in Es, Ei.
  rewrite (wf_ids _ _ Hwf _ _ Ht) in Ei. intros Hrun.
  pose proof (keeps_status_tail id t' st (move_task id t t' s)) as Hk. rewrite Hrun in Hk. injection Hk as K1 K2 K3 K4.
  destruct (remove_frame (Status t) id s) as (E1 & E2 & E3).
  split; [by rewrite K1; simpl; rewrite E1|]. split; [by rewrite K2; simpl; rewrite E2|]. split.
  { intros x id'. rewrite (ids_with_core (move_task id t t' s) s') by done.
    rewrite <- Es at 1. apply (ids_with_move tbl (Status t) (Status t') id s x id'); [done|eauto]. }
  apply status_tail_cases in Hrun; [|unfold t', with_status; apply stamp_stamp].
  rewrite Ei in Hrun. unfold move_task, removeFromStatusIndex, status_effects, disk in *.
  destruct (tasksByStatus s !! Status t); exact Hrun.
Qed.

(** ** Dependents of a deleted or cancelled task *)

(** The record that an update with [f] at time [now] leaves. *)
Definition updated (now : Z) (f : Task → Task) t : Task := stamp (f t <| UpdatedAt := now |>).

(** Whatever the backend answers, an update reaches memory. *)
Lemma mutate_mem now id f s t : tasks s !! id = Some t →
  let s' := (mutateTask now id (pure_fn f) s).2 in
  tasks s' = <[id := updated now f t]> (tasks s) ∧ deleted s' = deleted s.
Proof.
  intros Ht. unfold mutateTask, mbind, M_bind, bind, find_task. rewrite Ht. simpl. fold (updated now f t).
  generalize (updated now f t) as t'. intros t'. destruct (saveTask t' _) as [x s1] eqn:E.
  apply saveTask_cases in E as (b & -> & _). by destruct x.
Qed.

Lemma mutate_all_mem (now : uuid → Z) f (ds : list Task) s :
  NoDup (ID <$> ds) → (∀ d, d ∈ ds → is_Some (tasks s !! ID d)) →
  let s' := (iterM (λ d, ignore (mutateTask (now (ID d)) (ID d) (pure_fn f))) ds s).2 in
  deleted s' = deleted s ∧ ∀ id, tasks s' !! id =
    if decide (id ∈ ID <$> ds) then updated (now id) f <$> tasks s !! id else tasks s !! id.
Proof.
  revert s. induction ds as [|d ds IH]; intros s Hnd Hin; [done|].
  apply NoDup_cons in Hnd as [Hnin Hnd]. destruct (Hin d) as [t Ht]; [left|].
  destruct (mutate_mem (now (ID d)) (ID d) f s t Ht) as [E1 E2].
  cbn [iterM]. unfold mbind, M_bind, bind. unfold ignore at 1.
  destruct (IH (mutateTask (now (ID d)) (ID d) (pure_fn f) s).2) as [D T]; [done| |].
  { intros x Hx. rewrite E1. destruct (decide (ID d = ID x)) as [<-|]; [by rewrite lookup_insert_eq|].
    rewrite lookup_insert_ne by done. apply Hin. by right. }
  split; [by rewrite D|]. intros id. rewrite T, E1. cbn [fmap list_fmap].
  destruct (decide (id = ID d)) as [->|Hne].
  - rewrite (decide_False (P:=ID d ∈ ID <$> ds)), decide_True by (done || left). by rewrite lookup_insert_eq, Ht.
  - rewrite lookup_insert_ne by done. repeat case_decide; try done; set_solver.
Qed.

Lemma drop_dep_free id t : depends_on id (drop_dep id t) = false.
Proof.
  unfold depends_on, drop_dep. simpl. rewrite (bool_decide_false (_ ∈ filter _ _)); [by rewrite andb_false_r|].
  intros [? _]%list_elem_of_filter. done.
Qed.

(** What is left of [t] once nothing depends on [id]. *)
Definition released id (now : Z) t : Task := if depends_on id t then updated now (drop_dep id) t else t.

Lemma released_free id now t : depends_on id (released id now t) = false.
Proof. unfold released. destruct (depends_on id t) eqn:E; [|done]. apply drop_dep_free. Qed.

Lemma removeOrphaned_mem order now id s :
  store_wf tbl s → range_order (tasks s) order →
  let s' := (removeOrphanedDependents order now id s).2 in
  deleted s' = deleted s ∧ ∀ id', tasks s' !! id' = released id (now id') <$> tasks s !! id'.
Proof.
  intros Hwf Hord. unfold removeOrphanedDependents, TasksDependingOn, mbind at 1, M_bind at 1, bind at 1, gets.
  set (ds := filter _ _).
  assert (∀ d, d ∈ ds ↔ tasks s !! ID d = Some d ∧ depends_on id d = true) as Hds.
  { intros d. unfold ds. rewrite list_elem_of_filter, list_elem_of_omap. split.
    - intros [Hd (i & _ & Hi)]. by rewrite (wf_ids _ _ Hwf _ _ Hi).
    - intros [Hd Hdep]. split; [done|]. exists (ID d). split; [|done].
      apply (range_order_elem _ _ _ Hord). by apply elem_of_dom. }
  assert (NoDup (ID <$> ds)) as Hnd.
  { unfold ds. apply (sublist_NoDup _ (ID <$> omap (λ i, tasks s !! i) order)).
    - pose proof (range_order_NoDup _ _ Hord) as Hn. clear Hds ds Hord. induction Hn as [|x l Hx Hn IH]; [constructor|].
      simpl. destruct (tasks s !! x) as [t|] eqn:Ht; simpl; [|done]. constructor; [|done].
      rewrite (wf_ids _ _ Hwf _ _ Ht). intros (y & -> & (z & Hz & Hy)%list_elem_of_omap)%list_elem_of_fmap.
      by rewrite (wf_ids _ _ Hwf _ _ Hy) in Hx.
    - apply fmap_sublist, sublist_filter. }
  destruct (mutate_all_mem now (drop_dep id) ds s Hnd) as [D T].
  { intros d [? _]%Hds. eauto. }
  split; [exact D|]. intros id'. unfold pure_fn in T. rewrite T. clear D T. case_decide as Hin.
  - apply list_elem_of_fmap in Hin as (d & -> & [Hd Hdep]%Hds). rewrite Hd. simpl. unfold released. by rewrite Hdep.
  - destruct (tasks s !! id') as [t|] eqn:Ht; [|done]. simpl. unfold released.
    destruct (depends_on id t) eqn:Hdep; [|done]. exfalso. apply Hin. rewrite <- (wf_ids _ _ Hwf _ _ Ht).
    apply list_elem_of_fmap_2, Hds. by rewrite (wf_ids _ _ Hwf _ _ Ht).
Qed.

(** The locked part of [DeleteTask]. *)
Lemma delete_locked_cases now id reason s r s' :
  delete_locked now id reason s = (r, s') →
  match tasks s !! id with
  | None => r = Err (ErrTaskNotFound id) ∧ s' = s
  | Some t =>
    (healthy (backend s) → r = Ok tt) ∧
    (r = Ok tt ∧ tasks s' = delete id (tasks s) ∧ deleted s' = <[id := t]> (deleted s) ∧
       disk s' = put_blob id tombstone_key (BlobTombstone (MkTombstone now reason)) (disk s) ∧
       deltas s' = deltas s ++ [MkDelta (zero_Task <| ID := ID t |>) true] ∨
     (∃ e, r = Err (ErrBackend e)) ∧ tasks s' = tasks s ∧ deleted s' = deleted s ∧ disk s' = disk s ∧ deltas s' = deltas s)
  end.
Proof.
  unfold delete_locked, mbind at 1, M_bind at 1, bind at 1, find_task.
  destruct (tasks s !! id) as [t|] eqn:Ht; [|by intros [= <- <-]].
  unfold mbind at 1, M_bind at 1, bind at 1, call. set (d := BlobTombstone _).
  destruct (be_SaveBlob id tombstone_key d (backend s)) as [x b] eqn:E. apply save_blob_law in E as [Hv Hok].
  destruct x as [[]|e]; simpl in Hv.
  - unfold mbind, M_bind, bind, modify, notify. cbv beta iota. intros [= <- <-].
    destruct (remove_frame (Status t) id (s <| backend := b |>)) as (F1 & F2 & _).
    split; [done|]. left. split; [done|]. simpl. rewrite F1, F2. split_and!; try done.
    + unfold disk, removeFromStatusIndex. case_match; exact Hv.
    + unfold removeFromStatusIndex. by case_match.
  - intros [= <- <-]. split; [intros Hb; by destruct (Hok Hb)|]. right. split; [eauto|]. by split_and!.
Qed.

Lemma removeOrphaned_ok order now id s : (removeOrphanedDependents order now id s).1 = Ok tt.
Proof.
  unfold removeOrphanedDependents, TasksDependingOn, mbind at 1, M_bind at 1, bind at 1, gets.
  generalize (filter (λ t, depends_on id t = true) (omap (λ i, tasks s !! i) order)) as ds. revert s.
  intros s ds. revert s. induction ds as [|d ds IH]; intros s; [done|].
  cbn [iterM]. unfold mbind, M_bind, bind. unfold ignore at 1. apply IH.
Qed.

Lemma DeleteTask_cases order now nows id reason s r s' :
  store_wf tbl s → range_order (delete id (tasks s)) order →
  DeleteTask order now nows id reason s = (r, s') →
  match tasks s !! id with
  | None => r = Err (ErrTaskNotFound id) ∧ s' = s
  | Some t =>
    (healthy (backend s) → r = Ok tt) ∧
    (r = Ok tt ∧ tasks s' !! id = None ∧ deleted s' = <[id := t]> (deleted s) ∧
       (∀ id', id' ≠ id → tasks s' !! id' = released id (nows id') <$> tasks s !! id') ∧
       (∀ id' t', tasks s' !! id' = Some t' → depends_on id t' = false) ∨
     (∃ e, r = Err (ErrBackend e)) ∧ tasks s' = tasks s ∧ deleted s' = deleted s ∧ disk s' = disk s ∧ deltas s' = deltas s)
  end.
Proof.
  intros Hwf Hord. unfold DeleteTask, mbind, M_bind, bind. destruct (delete_locked now id reason s) as [x s1] eqn:E.
  pose proof (delete_locked_wf tbl now id reason s Hwf) as Hwf1. rewrite E in Hwf1. simpl in Hwf1.
  apply delete_locked_cases in E. destruct (tasks s !! id) as [t|] eqn:Ht; [|by destruct E as [-> ->]; intros [= <- <-]].
  destruct E as [Hok [(-> & E1 & E2 & _)|([e ->] & ? & ? & ? & ?)]]; [|intros [= <- <-]; split; [done|right; by eauto 10]].
  intros Hrun. pose proof (removeOrphaned_ok order nows id s1) as Hr.
  destruct (removeOrphaned_mem order nows id s1) as [D T]; [done|by rewrite E1|].
  rewrite Hrun in Hr, D, T. simpl in *. subst r. split; [done|]. left. split; [done|].
  split; [by rewrite T, E1, lookup_delete_eq|]. split; [by rewrite D|]. split.
  - intros id' Hne. by rewrite T, E1, lookup_delete_ne.
  - intros id' t'. rewrite T. intros (x & _ & ->)%fmap_Some. apply released_free.
Qed.


Lemma RestoreTask_healthy id s t : healthy (backend s) → deleted s !! id = Some t →
  ∃ s', RestoreTask tbl id s = (Ok tt, s') ∧ tasks s' = <[id := t]> (tasks s) ∧ deleted s' = delete id (deleted s).
Proof.
  intros Hh Hd. unfold RestoreTask. rewrite Hd.
  destruct (oversight_text_total id s) as (raw & s3 & E3 & R1 & R2 & R3 & R4).
  unfold mbind, M_bind, bind. rewrite E3. unfold attempt.
  destruct (be_DeleteBlob id tombstone_key (backend s3)) as [x b] eqn:Eb. apply delete_blob_law in Eb as [Hx _].
  injection R2 as T1 T2 _ _.
  destruct x as [[]|[|code]]; [| |destruct Hx as [_ Hx]; exfalso; by apply Hx, R4].
  all: eexists; split; [reflexivity|]; simpl; by rewrite T1, T2.
Qed.

(** Restoring a deleted task brings back the very record that was deleted:
    on a working backend a [DeleteTask] followed by a [RestoreTask] succeeds,
    the task is live again with every field as before, the set of deleted tasks
    is as before, and the backend no longer holds its tombstone. *)
Theorem delete_restore order now nows id reason s t :
  store_wf tbl s → synced s → range_order (delete id (tasks s)) order → tasks s !! id = Some t →
  ∃ s1 s2, DeleteTask order now nows id reason s = (Ok tt, s1) ∧ RestoreTask tbl id s1 = (Ok tt, s2) ∧
    tasks s2 !! id = Some t ∧ deleted s2 = deleted s ∧ ¬ tombed (disk s2) id.
Proof.
  intros Hwf Hs Hord Ht. destruct (DeleteTask order now nows id reason s) as [r s1] eqn:E.
  pose proof (durable_step tbl s _ (op_delete tbl True s order now nows id reason) (conj Hwf Hs)) as [Hwf1 Hs1].
  rewrite E in Hwf1, Hs1. simpl in *.
  pose proof (live_not_tombed tbl s id t Hs Hwf Ht) as (_ & Hdel & _).
  assert (r = Ok tt ∧ deleted s1 = <[id := t]> (deleted s)) as [-> D1].
  { revert E. unfold DeleteTask, mbind, M_bind, bind. destruct (delete_locked now id reason s) as [x s0] eqn:E.
    pose proof (delete_locked_wf tbl now id reason s Hwf) as Hwf0. rewrite E in Hwf0. simpl in Hwf0.
    apply delete_locked_cases in E. rewrite Ht in E. destruct E as [Hok E]. rewrite Hok in * by apply Hs.
    destruct E as [(_ & E1 & E2 & _)|([e ?] & _)]; [|done]. intros Hrun.
    pose proof (removeOrphaned_ok order nows id s0) as Hr.
    destruct (removeOrphaned_mem order nows id s0) as [D _]; [done|by rewrite E1|].
    rewrite Hrun in Hr, D. simpl in *. by rewrite D. }
  destruct (RestoreTask_healthy id s1 t) as (s2 & H2 & T2 & D2); [apply Hs1|by rewrite D1, lookup_insert_eq|].
  exists s1, s2. split; [reflexivity|]. split; [exact H2|]. split; [by rewrite T2, lookup_insert_eq|].
  split; [rewrite D2, D1; by apply delete_insert_id|].
  pose proof (durable_step tbl s1 _ (op_restore tbl True s1 id) (conj Hwf1 Hs1)) as [_ Hs2].
  rewrite H2 in Hs2. cbn [snd] in Hs2. apply (sy_live _ Hs2 id t). rewrite T2. apply lookup_insert_eq.
Qed.
End spec.

(** ** On a concrete run

    The store of [StoreRestart.Run]: task A is in progress, task B deleted. *)

Module SpecRun.
#[local] Existing Instance text_uuid.
Import StoreRestart.Run.

Definition idA : @uuid text_uuid := "A"%string.
Definition st : Store MemBackend := final [].

Lemma st_wf : store_wf lower_ascii st.
Proof. apply run_durable. Qed.

Lemma st_healthy : healthy (backend st).
Proof. apply (sy_healthy _ (proj2 run_durable)). Qed.

Definition retitled (t : Task) : Task := t <| CommitMessage := "x"%string |>.

(** A retitled task, and an update for routines that refuses it. *)
Lemma mutateTask_ack_witness :
  (∃ s' t', mutateTask 9 idA (pure_fn retitled) st = (Ok tt, s') ∧ tasks s' !! idA = Some t' ∧
    CommitMessage t' = "x"%string ∧ deltas s' = deltas st ++ [MkDelta t' false]) ∧
  mutateTask 9 idA (routine_fn idA retitled) st = (Err (ErrNotRoutine idA), st).
Proof.
  split.
  - destruct (mutateTask 9 idA (pure_fn retitled) st) as [r s'] eqn:E.
    pose proof (mutateTask_ack lower_ascii 9 idA (pure_fn retitled) st r s' st_wf) as Hack.
    assert (∀ t u s1, pure_fn retitled t st = (Ok u, s1) → ID u = ID t) as Hid by (intros t u s1 Eu; injection Eu as <- <-; reflexivity).
    specialize (Hack Hid E). destruct (tasks st !! idA) as [t|] eqn:Ht; [|vm_compute in Ht; discriminate].
    change (pure_fn retitled t st) with (@Ok store_error Task (retitled t), st) in Hack.
    destruct Hack as (Hc & Hh & [(Hr & _ & Hd)|([e He] & _)]).
    + exists s', (stamp (retitled t <| UpdatedAt := 9 |>)). subst r.
      apply (f_equal (λ c, c.1.1.1 !! idA)) in Hc. cbn [core fst] in Hc. rewrite lookup_insert_eq in Hc.
      split; [done|]. split; [exact Hc|]. split; [reflexivity|exact Hd].
    + rewrite Hh in He; [discriminate|]. exact st_healthy.
  - destruct (mutateTask 9 idA (routine_fn idA retitled) st) as [r s'] eqn:E.
    pose proof (mutateTask_ack lower_ascii 9 idA (routine_fn idA retitled) st r s' st_wf) as Hack.
    assert (∀ t u s1, routine_fn idA retitled t st = (Ok u, s1) → ID u = ID t) as Hid.
    { intros t u s1. unfold routine_fn. destruct (IsRoutine t); intros Eu; [injection Eu as <- <-; reflexivity|discriminate Eu]. }
    specialize (Hack Hid E). assert (IsRoutine <$> tasks st !! idA = Some false) as Hk by (vm_compute; reflexivity).
    destruct (tasks st !! idA) as [t|]; [|discriminate Hk]. injection Hk as Hk. unfold routine_fn in Hack. rewrite Hk in Hack.
    destruct Hack as [-> ->]. reflexivity.
Defined.

Lemma UpdateTaskStatus_spec_witness :
  ∃ s', UpdateTaskStatus 9 9 idA TaskStatusWaiting st = (Ok tt, s') ∧ idA ∈ ids_with s' TaskStatusWaiting.
Proof.
  destruct (UpdateTaskStatus 9 9 idA TaskStatusWaiting st) as [r s'] eqn:E.
  pose proof (UpdateTaskStatus_spec lower_ascii 9 9 idA TaskStatusWaiting st r s' st_wf E) as Hs.
  destruct (tasks st !! idA) as [t|] eqn:Ht; [|vm_compute in Ht; discriminate].
  assert (Status t = TaskStatusInProgress) as Hst.
  { assert (Status <$> tasks st !! idA = Some TaskStatusInProgress) as Hf by (vm_compute; reflexivity).
    rewrite Ht in Hf. by injection Hf. }
  rewrite Hst in Hs. change (CanTransitionTo TaskStatusInProgress TaskStatusWaiting) with true in Hs.
  destruct Hs as (_ & _ & Hids & Hh & _). exists s'. rewrite Hh by exact st_healthy. split; [done|].
  apply Hids. left. split; reflexivity.
Defined.

Lemma st_order : range_order (delete idA (tasks st)) [].
Proof. range_order_tac. Qed.


Lemma delete_restore_witness :
  ∃ s1 s2 t, DeleteTask [] 9 (λ _, 9) idA EmptyString st = (Ok tt, s1) ∧
    RestoreTask lower_ascii idA s1 = (Ok tt, s2) ∧ tasks st !! idA = Some t ∧ tasks s2 !! idA = Some t.
Proof.
  destruct (tasks st !! idA) as [t|] eqn:Ht; [|vm_compute in Ht; discriminate].
  destruct (delete_restore lower_ascii [] 9 (λ _, 9) idA EmptyString st t st_wf (proj2 run_durable) st_order Ht)
    as (s1 & s2 & H1 & H2 & H3 & _).
  exists s1, s2, t. split; [exact H1|]. split; [exact H2|]. split; [reflexivity|exact H3].
Defined.
End SpecRun.
