(* ===== verification/StoreEvents.v ===== *)
(** * The event log

    [log_wf]: on a working backend, the events in memory of a task whose events
    are loaded are exactly the stored ones in the order of their sequence
    numbers, and the next number is one past the last.  Every operation keeps
    it, so that [InsertEvent] appends exactly one event with the next number and
    [GetEvents] returns the whole log, before and after a restart and whatever
    is compacted in between.  When a lazy load fails the log is overwritten
    ([lazy_load_overwrites]). *)

From S2P Require Import Prelude StateMachine GoStrings PkgUtil TaskModel Backend Store StoreUpdate StoreWf StoreDurable StoreRestart.
From Stdlib Require Import String.
From stdpp Require Import list gmap sorting.
Local Open Scope Z_scope.

(** ** Sorted event maps *)

Section sorted.
Context `{UUIDLib}.
Implicit Types (m : gmap Z TaskEvent) (e : TaskEvent).

#[export] Instance seq_le_total : Total seq_le.
Proof. intros a b. unfold seq_le. lia. Qed.

#[export] Instance seq_le_trans : Transitive seq_le.
Proof. intros a b c. unfold seq_le. lia. Qed.

(** A list sorted by distinct keys is determined by its elements. *)
Lemma sorted_unique (l1 l2 : list (Z * TaskEvent)) :
  StronglySorted seq_le l1 → StronglySorted seq_le l2 → NoDup l1.*1 → l1 ≡ₚ l2 → l1 = l2.
Proof.
  revert l2. induction l1 as [|a l1 IH]; intros l2 H1 H2 Hnd Hp.
  { symmetry. by apply Permutation_nil. }
  destruct l2 as [|b l2]; [by symmetry in Hp; apply Permutation_nil_cons in Hp|].
  assert (a = b) as <-.
  { assert (b ∈ a :: l1) as Hb by (rewrite Hp; left). assert (a ∈ b :: l2) as Ha by (rewrite <- Hp; left).
    apply elem_of_cons in Hb as [->|Hb]; [done|]. apply elem_of_cons in Ha as [->|Ha]; [done|].
    apply StronglySorted_inv in H1 as [_ H1]. apply StronglySorted_inv in H2 as [_ H2].
    rewrite Forall_forall in H1. rewrite Forall_forall in H2. specialize (H1 _ Hb). specialize (H2 _ Ha). unfold seq_le in *.
    apply NoDup_cons in Hnd as [Hn _]. exfalso. apply Hn. replace (a.1) with (b.1) by lia. by apply list_elem_of_fmap_2. }
  f_equal. apply IH; [by apply StronglySorted_inv in H1 as [? _]|by apply StronglySorted_inv in H2 as [? _]| |].
  - by apply NoDup_cons in Hnd as [_ ?].
  - by eapply Permutation_cons_inv.
Qed.

Lemma sorted_events_sorted m : StronglySorted seq_le (merge_sort seq_le (map_to_list m)).
Proof. apply StronglySorted_merge_sort; apply _. Qed.

(** The sorted events of [m] are the values of any sorted enumeration of [m]. *)
Lemma sorted_events_of m l : StronglySorted seq_le l → l ≡ₚ map_to_list m → sorted_events m = l.*2.
Proof.
  intros Hs Hp. unfold sorted_events. f_equal. apply sorted_unique; [apply sorted_events_sorted|done| |].
  - rewrite merge_sort_Permutation. apply NoDup_fst_map_to_list.
  - by rewrite merge_sort_Permutation, Hp.
Qed.

Lemma sorted_events_empty : sorted_events (∅ : gmap Z TaskEvent) = [].
Proof. unfold sorted_events. by rewrite map_to_list_empty. Qed.

Lemma max_seq_ge m k e : m !! k = Some e → k <= max_seq m.
Proof.
  intros Hk%elem_of_map_to_list. unfold max_seq. revert Hk. generalize (map_to_list m) as l.
  induction l as [|[k' e'] l IH]; [by intros ?%elem_of_nil|]. intros Hin%elem_of_cons.
  change (k <= Z.max k' (foldr Z.max 0 l.*1)). destruct Hin as [[= -> ->]|Hin]; [lia|]. specialize (IH Hin). lia.
Qed.

Lemma max_seq_nonneg m : 0 <= max_seq m.
Proof.
  unfold max_seq. induction (map_to_list m) as [|[k e] l IH]; [done|].
  change (0 <= Z.max k (foldr Z.max 0 l.*1)). lia.
Qed.

Lemma max_seq_In m : max_seq m = 0 ∨ ∃ e, m !! max_seq m = Some e.
Proof.
  unfold max_seq. assert (∀ l : list (Z * TaskEvent), foldr Z.max 0 l.*1 = 0 ∨ foldr Z.max 0 l.*1 ∈ l.*1) as Hl.
  { induction l as [|[k e] l IH]; [by left|]. rewrite fmap_cons. cbn [foldr fst]. destruct (Z.max_spec k (foldr Z.max 0 l.*1)) as [[_ ->]|[? ->]].
    - destruct IH; [by left|right; by constructor].
    - right. constructor. }
  destruct (Hl (map_to_list m)) as [?|([k e] & Hk & Hin)%list_elem_of_fmap]; [by left|].
  right. simpl in Hk. rewrite Hk. exists e. by apply elem_of_map_to_list.
Qed.

(** A number past all others goes last. *)
Lemma sorted_events_insert m n e : max_seq m < n → sorted_events (<[n := e]> m) = sorted_events m ++ [e].
Proof.
  intros Hn. assert (m !! n = None) as Hnone.
  { destruct (m !! n) eqn:E; [|done]. apply max_seq_ge in E. lia. }
  rewrite (sorted_events_of _ (merge_sort seq_le (map_to_list m) ++ [(n, e)])).
  - unfold sorted_events. by rewrite fmap_app.
  - apply StronglySorted_app_2; [|apply sorted_events_sorted|by repeat constructor].
    intros [k x] [k' x'] Hx Hx'. apply list_elem_of_singleton in Hx'. simplify_eq.
    rewrite merge_sort_Permutation in Hx. apply elem_of_map_to_list, max_seq_ge in Hx. unfold seq_le. simpl. lia.
  - rewrite merge_sort_Permutation, map_to_list_insert by done. apply Permutation_app_comm.
Qed.

Lemma max_seq_insert m n e : max_seq m < n → max_seq (<[n := e]> m) = n.
Proof.
  intros Hn. apply Z.le_antisymm; [|apply (max_seq_ge _ _ e), lookup_insert_eq].
  destruct (max_seq_In (<[n := e]> m)) as [->|[x Hx]].
  - pose proof (max_seq_nonneg m). lia.
  - apply lookup_insert_Some in Hx as [[? _]|[_ Hx]]; [lia|]. apply max_seq_ge in Hx. lia.
Qed.

(** Keys are the events' own numbers. *)
Definition keyed m : Prop := map_Forall (λ k e, ev_ID e = k ∧ 1 <= k) m.

Lemma sorted_events_filter m n : keyed m →
  filter (λ ev, ev_ID ev <= n) (sorted_events m) = sorted_events (filter (λ kv, kv.1 <= n) m).
Proof.
  intros Hk. rewrite (sorted_events_of (filter _ m) (filter (λ kv, kv.1 <= n) (merge_sort seq_le (map_to_list m)))).
  - unfold sorted_events.
    assert (∀ kv, kv ∈ merge_sort seq_le (map_to_list m) → ev_ID kv.2 = kv.1) as Hid.
    { intros [k e] Hin. rewrite merge_sort_Permutation in Hin. apply elem_of_map_to_list in Hin. by apply (Hk _ _ Hin). }
    induction (merge_sort seq_le (map_to_list m)) as [|[k e] l IH]; [done|].
    rewrite fmap_cons, !filter_cons. cbn [snd fst].
    assert (ev_ID e = k) as -> by (apply (Hid (k, e)); left).
    case_decide; rewrite IH by (intros; apply Hid; by right); done.
  - apply sorted_filter, sorted_events_sorted.
  - rewrite merge_sort_Permutation. apply NoDup_Permutation.
    + apply NoDup_filter, NoDup_map_to_list.
    + apply NoDup_map_to_list.
    + intros [k e]. rewrite list_elem_of_filter, !elem_of_map_to_list, map_lookup_filter_Some. naive_solver.
Qed.
End sorted.

Section log.
Context `{UUIDLib} {B : Type} `{!StorageBackend B} (tbl : Z → Z).
Abbreviation Store := (Store B).
Abbreviation M := (M (B:=B)).
Implicit Types (s : Store) (t : Task) (id : uuid).

Definition log s id : gmap Z TaskEvent := events_at (disk s) id.

Record log_wf s : Prop := {
  lg_healthy : healthy (backend s);
  lg_mem : ∀ id, eventsLoaded s !! id = Some true →
    default [] (events s !! id) = sorted_events (log s id) ∧ default 0 (nextSeq s !! id) = max_seq (log s id) + 1;
  lg_unloaded : ∀ id, eventsLoaded s !! id ≠ Some true → default [] (events s !! id) = [];
  lg_keyed : ∀ id, keyed (log s id);
  lg_gone : ∀ id, c_tasks (disk s) !! id = None → log s id = ∅
}.

(** Sequence numbers fit an [int]: a task has fewer than [2^63 - 2] events. *)
Definition room s : Prop := ∀ id, max_seq (log s id) < 2 ^ 63 - 2.

(** [s'] differs from [s] in nothing that [log_wf] speaks of. *)
Record silent_to s s' : Prop := {
  st_healthy : healthy (backend s) → healthy (backend s');
  st_mem : events s' = events s ∧ nextSeq s' = nextSeq s ∧ eventsLoaded s' = eventsLoaded s;
  st_disk : c_events (disk s') = c_events (disk s);
  st_tasks : ∀ id, c_tasks (disk s') !! id = None → c_tasks (disk s) !! id = None
}.

Lemma silent_refl s : silent_to s s.
Proof. by split. Qed.

Lemma silent_trans s1 s2 s3 : silent_to s1 s2 → silent_to s2 s3 → silent_to s1 s3.
Proof.
  intros [A1 (A2 & A3 & A4) A5 A6] [C1 (C2 & C3 & C4) C5 C6].
  split; [auto|split_and!; congruence|congruence|auto].
Qed.

Lemma log_wf_silent s s' : silent_to s s' → log_wf s → log_wf s'.
Proof.
  intros [S1 (S2 & S3 & S4) S5 S6] [L1 L2 L3 L4 L5].
  assert (∀ id, log s' id = log s id) as E by (intros id; unfold log, events_at; by rewrite S5).
  split; [auto|..]; intros id; rewrite ?S2, ?S3, ?S4, ?E; auto.
Qed.

Definition silent {A} (m : M A) : Prop := ∀ s, healthy (backend s) → silent_to s (m s).2.

Lemma silent_ret {A} (a : A) : silent (mret a).
Proof. intros s _. apply silent_refl. Qed.

Lemma silent_throw {A} e : silent (throw (A:=A) e).
Proof. intros s _. apply silent_refl. Qed.

Lemma silent_gets {A} (f : Store → A) : silent (gets f).
Proof. intros s _. apply silent_refl. Qed.

Lemma silent_bind {A C} (m : M A) (k : A → M C) : silent m → (∀ a, silent (k a)) → silent (m ≫= k).
Proof.
  intros Hm Hk s Hh. unfold mbind, M_bind, bind. specialize (Hm s Hh).
  destruct (m s) as [[a|e] s']; simpl in *; [|done]. eapply silent_trans; [done|]. apply Hk. by apply Hm.
Qed.

Lemma silent_ignore {A} (m : M A) : silent m → silent (ignore m).
Proof. intros Hm s. apply Hm. Qed.

Lemma silent_iterM {A} (f : A → M unit) l : (∀ x, silent (f x)) → silent (iterM f l).
Proof.
  intros Hf. induction l as [|x l IH]; simpl; [apply silent_ret|]. apply silent_bind; [apply Hf|intros _; apply IH].
Qed.

Lemma silent_modify f : (∀ s, backend (f s) = backend s ∧ events (f s) = events s ∧ nextSeq (f s) = nextSeq s ∧
  eventsLoaded (f s) = eventsLoaded s) → silent (modify f).
Proof.
  intros Hf s _. destruct (Hf s) as (E1 & E2 & E3 & E4). unfold modify; simpl.
  split; unfold disk; rewrite ?E1; done.
Qed.

(** Backend calls that leave the events alone. *)
Definition no_events {A} (f : B → result io_error A * B) : Prop := ∀ b r b', f b = (r, b') → healthy b →
  healthy b' ∧ c_events (view b') = c_events (view b) ∧
  ∀ id, c_tasks (view b') !! id = None → c_tasks (view b) !! id = None.

Lemma silent_call {A} (f : B → result io_error A * B) : no_events f → silent (call f).
Proof.
  intros Hf s Hh. unfold call. destruct (f (backend s)) as [r b] eqn:E. destruct (Hf _ _ _ E Hh) as (? & ? & ?).
  destruct r; by split.
Qed.

Lemma silent_attempt {A} (f : B → result io_error A * B) : no_events f → silent (attempt f).
Proof.
  intros Hf s Hh. unfold attempt. destruct (f (backend s)) as [r b] eqn:E. destruct (Hf _ _ _ E Hh) as (? & ? & ?).
  by split.
Qed.

Lemma no_events_view {A} (f : B → result io_error A * B) :
  (∀ b r b', f b = (r, b') → healthy b → view b' = view b ∧ healthy b') → no_events f.
Proof. intros Hf b r b' Hr Hh. by destruct (Hf _ _ _ Hr Hh) as [-> ?]. Qed.

Lemma no_events_ReadBlob id k : no_events (be_ReadBlob id k).
Proof. apply no_events_view. intros b r b' (? & _ & Hh)%read_blob_law Hb. auto. Qed.

Lemma no_events_Init id : no_events (be_Init id).
Proof. apply no_events_view. intros b r b' [? Hh]%init_law Hb. by destruct (Hh Hb). Qed.

Lemma no_events_SaveTask t : no_events (be_SaveTask t).
Proof.
  intros b r b' [Hv Hh]%save_task_law Hb. destruct (Hh Hb) as [Hr ?]. rewrite Hr in Hv. rewrite Hv. simpl.
  split; [done|]. split; [done|]. by intros id [? _]%lookup_insert_None.
Qed.

Lemma no_events_SaveBlob id k d : no_events (be_SaveBlob id k d).
Proof.
  intros b r b' [Hv Hh]%save_blob_law Hb. destruct (Hh Hb) as [Hr ?]. rewrite Hr in Hv. rewrite Hv. done.
Qed.

Lemma no_events_DeleteBlob id k : no_events (be_DeleteBlob id k).
Proof.
  intros b r b' [Hr Hh]%delete_blob_law Hb. split; [auto|].
  destruct r as [?|[|?]]; [rewrite Hr|destruct Hr as [-> _]..]; done.
Qed.

Lemma silent_save t : silent (saveTask t).
Proof. intros s Hh. unfold saveTask. by apply silent_call; [apply no_events_SaveTask|]. Qed.

Lemma silent_find id : silent (find_task id).
Proof. intros s _. unfold find_task. destruct (tasks s !! id); apply silent_refl. Qed.

Lemma silent_schedule id : silent (scheduleTerminalCompaction id).
Proof. apply silent_modify. intros s. by destruct (closed s). Qed.

Lemma silent_remove_index st id : silent (modify (removeFromStatusIndex st id)).
Proof. apply silent_modify. intros s. unfold removeFromStatusIndex. by case_match. Qed.

Lemma silent_read_doc {A} id k (p : blob → option A) : silent (read_doc id k p).
Proof. apply silent_bind; [apply silent_attempt, no_events_ReadBlob|intros; apply silent_ret]. Qed.
End log.

(** Solves [silent] goals by following the operation's code. *)
Ltac silent_step :=
  lazymatch goal with
  | |- ∀ _, _ => intros
  | |- silent (let _ := _ in _) => cbv zeta
  | |- silent (mbind _ _) => apply silent_bind
  | |- silent (mret _) => apply silent_ret
  | |- silent (throw _) => apply silent_throw
  | |- silent (gets _) => apply silent_gets
  | |- silent (call (be_SaveBlob _ _ _)) => apply silent_call, no_events_SaveBlob
  | |- silent (call (be_Init _)) => apply silent_call, no_events_Init
  | |- silent (attempt (be_DeleteBlob _ _)) => apply silent_attempt, no_events_DeleteBlob
  | |- silent (ignore _) => apply silent_ignore
  | |- silent (iterM _ _) => apply silent_iterM
  | |- silent (find_task _) => apply silent_find
  | |- silent (saveTask _) => apply silent_save
  | |- silent (read_doc _ _ _) => apply silent_read_doc
  | |- silent (scheduleTerminalCompaction _) => apply silent_schedule
  | |- silent (modify (removeFromStatusIndex _ _)) => apply silent_remove_index
  | |- silent (modify _) => apply silent_modify; intros; repeat case_match; done
  | |- silent (notify _ _) => unfold notify
  | |- silent (put_mem _ _) => unfold put_mem
  | |- silent (update_index _ _) => unfold update_index
  | |- silent (mutateTask _ _ _) => unfold mutateTask
  | |- silent (pure_fn _ _) => apply silent_ret
  | |- silent (routine_fn _ _ _) => unfold routine_fn
  | |- silent (match _ with _ => _ end) => case_match
  end.
Ltac silent_tac := repeat silent_step.

Section log_ops.
Context `{UUIDLib} {B : Type} `{!StorageBackend B} (tbl : Z → Z).
Abbreviation Store := (Store B).
Abbreviation M := (M (B:=B)).
Implicit Types (s : Store) (t : Task) (id : uuid).

Lemma silent_oversight_text id : silent (oversight_text_or_empty (B:=B) id).
Proof.
  assert (silent (LoadOversightText (B:=B) id)) as Hq by (unfold LoadOversightText; silent_tac).
  intros s Hh. specialize (Hq s Hh). unfold oversight_text_or_empty. by destruct (LoadOversightText id s) as [[?|?] ?].
Qed.

Lemma silent_summary t : silent (buildAndSaveSummary (B:=B) t).
Proof.
  assert (silent (GetOversight (B:=B) (ID t))) as Hq by (unfold GetOversight, get_oversight; silent_tac).
  intros s Hh. specialize (Hq s Hh). unfold buildAndSaveSummary. destruct (GetOversight (ID t) s) as [r s']. simpl in *.
  eapply silent_trans; [done|]. apply (silent_ignore (SaveSummary _ _)); [|by apply Hq].
  unfold SaveSummary. silent_tac.
Qed.

Lemma silent_set_status now1 now2 id t st : silent (set_status (B:=B) now1 now2 id t st).
Proof. unfold set_status. silent_tac; apply silent_summary. Qed.

Lemma silent_orphans order now id : silent (removeOrphanedDependents (B:=B) order now id).
Proof. unfold removeOrphanedDependents, TasksDependingOn. silent_tac. Qed.

Lemma silent_restore id : silent (RestoreTask (B:=B) tbl id).
Proof.
  intros s Hh. unfold RestoreTask. destruct (deleted s !! id) as [t|]; [|apply silent_refl].
  revert s Hh. match goal with |- ∀ s, _ → silent_to s (?m s).2 => change (silent m) end.
  silent_tac. apply silent_oversight_text.
Qed.

Lemma silent_rebuild order n : silent (RebuildSearchIndex (B:=B) tbl order n).
Proof.
  revert n. induction order as [|id order IH]; intros n; simpl; [apply silent_ret|].
  apply silent_bind; [apply silent_gets|]. intros [t|]; [|apply IH].
  apply silent_bind; [apply silent_oversight_text|]. intros raw. apply silent_bind; [|done].
  intros s _. unfold rebuild_write. case_decide; [apply silent_refl|]. by split.
Qed.

Lemma silent_archive order now s : healthy (backend s) → silent_to s (ArchiveAllDone order now s).2.
Proof.
  unfold ArchiveAllDone. generalize (@nil uuid). revert s.
  induction order as [|id order IH]; intros s acc Hh; cbn [archive_loop]; [apply silent_refl|].
  destruct (tasks s !! id) as [t|]; [|by apply IH]. case_match; [by apply IH|].
  set (t1 := stamp _). clearbody t1.
  assert (silent (put_mem (B:=B) id t1 ;; saveTask t1)) as Hq by silent_tac. specialize (Hq s Hh).
  destruct ((put_mem id t1 ;; saveTask t1) s) as [[[]|e] s1]; simpl in *; [|done].
  eapply silent_trans; [done|]. eapply silent_trans; [|apply IH; by apply Hq]. by split.
Qed.

(** The operations that touch the log. *)
Inductive log_op s : M unit → Prop :=
| lo_create order fresh now o :
    tasks s !! ID (build_task tbl order fresh now o) = None →
    deleted s !! ID (build_task tbl order fresh now o) = None →
    log_op s (ignore (CreateTaskWithOptions tbl order fresh now o))
| lo_purge id : log_op s (PurgeTask id)
| lo_purge_expired order th : log_op s (PurgeExpiredTombstones order th)
| lo_event now a b id ty d : log_op s (InsertEvent now a b id ty d)
| lo_events id : log_op s (ignore (GetEvents id))
| lo_events_page id a l ty : log_op s (ignore (GetEventsPage id a l ty))
| lo_compact id m : covered (backend s) id <= m → log_op s (compactTaskEvents id m).

Ltac head_of t := lazymatch t with ?f _ => head_of f | _ => t end.
Ltac unfold_op :=
  lazymatch goal with |- silent ?m => let h := head_of m in unfold h end.

Lemma silent_op s m : timely_op tbl s m → log_op s m ∨ (healthy (backend s) → silent_to s (m s).2).
Proof.
  intros Hop. destruct Hop; try (left; constructor; by intuition); right; intros Hh.
  all: try (lazymatch goal with |- silent_to ?s (?m ?s).2 => assert (silent m) as Hq; [|by apply Hq] end;
            unfold_op; silent_tac; fail).
  - apply (silent_bind (delete_locked now id reason)); [|intros; apply silent_orphans|done]. unfold delete_locked. silent_tac.
  - apply (silent_bind (ForceUpdateTaskStatus _ _ _ _)); [|intros; apply silent_orphans|done].
    unfold ForceUpdateTaskStatus. silent_tac. apply silent_set_status.
  - by apply silent_restore.
  - assert (silent (UpdateTaskStatus (B:=B) n1 n2 id st)) as Hq by (unfold UpdateTaskStatus; silent_tac; apply silent_set_status).
    by apply Hq.
  - assert (silent (ForceUpdateTaskStatus (B:=B) n1 n2 id st)) as Hq by (unfold ForceUpdateTaskStatus; silent_tac; apply silent_set_status).
    by apply Hq.
  - by apply silent_archive.
  - assert (silent (UpdateTaskPromptDirect (B:=B) tbl now id v)) as Hq by (unfold UpdateTaskPromptDirect; silent_tac).
    by apply Hq.
  - unfold ClearFetchFailure. case_match; [|apply silent_refl]. case_match; [apply silent_refl|].
    match goal with |- silent_to s (mutateTask now id ?fn s).2 =>
      assert (silent (mutateTask (B:=B) now id fn)) as Hq by silent_tac end.
    by apply Hq.
  - assert (silent (SaveTurnOutput (B:=B) now id n a b)) as Hq; [|by apply Hq].
    unfold SaveTurnOutput, MarkTurnTruncated. apply silent_bind; [apply silent_gets|]. intros x.
    destruct (truncateTurnData x a), (truncateTurnData x b). silent_tac.
  - by apply silent_rebuild.
Qed.

(** ** Loading *)

Lemma events_at_put_event id n e c id' :
  events_at (put_event id n e c) id' = if decide (id' = id) then <[n := e]> (events_at c id) else events_at c id'.
Proof.
  unfold events_at at 1. simpl. case_decide; subst; [by rewrite lookup_insert_eq|by rewrite lookup_insert_ne].
Qed.

(** The number that [loadEvents] computes for the next event. *)
Lemma next_number (m : gmap Z TaskEvent) : max_seq m < 2 ^ 63 - 1 →
  (if Z.eqb (max_seq m) 0 && bool_decide (sorted_events m = []) then 1 else wrap64 (max_seq m + 1)) = max_seq m + 1.
Proof.
  intros Hr. pose proof (max_seq_nonneg m).
  destruct (Z.eqb_spec (max_seq m) 0); simpl; [case_bool_decide; [lia|]|]; apply wrap64_id; lia.
Qed.

(** On a working backend a load puts the stored log in memory. *)
Lemma loadEvents_healthy id s : healthy (backend s) → max_seq (log s id) < 2 ^ 63 - 1 →
  ∃ b, healthy b ∧ view b = disk s ∧
    loadEvents id s = (Ok tt, s <| backend := b |> <| events := <[id := sorted_events (log s id)]> (events s) |>
                                <| nextSeq := <[id := max_seq (log s id) + 1]> (nextSeq s) |>).
Proof.
  intros Hh Hr. unfold loadEvents, mbind, M_bind, bind, call.
  destruct (be_LoadEvents id (backend s)) as [r b] eqn:E. apply load_events_law in E as [Hv Hok].
  destruct (Hok Hh) as [-> Hb].
  exists b. split; [done|]. split; [done|]. unfold log, disk in *. rewrite next_number by done. done.
Qed.

Lemma ensure_log id s : log_wf s → room s →
  ∃ s', ensureEventsLoadedLocked id s = (Ok tt, s') ∧ log_wf s' ∧ disk s' = disk s ∧ core s' = core s ∧
    eventsLoaded s' !! id = Some true.
Proof.
  intros Hl Hr. unfold ensureEventsLoadedLocked. destruct (decide (eventsLoaded s !! id = Some true)) as [E|E].
  { rewrite E. simpl. eauto 6. }
  assert (default false (eventsLoaded s !! id) = false) as -> by (by destruct (eventsLoaded s !! id) as [[]|]).
  destruct (loadEvents_healthy id s (lg_healthy _ Hl)) as (b & Hb & Hv & ->); [specialize (Hr id); lia|].
  eexists. split; [done|]. match goal with |- log_wf ?x ∧ _ => set (s2 := x) end.
  assert (∀ x, log s2 x = log s x) as El by (intros x; unfold log at 1, disk; simpl; by rewrite Hv).
  split; [|split; [exact Hv|split; [done|simpl; by rewrite lookup_insert_eq]]].
  destruct Hl as [L1 L2 L3 L4 L5]. split; [exact Hb|intros x; rewrite ?El..].
  - simpl. destruct (decide (x = id)) as [->|Hne]; [by rewrite !lookup_insert_eq|rewrite !lookup_insert_ne by done; auto].
  - simpl. destruct (decide (x = id)) as [->|Hne]; [by rewrite !lookup_insert_eq|rewrite !lookup_insert_ne by done; auto].
  - apply L4.
  - unfold disk. simpl. rewrite Hv. apply L5.
Qed.

Lemma InsertEvent_live now a1 a2 id ty json s t :
  log_wf s → room s → tasks s !! id = Some t → is_Some (c_tasks (disk s) !! id) →
  let n := max_seq (log s id) + 1 in let e := MkEvent n id ty json now a1 a2 in
  ∃ s', InsertEvent now a1 a2 id ty (Some json) s = (Ok tt, s') ∧ log_wf s' ∧
    eventsLoaded s' !! id = Some true ∧ disk s' = put_event id n e (disk s).
Proof.
  intros Hl Hr Ht Hc n e. unfold InsertEvent, mbind at 1, M_bind at 1, bind at 1, find_task. rewrite Ht.
  unfold mbind, M_bind, bind. destruct (ensure_log id s Hl Hr) as (s1 & -> & E2 & E3 & E4 & E5).
  destruct E2 as [L1 L2 L3 L4 L5]. unfold gets. destruct (L2 id E5) as [Hev Hnx]. rewrite Hnx.
  assert (∀ x, log s1 x = log s x) as El by (intros x; unfold log; by rewrite E3). rewrite El. fold n. fold e.
  unfold call. destruct (be_SaveEvent id n e (backend s1)) as [r b] eqn:Eb. apply save_event_law in Eb as (_ & _ & Hv & Hok).
  assert (max_seq (log s1 id) < n) as Hseq by (rewrite El; unfold n; lia). specialize (Hv Hseq).
  destruct (Hok L1) as [Hr' Hb]. destruct r as [[]|]; [|done]. eexists. split; [done|].
  match goal with |- log_wf ?x ∧ _ => set (s2 := x) end.
  assert (view b = put_event id n e (disk s)) as Hv' by (by simpl in Hv; rewrite Hv, <- E3).
  assert (max_seq (log s id) < n) as Hn by (unfold n; lia).
  pose proof (max_seq_nonneg (log s id)). specialize (Hr id).
  assert (∀ x, log s2 x = if decide (x = id) then <[n := e]> (log s id) else log s1 x) as E2.
  { intros x. unfold log at 1, disk. change (view (backend s2)) with (view b). rewrite Hv', events_at_put_event.
    rewrite El. done. }
  split; [|split; [exact E5|exact Hv']].
  split; [exact Hb|intros x; rewrite ?E2..].
  - simpl. destruct (decide (x = id)) as [->|Hne]; [|rewrite !lookup_insert_ne by done; auto].
    rewrite !lookup_insert_eq, sorted_events_insert, max_seq_insert by done. simpl.
    intros _. split; [by rewrite Hev, El|]. apply wrap64_id. unfold n. lia.
  - simpl. destruct (decide (x = id)) as [->|Hne]; [by intros []|]. rewrite lookup_insert_ne by done. auto.
  - case_decide; [|apply L4]. apply map_Forall_insert_2; [unfold e, n; simpl; lia|]. rewrite <- El. apply L4.
  - unfold disk. change (view (backend s2)) with (view b). rewrite Hv'. simpl. intros Hg.
    rewrite decide_False by (intros ->; rewrite Hg in Hc; by destruct Hc). apply L5. by rewrite E3.
Qed.

(** ** Every operation keeps the log *)

Lemma compact_log id m s : covered (backend s) id <= m → log_wf s → log_wf (compactTaskEvents id m s).2 ∧ disk (compactTaskEvents id m s).2 = disk s.
Proof.
  intros Hcov Hl. unfold compactTaskEvents, mbind, M_bind, bind, gets.
  destruct (filter (λ ev, ev_ID ev <= m) (default [] (events s !! id))) as [|ev evs] eqn:E; [done|].
  assert (eventsLoaded s !! id = Some true) as Hld.
  { destruct (decide (eventsLoaded s !! id = Some true)) as [?|Hn]; [done|].
    apply (lg_unloaded _ Hl) in Hn. by rewrite Hn in E. }
  destruct (lg_mem _ Hl _ Hld) as [Hev _]. rewrite Hev, (sorted_events_filter _ _ (lg_keyed _ Hl id)) in E.
  unfold call. destruct (be_CompactEvents id (ev :: evs) (backend s)) as [r b] eqn:Eb.
  apply compact_law in Eb as (_ & _ & _ & Hv & Hh). specialize (Hv m Hcov (eq_sym E)). specialize (Hh (lg_healthy _ Hl)).
  assert (silent_to s (s <| backend := b |>)) as Hs by (split; [done|done|unfold disk; simpl; by rewrite Hv..]).
  destruct r; (split; [exact (log_wf_silent _ _ Hs Hl)|exact Hv]).
Qed.

Lemma log_del_task id c id' : events_at (del_task id c) id' = if decide (id' = id) then ∅ else events_at c id'.
Proof.
  unfold events_at. simpl. case_decide; subst; [by rewrite lookup_delete_eq|by rewrite lookup_delete_ne].
Qed.

Lemma purge_log id s : log_wf s → log_wf (purgeTaskLocked id s).2.
Proof.
  intros Hl. unfold purgeTaskLocked. destruct (deleted s !! id) as [t|]; [|done].
  unfold mbind, M_bind, bind, call. destruct (be_RemoveTask id (backend s)) as [r b] eqn:E.
  apply remove_task_law in E as [Hv Hok]. destruct (Hok (lg_healthy _ Hl)) as [Hr Hb]. destruct r as [[]|]; [|done].
  simpl in Hv. destruct Hl as [L1 L2 L3 L4 L5]. simpl. match goal with |- log_wf ?x => set (s2 := x) end.
  assert (∀ x, log s2 x = if decide (x = id) then ∅ else log s x) as El.
  { intros x. unfold log at 1, disk. simpl. by rewrite Hv, log_del_task. }
  split; [exact Hb|intros x; rewrite ?El..].
  - simpl. destruct (decide (x = id)) as [->|Hne]; [by rewrite !lookup_delete_eq|rewrite !lookup_delete_ne by done; auto].
  - simpl. destruct (decide (x = id)) as [->|Hne]; [by rewrite !lookup_delete_eq|rewrite !lookup_delete_ne by done; auto].
  - case_decide; [apply map_Forall_empty|apply L4].
  - case_decide; [done|]. unfold disk. simpl. rewrite Hv. simpl. rewrite lookup_delete_ne by done. apply L5.
Qed.

Lemma purge_expired_log order th s : log_wf s → log_wf (PurgeExpiredTombstones order th s).2.
Proof.
  unfold PurgeExpiredTombstones. revert s. induction order as [|id order IH]; intros s Hl; [done|].
  cbn [iterM]. unfold mbind at 1, M_bind at 1, bind at 1.
  set (body := d ← read_doc id tombstone_key parse_tombstone; _).
  assert (log_wf (body s).2) as Hb.
  { unfold body, mbind, M_bind, bind. pose proof (silent_read_doc id tombstone_key parse_tombstone s (lg_healthy _ Hl)) as Hq.
    destruct (read_doc id tombstone_key parse_tombstone s) as [[d|e] s1]; simpl in Hq.
    - apply (log_wf_silent _ _ Hq) in Hl. destruct d; try done. case_match; [|done]. unfold ignore. by apply purge_log.
    - by apply (log_wf_silent s). }
  destruct (body s) as [[[]|e] s1]; [by apply IH|done].
Qed.

Lemma create_log order fresh now o s :
  let id := ID (build_task tbl order fresh now o) in
  tasks s !! id = None → deleted s !! id = None → synced s → log_wf s →
  log_wf (CreateTaskWithOptions tbl order fresh now o s).2.
Proof.
  intros id Hfr Hdel Hs Hl. unfold CreateTaskWithOptions. set (t0 := build_task tbl order fresh now o) in *.
  assert (log s id = ∅) as Hnone.
  { apply (lg_gone _ Hl). destruct (c_tasks (disk s) !! id) as [d|] eqn:E; [|done].
    apply (sy_only _ Hs) in E. rewrite Hfr, Hdel in E. by destruct E as [[]|[]]. }
  clearbody t0. unfold mbind at 1, M_bind at 1, bind at 1.
  pose proof (silent_call _ (no_events_Init (ID t0)) s (lg_healthy _ Hl)) as Hq.
  destruct (call (be_Init (ID t0)) s) as [[[]|e] s1]; simpl in Hq; [|by apply (log_wf_silent s)].
  unfold mbind at 1, M_bind at 1, bind at 1, gets at 1. simpl.
  destruct (min_backlog_pos (map_to_list (tasks s1)).*2) as [minPos has].
  set (t1 := if has then t0 <| Position := wrap64 (minPos - 1) |> else t0).
  assert (ID t1 = id) as Ei by (unfold t1; by destruct has). clearbody t1.
  unfold mbind at 1, M_bind at 1, bind at 1. pose proof (silent_save t1 s1) as Hq2.
  destruct (saveTask t1 s1) as [[[]|e] s2]; simpl in Hq2; (assert (silent_to s s2) as Hq3
    by (eapply silent_trans; [done|]; apply Hq2, Hq, Hl)); [|by apply (log_wf_silent s)].
  assert (log s2 id = ∅) as Hn2 by (unfold log, events_at in *; by rewrite (st_disk _ _ Hq3)).
  apply (log_wf_silent _ _ Hq3) in Hl as [L1 L2 L3 L4 L5]. simpl. rewrite Ei.
  match goal with |- log_wf ?x => set (s3 := x) end.
  assert (∀ x, log s3 x = log s2 x) as El by done.
  split; [exact L1|intros x; rewrite ?El..]; [..|apply L4|apply L5].
  - simpl. destruct (decide (x = id)) as [->|Hne]; [|by rewrite !lookup_insert_ne by done; auto].
    by rewrite !lookup_insert_eq, Hn2, sorted_events_empty.
  - simpl. destruct (decide (x = id)) as [->|Hne]; [by rewrite lookup_insert_eq|].
    rewrite !lookup_insert_ne by done. auto.
Qed.

Lemma log_step s m : timely_op tbl s m → durable tbl s → room s → log_wf s → log_wf (m s).2.
Proof.
  intros Hop [Hwf Hs] Hr Hl. destruct (silent_op s m Hop) as [Hlog|Hq].
  2: { eapply log_wf_silent; [apply Hq, Hl|done]. }
  destruct Hlog.
  - by apply create_log.
  - by apply purge_log.
  - by apply purge_expired_log.
  - destruct d as [json|]; [|done]. destruct (tasks s !! id) as [t|] eqn:Ht.
    + destruct (InsertEvent_live now a b id ty json s t Hl Hr Ht) as (s' & -> & ? & _); [|done].
      destruct (sy_live _ Hs _ _ Ht) as [(d & Hd & _) _]. eauto.
    + unfold InsertEvent, mbind, M_bind, bind, find_task. by rewrite Ht.
  - unfold ignore, GetEvents, mbind, M_bind, bind. by destruct (ensure_log id s Hl Hr) as (s' & -> & ? & _).
  - unfold ignore, GetEventsPage, mbind, M_bind, bind. by destruct (ensure_log id s Hl Hr) as (s' & -> & ? & _).
  - by apply compact_log.
Qed.

(** ** Opening a store *)

Definition logged (b : B) : Prop :=
  ∀ id, keyed (events_at (view b) id) ∧ max_seq (events_at (view b) id) < 2 ^ 63 - 2 ∧
        (c_tasks (view b) !! id = None → events_at (view b) id = ∅).

Lemma room_disk s s' : disk s' = disk s → room s → room s'.
Proof. unfold room, log. by intros ->. Qed.

Lemma log_wf_flag id s : log_wf s → eventsLoaded s !! id ≠ Some true →
  log_wf (s <| eventsLoaded := <[id := false]> (eventsLoaded s) |>).
Proof.
  intros [L1 L2 L3 L4 L5] Hn. split; try done; intros x; simpl.
  - intros [[_ ?]|[? ?]]%lookup_insert_Some; [done|]. by apply L2.
  - intros Hx. apply L3. intros Hy. apply Hx. rewrite lookup_insert_ne by congruence. done.
Qed.

Lemma load_task_log t s :
  log_wf s → room s → eventsLoaded s !! ID t = None →
  ∃ s', load_task tbl t s = (Ok tt, s') ∧ log_wf s' ∧ disk s' = disk s ∧
    ∀ x, x ≠ ID t → eventsLoaded s' !! x = eventsLoaded s !! x.
Proof.
  intros Hl Hr He. destruct (load_task tbl t s) as [r s'] eqn:E0. pose proof E0 as E1.
  apply load_task_spec in E1 as (_ & _ & D & Hok & _). destruct (Hok (lg_healthy _ Hl)) as [Hr' _].
  destruct r as [[]|]; [|done]. exists s'. split; [done|]. clear Hok Hr'.
  revert E0. unfold load_task, mbind at 1, M_bind at 1, bind at 1.
  pose proof (silent_attempt _ (no_events_ReadBlob (ID t) tombstone_key) s (lg_healthy _ Hl)) as Hq.
  destruct (attempt (be_ReadBlob (ID t) tombstone_key) s) as [[x|e] s1]; simpl in Hq; [|done].
  pose proof (log_wf_silent _ _ Hq Hl) as Hl1. destruct Hq as [_ (_ & _ & Q) Q1 _]. rewrite <- Q in He.
  assert (∀ y, log s1 y = log s y) as El by (intros y; unfold log, events_at; by rewrite Q1).
  destruct x as [d|e].
  { intros [= <-]. split; [|split; [done|intros x Hx; simpl; by rewrite lookup_insert_ne, Q by done]].
    eapply log_wf_silent; [|apply (log_wf_flag (ID t) s1 Hl1); by rewrite He]. by split. }
  unfold mbind at 1, M_bind at 1, bind at 1, gets at 1. cbv beta iota. simpl Datatypes.id.
  unfold mbind at 1, M_bind at 1, bind at 1.
  pose proof (silent_oversight_text (ID t) s1 (lg_healthy _ Hl1)) as Hq2.
  destruct (oversight_text_or_empty (ID t) s1) as [[raw|?] s2]; simpl in Hq2; [|done].
  pose proof (log_wf_silent _ _ Hq2 Hl1) as Hl2. destruct Hq2 as [_ (_ & _ & Q2) Q3 _].
  unfold mbind at 1, M_bind at 1, bind at 1, modify at 1. cbv beta iota. set (s3 := s2 <| tasks := _ |> <| searchIndex := _ |>).
  assert (log_wf s3) as Hl3 by (eapply log_wf_silent; [|exact Hl2]; by split).
  assert (∀ y, log s3 y = log s1 y) as El3 by (intros y; unfold log at 1, events_at; simpl; unfold log, events_at; by rewrite <- Q3).
  assert (eventsLoaded s3 = eventsLoaded s1) as Q4 by exact Q2.
  destruct (isTerminalStatus _ || _).
  { intros [= <-]. split; [|split; [done|intros x Hx; simpl; by rewrite lookup_insert_ne, Q2, Q by done]].
    apply (log_wf_flag (ID t) s3); [done|]. by rewrite Q4, He. }
  unfold mbind, M_bind, bind, modify.
  destruct (loadEvents_healthy (ID t) s3 (lg_healthy _ Hl3)) as (b & Hb & Hv & ->).
  { rewrite El3, El. specialize (Hr (ID t)). lia. }
  intros [= <-]. split; [|split; [done|intros x Hx; simpl; by rewrite lookup_insert_ne, Q2, Q by done]].
  destruct Hl3 as [L1 L2 L3 L4 L5]. match goal with |- log_wf ?x => set (s4 := x) end.
  assert (∀ x, log s4 x = log s3 x) as El4 by (intros x; unfold log at 1, disk; simpl; by rewrite Hv).
  split; [exact Hb|intros x; rewrite ?El4..]; [..|apply L4|unfold disk; simpl; rewrite Hv; apply L5].
  - simpl. destruct (decide (x = ID t)) as [->|Hne]; [by rewrite !lookup_insert_eq|rewrite !lookup_insert_ne by done; apply L2].
  - simpl. destruct (decide (x = ID t)) as [->|Hne]; [by rewrite !lookup_insert_eq|rewrite !lookup_insert_ne by done; apply L3].
Qed.

Lemma load_loop_log ts s :
  NoDup (ID <$> ts) → log_wf s → room s → (∀ t, t ∈ ts → eventsLoaded s !! ID t = None) →
  ∃ s', iterM (load_task tbl) ts s = (Ok tt, s') ∧ log_wf s' ∧ disk s' = disk s.
Proof.
  revert s. induction ts as [|t ts IH]; intros s Hnd Hl Hr He; simpl; [eauto|].
  apply NoDup_cons in Hnd as [Hnin Hnd]. unfold mbind, M_bind, bind.
  destruct (load_task_log t s Hl Hr) as (s1 & -> & Hl1 & D1 & E1); [apply He; left|].
  destruct (IH s1 Hnd Hl1) as (s2 & -> & Hl2 & D2); [by apply (room_disk s)| |].
  - intros x Hx. rewrite E1; [apply He; by right|]. intros E. apply Hnin. rewrite <- E. by apply list_elem_of_fmap_2.
  - exists s2. split; [done|]. split; [done|congruence].
Qed.

Lemma NewStore_log b r1 r2 r3 n s :
  healthy b → filed b → logged b → NewStore tbl b r1 r2 r3 n = Ok s →
  log_wf s ∧ ∀ id, log s id = events_at (view b) id.
Proof.
  intros Hh Hf Hg. unfold NewStore. fold (fresh_store b r1 r2 r3 n). unfold loadAll, mbind, M_bind, bind, call. simpl.
  destruct (load_all_law b Hh Hf) as (ts & b' & E & Hh' & P1 & P2 & P3). rewrite E.
  pose proof (load_all_NoDup _ _ _ Hf E) as Hnd. pose proof (load_all_view _ _ _ E) as Hv.
  assert (∀ id, events_at (view b') id = events_at (view b) id) as Hev.
  { intros id. unfold events_at. by rewrite (proj1 (Hv id)). }
  change (fresh_store b r1 r2 r3 n <| backend := b' |>) with (fresh_store b' r1 r2 r3 n).
  set (s0 := fresh_store b' r1 r2 r3 n).
  assert (log_wf s0) as Hl0.
  { split; try done; intros id; change (log s0 id) with (events_at (view b') id); rewrite ?Hev; [apply Hg|].
    intros Hn. apply Hg. destruct (c_tasks (view b) !! id) as [d|] eqn:Ed; [|done].
    destruct (P2 _ _ Ed) as (t' & _ & _ & _ & Hd). change (disk s0) with (view b') in Hn. congruence. }
  destruct (load_loop_log ts s0 Hnd Hl0) as (s1 & E1 & Hl1 & D1); [|done|].
  { intros id. change (log s0 id) with (events_at (view b') id). rewrite Hev. apply Hg. }
  rewrite E1. intros [= <-]. fold (index_all (map_to_list (tasks s1)) s1).
  assert (∀ l x, silent_to x (index_all l x)) as Hsil.
  { induction l as [|[id t] l IH]; intros x; [apply silent_refl|]. simpl.
    apply (silent_trans _ (addToStatusIndex (Status t) id x)); [by split|apply IH]. }
  specialize (Hsil (map_to_list (tasks s1)) s1). split; [by eapply log_wf_silent|].
  intros id. rewrite <- Hev. unfold log, events_at. rewrite (st_disk _ _ Hsil), D1. done.
Qed.

(** ** The log as its clients see it *)

Lemma GetEvents_log id s : log_wf s → room s →
  ∃ s', GetEvents id s = (Ok (sorted_events (log s id)), s') ∧ disk s' = disk s.
Proof.
  intros Hl Hr. unfold GetEvents, mbind, M_bind, bind. destruct (ensure_log id s Hl Hr) as (s' & -> & Hl' & D & _ & E).
  exists s'. unfold gets. destruct (lg_mem _ Hl' id E) as [-> _]. unfold log. by rewrite D.
Qed.

Lemma sorted_events_increasing (m : gmap Z TaskEvent) : keyed m → StronglySorted Z.lt (ev_ID <$> sorted_events m).
Proof.
  intros Hk. unfold sorted_events.
  assert (∀ kv, kv ∈ merge_sort seq_le (map_to_list m) → ev_ID kv.2 = kv.1) as Hid.
  { intros [k e] Hin. rewrite merge_sort_Permutation in Hin. apply elem_of_map_to_list in Hin. by apply (Hk _ _ Hin). }
  assert (NoDup (merge_sort seq_le (map_to_list m)).*1) as Hnd.
  { rewrite merge_sort_Permutation. apply NoDup_fst_map_to_list. }
  pose proof (sorted_events_sorted m) as Hs. revert Hid Hnd.
  induction Hs as [|[k e] l Hs IH Hx]; intros Hid Hnd; [constructor|].
  rewrite !fmap_cons. apply NoDup_cons in Hnd as [Hn Hnd].
  constructor; [apply IH; [intros; apply Hid; by right|done]|].
  rewrite Forall_forall in Hx. apply Forall_forall. intros y (z & -> & ([k' e'] & -> & Hin)%list_elem_of_fmap)%list_elem_of_fmap.
  pose proof (Hid (k', e')) as H1. pose proof (Hid (k, e)) as H2. simpl in *. rewrite H1, H2 by set_solver.
  specialize (Hx _ Hin). unfold seq_le in Hx. simpl in Hx.
  assert (k ≠ k'); [|lia]. intros ->. apply Hn. by apply (list_elem_of_fmap_2 fst _ (k', e')).
Qed.

(** Steps of the store while sequence numbers last and no compaction comes after one
    that was started later. *)
Definition log_steps : Store → Store → Prop := rtc (λ s s', room s ∧ ∃ m, timely_op tbl s m ∧ s' = (m s).2).

Lemma log_steps_inv s s' : durable tbl s → log_wf s → log_steps s s' → durable tbl s' ∧ log_wf s'.
Proof.
  intros Hd Hl Hst. induction Hst as [|s1 s2 s3 [Hr (m & Hop & ->)] _ IH]; [done|].
  apply IH; [apply durable_step; [by eapply operation_any|done]|by apply log_step].
Qed.

(** C17: The event log of a task is complete and ordered.  After any operations
    on a store opened over a working backend, as long as compactions end in the
    order in which they were started and the numbers fit in 63 bits, [GetEvents]
    returns the stored events in strictly increasing order of their numbers; recording an event for
    a live task succeeds and appends exactly that event, under the next number;
    and a store opened on the same backend returns the same log. *)
Theorem event_log_complete b r1 r2 r3 n s0 s id :
  healthy b → consistent b → logged b → NewStore tbl b r1 r2 r3 n = Ok s0 → log_steps s0 s → room s →
  ∃ evs s1, GetEvents id s = (Ok evs, s1) ∧ StronglySorted Z.lt (ev_ID <$> evs) ∧
    (∀ now a1 a2 ty json, is_Some (tasks s !! id) →
       ∃ e s2 s3, InsertEvent now a1 a2 id ty (Some json) s = (Ok tt, s2) ∧ GetEvents id s2 = (Ok (evs ++ [e]), s3) ∧
         ev_Data e = json ∧ ev_EventType e = ty ∧ ev_CreatedAt e = now ∧ ev_TaskID e = id) ∧
    (∀ r1' r2' r3' n', ∃ s2 s3, NewStore tbl (backend s) r1' r2' r3' n' = Ok s2 ∧ GetEvents id s2 = (Ok evs, s3)).
Proof.
  intros Hh Hc Hg H0 Hst Hr. destruct (NewStore_healthy tbl b r1 r2 r3 n Hh Hc) as (s0' & H0' & Hd0 & _).
  assert (s0' = s0) as -> by congruence. destruct (NewStore_log b r1 r2 r3 n s0 Hh (proj1 Hc) Hg H0) as [Hl0 _].
  destruct (log_steps_inv s0 s Hd0 Hl0 Hst) as [Hd Hl]. destruct (GetEvents_log id s Hl Hr) as (s1 & E1 & _).
  exists (sorted_events (log s id)), s1. split; [done|]. split; [apply sorted_events_increasing, Hl|]. split.
  - intros now a1 a2 ty json [t Ht]. destruct (sy_live _ (proj2 Hd) _ _ Ht) as [(d & Hdk & _) _].
    destruct (InsertEvent_live now a1 a2 id ty json s t Hl Hr Ht) as (s2 & E2 & Hl2 & El2 & D2); [eauto|].
    eexists _, s2, s2. split; [done|]. split.
    + unfold GetEvents, mbind, M_bind, bind, ensureEventsLoadedLocked. rewrite El2. simpl. unfold gets.
      rewrite (proj1 (lg_mem _ Hl2 id El2)). unfold log at 1. rewrite D2, events_at_put_event, decide_True by done.
      change (events_at (disk s) id) with (log s id). by rewrite sorted_events_insert by lia.
    + done.
  - intros r1' r2' r3' n'. pose proof (durable_consistent tbl s Hd) as Hc'.
    destruct (NewStore_healthy tbl (backend s) r1' r2' r3' n' (lg_healthy _ Hl) Hc') as (s2 & E2 & _).
    assert (logged (backend s)) as Hg'.
    { intros x. split; [apply (lg_keyed _ Hl)|]. split; [apply Hr|apply (lg_gone _ Hl)]. }
    destruct (NewStore_log _ _ _ _ _ _ (lg_healthy _ Hl) (proj1 Hc') Hg' E2) as [Hl2 Elog].
    destruct (GetEvents_log id s2 Hl2) as (s3 & E3 & _); [intros x; rewrite Elog; apply Hr|].
    exists s2, s3. split; [done|]. rewrite E3, Elog. done.
Qed.
End log_ops.

(** ** Concrete runs *)

Module EventRun.
#[local] Existing Instance text_uuid.
Import StoreRestart.Run.
Definition idA : @uuid text_uuid := "A"%string.

Lemma event_log_complete_witness :
  ∃ evs s1, GetEvents idA (m1 (opened [])).2 = (Ok evs, s1) ∧ StronglySorted Z.lt (ev_ID <$> evs).
Proof.
  destruct (event_log_complete lower_ascii (empty_backend []) 10 10 10 100 (opened []) (m1 (opened [])).2 idA)
    as (evs & s1 & H1 & H2 & _).
  - by constructor.
  - split; [intros id t Ht; discriminate Ht|]. intros id [d Hd]. discriminate Hd.
  - intros id. split; [apply map_Forall_empty|]. split; [reflexivity|done].
  - reflexivity.
  - apply rtc_once. split; [intros id; reflexivity|]. exists m1. split; [|reflexivity].
    apply op_create; reflexivity.
  - intros id. reflexivity.
  - exists evs, s1. split; [exact H1|exact H2].
Defined.

(** A done task with two recorded events, as a backend would hold it. *)
Definition done_task : Task := zero_Task <| ID := idA |> <| Status := TaskStatusDone |>.
Definition old_event (n : Z) : TaskEvent := MkEvent n idA "system"%string "old"%string 0 EmptyString EmptyString.
Definition old_log : gmap Z TaskEvent := list_to_map [(1, old_event 1); (2, old_event 2)].

(** The read of the log fails once, at the first access. *)
Definition flaky : MemBackend :=
  Mem (Contents {[idA := done_task]} {[idA := old_log]} ∅) [false; false; false; true].

Definition reopened : Store MemBackend :=
  match NewStore lower_ascii flaky 10 10 10 100 with Ok s => s | Err _ => fresh_store flaky 0 0 0 0 end.

Definition ins (n : Z) : M (B:=MemBackend) unit :=
  InsertEvent n EmptyString EmptyString idA "system"%string (Some "new"%string).

(** When the lazy load of a finished task's events fails once, the failure is
    only logged and the events count as loaded: the next events are numbered
    from 0, both recordings are acknowledged, and the second one overwrites the
    stored event 1. *)
Theorem lazy_load_overwrites :
  let s1 := (ins 7 reopened).2 in let s2 := (ins 8 s1).2 in
  (ins 7 reopened).1 = Ok tt ∧ (ins 8 s1).1 = Ok tt ∧
  (ev_Data <$> log reopened idA !! 1) = Some "old"%string ∧ (ev_Data <$> log s2 idA !! 1) = Some "new"%string.
Proof. split_and!; vm_compute; reflexivity. Qed.
End EventRun.
