(* ===== verification/StoreQuery.v ===== *)
(** * internal/store: queries

    tasks_list.go, principal.go, dep_graph.go, the search of tasks_worktree.go,
    [AreDependenciesSatisfied], [ListDeletedTasks] and [ComputeSpans].

    A query reads the state under the read lock and returns copies.  Code that
    ranges over a map takes the iteration order as an argument.  [SortFunc] is
    [slices.SortFunc] as a merge sort: the library's sort is not stable, but
    the order of equal elements is already arbitrary with the iteration order,
    so the same results are possible.  An index or slice expression out of range
    panics: [None]. *)

From S2P Require Import Prelude Dag StateMachine GoStrings PkgUtil TaskModel Backend Store StoreUpdate StoreWf StoreDurable StoreRestart StoreSpec.
From Stdlib Require Import String.
From stdpp Require Import list gmap sorting.
Local Open Scope Z_scope.

Section query.
Context `{UUIDLib} {B : Type} `{!StorageBackend B} (tbl : Z → Z).
Abbreviation Store := (Store B).
Abbreviation M := (M (B:=B)).
Implicit Types (s : Store) (t : Task) (id : uuid).

(** ** Lists *)

(** [cmpTaskPositionCreatedAt a b <= 0]. *)
Definition cmpTaskPositionCreatedAt (a b : Task) : Prop :=
  Position a < Position b ∨ (Position a = Position b ∧ CreatedAt a <= CreatedAt b).

#[export] Instance cmpTask_dec : RelDecision cmpTaskPositionCreatedAt.
Proof. intros a b. unfold cmpTaskPositionCreatedAt. apply _. Defined.

Definition SortFunc (le : Task → Task → Prop) `{!RelDecision le} (l : list Task) : list Task := merge_sort le l.

(** The values of [s.tasks] in iteration order. *)
Definition range_tasks s (order : list uuid) : list Task := omap (λ i, tasks s !! i) order.

(** The identifiers of one status, in the order in which [range] visits them. *)
Definition range_status s (status : TaskStatus) (order : list uuid) : list uuid :=
  filter (λ i, i ∈ ids_with s status) order.

Definition ListTasksByStatus (order : list uuid) (status : TaskStatus) s : list Task :=
  SortFunc cmpTaskPositionCreatedAt (range_tasks s (range_status s status order)).

Definition CountByStatus (status : TaskStatus) s : Z := Z.of_nat (size (ids_with s status)).

Definition CountRegularInProgress (order : list uuid) s : Z :=
  foldl (λ count i, match tasks s !! i with
                    | Some t => if IsTestRun t then count else count + 1
                    | None => count
                    end) 0 (range_status s TaskStatusInProgress order).

Definition visible (includeArchived : bool) t : Prop := includeArchived = true ∨ Archived t = false.

#[export] Instance visible_dec b t : Decision (visible b t).
Proof. unfold visible. apply _. Defined.

Definition ListTasks (order : list uuid) (includeArchived : bool) s : list Task :=
  SortFunc cmpTaskPositionCreatedAt (filter (visible includeArchived) (range_tasks s order)).

(** The hub's sequence number is the number of messages published. *)
Definition ListTasksAndSeq (order : list uuid) (includeArchived : bool) s : list Task * Z :=
  (ListTasks order includeArchived s, Z.of_nat (length (deltas s))).

Definition review_candidate t : Prop :=
  (∃ x, SessionID t = Some x ∧ x ≠ EmptyString) ∧ ReviewUnresolved t = None.

#[export] Instance review_candidate_dec t : Decision (review_candidate t).
Proof.
  unfold review_candidate. apply and_dec; [|apply _]. destruct (SessionID t) as [x|].
  - destruct (decide (x = EmptyString)) as [E|E]; [right|left; eauto]. intros (y & [= <-] & ?). done.
  - right. by intros (? & ? & _).
Defined.

Definition ListWaitingTasksWithSession (order : list uuid) s : list Task :=
  SortFunc cmpTaskPositionCreatedAt (filter review_candidate (range_tasks s (range_status s TaskStatusWaiting order))).

Definition GetTask (id : uuid) s : result store_error Task :=
  match tasks s !! id with Some t => Ok t | None => Err (ErrTaskNotFound id) end.

Definition newer (a b : Task) : Prop := UpdatedAt b <= UpdatedAt a.

#[export] Instance newer_dec : RelDecision newer.
Proof. intros a b. unfold newer. apply _. Defined.

Definition ListDeletedTasks (order : list uuid) s : list Task :=
  SortFunc newer (omap (λ i, deleted s !! i) order).

(** Summaries that cannot be read are skipped. *)
Fixpoint summaries_loop (owners : list uuid) (acc : list TaskSummary) : M (list TaskSummary) := λ s,
  match owners with
  | [] => (Ok acc, s)
  | id :: rest =>
    match LoadSummary id s with
    | (Ok (Some x), s') => summaries_loop rest (acc ++ [x]) s'
    | (_, s') => summaries_loop rest acc s'
    end
  end.

Definition ListSummaries : M (list TaskSummary) :=
  owners ← call (be_ListBlobOwners "summary.json"%string);
  summaries_loop owners [].

(** ** Pages of archived tasks *)

(** Newest first; equal times by identifier text, descending. *)
Definition archived_before (a b : Task) : Prop :=
  UpdatedAt b < UpdatedAt a ∨
  (UpdatedAt a = UpdatedAt b ∧ string_leb (uuid_String (ID b)) (uuid_String (ID a)) = true).

#[export] Instance archived_before_dec : RelDecision archived_before.
Proof. intros a b. unfold archived_before. apply _. Defined.

(** [slices.IndexFunc] on the identifier. *)
Fixpoint index_id (l : list Task) (id : uuid) : option nat :=
  match l with
  | [] => None
  | t :: rest => if decide (ID t = id) then Some O else S <$> index_id rest id
  end.

Record ArchivedPage := MkArchivedPage {
  ap_tasks : list Task;
  ap_total : Z;
  hasMoreBefore : bool;
  hasMoreAfter : bool
}.

Inductive page_error := ErrBothCursors | ErrBeforeNotFound | ErrAfterNotFound.

Definition archived_list (order : list uuid) s : list Task :=
  SortFunc archived_before (filter (λ t, Archived t = true) (range_tasks s order)).

Definition cut (archived : list Task) (start end_ : Z) : ArchivedPage :=
  let total := Z.of_nat (length archived) in
  MkArchivedPage
    (if Z.ltb start end_ then take (Z.to_nat (end_ - start)) (drop (Z.to_nat start) archived) else [])
    total (Z.ltb end_ total) (Z.ltb 0 start).

Definition ListArchivedTasksPage (order : list uuid) (pageSize : Z) (beforeID afterID : option uuid) s
  : result page_error ArchivedPage :=
  let pageSize := if Z.ltb pageSize 1 then 1 else pageSize in
  match beforeID, afterID with
  | Some _, Some _ => Err ErrBothCursors
  | _, _ =>
    let archived := archived_list order s in
    let total := Z.of_nat (length archived) in
    if Z.eqb total 0 then Ok (MkArchivedPage [] 0 false false)
    else
      match beforeID, afterID with
      | Some id, _ =>
        match index_id archived id with
        | None => Err ErrBeforeNotFound
        | Some idx => let start := Z.min (Z.of_nat idx + 1) total in
                      Ok (cut archived start (Z.min (wrap64 (start + pageSize)) total))
        end
      | None, Some id =>
        match index_id archived id with
        | None => Err ErrAfterNotFound
        | Some idx => let end_ := Z.of_nat idx in Ok (cut archived (Z.max 0 (end_ - pageSize)) end_)
        end
      | None, None => Ok (cut archived 0 (Z.min pageSize total))
      end
  end.

(** ** Principals *)

Record Principal := MkPrincipal { Sub : string; p_OrgID : string }.

Definition principalSeesTask (p : option Principal) (t : Task) : bool :=
  match p with
  | None => true
  | Some p =>
    if negb (bool_decide (p_OrgID p = EmptyString)) then bool_decide (OrgID t = p_OrgID p)
    else if negb (bool_decide (OrgID t = EmptyString)) then false
    else bool_decide (CreatedBy t = EmptyString) || bool_decide (CreatedBy t = Sub p)
  end.

Definition TasksForPrincipal (order : list uuid) (p : option Principal) (includeArchived : bool) s : list Task :=
  SortFunc cmpTaskPositionCreatedAt
    (filter (λ t, visible includeArchived t ∧ principalSeesTask p t = true) (range_tasks s order)).

(** ** Dependencies *)

Fixpoint deps_satisfied s (deps : list string) : bool :=
  match deps with
  | [] => true
  | d :: rest =>
    match uuid_Parse d with
    | None => false
    | Some depID =>
      match tasks s !! depID with
      | None => false
      | Some dep => if decide (Status dep = TaskStatusDone) then deps_satisfied s rest else false
      end
    end
  end.

Definition AreDependenciesSatisfied (id : uuid) s : result store_error bool :=
  match tasks s !! id with
  | None => Err (ErrTaskNotFound id)
  | Some t => Ok (deps_satisfied s (DependsOn t))
  end.

(** The reverse adjacency map, built in the iteration order of [s.tasks]. *)
Definition reverse_adj (ts : list Task) : gmap uuid (list uuid) :=
  foldl (λ adj t,
    foldl (λ adj d, match uuid_Parse d with
                    | None => adj
                    | Some depID => <[depID := default [] (adj !! depID) ++ [ID t]]> adj
                    end) adj (DependsOn t)) ∅ ts.

(** The scoring loop; [None] when the score runs out of fuel, which it does not
    ([Score_spec]). *)
Fixpoint score_ids (adj : gmap uuid (list uuid)) s (ids : list uuid) (scores : gmap uuid Z) : option (gmap uuid Z) :=
  match ids with
  | [] => Some scores
  | id :: rest =>
    match tasks s !! id with
    | None => score_ids adj s rest (<[id := 0]> scores)
    | Some _ =>
      match Score adj id with
      | Some n => score_ids adj s rest (<[id := Z.of_nat n]> scores)
      | None => None
      end
    end
  end.

Definition CriticalPathScores (order : list uuid) (ids : list uuid) s : option (gmap uuid Z) :=
  score_ids (reverse_adj (range_tasks s order)) s ids ∅.

Definition CriticalPathScore (order : list uuid) (id : uuid) s : option Z :=
  m ← CriticalPathScores order [id] s; Some (default 0 (m !! id)).

(** ** Search *)

(** [for start > 0 && !utf8.RuneStart(src[start]) { start-- }]. *)
Fixpoint align_down (src : list Z) (start : nat) : option nat :=
  match start with
  | O => Some O
  | S start' =>
    match src !! start with
    | None => None
    | Some b => if RuneStart b then Some start else align_down src start'
    end
  end.

(** [for end < len(src) && !utf8.RuneStart(src[end]) { end++ }]. *)
Fixpoint align_up (rest : list Z) (end_ : nat) : nat :=
  match rest with
  | [] => end_
  | b :: rest' => if RuneStart b then end_ else align_up rest' (S end_)
  end.

(** [html.EscapeString]. *)
Definition escape_byte (b : Z) : list Z :=
  if Z.eqb b 38 then bytes "&amp;" else if Z.eqb b 39 then bytes "&#39;" else if Z.eqb b 60 then bytes "&lt;"
  else if Z.eqb b 62 then bytes "&gt;" else if Z.eqb b 34 then bytes "&#34;" else [b].
Definition EscapeString (l : list Z) : list Z := l ≫= escape_byte.

Definition ellipsis_bytes : list Z := [226; 128; 166].

Definition buildSnippet (src : string) (idx matchLen : Z) : option string :=
  let b := bytes src in
  let n := Z.of_nat (length b) in
  let start := idx - SnippetPadding in
  let '(start, prefix) := if Z.leb start 0 then (0, []) else (start, ellipsis_bytes) in
  let end_ := idx + matchLen + SnippetPadding in
  let '(end_, suffix) := if Z.leb n end_ then (n, []) else (end_, ellipsis_bytes) in
  start ← align_down b (Z.to_nat start);
  let end_ := align_up (drop (Z.to_nat end_) b) (Z.to_nat end_) in
  if decide (start <= end_)%nat
  then Some (of_bytes (EscapeString (prefix ++ take (end_ - start) (drop start b) ++ suffix)))
  else None.

(** The first field with a match: its name and snippet; [None] is a panic. *)
Definition matchTask (t : Task) (entry : indexedTaskText) (q : string) : option (option (string * string)) :=
  let hit text field src k :=
    let idx := Index text q in
    if Z.eqb idx (-1) then k else snippet ← buildSnippet src idx (len q); Some (Some (field, snippet)) in
  hit (ix_title entry) "title"%string (Title t)
    (hit (ix_prompt entry) "prompt"%string (Prompt t)
      (hit (ix_tags entry) "tags"%string (strings_Join (Tags t) " "%string)
        (if decide (ix_oversight entry = EmptyString) then Some None
         else hit (ix_oversight entry) "oversight"%string (ix_oversightRaw entry) (Some None)))).

Definition zero_entry : indexedTaskText := MkIndexed EmptyString EmptyString EmptyString EmptyString EmptyString.

Fixpoint search_loop (q : string) s (order : list uuid) (matches : list (uuid * string * string))
  : option (list (uuid * string * string)) :=
  match order with
  | [] => Some matches
  | id :: rest =>
    if Z.leb MaxSearchResults (Z.of_nat (length matches)) then Some matches
    else match tasks s !! id with
         | None => search_loop q s rest matches
         | Some t =>
           r ← matchTask t (default zero_entry (searchIndex s !! id)) q;
           match r with
           | Some (field, snippet) => search_loop q s rest (matches ++ [(id, field, snippet)])
           | None => search_loop q s rest matches
           end
         end
  end.

Record TaskSearchResult := MkSearchResult { sr_Task : Task; MatchedField : string; Snippet : string }.

(** The matched tasks are read again after the lock is released; here no write
    comes between. *)
Definition SearchTasks (order : list uuid) (query : string) s : option (list TaskSearchResult) :=
  match search_loop (ToLower tbl query) s order [] with
  | None => None
  | Some matches => Some (omap (M:=list) (λ '(id, field, snippet),
      match GetTask id s with Ok t => Some (MkSearchResult t field snippet) | Err _ => None end) matches)
  end.

(** ** Spans

    [parse] is the decoding of an event's payload into phase and label. *)

Record SpanResult := MkSpan {
  sp_Phase : string;
  sp_Label : string;
  sp_StartedAt : Z;
  sp_EndedAt : Z;
  DurationMS : Z
}.

Section spans.
Variable parse : string → option (string * string).

Fixpoint spans_loop (evs : list TaskEvent) (starts : gmap (string * string) Z) (spans : list SpanResult)
  : gmap (string * string) Z * list SpanResult :=
  match evs with
  | [] => (starts, spans)
  | ev :: rest =>
    let ty := ev_EventType ev in
    if negb (bool_decide (ty = EventTypeSpanStart) || bool_decide (ty = EventTypeSpanEnd)) then spans_loop rest starts spans
    else match parse (ev_Data ev) with
         | None => spans_loop rest starts spans
         | Some key =>
           if decide (ty = EventTypeSpanStart) then spans_loop rest (<[key := ev_CreatedAt ev]> starts) spans
           else match starts !! key with
                | Some startedAt =>
                  spans_loop rest (delete key starts)
                    (spans ++ [MkSpan key.1 key.2 startedAt (ev_CreatedAt ev)
                                 (Z.quot (time_sub (ev_CreatedAt ev) startedAt) 1000000)])
                | None => spans_loop rest starts spans
                end
         end
  end.

Definition span_before (a b : SpanResult) : Prop := sp_StartedAt a <= sp_StartedAt b.

#[export] Instance span_before_dec : RelDecision span_before.
Proof. intros a b. unfold span_before. apply _. Defined.

(** [order] is the iteration order of the spans still open. *)
Definition ComputeSpans (order : list (string * string)) (evs : list TaskEvent) : list SpanResult :=
  let '(starts, spans) := spans_loop evs ∅ [] in
  merge_sort span_before
    (spans ++ omap (λ key, (λ st, MkSpan key.1 key.2 st 0 0) <$> starts !! key) order).
End spans.
End query.

(** ** Facts about the sorts *)

Section sorts.
Context `{UUIDLib}.

#[export] Instance cmpTask_total : Total cmpTaskPositionCreatedAt.
Proof. intros a b. unfold cmpTaskPositionCreatedAt. lia. Qed.

#[export] Instance cmpTask_trans : Transitive cmpTaskPositionCreatedAt.
Proof. intros a b c. unfold cmpTaskPositionCreatedAt. lia. Qed.

#[export] Instance newer_total : Total newer.
Proof. intros a b. unfold newer. lia. Qed.

#[export] Instance newer_trans : Transitive newer.
Proof. intros a b c. unfold newer. lia. Qed.

Lemma string_leb_le a b : string_leb a b = true ↔ String.le a b.
Proof. unfold string_leb, String.le. by rewrite Is_true_true. Qed.

#[export] Instance archived_total : Total archived_before.
Proof.
  intros a b. unfold archived_before. rewrite !string_leb_le.
  destruct (total String.le (uuid_String (ID a)) (uuid_String (ID b))),
    (Z.lt_trichotomy (UpdatedAt a) (UpdatedAt b)) as [?|[?|?]]; auto 6 using eq_sym.
Qed.

#[export] Instance archived_trans : Transitive archived_before.
Proof.
  intros a b c. unfold archived_before. rewrite !string_leb_le.
  intros [?|[? ?]] [?|[? ?]]; [left; lia..|right]. split; [lia|]. by etrans.
Qed.

Lemma uuid_String_inj u v : uuid_String u = uuid_String v → u = v.
Proof. intros E. apply (f_equal uuid_Parse) in E. rewrite !uuid_Parse_String in E. congruence. Qed.

Lemma SortFunc_sorted le `{!RelDecision le, !Total le, !Transitive le} l : StronglySorted le (SortFunc le l).
Proof. apply StronglySorted_merge_sort; apply _. Qed.

Lemma SortFunc_Permutation le `{!RelDecision le} l : SortFunc le l ≡ₚ l.
Proof. apply merge_sort_Permutation. Qed.
End sorts.

Section facts.
Context `{UUIDLib} {B : Type} `{!StorageBackend B} (tbl : Z → Z).
Abbreviation Store := (Store B).
Implicit Types (s : Store) (t : Task) (id : uuid).

Lemma elem_range_tasks s order t :
  store_wf tbl s → t ∈ range_tasks s order ↔ tasks s !! ID t = Some t ∧ ID t ∈ order.
Proof.
  intros Hwf. unfold range_tasks. rewrite list_elem_of_omap. split.
  - intros (i & Hi & Ht). by rewrite (wf_ids _ _ Hwf _ _ Ht).
  - intros [Ht Hin]. by exists (ID t).
Qed.

Lemma NoDup_range_tasks s order : store_wf tbl s → NoDup order → NoDup (ID <$> range_tasks s order).
Proof.
  intros Hwf Hn. induction Hn as [|x l Hx Hn IH]; [constructor|]. unfold range_tasks in *. simpl.
  destruct (tasks s !! x) as [t|] eqn:Ht; simpl; [|done]. constructor; [|done].
  rewrite (wf_ids _ _ Hwf _ _ Ht). intros (y & -> & (z & Hz & Hy)%list_elem_of_omap)%list_elem_of_fmap.
  by rewrite (wf_ids _ _ Hwf _ _ Hy) in Hx.
Qed.

(** A sorted selection of the live tasks, as every list query returns. *)
Lemma sorted_selection le `{!RelDecision le, !Total le, !Transitive le} (P : Task → Prop) `{!∀ t, Decision (P t)} s order :
  store_wf tbl s → NoDup order →
  let l := SortFunc le (filter P (range_tasks s order)) in
  StronglySorted le l ∧ NoDup (ID <$> l) ∧
  ∀ t, t ∈ l ↔ tasks s !! ID t = Some t ∧ ID t ∈ order ∧ P t.
Proof.
  intros Hwf Hn l. split; [apply SortFunc_sorted; apply _|]. split.
  - unfold l. rewrite SortFunc_Permutation. apply (sublist_NoDup _ (ID <$> range_tasks s order)).
    + by apply NoDup_range_tasks.
    + apply fmap_sublist, sublist_filter.
  - intros t. unfold l. rewrite SortFunc_Permutation, list_elem_of_filter, (elem_range_tasks s order t Hwf). naive_solver.
Qed.

(** [ListTasksByStatus] returns every live task of the status exactly once
    and nothing else, sorted by position and then creation time, and
    [CountByStatus] is its length, in whatever order the index is visited. *)
Theorem ListTasksByStatus_spec s status order :
  store_wf tbl s → NoDup order → (∀ id, id ∈ ids_with s status → id ∈ order) →
  let l := ListTasksByStatus order status s in
  StronglySorted cmpTaskPositionCreatedAt l ∧ NoDup (ID <$> l) ∧
  (∀ t, t ∈ l ↔ tasks s !! ID t = Some t ∧ Status t = status) ∧
  Z.of_nat (length l) = CountByStatus status s.
Proof.
  intros Hwf Hn Hcov l.
  assert (NoDup (range_status s status order)) as Hn' by (by apply NoDup_filter).
  assert (∀ t, t ∈ l ↔ tasks s !! ID t = Some t ∧ Status t = status) as Hin.
  { intros t. unfold l, ListTasksByStatus. rewrite SortFunc_Permutation, elem_range_tasks by done.
    unfold range_status. rewrite list_elem_of_filter, (wf_status _ _ Hwf). split.
    - intros (Ht & (t' & Ht' & Hs) & _). simplify_eq. done.
    - intros [Ht Hs]. split; [done|]. split; [eauto|]. apply Hcov, (wf_status _ _ Hwf). eauto. }
  assert (NoDup (ID <$> l)) as Hnd.
  { unfold l, ListTasksByStatus. rewrite SortFunc_Permutation. by apply NoDup_range_tasks. }
  split; [apply SortFunc_sorted; apply _|]. split; [done|]. split; [done|].
  unfold CountByStatus. f_equal. rewrite <- (length_fmap ID). rewrite <- (size_list_to_set (C:=gset uuid)) by done.
  f_equal. apply set_eq. intros id. rewrite elem_of_list_to_set, (wf_status _ _ Hwf), list_elem_of_fmap. split.
  - intros (t & -> & [Ht Hs]%Hin). eauto.
  - intros (t & Ht & Hs). exists t. rewrite (wf_ids _ _ Hwf _ _ Ht). split; [done|]. apply Hin.
    by rewrite (wf_ids _ _ Hwf _ _ Ht).
Qed.

(** ** Pages of archived tasks *)

Lemma archived_list_spec s order :
  store_wf tbl s → range_order (tasks s) order →
  let l := archived_list order s in
  StronglySorted archived_before l ∧ NoDup (ID <$> l) ∧ ∀ t, t ∈ l ↔ tasks s !! ID t = Some t ∧ Archived t = true.
Proof.
  intros Hwf Hord. destruct (sorted_selection archived_before (λ t, Archived t = true) s order Hwf
    (range_order_NoDup _ _ Hord)) as (H1 & H2 & H3).
  split; [done|]. split; [done|]. intros t. unfold archived_list. rewrite H3.
  split; [naive_solver|]. intros [Ht Ha]. split; [done|]. split; [|done].
  apply (range_order_elem _ _ _ Hord). by apply elem_of_dom.
Qed.

(** The order of the pages does not depend on the iteration order of the map. *)
Lemma archived_list_unique s order1 order2 :
  store_wf tbl s → range_order (tasks s) order1 → range_order (tasks s) order2 →
  archived_list order1 s = archived_list order2 s.
Proof.
  intros Hwf H1 H2. destruct (archived_list_spec s order1 Hwf H1) as (S1 & N1 & I1).
  destruct (archived_list_spec s order2 Hwf H2) as (S2 & N2 & I2).
  apply (StronglySorted_unique_strong archived_before); [|done|done|].
  - intros a b [Ha _]%I1 [Hb _]%I2 Hab Hba. unfold archived_before in *. rewrite string_leb_le in *.
    assert (ID a = ID b) as E; [|congruence]. apply uuid_String_inj.
    destruct Hab as [?|[? Hab]], Hba as [?|[? Hba]]; [lia..|]. by apply (anti_symm String.le).
  - apply NoDup_Permutation; [by apply NoDup_fmap_1 in N1|by apply NoDup_fmap_1 in N2|]. intros t. by rewrite I1, I2.
Qed.

Lemma index_id_lookup l i t : NoDup (ID <$> l) → l !! i = Some t → index_id l (ID t) = Some i.
Proof.
  revert i. induction l as [|x l IH]; intros i Hn Hi; [done|]. apply NoDup_cons in Hn as [Hx Hn]. destruct i; simpl in *.
  - injection Hi as ->. by rewrite decide_True.
  - rewrite decide_False; [by rewrite (IH i)|]. intros E. apply Hx. rewrite E. apply list_elem_of_fmap_2.
    by eapply list_elem_of_lookup_2.
Qed.

(** The page that starts at position [p]. *)
Definition page_from (l : list Task) (k : Z) (p : nat) : ArchivedPage :=
  MkArchivedPage (take (Z.to_nat k) (drop p l)) (Z.of_nat (length l))
    (Z.ltb (Z.of_nat p + k) (Z.of_nat (length l))) (Z.ltb 0 (Z.of_nat p)).

Lemma cut_page l k p : 1 <= k → (p < length l)%nat →
  cut l (Z.of_nat p) (Z.min (Z.of_nat p + k) (Z.of_nat (length l))) = page_from l k p.
Proof.
  intros Hk Hp. unfold cut, page_from. f_equal.
  - destruct (Z.ltb_spec (Z.of_nat p) (Z.min (Z.of_nat p + k) (Z.of_nat (length l)))); [|lia].
    rewrite Nat2Z.id. destruct (decide (Z.of_nat p + k <= Z.of_nat (length l))).
    + f_equal. lia.
    + rewrite !take_ge; [done|rewrite length_drop; lia..].
  - apply eq_iff_eq_true. rewrite !Z.ltb_lt. lia.
Qed.

(** The cursor of a client that has read the first [p] tasks. *)
Definition cursor_at (l : list Task) (p : nat) : option uuid :=
  match p with O => None | S p' => ID <$> l !! p' end.

Lemma ListArchived_at s order k p :
  store_wf tbl s → range_order (tasks s) order → 1 <= k → k < 2 ^ 62 →
  let l := archived_list order s in Z.of_nat (length l) < 2 ^ 62 → (p < length l)%nat →
  ListArchivedTasksPage order k (cursor_at l p) None s = Ok (page_from l k p).
Proof.
  intros Hwf Hord Hk Hk' l Hl Hp. destruct (archived_list_spec s order Hwf Hord) as (_ & Hn & _). fold l in Hn.
  unfold ListArchivedTasksPage. fold l. rewrite (proj2 (Z.ltb_ge k 1)) by lia.
  rewrite (proj2 (Z.eqb_neq (Z.of_nat (length l)) 0)) by lia. destruct p as [|p].
  - simpl. f_equal. rewrite <- cut_page by lia. done.
  - simpl. destruct (l !! p) as [t|] eqn:Ht; [|apply lookup_ge_None in Ht; lia]. simpl.
    rewrite (index_id_lookup l p t Hn Ht). rewrite Z.min_l, wrap64_id by lia. f_equal.
    rewrite <- cut_page by lia. f_equal; lia.
Qed.

(** A client that follows the [before] cursor; [None] when [fuel] pages are not
    enough. *)
Fixpoint archived_walk (fuel : nat) (order : list uuid) (k : Z) (cursor : option uuid) s
  : option (result page_error (list Task)) :=
  match fuel with
  | O => None
  | S fuel' =>
    match ListArchivedTasksPage order k cursor None s with
    | Err e => Some (Err e)
    | Ok p =>
      match last (ap_tasks p) with
      | Some t =>
        if hasMoreBefore p
        then (λ r, let! rest := r in Ok (ap_tasks p ++ rest)) <$> archived_walk fuel' order k (Some (ID t)) s
        else Some (Ok (ap_tasks p))
      | None => Some (Ok [])
      end
    end
  end.

Lemma archived_walk_from s order k fuel p :
  store_wf tbl s → range_order (tasks s) order → 1 <= k → k < 2 ^ 62 →
  let l := archived_list order s in Z.of_nat (length l) < 2 ^ 62 → (p < length l)%nat → (length l - p <= fuel)%nat →
  archived_walk fuel order k (cursor_at l p) s = Some (Ok (drop p l)).
Proof.
  intros Hwf Hord Hk Hk' l Hl. revert p. induction fuel as [|fuel IH]; intros p Hp Hf; [lia|].
  pose proof (ListArchived_at s order k p Hwf Hord Hk Hk' Hl Hp) as Hpage. fold l in Hpage.
  cbn [archived_walk]. rewrite Hpage. cbn [page_from ap_tasks hasMoreBefore].
  destruct (last (take (Z.to_nat k) (drop p l))) as [t|] eqn:Elast.
  2: { apply last_None in Elast. apply (f_equal length) in Elast. rewrite length_take, length_drop in Elast. simpl in *. lia. }
  destruct (Z.ltb_spec (Z.of_nat p + k) (Z.of_nat (length l))) as [Hm|Hm].
  - assert (cursor_at l (p + Z.to_nat k) = Some (ID t)) as <-.
    { rewrite last_lookup, length_take, length_drop in Elast.
      replace (pred (min (Z.to_nat k) (length l - p))) with (pred (Z.to_nat k)) in Elast by lia.
      rewrite lookup_take_lt, lookup_drop in Elast by lia.
      destruct (p + Z.to_nat k)%nat as [|q] eqn:Eq; [lia|]. simpl.
      replace (p + pred (Z.to_nat k))%nat with q in Elast by lia. by rewrite Elast. }
    rewrite IH by lia. simpl. by rewrite <- drop_drop, take_drop.
  - rewrite take_ge; [done|]. rewrite length_drop. lia.
Qed.

(** Paging through the archive misses and repeats nothing.  Starting without
    a cursor and following each page's last task as the [before] cursor, a client
    obtains, while the store does not change, exactly the archived live tasks,
    each once, newest first, whatever the page size and the iteration order of
    the task map, and one page per task is more than enough. *)
Theorem archived_paging_complete s order k fuel :
  store_wf tbl s → range_order (tasks s) order → 1 <= k → k < 2 ^ 62 → Z.of_nat (size (tasks s)) < 2 ^ 62 →
  (size (tasks s) < fuel)%nat →
  ∃ l, archived_walk fuel order k None s = Some (Ok l) ∧ StronglySorted archived_before l ∧ NoDup (ID <$> l) ∧
    (∀ t, t ∈ l ↔ tasks s !! ID t = Some t ∧ Archived t = true) ∧
    ∀ order', range_order (tasks s) order' → archived_list order' s = l.
Proof.
  intros Hwf Hord Hk Hk' Hsz Hf. exists (archived_list order s).
  destruct (archived_list_spec s order Hwf Hord) as (Hs & Hn & Hin).
  assert (length (archived_list order s) <= size (tasks s))%nat as Hlen.
  { rewrite <- (length_fmap ID), <- (size_list_to_set (C:=gset uuid)) by done. rewrite <- (size_dom (D:=gset uuid)).
    apply subseteq_size. intros id. rewrite elem_of_list_to_set. intros (t & -> & [Ht _]%Hin)%list_elem_of_fmap.
    by apply elem_of_dom. }
  split; [|split; [done|split; [done|split; [done|intros; by apply archived_list_unique]]]].
  destruct (decide (length (archived_list order s) = O)) as [E|E].
  - destruct fuel as [|fuel]; [lia|]. simpl. unfold ListArchivedTasksPage. rewrite E. simpl.
    by rewrite (nil_length_inv _ E).
  - pose proof (archived_walk_from s order k fuel 0 Hwf Hord Hk Hk') as Hw. simpl in Hw. apply Hw; lia.
Qed.

(** ** Principals *)

Definition may_see (p : Principal) t : Prop :=
  if decide (p_OrgID p = EmptyString)
  then OrgID t = EmptyString ∧ (CreatedBy t = EmptyString ∨ CreatedBy t = Sub p)
  else OrgID t = p_OrgID p.

Lemma principalSeesTask_iff p t : principalSeesTask (Some p) t = true ↔ may_see p t.
Proof.
  unfold principalSeesTask, may_see. repeat case_bool_decide; case_decide; simpl; naive_solver.
Qed.

Lemma TasksForPrincipal_elem s order p inc t :
  store_wf tbl s → range_order (tasks s) order →
  t ∈ TasksForPrincipal order (Some p) inc s ↔ tasks s !! ID t = Some t ∧ visible inc t ∧ may_see p t.
Proof.
  intros Hwf Hord. unfold TasksForPrincipal.
  rewrite SortFunc_Permutation, list_elem_of_filter, elem_range_tasks, principalSeesTask_iff by done.
  split; [naive_solver|]. intros (Ht & Hv & Hp). split; [done|]. split; [done|].
  apply (range_order_elem _ _ _ Hord). by apply elem_of_dom.
Qed.

(** C34: Tenant isolation, for a signed-in caller.  A task of an organisation is
    listed exactly for callers in that organisation's view, and a personal task
    exactly for its owner in the personal view; a task without an owner is listed in
    every personal view.  So two callers who both get a task that has an owner or an
    organisation are in the same organisation, or are the same user in the personal
    view. *)
Theorem principal_isolation s order p inc t :
  store_wf tbl s → range_order (tasks s) order → Sub p ≠ EmptyString →
  let listed := t ∈ TasksForPrincipal order (Some p) inc s in
  let there := tasks s !! ID t = Some t ∧ visible inc t in
  (OrgID t ≠ EmptyString → listed ↔ there ∧ p_OrgID p = OrgID t) ∧
  (OrgID t = EmptyString → CreatedBy t ≠ EmptyString → listed ↔ there ∧ p_OrgID p = EmptyString ∧ Sub p = CreatedBy t) ∧
  (OrgID t = EmptyString → CreatedBy t = EmptyString → p_OrgID p = EmptyString → listed ↔ there) ∧
  ∀ p' inc', Sub p' ≠ EmptyString → listed → t ∈ TasksForPrincipal order (Some p') inc' s →
    OrgID t ≠ EmptyString ∨ CreatedBy t ≠ EmptyString →
    p_OrgID p = p_OrgID p' ∧ (OrgID t = EmptyString → Sub p = Sub p').
Proof.
  intros Hwf Hord Hp listed there. unfold listed, there. pose proof (TasksForPrincipal_elem s order p inc t Hwf Hord) as Hin.
  unfold may_see in Hin. do 3 (split; [intros; rewrite Hin; case_decide; naive_solver congruence|]).
  intros p' inc' Hp'. rewrite Hin, TasksForPrincipal_elem by done. intros (_ & _ & H1) (_ & _ & H2) Ho. unfold may_see in *.
  repeat case_decide; naive_solver congruence.
Qed.

(** The empty principal is not treated as an anonymous caller: it does not see
    the tasks of an organisation, which [nil] does. *)
Lemma zero_principal_filters t :
  OrgID t ≠ EmptyString →
  principalSeesTask (Some (MkPrincipal EmptyString EmptyString)) t = false ∧ principalSeesTask None t = true.
Proof. intros Ho. unfold principalSeesTask. simpl. by rewrite bool_decide_false. Qed.

(** A task without owner or organisation is hidden in every organisation's view. *)
Lemma legacy_hidden_in_org u org t :
  org ≠ EmptyString → OrgID t = EmptyString → principalSeesTask (Some (MkPrincipal u org)) t = false.
Proof. intros Ho Ht. unfold principalSeesTask. simpl. rewrite Ht, !bool_decide_false by done. done. Qed.

(** ** Dependencies *)

Lemma deps_satisfied_iff s deps :
  deps_satisfied s deps = true ↔
  Forall (λ d, ∃ u dep, uuid_Parse d = Some u ∧ tasks s !! u = Some dep ∧ Status dep = TaskStatusDone) deps.
Proof.
  induction deps as [|d deps IH]; simpl; [by split|]. rewrite Forall_cons, <- IH.
  destruct (uuid_Parse d) as [u|]; [|naive_solver]. destruct (tasks s !! u) as [dep|] eqn:E; [|naive_solver].
  case_decide; naive_solver.
Qed.

(** [depended_by s u v]: the live task [v] lists [u] among its dependencies. *)
Definition depended_by (ts : list Task) (u v : uuid) : Prop :=
  ∃ t d, t ∈ ts ∧ ID t = v ∧ d ∈ DependsOn t ∧ uuid_Parse d = Some u.

Lemma reverse_adj_inner t deps adj u v :
  edge (foldl (λ adj d, match uuid_Parse d with
                        | None => adj
                        | Some depID => <[depID := default [] (adj !! depID) ++ [ID t]]> adj
                        end) adj deps) u v ↔
  edge adj u v ∨ (ID t = v ∧ ∃ d, d ∈ deps ∧ uuid_Parse d = Some u).
Proof.
  revert adj. induction deps as [|d deps IH]; intros adj; simpl.
  - split; [by left|]. intros [?|(_ & d & Hd & _)]; [done|]. by apply elem_of_nil in Hd.
  - rewrite IH. setoid_rewrite elem_of_cons. destruct (uuid_Parse d) as [w|] eqn:E; [|naive_solver congruence].
    unfold edge, succs. destruct (decide (w = u)) as [->|Hne].
    + rewrite lookup_insert_eq. simpl. rewrite elem_of_app, list_elem_of_singleton. naive_solver.
    + rewrite lookup_insert_ne by done. naive_solver congruence.
Qed.

Lemma reverse_adj_edge ts u v : edge (reverse_adj ts) u v ↔ depended_by ts u v.
Proof.
  unfold reverse_adj, depended_by.
  assert (∀ adj, edge (foldl (λ adj t,
    foldl (λ adj d, match uuid_Parse d with
                    | None => adj
                    | Some depID => <[depID := default [] (adj !! depID) ++ [ID t]]> adj
                    end) adj (DependsOn t)) adj ts) u v ↔
    edge adj u v ∨ ∃ t d, t ∈ ts ∧ ID t = v ∧ d ∈ DependsOn t ∧ uuid_Parse d = Some u) as Hgo.
  { induction ts as [|t ts IH]; intros adj; simpl.
    - split; [by left|]. intros [?|(t & d & Ht & _)]; [done|]. by apply elem_of_nil in Ht.
    - rewrite IH, reverse_adj_inner. setoid_rewrite elem_of_cons. naive_solver. }
  rewrite Hgo. unfold edge, succs. rewrite lookup_empty. simpl. rewrite elem_of_nil. naive_solver.
Qed.

(** What the score of [id] should be. *)
Definition score_is (adj : gmap uuid (list uuid)) s id (n : Z) : Prop :=
  match tasks s !! id with
  | None => n = 0
  | Some _ => ∃ k, n = Z.of_nat k ∧ Score adj id = Some k
  end.

Lemma score_ids_spec adj s ids (m0 : gmap uuid Z) :
  map_Forall (score_is adj s) m0 →
  ∃ m, score_ids adj s ids m0 = Some m ∧ map_Forall (score_is adj s) m ∧
    ∀ id, id ∈ ids ∨ id ∈ dom m0 → id ∈ dom m.
Proof.
  revert m0. induction ids as [|id ids IH]; intros m0 Hm0; simpl.
  - exists m0. split; [done|]. split; [done|]. by intros id [?%elem_of_nil|?].
  - assert (∃ n, score_is adj s id n ∧ match tasks s !! id with
      | None => score_ids adj s ids (<[id := 0]> m0)
      | Some _ => match Score adj id with Some n => score_ids adj s ids (<[id := Z.of_nat n]> m0) | None => None end
      end = score_ids adj s ids (<[id := n]> m0)) as (n & Hn & ->).
    { unfold score_is. destruct (tasks s !! id); [|eauto]. destruct (Score_spec adj id) as (k & -> & _). eauto. }
    destruct (IH (<[id := n]> m0)) as (m & -> & Hm & Hdom); [by apply map_Forall_insert_2|].
    exists m. split; [done|]. split; [done|]. intros x Hx. apply Hdom. rewrite dom_insert. set_solver.
Qed.

Lemma CriticalPathScores_spec order ids s :
  ∃ m, CriticalPathScores order ids s = Some m ∧ ∀ id, id ∈ ids → ∃ n, m !! id = Some n ∧
    score_is (reverse_adj (range_tasks s order)) s id n.
Proof.
  destruct (score_ids_spec (reverse_adj (range_tasks s order)) s ids ∅) as (m & E & Hm & Hdom); [apply map_Forall_empty|].
  exists m. split; [done|]. intros id Hid. assert (id ∈ dom m) as [n Hn]%elem_of_dom by auto.
  exists n. split; [done|]. by apply Hm.
Qed.

(** The priority of a task is the length of a chain of tasks each waiting for
    the one before, starting at it; it is the longest such chain when the
    dependencies have no cycle; the computation terminates in every case, and
    an unknown task has priority 0. *)
Theorem CriticalPathScores_correct order s ids :
  store_wf tbl s → range_order (tasks s) order →
  ∃ m, CriticalPathScores order ids s = Some m ∧ ∀ id, id ∈ ids →
    let adj := reverse_adj (range_tasks s order) in
    (∀ u v, edge adj u v ↔ ∃ t d, tasks s !! v = Some t ∧ d ∈ DependsOn t ∧ uuid_Parse d = Some u) ∧
    match tasks s !! id with
    | None => m !! id = Some 0
    | Some _ => ∃ k, m !! id = Some (Z.of_nat k) ∧ downchain adj id k ∧ (acyclic adj → longest_chain adj id k)
    end.
Proof.
  intros Hwf Hord. destruct (CriticalPathScores_spec order ids s) as (m & E & Hm). exists m. split; [done|].
  intros id Hid adj. split.
  - intros u v. unfold adj. rewrite reverse_adj_edge. unfold depended_by. setoid_rewrite (elem_range_tasks s order _ Hwf).
    split.
    + intros (t & d & [Ht _] & <- & ? & ?). eauto.
    + intros (t & d & Ht & ? & ?). exists t, d. rewrite (wf_ids _ _ Hwf _ _ Ht). split_and!; try done.
      apply (range_order_elem _ _ _ Hord). by apply elem_of_dom.
  - destruct (Hm id Hid) as (n & Hn & Hcase). unfold score_is in Hcase. destruct (tasks s !! id); [|by subst].
    destruct Hcase as (k & -> & Hk). exists k. split; [done|]. destruct (Score_spec adj id) as (k' & Hk' & H1 & H2).
    assert (k' = k) as -> by (unfold adj in *; congruence). done.
Qed.

(** Deleting a task never leaves others blocked on it.  If every dependency of
    an unfinished task is either the deleted task or a finished one, then after
    the deletion its dependencies count as satisfied. *)
Theorem deletion_unblocks order now nows id reason s s' id' t :
  store_wf tbl s → range_order (delete id (tasks s)) order →
  DeleteTask order now nows id reason s = (Ok tt, s') →
  id' ≠ id → tasks s !! id' = Some t → active_status (Status t) = true →
  Forall (λ d, d = uuid_String id ∨ ∃ u dep, uuid_Parse d = Some u ∧ u ≠ id ∧ tasks s !! u = Some dep ∧
                                      Status dep = TaskStatusDone) (DependsOn t) →
  AreDependenciesSatisfied id' s' = Ok true.
Proof.
  intros Hwf Hord Hrun Hne Ht Hact Hdeps. apply (DeleteTask_cases tbl) in Hrun; [|done..].
  destruct (tasks s !! id) as [t0|]; [|by destruct Hrun].
  destruct Hrun as (_ & [(_ & _ & _ & Hmem & _)|([e ?] & _)]); [|done].
  unfold AreDependenciesSatisfied. rewrite Hmem, Ht by done. simpl. f_equal. apply deps_satisfied_iff.
  assert (∀ d, d ∈ DependsOn (released id (nows id') t) → d ∈ DependsOn t ∧ d ≠ uuid_String id) as Hd.
  { intros d. unfold released, depends_on. rewrite Hact. simpl. case_bool_decide as Hin; simpl.
    - intros [? ?]%list_elem_of_filter. done.
    - intros Hdin. split; [done|]. by intros ->. }
  apply Forall_forall. intros d [Hin Hn]%Hd. rewrite Forall_forall in Hdeps. destruct (Hdeps d Hin) as [?|(u & dep & Hp & Hu & Hdep & Hst)]; [done|].
  exists u, dep. split; [done|]. split; [|done]. rewrite Hmem, Hdep by done. simpl. unfold released, depends_on. by rewrite Hst.
Qed.
End facts.

(** ** A store to run the queries on

    Task "A" is in progress and archived, task "C" waits for it in the backlog. *)

Module QueryRun.
#[local] Existing Instance text_uuid.
Import StoreRestart.Run.

Definition idA : @uuid text_uuid := "A"%string.
Definition idC : @uuid text_uuid := "C"%string.
Definition s1 : Store MemBackend := (ignore (CreateTaskWithOptions lower_ascii [] EmptyString 5 (opts "C")) (final [])).2.
Definition s2 : Store MemBackend := (UpdateTaskDependsOn 6 idC ["A"%string] s1).2.
Definition qs : Store MemBackend := (SetTaskArchived 7 idA true s2).2.

Lemma qs_wf : store_wf lower_ascii qs.
Proof.
  unfold qs, s2, s1.
  apply (store_wf_step lower_ascii _ _ (op_archived lower_ascii True _ 7 idA true)).
  apply (store_wf_step lower_ascii _ _ (op_depends lower_ascii True _ 6 idC ["A"%string])).
  apply store_wf_step; [apply op_create; vm_compute; reflexivity|]. apply run_durable.
Qed.

Lemma ListTasksByStatus_spec_witness :
  (ID <$> ListTasksByStatus [idA; idC] TaskStatusBacklog qs) = [idC] ∧ CountByStatus TaskStatusBacklog qs = 1.
Proof.
  destruct (ListTasksByStatus_spec lower_ascii qs TaskStatusBacklog [idA; idC] qs_wf) as (_ & _ & _ & Hn).
  - apply (bool_decide_unpack _). vm_compute. exact I.
  - intros id Hid. apply (wf_status _ _ qs_wf) in Hid as (t & Ht & _).
    apply (range_order_elem (tasks qs)); [range_order_tac|]. apply elem_of_dom. by exists t.
  - split; [vm_compute; reflexivity|]. rewrite <- Hn. vm_compute. reflexivity.
Defined.

Lemma archived_paging_complete_witness :
  ∃ l, archived_walk 3 [idC; idA] 1 None qs = Some (Ok l) ∧ ID <$> archived_list [idC; idA] qs = ["A"%string] ∧
    archived_list [idA; idC] qs = l.
Proof.
  destruct (archived_paging_complete lower_ascii qs [idC; idA] 1 3 qs_wf) as (l & H1 & _ & _ & _ & H2).
  - range_order_tac.
  - lia.
  - lia.
  - vm_compute. reflexivity.
  - apply (bool_decide_unpack _). vm_compute. exact I.
  - exists l. split; [exact H1|]. split; [vm_compute; reflexivity|]. apply H2. range_order_tac.
Defined.

(** Task "C" given to the user "u". *)
Definition owned : Store MemBackend := (mutateTask 8 idC (pure_fn (λ t, t <| CreatedBy := "u"%string |>)) qs).2.

Lemma owned_wf : store_wf lower_ascii owned.
Proof. apply (mutateTask_wf lower_ascii 8 idC); [|apply qs_wf]. apply good_fn_pure. intros t. split_and!; reflexivity. Qed.

Lemma principal_isolation_witness :
  ∃ t, tasks owned !! idC = Some t ∧
    t ∈ TasksForPrincipal [idA; idC] (Some (MkPrincipal "u" EmptyString)) false owned ∧
    ¬ t ∈ TasksForPrincipal [idA; idC] (Some (MkPrincipal "v" EmptyString)) false owned.
Proof.
  destruct (tasks owned !! idC) as [t|] eqn:Ht; [|vm_compute in Ht; discriminate]. exists t. split; [reflexivity|].
  assert ((λ t, (ID t, Archived t, OrgID t, CreatedBy t)) <$> tasks owned !! idC = Some (idC, false, EmptyString, "u"%string)) as Hf
    by (vm_compute; reflexivity).
  rewrite Ht in Hf. injection Hf as H1 H2 H3 H4.
  assert (range_order (tasks owned) [idA; idC]) as Hord by range_order_tac.
  destruct (principal_isolation lower_ascii owned [idA; idC] (MkPrincipal "u" EmptyString) false t owned_wf Hord) as (_ & Hu & _); [discriminate|].
  destruct (principal_isolation lower_ascii owned [idA; idC] (MkPrincipal "v" EmptyString) false t owned_wf Hord) as (_ & Hv & _); [discriminate|].
  rewrite H4 in Hu, Hv. split.
  - apply Hu; [exact H3|discriminate|]. rewrite H1. split; [|split; reflexivity]. split; [exact Ht|]. unfold visible. rewrite H2. tauto.
  - intros [_ [_ E]]%Hv; [discriminate E|exact H3|discriminate].
Defined.

Lemma CriticalPathScores_correct_witness :
  ∃ m, CriticalPathScores [idC; idA] [idA; idC] qs = Some m ∧ m !! idA = Some 2.
Proof.
  destruct (CriticalPathScores_correct lower_ascii [idC; idA] qs [idA; idC] qs_wf) as (m & E & Hm); [range_order_tac|].
  exists m. split; [exact E|].
  assert ((λ m : gmap (@uuid text_uuid) Z, m !! idA) <$> CriticalPathScores [idC; idA] [idA; idC] qs = Some (Some 2)) as H2
    by (vm_compute; reflexivity).
  rewrite E in H2. by injection H2.
Defined.

Lemma deletion_unblocks_witness :
  AreDependenciesSatisfied idC qs = Ok false ∧
  AreDependenciesSatisfied idC (DeleteTask [idC] 9 (λ _, 9) idA EmptyString qs).2 = Ok true.
Proof.
  split; [vm_compute; reflexivity|].
  destruct (tasks qs !! idC) as [t|] eqn:Ht; [|vm_compute in Ht; discriminate].
  assert (DependsOn <$> tasks qs !! idC = Some ["A"%string]) as Hd by (vm_compute; reflexivity).
  assert ((λ t, active_status (Status t)) <$> tasks qs !! idC = Some true) as Ha by (vm_compute; reflexivity).
  rewrite Ht in Hd, Ha. injection Hd as Hd. injection Ha as Ha.
  apply (deletion_unblocks lower_ascii [idC] 9 (λ _, 9) idA EmptyString qs _ idC t qs_wf).
  - range_order_tac.
  - transitivity ((DeleteTask [idC] 9 (λ _, 9) idA EmptyString qs).1, (DeleteTask [idC] 9 (λ _, 9) idA EmptyString qs).2);
      [apply surjective_pairing|]. apply (f_equal (λ r, (r, _))). vm_compute. reflexivity.
  - discriminate.
  - exact Ht.
  - exact Ha.
  - rewrite Hd. repeat constructor.
Defined.
End QueryRun.
