(* ===== verification/StoreSearch.v ===== *)
(** * Search and spans: what the queries return

    [SearchTasks_spec] is the correctness of the search on a well-formed store;
    [SearchTasks_total] says when it cannot panic and [SearchTasks_panics] that
    it can; [ComputeSpans_spec] relates the spans to the event log. *)

From S2P Require Import Prelude Dag StateMachine GoStrings PkgUtil TaskModel Backend Store StoreUpdate StoreWf StoreDurable StoreRestart StoreQuery.
From Stdlib Require Import String.
From stdpp Require Import list gmap sorting.
Local Open Scope Z_scope.

Section snippet.

Lemma align_down_some (b : list Z) n : (n = 0 ∨ n < length b)%nat → ∃ k, align_down b n = Some k ∧ (k <= n)%nat.
Proof.
  induction n as [|n IH]; intros Hn; simpl; [eauto|].
  destruct (b !! S n) as [x|] eqn:E; [|apply lookup_ge_None in E; lia].
  destruct (RuneStart x); [eauto|]. destruct IH as (k & -> & ?); [lia|]. eauto.
Qed.

Lemma align_up_ge (rest : list Z) n : (n <= align_up rest n)%nat.
Proof. revert n. induction rest as [|x rest IH]; intros n; simpl; [lia|]. case_match; [lia|]. specialize (IH (S n)). lia. Qed.

(** A snippet around a match that lies inside the text never panics. *)
Lemma buildSnippet_safe src idx m : 0 <= idx → 0 <= m → idx + m <= len src → is_Some (buildSnippet src idx m).
Proof.
  intros Hi Hm Hn. unfold buildSnippet. unfold len in Hn. rewrite <- length_bytes in Hn. set (b := bytes src) in *.
  change SnippetPadding with 60.
  assert (∃ st pre, (if Z.leb (idx - 60) 0 then (0, []) else (idx - 60, ellipsis_bytes)) = (st, pre) ∧
    0 <= st <= idx ∧ (st = 0 ∨ st < Z.of_nat (length b))) as (st & pre & -> & Hst & Hst').
  { destruct (Z.leb_spec (idx - 60) 0); eexists _, _; (split; [done|]); lia. }
  assert (∃ en suf, (if Z.leb (Z.of_nat (length b)) (idx + m + 60) then (Z.of_nat (length b), [])
    else (idx + m + 60, ellipsis_bytes)) = (en, suf) ∧ idx <= en) as (en & suf & -> & Hen).
  { destruct (Z.leb_spec (Z.of_nat (length b)) (idx + m + 60)); eexists _, _; (split; [done|]); lia. }
  destruct (align_down_some b (Z.to_nat st)) as (k & -> & Hk); [lia|]. simpl.
  pose proof (align_up_ge (drop (Z.to_nat en) b) (Z.to_nat en)). rewrite decide_True by lia. eauto.
Qed.
End snippet.

Section search.
Context `{UUIDLib} {B : Type} `{!StorageBackend B} (tbl : Z → Z).
Abbreviation Store := (Store B).
Implicit Types (s : Store) (t : Task) (id : uuid).

(** The field that a query matches first, in an index entry. *)
Definition first_field (e : indexedTaskText) (q : string) : option string :=
  if Contains (ix_title e) q then Some "title"%string
  else if Contains (ix_prompt e) q then Some "prompt"%string
  else if Contains (ix_tags e) q then Some "tags"%string
  else if decide (ix_oversight e = EmptyString) then None
  else if Contains (ix_oversight e) q then Some "oversight"%string else None.

Lemma matchTask_field t e q r : matchTask t e q = Some r → fst <$> r = first_field e q.
Proof.
  unfold matchTask, first_field, Contains.
  destruct (Z.eqb_spec (Index (ix_title e) q) (-1)); simpl.
  2: { destruct (buildSnippet (Title t) _ _); intros [= <-]; done. }
  destruct (Z.eqb_spec (Index (ix_prompt e) q) (-1)); simpl.
  2: { destruct (buildSnippet (Prompt t) _ _); intros [= <-]; done. }
  destruct (Z.eqb_spec (Index (ix_tags e) q) (-1)); simpl.
  2: { destruct (buildSnippet (strings_Join (Tags t) _) _ _); intros [= <-]; done. }
  case_decide; [by intros [= <-]|].
  destruct (Z.eqb_spec (Index (ix_oversight e) q) (-1)); simpl; [by intros [= <-]|].
  destruct (buildSnippet (ix_oversightRaw e) _ _); intros [= <-]; done.
Qed.

(** Lowercasing keeps the byte length of the text. *)
Definition same_len (x : string) : Prop := len (ToLower tbl x) = len x.

Lemma matchTask_total t raw q :
  same_len (Title t) → same_len (Prompt t) → same_len (strings_Join (Tags t) " "%string) → same_len raw →
  is_Some (matchTask t (buildIndexEntry tbl t raw) q).
Proof.
  intros H1 H2 H3 H4. unfold matchTask. simpl.
  assert (∀ (x f : string) (k : option (option (string * string))), same_len x → is_Some k →
    is_Some (if Index (ToLower tbl x) q =? -1 then k
             else snippet ← buildSnippet x (Index (ToLower tbl x) q) (len q); Some (Some (f, snippet)))) as Hhit.
  { intros x f k Hx Hk. destruct (Z.eqb_spec (Index (ToLower tbl x) q) (-1)) as [|Hi]; [done|].
    apply Index_bound in Hi. unfold same_len in Hx. rewrite Hx in Hi.
    destruct (buildSnippet_safe x (Index (ToLower tbl x) q) (len q)) as [sn ->]; [lia|unfold len; lia|lia|]. simpl. eauto. }
  apply Hhit; [done|]. apply Hhit; [done|]. apply Hhit; [done|].
  destruct (decide (ToLower tbl raw = EmptyString)); [eauto|]. apply Hhit; [done|eauto].
Qed.

(** The entry that the search looks at. *)
Definition entry_of s id : indexedTaskText := default zero_entry (searchIndex s !! id).

Lemma search_loop_spec q s order acc res :
  search_loop q s order acc = Some res → (length acc <= 50)%nat →
  ∃ new, res = acc ++ new ∧ (length res <= 50)%nat ∧ new.*1.*1 `sublist_of` order ∧
    (∀ id f sn, (id, f, sn) ∈ new → is_Some (tasks s !! id) ∧ first_field (entry_of s id) q = Some f) ∧
    ((length res < 50)%nat → ∀ id, id ∈ order → is_Some (tasks s !! id) → is_Some (first_field (entry_of s id) q) →
      id ∈ new.*1.*1).
Proof.
  revert acc. induction order as [|id order IH]; intros acc; simpl.
  { intros [= <-] Hl. exists []. rewrite app_nil_r. split; [done|]. split; [done|]. split; [done|].
    split; [intros x f sn Hx|intros _ x Hx]; by apply not_elem_of_nil in Hx. }
  destruct (Z.leb_spec MaxSearchResults (Z.of_nat (length acc))) as [Hm|Hm].
  { change MaxSearchResults with 50 in Hm. intros [= <-] Hl. exists []. rewrite app_nil_r.
    split; [done|]. split; [done|]. split; [apply sublist_nil_l|]. split; [|lia]. intros x f sn Hx. by apply not_elem_of_nil in Hx. }
  change MaxSearchResults with 50 in Hm. destruct (tasks s !! id) as [t|] eqn:Ht.
  2: { intros (new & -> & Hl & Hsub & Hin & Hall)%IH; [|lia]. exists new. split_and!; try done; [by constructor|].
       intros Hlt x [->|Hx]%elem_of_cons Hx' Hf; [rewrite Ht in Hx'; by destruct Hx'|]. by apply Hall. }
  destruct (matchTask t (entry_of s id) q) as [r|] eqn:Em; unfold entry_of in Em; rewrite Em; [|done]. simpl.
  apply matchTask_field in Em. fold (entry_of s id) in Em. destruct r as [[f sn]|]; simpl in Em.
  - intros (new & -> & Hl & Hsub & Hin & Hall)%IH Hacc; [|rewrite length_app; simpl; lia].
    exists ((id, f, sn) :: new). rewrite <- app_assoc. split; [done|]. rewrite <- app_assoc in Hl, Hall. split; [done|].
    split; [simpl; by constructor|]. split.
    + intros x g u [[= -> -> ->]|Hx]%elem_of_cons; [by rewrite Ht, <- Em|by eapply Hin].
    + intros Hlt x [->|Hx]%elem_of_cons Hx' Hf; [left|]. right. by apply Hall.
  - intros (new & -> & Hl & Hsub & Hin & Hall)%IH Hacc; [|lia]. exists new. split_and!; try done; [by constructor|].
    intros Hlt x [->|Hx]%elem_of_cons Hx' Hf; [|by apply Hall]. rewrite <- Em in Hf. by destruct Hf.
Qed.
Lemma search_loop_total q s order acc :
  (∀ id t, tasks s !! id = Some t → is_Some (matchTask t (entry_of s id) q)) → is_Some (search_loop q s order acc).
Proof.
  intros Hm. revert acc. induction order as [|id order IH]; intros acc; simpl; [eauto|].
  case_match; [eauto|]. destruct (tasks s !! id) as [t|] eqn:Ht; [|apply IH].
  destruct (Hm _ _ Ht) as [r Hr]. unfold entry_of in Hr. rewrite Hr. simpl. destruct r as [[f sn]|]; apply IH.
Qed.

(** The text that is searched for a task, in the order of the fields. *)
Definition searched s id t : list (string * string) :=
  [("title", Title t); ("prompt", Prompt t); ("tags", strings_Join (Tags t) " ");
   ("oversight", ix_oversightRaw (entry_of s id))]%string.

(** A field matches when its lowercased text contains the query; an empty
    oversight text is not searched. *)
Definition field_matches (q : string) (f : string * string) : Prop :=
  Contains (ToLower tbl f.2) q = true ∧ (f.1 = "oversight"%string → ToLower tbl f.2 ≠ EmptyString).

Lemma first_field_searched s id t raw q :
  searchIndex s !! id = Some (buildIndexEntry tbl t raw) →
  match first_field (entry_of s id) q with
  | Some name => ∃ l1 x l2, searched s id t = l1 ++ (name, x) :: l2 ∧ field_matches q (name, x) ∧
                            Forall (λ f, ¬ field_matches q f) l1
  | None => Forall (λ f, ¬ field_matches q f) (searched s id t)
  end.
Proof.
  intros Hix. unfold searched, entry_of, first_field. rewrite Hix. simpl. unfold field_matches.
  destruct (Contains (ToLower tbl (Title t)) q) eqn:E1; [eexists [], _, _; split; [done|]; split; [done|constructor]|].
  destruct (Contains (ToLower tbl (Prompt t)) q) eqn:E2.
  { eexists [_], _, _; split; [done|]; split; [done|]. repeat constructor. simpl. rewrite E1. by intros []. }
  destruct (Contains (ToLower tbl (strings_Join (Tags t) _)) q) eqn:E3.
  { eexists [_; _], _, _; split; [done|]; split; [done|]. repeat constructor; simpl; rewrite ?E1, ?E2; by intros []. }
  case_decide as E0.
  { repeat constructor; simpl; rewrite ?E1, ?E2, ?E3; try (by intros []). intros [_ Hne]. by apply Hne. }
  destruct (Contains (ToLower tbl raw) q) eqn:E4.
  { eexists [_; _; _], _, _; split; [done|]; split; [done|]. repeat constructor; simpl; rewrite ?E1, ?E2, ?E3; by intros []. }
  repeat constructor; simpl; rewrite ?E1, ?E2, ?E3, ?E4; by intros [].
Qed.

(** On a well-formed store in which lowercasing keeps the length of the
    searched texts, a search does not panic and returns at most 50 results, of
    different live tasks; each names the first field (title, prompt, tags,
    oversight) whose text contains the query, letter case aside; and when fewer
    than 50 are returned no matching task is missing. *)
Theorem SearchTasks_spec s order query :
  store_wf tbl s → range_order (tasks s) order →
  (∀ id t, tasks s !! id = Some t → Forall (λ f, same_len f.2) (searched s id t)) →
  let q := ToLower tbl query in
  ∃ res, SearchTasks tbl order query s = Some res ∧ (length res <= 50)%nat ∧ NoDup ((λ r, ID (sr_Task r)) <$> res) ∧
    (∀ r, r ∈ res → let t := sr_Task r in tasks s !! ID t = Some t ∧
       ∃ l1 x l2, searched s (ID t) t = l1 ++ (MatchedField r, x) :: l2 ∧ field_matches q (MatchedField r, x) ∧
                  Forall (λ f, ¬ field_matches q f) l1) ∧
    ((length res < 50)%nat → ∀ t, tasks s !! ID t = Some t → Exists (field_matches q) (searched s (ID t) t) →
       ∃ r, r ∈ res ∧ sr_Task r = t).
Proof.
  intros Hwf Hord Hlen q.
  destruct (search_loop_total q s order []) as [ms Hms].
  { intros id t Ht. destruct (wf_index _ _ Hwf id t Ht) as [raw Hix]. specialize (Hlen id t Ht).
    unfold searched, entry_of in *. rewrite Hix in *. simpl in *.
    inversion_clear Hlen as [|?? H1 Hlen1]. inversion_clear Hlen1 as [|?? H2 Hlen2].
    inversion_clear Hlen2 as [|?? H3 Hlen3]. inversion_clear Hlen3 as [|?? H4]. by apply matchTask_total. }
  unfold SearchTasks. fold q. rewrite Hms. eexists. split; [reflexivity|].
  apply search_loop_spec in Hms as (new & E & Hl & Hsub & Hin & Hall); [|simpl; lia]. simpl in E. subst new.
  set (g := λ '(id, field, snippet), match GetTask id s with Ok t => Some (MkSearchResult t field snippet) | Err _ => None end).
  assert (∀ m, m ∈ ms → ∃ r, g m = Some r ∧ ID (sr_Task r) = m.1.1 ∧ tasks s !! m.1.1 = Some (sr_Task r) ∧
    MatchedField r = m.1.2) as Hg.
  { intros [[id f] sn] Hm. apply Hin in Hm as [[t Ht] _]. simpl. unfold GetTask. rewrite Ht. eexists; split; [done|].
    simpl. by rewrite (wf_ids _ _ Hwf _ _ Ht). }
  assert ((λ r, ID (sr_Task r)) <$> omap (M:=list) g ms = ms.*1.*1 ∧ length (omap (M:=list) g ms) = length ms) as [Hids Hlm].
  { clear -Hg. induction ms as [|m ms IH]; [done|]. destruct (Hg m) as (r & E & Hr & _); [left|].
    destruct IH as [E1 E2]; [intros; apply Hg; by right|]. simpl. rewrite E. simpl. rewrite Hr. by split; f_equal. }
  rewrite Hids, Hlm. split; [done|]. 
  split; [eapply sublist_NoDup; [by apply (range_order_NoDup (tasks s))|done]|]. split.
  - intros r (m & Hm & Hr)%list_elem_of_omap. destruct (Hg m Hm) as (r' & E & Hid & Ht & Hf). simplify_eq. cbv zeta.
    rewrite <- Hid in Ht. split; [done|]. destruct m as [[id f] sn]. simpl in *. subst f id.
    apply Hin in Hm as [_ Hf]. destruct (wf_index _ _ Hwf _ _ Ht) as [raw Hix].
    pose proof (first_field_searched s _ _ raw q Hix) as Hff. by rewrite Hf in Hff.
  - intros Hlt t Ht Hex. destruct (wf_index _ _ Hwf _ _ Ht) as [raw Hix].
    pose proof (first_field_searched s _ _ raw q Hix) as Hff.
    destruct (first_field (entry_of s (ID t)) q) as [f|] eqn:Ef.
    2: { exfalso. rewrite Exists_exists in Hex. rewrite Forall_forall in Hff. naive_solver. }
    assert (ID t ∈ ms.*1.*1) as Hm.
    { apply Hall; [done| |done|by rewrite Ef]. apply (range_order_elem (tasks s)); [done|]. by apply elem_of_dom. }
    apply list_elem_of_fmap in Hm as (k & Ek & Hk). apply list_elem_of_fmap in Hk as (m & -> & Hm).
    destruct (Hg m Hm) as (r & E & Hid & Ht' & _). exists r. split; [apply list_elem_of_omap; eauto|].
    rewrite <- Ek in Ht'. congruence.
Qed.
End search.

(** ** Spans *)

Section spans.
Context `{UUIDLib} (parse : string → option (string * string)).

(** [ev] opens, or closes, a span with this phase and label. *)
Definition opens (key : string * string) (ev : TaskEvent) : Prop :=
  ev_EventType ev = EventTypeSpanStart ∧ parse (ev_Data ev) = Some key.

Definition closes (key : string * string) (ev : TaskEvent) : Prop :=
  ev_EventType ev = EventTypeSpanEnd ∧ parse (ev_Data ev) = Some key.

Definition touches (key : string * string) (ev : TaskEvent) : Prop := opens key ev ∨ closes key ev.

(** A span that the log leaves open. *)
Definition left_open (evs : list TaskEvent) (key : string * string) (at_ : Z) : Prop :=
  ∃ l1 ev l2, evs = l1 ++ ev :: l2 ∧ opens key ev ∧ ev_CreatedAt ev = at_ ∧ Forall (λ e, ¬ touches key e) l2.

(** A start and an end of the same span with neither between them. *)
Definition paired (evs : list TaskEvent) (sp : SpanResult) : Prop :=
  ∃ l1 ev l2 ev' l3, evs = l1 ++ ev :: l2 ++ ev' :: l3 ∧
    opens (sp_Phase sp, sp_Label sp) ev ∧ closes (sp_Phase sp, sp_Label sp) ev' ∧
    Forall (λ e, ¬ touches (sp_Phase sp, sp_Label sp) e) l2 ∧
    sp_StartedAt sp = ev_CreatedAt ev ∧ sp_EndedAt sp = ev_CreatedAt ev' ∧
    DurationMS sp = Z.quot (time_sub (ev_CreatedAt ev') (ev_CreatedAt ev)) 1000000.

Lemma left_open_snoc evs ev key at_ :
  left_open (evs ++ [ev]) key at_ ↔
  opens key ev ∧ ev_CreatedAt ev = at_ ∨ ¬ touches key ev ∧ left_open evs key at_.
Proof.
  split.
  - intros (l1 & e & l2 & E & Ho & Hat & Hf). destruct l2 as [|y l2 _] using rev_ind.
    + apply app_inj_tail in E as [-> ->]. by left.
    + rewrite app_comm_cons, app_assoc in E. apply app_inj_tail in E as [-> ->].
      apply Forall_app in Hf as [Hf Hy]. inversion_clear Hy. right. split; [done|]. by exists l1, e, l2.
  - intros [[Ho Hat]|[Ht (l1 & e & l2 & -> & Ho & Hat & Hf)]]; [exists evs, ev, []; split_and!; done || constructor|].
    exists l1, e, (l2 ++ [ev]). rewrite <- app_assoc. split_and!; [done..|]. apply Forall_app. split; [done|]. by constructor.
Qed.

Lemma paired_snoc evs ev sp :
  paired (evs ++ [ev]) sp ↔
  paired evs sp ∨ closes (sp_Phase sp, sp_Label sp) ev ∧ left_open evs (sp_Phase sp, sp_Label sp) (sp_StartedAt sp) ∧
    sp_EndedAt sp = ev_CreatedAt ev ∧ DurationMS sp = Z.quot (time_sub (ev_CreatedAt ev) (sp_StartedAt sp)) 1000000.
Proof.
  split.
  - intros (l1 & e & l2 & e' & l3 & E & Ho & Hc & Hf & H1 & H2 & H3). destruct l3 as [|y l3 _] using rev_ind.
    + rewrite app_comm_cons, app_assoc in E. apply app_inj_tail in E as [-> ->]. right.
      split; [done|]. split; [by exists l1, e, l2|]. by rewrite H1.
    + replace (l1 ++ e :: l2 ++ e' :: l3 ++ [y]) with ((l1 ++ e :: l2 ++ e' :: l3) ++ [y]) in E
        by (by rewrite <- !app_assoc; simpl; rewrite <- app_assoc).
      apply app_inj_tail in E as [-> ->]. left. by exists l1, e, l2, e', l3.
  - intros [(l1 & e & l2 & e' & l3 & -> & Hrest)|(Hc & (l1 & e & l2 & -> & Ho & Hat & Hf) & He & Hd)].
    + exists l1, e, l2, e', (l3 ++ [ev]). split; [|done]. by rewrite <- app_assoc; simpl; rewrite <- app_assoc.
    + exists l1, e, l2, ev, []. rewrite Hat. split; [by rewrite <- app_assoc|]. done.
Qed.

Lemma spans_loop_app evs1 evs2 starts spans :
  spans_loop parse (evs1 ++ evs2) starts spans =
  let '(starts', spans') := spans_loop parse evs1 starts spans in spans_loop parse evs2 starts' spans'.
Proof.
  revert starts spans. induction evs1 as [|e evs1 IH]; intros starts spans; simpl; [done|].
  destruct (negb _); [apply IH|]. destruct (parse _); [|apply IH]. destruct (decide _); [apply IH|].
  destruct (starts !! _); apply IH.
Qed.

(** The two accumulators after any prefix of the log. *)
Lemma spans_loop_spec evs starts spans :
  spans_loop parse evs ∅ [] = (starts, spans) →
  (∀ key at_, starts !! key = Some at_ ↔ left_open evs key at_) ∧ (∀ sp, sp ∈ spans ↔ paired evs sp).
Proof.
  revert starts spans. induction evs as [|ev evs IH] using rev_ind; intros starts spans; simpl.
  { intros [= <- <-]. split; [intros key at_|intros sp]; (split; [by inversion 1 || done|]).
    - intros ([] & ? & ? & [=] & _).
    - intros ([] & ? & ? & ? & ? & [=] & _). }
  rewrite spans_loop_app. destruct (spans_loop parse evs ∅ []) as [st0 sp0]. destruct (IH _ _ eq_refl) as [Hst Hsp]. clear IH.
  assert ((∀ key, ¬ touches key ev) → (starts, spans) = (st0, sp0) →
    (∀ key at_, starts !! key = Some at_ ↔ left_open (evs ++ [ev]) key at_) ∧ (∀ sp, sp ∈ spans ↔ paired (evs ++ [ev]) sp)) as Hskip.
  { intros Hno [= -> ->]. split; [intros key at_; rewrite left_open_snoc, Hst|intros sp; rewrite paired_snoc, Hsp].
    - specialize (Hno key). unfold touches in *. naive_solver.
    - specialize (Hno (sp_Phase sp, sp_Label sp)). unfold touches in *. naive_solver. }
  simpl. destruct (parse (ev_Data ev)) as [key|] eqn:Hp.
  2: { intros E. apply Hskip; [intros k [[_ ?]|[_ ?]]; congruence|]. by destruct (negb _); simplify_eq. }
  assert (∀ key', touches key' ev → key' = key) as Hkey by (intros k [[_ ?]|[_ ?]]; congruence).
  case_bool_decide as Hs; simpl.
  - rewrite decide_True by done. intros [= <- <-]. split.
    + intros key' at_. rewrite left_open_snoc, lookup_insert, <- Hst. unfold touches, opens, closes. case_decide; subst; naive_solver.
    + intros sp. rewrite paired_snoc, Hsp. unfold closes. rewrite Hs. naive_solver.
  - rewrite decide_False by done. case_bool_decide as He; simpl.
    2: { intros [= <- <-]. apply Hskip; [|done]. intros k [[? _]|[? _]]; done. }
    destruct (st0 !! key) as [at0|] eqn:Hat; intros [= <- <-]; split.
    + intros key' at_. rewrite left_open_snoc, lookup_delete, <- Hst. unfold touches, opens, closes. case_decide; subst; naive_solver.
    + intros sp. rewrite paired_snoc, elem_of_app, Hsp, list_elem_of_singleton, <- Hst. unfold closes. rewrite Hp.
      split; intros [?|Hc]; eauto; right; [subst sp; destruct key; simpl; done|].
      destruct sp as [ph lb a b d], Hc as ([_ [= ->]] & E & ? & ?); simpl in *. by simplify_eq.
    + intros key' at_. rewrite left_open_snoc, <- Hst. unfold touches, opens, closes. destruct (decide (key' = key)) as [->|]; naive_solver.
    + intros sp. rewrite paired_snoc, Hsp, <- Hst. unfold closes. rewrite Hp. split; [by left|].
      intros [?|([_ [= ->]] & E & _)]; [done|]. simplify_eq.
Qed.

#[export] Instance span_before_total : Total span_before.
Proof. intros a b. unfold span_before. lia. Qed.

#[export] Instance span_before_trans : Transitive span_before.
Proof. intros a b c. unfold span_before. lia. Qed.

(** The spans of an event log are, sorted by their start, exactly the pairs of
    a start and the next end with the same phase and label, with no other start
    or end of that span in between, and the spans whose last start has no end;
    events whose payload does not parse count for nothing. *)
Theorem ComputeSpans_spec evs order :
  range_order (spans_loop parse evs ∅ []).1 order →
  let l := ComputeSpans parse order evs in
  StronglySorted span_before l ∧
  ∀ sp, sp ∈ l ↔ paired evs sp ∨
    left_open evs (sp_Phase sp, sp_Label sp) (sp_StartedAt sp) ∧ sp_EndedAt sp = 0 ∧ DurationMS sp = 0.
Proof.
  intros Hord l. unfold l, ComputeSpans. destruct (spans_loop parse evs ∅ []) as [st sps] eqn:E.
  destruct (spans_loop_spec _ _ _ E) as [Hst Hsp]. split; [apply StronglySorted_merge_sort; apply _|].
  intros sp. rewrite merge_sort_Permutation, elem_of_app, Hsp, list_elem_of_omap, <- Hst. f_equiv. split.
  - intros (key & _ & (at_ & Hat & ->)%fmap_Some). simpl. by destruct key.
  - destruct sp as [ph lb a b d]. simpl. intros (Hat & -> & ->). exists (ph, lb). split; [|by rewrite Hat].
    apply (range_order_elem st); [done|]. by apply elem_of_dom.
Qed.
End spans.

(** ** Runs *)

Module SearchRun.
#[local] Existing Instance text_uuid.
Import StoreRestart.Run.

Definition idA : @uuid text_uuid := "A"%string.
Definition found : Store MemBackend := final [].

(** Searching for the tag "Tag" in lower case finds the live task. *)
Lemma SearchTasks_spec_witness :
  ∃ res, SearchTasks lower_ascii [idA] "TAG" found = Some res ∧
    ∃ r, r ∈ res ∧ ID (sr_Task r) = idA ∧ MatchedField r = "tags"%string.
Proof.
  destruct (SearchTasks_spec lower_ascii found [idA] "TAG") as (res & E & _).
  - apply run_durable.
  - range_order_tac.
  - intros id t Ht.
    assert (id = idA) as ->.
    { apply list_elem_of_singleton. apply (range_order_elem (tasks found) [idA] id); [range_order_tac|].
      apply elem_of_dom. by exists t. }
    assert ((λ t, bool_decide (Forall (λ f : string * string, len (ToLower lower_ascii f.2) = len f.2)
                                 (searched found idA t))) <$> tasks found !! idA = Some true) as Hb by (vm_compute; reflexivity).
    rewrite Ht in Hb. injection Hb as Hb. by apply bool_decide_eq_true in Hb.
  - exists res. split; [exact E|].
    assert ((λ res : list TaskSearchResult, (λ r, (ID (sr_Task r), MatchedField r)) <$> res) <$>
              SearchTasks lower_ascii [idA] "TAG" found = Some [(idA, "tags"%string)]) as Hv by (vm_compute; reflexivity).
    rewrite E in Hv. destruct res as [|r res]; [discriminate|]. injection Hv as H1 H2 _.
    exists r. split; [left|exact (conj H1 H2)].
Defined.

(** Lowercasing that agrees with Unicode on the letters used here: the lower
    case of U+023A, two bytes long, is U+2C65, three bytes long. *)
Definition lower_stroke (r : Z) : Z := if decide (r = 570) then 11365 else lower_ascii r.

Definition strokes : string := String.concat EmptyString (repeat "Ⱥ"%string 70) +:+ "x".

Definition stroke_store : Store MemBackend :=
  (UpdateTaskTitle lower_stroke 5 idA strokes (m1 (opened [])).2).2.

(** The search can panic.  The position of a match in the lowercased title is
    used as a position in the title itself; when lowercasing makes the text
    longer it is out of range.  One update of a title makes every search that
    reaches the task panic. *)
Theorem SearchTasks_panics :
  SearchTasks lower_stroke [idA] "x" stroke_store = None ∧
  (Title <$> tasks stroke_store !! idA) = Some strokes ∧ SearchTasks lower_stroke [idA] "zz" stroke_store = Some [].
Proof. split; [|split]; vm_compute; reflexivity. Qed.

Definition span_parse (d : string) : option (string * string) :=
  if decide (d = EmptyString) then None else Some (d, EmptyString).

Definition span_log : list TaskEvent :=
  [MkEvent 1 idA EventTypeSpanStart "a" 5000000 EmptyString EmptyString; MkEvent 2 idA EventTypeSpanStart "b" 6000000 EmptyString EmptyString;
   MkEvent 3 idA EventTypeSpanEnd "a" 9000000 EmptyString EmptyString].

Lemma ComputeSpans_spec_witness :
  ComputeSpans span_parse [("b", EmptyString)]%string span_log = [MkSpan "a" EmptyString 5000000 9000000 4; MkSpan "b" EmptyString 6000000 0 0]%string ∧
  paired span_parse span_log (MkSpan "a" EmptyString 5000000 9000000 4).
Proof.
  split; [vm_compute; reflexivity|].
  destruct (ComputeSpans_spec span_parse span_log [("b", EmptyString)]%string) as [_ Hin]; [range_order_tac|].
  destruct (proj1 (Hin (MkSpan "a" EmptyString 5000000 9000000 4))) as [Hp|(_ & E & _)]; [|exact Hp|discriminate E].
  vm_compute. left.
Defined.
End SearchRun.
