(* ===== verification/FsBackend.v ===== *)
(** * The file system backend (internal/store/backend_fs.go; [ReadFile] of pkg/ndjson)

    A path is the list of its components below the data directory; the file
    system has directories and regular files, and a schedule of the system calls
    that fail.  A file holds a document: the value whose JSON it is, one event per
    line for compact.ndjson, a blob, or what a torn write left.  Parameters:
    [temp_suffix], the end of the name that [os.CreateTemp] picks when it sees the
    names taken; [line_size], the length of the JSON of an event; the times and iteration
    orders that [migrateTaskJSON] meets.  Files are written through AtomicFile. *)

From S2P Require Import Prelude GoStrings GoText TaskModel Backend AtomicFile.
From Stdlib Require Import String.
From stdpp Require Import list gmap pretty.
Local Open Scope Z_scope.
Local Open Scope string_scope.

Abbreviation path := (list string).

(** ** The file system *)

Section disk.
Context `{UUIDLib} (temp_suffix : list string → string).

Inductive doc :=
| DocTask (t : Task)
| DocEvent (e : TaskEvent)
| DocEvents (l : list TaskEvent)
| DocBlob (b : blob)
| DocTorn.

#[export] Instance doc_data : Data doc := {| no_data := DocTorn; cut_data _ _ := DocTorn |}.

(** [Some n] in the schedule: the call fails after [n] units of its work. *)
Record FilesystemBackend := MkFs {
  fs_dirs : gset path;
  fs_files : gmap path (File doc);
  fs_faults : list (option nat)
}.

Definition Sys (A : Type) : Type := FilesystemBackend → result io_error A * FilesystemBackend.

Definition EIO : io_error := ErrIO 5.
Definition ENOTDIR : io_error := ErrIO 20.
Definition EISDIR : io_error := ErrIO 21.
Definition ENOTEMPTY : io_error := ErrIO 39.

(** One system call: [partly n] is the state when it fails. *)
Definition syscall {A} (partly : nat → FilesystemBackend → FilesystemBackend) (f : Sys A) : Sys A := λ b,
  match fs_faults b with
  | Some n :: rest => (Err EIO, partly n (MkFs (fs_dirs b) (fs_files b) rest))
  | faults => f (MkFs (fs_dirs b) (fs_files b) (tail faults))
  end.

Definition nothing (_ : nat) (b : FilesystemBackend) : FilesystemBackend := b.

(** The directories on the way to [p], the root first, [p] last. *)
Definition prefixes (p : path) : list path := (λ n, take n p) <$> seq 0 (S (length p)).

Definition add_dirs (ps : list path) (b : FilesystemBackend) : FilesystemBackend :=
  MkFs (list_to_set ps ∪ fs_dirs b) (fs_files b) (fs_faults b).

Definition is_file (b : FilesystemBackend) (p : path) : bool := bool_decide (is_Some (fs_files b !! p)).

Definition MkdirAll (p : path) : Sys unit :=
  syscall (λ n, add_dirs (take n (prefixes p))) (λ b,
    if existsb (is_file b) (prefixes p) then (Err ENOTDIR, b) else (Ok tt, add_dirs (prefixes p) b)).

(** The name of [q] in the directory [p]. *)
Fixpoint child (p q : path) : option string :=
  match p, q with
  | [], [n] => Some n
  | a :: p, c :: q => if decide (a = c) then child p q else None
  | _, _ => None
  end.

Definition name_le (a c : string * bool) : Prop := string_le a.1 c.1.

#[export] Instance name_le_dec : RelDecision name_le.
Proof. intros a c. unfold name_le. apply _. Defined.

(** The entries of a directory by name, with whether they are directories. *)
Definition entries (p : path) (b : FilesystemBackend) : list (string * bool) :=
  merge_sort name_le
    (omap (λ q, (λ n, (n, true)) <$> child p q) (elements (fs_dirs b)) ++
     omap (λ q, (λ n, (n, false)) <$> child p q) (map_to_list (fs_files b)).*1)%list.

Definition ReadDir (p : path) : Sys (list (string * bool)) :=
  syscall nothing (λ b,
    (if decide (p ∈ fs_dirs b) then Ok (entries p b) else if is_file b p then Err ENOTDIR else Err ErrNotExist, b)).

Definition ReadFile (p : path) : Sys doc :=
  syscall nothing (λ b,
    (match fs_files b !! p with
     | Some f => Ok (f_data f)
     | None => if decide (p ∈ fs_dirs b) then Err EISDIR else Err ErrNotExist
     end, b)).

Definition Stat (p : path) : Sys unit :=
  syscall nothing (λ b, (if is_file b p || bool_decide (p ∈ fs_dirs b) then Ok tt else Err ErrNotExist, b)).

Definition Remove (p : path) : Sys unit :=
  syscall nothing (λ b,
    if is_file b p then (Ok tt, MkFs (fs_dirs b) (delete p (fs_files b)) (fs_faults b))
    else if decide (p ∈ fs_dirs b) then
      if decide (entries p b = []) then (Ok tt, MkFs (fs_dirs b ∖ {[p]}) (fs_files b) (fs_faults b)) else (Err ENOTEMPTY, b)
    else (Err ErrNotExist, b)).

(** The files at or below [p], and the directories that lie in it and have no
    directory of their own. *)
Definition below (p : path) (b : FilesystemBackend) : list path := filter (λ q, p `prefix_of` q) (map_to_list (fs_files b)).*1.

Definition inside (p q : path) : bool := bool_decide (p `prefix_of` q) && negb (bool_decide (p = q)).

Definition leaves (p : path) (b : FilesystemBackend) : list path :=
  filter (λ q, inside p q = true ∧ Forall (λ q', inside q q' = false) (elements (fs_dirs b))) (elements (fs_dirs b)).

(** The elements of [l] that the bits of [n] select. *)
Fixpoint picked (n : nat) (l : list path) : list path :=
  match l with
  | [] => []
  | x :: l => if Nat.odd n then x :: picked (Nat.div2 n) l else picked (Nat.div2 n) l
  end.

(** [os.RemoveAll] removes everything it can: when it fails, any part may be gone. *)
Definition remove_some (p : path) (n : nat) (b : FilesystemBackend) : FilesystemBackend :=
  let files := foldr delete (fs_files b) (picked n (below p b)) in
  let gone := filter (λ d, Forall (λ q, ¬ d `prefix_of` q) (map_to_list files).*1)
                (picked (Nat.shiftr n (length (below p b))) (leaves p b)) in
  MkFs (fs_dirs b ∖ list_to_set gone) files (fs_faults b).

Definition RemoveAll (p : path) : Sys unit :=
  syscall (remove_some p) (λ b,
    (Ok tt, MkFs (filter (λ q, ¬ p `prefix_of` q) (fs_dirs b)) (foldr delete (fs_files b) (below p b)) (fs_faults b))).

Definition atomic_Write (p : path) (d : doc) : Sys unit := λ b,
  let fault k := default None (fs_faults b !! k) in
  let error (k : nat) : option string := (λ _, "EIO") <$> fault k in
  let dir := removelast p in
  let create := if decide (fault 0%nat ≠ None) then Err "EIO"
                else if decide (dir ∈ fs_dirs b) then Ok (dir ++ [".tmp-" +:+ temp_suffix (entries dir b).*1])%list else Err "ENOENT" in
  let o := MkOutcomes create ((λ n, (n, "EIO")) <$> fault 1%nat) None (error 2%nat) (error 3%nat)
             (if decide (p ∈ fs_dirs b) then Some "EISDIR" else error 4%nat) (error 5%nat) in
  let r := Write o p d 420 (fs_files b) in
  (match r.1 with Ok _ => Ok tt | Err e => Err (if decide (e = "ENOENT") then ErrNotExist else EIO) end,
   MkFs (fs_dirs b) (after r (fs_files b)) (drop 6 (fs_faults b))).
End disk.

(** ** The operations *)

Section operations.
Context `{UUIDLib} (temp_suffix : list string → string) (tbl : Z → Z).
Abbreviation atomic_Write := (atomic_Write temp_suffix).
Variables (line_size : TaskEvent → Z) (mod_time : path → Z) (clock : Z) (sandbox_order : Task → list string).
Implicit Types (b : FilesystemBackend) (id : uuid).

Definition task_dir id : path := [uuid_String id].
Definition traces_dir id : path := [uuid_String id; "traces"].
Definition task_path id : path := [uuid_String id; "task.json"].
Definition compact_path id : path := [uuid_String id; "traces"; "compact.ndjson"].
Definition trace_name (seq : Z) : string := zero_padded 4 seq +:+ ".json".
Definition trace_path id (seq : Z) : path := [uuid_String id; "traces"; trace_name seq].
Definition blob_path id (key : string) : path := uuid_String id :: clean_parts key.

Definition parseNumberedTraceFile (name : string) : option Z :=
  if negb (HasSuffix name ".json") then None
  else let base := TrimSuffix name ".json" in
       if decide (base = EmptyString) then None else Atoi base.

Definition NewFilesystemBackend : Sys unit := MkdirAll [].

Definition Init id : Sys unit := MkdirAll (traces_dir id).

Definition SaveTask (t : Task) : Sys unit := atomic_Write (task_path (ID t)) (DocTask t).

(** One entry of the data directory: the task, if it is one. *)
Definition load_task (name : string) b : option Task * FilesystemBackend :=
  let taskPath : path := [name; "task.json"] in
  match ReadFile taskPath b with
  | (Ok (DocTask t), b) =>
    let '(st, b) := Stat taskPath b in
    let '(task, changed) := migrate tbl (sandbox_order t) (if is_ok st then mod_time taskPath else clock) t in
    let b := if changed then (SaveTask task b).2 else b in
    (Some task, b)
  | (_, b) => (None, b)
  end.

Fixpoint load_tasks (es : list (string * bool)) b : list Task * FilesystemBackend :=
  match es with
  | [] => ([], b)
  | (name, isDir) :: rest =>
    if negb isDir then load_tasks rest b
    else match uuid_Parse name with
         | None => load_tasks rest b
         | Some _ =>
           let '(t, b) := load_task name b in
           let '(ts, b) := load_tasks rest b in
           (match t with Some t => t :: ts | None => ts end, b)
         end
  end.

Definition LoadAll : Sys (list Task) := λ b,
  match ReadDir [] b with
  | (Err e, b) => (Err e, b)
  | (Ok es, b) => let '(ts, b) := load_tasks es b in (Ok ts, b)
  end.

Definition RemoveTask id : Sys unit := RemoveAll (task_dir id).

Definition SaveEvent id (seq : Z) (e : TaskEvent) : Sys unit := λ b,
  match MkdirAll (traces_dir id) b with
  | (Err e, b) => (Err e, b)
  | (Ok _, b) => atomic_Write (trace_path id seq) (DocEvent e) b
  end.

(** The scanner gives up on a line that does not fit in its buffer of one megabyte. *)
Definition max_line : Z := 1024 * 1024.
Definition too_long (e : TaskEvent) : bool := Z.leb max_line (line_size e).

(** [ndjson.ReadFile] of the compact file. *)
Definition read_compact id : Sys (list TaskEvent) := λ b,
  match ReadFile (compact_path id) b with
  | (Err ErrNotExist, b) => (Ok [], b)
  | (Err e, b) => (Err e, b)
  | (Ok (DocEvents l), b) => (if existsb too_long l then Err (ErrIO 7) else Ok l, b)
  | (Ok _, b) => (Ok [], b)
  end.

Definition max_id (l : list TaskEvent) : Z := foldl (λ m e, if Z.ltb m (ev_ID e) then ev_ID e else m) 0 l.

(** The numbered files beyond the boundary of the compact one. *)
Fixpoint merge_traces id (boundary : Z) (es : list (string * bool)) (evs : list TaskEvent) (maxSeq : Z) b
  : list TaskEvent * Z * FilesystemBackend :=
  match es with
  | [] => (evs, maxSeq, b)
  | (name, isDir) :: rest =>
    match (if isDir then None else parseNumberedTraceFile name) with
    | Some seq =>
      if Z.leb seq boundary then merge_traces id boundary rest evs maxSeq b
      else match ReadFile (traces_dir id ++ [name])%list b with
           | (Ok (DocEvent e), b) => merge_traces id boundary rest (evs ++ [e])%list (if Z.ltb maxSeq seq then seq else maxSeq) b
           | (_, b) => merge_traces id boundary rest evs maxSeq b
           end
    | None => merge_traces id boundary rest evs maxSeq b
    end
  end.

Definition event_le (a c : TaskEvent) : Prop := ev_ID a <= ev_ID c.

#[export] Instance event_le_dec : RelDecision event_le.
Proof. intros a c. unfold event_le. apply _. Defined.

Definition LoadEvents id : Sys (list TaskEvent * Z) := λ b,
  match ReadDir (traces_dir id) b with
  | (Err ErrNotExist, b) => (Ok ([], 0), b)
  | (Err e, b) => (Err e, b)
  | (Ok traceEntries, b) =>
    match read_compact id b with
    | (Err e, b) => (Err e, b)
    | (Ok events, b) =>
      let '(evs, maxSeq, b) := merge_traces id (max_id events) traceEntries events (max_id events) b in
      (Ok (merge_sort event_le evs, maxSeq), b)
    end
  end.

Fixpoint remove_covered id (maxID : Z) (es : list (string * bool)) b : FilesystemBackend :=
  match es with
  | [] => b
  | (name, isDir) :: rest =>
    match (if isDir then None else parseNumberedTraceFile name) with
    | Some seq => remove_covered id maxID rest (if Z.ltb maxID seq then b else (Remove (traces_dir id ++ [name])%list b).2)
    | None => remove_covered id maxID rest b
    end
  end.

Definition CompactEvents id (events : list TaskEvent) : Sys unit := λ b,
  match ReadDir (traces_dir id) b with
  | (Err ErrNotExist, b) => (Ok tt, b)
  | (Err e, b) => (Err e, b)
  | (Ok dirEntries, b) =>
    match atomic_Write (compact_path id) (DocEvents events) b with
    | (Err e, b) => (Err e, b)
    | (Ok _, b) => (Ok tt, remove_covered id (max_id events) dirEntries b)
    end
  end.

Definition SaveBlob id (key : string) (data : blob) : Sys unit := λ b,
  match MkdirAll (removelast (blob_path id key)) b with
  | (Err e, b) => (Err e, b)
  | (Ok _, b) => atomic_Write (blob_path id key) (DocBlob data) b
  end.

Definition ReadBlob id (key : string) : Sys doc := ReadFile (blob_path id key).

Definition DeleteBlob id (key : string) : Sys unit := Remove (blob_path id key).

(** [filepath.Dir] and [filepath.Base] of a prefix; one ending in a slash is a directory. *)
Definition ListBlobs id (prefix : string) : Sys (list string) := λ b,
  let '(dirPart, filePrefix) :=
    if HasSuffix prefix sl then (TrimSuffix prefix sl, EmptyString) else (path_Dir prefix, path_Base prefix) in
  match ReadDir (blob_path id dirPart) b with
  | (Err ErrNotExist, b) => (Ok [], b)
  | (Err e, b) => (Err e, b)
  | (Ok es, b) =>
    (Ok (omap (λ '(name, isDir),
       if isDir || (negb (bool_decide (filePrefix = EmptyString)) && negb (HasPrefix name filePrefix)) then None
       else Some (path_Join [dirPart; name])) es), b)
  end.

Fixpoint owners_of (key : string) (es : list (string * bool)) b : list uuid * FilesystemBackend :=
  match es with
  | [] => ([], b)
  | (name, isDir) :: rest =>
    match (if isDir then uuid_Parse name else None) with
    | None => owners_of key rest b
    | Some id =>
      let '(st, b) := Stat (name :: clean_parts key) b in
      let '(ids, b) := owners_of key rest b in
      (if is_ok st then id :: ids else ids, b)
    end
  end.

Definition ListBlobOwners (key : string) : Sys (list uuid) := λ b,
  match ReadDir [] b with
  | (Err e, b) => (Err e, b)
  | (Ok es, b) => let '(ids, b) := owners_of key es b in (Ok ids, b)
  end.
End operations.
