(* ===== verification/FsBackendSpec.v ===== *)
(** * The file system backend keeps the promises of the storage interface

    [represents] relates a state of the file system to the contents of Backend;
    the lemmas here say what each operation does to them, whatever system calls fail.
    FsRefines puts them together as a simulation. *)

From S2P Require Import Prelude GoStrings GoText TaskModel Backend AtomicFile StoreEvents FsBackend.
From Stdlib Require Import String Ascii.
From stdpp Require Import list gmap pretty.
Local Open Scope Z_scope.
Local Open Scope string_scope.

(** ** Names *)

Lemma trim_suffix_app s p : TrimSuffix (s +:+ p) p = s.
Proof.
  unfold TrimSuffix. rewrite (proj2 (HasSuffix_iff (s +:+ p) p)) by eauto. rewrite slice_to; [done|]. rewrite len_app. lia.
Qed.

Lemma zero_padded_ne w z : 0 <= z < 2 ^ 63 → zero_padded w z ≠ EmptyString.
Proof. intros Hz E. pose proof (Atoi_zero_padded w z Hz) as Ha. by rewrite E in Ha. Qed.

(** The name of a numbered trace gives its number back. *)
Lemma parse_trace_name seq : 0 <= seq < 2 ^ 63 → parseNumberedTraceFile (trace_name seq) = Some seq.
Proof.
  intros Hs. unfold parseNumberedTraceFile, trace_name. rewrite (proj2 (HasSuffix_iff _ _)) by eauto. cbn [negb].
  rewrite trim_suffix_app, decide_False by (by apply zero_padded_ne). by apply Atoi_zero_padded.
Qed.

Lemma trace_name_inj a c : 0 <= a < 2 ^ 63 → 0 <= c < 2 ^ 63 → trace_name a = trace_name c → a = c.
Proof. intros Ha Hc E. apply (f_equal parseNumberedTraceFile) in E. rewrite !parse_trace_name in E by done. by injection E. Qed.

Lemma digits_none l : foldl add_digit None l = None.
Proof. by induction l. Qed.

(** A temporary file is not taken for a trace. *)
Lemma parse_temp s : parseNumberedTraceFile (".tmp-" +:+ s) = None.
Proof.
  unfold parseNumberedTraceFile. destruct (HasSuffix _ _) eqn:E; [|done]. cbn [negb]. apply HasSuffix_iff in E as [r E]. rewrite E, trim_suffix_app.
  case_decide; [done|]. destruct r as [|a r]; [done|].
  assert (a = "."%char) as -> by (by injection E). unfold Atoi. change (bytes (String "." r)) with (46 :: bytes r). cbn [digits_value foldl].
  change (add_digit (Some 0) 46) with (@None Z). by rewrite digits_none.
Qed.

(** ** Directories *)

Lemma child_spec p q n : child p q = Some n ↔ q = (p ++ [n])%list.
Proof.
  revert q. induction p as [|a p IH]; intros [|c q]; simpl.
  - done.
  - destruct q; naive_solver.
  - done.
  - case_decide as E; [subst; rewrite IH; naive_solver|naive_solver].
Qed.

Section entries.
Context `{UUIDLib}.
Implicit Types (b : FilesystemBackend) (p q : path) (n : string).

Lemma elem_entries p b n (d : bool) : (n, d) ∈ entries p b ↔
  if d then (p ++ [n])%list ∈ fs_dirs b else is_Some (fs_files b !! (p ++ [n])%list).
Proof.
  unfold entries. rewrite merge_sort_Permutation, elem_of_app, !list_elem_of_omap. split.
  - intros [(q & Hq & Hn)|(q & Hq & Hn)]; destruct (child p q) as [m|] eqn:E; simplify_eq/=; apply child_spec in E as ->.
    + by apply elem_of_elements.
    + apply list_elem_of_fmap in Hq as ([q f] & -> & Hq%elem_of_map_to_list). simpl. eauto.
  - destruct d; [left|right]; exists (p ++ [n])%list; (split; [|by rewrite (proj2 (child_spec _ _ n))]).
    + by apply elem_of_elements.
    + destruct H0 as [f Hf]. apply list_elem_of_fmap. exists ((p ++ [n])%list, f). split; [done|]. by apply elem_of_map_to_list.
Qed.

Lemma elem_prefixes q p : q ∈ prefixes p ↔ q `prefix_of` p.
Proof.
  unfold prefixes. rewrite list_elem_of_fmap. split.
  - intros (n & -> & _). exists (drop n p). by rewrite take_drop.
  - intros [k ->]. exists (length q). rewrite take_app_length. split; [done|]. apply elem_of_seq. rewrite length_app. lia.
Qed.
End entries.

(** ** What a state of the file system represents *)

Section represents.
Context `{UUIDLib} (line_size : TaskEvent → Z).
Implicit Types (b : FilesystemBackend) (p q dir : path) (n k : string) (id : uuid) (e : TaskEvent) (c : contents).

Definition temp_file n : Prop := ∃ s, n = ".tmp-" +:+ s.

Definition outputs_dir id : path := [uuid_String id; "outputs"].

(** The keys of blobs: a file of the task directory or of its outputs, in the
    clean spelling. *)
Definition blob_key k : Prop := (strings_Join (clean_parts k) sl = k) ∧
  ((∃ n, clean_parts k = [n] ∧ (n ∉ ["task.json"; "traces"; "outputs"]) ∧ ¬ temp_file n) ∨
   (∃ n, clean_parts k = ["outputs"; n] ∧ ¬ temp_file n)).

(** An event that can be read back. *)
Definition event_ok e : Prop := 0 < ev_ID e < 2 ^ 63 ∧ too_long line_size e = false.

Definition before (e e' : TaskEvent) : Prop := ev_ID e < ev_ID e'.

(** A file in its place. *)
Inductive file_ok id : path → doc → Prop :=
| ok_task t : ID t = id → file_ok id (task_path id) (DocTask t)
| ok_compact l : StronglySorted before l → Forall event_ok l → file_ok id (compact_path id) (DocEvents l)
| ok_trace e : event_ok e → file_ok id (trace_path id (ev_ID e)) (DocEvent e)
| ok_blob k x : blob_key k → file_ok id (blob_path id k) (DocBlob x)
| ok_temp dir n d : temp_file n → dir ∈ [task_dir id; traces_dir id; outputs_dir id] → file_ok id (dir ++ [n]) d.

Record fs_wf b : Prop := {
  wf_root : [] ∈ fs_dirs b;
  wf_closed p q : p ∈ fs_dirs b → q `prefix_of` p → q ∈ fs_dirs b;
  wf_parent p f : fs_files b !! p = Some f → removelast p ∈ fs_dirs b;
  wf_names n id : [n] ∈ fs_dirs b → uuid_Parse n = Some id → n = uuid_String id;
  wf_dirs p : p ∈ fs_dirs b → p = [] ∨ ∃ n, p = [n] ∨ p = [n; "traces"] ∨ p = [n; "outputs"];
  wf_files p f : fs_files b !! p = Some f → ∃ id, file_ok id p (f_data f)
}.

Definition holds b p (d : doc) : Prop := ∃ m, fs_files b !! p = Some (MkFile d m).

Definition compacted b id : list TaskEvent :=
  match fs_files b !! compact_path id with Some (MkFile (DocEvents l) _) => l | _ => [] end.

Definition numbered_file id (pf : path * File doc) : option (Z * TaskEvent) :=
  match child (traces_dir id) pf.1, f_data pf.2 with Some n, DocEvent e => (λ seq, (seq, e)) <$> parseNumberedTraceFile n | _, _ => None end.

Definition numbered b id : gmap Z TaskEvent :=
  list_to_map (omap (numbered_file id) (map_to_list (fs_files b))).

(** The compact file, and the numbered ones beyond it. *)
Definition events_of b id : gmap Z TaskEvent :=
  list_to_map ((λ e, (ev_ID e, e)) <$> compacted b id) ∪ filter (λ kv, max_id (compacted b id) < kv.1) (numbered b id).

(** What the caller keeps in mind: the tasks that have a directory, and how far
    each was compacted. *)
Record ledger := MkLedger { ready : gset uuid; boundary : uuid → Z }.

Record represents b c (g : ledger) : Prop := {
  rp_wf : fs_wf b;
  rp_tasks id t : c_tasks c !! id = Some t ↔ holds b (task_path id) (DocTask t);
  rp_events id : events_at c id = events_of b id;
  rp_blobs id k d : c_blobs c !! (id, k) = Some d ↔ blob_key k ∧ holds b (blob_path id k) (DocBlob d);
  rp_ready id : id ∈ ready g → task_dir id ∈ fs_dirs b;
  rp_boundary id : max_id (compacted b id) <= boundary g id
}.

Lemma iff_under (P Q R : Prop) : (P → Q ↔ R) → (P ∧ Q) ↔ (P ∧ R).
Proof. tauto. Qed.

(** *** Places *)

Lemma uuid_text_inj (x y : uuid) : uuid_String x = uuid_String y → x = y.
Proof. intros E. apply (f_equal uuid_Parse) in E. rewrite !uuid_Parse_String in E. by injection E. Qed.

Lemma blob_path_inj id id' k k' : blob_key k → blob_key k' → blob_path id k = blob_path id' k' → id = id' ∧ k = k'.
Proof. intros [Hk _] [Hk' _] E. injection E as E1%uuid_text_inj E2. split; [done|]. by rewrite <-Hk, <-Hk', E2. Qed.

Lemma trace_not_temp seq : 0 <= seq < 2 ^ 63 → ¬ temp_file (trace_name seq).
Proof. intros Hs [s E]. pose proof (parse_trace_name seq Hs) as Hp. by rewrite E, parse_temp in Hp. Qed.

Lemma trace_not_compact seq : 0 <= seq < 2 ^ 63 → trace_name seq ≠ "compact.ndjson".
Proof. intros Hs E. pose proof (parse_trace_name seq Hs) as Hp. rewrite E in Hp. vm_compute in Hp. done. Qed.

Lemma file_event id p e : file_ok id p (DocEvent e) → (p = trace_path id (ev_ID e) ∧ event_ok e) ∨ ∃ dir n, p = (dir ++ [n])%list ∧ temp_file n.
Proof. inversion 1; subst; eauto. Qed.

(** A numbered file that holds an event holds the one of its number. *)
Lemma trace_named b id n seq e m : fs_wf b → fs_files b !! (traces_dir id ++ [n])%list = Some (MkFile (DocEvent e) m) →
  parseNumberedTraceFile n = Some seq → ev_ID e = seq ∧ event_ok e ∧ n = trace_name seq.
Proof.
  intros Hwf Hp Ex. destruct (wf_files _ Hwf _ _ Hp) as [id' [[E Hok]|(dir & n' & E & s & ->)]%file_event].
  - injection E as _ ->. assert (0 <= ev_ID e < 2 ^ 63) as Hr by (destruct Hok; lia). rewrite (parse_trace_name _ Hr) in Ex. by simplify_eq.
  - apply (f_equal last) in E. rewrite !last_snoc in E. injection E as ->. by rewrite parse_temp in Ex.
Qed.

Lemma numbered_elem b id seq e : fs_wf b →
  (seq, e) ∈ omap (numbered_file id) (map_to_list (fs_files b)) ↔ ev_ID e = seq ∧ event_ok e ∧ holds b (trace_path id seq) (DocEvent e).
Proof.
  intros Hwf. rewrite list_elem_of_omap. unfold numbered_file. split.
  - intros ([p [d m]] & Hp%elem_of_map_to_list & Hs). cbn [fst snd f_data] in Hs. destruct (child (traces_dir id) p) as [n|] eqn:En; [|done].
    apply child_spec in En as ->. destruct d as [| e' | | |]; try done. destruct (parseNumberedTraceFile n) as [x|] eqn:Ex; [|done].
    injection Hs as -> ->. destruct (trace_named _ _ _ _ _ _ Hwf Hp Ex) as (E & Hok & ->). split; [done|]. split; [done|]. by exists m.
  - intros (<- & Hok & m & Hm). exists (trace_path id (ev_ID e), MkFile (DocEvent e) m). split; [by apply elem_of_map_to_list|]. cbn [fst snd f_data].
    rewrite (proj2 (child_spec (traces_dir id) _ (trace_name (ev_ID e)))) by done. rewrite parse_trace_name; [done|]. destruct Hok. lia.
Qed.

Lemma trace_file_lookup b id seq e : fs_wf b →
  numbered b id !! seq = Some e ↔ ev_ID e = seq ∧ event_ok e ∧ holds b (trace_path id seq) (DocEvent e).
Proof.
  intros Hwf. rewrite <-numbered_elem by done. unfold numbered. split; [apply elem_of_list_to_map_2|]. intros He.
  apply elem_of_list_to_map_1'; [|done]. intros e'. rewrite numbered_elem in He |- * by done. destruct He as (_ & _ & m & Hm). intros (_ & _ & m' & Hm').
  congruence.
Qed.

(** The events in the compact file are in order, so that its last number bounds them. *)
Lemma compacted_ok b id : fs_wf b → StronglySorted before (compacted b id) ∧ Forall event_ok (compacted b id).
Proof.
  intros Hwf. unfold compacted. destruct (fs_files b !! compact_path id) as [[d m]|] eqn:E; [|by split; constructor].
  destruct d; try (split; constructor). apply (wf_files _ Hwf) in E as [id' E]. simpl in E. inversion E; subst; [done|].
  match goal with Hd : (_ ++ [_])%list = compact_path id, Hn : temp_file _ |- _ =>
    apply (f_equal last) in Hd; rewrite last_snoc in Hd; destruct Hn as [s ->]; done end.
Qed.

Lemma max_id_from l m : m <= foldl (λ m e, if Z.ltb m (ev_ID e) then ev_ID e else m) m l.
Proof. revert m. induction l as [|x l IH]; intros m; [done|]. cbn [foldl]. etrans; [|apply IH]. destruct (Z.ltb_spec m (ev_ID x)); lia. Qed.

Lemma max_id_nonneg l : 0 <= max_id l.
Proof. apply max_id_from. Qed.

Lemma max_id_bound l e : e ∈ l → ev_ID e <= max_id l.
Proof.
  unfold max_id. generalize 0. induction l as [|x l IH]; intros m He; [by apply not_elem_of_nil in He|]. cbn [foldl].
  apply elem_of_cons in He as [-> |He]; [|by apply IH]. etrans; [|apply max_id_from]. destruct (Z.ltb_spec m (ev_ID x)); lia.
Qed.

Lemma before_unique l e e' : StronglySorted before l → e ∈ l → e' ∈ l → ev_ID e = ev_ID e' → e = e'.
Proof.
  induction 1 as [|x l _ IH Hx]; [by intros ?%not_elem_of_nil|]. rewrite Forall_forall in Hx. unfold before in Hx.
  intros [-> |He]%elem_of_cons [-> |He']%elem_of_cons E; [done| | |by apply IH]; [apply Hx in He'|apply Hx in He]; lia.
Qed.

Lemma events_lookup b id seq e : fs_wf b → events_of b id !! seq = Some e ↔
  (e ∈ compacted b id ∧ ev_ID e = seq) ∨
  (max_id (compacted b id) < seq ∧ ev_ID e = seq ∧ event_ok e ∧ holds b (trace_path id seq) (DocEvent e)).
Proof.
  intros Hwf. destruct (compacted_ok b id Hwf) as [Hs Hok]. unfold events_of. rewrite lookup_union_Some_raw, map_lookup_filter_Some, trace_file_lookup by done.
  set (l := compacted b id) in *.
  assert (∀ x y, (list_to_map ((λ e, (ev_ID e, e)) <$> l) : gmap Z TaskEvent) !! x = Some y ↔ y ∈ l ∧ ev_ID y = x) as Hl.
  { intros x y. split.
    - intros Hx%elem_of_list_to_map_2. apply list_elem_of_fmap in Hx as (z & [= -> ->] & Hz). done.
    - intros [Hy <-]. apply elem_of_list_to_map_1'; [|apply list_elem_of_fmap; eauto].
      intros z Hz. apply list_elem_of_fmap in Hz as (z' & [= Ez ->] & Hz'). by eapply before_unique. }
  rewrite Hl. simpl. split; [intros [?|[_ ?]]; [by left|right; tauto]|]. intros [?|(Hm & ?)]; [by left|right]. split; [|tauto].
  apply eq_None_not_Some. intros [y [Hy Ey]%Hl]. apply max_id_bound in Hy. lia.
Qed.

Lemma max_id_attained l : max_id l = 0 ∨ ∃ e, e ∈ l ∧ ev_ID e = max_id l.
Proof.
  unfold max_id. generalize 0. induction l as [|x l IH]; intros m; [by left|]. cbn [foldl].
  destruct (IH (if Z.ltb m (ev_ID x) then ev_ID x else m)) as [->|(e & He & E)]; [|right; exists e; split; [by right|done]].
  destruct (Z.ltb_spec m (ev_ID x)); [|by left]. right. exists x. split; [by left|done].
Qed.

Lemma max_id_le b id : fs_wf b → max_id (compacted b id) <= max_seq (events_of b id).
Proof.
  intros Hwf. destruct (max_id_attained (compacted b id)) as [->|(e & He & <-)]; [apply max_seq_nonneg|].
  apply (max_seq_ge _ _ e). apply events_lookup; auto.
Qed.

Lemma events_keyed b id : fs_wf b → keyed (events_of b id).
Proof.
  intros Hwf k e He. apply events_lookup in He; [|done]. destruct He as [[He <-]|(_ & <- & Hok & _)]; [|destruct Hok; lia].
  destruct (compacted_ok b id Hwf) as [_ Hok]. rewrite Forall_forall in Hok. apply Hok in He. destruct He. lia.
Qed.

Lemma elem_sorted_filter (M : gmap Z TaskEvent) (n : Z) e : keyed M →
  e ∈ sorted_events (filter (λ kv, kv.1 <= n) M) ↔ M !! ev_ID e = Some e ∧ ev_ID e <= n.
Proof.
  intros Hk. unfold sorted_events. rewrite merge_sort_Permutation, list_elem_of_fmap. split.
  - intros ([k x] & -> & Hx%elem_of_map_to_list). apply map_lookup_filter_Some in Hx as [Hx Hn]. simpl in *.
    by destruct (Hk _ _ Hx) as [-> _].
  - intros [He Hn]. exists (ev_ID e, e). split; [done|]. apply elem_of_map_to_list, map_lookup_filter_Some. done.
Qed.

(** *** Changes that keep the representation *)

Definition is_temp p : Prop := ∃ s, last p = Some (".tmp-" +:+ s).

Definition dir_of id dir : Prop := dir = task_dir id ∨ dir = traces_dir id ∨ dir = outputs_dir id.

Lemma file_place id p d : file_ok id p d → ∃ dir n, p = (dir ++ [n])%list ∧ dir_of id dir.
Proof.
  unfold dir_of. destruct 1 as [t Ht|l Hl Hok|e Hok|k x [_ [(n & E & _)|(n & E & _)]]|dir n d Hn Hd].
  - exists (task_dir id), "task.json". auto.
  - exists (traces_dir id), "compact.ndjson". auto.
  - exists (traces_dir id), (trace_name (ev_ID e)). auto.
  - exists (task_dir id), n. unfold blob_path. rewrite E. auto.
  - exists (outputs_dir id), n. unfold blob_path. rewrite E. auto.
  - exists dir, n. split; [done|]. set_solver.
Qed.

(** A file that is not a temporary one is not where a directory can be. *)
Lemma file_not_dir b id p d : fs_wf b → file_ok id p d → ¬ is_temp p → p ∉ fs_dirs b.
Proof.
  intros Hwf Hp Ht Hd. apply (wf_dirs _ Hwf) in Hd.
  destruct Hp as [t E|l Hl Hok|e Hok|k x [_ [(n & E & Hn & _)|(n & E & Hn)]]|dir n d Hn Hdir].
  - destruct Hd as [?|(? & [?|[?|?]])]; done.
  - destruct Hd as [?|(? & [?|[?|?]])]; done.
  - destruct Hd as [?|(? & [?|[?|?]])]; done.
  - unfold blob_path in Hd. rewrite E in Hd. destruct Hd as [?|(? & [?|[?|?]])]; simplify_eq; set_solver.
  - unfold blob_path in Hd. rewrite E in Hd. destruct Hd as [?|(? & [?|[?|?]])]; done.
  - apply Ht. destruct Hn as [s ->]. exists s. apply last_snoc.
Qed.

Lemma wf_files_change b b' : fs_wf b → fs_dirs b' = fs_dirs b →
  (∀ q f, fs_files b' !! q = Some f → fs_files b !! q = Some f ∨ (∃ id, file_ok id q (f_data f)) ∧ removelast q ∈ fs_dirs b) → fs_wf b'.
Proof.
  intros [W1 W2 W3 W4 W5 W6] Ed Hf. split; rewrite ?Ed; try done.
  - intros p f [Hp|[_ Hp]]%Hf; eauto.
  - intros p f [Hp|[Hp _]]%Hf; eauto.
Qed.

(** The files that count are the same, but for one. *)
Definition same_but (P : path → Prop) b b' : Prop := ∀ q, ¬ is_temp q → ¬ P q → fs_files b' !! q = fs_files b !! q.

Lemma same_holds P b b' q d : same_but P b b' → ¬ is_temp q → ¬ P q → holds b' q d ↔ holds b q d.
Proof. intros Hs Ht Hp. unfold holds. by rewrite Hs. Qed.

Lemma task_path_not_temp id : ¬ is_temp (task_path id).
Proof. by intros [s [=]]. Qed.

Lemma compact_path_not_temp id : ¬ is_temp (compact_path id).
Proof. by intros [s [=]]. Qed.

Lemma trace_path_not_temp id seq : 0 <= seq < 2 ^ 63 → ¬ is_temp (trace_path id seq).
Proof. intros Hs [s [= E]]. apply (trace_not_temp seq Hs). by exists s. Qed.

Lemma blob_path_not_temp id k : blob_key k → ¬ is_temp (blob_path id k).
Proof.
  intros [_ [(n & E & _ & Hn)|(n & E & Hn)]] [s Hs]; unfold blob_path in Hs; rewrite E in Hs; injection Hs as ->; apply Hn; by exists s.
Qed.

Lemma same_events P b b' id : fs_wf b → fs_wf b' → same_but P b b' → (∀ n, ¬ P (traces_dir id ++ [n])%list) → events_of b' id = events_of b id.
Proof.
  intros Hwf Hwf' Hs Hp. apply map_eq. intros seq. apply option_eq. intros e. rewrite !events_lookup by done.
  assert (compacted b' id = compacted b id) as ->.
  { unfold compacted. rewrite Hs; [done|apply compact_path_not_temp|apply (Hp "compact.ndjson")]. }
  split; (intros [?|(? & <- & Hok & Hh)]; [by left|right; do 3 (split; [done|])]); revert Hh;
    (rewrite (same_holds P b b'); [done..|apply trace_path_not_temp; destruct Hok; lia|apply (Hp (trace_name _))]).
Qed.

Lemma blob_not_task id id' k : blob_key k → blob_path id k ≠ task_path id'.
Proof. intros [_ [(n & E & Hn & _)|(n & E & _)]]; unfold blob_path; rewrite E; [|done]. intros [= _ ->]. set_solver. Qed.

Lemma blob_not_trace id id' k n : blob_key k → blob_path id k ≠ (traces_dir id' ++ [n])%list.
Proof. intros [_ [(m & E & _)|(m & E & _)]]; unfold blob_path; by rewrite E. Qed.

Lemma trace_inj id id' n n' : (traces_dir id ++ [n])%list = (traces_dir id' ++ [n'])%list → id = id' ∧ n = n'.
Proof. intros [= E%uuid_text_inj ->]. done. Qed.

Lemma same_compacted P b b' id : same_but P b b' → (¬ P (compact_path id)) → compacted b' id = compacted b id.
Proof. intros Hs Hp. unfold compacted. rewrite Hs; [done|apply compact_path_not_temp|done]. Qed.

Lemma rep_same b b' c g : represents b c g → fs_wf b' → same_but (λ _, False) b b' → fs_dirs b ⊆ fs_dirs b' → represents b' c g.
Proof.
  intros [R1 R2 R3 R4 R5 R6] Hwf Hs Hd. split; [done|..].
  - intros id t. rewrite R2. symmetry. apply (same_holds _ _ _ _ _ Hs); [apply task_path_not_temp|tauto].
  - intros id. rewrite R3. symmetry. eapply same_events; eauto.
  - intros id k d. rewrite R4. apply iff_under. intros Hk. symmetry. apply (same_holds _ _ _ _ _ Hs); [by apply blob_path_not_temp|tauto].
  - intros id Hi. by apply Hd, R5.
  - intros id. rewrite (same_compacted _ _ _ _ Hs) by tauto. apply R6.
Qed.

Lemma same_insert p f b b' : fs_files b' = <[p := f]> (fs_files b) → same_but (eq p) b b'.
Proof. intros E q _ Hq. by rewrite E, lookup_insert_ne. Qed.

Lemma holds_insert p d m b b' q d' : fs_files b' = <[p := MkFile d m]> (fs_files b) →
  holds b' q d' ↔ if decide (p = q) then d = d' else holds b q d'.
Proof.
  intros E. unfold holds. rewrite E. case_decide; [subst; rewrite lookup_insert_eq; naive_solver|by rewrite lookup_insert_ne].
Qed.

Section put.
Context b b' c g (m : Z) (Hr : represents b c g) (Hwf : fs_wf b') (Hd : fs_dirs b ⊆ fs_dirs b').

Lemma rep_task t : fs_files b' = <[task_path (ID t) := MkFile (DocTask t) m]> (fs_files b) → represents b' (put_task t c) g.
Proof.
  intros Hf. pose proof (same_insert _ _ _ _ Hf) as Hs. destruct Hr as [R1 R2 R3 R4 R5 R6]. split; [done|..].
  - intros id t'. rewrite (holds_insert _ _ _ _ _ _ _ Hf). simpl. case_decide as E.
    + injection E as <-%uuid_text_inj. rewrite lookup_insert_eq. naive_solver.
    + rewrite lookup_insert_ne by congruence. apply R2.
  - intros id. change (events_at (put_task t c) id) with (events_at c id). rewrite R3. symmetry. by eapply same_events.
  - intros id k d. simpl. rewrite R4. apply iff_under. intros Hk.
    rewrite (holds_insert _ _ _ _ _ _ _ Hf), decide_False; [done|]. intros E. by apply (blob_not_task id (ID t) k Hk).
  - intros id Hi. by apply Hd, R5.
  - intros id. by rewrite (same_compacted _ _ _ _ Hs).
Qed.

Lemma rep_blob id k d : blob_key k → fs_files b' = <[blob_path id k := MkFile (DocBlob d) m]> (fs_files b) → represents b' (put_blob id k d c) g.
Proof.
  intros Hk Hf. pose proof (same_insert _ _ _ _ Hf) as Hs. destruct Hr as [R1 R2 R3 R4 R5 R6]. split; [done|..].
  - intros id' t'. rewrite (holds_insert _ _ _ _ _ _ _ Hf), decide_False by (by apply blob_not_task). apply R2.
  - intros id'. change (events_at (put_blob id k d c) id') with (events_at c id'). rewrite R3. symmetry. eapply same_events; [done..|].
    intros n. by apply blob_not_trace.
  - intros id' k' d'. simpl. rewrite (holds_insert _ _ _ _ _ _ _ Hf). destruct (decide ((id, k) = (id', k'))) as [[= <- <-]|Hne].
    + rewrite lookup_insert_eq, decide_True by done. naive_solver.
    + rewrite lookup_insert_ne, R4 by done. apply iff_under. intros Hk'. rewrite decide_False; [done|].
      intros [-> ->]%blob_path_inj; done.
  - intros id' Hi. by apply Hd, R5.
  - intros id'. rewrite (same_compacted _ _ _ _ Hs); [done|]. by apply (blob_not_trace id id' k "compact.ndjson").
Qed.

Lemma rep_event id seq e : ev_ID e = seq → event_ok e → max_seq (events_at c id) < seq →
  fs_files b' = <[trace_path id seq := MkFile (DocEvent e) m]> (fs_files b) → represents b' (put_event id seq e c) g.
Proof.
  intros Ei Hok Hseq Hf. pose proof (same_insert _ _ _ _ Hf) as Hs. destruct Hr as [R1 R2 R3 R4 R5 R6].
  assert (∀ id', compacted b' id' = compacted b id') as Hc.
  { intros id'. apply (same_compacted _ _ _ _ Hs). intros [_ E]%(trace_inj id id' _ "compact.ndjson"). apply (trace_not_compact seq); [destruct Hok; lia|done]. }
  split; [done|..].
  - intros id' t'. rewrite (holds_insert _ _ _ _ _ _ _ Hf), decide_False by done. apply R2.
  - intros id'. rewrite events_at_put_event, !R3. apply map_eq. intros k. apply option_eq. intros x.
    rewrite (events_lookup b') by done. rewrite Hc, (holds_insert _ _ _ _ _ _ _ Hf). case_decide as E.
    + subst id'. destruct (decide (k = seq)) as [->|Hne].
      * rewrite lookup_insert_eq. assert (max_id (compacted b id) < seq) by (rewrite R3 in Hseq; pose proof (max_id_le b id R1); lia).
        rewrite decide_True by done. split; [intros [= <-]; right; auto|]. intros [[Hx Ex]|(_ & _ & _ & [= ->])]; [|done].
        apply max_id_bound in Hx. lia.
      * rewrite lookup_insert_ne by done. rewrite events_lookup by done. apply or_iff_compat_l, iff_under. intros _. apply iff_under. intros Ex. apply iff_under. intros Hx.
        rewrite decide_False; [done|]. intros [_ ?%trace_name_inj]%trace_inj; [congruence| |]; [destruct Hok; lia|destruct Hx; lia].
    + rewrite events_lookup by done. rewrite decide_False; [done|]. intros [? _]%trace_inj. congruence.
  - intros id' k d. simpl. rewrite R4. apply iff_under. intros Hk.
    rewrite (holds_insert _ _ _ _ _ _ _ Hf), decide_False; [done|]. intros E. by apply (blob_not_trace id' id k (trace_name seq) Hk).
  - intros id' Hi. by apply Hd, R5.
  - intros id'. by rewrite Hc.
Qed.

(** The new compact file holds what the old one and the numbered files up to [n] held. *)
Lemma rep_compact id (n : Z) : boundary g id <= n →
  fs_files b' = <[compact_path id := MkFile (DocEvents (sorted_events (filter (λ kv, kv.1 <= n) (events_at c id)))) m]> (fs_files b) →
  let evs := sorted_events (filter (λ kv, kv.1 <= n) (events_at c id)) in
  represents b' c (MkLedger (ready g) (λ x, if decide (x = id) then Z.max (boundary g id) (max_id evs) else boundary g x)).
Proof.
  intros Hn Hf evs. pose proof (same_insert _ _ _ _ Hf) as Hs. destruct Hr as [R1 R2 R3 R4 R5 R6]. fold evs in Hf.
  assert (compacted b' id = evs) as Hc by (unfold compacted; by rewrite Hf, lookup_insert_eq).
  assert (∀ e, e ∈ evs ↔ events_of b id !! ev_ID e = Some e ∧ ev_ID e <= n) as Hevs.
  { intros e. unfold evs. rewrite R3. apply elem_sorted_filter. by apply events_keyed. }
  assert (max_id evs <= n) as Hmax.
  { destruct (max_id_attained evs) as [->|(e & [_ He]%Hevs & <-)]; [|done]. pose proof (max_id_nonneg (compacted b id)). specialize (R6 id). lia. }
  assert (∀ id', id' ≠ id → compacted b' id' = compacted b id') as Hc'.
  { intros id' Hne. apply (same_compacted _ _ _ _ Hs). intros [? _]%(trace_inj id id' "compact.ndjson" "compact.ndjson"). congruence. }
  split; [done|..].
  - intros id' t'. rewrite (holds_insert _ _ _ _ _ _ _ Hf), decide_False by done. apply R2.
  - intros id'. rewrite R3. destruct (decide (id' = id)) as [->|Hne].
    2: { symmetry. eapply same_events; [done..|]. intros k [? _]%(trace_inj id id' "compact.ndjson"). congruence. }
    apply map_eq. intros k. apply option_eq. intros x. rewrite (events_lookup b'), Hc by done.
    assert (∀ d, event_ok x → ev_ID x = k → holds b' (trace_path id k) d ↔ holds b (trace_path id k) d) as Htr.
    { intros d Hx Ex. apply (same_holds _ _ _ _ _ Hs); [apply trace_path_not_temp; destruct Hx; lia|].
      intros [_ E]%(trace_inj id id "compact.ndjson" (trace_name k)). apply (trace_not_compact k); [destruct Hx; lia|done]. }
    split.
    + intros Hx. destruct (decide (k <= n)) as [Hk|Hk]; [|right].
      * left. rewrite Hevs. assert (ev_ID x = k) as <- by (by apply (events_keyed b id R1) in Hx as [? _]). done.
      * apply events_lookup in Hx; [|done]. destruct Hx as [[Hx Ex]|(H1 & H2 & H3 & H4)].
        { apply max_id_bound in Hx. specialize (R6 id). lia. }
        split; [lia|]. do 2 (split; [done|]). by apply Htr.
    + intros [[[Hx _]%Hevs <-]|(H1 & H2 & H3 & H4)]; [done|]. destruct (decide (max_id (compacted b id) < k)).
      { apply events_lookup; [done|right]. do 3 (split; [done|]). by apply Htr. }
      exfalso. specialize (R6 id). destruct (max_id_attained (compacted b id)) as [E|(y & Hy & E)].
      { destruct H3; lia. }
      assert (y ∈ evs) as Hy'. { apply Hevs. split; [|lia]. apply events_lookup; auto. }
      apply max_id_bound in Hy'. lia.
  - intros id' k d. rewrite R4. apply iff_under. intros Hk.
    rewrite (holds_insert _ _ _ _ _ _ _ Hf), decide_False; [done|]. intros E. by apply (blob_not_trace id' id k "compact.ndjson" Hk).
  - intros id' Hi. by apply Hd, R5.
  - intros id'. simpl. case_decide as E; [rewrite E, Hc; lia|]. by rewrite Hc'.
Qed.
End put.

(** *** Removals *)

Lemma wf_delete b b' p : fs_wf b → fs_dirs b' = fs_dirs b → fs_files b' = delete p (fs_files b) → fs_wf b'.
Proof. intros Hwf Ed Ef. apply (wf_files_change b); [done..|]. intros q f. rewrite Ef. intros [_ Hq]%lookup_delete_Some. by left. Qed.

Lemma same_delete b b' p : fs_files b' = delete p (fs_files b) → same_but (eq p) b b'.
Proof. intros E q _ Hq. by rewrite E, lookup_delete_ne. Qed.

(** A numbered file that the compact one covers can go. *)
Lemma rep_uncover b b' c g id n seq : represents b c g → fs_dirs b' = fs_dirs b → fs_files b' = delete (traces_dir id ++ [n])%list (fs_files b) →
  parseNumberedTraceFile n = Some seq → seq <= max_id (compacted b id) → represents b' c g.
Proof.
  intros [R1 R2 R3 R4 R5 R6] Ed Ef Hn Hseq. pose proof (same_delete _ _ _ Ef) as Hs. pose proof (wf_delete _ _ _ R1 Ed Ef) as Hwf.
  assert (∀ id', compacted b' id' = compacted b id') as Hc.
  { intros id'. apply (same_compacted _ _ _ _ Hs). intros [_ ->]%(trace_inj id id' _ "compact.ndjson"). vm_compute in Hn. done. }
  split; [done|..].
  - intros id' t. rewrite R2. symmetry. apply (same_holds _ _ _ _ _ Hs); [apply task_path_not_temp|done].
  - intros id'. rewrite R3. apply map_eq. intros k. apply option_eq. intros x. rewrite !events_lookup, Hc by done.
    apply or_iff_compat_l, iff_under. intros Hk. apply iff_under. intros Ex. apply iff_under. intros Hx. symmetry.
    apply (same_holds _ _ _ _ _ Hs); [apply trace_path_not_temp; destruct Hx; lia|].
    intros [<- ->]%(trace_inj id id' _ (trace_name k)). rewrite parse_trace_name in Hn by (destruct Hx; lia). simplify_eq. lia.
  - intros id' k d. rewrite R4. apply iff_under. intros Hk. symmetry. apply (same_holds _ _ _ _ _ Hs); [by apply blob_path_not_temp|].
    intros E. by apply (blob_not_trace id' id k n Hk).
  - intros id' Hi. rewrite Ed. by apply R5.
  - intros id'. by rewrite Hc.
Qed.

Lemma rep_unblob b b' c g id k : represents b c g → blob_key k → fs_dirs b' = fs_dirs b →
  fs_files b' = delete (blob_path id k) (fs_files b) → represents b' (del_blob id k c) g.
Proof.
  intros [R1 R2 R3 R4 R5 R6] Hk Ed Ef. pose proof (same_delete _ _ _ Ef) as Hs. pose proof (wf_delete _ _ _ R1 Ed Ef) as Hwf. split; [done|..].
  - intros id' t. simpl. rewrite R2. symmetry. apply (same_holds _ _ _ _ _ Hs); [apply task_path_not_temp|by apply blob_not_task].
  - intros id'. change (events_at (del_blob id k c) id') with (events_at c id'). rewrite R3. symmetry. eapply same_events; [done..|].
    intros n. by apply blob_not_trace.
  - intros id' k' d. simpl. destruct (decide ((id, k) = (id', k'))) as [[= <- <-]|Hne].
    + rewrite lookup_delete_eq. split; [done|]. intros [_ [m Hm]]. by rewrite Ef, lookup_delete_eq in Hm.
    + rewrite lookup_delete_ne, R4 by done. apply iff_under. intros Hk'. symmetry. apply (same_holds _ _ _ _ _ Hs); [by apply blob_path_not_temp|].
      intros [-> ->]%blob_path_inj; done.
  - intros id' Hi. rewrite Ed. by apply R5.
  - intros id'. rewrite (same_compacted _ _ _ _ Hs); [done|]. by apply (blob_not_trace id id' k "compact.ndjson").
Qed.

(** Only the files of one task changed. *)
Lemma rep_cut b b' c c' g g' id : represents b c g → fs_wf b' → same_but (λ q, task_dir id `prefix_of` q) b b' → agree_except id c c' →
  (∀ t, c_tasks c' !! id = Some t ↔ holds b' (task_path id) (DocTask t)) → events_at c' id = events_of b' id →
  (∀ k d, c_blobs c' !! (id, k) = Some d ↔ blob_key k ∧ holds b' (blob_path id k) (DocBlob d)) →
  (∀ x, x ∈ ready g' → task_dir x ∈ fs_dirs b') → max_id (compacted b' id) <= boundary g' id → (∀ x, x ≠ id → boundary g' x = boundary g x) →
  represents b' c' g'.
Proof.
  intros [R1 R2 R3 R4 R5 R6] Hwf Hs (A1 & A2 & A3) Ht He Hb Hrd Hbd Hg.
  assert (∀ id' l, id' ≠ id → ¬ task_dir id `prefix_of` (uuid_String id' :: l)) as Hpre.
  { intros id' l Hne [l' [= E%uuid_text_inj _]]. by subst. }
  split; [done|..].
  - intros id' t. destruct (decide (id' = id)) as [->|Hne]; [done|]. rewrite A1, R2 by done. symmetry.
    apply (same_holds _ _ _ _ _ Hs); [apply task_path_not_temp|by apply Hpre].
  - intros id'. destruct (decide (id' = id)) as [->|Hne]; [done|]. unfold events_at at 1. rewrite A2 by done. fold (events_at c id'). rewrite R3. symmetry.
    eapply same_events; [done..|]. intros n. by apply Hpre.
  - intros id' k d. destruct (decide (id' = id)) as [->|Hne]; [done|]. rewrite A3, R4 by done. apply iff_under. intros Hk. symmetry.
    apply (same_holds _ _ _ _ _ Hs); [by apply blob_path_not_temp|by apply Hpre].
  - done.
  - intros id'. destruct (decide (id' = id)) as [->|Hne]; [done|]. rewrite Hg by done. rewrite (same_compacted _ _ _ _ Hs); [done|by apply Hpre].
Qed.
End represents.
