(* ===== verification/FsRefines.v ===== *)
(** * The simulation: file system backend and storage interface

    The calls of the interface, what each promises in terms of the represented
    contents ([promises], the laws of [StorageBackend]), and the theorem that the
    file system backend keeps it, whatever system calls fail. *)

From S2P Require Import Prelude GoStrings GoText TaskModel Backend AtomicFile StoreEvents FsBackend FsBackendSpec.
From Stdlib Require Import String Ascii.
From stdpp Require Import list gmap pretty.
Local Open Scope Z_scope.
Local Open Scope string_scope.

(** ** The interface *)

Section interface.
Context `{UUIDLib} (reloads : Task → Task → Prop).
Implicit Types (n k : string) (id : uuid) (e : TaskEvent) (c : contents) (g : ledger).

Inductive call :=
| CInit id
| CLoadAll
| CSaveTask (t : Task)
| CRemoveTask id
| CSaveEvent id (seq : Z) e
| CLoadEvents id
| CCompactEvents id (evs : list TaskEvent)
| CSaveBlob id k (d : blob)
| CReadBlob id k
| CDeleteBlob id k
| CListBlobOwners k.

Definition answer (x : call) : Type :=
  match x with
  | CLoadAll => list Task
  | CLoadEvents _ => list TaskEvent * Z
  | CReadBlob _ _ => doc
  | CListBlobOwners _ => list uuid
  | _ => unit
  end.

(** What the interface promises when the contents were [c]: the answer and the
    contents after; [h] means that nothing fails. *)
Definition promises (h : Prop) (x : call) c : result io_error (answer x) → contents → Prop :=
  match x return result io_error (answer x) → contents → Prop with
  | CInit _ => λ r c', c' = c ∧ (h → is_ok r = true)
  | CLoadAll => λ r c',
      c_events c' = c_events c ∧ c_blobs c' = c_blobs c ∧ (∀ ts, r = Ok ts → NoDup (ID <$> ts)) ∧
      (h → ∃ ts, r = Ok ts ∧ (∀ t', t' ∈ ts → ∃ t, c_tasks c !! ID t' = Some t ∧ reloads t t') ∧
         (∀ id t, c_tasks c !! id = Some t → ∃ t', t' ∈ ts ∧ ID t' = id ∧ reloads t t' ∧ c_tasks c' !! id = Some t') ∧
         (∀ id, c_tasks c !! id = None → c_tasks c' !! id = None))
  | CSaveTask t => λ r c', c' = (if is_ok r then put_task t c else c) ∧ (h → is_ok r = true)
  | CRemoveTask id => λ r c', (if is_ok r then c' = del_task id c else agree_except id c c') ∧ (h → is_ok r = true)
  | CSaveEvent id seq e => λ r c', c' = (if is_ok r then put_event id seq e c else c) ∧ (h → is_ok r = true)
  | CLoadEvents id => λ r c', c' = c ∧ (h → r = Ok (sorted_events (events_at c id), max_seq (events_at c id)))
  | CCompactEvents _ _ => λ _ c', c' = c
  | CSaveBlob id k d => λ r c', c' = (if is_ok r then put_blob id k d c else c) ∧ (h → is_ok r = true)
  | CReadBlob id k => λ r c', c' = c ∧
      match r with
      | Ok x => ∃ d, x = DocBlob d ∧ c_blobs c !! (id, k) = Some d
      | Err ErrNotExist => c_blobs c !! (id, k) = None
      | Err (ErrIO _) => ¬ h
      end
  | CDeleteBlob id k => λ r c',
      match r with
      | Ok _ => c' = del_blob id k c
      | Err ErrNotExist => c' = c ∧ c_blobs c !! (id, k) = None
      | Err (ErrIO _) => c' = c ∧ ¬ h
      end
  | CListBlobOwners k => λ r c', c' = c ∧
      (h → ∃ ids, r = Ok ids ∧ NoDup ids ∧ ∀ id, id ∈ ids ↔ is_Some (c_blobs c !! (id, k)))
  end.

(** The protocol of the calls: a task is saved after [Init]; an event is appended
    under its own number, after all others, and its line has less than a megabyte; a
    compaction gets the events up to a number that is not before the last
    compaction; blobs have clean keys.  The store does not always keep to it: see
    FsRun for a compaction that comes late and for a long event, and StoreEvents for
    a number that is used again. *)
Definition permitted (line_size : TaskEvent → Z) (x : call) c g : Prop :=
  match x with
  | CSaveTask t => ID t ∈ ready g
  | CSaveEvent id seq e => ev_ID e = seq ∧ event_ok line_size e ∧ max_seq (events_at c id) < seq
  | CCompactEvents id evs => ∃ m, boundary g id <= m ∧ evs = sorted_events (filter (λ kv, kv.1 <= m) (events_at c id))
  | CSaveBlob _ k _ | CReadBlob _ k | CDeleteBlob _ k | CListBlobOwners k => blob_key k
  | _ => True
  end.

Definition after_call (x : call) (ok : bool) g : ledger :=
  match x with
  | CInit id | CSaveEvent id _ _ | CSaveBlob id _ _ => if ok then MkLedger ({[id]} ∪ ready g) (boundary g) else g
  | CRemoveTask id => if ok then MkLedger (ready g ∖ {[id]}) (λ x, if decide (x = id) then 0 else boundary g x) else g
  | CCompactEvents id evs => MkLedger (ready g) (λ x, if decide (x = id) then Z.max (boundary g id) (max_id evs) else boundary g x)
  | _ => g
  end.
End interface.

Section simulation.
Context `{UUIDLib} (temp_suffix : list string → string) (tbl : Z → Z).
Context (line_size : TaskEvent → Z) (mod_time : path → Z) (clock : Z) (sandbox_order : Task → list string).
Implicit Types (b : FilesystemBackend) (p q dir : path) (n k : string) (id : uuid) (e : TaskEvent) (c : contents) (g : ledger).
Abbreviation represents := (represents line_size).
Abbreviation fs_wf := (fs_wf line_size).
Abbreviation file_ok := (file_ok line_size).

(** No system call fails from now on. *)
Definition no_faults b : Prop := Forall (eq None) (fs_faults b).

(** [os.CreateTemp] picks a name that is not taken. *)
Hypothesis temp_fresh : ∀ names, (".tmp-" +:+ temp_suffix names) ∉ names.

(** ** System calls *)

(** The same tree. *)
Definition same_tree b b' : Prop := fs_dirs b' = fs_dirs b ∧ fs_files b' = fs_files b.

Lemma wf_tree b b' : same_tree b b' → fs_wf b → fs_wf b'.
Proof. intros [Ed Ef] Hwf. apply (wf_files_change line_size b); [done..|]. rewrite Ef. auto. Qed.

Lemma rep_tree b b' c g : same_tree b b' → represents b c g → represents b' c g.
Proof.
  intros Ht Hr. pose proof (wf_tree _ _ Ht (rp_wf _ _ _ _ Hr)) as Hwf. destruct Ht as [Ed Ef].
  eapply rep_same; [done..| |by rewrite Ed]. intros q _ _. by rewrite Ef.
Qed.

Lemma syscall_cases {A} partly (f : Sys A) b r b' : syscall partly f b = (r, b') →
  ∃ b0, same_tree b b0 ∧ (no_faults b → no_faults b0) ∧ ((∃ n : nat, r = Err EIO ∧ b' = partly n b0 ∧ ¬ no_faults b) ∨ f b0 = (r, b')).
Proof.
  unfold syscall, no_faults. destruct (fs_faults b) as [|[n|] rest] eqn:E; intros Hs.
  - exists (MkFs (fs_dirs b) (fs_files b) []). split; [by split|]. split; [done|by right].
  - exists (MkFs (fs_dirs b) (fs_files b) rest). split; [by split|]. split; [by intros [? ?]%Forall_cons|]. left. exists n. simplify_eq. split_and!; [done..|].
    by intros [? _]%Forall_cons.
  - exists (MkFs (fs_dirs b) (fs_files b) rest). split; [by split|]. split; [by intros [_ ?]%Forall_cons|by right].
Qed.

(** A call that only reads. *)
Lemma read_cases {A} (f : FilesystemBackend → result io_error A) b r b' : syscall nothing (λ b, (f b, b)) b = (r, b') →
  (∀ x y, same_tree x y → f y = f x) →
  same_tree b b' ∧ (no_faults b → no_faults b' ∧ r = f b) ∧ (r = Err EIO ∨ r = f b).
Proof.
  intros (b0 & Ht & Hn & [(n & -> & -> & Hf)|Hf])%syscall_cases Hext.
  - unfold nothing. split; [done|]. split; [by intros ?%Hf|by left].
  - simplify_eq. split; [done|]. rewrite (Hext _ _ Ht). auto.
Qed.

Lemma is_file_spec b p : is_file b p = true ↔ is_Some (fs_files b !! p).
Proof. unfold is_file. by rewrite bool_decide_eq_true. Qed.

Lemma entries_tree p x y : same_tree x y → entries p y = entries p x.
Proof. intros [Ed Ef]. unfold entries. by rewrite Ed, Ef. Qed.

Lemma NoDup_omap {A B} (f : A → option B) l : NoDup l → (∀ x y z, x ∈ l → y ∈ l → f x = Some z → f y = Some z → x = y) → NoDup (omap f l).
Proof.
  intros Hnd Hf. induction Hnd as [|x l Hx _ IH]; [constructor|]. assert (NoDup (omap f l)) as Hl.
  { apply IH. intros y y' z Hy Hy'. apply Hf; by right. }
  simpl. destruct (f x) as [z|] eqn:E; [|done]. constructor; [|done]. rewrite list_elem_of_omap. intros (y & Hy & Ey).
  assert (x = y) as -> by (apply (Hf _ _ z); [by left|by right|done..]). done.
Qed.

Lemma entries_NoDup p b : NoDup (entries p b).
Proof.
  unfold entries. rewrite merge_sort_Permutation. apply NoDup_app. split_and!.
  - apply NoDup_omap; [apply NoDup_elements|]. intros x y z _ _. destruct (child p x) eqn:Ex, (child p y) eqn:Ey; simpl; try done.
    intros [= <-] [= ->]. apply child_spec in Ex, Ey. congruence.
  - intros [n d]. rewrite !list_elem_of_omap. intros (x & _ & Hx) (y & _ & Hy). destruct (child p x), (child p y); simplify_eq/=.
  - apply NoDup_omap; [apply NoDup_fst_map_to_list|]. intros x y z _ _. destruct (child p x) eqn:Ex, (child p y) eqn:Ey; simpl; try done.
    intros [= <-] [= ->]. apply child_spec in Ex, Ey. congruence.
Qed.

(** *** Making directories *)

Lemma dir_not_file b id p : fs_wf b → dir_of id p → fs_files b !! p = None.
Proof.
  intros Hwf Hp. apply eq_None_not_Some. intros [f Hf]. apply (wf_files _ _ Hwf) in Hf as [id' Hf].
  inversion Hf as [t E|l Hl Hok E|e Hok E|k x Hk E|dir n d [s Hn] Hd E]; subst; destruct Hp as [E'|[E'|E']]; try done.
  1-3: destruct Hk as [_ [(n & Ek & Hn & _)|(n & Ek & _)]]; unfold blob_path in E'; rewrite Ek in E'; first [discriminate E'|injection E' as _ ->; set_solver].
  all: apply (f_equal last) in E' as E2; rewrite last_snoc in E2; try done.
  apply (f_equal length) in E'. rewrite length_app in E'. assert (dir_of id' dir) as [-> |[-> | ->]] by (unfold dir_of; set_solver); done.
Qed.

Lemma elem_take_prefixes (i : nat) p q : q ∈ take i (prefixes p) ↔ q `prefix_of` p ∧ (length q < i)%nat.
Proof.
  unfold prefixes. rewrite <-fmap_take, take_seq, list_elem_of_fmap. split.
  - intros (j & -> & Hj%elem_of_seq). split; [exists (drop j p); by rewrite take_drop|]. rewrite length_take. lia.
  - intros [[l ->] Hl]. exists (length q). rewrite take_app_length. split; [done|]. apply elem_of_seq. rewrite length_app. lia.
Qed.

Lemma prefix_of_dir id p q : dir_of id p → q `prefix_of` p → q = [] ∨ dir_of id q.
Proof.
  intros Hp [l E]. destruct q as [|x q]; [by left|right]. unfold dir_of. destruct Hp as [-> |[-> | ->]]; injection E as <- E; [|destruct q as [|y q]..].
  - symmetry in E. apply app_eq_nil in E as [-> _]. by left.
  - by left.
  - injection E as <- E. symmetry in E. apply app_eq_nil in E as [-> _]. right. by left.
  - by left.
  - injection E as <- E. symmetry in E. apply app_eq_nil in E as [-> _]. by do 2 right.
Qed.

Lemma wf_add_dirs (i : nat) id p b : dir_of id p → fs_wf b → fs_wf (add_dirs (take i (prefixes p)) b).
Proof.
  intros Hp [W1 W2 W3 W4 W5 W6]. assert (∀ q, q ∈ fs_dirs (add_dirs (take i (prefixes p)) b) ↔ (q `prefix_of` p ∧ (length q < i)%nat) ∨ q ∈ fs_dirs b) as Hd.
  { intros q. simpl. by rewrite elem_of_union, elem_of_list_to_set, elem_take_prefixes. }
  split; intros *; rewrite ?Hd.
  - by right.
  - intros [[H1 H2]|H1] H3; [left|right; eauto]. split; [by etrans|]. apply prefix_length in H3. lia.
  - intros Hf. right. eauto.
  - intros [[H1 H2]|H1] H3; [|eauto]. apply (prefix_of_dir id) in H1 as [?|[[= ->]|[?|?]]]; try done. by rewrite uuid_Parse_String in H3; injection H3 as ->.
  - intros [[H1 H2]|H1]; [|eauto]. apply (prefix_of_dir id) in H1 as [?|[?|[?|?]]]; [..|done]; eauto 6.
  - apply W6.
Qed.

Lemma rep_add_dirs (i : nat) id p b c g : dir_of id p → represents b c g → represents (add_dirs (take i (prefixes p)) b) c g.
Proof.
  intros Hp Hr. eapply rep_same; [done|by eapply wf_add_dirs, rp_wf|by intros ???|]. simpl. set_solver.
Qed.

Lemma MkdirAll_rep id p b r b' c g : dir_of id p → MkdirAll p b = (r, b') → represents b c g →
  represents b' c g ∧ (no_faults b → no_faults b' ∧ is_ok r = true) ∧ (is_ok r = true → p ∈ fs_dirs b').
Proof.
  intros Hp (b0 & Ht & Hn & [(i & -> & -> & Hf)|E])%syscall_cases Hr; apply (rep_tree _ _ _ _ Ht) in Hr.
  { split; [by eapply rep_add_dirs|]. split; [by intros ?%Hf|done]. }
  assert (existsb (is_file b0) (prefixes p) = false) as Ex.
  { apply not_true_is_false. intros (q & Hq%list_elem_of_In & Hfile)%existsb_exists. apply is_file_spec in Hfile as [f Hfile].
    apply elem_prefixes, (prefix_of_dir id) in Hq as [->|Hq]; [|by rewrite (dir_not_file _ _ _ (rp_wf _ _ _ _ Hr) Hq) in Hfile|done].
    destruct (wf_files _ _ (rp_wf _ _ _ _ Hr) _ _ Hfile) as [id' (dir & n & E' & _)%file_place]. by destruct dir. }
  rewrite Ex in E. simplify_eq. rewrite <-(firstn_all (prefixes p)). split; [by eapply rep_add_dirs|]. split; [by intros ?%Hn|].
  intros _. unfold add_dirs; cbn [fs_dirs]. apply elem_of_union_l, elem_of_list_to_set, elem_take_prefixes. split; [done|]. unfold prefixes. rewrite length_fmap, length_seq. lia.
Qed.

(** *** Writing a file *)

Lemma no_fault_at b (i : nat) : no_faults b → default None (fs_faults b !! i) = None.
Proof. intros Hn. destruct (fs_faults b !! i) as [x|] eqn:E; [|done]. by rewrite <-(Forall_lookup_1 _ _ _ _ Hn E). Qed.

Lemma temp_not_file b dir : fs_files b !! (dir ++ [".tmp-" +:+ temp_suffix (entries dir b).*1])%list = None.
Proof.
  apply eq_None_not_Some. intros Hs. apply (temp_fresh (entries dir b).*1). apply list_elem_of_fmap.
  eexists (_, false). split; [reflexivity|]. by apply elem_entries.
Qed.

Lemma rep_temp id b b' c g dir n f : represents b c g → dir_of id dir → temp_file n → dir ∈ fs_dirs b → fs_dirs b' = fs_dirs b →
  fs_files b' = <[(dir ++ [n])%list := f]> (fs_files b) → represents b' c g.
Proof.
  intros Hr Hdir Hn Hd Ed Ef. assert (is_temp (dir ++ [n])%list) as Ht by (destruct Hn as [s ->]; exists s; apply last_snoc).
  eapply rep_same; [done| | |by rewrite Ed].
  - apply (wf_files_change line_size b); [by apply Hr|done|]. intros q x. rewrite Ef. intros [[<- <-]|[_ Hq]]%lookup_insert_Some; [right|by left].
    rewrite removelast_last. split; [|done]. exists id. constructor; [done|]. unfold dir_of in Hdir. set_solver.
  - intros q Hq _. rewrite Ef. apply lookup_insert_ne. by intros <-.
Qed.

Lemma atomic_Write_rep id p d b r b' c g : represents b c g → file_ok id p d → (¬ is_temp p) → atomic_Write temp_suffix p d b = (r, b') →
  fs_dirs b' = fs_dirs b ∧ (no_faults b → no_faults b' ∧ (removelast p ∈ fs_dirs b → is_ok r = true)) ∧
  match r with
  | Ok _ => fs_wf b' ∧ fs_files b' = <[p := MkFile d 420]> (fs_files b)
  | Err _ => represents b' c g
  end.
Proof.
  intros Hr Hp Ht Hw. pose proof (rp_wf _ _ _ _ Hr) as Hwf. pose proof (file_not_dir _ _ _ _ _ Hwf Hp Ht) as Hnd.
  destruct (file_place _ _ _ _ Hp) as (dir & n & E & Hdir). unfold atomic_Write in Hw. rewrite (decide_False (P:=p ∈ fs_dirs b)) in Hw by done.
  assert (removelast p = dir) as El by (rewrite E; apply removelast_last). rewrite El in *.
  set (tmp := (dir ++ [_])%list) in Hw. set (o := MkOutcomes _ _ _ _ _ _ _) in Hw.
  assert (∀ t, oc_create o = Ok t → t = tmp ∧ dir ∈ fs_dirs b) as Hcr.
  { simpl. intros t. case_decide; [done|]. case_decide; [|done]. by intros [= <-]. }
  assert (is_temp tmp) as Htmp by (eexists; apply last_snoc).
  assert (admissible o p (fs_files b)) as Hadm.
  { unfold admissible. destruct (oc_create o) as [t|] eqn:Eo; [|done]. destruct (Hcr _ eq_refl) as [-> _]. split; [apply temp_not_file|]. by intros E'; rewrite E' in Htmp. }
  pose proof (write_states o p d 420 false (fs_files b) Hadm) as [_ Hok].
  pose proof (λ (e : string) He, write_failed o p d 420 false (fs_files b) e He Hadm) as Hfail.
  assert (no_faults b → dir ∈ fs_dirs b → (Write o p d 420 (fs_files b)).1 = Ok tt) as Hgood.
  { intros Hn Hin. unfold o, Write, write. simpl. rewrite !no_fault_at by done. rewrite decide_False by (by intros []). rewrite decide_True by done. done. }
  assert ((Write o p d 420 (fs_files b)).1 = Ok tt → ∃ t, oc_create o = Ok t) as Hmade by apply write_created.
  fold (Write o p d 420 (fs_files b)) in *. destruct (Write o p d 420 (fs_files b)) as [x st] eqn:Ew. cbn [fst] in Hok, Hfail, Hgood, Hmade.
  injection Hw as <- <-. split; [done|]. split.
  { intros Hn. split; [by apply Forall_drop|]. intros Hin. by rewrite Hgood. }
  destruct x as [[]|err].
  - simpl. assert (after (Ok tt : result string unit, st) (fs_files b) = <[p := MkFile d 420]> (fs_files b)) as Ef.
    { apply map_eq. intros q. rewrite Hok. destruct (decide (q = p)) as [Eq|]; [by rewrite Eq, lookup_insert_eq|by rewrite lookup_insert_ne]. }
    split; [|exact Ef]. apply (wf_files_change line_size b); [done..|]. simpl. rewrite Ef. intros q f [[<- <-]|[_ Hq]]%lookup_insert_Some; [right|by left].
    rewrite El. split; [eauto|]. destruct Hmade as [t Et]; [done|]. by apply (Hcr t).
  - destruct (Hfail err eq_refl) as [Ef|(t & [-> Hin]%Hcr & [[f Ef]|Ef])].
    + apply (rep_tree b); [|done]. split; [done|exact Ef].
    + eapply (rep_temp id b); [done|exact Hdir|by eexists|done..|exact Ef].
    + apply (rep_tree b); [|done]. split; [done|exact Ef].
Qed.

(** ** The operations *)

Definition fs_do (x : call) : Sys (answer x) :=
  match x return Sys (answer x) with
  | CInit id => Init id
  | CLoadAll => LoadAll temp_suffix tbl mod_time clock sandbox_order
  | CSaveTask t => SaveTask temp_suffix t
  | CRemoveTask id => RemoveTask id
  | CSaveEvent id seq e => SaveEvent temp_suffix id seq e
  | CLoadEvents id => LoadEvents line_size id
  | CCompactEvents id evs => CompactEvents temp_suffix id evs
  | CSaveBlob id k d => SaveBlob temp_suffix id k d
  | CReadBlob id k => ReadBlob id k
  | CDeleteBlob id k => DeleteBlob id k
  | CListBlobOwners k => ListBlobOwners k
  end.

(** A task read from its file is the migrated record. *)
Definition migrated (t t' : Task) : Prop := ∃ order mt, t' = (migrate tbl order mt t).1.

(** The call keeps its promise and the representation. *)
Definition simulated (x : call) b c g : Prop :=
  let '(r, b') := fs_do x b in
  ∃ c', promises migrated (no_faults b) x c r c' ∧ represents b' c' (after_call x (is_ok r) g) ∧ (no_faults b → no_faults b').

Lemma rep_ready_add b c g id : represents b c g → task_dir id ∈ fs_dirs b → represents b c (MkLedger ({[id]} ∪ ready g) (boundary g)).
Proof. intros [R1 R2 R3 R4 R5 R6] Hd. split; try done. simpl. intros x [->%elem_of_singleton|Hx]%elem_of_union; auto. Qed.

Lemma task_dir_prefix b id dir : fs_wf b → dir_of id dir → dir ∈ fs_dirs b → task_dir id ∈ fs_dirs b.
Proof. intros Hwf Hdir Hin. eapply (wf_closed _ _ Hwf); [done|]. destruct Hdir as [-> |[-> | ->]]; by eexists. Qed.

Lemma Init_sim id b c g : represents b c g → simulated (CInit id) b c g.
Proof.
  intros Hr. unfold simulated, fs_do, Init. destruct (MkdirAll (traces_dir id) b) as [r b'] eqn:E.
  apply (MkdirAll_rep id _ _ _ _ c g) in E as (Hr' & Hn & Hd); [|by right; left|done]. exists c.
  split; [split; [done|]; intros; by apply Hn|]. split; [|intros; by apply Hn]. simpl.
  destruct (is_ok r) eqn:Er; [|done]. apply rep_ready_add; [done|]. apply (task_dir_prefix _ _ (traces_dir id)); [by apply Hr'|by right; left|by apply Hd].
Qed.

Lemma SaveTask_sim t b c g : represents b c g → ID t ∈ ready g → simulated (CSaveTask t) b c g.
Proof.
  intros Hr Ht. unfold simulated, fs_do, SaveTask. destruct (atomic_Write temp_suffix _ _ b) as [r b'] eqn:E.
  apply (atomic_Write_rep (ID t) _ _ _ _ _ c g) in E as (Ed & Hn & Hres); [|done|by constructor|apply task_path_not_temp].
  assert (task_dir (ID t) ∈ fs_dirs b) as Hdir by (by apply Hr).
  exists (if is_ok r then put_task t c else c). split; [split; [done|]; intros Hb; by apply Hn|]. split; [|intros; by apply Hn].
  destruct r as [[]|e]; [|done]. destruct Hres as [Hwf Hf]. eapply rep_task; [done..|by rewrite Ed|done].
Qed.

Lemma SaveEvent_sim id seq e b c g : represents b c g → ev_ID e = seq → event_ok line_size e → max_seq (events_at c id) < seq →
  simulated (CSaveEvent id seq e) b c g.
Proof.
  intros Hr Hid Hok Hseq. unfold simulated, fs_do, SaveEvent. destruct (MkdirAll (traces_dir id) b) as [[[]|err] b0] eqn:E0;
    apply (MkdirAll_rep id _ _ _ _ c g) in E0 as (Hr' & Hn & Hd); [|by right; left|done| |by right; left|done].
  2: { exists c. split; [split; [done|]; intros; by apply Hn|]. split; [done|intros; by apply Hn]. }
  destruct (atomic_Write temp_suffix _ _ b0) as [r b'] eqn:E.
  apply (atomic_Write_rep id _ _ _ _ _ c g) in E as (Ed & Hn' & Hres); [|done| |].
  2: { rewrite <-Hid. by constructor. }
  2: { apply trace_path_not_temp. destruct Hok. lia. }
  exists (if is_ok r then put_event id seq e c else c). split; [split; [done|]; intros [Hb _]%Hn; apply Hn'; [done|]; by apply Hd|].
  split; [|intros [Hb _]%Hn; by apply Hn']. destruct r as [[]|err]; [|done]. destruct Hres as [Hwf Hf]. simpl.
  apply rep_ready_add; [eapply rep_event; [exact Hr'|done|by rewrite Ed|done..]|]. rewrite Ed.
  apply (task_dir_prefix _ _ (traces_dir id)); [by apply Hr'|by right; left|by apply Hd].
Qed.

Lemma blob_dir id k : blob_key k → ∃ dir n, blob_path id k = (dir ++ [n])%list ∧ dir_of id dir.
Proof. intros Hk. apply (file_place line_size id _ (DocBlob (BlobRaw []))). by constructor. Qed.

Lemma SaveBlob_sim id k d b c g : represents b c g → blob_key k → simulated (CSaveBlob id k d) b c g.
Proof.
  intros Hr Hk. unfold simulated, fs_do, SaveBlob. destruct (blob_dir id k Hk) as (dir & n & Ep & Hdir).
  assert (removelast (blob_path id k) = dir) as El by (rewrite Ep; apply removelast_last). rewrite El.
  destruct (MkdirAll dir b) as [[[]|err] b0] eqn:E0; apply (MkdirAll_rep id _ _ _ _ c g) in E0 as (Hr' & Hn & Hd); try done.
  2: { exists c. split; [split; [done|]; intros; by apply Hn|]. split; [done|intros; by apply Hn]. }
  destruct (atomic_Write temp_suffix _ _ b0) as [r b'] eqn:E.
  apply (atomic_Write_rep id _ _ _ _ _ c g) in E as (Ed & Hn' & Hres); [|done|by constructor|by apply blob_path_not_temp]. rewrite El in Hn'.
  exists (if is_ok r then put_blob id k d c else c). split; [split; [done|]; intros [Hb _]%Hn; apply Hn'; [done|]; by apply Hd|].
  split; [|intros [Hb _]%Hn; by apply Hn']. destruct r as [[]|err]; [|done]. destruct Hres as [Hwf Hf]. simpl.
  apply rep_ready_add; [eapply rep_blob; [exact Hr'|done|by rewrite Ed|done..]|]. rewrite Ed.
  apply (task_dir_prefix _ _ dir); [by apply Hr'|done|by apply Hd].
Qed.

(** What lies under a blob's key. *)
Lemma blob_at b c g id k : represents b c g → blob_key k →
  (blob_path id k ∉ fs_dirs b) ∧
  match fs_files b !! blob_path id k with
  | Some f => ∃ d, f_data f = DocBlob d ∧ c_blobs c !! (id, k) = Some d
  | None => c_blobs c !! (id, k) = None
  end.
Proof.
  intros Hr Hk. pose proof (blob_path_not_temp id k Hk) as Ht.
  split; [eapply (file_not_dir _ _ id _ (DocBlob (BlobRaw []))); [apply Hr|by constructor|done]|].
  destruct (fs_files b !! blob_path id k) as [[d m]|] eqn:E.
  - destruct (wf_files _ _ (rp_wf _ _ _ _ Hr) _ _ E) as [id' Hf]. simpl in *.
    assert (∃ x, d = DocBlob x) as [x ->].
    { remember (blob_path id k) as p eqn:Ep in Hf. destruct Hf as [t Et|l Hl Hok|ev Hok|k' x Hk'|dir n d' [s ->] Hd]; symmetry in Ep; [..|by eauto|].
      - by apply blob_not_task in Ep.
      - by apply (blob_not_trace id id' k "compact.ndjson") in Ep.
      - by apply (blob_not_trace id id' k (trace_name (ev_ID ev))) in Ep.
      - destruct Ht. rewrite Ep. eexists. apply last_snoc. }
    exists x. split; [done|]. apply (rp_blobs _ _ _ _ Hr). split; [done|]. by exists m.
  - apply eq_None_not_Some. intros [d [_ [m Hm]]%(rp_blobs _ _ _ _ Hr)]. congruence.
Qed.

Lemma ReadFile_cases p b r b' : ReadFile p b = (r, b') → same_tree b b' ∧ (no_faults b → no_faults b') ∧
  ((r = Err EIO ∧ ¬ no_faults b) ∨
   r = match fs_files b !! p with Some f => Ok (f_data f) | None => if decide (p ∈ fs_dirs b) then Err EISDIR else Err ErrNotExist end).
Proof.
  intros (b0 & [Ed Ef] & Hn & [(n & -> & -> & Hf)|E])%syscall_cases.
  - unfold nothing. split; [by split|]. split; [done|by left].
  - simplify_eq. split; [by split|]. split; [done|]. right. by rewrite Ef, Ed.
Qed.

Lemma ReadBlob_sim id k b c g : represents b c g → blob_key k → simulated (CReadBlob id k) b c g.
Proof.
  intros Hr Hk. unfold simulated, fs_do, ReadBlob. destruct (ReadFile (blob_path id k) b) as [r b'] eqn:E.
  apply ReadFile_cases in E as (Ht & Hn & Hres). exists c. split; [|split; [by apply (rep_tree b)|done]]. split; [done|].
  destruct (blob_at b c g id k Hr Hk) as [Hd Hb]. rewrite decide_False in Hres by done. destruct Hres as [[-> Hf]| ->]; [done|].
  by destruct (fs_files b !! blob_path id k).
Qed.

Lemma DeleteBlob_sim id k b c g : represents b c g → blob_key k → simulated (CDeleteBlob id k) b c g.
Proof.
  intros Hr Hk. unfold simulated, fs_do, DeleteBlob. destruct (Remove (blob_path id k) b) as [r b'] eqn:E.
  apply syscall_cases in E as (b0 & Ht & Hn & E). apply (rep_tree _ _ _ _ Ht) in Hr. destruct E as [(n & -> & -> & Hf)|E].
  { exists c. by split_and!. }
  destruct (blob_at b0 c g id k Hr Hk) as [Hd Hb]. rewrite (decide_False (P:=blob_path id k ∈ fs_dirs b0)) in E by done.
  unfold is_file in E. destruct (fs_files b0 !! blob_path id k) as [f|] eqn:Ef; simpl in E; simplify_eq.
  - exists (del_blob id k c). split; [done|]. split; [|done]. by eapply rep_unblob.
  - exists c. by split_and!.
Qed.

(** *** Removing a task *)

Lemma lookup_deletes {A} (m : gmap path A) (l : list path) q f : foldr delete m l !! q = Some f ↔ (q ∉ l) ∧ m !! q = Some f.
Proof.
  destruct (decide (q ∈ l)) as [Hq|Hq]; [rewrite lookup_foldr_delete by done; naive_solver|rewrite lookup_foldr_delete_not_elem_of by done; tauto].
Qed.

Lemma wf_sub b b' : fs_wf b → fs_dirs b' ⊆ fs_dirs b → [] ∈ fs_dirs b' →
  (∀ p q, p ∈ fs_dirs b' → q ∈ fs_dirs b → q `prefix_of` p → q ∈ fs_dirs b') →
  (∀ q f, fs_files b' !! q = Some f → fs_files b !! q = Some f ∧ (removelast q ∈ fs_dirs b → removelast q ∈ fs_dirs b')) → fs_wf b'.
Proof.
  intros [W1 W2 W3 W4 W5 W6] Hd Hr Hc Hf. split; try done.
  - intros p q Hp Hq. eauto.
  - intros p f [Hp Hin]%Hf. eauto.
  - intros n id Hn. eauto.
  - intros p Hp. eauto.
  - intros p f [Hp _]%Hf. eauto.
Qed.

Lemma elem_below p b q : q ∈ below p b ↔ p `prefix_of` q ∧ is_Some (fs_files b !! q).
Proof.
  unfold below. rewrite list_elem_of_filter, list_elem_of_fmap. apply iff_under. intros _. split.
  - intros ([x f] & -> & Hx%elem_of_map_to_list). eauto.
  - intros [f Hf]. exists (q, f). split; [done|]. by apply elem_of_map_to_list.
Qed.

Lemma elem_picked (n : nat) l q : q ∈ picked n l → q ∈ l.
Proof. revert n. induction l as [|x l IH]; intros n; [done|]. simpl. destruct (Nat.odd n); rewrite ?elem_of_cons; naive_solver. Qed.

Lemma prefix_removelast q : removelast q `prefix_of` q.
Proof. destruct q as [|x q]; [done|]. exists [List.last (x :: q) x]. by apply app_removelast_last. Qed.

Lemma removed_wf b p : p ≠ [] → fs_wf b → fs_wf (MkFs (filter (λ q, ¬ p `prefix_of` q) (fs_dirs b)) (foldr delete (fs_files b) (below p b)) (fs_faults b)).
Proof.
  intros Hp Hwf. apply (wf_sub b); [done|simpl..].
  - set_solver.
  - apply elem_of_filter. split; [|by apply (wf_root _ _ Hwf)]. by intros ?%prefix_nil_inv.
  - intros p' q [Hp' Hin]%elem_of_filter Hq Hpre. apply elem_of_filter. split; [|done]. intros ?. apply Hp'. by etrans.
  - intros q f [Hq Hf]%lookup_deletes. split; [done|]. intros Hin. apply elem_of_filter. split; [|done]. intros Hpre. apply Hq, elem_below.
    split; [|eauto]. etrans; [done|apply prefix_removelast].
Qed.

Lemma elem_leaves p b q : q ∈ leaves p b → q ∈ fs_dirs b ∧ p `prefix_of` q ∧ p ≠ q ∧ ∀ q', q' ∈ fs_dirs b → q `prefix_of` q' → q = q'.
Proof.
  unfold leaves, inside. rewrite list_elem_of_filter, elem_of_elements, Forall_forall. intros [[Hi Hl] Hq].
  apply andb_true_iff in Hi as [H1%bool_decide_eq_true_1 H2%negb_true_iff%bool_decide_eq_false_1]. split_and!; [done..|].
  intros q' Hq' Hpre. specialize (Hl q'). rewrite elem_of_elements in Hl. specialize (Hl Hq').
  rewrite bool_decide_eq_true_2 in Hl by done. by apply negb_false_iff, bool_decide_eq_true_1 in Hl.
Qed.

Lemma removed_some_wf b p (n : nat) : p ≠ [] → fs_wf b → fs_wf (remove_some p n b) ∧
  (∀ q, q ∈ fs_dirs b → ¬ (p `prefix_of` q ∧ p ≠ q) → q ∈ fs_dirs (remove_some p n b)).
Proof.
  intros Hp Hwf. unfold remove_some. set (files := foldr _ _ _). set (gone := filter _ _).
  assert (∀ q, q ∈ gone → q ∈ leaves p b ∧ ∀ x f, files !! x = Some f → ¬ q `prefix_of` x) as Hg.
  { intros q [Hf Hq%elem_picked]%list_elem_of_filter. split; [done|]. intros x f Hx. rewrite Forall_forall in Hf. apply Hf.
    apply list_elem_of_fmap. exists (x, f). split; [done|]. by apply elem_of_map_to_list. }
  split; [apply (wf_sub b); [done|simpl..]|].
  - set_solver.
  - apply elem_of_difference. split; [by apply (wf_root _ _ Hwf)|]. rewrite elem_of_list_to_set. intros [(_ & Hpre%prefix_nil_inv & _)%elem_leaves _]%Hg. done.
  - intros p' q [Hp' Hin]%elem_of_difference Hq Hpre. apply elem_of_difference. split; [done|]. rewrite elem_of_list_to_set in Hin |- *.
    intros Hqg. destruct (Hg _ Hqg) as [(_ & _ & _ & Hl)%elem_leaves _]. by rewrite (Hl p') in Hqg.
  - intros q f Hq. split; [by apply lookup_deletes in Hq as [_ ?]|]. intros Hin. apply elem_of_difference. split; [done|]. rewrite elem_of_list_to_set.
    intros [_ Hx]%Hg. by apply (Hx _ _ Hq), prefix_removelast.
  - intros q Hq Hn. simpl. apply elem_of_difference. split; [done|]. rewrite elem_of_list_to_set. intros [(_ & H1 & H2 & _)%elem_leaves _]%Hg. tauto.
Qed.

(** What is left of a task when its removal fails. *)
Definition left_over (id : uuid) b c : contents := Contents
  (if fs_files b !! task_path id is Some _ then c_tasks c else delete id (c_tasks c))
  (<[id := events_of b id]> (c_events c))
  (filter (λ kv, kv.1.1 = id → is_Some (fs_files b !! blob_path id kv.1.2)) (c_blobs c)).

Lemma rep_left_over b b' c g id : represents b c g → fs_wf b' → same_but (λ q, task_dir id `prefix_of` q) b b' →
  (∀ q f, fs_files b' !! q = Some f → fs_files b !! q = Some f) → (∀ x, x ∈ ready g → task_dir x ∈ fs_dirs b') →
  represents b' (left_over id b' c) g ∧ agree_except id c (left_over id b' c).
Proof.
  intros Hr Hwf Hs Hsub Hrd.
  assert (∀ q d, is_Some (fs_files b' !! q) → holds b' q d ↔ holds b q d) as Hh.
  { intros q d [f Hf]. unfold holds. by rewrite Hf, (Hsub _ _ Hf). }
  assert (agree_except id c (left_over id b' c)) as Ha.
  { split_and!; simpl.
    - intros id' Hne. destruct (fs_files b' !! task_path id); [done|]. by rewrite lookup_delete_ne.
    - intros id' Hne. by rewrite lookup_insert_ne.
    - intros id' k Hne. destruct (c_blobs c !! (id', k)) as [d|] eqn:Ed; [|by apply map_lookup_filter_None; left].
      apply map_lookup_filter_Some. split; [done|]. simpl. by intros ?. }
  split; [|done]. eapply rep_cut; [exact Hr|done..| | | |done| |done].
  - intros t. simpl. destruct (fs_files b' !! task_path id) eqn:Et.
    + rewrite Hh by eauto. apply Hr.
    + rewrite lookup_delete_eq. split; [done|]. intros [m Hm]. congruence.
  - unfold events_at. simpl. by rewrite lookup_insert_eq.
  - intros k d. simpl. rewrite map_lookup_filter_Some. simpl. rewrite (rp_blobs _ _ _ _ Hr). split.
    + intros [[Hk Hd] Hin]. split; [done|]. apply Hh; auto.
    + intros [Hk Hd]. assert (is_Some (fs_files b' !! blob_path id k)) as Hin by (destruct Hd; eauto). split; [split; [done|by apply Hh]|done].
  - etrans; [|apply (rp_boundary _ _ _ _ Hr)]. unfold compacted. destruct (fs_files b' !! compact_path id) as [f|] eqn:Ef; [by rewrite (Hsub _ _ Ef)|].
    apply max_id_nonneg.
Qed.

Lemma rep_removed b b' c g id : represents b c g → fs_wf b' → same_but (λ q, task_dir id `prefix_of` q) b b' →
  (∀ q f, fs_files b' !! q = Some f → ¬ task_dir id `prefix_of` q) → (∀ x, x ∈ ready g → x ≠ id → task_dir x ∈ fs_dirs b') →
  represents b' (del_task id c) (after_call (CRemoveTask id) true g).
Proof.
  intros Hr Hwf Hs Hgone Hrd.
  assert (∀ l d, ¬ holds b' (uuid_String id :: l) d) as Hno. { intros l d [m Hm]. apply (Hgone _ _ Hm). by exists l. }
  assert (compacted b' id = []) as Hc.
  { unfold compacted. destruct (fs_files b' !! compact_path id) as [f|] eqn:Ef; [|done]. destruct (Hgone _ _ Ef). by eexists. }
  eapply rep_cut; [exact Hr|done..| | | | | | |]; simpl.
  - split_and!; simpl; intros id' *; [intros Hne; by rewrite lookup_delete_ne..|]. intros Hne.
    destruct (c_blobs c !! (id', k)) as [d|] eqn:Ed; [by apply map_lookup_filter_Some|by apply map_lookup_filter_None; left].
  - intros t. rewrite lookup_delete_eq. split; [done|]. by intros ?%Hno.
  - unfold events_at. simpl. rewrite lookup_delete_eq. simpl. symmetry. apply map_empty. intros k. apply eq_None_not_Some.
    intros [e He]. apply (events_lookup line_size) in He; [|done]. rewrite Hc in He. destruct He as [[?%not_elem_of_nil _]|(_ & _ & _ & ?%Hno)]; done.
  - intros k d. rewrite map_lookup_filter_Some. simpl. split; [naive_solver|]. by intros [_ ?%Hno].
  - intros x [Hx Hne]%elem_of_difference. apply Hrd; set_solver.
  - rewrite Hc, decide_True by done. done.
  - intros x Hne. by rewrite decide_False.
Qed.

Lemma RemoveTask_sim id b c g : represents b c g → simulated (CRemoveTask id) b c g.
Proof.
  intros Hr. unfold simulated, fs_do, RemoveTask. destruct (RemoveAll (task_dir id) b) as [r b'] eqn:E.
  apply syscall_cases in E as (b0 & Ht & Hn & E). apply (rep_tree _ _ _ _ Ht) in Hr.
  assert (∀ x, task_dir id `prefix_of` task_dir x → task_dir id = task_dir x) as Hdir.
  { intros x [l Hl]. destruct l; [by rewrite app_nil_r in Hl|discriminate Hl]. }
  destruct E as [(n & -> & -> & Hf)|E].
  - destruct (removed_some_wf b0 (task_dir id) n) as [Hwf Hd]; [done|apply Hr|].
    destruct (rep_left_over b0 (remove_some (task_dir id) n b0) c g id Hr Hwf) as [Hr' Ha].
    + intros q _ Hq. simpl. apply lookup_foldr_delete_not_elem_of. by intros [? _]%elem_picked%elem_below.
    + intros q f [_ Hq]%lookup_deletes. done.
    + intros x Hx. apply Hd; [by apply Hr|]. intros [H1 H2]. by apply H2, Hdir.
    + eexists. split; [split; [exact Ha|done]|]. by split.
  - simplify_eq. exists (del_task id c). split; [done|]. split; [|done]. apply (rep_removed b0); [done|by apply removed_wf, Hr|..].
    + intros q _ Hq. simpl. apply lookup_foldr_delete_not_elem_of. by intros [? _]%elem_below.
    + intros q f [Hq Hf]%lookup_deletes Hpre. apply Hq, elem_below. eauto.
    + intros x Hx Hne. simpl. apply elem_of_filter. split; [|by apply Hr]. intros [l [= E%uuid_text_inj _]]. by subst.
Qed.

(** *** Compaction *)

Lemma ReadDir_cases p b r b' : ReadDir p b = (r, b') → same_tree b b' ∧ (no_faults b → no_faults b') ∧
  ((r = Err EIO ∧ ¬ no_faults b) ∨
   r = (if decide (p ∈ fs_dirs b) then Ok (entries p b) else if is_file b p then Err ENOTDIR else Err ErrNotExist)).
Proof.
  intros (b0 & Ht & Hn & [(n & -> & -> & Hf)|E])%syscall_cases.
  - unfold nothing. split; [done|]. split; [done|by left].
  - simplify_eq. split; [done|]. split; [done|]. right. rewrite (entries_tree _ _ _ Ht). destruct Ht as [Ed Ef]. unfold is_file. by rewrite Ef, Ed.
Qed.

Lemma sorted_before (M : gmap Z TaskEvent) : keyed M → StronglySorted before (sorted_events M).
Proof.
  intros Hk. pose proof (sorted_events_increasing tbl M Hk) as Hs. induction (sorted_events M) as [|e l IH]; [constructor|].
  rewrite fmap_cons in Hs. apply StronglySorted_inv in Hs as [Hs He]. constructor; [by apply IH|]. rewrite Forall_fmap in He. exact He.
Qed.

Lemma events_ok b id (m : Z) : fs_wf b →
  file_ok id (compact_path id) (DocEvents (sorted_events (filter (λ kv, kv.1 <= m) (events_of b id)))).
Proof.
  intros Hwf. pose proof (events_keyed _ b id Hwf) as Hk. constructor.
  - apply sorted_before. intros k e [He _]%map_lookup_filter_Some. by apply Hk.
  - apply Forall_forall. intros e [He _]%elem_sorted_filter; [|done]. apply (events_lookup line_size) in He; [|done].
    destruct (compacted_ok _ b id Hwf) as [_ Hok]. rewrite Forall_forall in Hok. destruct He as [[He _]|(_ & _ & He & _)]; auto.
Qed.

Lemma rep_boundary_mono b c g g' : represents b c g → ready g' ⊆ ready g → (∀ x, boundary g x <= boundary g' x) → represents b c g'.
Proof. intros [R1 R2 R3 R4 R5 R6] Er Hb. split; try done; [intros x Hx; by apply R5, Er|]. intros x. etrans; [apply R6|apply Hb]. Qed.

Lemma Remove_trace_rep b c g id n seq : represents b c g → parseNumberedTraceFile n = Some seq → seq <= max_id (compacted b id) →
  let b' := (Remove (traces_dir id ++ [n])%list b).2 in
  represents b' c g ∧ compacted b' id = compacted b id ∧ (no_faults b → no_faults b').
Proof.
  intros Hr Hn Hseq. destruct (Remove _ b) as [r b'] eqn:E. simpl. apply syscall_cases in E as (b0 & Ht & Hf & E).
  apply (rep_tree _ _ _ _ Ht) in Hr. assert (compacted b0 id = compacted b id) as Hc by (unfold compacted; by rewrite (proj2 Ht)).
  rewrite <-Hc in *. clear Ht Hc. destruct E as [(i & -> & -> & _)|E]; [done|].
  assert ((traces_dir id ++ [n])%list ∉ fs_dirs b0) as Hd.
  { intros Hd. apply (wf_dirs _ _ (rp_wf _ _ _ _ Hr)) in Hd as [?|(x & [?|[?|?]])]; done. }
  rewrite (decide_False (P:=_ ∈ fs_dirs b0)) in E by done. destruct (is_file b0 _); simplify_eq; [|done].
  split; [by eapply (rep_uncover _ b0)|]. split; [|done].
  eapply same_compacted; [by apply (same_delete b0)|]. intros [_ ->]%(trace_inj id id _ "compact.ndjson"). vm_compute in Hn. done.
Qed.

Lemma remove_covered_rep es b c g id maxID : represents b c g → maxID <= max_id (compacted b id) →
  represents (remove_covered id maxID es b) c g ∧ (no_faults b → no_faults (remove_covered id maxID es b)).
Proof.
  revert b. induction es as [|[n d] es IH]; intros b Hr Hm; [done|]. cbn [remove_covered].
  destruct (if d then None else parseNumberedTraceFile n) as [seq|] eqn:Es; [|by apply IH]. destruct d; [done|].
  destruct (Z.ltb_spec maxID seq) as [Hlt|Hle]; [by apply IH|].
  destruct (Remove_trace_rep b c g id n seq Hr Es) as (Hr' & Hc & Hf); [lia|].
  destruct (IH _ Hr') as [Hr2 Hf2]; [by rewrite Hc|]. split; [done|]. auto.
Qed.

Lemma CompactEvents_sim id evs b c g : represents b c g → permitted line_size (CCompactEvents id evs) c g → simulated (CCompactEvents id evs) b c g.
Proof.
  intros Hr (m & Hm & Ev). unfold simulated, fs_do, CompactEvents.
  assert (∀ b ok, represents b c g → represents b c (after_call (CCompactEvents id evs) ok g)) as Hmono.
  { intros b' ok Hr'. eapply rep_boundary_mono; [done..|]. intros x. simpl. case_decide; subst; lia. }
  destruct (ReadDir (traces_dir id) b) as [rd b0] eqn:E0. apply ReadDir_cases in E0 as (Ht & Hn & _). pose proof (rep_tree _ _ _ _ Ht Hr) as Hr0.
  destruct rd as [es|[]]; [|exists c; (split; [done|]); (split; [by apply Hmono|done])..].
  destruct (atomic_Write temp_suffix _ _ b0) as [r b1] eqn:E1.
  apply (atomic_Write_rep id _ _ _ _ _ c g) in E1 as (Ed & Hn' & Hres); [|done|subst evs; rewrite (rp_events _ _ _ _ Hr0); apply events_ok, Hr0|apply compact_path_not_temp].
  destruct r as [[]|err].
  2: { exists c. split; [done|]. split; [by apply Hmono|]. intros ?%Hn. by apply Hn'. }
  destruct Hres as [Hwf Hf]. subst evs. pose proof (rep_compact _ b0 b1 c g 420 Hr0 Hwf ltac:(by rewrite Ed) id m Hm Hf) as Hr1. simpl in Hr1.
  set (evs := sorted_events _) in *.
  destruct (remove_covered_rep es b1 c _ id (max_id evs) Hr1) as [Hr2 Hf2].
  { unfold compacted. by rewrite Hf, lookup_insert_eq. }
  exists c. split; [done|]. split; [done|]. intros ?%Hn. by apply Hf2, Hn'.
Qed.

(** *** Loading events *)

Definition trace_event b id (bd : Z) (x : string * bool) : option TaskEvent :=
  match (if x.2 then None else parseNumberedTraceFile x.1) with
  | Some seq => if Z.leb seq bd then None
                else match fs_files b !! (traces_dir id ++ [x.1])%list with Some (MkFile (DocEvent e) _) => Some e | _ => None end
  | None => None
  end.

Lemma trace_event_Some b id bd n d e : fs_wf b → trace_event b id bd (n, d) = Some e ↔
  d = false ∧ n = trace_name (ev_ID e) ∧ bd < ev_ID e ∧ event_ok line_size e ∧ holds b (trace_path id (ev_ID e)) (DocEvent e).
Proof.
  intros Hwf. unfold trace_event. simpl fst; simpl snd. split.
  - destruct d; [done|]. destruct (parseNumberedTraceFile n) as [seq|] eqn:En; [|done]. destruct (Z.leb_spec seq bd); [done|].
    destruct (fs_files b !! _) as [[[] m]|] eqn:Ef; try done. intros [= <-].
    destruct (trace_named _ _ _ _ _ _ _ Hwf Ef En) as (<- & Hok & ->). split_and!; [done..| |by exists m]. by destruct Hok.
  - intros (-> & -> & Hb & Hok & m & Hm). rewrite parse_trace_name by (destruct Hok; lia). destruct (Z.leb_spec (ev_ID e) bd); [lia|].
    change (traces_dir id ++ [trace_name (ev_ID e)])%list with (trace_path id (ev_ID e)). by rewrite Hm.
Qed.

Lemma merge_traces_tree id bd es evs mx b : same_tree b (merge_traces id bd es evs mx b).2 ∧ (no_faults b → no_faults (merge_traces id bd es evs mx b).2).
Proof.
  revert evs mx b. induction es as [|[n d] es IH]; intros evs mx b; [done|]. cbn [merge_traces].
  destruct (if d then None else parseNumberedTraceFile n) as [seq|]; [|apply IH]. destruct (Z.leb seq bd); [apply IH|].
  destruct (ReadFile _ b) as [r b1] eqn:E. apply ReadFile_cases in E as ([Ed Ef] & Hn & _).
  assert (∀ evs mx, same_tree b (merge_traces id bd es evs mx b1).2 ∧ (no_faults b → no_faults (merge_traces id bd es evs mx b1).2)) as Hgo.
  { intros evs' mx'. destruct (IH evs' mx' b1) as [[Ed' Ef'] Hn']. split; [split; congruence|]. auto. }
  destruct r as [[]|]; apply Hgo.
Qed.

Lemma merge_traces_value b id bd es evs mx b0 : fs_wf b → same_tree b b0 → no_faults b0 →
  (merge_traces id bd es evs mx b0).1 =
  ((evs ++ omap (trace_event b id bd) es)%list,
   foldl (λ m e, if Z.ltb m (ev_ID e) then ev_ID e else m) mx (omap (trace_event b id bd) es)).
Proof.
  intros Hwf. revert evs mx b0. induction es as [|[n d] es IH]; intros evs mx b0 Ht Hn; [simpl; by rewrite app_nil_r|].
  cbn [merge_traces omap list_omap].
  assert (trace_event b id bd (n, d) = match (if d then None else parseNumberedTraceFile n) with
    | Some seq => if Z.leb seq bd then None
                  else match fs_files b !! (traces_dir id ++ [n])%list with Some (MkFile (DocEvent e) _) => Some e | _ => None end
    | None => None end) as -> by done.
  destruct (if d then None else parseNumberedTraceFile n) as [seq|] eqn:Es; [|by apply IH]. destruct (Z.leb seq bd); [by apply IH|].
  destruct (ReadFile _ b0) as [r b1] eqn:E. apply ReadFile_cases in E as ([Ed Ef] & Hn' & Hres). destruct Hres as [[_ ?]|Hres]; [done|].
  destruct Ht as [Td Tf]. assert (same_tree b b1) as Ht1 by (split; congruence). specialize (Hn' Hn). rewrite Tf in Hres.
  destruct (fs_files b !! _) as [[[] m]|] eqn:Efile; subst r; simpl; try (by apply IH); [|case_decide; by apply IH].
  destruct d; [done|]. destruct (trace_named _ _ _ _ _ _ _ Hwf Efile Es) as (-> & _). rewrite IH by done. by rewrite <-app_assoc.
Qed.

#[local] Instance event_le_trans : Transitive event_le.
Proof. intros x y z. unfold event_le. lia. Qed.

#[local] Instance event_le_total : Total event_le.
Proof. intros x y. unfold event_le. lia. Qed.

Lemma max_id_app l l' : max_id (l ++ l') = foldl (λ m e, if Z.ltb m (ev_ID e) then ev_ID e else m) (max_id l) l'.
Proof. unfold max_id. by rewrite foldl_app. Qed.

(** The events read, sorted, are the stored ones. *)
Lemma events_read b id es : fs_wf b → (∀ n d, (n, d) ∈ es ↔ (n, d) ∈ entries (traces_dir id) b) → NoDup es →
  let evs := (compacted b id ++ omap (trace_event b id (max_id (compacted b id))) es)%list in
  merge_sort event_le evs = sorted_events (events_of b id) ∧ max_id evs = max_seq (events_of b id).
Proof.
  intros Hwf Hes Hnd evs. destruct (compacted_ok _ b id Hwf) as [Hsort Hok].
  assert (∀ e, e ∈ evs ↔ events_of b id !! ev_ID e = Some e) as Hin.
  { intros e. unfold evs. rewrite elem_of_app, list_elem_of_omap, (events_lookup line_size) by done. split.
    - intros [?|([n d] & _ & (_ & _ & ? & ? & ?)%trace_event_Some)]; [by left|right; auto|done].
    - intros [[? _]|(H1 & _ & H2 & H3)]; [by left|right]. exists (trace_name (ev_ID e), false). rewrite trace_event_Some by done. split; [|done].
      apply Hes, elem_entries. destruct H3 as [m Hm]. by exists (MkFile (DocEvent e) m). }
  assert (NoDup evs) as Hevs.
  { apply NoDup_app. split_and!.
    - clear -Hsort. induction Hsort as [|x l _ IH Hx]; [constructor|]. constructor; [|done]. rewrite Forall_forall in Hx. intros ?%Hx. unfold before in *. lia.
    - intros e He%max_id_bound. rewrite list_elem_of_omap. intros ([n d] & _ & (_ & _ & Hb & _)%trace_event_Some); [lia|done].
    - apply NoDup_omap; [done|]. intros [n d] [n' d'] e _ _ (-> & -> & _)%trace_event_Some (-> & -> & _)%trace_event_Some; done. }
  split.
  - rewrite (sorted_events_of _ ((λ e, (ev_ID e, e)) <$> merge_sort event_le evs)).
    + rewrite <-list_fmap_compose. symmetry. apply list_fmap_id.
    + assert (StronglySorted event_le (merge_sort event_le evs)) as Hs by (apply StronglySorted_merge_sort; apply _).
      induction Hs as [|x l _ IH Hx]; [constructor|]. rewrite fmap_cons. constructor; [done|]. apply Forall_fmap. exact Hx.
    + rewrite merge_sort_Permutation. apply NoDup_Permutation; [by apply NoDup_fmap; [intros ?? [= _ ->]|]|apply NoDup_map_to_list|].
      intros [k e]. rewrite elem_of_map_to_list, list_elem_of_fmap. split; [intros (x & [= -> ->] & Hx); by apply Hin|].
      intros Hk. assert (ev_ID e = k) as <- by (by apply (events_keyed line_size b id Hwf)). exists e. split; [done|]. by apply Hin.
  - apply Z.le_antisymm.
    + destruct (max_id_attained evs) as [->|(e & He%Hin & <-)]; [apply max_seq_nonneg|]. by apply (max_seq_ge _ _ e).
    + destruct (max_seq_In (events_of b id)) as [->|[e He]]; [apply max_id_nonneg|].
      assert (ev_ID e = max_seq (events_of b id)) as E by (by apply (events_keyed line_size b id Hwf)). rewrite <-E in *. by apply max_id_bound, Hin.
Qed.

Lemma read_compact_cases id b r b' : read_compact line_size id b = (r, b') → fs_wf b →
  same_tree b b' ∧ (no_faults b → no_faults b' ∧ r = Ok (compacted b id)).
Proof.
  unfold read_compact. destruct (ReadFile (compact_path id) b) as [x b1] eqn:E. apply ReadFile_cases in E as (Ht & Hn & Hres). intros Hr Hwf.
  assert (b' = b1) as -> by (destruct x as [[]|[]]; by simplify_eq). split; [done|]. intros Hb. split; [by apply Hn|].
  destruct Hres as [[_ ?]|Hres]; [done|]. destruct (compacted_ok _ b id Hwf) as [_ Hok]. unfold compacted in *.
  destruct (fs_files b !! compact_path id) as [[d m]|]; subst x; simpl in *.
  - destruct d as [| |l| |]; simplify_eq; try done. destruct (existsb (too_long line_size) l) eqn:Ex; [|done].
    apply existsb_exists in Ex as (e & He%list_elem_of_In & Hl). rewrite Forall_forall in Hok. destruct (Hok _ He). congruence.
  - destruct (decide _) as [Hd|_]; [|by simplify_eq]. apply (wf_dirs _ _ Hwf) in Hd as [?|(? & [?|[?|?]])]; done.
Qed.

Lemma no_dir_no_events b id : fs_wf b → traces_dir id ∉ fs_dirs b → events_of b id = ∅.
Proof.
  intros Hwf Hd. assert (∀ n d, ¬ holds b (traces_dir id ++ [n])%list d) as Hno.
  { intros n d [m Hm]. apply (wf_parent _ _ Hwf) in Hm. by rewrite removelast_last in Hm. }
  assert (compacted b id = []) as Hc.
  { unfold compacted. destruct (fs_files b !! compact_path id) as [[d m]|] eqn:Ef; [|done]. destruct (Hno "compact.ndjson" d). by exists m. }
  apply map_empty. intros k. apply eq_None_not_Some. intros [e He]. apply (events_lookup line_size) in He; [|done]. rewrite Hc in He.
  destruct He as [[?%not_elem_of_nil _]|(_ & _ & _ & He)]; [done|]. by apply (Hno (trace_name k) (DocEvent e)).
Qed.

Lemma LoadEvents_sim id b c g : represents b c g → simulated (CLoadEvents id) b c g.
Proof.
  intros Hr. unfold simulated, fs_do, LoadEvents. destruct (ReadDir (traces_dir id) b) as [rd b0] eqn:E0.
  pose proof (rp_wf _ _ _ _ Hr) as Hwf. pose proof (dir_not_file b id (traces_dir id) Hwf ltac:(by right; left)) as Hnf.
  apply ReadDir_cases in E0 as (Ht & Hn & Hres). unfold is_file in Hres. rewrite Hnf in Hres. pose proof (rep_tree _ _ _ _ Ht Hr) as Hr0.
  destruct rd as [es|err].
  2: { assert (no_faults b → err = ErrNotExist ∧ events_at c id = ∅) as Hno.
    { intros Hb. destruct Hres as [[_ ?]|Hres]; [done|]. destruct (decide _) as [|Hd]; simpl in Hres; simplify_eq.
      split; [done|]. rewrite (rp_events _ _ _ _ Hr). by apply no_dir_no_events. }
    destruct err; (exists c; split; [split; [done|]|by split]); intros [E1 E2]%Hno; rewrite ?E2; done. }
  destruct (read_compact line_size id b0) as [rc b1] eqn:E1. apply read_compact_cases in E1 as (Ht1 & Hn1); [|by apply Hr0].
  destruct rc as [events|err].
  2: { exists c. split; [split; [done|]; by intros [_ ?]%Hn%Hn1|]. split; [by apply (rep_tree b0)|]. by intros [? _]%Hn%Hn1. }
  destruct (merge_traces_tree id (max_id events) es events (max_id events) b1) as [Ht2 Hn2].
  destruct (merge_traces _ _ es _ _ b1) as [[evs mx] b2] eqn:E2. simpl in Ht2, Hn2.
  exists c. split; [split; [done|]|split; [apply (rep_tree b1); [done|]; by apply (rep_tree b0)|by intros [? _]%Hn%Hn1; auto]].
  intros Hb. destruct Hres as [[_ ?]|Hres]; [done|]. destruct (decide _); simpl in Hres; [|done]. injection Hres as ->.
  pose proof (Hn Hb) as Hb0. destruct (Hn1 Hb0) as [Hb1 [= ->]].
  assert (compacted b0 id = compacted b id) as Hc by (unfold compacted; by rewrite (proj2 Ht)). rewrite Hc in *.
  assert (same_tree b b1) as Ht' by (destruct Ht, Ht1; split; congruence).
  pose proof (merge_traces_value b id (max_id (compacted b id)) (entries (traces_dir id) b) (compacted b id) (max_id (compacted b id)) b1 Hwf Ht' Hb1) as Hv.
  rewrite E2 in Hv. injection Hv as -> ->. destruct (events_read b id (entries (traces_dir id) b) Hwf) as [Hv1 Hv2]; [done|apply entries_NoDup|].
  rewrite (rp_events _ _ _ _ Hr), <-Hv1, <-Hv2, max_id_app. done.
Qed.

(** *** Owners of a blob *)

Definition owner b k (x : string * bool) : option uuid :=
  match (if x.2 then uuid_Parse x.1 else None) with
  | Some id => if is_file b (x.1 :: clean_parts k) || bool_decide ((x.1 :: clean_parts k) ∈ fs_dirs b) then Some id else None
  | None => None
  end.

Lemma Stat_cases p b r b' : Stat p b = (r, b') → same_tree b b' ∧ (no_faults b → no_faults b' ∧ is_ok r = is_file b p || bool_decide (p ∈ fs_dirs b)).
Proof.
  intros (b0 & [Ed Ef] & Hn & [(n & -> & -> & Hf)|E])%syscall_cases.
  - unfold nothing. split; [by split|]. by intros ?%Hf.
  - simplify_eq. split; [by split|]. intros Hb. split; [by apply Hn|]. unfold is_file. rewrite Ef, Ed. by case_match.
Qed.

Lemma owners_of_cases k es b : same_tree b (owners_of k es b).2 ∧
  (no_faults b → no_faults (owners_of k es b).2 ∧ ∀ b0, same_tree b0 b → (owners_of k es b).1 = omap (owner b0 k) es).
Proof.
  revert b. induction es as [|[n d] es IH]; intros b; [by split|]. cbn [owners_of omap list_omap].
  assert (∀ b0, owner b0 k (n, d) = match (if d then uuid_Parse n else None) with
    | Some id => if is_file b0 (n :: clean_parts k) || bool_decide ((n :: clean_parts k) ∈ fs_dirs b0) then Some id else None
    | None => None end) as Ho by done.
  destruct (if d then uuid_Parse n else None) as [id|] eqn:Ei.
  2: { destruct (IH b) as [Ht Hn]. split; [done|]. intros Hb. split; [by apply Hn|]. intros b0 H0. rewrite Ho. by apply Hn. }
  destruct (Stat (n :: clean_parts k) b) as [st b1] eqn:E1. apply Stat_cases in E1 as (Ht1 & Hn1).
  destruct (IH b1) as [Ht Hn]. destruct (owners_of k es b1) as [ids b2]. simpl in *. destruct Ht1 as [D1 F1].
  split; [destruct Ht; split; congruence|]. intros [Hb1 Hst]%Hn1. destruct (Hn Hb1) as [Hb2 Hv]. split; [done|].
  intros b0 [D0 F0]. rewrite Ho, Hst, (Hv b0) by (split; congruence). unfold is_file. rewrite F0, D0. destruct (bool_decide _ || bool_decide _); reflexivity.
Qed.

Lemma ListBlobOwners_sim k b c g : represents b c g → blob_key k → simulated (CListBlobOwners k) b c g.
Proof.
  intros Hr Hk. unfold simulated, fs_do, ListBlobOwners. destruct (ReadDir [] b) as [rd b0] eqn:E0. pose proof (rp_wf _ _ _ _ Hr) as Hwf.
  apply ReadDir_cases in E0 as (Ht & Hn & Hres). rewrite decide_True in Hres by apply Hwf. pose proof (rep_tree _ _ _ _ Ht Hr) as Hr0.
  destruct rd as [es|err].
  2: { exists c. destruct Hres as [[_ Hf]|?]; [|done]. split; [by split|]. by split. }
  destruct (owners_of_cases k es b0) as [Ht1 Hn1]. destruct (owners_of k es b0) as [ids b1]. simpl in *.
  exists c. split; [split; [done|]|split; [by apply (rep_tree b0)|intros ?%Hn; by apply Hn1]].
  intros Hb. destruct Hres as [[_ ?]|[= ->]]; [done|]. exists ids. split; [done|]. rewrite (proj2 (Hn1 (Hn Hb)) b Ht). clear -Hr Hwf Hk.
  assert (∀ n d id, (n, d) ∈ entries [] b → owner b k (n, d) = Some id ↔ d = true ∧ n = uuid_String id ∧ is_Some (c_blobs c !! (id, k))) as Ho.
  { intros n d id Hin. unfold owner. simpl fst; simpl snd. destruct d; [|naive_solver]. apply elem_entries in Hin. simpl in Hin.
    destruct (uuid_Parse n) as [id'|] eqn:Ep.
    2: { split; [done|]. intros (_ & -> & _). by rewrite uuid_Parse_String in Ep. }
    apply (wf_names _ _ Hwf) in Ep as Es; [|done]. subst n. destruct (blob_at b c g id' k Hr Hk) as [Hd Hb]. unfold blob_path in *.
    rewrite (bool_decide_eq_false_2 (_ ∈ fs_dirs b)) by done. unfold is_file.
    destruct (fs_files b !! _); simpl; [destruct Hb as (x & _ & Hx)|]; (split; [intros [= <-]|intros (_ & <-%uuid_text_inj & Hs)]); try done; eauto.
    rewrite Hb in Hs. by destruct Hs. }
  split.
  - apply NoDup_omap; [apply entries_NoDup|]. intros [n d] [n' d'] id Hx Hy (-> & -> & _)%(Ho _ _ _ Hx) (-> & -> & _)%(Ho _ _ _ Hy). done.
  - intros id. rewrite list_elem_of_omap. split.
    + intros ([n d] & Hx & (_ & _ & ?)%(Ho _ _ _ Hx)). done.
    + intros [x Hx]. assert ((uuid_String id, true) ∈ entries [] b) as Hin.
      { apply elem_entries. simpl. apply (rp_blobs _ _ _ _ Hr) in Hx as [_ [m Hm]]. apply (wf_parent _ _ Hwf) in Hm as Hp.
        destruct (blob_dir id k Hk) as (dir & n & Ep & Hdir). rewrite Ep, removelast_last in Hp. by apply (task_dir_prefix b id dir). }
      exists (uuid_String id, true). split; [done|]. apply Ho; eauto.
Qed.

(** *** Loading the tasks *)

Definition migrating (t : Task) (tc : Task * bool) : Prop := ID tc.1 = ID t ∧ (tc.2 = false → tc.1 = t).

Lemma mig_migrating t cond f tc : (∀ t, ID (f t) = ID t) → migrating t tc → migrating t (mig cond f tc).
Proof. intros Hf [H1 H2]. unfold mig. destruct cond; [|done]. split; [by simpl; rewrite Hf|done]. Qed.

Lemma migrate_migrating order mt t : migrating t (migrate tbl order mt t).
Proof. unfold migrate. repeat (apply mig_migrating; [done|]). by split. Qed.

(** Only the record of [id] can differ, and it is still there. *)
Definition touched_only id c c' : Prop :=
  c_events c' = c_events c ∧ c_blobs c' = c_blobs c ∧ (∀ x, x ≠ id → c_tasks c' !! x = c_tasks c !! x) ∧
  (c_tasks c !! id = None → c_tasks c' !! id = None).

Abbreviation load_task := (load_task temp_suffix tbl mod_time clock sandbox_order).
Abbreviation load_tasks := (load_tasks temp_suffix tbl mod_time clock sandbox_order).

Lemma task_at b c g id t m : represents b c g → fs_files b !! task_path id = Some (MkFile (DocTask t) m) → ID t = id ∧ c_tasks c !! id = Some t.
Proof.
  intros Hr Hf. split; [|apply Hr; by exists m]. destruct (wf_files _ _ (rp_wf _ _ _ _ Hr) _ _ Hf) as [id' Ht]. simpl in Ht.
  remember (task_path id) as p eqn:Ep in Ht. inversion Ht as [t' Et E1 E2| | | |dir n d [s Hn] Hd E1 E2]; subst; [by injection E1 as ->%uuid_text_inj|].
  apply (f_equal last) in E1. by rewrite last_snoc in E1.
Qed.

Lemma read_task_cases id b c g r b' : ReadFile (task_path id) b = (r, b') → represents b c g →
  same_tree b b' ∧ (no_faults b → no_faults b') ∧
  match r with
  | Ok (DocTask t) => ∃ m, fs_files b !! task_path id = Some (MkFile (DocTask t) m)
  | _ => no_faults b → c_tasks c !! id = None
  end.
Proof.
  intros (Ht & Hn & Hres)%ReadFile_cases Hr. split; [done|]. split; [done|]. destruct Hres as [[-> Hf]| ->]; [done|].
  destruct (fs_files b !! task_path id) as [[[t| | | |] m]|] eqn:Ef; simpl; [by eauto|..]; [..|case_decide];
    intros _; apply eq_None_not_Some; intros [t [m' Hm]%Hr]; congruence.
Qed.

Lemma load_task_rep id b c g : represents b c g →
  let '(o, b') := load_task (uuid_String id) b in
  ∃ c', represents b' c' g ∧ touched_only id c c' ∧ (no_faults b → no_faults b') ∧
    match o with
    | Some t' => ID t' = id ∧ (∃ t, c_tasks c !! id = Some t ∧ migrated t t') ∧ (no_faults b → c_tasks c' !! id = Some t')
    | None => no_faults b → c_tasks c !! id = None
    end.
Proof.
  intros Hr. unfold load_task. change [uuid_String id; "task.json"] with (task_path id).
  destruct (ReadFile (task_path id) b) as [r b1] eqn:E1. apply (read_task_cases id b c g) in E1 as (Ht1 & Hn1 & Hres); [|done].
  pose proof (rep_tree _ _ _ _ Ht1 Hr) as Hr1. assert (touched_only id c c) as Hcc by done.
  destruct r as [[t| | | |]|]; [|exists c; (split; [done|]); (split; [done|]); by split..].
  destruct Hres as [m Hf]. destruct (task_at _ _ _ _ _ _ Hr Hf) as [Hid Hct].
  destruct (Stat (task_path id) b1) as [st b2] eqn:E2. apply Stat_cases in E2 as (Ht2 & Hn2). pose proof (rep_tree _ _ _ _ Ht2 Hr1) as Hr2.
  assert (no_faults b → no_faults b2) as Hn2' by (intros ?%Hn1; by apply Hn2).
  set (mt := if is_ok st then _ else _). pose proof (migrate_migrating (sandbox_order t) mt t) as [Hm1 Hm2].
  assert (migrated t (migrate tbl (sandbox_order t) mt t).1) as Hmig by (by eexists _, _).
  destruct (migrate tbl (sandbox_order t) mt t) as [t' changed]. cbn [fst snd] in *. destruct changed.
  2: { exists c. specialize (Hm2 eq_refl) as ->. split; [done|]. split; [done|]. split; [done|]. split; [done|]. split; [by eauto|done]. }
  assert (represents b2 c (MkLedger ({[id]} ∪ ready g) (boundary g))) as Hr3.
  { apply rep_ready_add; [done|]. apply (wf_parent _ _ (rp_wf _ _ _ _ Hr)) in Hf. rewrite (proj1 Ht2), (proj1 Ht1). exact Hf. }
  pose proof (SaveTask_sim t' b2 c _ Hr3) as Hs. unfold simulated, fs_do in Hs. destruct (SaveTask temp_suffix t' b2) as [r3 b3].
  destruct Hs as (c' & [-> Hok] & Hr4 & Hn3); [rewrite Hm1, Hid; set_solver|]. exists (if is_ok r3 then put_task t' c else c).
  split; [eapply rep_boundary_mono; [exact Hr4|simpl; set_solver|done]|]. split; [|split; [by auto|]].
  - destruct (is_ok r3); [|done]. split; [done|]. split; [done|]. simpl. rewrite Hm1, Hid. split; [intros x Hx; by rewrite lookup_insert_ne|by rewrite Hct].
  - rewrite Hm1, Hid. split; [done|]. split; [eauto|]. intros Hb. specialize (Hok (Hn2' Hb)). destruct r3; [|done]. simpl. by rewrite Hm1, Hid, lookup_insert_eq.
Qed.

(** What the loop over the entries [es] did, [h]: nothing fails. *)
Record loaded (h : Prop) (es : list (string * bool)) c c' (ts : list Task) : Prop := {
  ld_events : c_events c' = c_events c;
  ld_blobs : c_blobs c' = c_blobs c;
  ld_other id : (uuid_String id, true) ∉ es → c_tasks c' !! id = c_tasks c !! id;
  ld_none id : c_tasks c !! id = None → c_tasks c' !! id = None;
  ld_NoDup : NoDup (ID <$> ts);
  ld_sound t' : t' ∈ ts → (uuid_String (ID t'), true) ∈ es ∧ ∃ t, c_tasks c !! ID t' = Some t ∧ migrated t t';
  ld_all id t : h → (uuid_String id, true) ∈ es → c_tasks c !! id = Some t → ∃ t', t' ∈ ts ∧ ID t' = id ∧ migrated t t' ∧ c_tasks c' !! id = Some t'
}.

Lemma loaded_skip h n d es c c' ts : (∀ id, (uuid_String id, true) ≠ (n, d)) → loaded h es c c' ts → loaded h ((n, d) :: es) c c' ts.
Proof.
  intros Hne [L1 L2 L3 L4 L5 L6 L7]. split; try done.
  - intros id Hid. apply L3. intros ?. apply Hid. by right.
  - intros t' [Hin Ht]%L6. split; [by right|done].
  - intros id t Hh [E|Hin]%elem_of_cons; [by destruct (Hne id)|by apply L7].
Qed.

Lemma loaded_cons h id0 o es c c1 c' ts : (uuid_String id0, true) ∉ es → touched_only id0 c c1 →
  match o with
  | Some t' => ID t' = id0 ∧ (∃ t, c_tasks c !! id0 = Some t ∧ migrated t t') ∧ (h → c_tasks c1 !! id0 = Some t')
  | None => h → c_tasks c !! id0 = None
  end → loaded h es c1 c' ts →
  loaded h ((uuid_String id0, true) :: es) c c' (match o with Some t => t :: ts | None => ts end).
Proof.
  intros Hnin (T1 & T2 & T3 & T4) Ho [L1 L2 L3 L4 L5 L6 L7].
  assert (∀ t', t' ∈ ts → ID t' ≠ id0) as Hts by (intros t' [Hin _]%L6 E; by rewrite E in Hin).
  split.
  - by rewrite L1.
  - by rewrite L2.
  - intros id [Hne Hid]%not_elem_of_cons. rewrite L3, T3; [done|congruence|done].
  - intros id Hid. destruct (decide (id = id0)) as [->|Hne]; [by apply L4, T4|]. apply L4. by rewrite T3.
  - destruct o as [t'|]; [|done]. rewrite fmap_cons. constructor; [|done]. intros (x & E & Hx)%list_elem_of_fmap. destruct Ho as [E' _].
    apply (Hts x Hx). congruence.
  - assert (∀ t', t' ∈ ts → (uuid_String (ID t'), true) ∈ (uuid_String id0, true) :: es ∧ ∃ t, c_tasks c !! ID t' = Some t ∧ migrated t t') as Hgo.
    { intros t' Hin. pose proof (Hts _ Hin). apply L6 in Hin as [Hin Ht]. split; [by right|]. by rewrite T3 in Ht. }
    destruct o as [t'|]; [|done]. destruct Ho as (E & Ht & _). intros x [-> |Hx]%elem_of_cons; [|by apply Hgo]. rewrite E. split; [by left|done].
  - intros id t Hh Hin Hc. destruct (decide (id = id0)) as [->|Hne].
    + destruct o as [t'|]; [|specialize (Ho Hh); congruence]. destruct Ho as (E & (t0 & Ht0 & Hm) & Hc1). assert (t0 = t) as -> by congruence.
      exists t'. split; [by left|]. split; [done|]. split; [done|]. rewrite L3 by done. by apply Hc1.
    + apply elem_of_cons in Hin as [[= ?%uuid_text_inj]|Hin]; [done|]. destruct (L7 id t Hh Hin) as (t' & Ht' & Hrest); [by rewrite T3|].
      exists t'. split; [|done]. destruct o; [by right|done].
Qed.

Lemma load_tasks_rep es b c g : represents b c g → NoDup es → (∀ n id, (n, true) ∈ es → uuid_Parse n = Some id → n = uuid_String id) →
  let '(ts, b') := load_tasks es b in
  ∃ c', represents b' c' g ∧ (no_faults b → no_faults b') ∧ loaded (no_faults b) es c c' ts.
Proof.
  revert b c. induction es as [|[n d] es IH]; intros b c Hr Hnd Hes.
  { exists c. split; [done|]. split; [done|]. split; try done; [constructor|by intros ? ?%not_elem_of_nil|by intros ? ? _ ?%not_elem_of_nil]. }
  apply NoDup_cons in Hnd as [Hnin Hnd]. assert (∀ n id, (n, true) ∈ es → uuid_Parse n = Some id → n = uuid_String id) as Hes' by (intros; apply Hes; [by right|done]).
  cbn [FsBackend.load_tasks].
  assert ((∀ id, (uuid_String id, true) ≠ (n, d)) ∨ d = true ∧ ∃ id, n = uuid_String id) as [Hne|(-> & id & ->)].
  { destruct d; [|by left]. destruct (uuid_Parse n) as [id|] eqn:Ep; [right; split; [done|]; exists id; apply Hes; [by left|done]|].
    left. intros id [= <-]. by rewrite uuid_Parse_String in Ep. }
  - assert (FsBackend.load_tasks temp_suffix tbl mod_time clock sandbox_order ((n, d) :: es) b = load_tasks es b) as E.
    { cbn [FsBackend.load_tasks]. destruct d; [|done]. simpl. destruct (uuid_Parse n) as [id|] eqn:Ep; [|done].
      destruct (Hne id). by rewrite (Hes n id ltac:(by left) Ep). }
    cbn [FsBackend.load_tasks] in E. rewrite E. specialize (IH b c Hr Hnd Hes'). destruct (load_tasks es b) as [ts b'].
    destruct IH as (c' & Hr' & Hn & Hl). exists c'. split; [done|]. split; [done|]. by apply loaded_skip.
  - rewrite uuid_Parse_String. simpl negb. cbv iota. pose proof (load_task_rep id b c g Hr) as H1.
    destruct (load_task (uuid_String id) b) as [o b1]. destruct H1 as (c1 & Hr1 & Ht & Hn1 & Ho).
    specialize (IH b1 c1 Hr1 Hnd Hes'). destruct (load_tasks es b1) as [ts b2]. destruct IH as (c' & Hr' & Hn & Hl).
    exists c'. split; [done|]. split; [by auto|]. eapply loaded_cons; [done..|]. destruct Hl as [L1 L2 L3 L4 L5 L6 L7]. split; try done.
    intros id' t Hb. by apply L7, Hn1.
Qed.

Lemma LoadAll_sim b c g : represents b c g → simulated CLoadAll b c g.
Proof.
  intros Hr. unfold simulated, fs_do, LoadAll. destruct (ReadDir [] b) as [rd b0] eqn:E0. pose proof (rp_wf _ _ _ _ Hr) as Hwf.
  apply ReadDir_cases in E0 as (Ht & Hn & Hres). rewrite decide_True in Hres by apply Hwf. pose proof (rep_tree _ _ _ _ Ht Hr) as Hr0.
  destruct rd as [es|err].
  2: { exists c. destruct Hres as [[_ Hf]|?]; [|done]. split; [|by split]. by split_and!. }
  destruct Hres as [[? _]|[= ->]]; [done|].
  pose proof (load_tasks_rep (entries [] b) b0 c g Hr0 (entries_NoDup _ _)) as Hl. destruct (load_tasks (entries [] b) b0) as [ts b1].
  destruct Hl as (c' & Hr' & Hn' & [L1 L2 L3 L4 L5 L6 L7]).
  { intros n id Hin Hp. apply elem_entries in Hin. by apply (wf_names _ _ Hwf). }
  exists c'. split; [|split; [done|by auto]]. split; [done|]. split; [done|]. split; [by intros ? [= <-]|].
  intros Hb. exists ts. split; [done|]. split; [intros t' Hin; by apply L6|]. split; [|done]. intros id t Hc. apply L7; [by apply Hn| |done].
  apply elem_entries. simpl. apply (rp_tasks _ _ _ _ Hr) in Hc as [m Hm]. by apply (wf_parent _ _ Hwf) in Hm.
Qed.

(** Every call. *)
Lemma fs_simulates x b c g : represents b c g → permitted line_size x c g → simulated x b c g.
Proof.
  intros Hr Hp. destruct x; simpl in Hp.
  - by apply Init_sim.
  - by apply LoadAll_sim.
  - by apply SaveTask_sim.
  - by apply RemoveTask_sim.
  - destruct Hp as (? & ? & ?). by apply SaveEvent_sim.
  - by apply LoadEvents_sim.
  - by apply CompactEvents_sim.
  - by apply SaveBlob_sim.
  - by apply ReadBlob_sim.
  - by apply DeleteBlob_sim.
  - by apply ListBlobOwners_sim.
Qed.

Lemma new_represents faults b : NewFilesystemBackend (MkFs ∅ ∅ faults) = (Ok tt, b) → represents b (Contents ∅ ∅ ∅) (MkLedger ∅ (λ _, 0)).
Proof.
  intros (b0 & [Ed Ef] & _ & [(n & [=] & _)|E])%syscall_cases. simpl in *. destruct (_ || _); simplify_eq.
  assert (∀ p, p ∈ fs_dirs (add_dirs (prefixes []) b0) ↔ p = []) as Hd by (intros p; simpl; rewrite Ed; set_solver).
  assert (∀ p, fs_files (add_dirs (prefixes []) b0) !! p = None) as Hf by (intros p; simpl; rewrite Ef; apply lookup_empty).
  assert (∀ p d, ¬ holds (add_dirs (prefixes []) b0) p d) as Hh by (intros p d [m Hm]; by rewrite Hf in Hm).
  assert (fs_wf (add_dirs (prefixes []) b0)) as Hwf.
  { split; intros *; rewrite ?Hd, ?Hf; try done; [|by left]. by intros -> ->%prefix_nil_inv. }
  assert (∀ id, compacted (add_dirs (prefixes []) b0) id = []) as Hc by (intros id; unfold compacted; by rewrite Hf).
  split; [done|..].
  - intros id t. simpl. rewrite lookup_empty. split; [done|]. by intros ?%Hh.
  - intros id. unfold events_at. simpl. rewrite lookup_empty. simpl. symmetry. apply no_dir_no_events; [done|]. by rewrite Hd.
  - intros id k d. simpl. rewrite lookup_empty. split; [done|]. by intros [_ ?%Hh].
  - intros id. simpl. set_solver.
  - intros id. by rewrite Hc.
Qed.
End simulation.

(** ** Against the class *)

Section laws.
Context `{UUIDLib} {B : Type} `{!StorageBackend B}.

Definition be_do (x : call) (b : B) : result io_error (answer x) * B :=
  match x return result io_error (answer x) * B with
  | CInit id => be_Init id b
  | CLoadAll => be_LoadAll b
  | CSaveTask t => be_SaveTask t b
  | CRemoveTask id => be_RemoveTask id b
  | CSaveEvent id seq e => be_SaveEvent id seq e b
  | CLoadEvents id => be_LoadEvents id b
  | CCompactEvents id evs => be_CompactEvents id evs b
  | CSaveBlob id k d => be_SaveBlob id k d b
  | CReadBlob id k => let '(r, b) := be_ReadBlob id k b in (match r with Ok d => Ok (DocBlob d) | Err e => Err e end, b)
  | CDeleteBlob id k => be_DeleteBlob id k b
  | CListBlobOwners k => be_ListBlobOwners k b
  end.

(** [promises] is what the laws of the class say of a permitted call. *)
Lemma laws_promise (line_size : TaskEvent → Z) x b g r b' : (∀ id t, c_tasks (view b) !! id = Some t → ID t = id) → (∀ id, covered b id <= boundary g id) →
  permitted line_size x (view b) g → be_do x b = (r, b') → promises reloads (healthy b) x (view b) r (view b') ∧ (healthy b → healthy b').
Proof.
  intros Hid Hcov Hp E. destruct x; simpl in Hp, r, E |- *.
  - apply init_law in E as [Hv Hh]. split; [split; [done|]|]; intros; by apply Hh.
  - pose proof (load_all_view _ _ _ E) as Hv. split.
    + split; [apply map_eq; intros id; by apply Hv|]. split; [apply map_eq; intros [id k]; by apply Hv|]. split; [intros ts ->; by eapply load_all_NoDup|].
      intros Hh. destruct (load_all_law b Hh Hid) as (ts & b1 & E1 & _ & Hl). rewrite E in E1. simplify_eq. eauto.
    + intros Hh. destruct (load_all_law b Hh Hid) as (ts & b1 & E1 & Hh1 & _). rewrite E in E1. by simplify_eq.
  - apply save_task_law in E as [Hv Hh]. split; [split; [done|]|]; intros; by apply Hh.
  - apply remove_task_law in E as [Hv Hh]. split; [split; [done|]|]; intros; by apply Hh.
  - destruct Hp as (_ & _ & Hseq). apply save_event_law in E as (_ & _ & Hv & Hh). split; [split; [by apply Hv|]|]; intros; by apply Hh.
  - apply load_events_law in E as [Hv Hh]. split; [split; [done|]|]; intros; by apply Hh.
  - destruct Hp as (m & Hm & ->). apply compact_law in E as (_ & _ & _ & Hv & Hh). split; [|done]. apply (Hv m); [|done]. etrans; [apply Hcov|done].
  - apply save_blob_law in E as [Hv Hh]. split; [split; [done|]|]; intros; by apply Hh.
  - destruct (be_ReadBlob id k b) as [x b1] eqn:E1. apply read_blob_law in E1 as (Hv & Hres & Hh). simplify_eq. split; [|done]. split; [done|].
    destruct x as [d|[]]; eauto.
  - apply delete_blob_law in E as [Hv Hh]. split; [|done]. by destruct r as [|[]].
  - apply list_owners_law in E as [Hv Hh]. split; [split; [done|]|]; intros Hb; destruct (Hh Hb) as (ids & ? & ? & ? & ?); eauto.
Qed.
End laws.

(** C3: the file system backend implements the storage interface, for calls that keep
    to its protocol ([permitted]): tasks are saved after [Init], events come with
    increasing numbers and lines of less than a megabyte, and compactions do not go
    back.  An empty data directory represents the empty contents.  In a directory
    that represents the contents [c], every such call - whatever system calls fail
    in it, and wherever a write or a removal stops - answers and changes the
    contents as the interface promises, and the directory represents the contents
    after.  When nothing fails, saving succeeds and loading returns what was saved. *)
Theorem FilesystemBackend_refines `{UUIDLib} temp_suffix tbl line_size mod_time clock sandbox_order :
  (∀ names, (".tmp-" +:+ temp_suffix names) ∉ names) →
  (∀ faults b, NewFilesystemBackend (MkFs ∅ ∅ faults) = (Ok tt, b) → represents line_size b (Contents ∅ ∅ ∅) (MkLedger ∅ (λ _, 0))) ∧
  (∀ x b c g, represents line_size b c g → permitted line_size x c g →
     let '(r, b') := fs_do temp_suffix tbl line_size mod_time clock sandbox_order x b in
     ∃ c', promises (migrated tbl) (no_faults b) x c r c' ∧ represents line_size b' c' (after_call x (is_ok r) g) ∧ (no_faults b → no_faults b')).
Proof. intros Hfresh. split; [intros faults b; by eapply new_represents|]. intros x b c g. by apply fs_simulates. Qed.
