(* ===== verification/FsRun.v ===== *)
(** * Concrete runs of the file system backend

    The witness of the simulation, and runs outside of what the interface permits:
    a compaction that a later one overtook loses events; an event too long for the
    scanner's buffer makes the compacted log unreadable; an event file that cannot be
    read is left out without an error. *)

From S2P Require Import Prelude GoStrings GoText TaskModel Backend AtomicFile StoreEvents FsBackend FsBackendSpec FsRefines.
From Stdlib Require Import String Ascii.
From stdpp Require Import list gmap pretty.
Local Open Scope Z_scope.
Local Open Scope string_scope.

Module FsRun.
#[local] Existing Instance text_uuid.

(** A name longer than all that are taken. *)
Definition longer (names : list string) : string := String.concat EmptyString names.

Lemma longer_length names n : n ∈ names → (String.length n <= String.length (longer names))%nat.
Proof.
  unfold longer. induction names as [|x names IH]; [by intros ?%not_elem_of_nil|]. intros Hn.
  assert (String.length (String.concat EmptyString (x :: names)) = String.length x + String.length (String.concat EmptyString names))%nat as ->.
  { destruct names as [|y names]; [simpl; lia|]. change (String.concat EmptyString (x :: y :: names)) with (x +:+ EmptyString +:+ String.concat EmptyString (y :: names)).
    rewrite !str_length_app. done. }
  apply elem_of_cons in Hn as [-> |Hn]; [lia|]. specialize (IH Hn). lia.
Qed.

Lemma longer_fresh names : (".tmp-" +:+ longer names) ∉ names.
Proof. intros Hn%longer_length. rewrite str_length_app in Hn. simpl in Hn. lia. Qed.

Definition idA : @uuid text_uuid := "A".
Definition event (n : Z) : TaskEvent := MkEvent n idA "output" "{}" 0 "" "".
Definition sized (e : TaskEvent) : Z := if Z.eqb (ev_ID e) 9 then max_line else 100.

Definition do := fs_do longer id sized (λ _, 0) 0 (λ _, []).
Definition disk faults : FilesystemBackend := (NewFilesystemBackend (MkFs ∅ ∅ faults)).2.
Definition run (xs : list call) (b : FilesystemBackend) : FilesystemBackend := foldl (λ b x, (do x b).2) b xs.

Lemma FilesystemBackend_refines_witness :
  represents sized (disk []) (Contents ∅ ∅ ∅) (MkLedger ∅ (λ _, 0)) ∧
  ∃ c', c' = put_event idA 1 (event 1) (Contents ∅ ∅ ∅) ∧
        represents sized (run [CSaveEvent idA 1 (event 1)] (disk [])) c' (MkLedger ({[idA]} ∪ ∅) (λ _, 0)).
Proof.
  destruct (FilesystemBackend_refines longer id sized (λ _, 0) 0 (λ _, []) longer_fresh) as [H0 H1].
  assert (represents sized (disk []) (Contents ∅ ∅ ∅) (MkLedger ∅ (λ _, 0))) as Hr by (apply (H0 []); vm_compute; reflexivity).
  split; [exact Hr|]. specialize (H1 (CSaveEvent idA 1 (event 1)) (disk []) _ _ Hr).
  assert (permitted sized (CSaveEvent idA 1 (event 1)) (Contents ∅ ∅ ∅) (MkLedger ∅ (λ _, 0))) as Hp by (split; [reflexivity|]; split; [split; [simpl; lia|reflexivity]|reflexivity]).
  specialize (H1 Hp). unfold run, do. cbn [foldl].
  destruct (fs_do longer id sized (λ _, 0) 0 (λ _, []) (CSaveEvent idA 1 (event 1)) (disk [])) as [r b'] eqn:E.
  assert (r = Ok tt) as -> by (apply (f_equal fst) in E; cbn [fst] in E; rewrite <-E; vm_compute; reflexivity).
  destruct H1 as (c' & [Hc _] & Hr' & _). exists c'. split; [exact Hc|exact Hr'].
Defined.

(** Three events, compacted; then the compaction of the first one, which was
    scheduled before, runs: two events are gone. *)
Lemma stale_compaction_loses_events :
  let b := run [CInit idA; CSaveEvent idA 1 (event 1); CSaveEvent idA 2 (event 2); CSaveEvent idA 3 (event 3);
                CCompactEvents idA [event 1; event 2; event 3]] (disk []) in
  (do (CLoadEvents idA) b).1 = Ok ([event 1; event 2; event 3], 3) ∧
  (do (CLoadEvents idA) (run [CCompactEvents idA [event 1]] b)).1 = Ok ([event 1], 1).
Proof. vm_compute. done. Qed.

(** A line of one megabyte is written, and never read again. *)
Lemma long_event_unreadable :
  let b := run [CInit idA; CSaveEvent idA 8 (event 8); CSaveEvent idA 9 (event 9)] (disk []) in
  (do (CLoadEvents idA) b).1 = Ok ([event 8; event 9], 9) ∧
  (do (CLoadEvents idA) (run [CCompactEvents idA [event 8; event 9]] b)).1 = Err (ErrIO 7).
Proof. vm_compute. done. Qed.

(** The file of event 2 cannot be read: the load succeeds without it, and its
    number is free for the next event. *)
Lemma unreadable_trace_skipped :
  let b := run [CInit idA; CSaveEvent idA 1 (event 1); CSaveEvent idA 2 (event 2)] (disk []) in
  (do (CLoadEvents idA) (MkFs (fs_dirs b) (fs_files b) [None; None; None; Some 0%nat])).1 = Ok ([event 1], 1).
Proof. vm_compute. done. Qed.
End FsRun.
