(* ===== verification/GoTime.v ===== *)
(** * Times as text

    [time.Parse(time.RFC3339, value)] of Go's standard library: a time is the number
    of nanoseconds since the zero time, midnight of 1 January of year 1 in UTC. *)

From S2P Require Import Prelude GoStrings GoText.
From Stdlib Require Import String.
From stdpp Require Import list.
Local Open Scope Z_scope.

Definition leap (y : Z) : bool := Z.eqb (y mod 4) 0 && (negb (Z.eqb (y mod 100) 0) || Z.eqb (y mod 400) 0).

(** The lengths of the months of a year. *)
Definition months (y : Z) : list Z := [31; if leap y then 29 else 28; 31; 30; 31; 30; 31; 31; 30; 31; 30; 31].

Definition daysIn (m y : Z) : Z := default 0 (months y !! Z.to_nat (m - 1)).

Definition days_before_year (y : Z) : Z := let n := y - 1 in 365 * n + n / 4 - n / 100 + n / 400.

Definition days_before (y m d : Z) : Z := days_before_year y + foldr Z.add 0 (take (Z.to_nat (m - 1)) (months y)) + (d - 1).

Definition date_ns (y m d hour min sec nsec : Z) : Z := (((days_before y m d * 24 + hour) * 60 + min) * 60 + sec) * 10 ^ 9 + nsec.

(** ** The parser *)

Definition digit (c : Z) : option Z := if in_range 48 c 57 then Some (c - 48) else None.

(** One or two digits, two when [fixed]. *)
Definition getnum (fixed : bool) (l : list Z) : option (Z * list Z) :=
  match l with
  | [] => None
  | a :: l =>
    x ← digit a;
    match head l ≫= digit with
    | Some y => Some (10 * x + y, tail l)
    | None => if fixed then None else Some (x, l)
    end
  end.

(** A field with its bounds. *)
Definition field (fixed : bool) (lo hi : Z) (l : list Z) : option (Z * list Z) :=
  '(x, l) ← getnum fixed l; if in_range lo x hi then Some (x, l) else None.

Definition skip (c : Z) (l : list Z) : option (list Z) :=
  match l with a :: l => if Z.eqb a c then Some l else None | [] => None end.

Definition year (l : list Z) : option (Z * list Z) :=
  '(a, l) ← getnum true l; '(b, l) ← getnum true l; Some (100 * a + b, l).

(** The digits at the front. *)
Fixpoint digits (l : list Z) : list Z * list Z :=
  match l with
  | c :: rest => match digit c with Some x => let '(ds, rest') := digits rest in (x :: ds, rest') | None => ([], l) end
  | [] => ([], [])
  end.

(** A fraction is cut to nine digits; without a digit it is left for the zone. *)
Definition fraction (l : list Z) : Z * list Z :=
  match l with
  | c :: rest =>
    if Z.eqb c 46 || Z.eqb c 44 then
      match digits rest with
      | ([], _) => (0, l)
      | (ds, rest') => let ds := take 9 ds in (foldl (λ n x, 10 * n + x) 0 ds * 10 ^ (9 - Z.of_nat (length ds)), rest')
      end
    else (0, l)
  | [] => (0, [])
  end.

(** The offset in seconds. *)
Definition zone (l : list Z) : option (Z * list Z) :=
  match l with
  | 90 :: l => Some (0, l)
  | sign :: l =>
    '(hr, l) ← field true 0 24 l; l ← skip 58 l; '(mm, l) ← field true 0 60 l;
    let off := (hr * 60 + mm) * 60 in
    if Z.eqb sign 43 then Some (off, l) else if Z.eqb sign 45 then Some (- off, l) else None
  | [] => None
  end.

Definition Parse_RFC3339 (value : string) : option Z :=
  '(y, l) ← year (bytes value); l ← skip 45 l;
  '(mo, l) ← field true 1 12 l; l ← skip 45 l;
  '(d, l) ← getnum true l; l ← skip 84 l;
  '(h, l) ← field false 0 23 l; l ← skip 58 l;
  '(mi, l) ← field true 0 59 l; l ← skip 58 l;
  '(s, l) ← field true 0 59 l;
  let '(ns, l) := fraction l in
  '(off, l) ← zone l;
  match l with
  | [] => if in_range 1 d (daysIn mo y) then Some (date_ns y mo d h mi s ns - off * 10 ^ 9) else None
  | _ => None
  end.

(** ** Facts *)

(** A year has the days of its months. *)
Lemma days_of_year y : days_before_year (y + 1) - days_before_year y = foldr Z.add 0 (months y).
Proof.
  unfold days_before_year, months. simpl. replace (y + 1 - 1) with y by lia.
  assert (∀ k, 0 < k → y / k - (y - 1) / k = if Z.eqb (y mod k) 0 then 1 else 0) as Hd.
  { intros k Hk. pose proof (Z.div_mod y k). pose proof (Z.mod_pos_bound y k Hk). destruct (Z.eqb_spec (y mod k) 0) as [E|E].
    - rewrite <-(Z.div_unique_pos (y - 1) k (y / k - 1) (k - 1)); lia.
    - rewrite <-(Z.div_unique_pos (y - 1) k (y / k) (y mod k - 1)); lia. }
  pose proof (Hd 4 ltac:(lia)) as H4. pose proof (Hd 100 ltac:(lia)) as H100. pose proof (Hd 400 ltac:(lia)) as H400. unfold leap.
  assert (y mod 400 = 0 → y mod 100 = 0) as I1 by (intros; apply Z.mod_divide; [lia|]; apply Z.mod_divide in H; [|lia]; destruct H as [q ->]; exists (4 * q); lia).
  assert (y mod 100 = 0 → y mod 4 = 0) as I2 by (intros; apply Z.mod_divide; [lia|]; apply Z.mod_divide in H; [|lia]; destruct H as [q ->]; exists (25 * q); lia).
  destruct (Z.eqb_spec (y mod 4) 0), (Z.eqb_spec (y mod 100) 0), (Z.eqb_spec (y mod 400) 0); simpl; lia.
Qed.

(** The epoch, an offset, the end of a leap year, and what is refused. *)
Lemma parse_examples :
  Parse_RFC3339 "0001-01-01T00:00:00Z" = Some 0 ∧
  Parse_RFC3339 "1970-01-01T01:00:00+01:00" = Some (62135596800 * 10 ^ 9) ∧
  Parse_RFC3339 "2024-12-31T23:59:59.5Z" = Some (63871286399 * 10 ^ 9 + 5 * 10 ^ 8) ∧
  Parse_RFC3339 "2023-02-29T00:00:00Z" = None ∧ Parse_RFC3339 "2024-01-01T00:00:00" = None ∧ Parse_RFC3339 "fix|2024-01-01T00:00:00Z" = None.
Proof. vm_compute. repeat split; reflexivity. Qed.
