(* ===== verification/GitExec.v ===== *)
(** * Commands and git (internal/pkg/cmdexec, internal/gitutil)

    The program drives [git] and the file system by calls whose answers it does
    not control.  [reply] gives the answer to a call after any history of calls
    and answers, so the theorems hold for whatever git, the disk and other
    programs do.  [H] is the monad of code that makes calls; the history records
    every call with its answer.

    [cmdexec.Cmd] in its output modes, [cmdexec.Tx] with rollbacks and deferred
    commands, and the functions of gitutil on top of them.  [tbl] is the table of
    [unicode.ToLower] outside ASCII. *)

From S2P Require Import Prelude GoStrings GoText GoTime.
From Stdlib Require Import String Ascii.
From stdpp Require Import list pretty.
Local Open Scope Z_scope.
Local Open Scope string_scope.

(** ** Calls *)

Inductive call :=
| Exec (argv : list string)
| Stat (path : string)
| Remove (path : string)
| RemoveAll (path : string)
| MkdirAll (path : string)
| CopyGo (src dst : string)
| LookPath (name : string)
| Signal (pid : Z) (name : string)
| Agent (prompt : string)
| Container (prompt sessionID : string).

#[export] Instance call_eq_dec : EqDecision call.
Proof. solve_decision. Defined.

(** Standard output, standard output with standard error, the error, and whether
    a path that exists is a directory. *)
Record Reply := MkReply { r_stdout : string; r_combined : string; r_err : option string; r_isdir : bool }.

Definition history : Type := list (call * Reply).

Definition H (A : Type) : Type := history → A * history.

#[export] Instance H_ret : MRet H := λ A a h, (a, h).
#[export] Instance H_bind : MBind H := λ A C k m h, let '(a, h') := m h in k a h'.

(** [cmdexec.New("git", args...)] and [cmdexec.Git(dir, args...)]. *)
Definition New (name : string) (args : list string) : call := Exec (name :: args).
Definition Git (dir : string) (args : list string) : call := Exec ("git" :: "-C" :: dir :: args).

(** A failed command: its error. *)
Inductive git_error :=
| ConflictError (WorktreePath : string) (ConflictedFiles : list string) (RawOutput : string)
| GitError (msg : string).

(** Why the tip of a branch is not known; the last two quote what git wrote. *)
Inductive tip_error := TipFailed (msg : string) | TipFormat (line : string) | TipTime (stamp : string).

Definition bar : ascii := Ascii.ascii_of_nat 124.

(** The number of a text, [n, _ := strconv.Atoi(s)]: 0 for no number, and the
    nearest number for one that is too large. *)
Definition Atoi_value (s : string) : Z :=
  let v := match bytes s with
           | 43 :: l => digits_value l
           | 45 :: l => Z.opp <$> digits_value l
           | l => digits_value l
           end in
  Z.max (- 2 ^ 63) (Z.min (2 ^ 63 - 1) (default 0 v)).

(** ** Output of git *)

Fixpoint until_paren (s : string) : option (string * string) :=
  match s with
  | EmptyString => None
  | String a s' => if decide (a = ascii_of_nat 41) then Some (EmptyString, s)
                   else (λ '(x, y), (String a x, y)) <$> until_paren s'
  end.

(** The group of [conflictFileRe] for a match that starts here. *)
Definition conflict_here (s : string) : option string :=
  rest ← CutPrefix s "CONFLICT (";
  '(kind, rest) ← until_paren rest;
  if decide (kind = EmptyString) then None
  else
    rest ← CutPrefix rest "): ";
    file ← match CutPrefix rest "Merge conflict in " with
           | Some file => Some file
           | None => CutPrefix rest "content conflict in "
           end;
    if decide (file = EmptyString) then None else Some file.

(** The leftmost match. *)
Fixpoint conflict_file (s : string) : option string :=
  match conflict_here s with
  | Some f => Some f
  | None => match s with EmptyString => None | String _ s' => conflict_file s' end
  end.

Definition parseConflictedFiles (output : string) : list string :=
  omap (λ line, conflict_file (TrimSpace line)) (Split newline output).

Definition IsConflictOutput (s : string) : bool := Contains s "CONFLICT (".

Definition isRebaseBlockedByConflictOrDirtyIndex (ls : string) : bool :=
  if Contains ls "cannot rebase" then
    Contains ls "needs merge" || Contains ls "unstaged changes" || Contains ls "uncommitted changes" ||
    Contains ls "commit your changes before you can rebase" || Contains ls "please commit or stash" ||
    Contains ls "index contains uncommitted changes" || Contains ls "index contains unstaged changes" ||
    Contains ls "resolve your current index first"
  else false.

Definition isRebaseBlockedByConflictOrState (ls : string) : bool :=
  Contains ls "needs merge" || Contains ls "you have not concluded your merge" || Contains ls "could not rebase" ||
  Contains ls "unable to rebase" || Contains ls "rebase in progress" || Contains ls "another rebase-apply" ||
  Contains ls "merge in progress".

Definition IsRebaseNeedsMergeOutput (tbl : Z → Z) (s : string) : bool :=
  let ls := ToLower tbl s in
  isRebaseBlockedByConflictOrState ls || isRebaseBlockedByConflictOrDirtyIndex ls.

Definition conflict_codes : list string := ["UU"; "AA"; "DD"; "AU"; "UA"; "DU"; "UD"].

Definition conflict_line (line : string) : bool :=
  match slice line 0 2 with Some xy => bool_decide (xy ∈ conflict_codes) | None => false end.

Definition git_error_text (e : git_error) : string :=
  match e with
  | ConflictError wt files _ => "rebase conflict in " +:+ wt +:+ ": " +:+ pretty (Z.of_nat (length files)) +:+ " file(s) conflicted"
  | GitError msg => msg
  end.

(** [errors.Is(err, ErrConflict)]. *)
Definition isConflictError (e : git_error) : bool :=
  match e with ConflictError _ _ _ => true | GitError _ => false end.

Section git.
Variables (tbl : Z → Z) (reply : history → call → Reply).

(** ** Commands *)

Definition ask (c : call) : H Reply := λ h, let r := reply h c in (r, h ++ [(c, r)])%list.

Definition Run (c : call) : H (option string) := r ← ask c; mret (r_err r).
Definition Output (c : call) : H (string * option string) := r ← ask c; mret (TrimSpace (r_stdout r), r_err r).
Definition Combined (c : call) : H (string * option string) := r ← ask c; mret (TrimSpace (r_combined r), r_err r).

(** Whether a command succeeds. *)
Definition succeeds (c : call) : H bool := e ← Run c; mret (bool_decide (e = None)).

(** ** Transactions *)

Record StepError := MkStepError { se_Err : string; se_Output : string; se_Index : nat }.
Record TxError := MkTxError { te_Step : option StepError; te_RollbackErrors : list string; te_DeferErrors : list string }.
Record Tx := MkTx { steps : list (call * option call); defers : list call }.

Definition NewTx : Tx := MkTx [] [].
Definition Add (c : call) (tx : Tx) : Tx := MkTx (steps tx ++ [(c, None)])%list (defers tx).
Definition AddWithRollback (c rb : call) (tx : Tx) : Tx := MkTx (steps tx ++ [(c, Some rb)])%list (defers tx).
Definition Defer (c : call) (tx : Tx) : Tx := MkTx (steps tx) (defers tx ++ [c])%list.

Fixpoint run_steps (l : list (call * option call)) (i : nat) : H (option StepError) :=
  match l with
  | [] => mret None
  | (c, _) :: rest =>
    r ← Combined c;
    match (r : string * option string) with
    | (out, Some err) => mret (Some (MkStepError err out i))
    | (_, None) => run_steps rest (S i)
    end
  end.

(** Commands that run whatever the others answer; their errors. *)
Fixpoint run_all (what : string) (l : list (nat * call)) : H (list string) :=
  match l with
  | [] => mret []
  | (i, c) :: rest =>
    r ← Combined c;
    errs ← run_all what rest;
    mret (match (r : string * option string).2 with
          | Some err => (what +:+ " " +:+ pretty (Z.of_nat i) +:+ ": " +:+ err) :: errs
          | None => errs
          end)
  end.

Definition rollbacks (l : list (call * option call)) (failedAt : nat) : list (nat * call) :=
  reverse (omap (λ '(i, s), (λ rb, (i, rb)) <$> (s : call * option call).2) (imap pair (take (S failedAt) l))).

Definition run_tx (tx : Tx) : H (option TxError) :=
  stepErr ← run_steps (steps tx) 0;
  rollbackErrors ← match stepErr with
                   | Some e => run_all "rollback step" (rollbacks (steps tx) (se_Index e))
                   | None => mret []
                   end;
  deferErrors ← run_all "defer" (reverse (imap pair (defers tx)));
  mret (if bool_decide (is_Some stepErr) || negb (bool_decide (deferErrors = []))
        then Some (MkTxError stepErr rollbackErrors deferErrors) else None).

(** ** Repositories *)

Definition IsGitRepo (path : string) : H bool := succeeds (Git path ["rev-parse"; "--git-dir"]).
Definition HasOriginRemote (path : string) : H bool := succeeds (Git path ["remote"; "get-url"; "origin"]).
Definition HasCommits (path : string) : H bool := succeeds (Git path ["rev-parse"; "--verify"; "HEAD"]).

(** The branch that [refs/remotes/origin/HEAD] names. *)
Definition origin_head (repoPath : string) : H (option string) :=
  r ← Output (Git repoPath ["symbolic-ref"; "--short"; "refs/remotes/origin/HEAD"]);
  mret (match (r : string * option string) with
        | (out, None) =>
          let branch := TrimPrefix out "origin/" in
          if bool_decide (branch = EmptyString) || bool_decide (branch = out) then None else Some branch
        | (_, Some _) => None
        end).

(** Its error is always nil. *)
Definition DefaultBranch (repoPath : string) : H string :=
  r ← Output (Git repoPath ["branch"; "--show-current"]);
  match (r : string * option string) with
  | (out, None) => if decide (out = EmptyString) then b ← origin_head repoPath; mret (default "main" b) else mret out
  | (_, Some _) => b ← origin_head repoPath; mret (default "main" b)
  end.

Definition RemoteDefaultBranch (repoPath : string) : H string :=
  b ← origin_head repoPath;
  match b with
  | Some b => mret b
  | None =>
    m ← succeeds (Git repoPath ["rev-parse"; "--verify"; "origin/main"]);
    if (m : bool) then mret "main"
    else
      m ← succeeds (Git repoPath ["rev-parse"; "--verify"; "origin/master"]);
      mret (if (m : bool) then "master" else "main")
  end.

Definition InitLocalRepo (path email name initialCommitMsg : string) : H (option string) :=
  r ← Combined (Git path ["init"]);
  match (r : string * option string) with
  | (out, Some err) => mret (Some ("git init " +:+ path +:+ ": " +:+ err +:+ nl +:+ out))
  | (_, None) =>
    e ← Run (Git path ["config"; "user.email"; email]);
    match e with
    | Some err => mret (Some ("git config user.email in " +:+ path +:+ ": " +:+ err))
    | None =>
      e ← Run (Git path ["config"; "user.name"; name]);
      match e with
      | Some err => mret (Some ("git config user.name in " +:+ path +:+ ": " +:+ err))
      | None =>
        e ← Run (Git path ["add"; "-A"]);
        match e with
        | Some err => mret (Some ("git add in " +:+ path +:+ ": " +:+ err))
        | None =>
          r ← Combined (Git path ["commit"; "--allow-empty"; "-m"; initialCommitMsg]);
          mret (match (r : string * option string) with
                | (out, Some err) => Some ("git commit in " +:+ path +:+ ": " +:+ err +:+ nl +:+ out)
                | (_, None) => None
                end)
        end
      end
    end
  end.

Definition GetCommitHashForRef (repoPath ref : string) : H (result string string) :=
  r ← Output (Git repoPath ["rev-parse"; ref]);
  mret (match (r : string * option string) with
        | (out, None) => Ok out
        | (_, Some err) => Err ("git rev-parse " +:+ ref +:+ " in " +:+ repoPath +:+ ": " +:+ err)
        end).

Definition GetCommitHash (repoPath : string) : H (result string string) :=
  r ← Output (Git repoPath ["rev-parse"; "HEAD"]);
  mret (match (r : string * option string) with
        | (out, None) => Ok out
        | (_, Some err) => Err ("git rev-parse HEAD in " +:+ repoPath +:+ ": " +:+ err)
        end).

Definition ResolveHead (dir : string) : H (result string string) :=
  r ← Output (Git dir ["rev-parse"; "HEAD"]);
  mret (match (r : string * option string) with
        | (out, None) => Ok out
        | (_, Some err) => Err ("rev-parse HEAD in " +:+ dir +:+ ": " +:+ err)
        end).

Definition MergeBase (repoPath ref1 ref2 : string) : H (result string string) :=
  r ← Output (Git repoPath ["merge-base"; ref1; ref2]);
  mret (match (r : string * option string) with
        | (out, None) => Ok out
        | (_, Some err) => Err ("git merge-base " +:+ ref1 +:+ " " +:+ ref2 +:+ " in " +:+ repoPath +:+ ": " +:+ err)
        end).

(** The tip of a branch: its hash, subject and author time. *)
Definition BranchTipCommit (repoPath branch : string) : H (result tip_error (string * string * Z)) :=
  r ← Output (Git repoPath ["log"; "-1"; "--format=%H|%s|%aI"; branch]);
  mret (match (r : string * option string) with
        | (_, Some err) => Err (TipFailed ("git log in " +:+ repoPath +:+ " for branch " +:+ branch +:+ ": " +:+ err))
        | (line, None) =>
          if decide (line = EmptyString) then Err (TipFailed ("branch " +:+ branch +:+ " not found or has no commits in " +:+ repoPath))
          else match Cut bar line with
               | Some (hash, rest) =>
                 match Cut bar rest with
                 | Some (subject, stamp) => match Parse_RFC3339 stamp with Some ts => Ok (hash, subject, ts) | None => Err (TipTime stamp) end
                 | None => Err (TipFormat line)
                 end
               | None => Err (TipFormat line)
               end
        end).

Definition FetchOrigin (repoPath : string) : H (option string) :=
  r ← Combined (Git repoPath ["fetch"; "origin"]);
  mret (match (r : string * option string) with
        | (out, Some err) => Some ("git fetch origin in " +:+ repoPath +:+ ": " +:+ err +:+ nl +:+ out)
        | (_, None) => None
        end).

(** ** State of a worktree *)

Definition HasChanges (worktreePath : string) : H (result string bool) :=
  r ← Output (Git worktreePath ["status"; "--porcelain"]);
  mret (match (r : string * option string) with
        | (out, None) => Ok (negb (bool_decide (out = EmptyString)))
        | (_, Some err) => Err err
        end).

Definition HasConflicts (worktreePath : string) : H (result string bool) :=
  r ← Output (Git worktreePath ["status"; "--porcelain"]);
  mret (match (r : string * option string) with
        | (out, None) => Ok (existsb conflict_line (Split newline out))
        | (_, Some err) => Err ("git status in " +:+ worktreePath +:+ ": " +:+ err)
        end).

Definition StashIfDirty (worktreePath : string) : H bool :=
  r ← Output (Git worktreePath ["status"; "--porcelain"]);
  match (r : string * option string) with
  | (_, Some _) => mret false
  | (out, None) =>
    if decide (out = EmptyString) then mret false
    else succeeds (Git worktreePath ["stash"; "--include-untracked"])
  end.

Definition StashPop (worktreePath : string) : H (option string) :=
  r ← Combined (Git worktreePath ["stash"; "pop"]);
  match (r : string * option string) with
  | (out, Some err) =>
    Run (Git worktreePath ["reset"; "--hard"; "HEAD"]) ;;
    Run (Git worktreePath ["clean"; "-fd"]) ;;
    mret (Some ("stash pop in " +:+ worktreePath +:+ ": " +:+ err +:+ nl +:+ out))
  | (_, None) => mret None
  end.

(** A directory under the git directory of a worktree. *)
Definition state_dir (worktreePath dir : string) : H bool :=
  r ← Output (Git worktreePath ["rev-parse"; "--git-path"; dir]);
  match (r : string * option string) with
  | (_, Some _) => mret false
  | (out, None) =>
    let p := TrimSpace out in
    if decide (p = EmptyString) then mret false
    else
      let p := if rooted p then p else path_Join [worktreePath; p] in
      s ← ask (Stat p);
      mret (bool_decide (r_err s = None) && r_isdir s)
  end.

(** Its error is always nil. *)
Definition hasRebaseOrMergeState (worktreePath : string) : H bool :=
  a ← state_dir worktreePath "rebase-merge";
  if (a : bool) then mret true
  else
    b ← state_dir worktreePath "rebase-apply";
    if (b : bool) then mret true
    else
      c ← Output (Git worktreePath ["rev-parse"; "--verify"; "-q"; "MERGE_HEAD"]);
      if bool_decide ((c : string * option string).2 = None) then mret true
      else
        d ← Output (Git worktreePath ["rev-parse"; "--verify"; "-q"; "CHERRY_PICK_HEAD"]);
        mret (bool_decide ((d : string * option string).2 = None)).

Definition clearConflictedPaths (worktreePath : string) : H (option string) :=
  a ← succeeds (Git worktreePath ["reset"; "--merge"]);
  if (a : bool) then mret None
  else
    b ← succeeds (Git worktreePath ["restore"; "--staged"; "--worktree"; "--source=HEAD"; "--"; "."]);
    if (b : bool) then mret None
    else
      c ← succeeds (Git worktreePath ["reset"; "--hard"; "HEAD"]);
      mret (if (c : bool) then None else Some ("git clean failed in " +:+ worktreePath +:+ ": clear conflicted state")).

Definition recoverRebaseState (worktreePath : string) : H (option git_error) :=
  inRebaseOrMerge ← hasRebaseOrMergeState worktreePath;
  if negb inRebaseOrMerge then mret None
  else
    Run (Git worktreePath ["rebase"; "--abort"]) ;;
    Run (Git worktreePath ["merge"; "--abort"]) ;;
    e ← clearConflictedPaths worktreePath;
    match e with
    | Some err => mret (Some (GitError ("clear stale rebase state in " +:+ worktreePath +:+ ": " +:+ err)))
    | None =>
      c ← HasConflicts worktreePath;
      mret (match c with
            | Ok true => Some (ConflictError worktreePath [] "pre-rebase cleanup still reports unmerged files")
            | _ => None
            end)
    end.

(** ** Rebase and merge *)

Definition RebaseOntoDefault (repoPath worktreePath : string) : H (option git_error) :=
  defBranch ← DefaultBranch repoPath;
  e ← recoverRebaseState worktreePath;
  match e with
  | Some err => mret (Some err)
  | None =>
    t ← run_tx (AddWithRollback (Git worktreePath ["rebase"; defBranch]) (Git worktreePath ["rebase"; "--abort"]) NewTx);
    mret (match t with
          | None => None
          | Some te =>
            match te_Step te with
            | None => Some (GitError (pretty (Z.of_nat (length (te_DeferErrors te))) +:+ " defer error(s)"))
            | Some se =>
              let out := se_Output se in
              if IsConflictOutput out || IsRebaseNeedsMergeOutput tbl out
              then Some (ConflictError worktreePath (parseConflictedFiles out) out)
              else Some (GitError ("git rebase in " +:+ worktreePath +:+ ": " +:+ se_Err se +:+ nl +:+ out))
            end
          end)
  end.

Definition FFMerge (repoPath branchName : string) : H (option string) :=
  defBranch ← DefaultBranch repoPath;
  stashed ← StashIfDirty repoPath;
  let tx := if (stashed : bool) then Defer (Git repoPath ["stash"; "pop"]) NewTx else NewTx in
  let tx := Add (Git repoPath ["merge"; "--ff-only"; branchName]) (Add (Git repoPath ["checkout"; defBranch]) tx) in
  t ← run_tx tx;
  mret (match t with
        | None => None
        | Some te =>
          match te_Step te with
          | None => None
          | Some se =>
            if decide (se_Index se = 0%nat)
            then Some ("git checkout " +:+ defBranch +:+ " in " +:+ repoPath +:+ ": " +:+ se_Err se +:+ nl +:+ se_Output se)
            else Some ("git merge --ff-only " +:+ branchName +:+ " in " +:+ repoPath +:+ ": " +:+ se_Err se +:+ nl +:+ se_Output se)
          end
        end).

(** The first ref that resolves. *)
Fixpoint first_hash (repoPath : string) (refs : list string) (lastErr : string) : H (result string string) :=
  match refs with
  | [] => mret (Err lastErr)
  | ref :: rest =>
    r ← GetCommitHashForRef repoPath ref;
    match r with
    | Ok hash => mret (Ok hash)
    | Err e => first_hash repoPath rest e
    end
  end.

Definition defaultBranchCommitHash (repoPath defBranch : string) : H (result string string) :=
  first_hash repoPath [defBranch; "refs/heads/" +:+ defBranch; "origin/" +:+ defBranch; "refs/remotes/origin/" +:+ defBranch] EmptyString.

Definition CommitsBehind (repoPath worktreePath : string) : H (result string Z) :=
  defBranch ← DefaultBranch repoPath;
  d ← defaultBranchCommitHash repoPath defBranch;
  match d with
  | Err _ => mret (Ok 0)
  | Ok defHash =>
    r ← Output (Git worktreePath ["rev-list"; "--count"; "HEAD.." +:+ defHash]);
    mret (match (r : string * option string) with
          | (out, None) => Ok (Atoi_value out)
          | (_, Some err) => Err ("git rev-list in " +:+ worktreePath +:+ ": " +:+ err)
          end)
  end.

Definition HasCommitsAheadOf (worktreePath baseBranch : string) : H (result string bool) :=
  r ← Output (Git worktreePath ["rev-list"; "--count"; baseBranch +:+ "..HEAD"]);
  mret (match (r : string * option string) with
        | (out, None) => Ok (Z.ltb 0 (Atoi_value out))
        | (_, Some err) => Err ("git rev-list in " +:+ worktreePath +:+ ": " +:+ err)
        end).

Definition GlobalIdentityOverrides : H (list string) :=
  n ← Output (New "git" ["config"; "--global"; "user.name"]);
  e ← Output (New "git" ["config"; "--global"; "user.email"]);
  let part key (r : string * option string) :=
    match r with
    | (out, None) => if decide (out = EmptyString) then [] else ["-c"; key +:+ out]
    | (_, Some _) => []
    end in
  mret (part "user.name=" n ++ part "user.email=" e)%list.

(** ** Snapshots *)

Fixpoint untracked_diffs (snapshotPath : string) (files : list string) (out : string) : H string :=
  match files with
  | [] => mret out
  | file :: rest =>
    if decide (file = EmptyString) then untracked_diffs snapshotPath rest out
    else
      fd ← Output (Git snapshotPath ["diff"; "--no-index"; "/dev/null"; file]);
      untracked_diffs snapshotPath rest (out +:+ (fd : string * option string).1)
  end.

Definition SnapshotDiff (snapshotPath : string) : H string :=
  r ← Output (Git snapshotPath ["diff"; "HEAD~1"]);
  out ← match (r : string * option string) with
        | (out, None) => mret out
        | (_, Some _) => r ← Output (Git snapshotPath ["diff"; "HEAD"]); mret (r : string * option string).1
        end;
  u ← Output (Git snapshotPath ["ls-files"; "--others"; "--exclude-standard"]);
  match (u : string * option string) with
  | (raw, None) => untracked_diffs snapshotPath (Split newline raw) out
  | (_, Some _) => mret out
  end.

(** ** Status of a workspace *)

Record WorkspaceGitStatus := MkStatus {
  s_Path : string;
  s_Name : string;
  s_IsGitRepo : bool;
  s_Branch : string;
  s_RemoteURL : string;
  s_HasRemote : bool;
  s_AheadCount : Z;
  s_BehindCount : Z;
  s_MainBranch : string;
  s_BehindMainCount : Z
}.

(** The output of a command, or nothing when it fails. *)
Definition output_or (c : call) (d : string) : H string :=
  r ← Output c;
  mret (match (r : string * option string) with (out, None) => out | (_, Some _) => d end).

Definition count_of (path range : string) : H Z := out ← output_or (Git path ["rev-list"; "--count"; range]) "0"; mret (Atoi_value out).

Definition WorkspaceStatus (path : string) : H WorkspaceGitStatus :=
  let name := path_Base path in
  repo ← succeeds (Git path ["rev-parse"; "--git-dir"]);
  if negb repo then mret (MkStatus path name false EmptyString EmptyString false 0 0 EmptyString 0)
  else
    branch ← output_or (Git path ["branch"; "--show-current"]) EmptyString;
    url ← output_or (Git path ["remote"; "get-url"; "origin"]) EmptyString;
    upstream ← succeeds (Git path ["rev-parse"; "--abbrev-ref"; "@{u}"]);
    if negb upstream then mret (MkStatus path name true branch url false 0 0 EmptyString 0)
    else
      ahead ← count_of path "@{u}..HEAD";
      behind ← count_of path "HEAD..@{u}";
      main ← RemoteDefaultBranch path;
      behindMain ← (if negb (bool_decide (branch = EmptyString)) && negb (bool_decide (branch = main))
                    then count_of path ("HEAD..origin/" +:+ main) else mret 0);
      mret (MkStatus path name true branch url true ahead behind main behindMain).

(** ** Worktrees *)

Inductive create_error := ErrEmptyRepo | CreateFailed (msg : string).

(** Attach the existing branch. *)
Definition attach (repoPath worktreePath branchName : string) : H (option create_error) :=
  r ← Combined (Git repoPath ["worktree"; "add"; "--force"; worktreePath; branchName]);
  mret (match (r : string * option string) with
        | (out, Some err) => Some (CreateFailed ("git worktree add (existing branch) in " +:+ repoPath +:+ ": " +:+ err +:+ nl +:+ out))
        | (_, None) => None
        end).

Definition already (out : string) : bool := Contains out "already exists" || Contains out "already registered worktree".

Definition CreateWorktree (repoPath worktreePath branchName : string) : H (option create_error) :=
  head ← succeeds (Git repoPath ["rev-parse"; "--verify"; "HEAD"]);
  if negb head then mret (Some ErrEmptyRepo)
  else
    exists_ ← succeeds (Git repoPath ["rev-parse"; "--verify"; branchName]);
    if (exists_ : bool) then
      Run (Git repoPath ["worktree"; "prune"]) ;;
      attach repoPath worktreePath branchName
    else
      r ← Combined (Git repoPath ["worktree"; "add"; "-b"; branchName; worktreePath; "HEAD"]);
      match (r : string * option string) with
      | (_, None) => mret None
      | (out, Some err) =>
        if already out then
          Run (Git repoPath ["worktree"; "prune"]) ;;
          attach repoPath worktreePath branchName
        else mret (Some (CreateFailed ("git worktree add in " +:+ repoPath +:+ ": " +:+ err +:+ nl +:+ out)))
      end.

Definition CreateWorktreeAt (repoPath worktreePath branchName baseCommit : string) : H (option create_error) :=
  let add := Git repoPath ["worktree"; "add"; "-b"; branchName; worktreePath; baseCommit] in
  r ← Combined add;
  r ← match (r : string * option string) with
      | (out, Some _) =>
        if Contains out "already exists" then Run (Git repoPath ["branch"; "-D"; branchName]) ;; Combined add else mret r
      | (_, None) => mret r
      end;
  match (r : string * option string) with
  | (_, None) => mret None
  | (out, Some err) =>
    if already out then attach repoPath worktreePath branchName
    else mret (Some (CreateFailed ("git worktree add in " +:+ repoPath +:+ ": " +:+ err +:+ nl +:+ out)))
  end.

Definition RemoveWorktree (repoPath worktreePath branchName : string) : H (option string) :=
  r ← Combined (Git repoPath ["worktree"; "remove"; "--force"; worktreePath]);
  let finish := Run (Git repoPath ["branch"; "-D"; branchName]) ;; mret None in
  match (r : string * option string) with
  | (_, None) => finish
  | (out, Some err) =>
    if Contains out "not a worktree" || Contains out "not a working tree" || Contains out "not found"
    then Run (Git repoPath ["worktree"; "prune"]) ;; finish
    else mret (Some ("git worktree remove " +:+ worktreePath +:+ ": " +:+ err +:+ nl +:+ out))
  end.
End git.
