(* ===== verification/GitSpec.v ===== *)
(** * What transactions, rebases and merges do

    [traced m Q]: whatever the calls are answered, [m] adds calls to the history
    for which, with its result, [Q] holds.  A transaction runs its steps up to the
    first failure, then the rollbacks of the steps it began in reverse order, and
    in any case the deferred commands; a rebase that fails is aborted; the stash of
    a merge is taken back. *)

From S2P Require Import Prelude GoStrings GoText GitExec.
From Stdlib Require Import String.
From stdpp Require Import list pretty.
Local Open Scope Z_scope.
Local Open Scope string_scope.

Definition ok (x : call * Reply) : Prop := r_err x.2 = None.

(** ** Traces *)

Section traces.
Context (reply : history → call → Reply).
Implicit Types (n : history) (p : call → Prop).

Definition traced {A} (m : H A) (Q : A → history → Prop) : Prop := ∀ h, ∃ n, (m h).2 = (h ++ n)%list ∧ Q (m h).1 n.

Lemma traced_ret {A} (a : A) (Q : A → history → Prop) : Q a [] → traced (mret a) Q.
Proof. intros HQ h. exists []. by rewrite app_nil_r. Qed.

Lemma traced_bind {A C} (m : H A) (k : A → H C) (Q : A → history → Prop) (R : C → history → Prop) :
  traced m Q → (∀ a n, Q a n → traced (k a) (λ c n', R c (n ++ n')%list)) → traced (m ≫= k) R.
Proof.
  intros Hm Hk h. destruct (Hm h) as (n1 & E1 & Q1). unfold mbind, H_bind. destruct (m h) as [a h1]. simpl in *. subst h1.
  destruct (Hk a n1 Q1 (h ++ n1)%list) as (n2 & E2 & R2). exists (n1 ++ n2)%list. by rewrite (assoc_L (++)%list).
Qed.

Lemma traced_weaken {A} (m : H A) (Q R : A → history → Prop) : traced m Q → (∀ a n, Q a n → R a n) → traced m R.
Proof. intros Hm Hi h. destruct (Hm h) as (n & E & HQ). eauto. Qed.

Lemma traced_and {A} (m : H A) (Q R : A → history → Prop) : traced m Q → traced m R → traced m (λ a n, Q a n ∧ R a n).
Proof. intros Hq Hr h. destruct (Hq h) as (n & E & HQ), (Hr h) as (n' & E' & HR). rewrite E in E'. simplify_list_eq. eauto. Qed.

Lemma traced_ask c : traced (ask reply c) (λ r n, n = [(c, r)]).
Proof. intros h. by exists [(c, reply h c)]. Qed.

Lemma traced_Run c : traced (Run reply c) (λ e n, ∃ r, n = [(c, r)] ∧ e = r_err r).
Proof. eapply traced_bind; [apply traced_ask|]. intros r n ->. apply traced_ret. eauto. Qed.

Lemma traced_Output c : traced (Output reply c) (λ x n, ∃ r, n = [(c, r)] ∧ x = (TrimSpace (r_stdout r), r_err r)).
Proof. eapply traced_bind; [apply traced_ask|]. intros r n ->. apply traced_ret. eauto. Qed.

Lemma traced_Combined c : traced (Combined reply c) (λ x n, ∃ r, n = [(c, r)] ∧ x = (TrimSpace (r_combined r), r_err r)).
Proof. eapply traced_bind; [apply traced_ask|]. intros r n ->. apply traced_ret. eauto. Qed.

Lemma traced_succeeds c : traced (succeeds reply c) (λ b n, ∃ r, n = [(c, r)] ∧ (b = true ↔ r_err r = None)).
Proof.
  eapply traced_bind; [apply traced_Run|]. intros e n (r & -> & ->). apply traced_ret. exists r. split; [done|]. apply bool_decide_eq_true.
Qed.

(** *** Which calls are made *)

Definition only {A} p (m : H A) : Prop := traced m (λ _ n, Forall p n.*1).

Lemma only_ret {A} p (a : A) : only p (mret a).
Proof. apply traced_ret. constructor. Qed.

Lemma only_bind {A C} p (m : H A) (k : A → H C) : only p m → (∀ a, only p (k a)) → only p (m ≫= k).
Proof.
  intros Hm Hk. eapply traced_bind; [exact Hm|]. intros a n Hn. eapply traced_weaken; [apply Hk|]. intros c n' Hn'. cbv beta in *. rewrite fmap_app. by apply Forall_app.
Qed.

Lemma only_ask p c : p c → only p (ask reply c).
Proof. intros Hc. eapply traced_weaken; [apply traced_ask|]. intros r n ->. by repeat constructor. Qed.

Lemma only_Run p c : p c → only p (Run reply c).
Proof. intros Hc. apply only_bind; [by apply only_ask|]. intros. apply only_ret. Qed.
Lemma only_Output p c : p c → only p (Output reply c).
Proof. intros Hc. apply only_bind; [by apply only_ask|]. intros. apply only_ret. Qed.
Lemma only_Combined p c : p c → only p (Combined reply c).
Proof. intros Hc. apply only_bind; [by apply only_ask|]. intros. apply only_ret. Qed.
Lemma only_succeeds p c : p c → only p (succeeds reply c).
Proof. intros Hc. apply only_bind; [by apply only_Run|]. intros. apply only_ret. Qed.
End traces.

(** Goes through a function; what is left is that each call satisfies [p]. *)
Ltac only_tac :=
  repeat match goal with
  | |- only _ (mret _) => apply only_ret
  | |- only _ (_ ≫= _) => apply only_bind; [|intros ?]
  | |- only _ (ask _ _) => apply only_ask
  | |- only _ (Run _ _) => apply only_Run
  | |- only _ (Output _ _) => apply only_Output
  | |- only _ (Combined _ _) => apply only_Combined
  | |- only _ (succeeds _ _) => apply only_succeeds
  | |- only _ (match ?x with _ => _ end) => destruct x
  | |- only _ (if ?x then _ else _) => destruct x
  end.

(** ** Transactions *)

Section tx.
Context (reply : history → call → Reply).

Lemma run_steps_spec l i : traced (run_steps reply l i) (λ e n,
  match e with
  | None => n.*1 = l.*1 ∧ Forall ok n
  | Some se => ∃ k done c r, se_Index se = (i + k)%nat ∧ l.*1 !! k = Some c ∧ n = (done ++ [(c, r)])%list ∧ done.*1 = take k l.*1 ∧
      Forall ok done ∧ r_err r = Some (se_Err se) ∧ se_Output se = TrimSpace (r_combined r)
  end).
Proof.
  revert i. induction l as [|[c rb] l IH]; intros i; [apply traced_ret; by repeat constructor|]. cbn [run_steps].
  eapply traced_bind; [apply traced_Combined|]. intros x n (r & -> & ->). destruct (r_err r) as [e|] eqn:Er.
  - apply traced_ret. exists 0%nat, [], c, r. simpl. rewrite Nat.add_0_r. by repeat split.
  - eapply traced_weaken; [apply IH|]. intros [se|] n.
    + intros (k & d & c' & r' & Hi & Hc & -> & Hd & Ho & He). exists (S k), ((c, r) :: d), c', r'. rewrite !fmap_cons, Hi, Hd. split; [lia|].
      split; [done|]. split; [done|]. split; [done|]. split; [by constructor|done].
    + intros [Hn Ho]. rewrite fmap_app, Hn. split; [done|]. by constructor.
Qed.

(** The errors of commands with the numbers [ks] that were run as [n]. *)
Definition failures (what : string) (ks : list nat) (n : history) : list string :=
  omap (λ '(i, x), (λ err, what +:+ " " +:+ pretty (Z.of_nat i) +:+ ": " +:+ err) <$> r_err (x : call * Reply).2) (zip ks n).

Lemma failures_none what ks n : length ks = length n → failures what ks n = [] ↔ Forall ok n.
Proof.
  revert n. induction ks as [|i ks IH]; intros [|[c r] n] E; simplify_eq/=; [done|]. unfold failures. cbn [zip zip_with omap list_omap].
  rewrite Forall_cons, <-(IH n E). unfold ok. simpl. destruct (r_err r); [by split; [|intros [? _]]|]. by split; [|intros [_ ?]].
Qed.

Lemma run_all_spec what l : traced (run_all reply what l) (λ es n, n.*1 = l.*2 ∧ es = failures what l.*1 n).
Proof.
  induction l as [|[i c] l IH]; [apply traced_ret; by repeat constructor|]. cbn [run_all].
  eapply traced_bind; [apply traced_Combined|]. intros x n (r & -> & ->). eapply traced_bind; [apply IH|]. intros es n' [Hn ->]. apply traced_ret.
  rewrite app_nil_r, fmap_app, Hn. split; [done|]. unfold failures. simpl. by destruct (r_err r).
Qed.

Lemma indexed_rollbacks (l : list (call * option call)) (f : nat → nat) :
  (omap (λ '(i, s), (λ rb, (i, rb)) <$> (s : call * option call).2) (imap (λ i s, (f i, s)) l)).*2 = omap snd l.
Proof.
  revert f. induction l as [|[c [rb|]] l IH]; intros f; [done|..]; rewrite imap_cons; cbn; [f_equal|]; apply (IH (f ∘ S)).
Qed.

Lemma rollbacks_calls l k : (rollbacks l k).*2 = reverse (omap snd (take (S k) l)).
Proof. unfold rollbacks. rewrite fmap_reverse. f_equal. apply (indexed_rollbacks _ (λ i, i)). Qed.

(** The steps up to the [k]-th that have a rollback, last first. *)
Definition undone (l : list (call * option call)) (k : nat) : list nat :=
  reverse (filter (λ i, is_Some (l !! i ≫= snd)) (seq 0 (S k))).

Lemma indexed_steps (l : list (call * option call)) (f : nat → nat) k : (∀ i, f i = (k + i)%nat) →
  (omap (λ '(i, s), (λ rb, (i, rb)) <$> (s : call * option call).2) (imap (λ i s, (f i, s)) l)).*1 =
  filter (λ i, is_Some (l !! (i - k)%nat ≫= snd)) (seq k (length l)).
Proof.
  revert f k. induction l as [|[c rb] l IH]; intros f k Hf; [done|]. rewrite imap_cons. cbn [length seq]. rewrite filter_cons, Nat.sub_diag.
  rewrite (list_filter_agree _ (λ i, is_Some (l !! (i - S k)%nat ≫= snd)) (seq (S k) (length l))).
  2: { intros i [Hi _]%elem_of_seq. by replace (i - k)%nat with (S (i - S k)) by lia. }
  rewrite <-(IH (f ∘ S) (S k)) by (intros i; cbn; rewrite Hf; lia). destruct rb as [rb|]; cbn.
  - rewrite decide_True by done. cbn. by rewrite Hf, Nat.add_0_r.
  - by rewrite decide_False by (by intros [? ?]).
Qed.

Lemma rollbacks_steps l k : (k < length l)%nat → (rollbacks l k).*1 = undone l k.
Proof.
  intros Hk. unfold rollbacks, undone. rewrite fmap_reverse. f_equal. rewrite (indexed_steps _ (λ i, i) 0), length_take_le by lia.
  apply list_filter_agree. intros i Hi%elem_of_seq. by rewrite lookup_take_lt, Nat.sub_0_r by lia.
Qed.

Lemma indexed_numbers (l : list call) (f : nat → nat) k : (∀ i, f i = (k + i)%nat) → (imap (λ i c, (f i, c)) l).*1 = seq k (length l).
Proof.
  revert f k. induction l as [|c l IH]; intros f k Hf; [done|]. rewrite imap_cons. cbn. f_equal; [by rewrite Hf, Nat.add_0_r|].
  apply (IH (f ∘ S)). intros i. cbn. rewrite Hf. lia.
Qed.

Lemma indexed_calls (l : list call) (f : nat → nat) : (imap (λ i c, (f i, c)) l).*2 = l.
Proof. revert f. induction l as [|c l IH]; intros f; [done|]. rewrite imap_cons. cbn. f_equal. apply (IH (f ∘ S)). Qed.

(** The calls of a transaction and its error. *)
Definition tx_trace (tx : Tx) (e : option TxError) (n : history) : Prop :=
  ∃ done rolled deferred, n = (done ++ rolled ++ deferred)%list ∧ deferred.*1 = reverse (defers tx) ∧
    match e ≫= te_Step with
    | None => done.*1 = (steps tx).*1 ∧ Forall ok done ∧ rolled = [] ∧ (e = None ↔ Forall ok deferred)
    | Some se => ∃ before c r, done = (before ++ [(c, r)])%list ∧ (steps tx).*1 !! se_Index se = Some c ∧
        before.*1 = take (se_Index se) (steps tx).*1 ∧ Forall ok before ∧
        r_err r = Some (se_Err se) ∧ se_Output se = TrimSpace (r_combined r) ∧
        rolled.*1 = reverse (omap snd (take (S (se_Index se)) (steps tx)))
    end ∧
    from_option te_RollbackErrors [] e = failures "rollback step" (from_option (λ se, undone (steps tx) (se_Index se)) [] (e ≫= te_Step)) rolled ∧
    from_option te_DeferErrors [] e = failures "defer" (reverse (seq 0 (length (defers tx)))) deferred.

Lemma run_tx_trace tx : traced (run_tx reply tx) (tx_trace tx).
Proof.
  unfold run_tx. eapply traced_bind; [apply run_steps_spec|]. intros stepErr done Hdone.
  assert (∀ se, stepErr = Some se → (se_Index se < length (steps tx))%nat) as Hlt.
  { intros se ->. destruct Hdone as (k & b & c & r & -> & Hc & _). apply lookup_lt_Some in Hc. by rewrite length_fmap in Hc. }
  eapply (traced_bind _ _ (λ es n, n.*1 = from_option (λ se, reverse (omap snd (take (S (se_Index se)) (steps tx)))) [] stepErr ∧
    es = failures "rollback step" (from_option (λ se, undone (steps tx) (se_Index se)) [] stepErr) n)).
  { destruct stepErr as [se|]; [|by apply traced_ret]. eapply traced_weaken; [apply run_all_spec|]. intros es n [Hn ->].
    rewrite Hn, rollbacks_calls, rollbacks_steps by auto. done. }
  intros res rolled [Hrolled ->]. eapply traced_bind; [apply run_all_spec|]. intros des deferred [Hd ->]. apply traced_ret. rewrite app_nil_r.
  rewrite fmap_reverse, (indexed_calls _ (λ i, i)) in Hd. rewrite fmap_reverse, (indexed_numbers _ (λ i, i) 0) by done.
  assert (length (reverse (seq 0 (length (defers tx)))) = length deferred) as Hlen.
  { apply (f_equal length) in Hd. by rewrite length_fmap, length_reverse in Hd; rewrite length_reverse, length_seq. }
  exists done, rolled, deferred. split; [done|]. split; [done|]. destruct stepErr as [se|]; cbn in *.
  - split; [|done]. destruct Hdone as (k & b & c & r & Hi & Hc & -> & Hb & Ho & Hr & Hout). simpl in Hi. subst k. by exists b, c, r.
  - destruct Hdone as [Hn Ho]. apply fmap_nil_inv in Hrolled as ->. pose proof (failures_none "defer" _ _ Hlen) as He.
    destruct (bool_decide_reflect (failures "defer" (reverse (seq 0 (length (defers tx)))) deferred = [])) as [E|E]; cbn;
      (split; [|done]); split; [done| |done|]; split; [done| |done|]; split; [done| |done|]; rewrite <-He; [done|by split].
Qed.
End tx.

(** C28: A transaction.  Whatever its commands answer, it runs its steps in order up
    to the first that fails; if one fails, the rollbacks of the steps it began, that
    one included, in reverse order; and in any case, last, all deferred commands
    in reverse order.  It reports no error exactly when every step and every
    deferred command succeeded, and else the failed step with its number, error and
    output, and the errors of all rollbacks and deferred commands that failed, in the
    order they ran, each with its number. *)
Theorem Tx_run_spec reply tx : traced (run_tx reply tx) (tx_trace tx).
Proof. apply run_tx_trace. Qed.

Lemma calls_one (n : history) c : n.*1 = [c] → ∃ r, n = [(c, r)].
Proof. destruct n as [|[c' r] [|]]; intros E; simplify_eq/=; eauto. Qed.

(** ** Rebase *)

Section rebase.
Context (tbl : Z → Z) (reply : history → call → Reply).
Implicit Types (wt repo : string).

(** A call that does not start a rebase in the worktree. *)
Definition no_rebase wt (c : call) : Prop := ∀ b, c = Git wt ["rebase"; b] → b = "--abort".

Lemma only_DefaultBranch (p : call → Prop) repo : p (Git repo ["branch"; "--show-current"]) →
  p (Git repo ["symbolic-ref"; "--short"; "refs/remotes/origin/HEAD"]) → only p (DefaultBranch reply repo).
Proof. intros H1 H2. unfold DefaultBranch, origin_head. only_tac; done. Qed.

(** The commands that clean up before a rebase. *)
Definition recover_commands : list string := ["rev-parse"; "merge"; "reset"; "restore"; "status"].

Lemma not_recover x : x ∈ recover_commands → x ≠ "rebase" ∧ x ≠ "worktree" ∧ x ≠ "push" ∧ x ≠ "branch".
Proof. intros Hx. split_and!; intros ->; revert Hx; apply (bool_decide_unpack _); vm_compute; exact I. Qed.

Lemma only_recover (p : call → Prop) wt : (∀ x args, x ∈ recover_commands → p (Git wt (x :: args))) → p (Git wt ["rebase"; "--abort"]) → (∀ q, p (Stat q)) →
  only p (recoverRebaseState reply wt).
Proof.
  intros Hg Ha Hs. unfold recoverRebaseState, hasRebaseOrMergeState, state_dir, clearConflictedPaths, HasConflicts.
  only_tac; try done; apply Hg; unfold recover_commands; repeat (left || right).
Qed.

(** How a rebase ends. *)
Definition rebase_trace wt (e : option git_error) (n : history) : Prop :=
  ∃ prep last, n = (prep ++ last)%list ∧ Forall (no_rebase wt) prep.*1 ∧
    match e with
    | None => ∃ def r, last = [(Git wt ["rebase"; def], r)] ∧ r_err r = None
    | Some _ => last = [] ∨ ∃ def r r', last = [(Git wt ["rebase"; def], r); (Git wt ["rebase"; "--abort"], r')] ∧ r_err r ≠ None
    end.

Lemma rebase_traced repo wt : traced (RebaseOntoDefault tbl reply repo wt) (rebase_trace wt).
Proof.
  unfold RebaseOntoDefault. eapply traced_bind; [apply (only_DefaultBranch (no_rebase wt)); intros b [=]|]. intros def n1 H1.
  eapply traced_bind; [apply (only_recover (no_rebase wt))|].
  { intros x args Hx b [= -> ->]. by destruct (not_recover _ Hx). }
  { by intros b [= <-]. }
  { by intros q b. }
  intros e n2 H2. assert (Forall (no_rebase wt) (n1 ++ n2)%list.*1) as H12 by (rewrite fmap_app; by apply Forall_app).
  destruct e as [err|]; [apply traced_ret; rewrite !app_nil_r; exists (n1 ++ n2)%list, []; rewrite app_nil_r; auto|].
  eapply traced_bind; [apply run_tx_trace|]. intros t n3 (dn & rl & df & -> & Hdf & Ht & _). apply traced_ret. rewrite app_nil_r.
  exists (n1 ++ n2)%list, (dn ++ rl ++ df)%list. split; [by rewrite (assoc_L (++)%list)|]. split; [done|]. apply fmap_nil_inv in Hdf as ->.
  rewrite app_nil_r. destruct t as [te|]; cbn in Ht.
  - destruct (te_Step te) as [se|]; cbn in Ht.
    + destruct Ht as (b & c & r & -> & Hc & Hb & _ & Hr & _ & Hrl). destruct (se_Index se) as [|k]; [|by cbn in Hc]. cbn in *. apply fmap_nil_inv in Hb as ->.
      injection Hc as <-. destruct (calls_one _ _ Hrl) as [r' ->].
      assert (∃ x, (if IsConflictOutput (se_Output se) || IsRebaseNeedsMergeOutput tbl (se_Output se)
        then Some (ConflictError wt (parseConflictedFiles (se_Output se)) (se_Output se))
        else Some (GitError ("git rebase in " +:+ wt +:+ ": " +:+ se_Err se +:+ nl +:+ se_Output se))) = Some x) as [x ->] by (destruct (_ || _); eauto).
      right. exists def, r, r'. split; [done|]. by rewrite Hr.
    + destruct Ht as (_ & _ & _ & Hf). by pose proof (proj2 Hf (Forall_nil_2 _)).
  - destruct Ht as (Hd & Ho & -> & _). destruct (calls_one _ _ Hd) as [r ->]. apply Forall_cons in Ho as [Ho _]. exists def, r. by rewrite app_nil_r.
Qed.
End rebase.

(** A rebase is never left half done.  If it succeeds, its last command is the
    rebase; if it fails, either no rebase was begun, or the last command, right after
    the rebase that failed, aborts it.  Whatever git answers. *)
Theorem RebaseOntoDefault_aborts tbl reply repo wt : traced (RebaseOntoDefault tbl reply repo wt) (rebase_trace wt).
Proof. apply rebase_traced. Qed.

(** ** Merge *)

Section merge.
Context (reply : history → call → Reply).
Implicit Types (repo branch def : string).

Abbreviation stash repo := (Git repo ["stash"; "--include-untracked"]).
Abbreviation changed repo := (Git repo ["status"; "--porcelain"]).
Abbreviation pop repo := (Git repo ["stash"; "pop"]).
Abbreviation checkout repo def := (Git repo ["checkout"; def]).
Abbreviation ff repo branch := (Git repo ["merge"; "--ff-only"; branch]).

(** What a merge does between the stash and its return; [def] is the default branch. *)
Definition merge_steps repo branch def (e : option string) (n : history) : Prop :=
  ∃ r, match e with
    | None => ∃ r', n = [(checkout repo def, r); (ff repo branch, r')] ∧ r_err r = None ∧ r_err r' = None
    | Some _ => (n = [(checkout repo def, r)] ∧ r_err r ≠ None) ∨
                ∃ r', n = [(checkout repo def, r); (ff repo branch, r')] ∧ r_err r = None ∧ r_err r' ≠ None
    end.

(** The changes of the user are looked for and, if there are any, stashed. *)
Definition stash_trace repo (stashed : bool) (n : history) : Prop :=
  ∃ r, let changes := r_err r = None ∧ TrimSpace (r_stdout r) ≠ EmptyString in
    (stashed = false ∧ n = [(changed repo, r)] ∧ ¬ changes) ∨
    (changes ∧ ∃ r', n = [(changed repo, r); (stash repo, r')] ∧ (stashed = true ↔ r_err r' = None)).

Definition merge_tail repo branch def (e : option string) (n : history) : Prop :=
  ∃ stashed asks steps post, n = (asks ++ steps ++ post)%list ∧ stash_trace repo stashed asks ∧ merge_steps repo branch def e steps ∧
    if stashed then ∃ r, post = [(pop repo, r)] else post = [].

Lemma stash_traced repo : traced (StashIfDirty reply repo) (stash_trace repo).
Proof.
  unfold StashIfDirty. eapply traced_bind; [apply traced_Output|]. intros x n (r & -> & ->). destruct (r_err r) as [e|] eqn:Er.
  { apply traced_ret. exists r. left. rewrite Er. split; [done|]. split; [done|]. by intros [? _]. }
  destruct (decide _) as [E|E]; [apply traced_ret; exists r; left; split; [done|]; split; [done|]; by intros [_ ?]|].
  eapply traced_weaken; [apply traced_succeeds|]. intros b n2 (r' & -> & Hb). exists r. right. split; [done|]. by exists r'.
Qed.

(** The transaction of a merge. *)
Definition merge_tx repo branch def (stashed : bool) : Tx :=
  GitExec.Add (ff repo branch) (GitExec.Add (checkout repo def) (if stashed then Defer (pop repo) NewTx else NewTx)).

Definition merge_result repo branch def (t : option TxError) : option string :=
  match t with
  | None => None
  | Some te =>
    match te_Step te with
    | None => None
    | Some se =>
      if decide (se_Index se = 0%nat)
      then Some ("git checkout " +:+ def +:+ " in " +:+ repo +:+ ": " +:+ se_Err se +:+ nl +:+ se_Output se)
      else Some ("git merge --ff-only " +:+ branch +:+ " in " +:+ repo +:+ ": " +:+ se_Err se +:+ nl +:+ se_Output se)
    end
  end.

Lemma merge_tx_trace repo branch def stashed t n : tx_trace (merge_tx repo branch def stashed) t n →
  ∃ steps post, n = (steps ++ post)%list ∧ merge_steps repo branch def (merge_result repo branch def t) steps ∧
    if stashed then ∃ r, post = [(pop repo, r)] else post = [].
Proof.
  intros (dn & rl & df & -> & Hdf & Ht & _).
  assert (steps (merge_tx repo branch def stashed) = [(checkout repo def, None); (ff repo branch, None)]) as Es by (by destruct stashed).
  rewrite Es in Ht. assert (rl = [] ∧ merge_steps repo branch def (merge_result repo branch def t) dn) as [-> Hs].
  { unfold merge_result. destruct (t ≫= te_Step) as [se|] eqn:Et.
    - apply bind_Some in Et as (te & -> & Ese). rewrite Ese. destruct Ht as (b & c & r & -> & Hc & Hb & Ho & Hr & _ & Hrl).
      destruct (se_Index se) as [|[|k]]; [..|by cbn in Hc]; cbn in Hc, Hb, Hrl; apply fmap_nil_inv in Hrl as ->; injection Hc as <-.
      + apply fmap_nil_inv in Hb as ->. split; [done|]. exists r. left. by rewrite Hr.
      + destruct (calls_one _ _ Hb) as [r0 ->]. apply Forall_cons in Ho as [Ho _]. split; [done|]. exists r0. right. exists r. by rewrite Hr.
    - destruct Ht as (Hd & Ho & -> & _). split; [done|]. assert (merge_result repo branch def t = None) as Hm.
      { unfold merge_result. destruct t as [te|]; [|done]. cbn in Et. by rewrite Et. }
      unfold merge_result in Hm. rewrite Hm. destruct dn as [|[c1 r1] [|[c2 r2] [|]]]; try done. cbn in Hd. simplify_eq.
      apply Forall_cons in Ho as [Ho1 [Ho2 _]%Forall_cons]. by exists r1, r2. }
  exists dn, df. split; [done|]. split; [done|]. destruct stashed; cbn in Hdf; [by apply calls_one|by apply fmap_nil_inv in Hdf].
Qed.

(** The merge after the default branch is known. *)
Definition merge_after repo branch def : H (option string) :=
  stashed ← StashIfDirty reply repo;
  t ← run_tx reply (merge_tx repo branch def stashed);
  mret (merge_result repo branch def t).

Lemma merge_after_traced repo branch def : traced (merge_after repo branch def) (merge_tail repo branch def).
Proof.
  unfold merge_after. eapply traced_bind; [apply stash_traced|]. intros stashed asks Ha. eapply traced_bind; [apply run_tx_trace|].
  intros t n (sp & post & -> & Hs & Hp)%merge_tx_trace. apply traced_ret. rewrite app_nil_r. by exists stashed, asks, sp, post.
Qed.

Lemma merge_shape repo branch h :
  FFMerge reply repo branch h = merge_after repo branch (DefaultBranch reply repo h).1 (DefaultBranch reply repo h).2.
Proof. unfold FFMerge, mbind at 1, H_bind at 1. by destruct (DefaultBranch reply repo h). Qed.

Lemma merge_traced repo branch : traced (FFMerge reply repo branch)
  (λ e n, e = None → ∃ n1 r n2, n = (n1 ++ [(ff repo branch, r)] ++ n2)%list ∧ r_err r = None).
Proof.
  intros h. rewrite merge_shape. destruct (only_DefaultBranch reply (λ _, True) repo I I h) as (looks & El & _).
  destruct (merge_after_traced repo branch (DefaultBranch reply repo h).1 (DefaultBranch reply repo h).2) as (n & En & stashed & asks & st & post & -> & _ & Hs & _).
  exists (looks ++ asks ++ st ++ post)%list. split; [by rewrite En, El, <-app_assoc|]. intros E. rewrite E in Hs. destruct Hs as (r & r' & -> & _ & Hr).
  exists (looks ++ asks ++ [(checkout repo (DefaultBranch reply repo h).1, r)])%list, r', post. by rewrite <-!app_assoc.
Qed.
End merge.

(** C29: The merge into the default branch, whatever git answers.  After asking for the
    default branch it looks for uncommitted changes of the user and stashes them if
    git reports any.  Then it checks out the default branch and, if that succeeds,
    fast-forwards it to the task's branch; it succeeds exactly when both do.  If the
    changes were stashed the last command, after a success as after a failure, tries
    to take the stash back; there are no other commands. *)
Theorem FFMerge_restores_stash reply repo branch h :
  let def := DefaultBranch reply repo h in
  ∃ n, (FFMerge reply repo branch h).2 = (def.2 ++ n)%list ∧ merge_tail repo branch def.1 (FFMerge reply repo branch h).1 n.
Proof. intros def. rewrite merge_shape. apply merge_after_traced. Qed.
