(* ===== verification/RoutineEngine.v ===== *)
(** * The routine scheduler (internal/routine)

    The engine keeps one entry per routine, with the timer that is armed for it.
    Each critical section of the source is one function on the engine; a timer
    that expires, the two critical sections of its callback, manual triggers and
    the calls of the handlers are actions that can interleave in any order
    ([act]).  Times are nanoseconds, 0 is the zero time. *)

From S2P Require Import Prelude TaskModel.
From stdpp Require Import list gmap.
Local Open Scope Z_scope.

Section engine.
Context `{UUIDLib}.

(** [FixedInterval] and [disabled]. *)
Inductive Schedule := FixedInterval (D : Z) | disabled.

#[export] Instance Schedule_eq_dec : EqDecision Schedule.
Proof. solve_decision. Defined.

Definition Next (s : Schedule) (now : Z) : Z :=
  match s with
  | FixedInterval D => if Z.leb D 0 then 0 else now + D
  | disabled => 0
  end.

Record entry := MkEntry { schedule : Schedule; nextRun : Z; timer : option nat }.

(** The timers that [AfterFunc] has armed: when they are due, and the routine
    that their callback was made for. *)
Record Engine := MkEngine {
  entries : gmap uuid entry;
  timers : gmap nat (Z * uuid);
  fresh_timer : nat
}.

Definition NewEngine : Engine := MkEngine ∅ ∅ 0.

Definition Stop (t : option nat) (e : Engine) : Engine :=
  match t with
  | Some t => MkEngine (entries e) (delete t (timers e)) (fresh_timer e)
  | None => e
  end.

Definition put (id : uuid) (ent : entry) (e : Engine) : Engine :=
  MkEngine (<[id := ent]> (entries e)) (timers e) (fresh_timer e).

Definition armLocked (id : uuid) (s : Schedule) (now : Z) (e : Engine) : Engine :=
  let e := Stop (entries e !! id ≫= timer) e in
  let next := Next s now in
  if Z.eqb next 0 then put id (MkEntry s 0 None) e
  else let due := now + Z.max (next - now) 0 in
       put id (MkEntry s next (Some (fresh_timer e)))
         (MkEngine (entries e) (<[fresh_timer e := (due, id)]> (timers e)) (S (fresh_timer e))).

(** [None] is a nil schedule. *)
Definition Register (id : uuid) (s : option Schedule) (now : Z) (e : Engine) : Engine :=
  let s := default disabled s in
  match entries e !! id with
  | Some ent => if decide (schedule ent = s) then e else armLocked id s now e
  | None => armLocked id s now e
  end.

Definition Unregister (id : uuid) (e : Engine) : Engine :=
  match entries e !! id with
  | Some ent => let e := Stop (timer ent) e in MkEngine (delete id (entries e)) (timers e) (fresh_timer e)
  | None => e
  end.

(** The first critical section of [Trigger]; [None]: unknown routine. *)
Definition trigger_take (id : uuid) (e : Engine) : option Engine :=
  match entries e !! id with
  | None => None
  | Some ent =>
    Some (match timer ent with
          | Some t => put id (MkEntry (schedule ent) 0 None) (Stop (Some t) e)
          | None => e
          end)
  end.

(** The first critical section of [onFire]. *)
Definition fire_take (id : uuid) (e : Engine) : option Engine :=
  match entries e !! id with
  | None => None
  | Some ent => Some (put id (MkEntry (schedule ent) 0 None) e)
  end.

Definition reArmAfterFire (id : uuid) (now : Z) (e : Engine) : Engine :=
  match entries e !! id with
  | None => e
  | Some ent => match timer ent with
                | Some _ => e
                | None => armLocked id (schedule ent) now e
                end
  end.

Definition NextRuns (e : Engine) : gmap uuid Z := nextRun <$> entries e.

(** ** Interleavings *)

(** The engine with the goroutines that run its code: callbacks of expired timers
    that have not taken the lock yet, goroutines between a fire and the re-arming,
    and the fires so far. *)
Record Running := MkRunning {
  engine : Engine;
  called : list uuid;
  rearming : list uuid;
  fired : list (Z * uuid);
  time : Z
}.

Inductive action :=
| Tick (d : Z)
| Expire (t : nat)
| Callback (id : uuid)
| ReArm (id : uuid)
| DoRegister (id : uuid) (s : option Schedule)
| DoUnregister (id : uuid)
| DoTrigger (id : uuid).

(** One occurrence of [x] less. *)
Fixpoint remove_one (x : uuid) (l : list uuid) : option (list uuid) :=
  match l with
  | [] => None
  | y :: l => if decide (x = y) then Some l else (λ l', y :: l') <$> remove_one x l
  end.

Definition with_engine (f : Engine → Engine) (r : Running) : Running :=
  MkRunning (f (engine r)) (called r) (rearming r) (fired r) (time r).

(** The fire function is started, and the goroutine goes on to re-arm. *)
Definition fire_now (id : uuid) (e : Engine) (r : Running) : Running :=
  MkRunning e (called r) (id :: rearming r) (fired r ++ [(time r, id)]) (time r).

Definition act (a : action) (r : Running) : option Running :=
  match a with
  | Tick d => if Z.leb 0 d then Some (MkRunning (engine r) (called r) (rearming r) (fired r) (time r + d)) else None
  | Expire t =>
    match timers (engine r) !! t with
    | Some (due, id) =>
      if Z.leb due (time r) then Some (MkRunning (Stop (Some t) (engine r)) (id :: called r) (rearming r) (fired r) (time r)) else None
    | None => None
    end
  | Callback id =>
    match remove_one id (called r) with
    | Some rest =>
      let r := MkRunning (engine r) rest (rearming r) (fired r) (time r) in
      Some (match fire_take id (engine r) with Some e => fire_now id e r | None => r end)
    | None => None
    end
  | ReArm id =>
    match remove_one id (rearming r) with
    | Some rest => Some (MkRunning (reArmAfterFire id (time r) (engine r)) (called r) rest (fired r) (time r))
    | None => None
    end
  | DoRegister id s => Some (with_engine (Register id s (time r)) r)
  | DoUnregister id => Some (with_engine (Unregister id) r)
  | DoTrigger id => Some (match trigger_take id (engine r) with Some e => fire_now id e r | None => r end)
  end.

Fixpoint acts (l : list action) (r : Running) : option Running :=
  match l with
  | [] => Some r
  | a :: l => r ← act a r; acts l r
  end.

Definition started (now : Z) : Running := MkRunning NewEngine [] [] [] now.
End engine.
