(* ===== verification/RoutineSpec.v ===== *)
(** * The scheduler forgets no routine

    [engine_inv] holds after any actions of the scheduler, its timers and its users:
    the timer of each entry is armed for it or its callback is on the way, and an
    enabled entry without a timer is about to be armed again.  So a registered
    routine fires within its interval ([routine_never_forgotten]).  [RoutineRun] is
    a run in which a routine that is registered again while its callback waits has
    two timers. *)

From S2P Require Import Prelude TaskModel RoutineEngine.
From Stdlib Require Import String.
From stdpp Require Import list gmap.
Local Open Scope Z_scope.

Section spec.
Context `{UUIDLib}.
Implicit Types (r : Running) (e : Engine) (id : uuid) (s : Schedule) (ent : entry).

Definition enabled s : Prop := ∃ D, s = FixedInterval D ∧ 0 < D.

(** The timer of an entry is armed for it or its callback is on the way; an entry
    without one that should fire is about to be re-armed. *)
Record engine_inv r : Prop := {
  ei_time : 0 <= time r;
  ei_fresh : ∀ t x, timers (engine r) !! t = Some x → (t < fresh_timer (engine r))%nat;
  ei_old : ∀ id ent t, entries (engine r) !! id = Some ent → timer ent = Some t → (t < fresh_timer (engine r))%nat;
  ei_armed : ∀ id ent t, entries (engine r) !! id = Some ent → timer ent = Some t →
    timers (engine r) !! t = Some (nextRun ent, id) ∨ timers (engine r) !! t = None ∧ id ∈ called r;
  ei_idle : ∀ id ent, entries (engine r) !! id = Some ent → timer ent = None → enabled (schedule ent) → id ∈ rearming r;
  ei_soon : ∀ id ent t D, entries (engine r) !! id = Some ent → timer ent = Some t → schedule ent = FixedInterval D → nextRun ent <= time r + D
}.

Lemma remove_one_elem x y (l l' : list uuid) : remove_one x l = Some l' → y ≠ x → y ∈ l → y ∈ l'.
Proof.
  revert l'. induction l as [|z l IH]; intros l' E Hne Hy; [done|]. simpl in E. case_decide as Ez.
  - simplify_eq. by apply elem_of_cons in Hy as [?|?].
  - destruct (remove_one x l) as [k|]; simplify_eq/=. apply elem_of_cons in Hy as [->|Hy]; [by left|right; by apply IH].
Qed.

Lemma remove_one_found x (l : list uuid) : x ∈ l → ∃ l', remove_one x l = Some l'.
Proof.
  induction l as [|z l IH]; [by intros ?%not_elem_of_nil|]. simpl. intros Hx. case_decide; [eauto|].
  apply elem_of_cons in Hx as [?|Hx]; [done|]. destruct (IH Hx) as [l' ->]. simpl. eauto.
Qed.

Lemma Next_enabled s now : 0 <= now → enabled s → ∃ D, s = FixedInterval D ∧ 0 < D ∧ Next s now = now + D ∧ Z.eqb (Next s now) 0 = false.
Proof.
  intros Hn (D & -> & HD). exists D. simpl. destruct (Z.leb_spec D 0); [lia|]. split_and!; [done..|]. apply Z.eqb_neq. lia.
Qed.

Lemma Next_disabled s now : 0 <= now → ¬ enabled s → Next s now = 0.
Proof. intros _ Hn. destruct s as [D|]; [|done]. simpl. destruct (Z.leb_spec D 0); [done|]. destruct Hn. by exists D. Qed.

Lemma enabled_dec s : Decision (enabled s).
Proof. destruct s as [D|]; [destruct (decide (0 < D)) as [?|?]; [left; by exists D|right; by intros (? & [= <-] & ?)]|right; by intros (? & [=] & _)]. Qed.

(** Arming, when the other entries are in order. *)
Lemma arm_inv id s r c ra : engine_inv r → (∀ x, x ≠ id → x ∈ called r → x ∈ c) → (∀ x, x ≠ id → x ∈ rearming r → x ∈ ra) →
  engine_inv (MkRunning (armLocked id s (time r) (engine r)) c ra (fired r) (time r)).
Proof.
  intros [I1 I2 I3 I4 I5 I6] Hc Hra. unfold armLocked. set (e1 := Stop _ (engine r)).
  assert (entries e1 = entries (engine r)) as E1 by (unfold e1; by destruct (_ ≫= _)).
  assert (fresh_timer e1 = fresh_timer (engine r)) as E2 by (unfold e1; by destruct (_ ≫= _)).
  assert (∀ t x, timers e1 !! t = Some x → timers (engine r) !! t = Some x) as E3.
  { unfold e1. destruct (_ ≫= _); [|done]. intros t x Hx. simpl in Hx. by apply lookup_delete_Some in Hx as [_ ?]. }
  assert (∀ id' ent t, id' ≠ id → entries (engine r) !! id' = Some ent → timer ent = Some t →
            timers e1 !! t = Some (nextRun ent, id') ∨ timers e1 !! t = None ∧ id' ∈ c) as E4.
  { intros id' ent t Hne He Ht. unfold e1. destruct (entries (engine r) !! id ≫= timer) as [t0|] eqn:E0; simpl.
    - apply bind_Some in E0 as (ent0 & He0 & Ht0). destruct (decide (t0 = t)) as [->|Hn].
      + destruct (I4 _ _ _ He Ht) as [Ha|[Ha Hin]]; [|right; rewrite lookup_delete_eq; auto].
        destruct (I4 _ _ _ He0 Ht0) as [Hb|[Hb _]]; congruence.
      + rewrite lookup_delete_ne by done. destruct (I4 _ _ _ He Ht) as [Ha|[Ha Hin]]; auto.
    - destruct (I4 _ _ _ He Ht) as [Ha|[Ha Hin]]; auto. }
  destruct (enabled_dec s) as [Hs|Hs].
  - destruct (Next_enabled s (time r) I1 Hs) as (D & -> & HD & En & ->). rewrite En. replace (time r + Z.max (time r + D - time r) 0) with (time r + D) by lia.
    split; simpl; rewrite ?E1, ?E2; [done|..].
    + intros t x [[<- _]|[_ Hx]]%lookup_insert_Some; [lia|]. apply E3, I2 in Hx. lia.
    + intros id' ent t [[<- <-]|[_ Hx]]%lookup_insert_Some; simpl; [intros [= <-]; lia|]. intros Ht. specialize (I3 _ _ _ Hx Ht). lia.
    + intros id' ent t [[<- <-]|[Hne Hx]]%lookup_insert_Some; simpl; [intros [= <-]; left; by rewrite lookup_insert_eq|].
      intros Ht. specialize (I3 _ _ _ Hx Ht). rewrite lookup_insert_ne by lia. by apply E4.
    + intros id' ent [[<- <-]|[Hne Hx]]%lookup_insert_Some; simpl; [done|]. intros Ht He. eauto.
    + intros id' ent t D' [[<- <-]|[Hne Hx]]%lookup_insert_Some; simpl; [intros _ [= <-]; lia|]. intros Ht Hs'. by eapply I6.
  - rewrite (Next_disabled _ _ I1 Hs). simpl. split; simpl; rewrite ?E1, ?E2; [done|..].
    + intros t x Hx. by eapply I2, E3.
    + intros id' ent t [[<- <-]|[_ Hx]]%lookup_insert_Some; simpl; [done|]. by eapply I3.
    + intros id' ent t [[<- <-]|[Hne Hx]]%lookup_insert_Some; simpl; [done|]. by apply E4.
    + intros id' ent [[<- <-]|[Hne Hx]]%lookup_insert_Some; simpl; [done|]. eauto.
    + intros id' ent t D' [[<- <-]|[Hne Hx]]%lookup_insert_Some; simpl; [done|]. by eapply I6.
Qed.

(** An entry loses its timer and is about to be re-armed. *)
Lemma take_inv id ent c r tms : engine_inv r → entries (engine r) !! id = Some ent → (∀ x, x ≠ id → x ∈ called r → x ∈ c) →
  tms = timers (engine r) ∨ (∃ t, timer ent = Some t ∧ tms = delete t (timers (engine r))) →
  engine_inv (fire_now id (put id (MkEntry (schedule ent) 0 None) (MkEngine (entries (engine r)) tms (fresh_timer (engine r))))
                (MkRunning (engine r) c (rearming r) (fired r) (time r))).
Proof.
  intros [I1 I2 I3 I4 I5 I6] He Hc Htms.
  assert (∀ t x, tms !! t = Some x → timers (engine r) !! t = Some x) as Hsub.
  { destruct Htms as [->|(t0 & _ & ->)]; [done|]. intros t x [_ ?]%lookup_delete_Some. done. }
  split; simpl; [done|..].
  - intros t x Hx. by eapply I2, Hsub.
  - intros id' ent' t [[<- <-]|[_ Hx]]%lookup_insert_Some; simpl; [done|]. by eapply I3.
  - intros id' ent' t [[<- <-]|[Hne Hx]]%lookup_insert_Some; simpl; [done|]. intros Ht. destruct (I4 _ _ _ Hx Ht) as [Ha|[Ha Hin]].
    + destruct Htms as [->|(t0 & Ht0 & ->)]; [by left|]. left. rewrite lookup_delete_ne; [done|]. intros ->.
      destruct (I4 _ _ _ He Ht0) as [Hb|[Hb _]]; congruence.
    + right. split; [|auto]. destruct (tms !! t) as [x|] eqn:E; [|done]. apply Hsub in E. congruence.
  - intros id' ent' [[<- <-]|[Hne Hx]]%lookup_insert_Some; simpl; [by left|]. intros Ht Hs. right. eauto.
  - intros id' ent' t D [[<- <-]|[Hne Hx]]%lookup_insert_Some; simpl; [done|]. by eapply I6.
Qed.

Lemma expire_inv t r r' : act (Expire t) r = Some r' → engine_inv r → engine_inv r'.
Proof.
  simpl. intros Ha [I1 I2 I3 I4 I5 I6]. destruct (timers (engine r) !! t) as [[due id]|] eqn:Et; [|done]. destruct (Z.leb due (time r)); simplify_eq. split; simpl; try done.
  - intros t' x [_ Hx]%lookup_delete_Some. by eapply I2.
  - intros id' ent t' He Ht. destruct (decide (t = t')) as [<-|Hne].
    + right. rewrite lookup_delete_eq. destruct (I4 _ _ _ He Ht) as [Hx|[Hx _]]; [|congruence]. simplify_eq. split; [done|by left].
    + rewrite lookup_delete_ne by done. destruct (I4 _ _ _ He Ht) as [Hx|[Hx Hin]]; [by left|right; split; [done|by right]].
Qed.

Lemma callback_inv id r r' : act (Callback id) r = Some r' → engine_inv r → engine_inv r'.
Proof.
  simpl. intros Ha Hi. pose proof Hi as [I1 I2 I3 I4 I5 I6]. destruct (remove_one id (called r)) as [rest|] eqn:Er; simplify_eq. unfold fire_take. simpl.
  assert (∀ x, x ≠ id → x ∈ called r → x ∈ rest) as Hrest by (intros x ? ?; by eapply remove_one_elem).
  destruct (entries (engine r) !! id) as [ent|] eqn:He.
  - apply (take_inv id ent rest r (timers (engine r)) Hi He Hrest). by left.
  - split; simpl; try done. intros id' ent t He' Ht. destruct (I4 _ _ _ He' Ht) as [Hx|[Hx Hin]]; [by left|right]. split; [done|]. apply Hrest; [congruence|done].
Qed.

Lemma unregister_inv id r : engine_inv r → engine_inv (with_engine (Unregister id) r).
Proof.
  intros Hi. pose proof Hi as [I1 I2 I3 I4 I5 I6]. unfold with_engine, Unregister. destruct (entries (engine r) !! id) as [ent|] eqn:He; [|by destruct r].
  set (e1 := Stop (timer ent) (engine r)). assert (entries e1 = entries (engine r)) as E1 by (unfold e1; by destruct (timer ent)).
  assert (fresh_timer e1 = fresh_timer (engine r)) as E2 by (unfold e1; by destruct (timer ent)).
  split; simpl; rewrite ?E1, ?E2; try done.
  - intros t x Hx. apply (I2 t x). unfold e1 in Hx. destruct (timer ent); [|done]. simpl in Hx. by apply lookup_delete_Some in Hx as [_ ?].
  - intros id' ent' t [_ He']%lookup_delete_Some. by eapply I3.
  - intros id' ent' t [Hne He']%lookup_delete_Some Ht. assert (timers e1 !! t = timers (engine r) !! t) as ->; [|by eapply I4].
    unfold e1. destruct (timer ent) as [t0|] eqn:Et0; [|done]. simpl. destruct (decide (t0 = t)) as [->|?]; [|by apply lookup_delete_ne].
    rewrite lookup_delete_eq. destruct (I4 _ _ _ He Et0) as [Ha|[Ha _]], (I4 _ _ _ He' Ht) as [Hb|[Hb _]]; congruence.
  - intros id' ent' [_ He']%lookup_delete_Some. by eapply I5.
  - intros id' ent' t D [_ He']%lookup_delete_Some. by eapply I6.
Qed.

Lemma act_inv a r r' : act a r = Some r' → engine_inv r → engine_inv r'.
Proof.
  intros Ha Hi. pose proof Hi as [I1 I2 I3 I4 I5 I6]. destruct a as [d|t|id|id|id s|id|id]; [|by eapply expire_inv|by eapply callback_inv|..]; simpl in Ha.
  - destruct (Z.leb_spec 0 d); simplify_eq. split; simpl; try done; [lia|]. intros id ent t D He Ht Hs. specialize (I6 _ _ _ _ He Ht Hs). lia.
  - destruct (remove_one id (rearming r)) as [rest|] eqn:Er; simplify_eq. unfold reArmAfterFire.
    assert (∀ x, x ≠ id → x ∈ rearming r → x ∈ rest) as Hrest by (intros x ? ?; by eapply remove_one_elem).
    destruct (entries (engine r) !! id) as [ent|] eqn:He; [destruct (timer ent) as [t|] eqn:Et; [|by apply arm_inv]|].
    all: split; simpl; try done; intros id' ent' He' Ht' Hs; apply Hrest; [|by eapply I5]; congruence.
  - simplify_eq. unfold with_engine, Register. destruct (entries (engine r) !! id) as [ent|] eqn:He; [case_decide; [by destruct r|]|]; by apply arm_inv.
  - simplify_eq. by apply unregister_inv.
  - simplify_eq. unfold trigger_take. destruct (entries (engine r) !! id) as [ent|] eqn:He; [|done]. destruct (timer ent) as [t|] eqn:Et.
    + apply (take_inv id ent (called r) r (delete t (timers (engine r))) Hi He); [done|]. right. eauto.
    + split; simpl; try done. intros id' ent' He' Ht' Hs. right. by eapply I5.
Qed.

Lemma acts_inv l r r' : acts l r = Some r' → engine_inv r → engine_inv r'.
Proof.
  revert r. induction l as [|a l IH]; intros r E Hi; [by simplify_eq/=|]. cbn [acts] in E. apply bind_Some in E as (r1 & E1 & E2).
  eapply IH; [done|]. by eapply act_inv.
Qed.

Lemma started_inv now : 0 <= now → engine_inv (started now).
Proof. intros Hn. by split. Qed.

(** What the scheduler does by itself. *)
Definition internal (a : action) : Prop :=
  match a with Tick _ | Expire _ | Callback _ | ReArm _ => True | _ => False end.

Lemma callback_fires id ent r : id ∈ called r → entries (engine r) !! id = Some ent →
  ∃ r', act (Callback id) r = Some r' ∧ time r' = time r ∧ fired r' = fired r ++ [(time r, id)].
Proof.
  intros Hin He. destruct (remove_one_found _ _ Hin) as [l' El]. simpl. rewrite El. eexists. split; [reflexivity|]. unfold fire_take. simpl. rewrite He. done.
Qed.

Lemma acts_cons a l r r1 : act a r = Some r1 → acts (a :: l) r = acts l r1.
Proof. intros E. cbn [acts]. by rewrite E. Qed.

Lemma armed_fires id ent t r : engine_inv r → entries (engine r) !! id = Some ent → timer ent = Some t → timers (engine r) !! t = Some (nextRun ent, id) →
  ∃ l r', Forall internal l ∧ acts l r = Some r' ∧ time r' = Z.max (time r) (nextRun ent) ∧ fired r' = fired r ++ [(time r', id)].
Proof.
  intros Hi He Ht Ha. set (d := Z.max 0 (nextRun ent - time r)).
  destruct (callback_fires id ent (MkRunning (Stop (Some t) (engine r)) (id :: called r) (rearming r) (fired r) (time r + d))) as (r' & E' & Et & Ef); [by left|done|].
  exists [Tick d; Expire t; Callback id], r'. split; [by repeat constructor|]. split.
  - rewrite (acts_cons _ _ _ (MkRunning (engine r) (called r) (rearming r) (fired r) (time r + d))) by (simpl; destruct (Z.leb_spec 0 d); [done|lia]).
    erewrite (acts_cons (Expire t)) by (simpl; rewrite Ha; destruct (Z.leb_spec (nextRun ent) (time r + d)); [reflexivity|lia]).
    by rewrite (acts_cons _ _ _ _ E').
  - rewrite Ef, Et. simpl. split; [lia|done].
Qed.

Lemma enabled_fires r id ent D : engine_inv r → entries (engine r) !! id = Some ent → schedule ent = FixedInterval D → 0 < D →
  ∃ l r' n, Forall internal l ∧ acts l r = Some r' ∧ fired r' = fired r ++ [(n, id)] ∧ time r <= n <= time r + D.
Proof.
  intros Hi He Hs HD. pose proof Hi as [I1 I2 I3 I4 I5 I6]. destruct (timer ent) as [t|] eqn:Et.
  - destruct (I4 _ _ _ He Et) as [Ha|[_ Hin]].
    + destruct (armed_fires id ent t r Hi He Et Ha) as (l & r' & Hl & E & Etm & Ef). exists l, r', (time r'). split_and!; [done..|lia|].
      specialize (I6 _ _ _ _ He Et Hs). lia.
    + destruct (callback_fires id ent r Hin He) as (r' & E & Etm & Ef). exists [Callback id], r', (time r). split; [by repeat constructor|].
      split; [by rewrite (acts_cons _ _ _ _ E)|]. split; [done|lia].
  - assert (id ∈ rearming r) as Hin by (eapply I5; [done..|]; by exists D). destruct (remove_one_found _ _ Hin) as [l' El].
    set (r1 := MkRunning (reArmAfterFire id (time r) (engine r)) (called r) l' (fired r) (time r)).
    assert (act (ReArm id) r = Some r1) as E1 by (simpl; by rewrite El). pose proof (act_inv _ _ _ E1 Hi) as Hi1.
    assert (entries (engine r1) !! id = Some (MkEntry (FixedInterval D) (time r + D) (Some (fresh_timer (engine r)))) ∧
            timers (engine r1) !! fresh_timer (engine r) = Some (time r + D, id)) as [He1 Ht1].
    { simpl. unfold reArmAfterFire, armLocked. rewrite He. simpl. rewrite Et, Hs. simpl. destruct (Z.leb_spec D 0); [lia|].
      destruct (Z.eqb_spec (time r + D) 0); [lia|]. simpl. rewrite !lookup_insert_eq. split; [done|]. f_equal. f_equal. lia. }
    destruct (armed_fires id _ _ r1 Hi1 He1 eq_refl Ht1) as (l & r' & Hl & E & Etm & Ef). exists (ReArm id :: l), r', (time r').
    split; [by constructor|]. split; [by rewrite (acts_cons _ _ _ _ E1)|]. split; [done|]. rewrite Etm. simpl. lia.
Qed.

(** ** Callbacks that are not overtaken *)

(** The armed timers are exactly those of the entries. *)
Definition exact e : Prop :=
  (∀ t x, timers e !! t = Some x → (t < fresh_timer e)%nat) ∧
  ∀ t due id, timers e !! t = Some (due, id) ↔ ∃ s, entries e !! id = Some (MkEntry s due (Some t)).

(** An entry loses its timer. *)
Lemma unarm_exact id ent e : exact e → entries e !! id = Some ent → exact (put id (MkEntry (schedule ent) 0 None) (Stop (timer ent) e)).
Proof.
  intros [Hf Hx] He. assert (∀ t x, timers (Stop (timer ent) e) !! t = Some x → timers e !! t = Some x) as Hsub.
  { destruct (timer ent); [|done]. intros t x Ht. simpl in Ht. by apply lookup_delete_Some in Ht as [_ ?]. }
  split; [intros t x Ht; simpl; destruct (timer ent); simpl; eauto|]. intros t due id'. simpl.
  assert (entries (Stop (timer ent) e) = entries e) as -> by (by destruct (timer ent)). split.
  - intros Ht. pose proof (Hsub _ _ Ht) as Ht'. apply Hx in Ht' as [s Hs]. exists s. rewrite lookup_insert_ne; [done|]. intros <-. simplify_eq.
    simpl in Ht. by rewrite lookup_delete_eq in Ht.
  - intros [s [[_ [=]]|[Hne Hs]]%lookup_insert_Some]. assert (timers e !! t = Some (due, id')) as Ht by (apply Hx; eauto).
    destruct (timer ent) as [t0|] eqn:E0; [|done]. simpl. rewrite lookup_delete_ne; [done|]. intros ->. destruct ent as [s0 n0 tm]; simpl in *; subst.
    assert (timers e !! t = Some (n0, id)) by (apply Hx; eauto). congruence.
Qed.

Lemma arm_exact id s now e : exact e → exact (armLocked id s now e).
Proof.
  intros He. unfold armLocked. set (e1 := Stop _ e).
  assert (exact (put id (MkEntry s 0 None) e1)) as [Hf Hx].
  { unfold e1. destruct (entries e !! id) as [ent|] eqn:Ee; simpl.
    - pose proof (unarm_exact id ent e He Ee) as [H1 H2]. split; [exact H1|]. intros t due id'. rewrite H2. simpl. split; intros [s' [[? [=]]|?]%lookup_insert_Some]; exists s'; by apply lookup_insert_Some; right.
    - destruct He as [H1 H2]. split; [exact H1|]. intros t due id'. simpl. rewrite H2. split; intros [s' Hs']; exists s'.
      + rewrite lookup_insert_ne; [done|]. congruence.
      + by apply lookup_insert_Some in Hs' as [[? [=]]|[_ ?]]. }
  destruct (Z.eqb _ 0) eqn:En; [done|]. set (due := now + Z.max (Next s now - now) 0). simpl in Hf, Hx.
  assert (due = Next s now) as Hdue.
  { unfold due. destruct s as [D|]; [|done]. simpl in *. destruct (Z.leb_spec D 0); [done|]. lia. }
  split; simpl.
  - intros t x [[<- _]|[_ Ht]]%lookup_insert_Some; [lia|]. apply Hf in Ht. lia.
  - intros t due' id'. rewrite lookup_insert_Some. split.
    + intros [[<- [= <- <-]]|[Hne Ht]]; [exists s; rewrite lookup_insert_eq, Hdue; done|]. apply Hx in Ht as [s' [[? [=]]|[Hn Hs']]%lookup_insert_Some].
      exists s'. by rewrite lookup_insert_ne.
    + intros [s' [[<- [= <- <- <-]]|[Hn Hs']]%lookup_insert_Some]; [left; by rewrite Hdue|]. right.
      assert (timers e1 !! t = Some (due', id')) as Ht by (apply Hx; exists s'; by rewrite lookup_insert_ne). split; [|done]. apply Hf in Ht. lia.
Qed.

(** Every expired timer runs its callback to the end before anything else happens. *)
Inductive calm : Running → Prop :=
| calm_start now : calm (started now)
| calm_tick d r r' : calm r → act (Tick d) r = Some r' → calm r'
| calm_register id (s : option Schedule) r r' : calm r → act (DoRegister id s) r = Some r' → calm r'
| calm_unregister id r r' : calm r → act (DoUnregister id) r = Some r' → calm r'
| calm_fire t due id r r' : calm r → timers (engine r) !! t = Some (due, id) → acts [Expire t; Callback id; ReArm id] r = Some r' → calm r'
| calm_trigger id r r' : calm r → acts [DoTrigger id; ReArm id] r = Some r' → calm r'.

Lemma rearm_exact id ent r r' : exact (engine r) → entries (engine r) !! id = Some ent → timer ent = None → rearming r = [id] → called r = [] →
  act (ReArm id) r = Some r' → exact (engine r') ∧ called r' = [] ∧ rearming r' = [].
Proof.
  intros Hx He Ht Hr Hc E. simpl in E. rewrite Hr in E. simpl in E. rewrite decide_True in E by done. simplify_eq. simpl. split; [|done].
  unfold reArmAfterFire. rewrite He, Ht. by apply arm_exact.
Qed.

Lemma calm_exact r : calm r → exact (engine r) ∧ called r = [] ∧ rearming r = [].
Proof.
  induction 1 as [now|d r r' _ (Hx & Hc & Hr) E|id s r r' _ (Hx & Hc & Hr) E|id r r' _ (Hx & Hc & Hr) E|t due id r r' _ (Hx & Hc & Hr) Ht E|id r r' _ (Hx & Hc & Hr) E].
  - split; [|done]. split; [done|]. intros t due id. simpl. rewrite !lookup_empty. split; [done|]. by intros [? ?].
  - simpl in E. destruct (Z.leb 0 d); by simplify_eq.
  - simpl in E. simplify_eq. split; [|done]. simpl. unfold Register. destruct (entries (engine r) !! id); [case_decide; [done|]|]; by apply arm_exact.
  - simpl in E. simplify_eq. split; [|done]. simpl. unfold Unregister. destruct (entries (engine r) !! id) as [ent|] eqn:He; [|done].
    pose proof (unarm_exact id ent _ Hx He) as [H1 H2]. split; [exact H1|]. intros t due id'. rewrite H2. simpl.
    split; intros [s Hs]; exists s; [by apply lookup_insert_Some in Hs as [[? [=]]|[? ?]]; rewrite lookup_delete_ne|].
    apply lookup_delete_Some in Hs as [? ?]. by rewrite lookup_insert_ne.
  - pose proof Ht as [s Hs]%Hx. pose proof (unarm_exact id _ _ Hx Hs) as Hx1. simpl in Hx1.
    rewrite (acts_cons _ _ _ (MkRunning (Stop (Some t) (engine r)) [id] [] (fired r) (time r))) in E.
    2: { cbn [acts] in E. apply bind_Some in E as (r1 & E1 & _). rewrite E1. simpl in E1. rewrite Ht in E1. destruct (Z.leb due (time r)); [|done].
         by rewrite Hc, Hr in E1. }
    erewrite (acts_cons (Callback id)) in E; [|simpl; rewrite decide_True by done; unfold fire_take; simpl; rewrite Hs; reflexivity].
    cbn [acts] in E. apply bind_Some in E as (r2 & E2 & [= <-]). eapply rearm_exact; [..|exact E2]; [exact Hx1|simpl; by rewrite lookup_insert_eq|done..].
  - destruct (entries (engine r) !! id) as [ent|] eqn:He.
    2: { cbn [acts act] in E. unfold trigger_take in E. rewrite He in E. simpl in E. by rewrite Hr in E. }
    pose proof (unarm_exact id _ _ Hx He) as Hx1. cbn [acts act] in E. unfold trigger_take in E. rewrite He in E. cbn [mbind option_bind] in E.
    apply bind_Some in E as (r2 & E2 & [= <-]). destruct (timer ent) as [t|] eqn:Et; simpl in Hx1.
    + eapply rearm_exact; [..|exact E2]; [exact Hx1|simpl; by rewrite lookup_insert_eq|done|simpl; by rewrite Hr|done].
    + eapply rearm_exact; [..|exact E2]; [exact Hx|exact He|done|simpl; by rewrite Hr|done].
Qed.
End spec.

(** As long as no callback is overtaken, every routine has at most one timer,
    and none is armed for a routine that is not registered. *)
Theorem one_timer_each `{UUIDLib} r : calm r →
  (∀ t t' due due' id, timers (engine r) !! t = Some (due, id) → timers (engine r) !! t' = Some (due', id) → t = t') ∧
  (∀ t due id, timers (engine r) !! t = Some (due, id) → is_Some (entries (engine r) !! id)).
Proof.
  intros ([_ Hx] & _)%calm_exact. split.
  - intros t t' due due' id [s Hs]%Hx [s' Hs']%Hx. by simplify_eq.
  - intros t due id [s Hs]%Hx. eauto.
Qed.

(** C12: The scheduler forgets no routine.  However expiring timers, their
    callbacks, triggers, registrations and removals interleave: a routine that is
    registered with an interval [D] fires within [D] by what the scheduler does by
    itself, unless a client acts in between. *)
Theorem routine_never_forgotten `{UUIDLib} now l r id ent D :
  0 <= now → acts l (started now) = Some r → entries (engine r) !! id = Some ent → schedule ent = FixedInterval D → 0 < D →
  ∃ l' r' n, Forall internal l' ∧ acts l' r = Some r' ∧ fired r' = fired r ++ [(n, id)] ∧ time r <= n <= time r + D.
Proof. intros Hn Hl. apply enabled_fires. by eapply acts_inv, started_inv. Qed.

Module RoutineRun.
#[local] Existing Instance text_uuid.
Local Open Scope string_scope.
Definition idA : @uuid text_uuid := "A".
Definition minute : Z := 60 * 10 ^ 9.
Definition every (n : Z) : option Schedule := Some (FixedInterval (n * minute)).
Definition armed_at (r : Running) : list (Z * @uuid text_uuid) := (map_to_list (timers (engine r))).*2.

Lemma routine_never_forgotten_witness :
  ∃ r, acts [DoRegister idA (every 5)] (started 0) = Some r ∧
    ∃ l' r' n, Forall internal l' ∧ acts l' r = Some r' ∧ fired r' = (fired r ++ [(n, idA)])%list ∧ time r <= n <= time r + 5 * minute.
Proof.
  eexists. split; [vm_compute; reflexivity|].
  apply (routine_never_forgotten 0 [DoRegister idA (every 5)] _ idA (MkEntry (FixedInterval (5 * minute)) (5 * minute) (Some 0%nat)) (5 * minute)).
  - lia.
  - vm_compute. reflexivity.
  - vm_compute. reflexivity.
  - reflexivity.
  - reflexivity.
Defined.

Lemma one_timer_each_witness :
  ∃ r, acts [DoRegister idA (every 5)] (started 0) = Some r ∧ armed_at r = [(5 * minute, idA)] ∧
    (∀ t t' due due' id, timers (engine r) !! t = Some (due, id) → timers (engine r) !! t' = Some (due', id) → t = t') ∧
    (∀ t due id, timers (engine r) !! t = Some (due, id) → is_Some (entries (engine r) !! id)).
Proof.
  eexists. split; [vm_compute; reflexivity|]. split; [vm_compute; reflexivity|].
  apply one_timer_each. apply (calm_register idA (every 5) (started 0)); [apply calm_start|]. vm_compute. reflexivity.
Defined.

(** The interval changes while the callback of an expired timer waits for the
    lock: two timers are armed for the routine, and from then on it fires twice in
    every interval. *)
Definition overtaken : list action := [DoRegister idA (every 1); Tick minute; Expire 0; DoRegister idA (every 2); Callback idA; ReArm idA].

Lemma overtaken_callback_doubles :
  armed_at <$> acts overtaken (started 0) = Some [(3 * minute, idA); (3 * minute, idA)] ∧
  fired <$> acts (overtaken ++ [Tick (2 * minute); Expire 1; Callback idA; ReArm idA; Expire 2; Callback idA; ReArm idA])%list (started 0) =
    Some [(minute, idA); (3 * minute, idA); (3 * minute, idA)] ∧
  armed_at <$> acts (overtaken ++ [Tick (2 * minute); Expire 1; Callback idA; ReArm idA; Expire 2; Callback idA; ReArm idA])%list (started 0) =
    Some [(5 * minute, idA); (5 * minute, idA)].
Proof. vm_compute. done. Qed.
End RoutineRun.
