(* ===== verification/Flow.v ===== *)
(** * Flows (internal/flow; pkg/yamldir)

    A flow is a list of agent steps; steps that name each other run at the same
    time.  [buildParallelGroups] and [Execute] are whole functions.  Parameters of
    [Execute]: [launch], what the launcher answers to a step of a group with a
    prompt; [finished], the order in which the steps of a parallel group end;
    [ctx_err], the error of the context before a group.  [yaml.v3] is a class whose
    law is that decoding gives back what was encoded. *)

From S2P Require Import Prelude GoStrings GoText PkgUtil TaskModel AtomicFile.
From Stdlib Require Import String.
From stdpp Require Import list gmap.
Local Open Scope Z_scope.
Local Open Scope string_scope.

(** ** Flows *)

Definition TopologyOrchestratorWorker : string := "orchestrator-worker".
Definition TopologyMesh : string := "mesh".

Record Step := MkStep {
  AgentSlug : string;
  Optional : bool;
  InputFrom : string;
  RunInParallelWith : list string
}.

Record Flow := MkFlow {
  Slug : string;
  Name : string;
  Description : string;
  Steps : list Step;
  Builtin : bool;
  Agentic : bool;
  Dynamic : bool;
  Topology : string;
  MaxHandoffDepth : Z
}.

Definition builtins : list Flow :=
  [MkFlow "implement" "Implement" "Implement, test, then commit with a generated message and oversight."
     [MkStep "impl" false "" []; MkStep "test" false "" [];
      MkStep "commit-msg" false "" ["title"; "oversight"];
      MkStep "title" false "" ["commit-msg"; "oversight"];
      MkStep "oversight" false "" ["commit-msg"; "title"]]
     false false false "" 0].

Definition mark_builtin (f : Flow) : Flow :=
  MkFlow (Slug f) (Name f) (Description f) (Steps f) true (Agentic f) (Dynamic f) (Topology f) (MaxHandoffDepth f).

(** ** The registry *)

Record Registry := MkRegistry { order : list string; byKey : gmap string Flow }.

Definition NewRegistry (flows : list Flow) : Registry :=
  foldl (λ reg f, MkRegistry (order reg ++ [Slug f])%list (<[Slug f := f]> (byKey reg))) (MkRegistry [] ∅) flows.

Definition NewBuiltinRegistry : Registry := NewRegistry (mark_builtin <$> builtins).

(** A clone is the same value. *)
Definition Get (r : Registry) (slug : string) : option Flow := byKey r !! slug.

Definition zero_Flow : Flow := MkFlow "" "" "" [] false false false "" 0.

Definition List (r : Registry) : list Flow := (λ slug, default zero_Flow (byKey r !! slug)) <$> order r.

(** [None] is a nil task. *)
Definition resolveExplicit `{UUIDLib} (r : Registry) (t : option Task) (explicitFlow : Task → string) : string :=
  match t with
  | None => "implement"
  | Some t =>
    let s := explicitFlow t in
    if negb (bool_decide (s = "")) && bool_decide (is_Some (byKey r !! s)) then s else "implement"
  end.

Definition ResolveForTask `{UUIDLib} (r : Registry) (t : option Task) : string := resolveExplicit r t FlowID.
Definition ResolveRoutineFlow `{UUIDLib} (r : Registry) (t : option Task) : string := resolveExplicit r t RoutineSpawnFlow.

Definition IsBuiltin (slug : string) : bool := ContainsSlug Slug builtins slug.

(** ** Parallel groups *)

Definition indexBySlug (steps : list Step) : gmap string nat :=
  foldl (λ m '(i, s), <[AgentSlug s := i]> m) ∅ (imap pair steps).

(** [adj[i] = append(adj[i], j)]. *)
Definition push (adj : list (list nat)) (i j : nat) : list (list nat) := alter (λ l, (l ++ [j])%list) i adj.

Definition adj_step (index : gmap string nat) (adj : list (list nat)) (x : nat * Step) : list (list nat) :=
  foldl (λ adj peer,
    match index !! peer with
    | Some j => if decide (j ≠ x.1) then push (push adj x.1 j) j x.1 else adj
    | None => adj
    end) adj (RunInParallelWith x.2).

Definition parallel_adj (steps : list Step) : list (list nat) :=
  foldl (adj_step (indexBySlug steps)) (replicate (length steps) []) (imap pair steps).

(** The state of the search: the group of each index, the members, the queue. *)
Definition visit (groupID : nat) (st : gmap nat nat * list nat * list nat) (n : nat) : gmap nat nat * list nat * list nat :=
  let '(assigned, members, queue) := st in
  match assigned !! n with
  | None => (<[n := groupID]> assigned, members ++ [n], queue ++ [n])%list
  | Some _ => st
  end.

Fixpoint group_bfs (adj : list (list nat)) (groupID : nat) (fuel : nat) (assigned : gmap nat nat) (members queue : list nat)
  : option (gmap nat nat * list nat) :=
  match queue with
  | [] => Some (assigned, members)
  | cur :: queue =>
    match fuel with
    | O => None
    | S fuel =>
      let '(assigned, members, queue) := foldl (visit groupID) (assigned, members, queue) (default [] (adj !! cur)) in
      group_bfs adj groupID fuel assigned members queue
    end
  end.

(** The indices of the groups; the search of a group pops each index at most once. *)
Fixpoint group_loop (adj : list (list nat)) (todo : list nat) (assigned : gmap nat nat) (groups : list (list nat)) : option (list (list nat)) :=
  match todo with
  | [] => Some groups
  | i :: todo =>
    match assigned !! i with
    | Some _ => group_loop adj todo assigned groups
    | None =>
      let groupID := length groups in
      match group_bfs adj groupID (S (length adj)) (<[i := groupID]> assigned) [i] [i] with
      | Some (assigned, members) => group_loop adj todo assigned (groups ++ [merge_sort Nat.le members])%list
      | None => None
      end
    end
  end.

Definition members_of (steps : list Step) (members : list nat) : list Step := omap (λ i, steps !! i) members.

Definition buildParallelGroups (steps : list Step) : option (list (list Step)) :=
  match group_loop (parallel_adj steps) (seq 0 (length steps)) ∅ [] with
  | Some groups => Some (members_of steps <$> groups)
  | None => None
  end.

(** ** The engine *)

(** What a step's agent returned: a string, or a value with what [fmt.Sprint] makes of it. *)
Inductive parsed := PString (s : string) | POther (printed : string).

Definition sprint (v : parsed) : string := match v with PString s => s | POther s => s end.

Definition resolvePrompt (step : Step) (base : string) (results : gmap string parsed) : string :=
  if decide (InputFrom step = "") then base
  else match results !! InputFrom step with
       | None => base
       | Some v => sprint v
       end.

(** An error of the context, or of a step. *)
Inductive flow_error := CtxErr (err : string) | StepErr (slug err : string).

Section engine.
Variables (launch : nat → Step → string → result string parsed) (finished : nat → list Step → list Step) (ctx_err : nat → option string).

(** The results of a parallel group, in the order in which its steps end: the
    first failed step that is not optional is the error. *)
Fixpoint collect (g : nat) (prompt : Step → string) (ended : list Step) (err : option flow_error) (bySlug : gmap string parsed)
  : option flow_error * gmap string parsed :=
  match ended with
  | [] => (err, bySlug)
  | step :: rest =>
    match launch g step (prompt step) with
    | Ok v => collect g prompt rest err (<[AgentSlug step := v]> bySlug)
    | Err e =>
      if Optional step then collect g prompt rest err bySlug
      else collect g prompt rest (match err with Some x => Some x | None => Some (StepErr (AgentSlug step) e) end) bySlug
    end
  end.

(** One group: the result and the launches it makes. *)
Definition run_group (g : nat) (base : string) (group : list Step) (results : gmap string parsed)
  : result flow_error (gmap string parsed) * list (Step * string) :=
  let prompt step := resolvePrompt step base results in
  let launched := (λ s, (s, prompt s)) <$> group in
  match group with
  | [step] =>
    match launch g step (prompt step) with
    | Ok v => (Ok (<[AgentSlug step := v]> results), launched)
    | Err e => if Optional step then (Ok results, launched) else (Err (StepErr (AgentSlug step) e), launched)
    end
  | _ =>
    let '(err, bySlug) := collect g prompt (finished g group) None ∅ in
    match err with
    | Some e => (Err e, launched)
    | None => (Ok (bySlug ∪ results), launched)
    end
  end.

Fixpoint run_groups (g : nat) (base : string) (groups : list (list Step)) (results : gmap string parsed)
  : result flow_error (gmap string parsed) * list (list (Step * string)) :=
  match groups with
  | [] => (Ok results, [])
  | group :: rest =>
    match ctx_err g with
    | Some e => (Err (CtxErr e), [])
    | None =>
      match run_group g base group results with
      | (Err e, launched) => (Err e, [launched])
      | (Ok results, launched) => let '(r, more) := run_groups (S g) base rest results in (r, launched :: more)
      end
    end
  end.

(** The result, and the launches group by group; the task's prompt is [base]. *)
Definition Execute (f : Flow) (base : string) : option (result flow_error unit * list (list (Step * string))) :=
  groups ← buildParallelGroups (Steps f);
  let '(r, launched) := run_groups 0 base groups ∅ in
  Some (match r with Ok _ => Ok tt | Err e => Err e end, launched).
End engine.

(** ** Files of user flows *)

Record diskStep := MkDiskStep { d_AgentSlug : string; d_Optional : bool; d_InputFrom : string; d_RunInParallelWith : list string }.

Record diskFlow := MkDiskFlow {
  d_Slug : string;
  d_Name : string;
  d_Description : string;
  d_Agentic : bool;
  d_Dynamic : bool;
  d_Topology : string;
  d_MaxHandoffDepth : Z;
  d_Steps : list diskStep
}.

Class FlowYaml := {
  yaml_Unmarshal : string → result string diskFlow;
  yaml_Marshal_flow : diskFlow → result string string;
  yaml_Marshal_Unmarshal : ∀ f body, yaml_Marshal_flow f = Ok body → yaml_Unmarshal body = Ok f
}.

(** Why a file is refused. *)
Inductive flow_file_error :=
| FParse (err : string) | FNoSlug | FBadSlug | FNoName | FNoSteps | FBadTopology | FNoAgent (i : nat) | FDuplicate (i : nat).

Fixpoint load_steps (l : list diskStep) (i : nat) (seen : gset string) (steps : list Step) : result flow_file_error (list Step) :=
  match l with
  | [] => Ok steps
  | s :: rest =>
    if decide (d_AgentSlug s = "") then Err (FNoAgent i)
    else if decide (d_AgentSlug s ∈ seen) then Err (FDuplicate i)
    else load_steps rest (S i) ({[d_AgentSlug s]} ∪ seen)
           (steps ++ [MkStep (d_AgentSlug s) (d_Optional s) (d_InputFrom s) (d_RunInParallelWith s)])%list
  end.

Definition load_flow `{FlowYaml} (body : string) : result flow_file_error Flow :=
  match yaml_Unmarshal body with
  | Err e => Err (FParse e)
  | Ok f =>
    if decide (d_Slug f = "") then Err FNoSlug
    else if negb (slug_IsValid (d_Slug f)) then Err FBadSlug
    else if decide (d_Name f = "") then Err FNoName
    else if decide (d_Steps f = []) then Err FNoSteps
    else if negb (bool_decide (d_Topology f ∈ ["" ; TopologyOrchestratorWorker; TopologyMesh])) then Err FBadTopology
    else match load_steps (d_Steps f) 0 ∅ [] with
         | Err e => Err e
         | Ok steps => Ok (MkFlow (d_Slug f) (d_Name f) (d_Description f) steps false (d_Agentic f) (d_Dynamic f) (d_Topology f) (d_MaxHandoffDepth f))
         end
  end.

(** *** pkg/yamldir *)

(** The regular files of a directory by name; [None]: there is no directory. *)
Abbreviation Dir := (option (gmap string (File string))).

Inductive dir_error := ReadDirErr (err : string) | ReadErr (name err : string) | FlowErr (name : string) (err : flow_file_error).

Section files.
Context `{FlowYaml} (tbl : Z → Z).
(** What goes wrong when the directory and its files are read. *)
Variables (readdir_err : option string) (unreadable : string → option string).

Fixpoint read_files (d : gmap string (File string)) (names : list string) : result dir_error (list (string * string)) :=
  match names with
  | [] => Ok []
  | n :: rest =>
    let ext := ToLower tbl (path_Ext n) in
    if negb (bool_decide (ext = ".yaml")) && negb (bool_decide (ext = ".yml")) then read_files d rest
    else match unreadable n with
         | Some e => Err (ReadErr n e)
         | None => match read_files d rest with
                   | Ok l => Ok ((n, default EmptyString (f_data <$> d !! n)) :: l)
                   | Err e => Err e
                   end
         end
  end.

Definition ReadAll (d : Dir) : result dir_error (list (string * string)) :=
  match d with
  | None => Ok []
  | Some d =>
    match readdir_err with
    | Some e => Err (ReadDirErr e)
    | None => read_files d (merge_sort string_le (map_to_list d).*1)
    end
  end.

Fixpoint load_flows (files : list (string * string)) (flows : list Flow) : result dir_error (list Flow) :=
  match files with
  | [] => Ok flows
  | (n, body) :: rest =>
    match load_flow body with
    | Err e => Err (FlowErr n e)
    | Ok f => load_flows rest (flows ++ [f])%list
    end
  end.

Definition LoadUserFlows (d : Dir) : result dir_error (list Flow) :=
  match ReadAll d with
  | Err e => Err e
  | Ok files => load_flows files []
  end.

Definition to_disk (f : Flow) : diskFlow :=
  MkDiskFlow (Slug f) (Name f) (Description f) (Agentic f) (Dynamic f) (Topology f) (MaxHandoffDepth f)
    ((λ s, MkDiskStep (AgentSlug s) (Optional s) (InputFrom s) (RunInParallelWith s)) <$> Steps f).

(** [mkdir] is the error of [os.MkdirAll], [o] the outcomes of the write. *)
Definition WriteUserFlow (mkdir : option string) (o : Outcomes string) (f : Flow) (d : Dir) : result string unit * Dir :=
  if negb (slug_IsValid (Slug f)) then (Err "invalid slug", d)
  else match mkdir with
       | Some e => (Err e, d)
       | None =>
         let files := default ∅ d in
         match yaml_Marshal_flow (to_disk f) with
         | Err e => (Err ("marshal: " +:+ e), Some files)
         | Ok body =>
           let r := Write o (Slug f +:+ ".yaml") body 420 files in
           (r.1, Some (after r files))
         end
       end.

(** [remove] is the error of [os.Remove] on an existing file. *)
Definition DeleteUserFlow (remove : option string) (slug : string) (d : Dir) : result string unit * Dir :=
  if negb (slug_IsValid slug) then (Err "invalid slug", d)
  else match d with
       | None => (Ok tt, d)
       | Some files =>
         match files !! (slug +:+ ".yaml"), remove with
         | None, _ => (Ok tt, d)
         | Some _, Some e => (Err e, d)
         | Some _, None => (Ok tt, Some (delete (slug +:+ ".yaml") files))
         end
       end.

(** The error of the merge is the slug that is taken. *)
Definition NewMergedRegistry (d : Dir) : result (dir_error + string) Registry :=
  match LoadUserFlows d with
  | Err e => Err (inl e)
  | Ok user =>
    match MergeUnique Slug builtins user (Some mark_builtin) with
    | Err slug => Err (inr slug)
    | Ok all => Ok (NewRegistry all)
    end
  end.
End files.
