(* ===== verification/FlowSpec.v ===== *)
(** * What flows promise

    [buildParallelGroups] splits the steps into the classes of "run together", in
    the order in which they were written; [Execute] launches every step once, group
    after group, on the results of the groups before, and stops at the first
    failure of a step that is not optional; a stored user flow is read back. *)

From S2P Require Import Prelude GoStrings GoText PkgUtil TaskModel AtomicFile Flow.
From Stdlib Require Import String.
From stdpp Require Import list gmap relations.
Local Open Scope Z_scope.
Local Open Scope string_scope.

Section groups.
Context (steps : list Step).
Abbreviation n := (length steps).

(** Step [i] names step [j]; of steps with one slug the last one is meant. *)
Definition names (i j : nat) : Prop :=
  ∃ s peer, steps !! i = Some s ∧ peer ∈ RunInParallelWith s ∧ indexBySlug steps !! peer = Some j ∧ j ≠ i.

Definition together (i j : nat) : Prop := names i j ∨ names j i.

Lemma index_bound (m : gmap string nat) (l : list (nat * Step)) (b : nat) : (∀ p i, m !! p = Some i → (i < b)%nat) → (∀ x, x ∈ l → (x.1 < b)%nat) →
  ∀ p i, foldl (λ m '(i, s), <[AgentSlug s := i]> m) m l !! p = Some i → (i < b)%nat.
Proof.
  revert m. induction l as [|[k s] l IH]; intros m Hm Hl p i; [apply Hm|]. cbn [foldl]. apply IH.
  - intros q j [[_ <-]|[_ Hj]]%lookup_insert_Some; [apply (Hl (k, s)); by left|by eapply Hm].
  - intros x Hx. apply Hl. by right.
Qed.

Lemma elem_indexed (i : nat) s : (i, s) ∈ imap pair steps ↔ steps !! i = Some s.
Proof.
  rewrite list_elem_of_lookup. split.
  - intros [k Hk]. rewrite list_lookup_imap in Hk. destruct (steps !! k) eqn:E; simplify_eq/=. done.
  - intros Hi. exists i. by rewrite list_lookup_imap, Hi.
Qed.

Lemma indexBySlug_bound p i : indexBySlug steps !! p = Some i → (i < n)%nat.
Proof.
  apply index_bound; [done|]. intros [k s] Hk%elem_indexed. by eapply lookup_lt_Some.
Qed.

(** The lists of neighbours that the edges [E] make. *)
Definition neighbours (adj : list (list nat)) (E : list (nat * nat)) : Prop :=
  length adj = n ∧ ∀ i j : nat, (i < n)%nat → j ∈ default [] (adj !! i) ↔ (i, j) ∈ E ∨ (j, i) ∈ E.

Lemma push_lookup adj (i j k : nat) x : (i < length adj)%nat → x ∈ default [] (push adj i j !! k) ↔ x ∈ default [] (adj !! k) ∨ k = i ∧ x = j.
Proof.
  intros Hi. unfold push. destruct (decide (k = i)) as [->|Hne].
  - rewrite list_lookup_alter. destruct (lookup_lt_is_Some_2 adj i Hi) as [l El]. rewrite El, decide_True by done. simpl. rewrite elem_of_app, list_elem_of_singleton. tauto.
  - rewrite list_lookup_alter, decide_False by done. destruct (adj !! k); simpl; tauto.
Qed.

Lemma push_edge adj E (i j : nat) : (i < n)%nat → (j < n)%nat → neighbours adj E → neighbours (push (push adj i j) j i) (E ++ [(i, j)]).
Proof.
  intros Hi Hj [Hl Hn]. split; [unfold push; by rewrite !length_alter|]. intros a b Ha.
  rewrite push_lookup by (unfold push; rewrite length_alter, Hl; lia). rewrite push_lookup by (rewrite Hl; lia). rewrite Hn by done.
  rewrite !elem_of_app, !list_elem_of_singleton, !pair_equal_spec. tauto.
Qed.

Definition edges_of (x : nat * Step) : list (nat * nat) :=
  omap (λ peer, match indexBySlug steps !! peer with Some j => if decide (j ≠ x.1) then Some (x.1, j) else None | None => None end) (RunInParallelWith x.2).

Lemma adj_step_edges adj E x : (x.1 < n)%nat → neighbours adj E → neighbours (adj_step (indexBySlug steps) adj x) (E ++ edges_of x).
Proof.
  intros Hx. unfold adj_step, edges_of. generalize (RunInParallelWith x.2) as peers. intros peers. revert adj E.
  induction peers as [|p peers IH]; intros adj E Hn; [by rewrite app_nil_r|]. cbn [foldl omap list_omap].
  destruct (indexBySlug steps !! p) as [j|] eqn:Ej; [|by apply IH]. case_decide; [|by apply IH].
  replace (E ++ (x.1, j) :: _)%list with ((E ++ [(x.1, j)]) ++ omap (λ peer, match indexBySlug steps !! peer with Some j => if decide (j ≠ x.1) then Some (x.1, j) else None | None => None end) peers)%list
    by (by rewrite <-app_assoc).
  apply IH, push_edge; [done|by eapply indexBySlug_bound|done].
Qed.

Lemma parallel_adj_spec (i j : nat) : (i < n)%nat → j ∈ default [] (parallel_adj steps !! i) ↔ together i j.
Proof.
  assert (∀ l adj E, (∀ x, x ∈ l → (x.1 < n)%nat) → neighbours adj E → neighbours (foldl (adj_step (indexBySlug steps)) adj l) (E ++ (l ≫= edges_of))) as Hfold.
  { induction l as [|x l IH]; intros adj E Hl Hn; [by rewrite app_nil_r|]. rewrite bind_cons. cbn [foldl]. rewrite app_assoc.
    apply IH; [intros y Hy; apply Hl; by right|]. apply adj_step_edges; [apply Hl; by left|done]. }
  destruct (Hfold (imap pair steps) (replicate n []) []) as [_ Hn].
  - intros [k s] Hk%elem_indexed. by eapply lookup_lt_Some.
  - split; [apply length_replicate|]. intros a b Ha. rewrite lookup_replicate_2 by done. simpl. split; [by intros ?%not_elem_of_nil|].
    intros [?%not_elem_of_nil|?%not_elem_of_nil]; done.
  - intros Hi. unfold parallel_adj. rewrite Hn by done. clear.
    assert (∀ a b : nat, (a, b) ∈ ([] ++ (imap pair steps ≫= edges_of))%list ↔ names a b) as He.
    { intros a b. simpl. rewrite list_elem_of_bind. unfold edges_of, names. split.
      - intros ([k s] & Hab & Hk%elem_indexed). apply list_elem_of_omap in Hab as (p & Hp & Hj). simpl in *.
        destruct (indexBySlug steps !! p) eqn:E; [|done]. case_decide; simplify_eq. eauto 6.
      - intros (s & p & Hs & Hp & Hj & Hne). exists (a, s). split; [|by apply elem_indexed]. apply list_elem_of_omap. exists p. split; [done|]. simpl.
        rewrite Hj. by rewrite decide_True. }
    by rewrite !He.
Qed.

(** *** The search *)

Abbreviation adj := (parallel_adj steps).
Abbreviation linked := (rtc together).

Lemma adj_length : length adj = n.
Proof.
  unfold parallel_adj. assert (∀ l a, length (foldl (adj_step (indexBySlug steps)) a l) = length a) as ->; [|apply length_replicate].
  induction l as [|x l IH]; intros a; [done|]. cbn [foldl]. rewrite IH. unfold adj_step. generalize (RunInParallelWith x.2). intros ps. revert a.
  induction ps as [|p ps IHp]; intros a; [done|]. cbn [foldl]. rewrite IHp. destruct (indexBySlug steps !! p); [|done]. case_decide; [|done].
  unfold push. by rewrite !length_alter.
Qed.

Lemma together_bound i j : together i j → (i < n)%nat ∧ (j < n)%nat.
Proof.
  intros [(s & p & Hs & _ & Hj & _)|(s & p & Hs & _ & Hj & _)]; apply lookup_lt_Some in Hs; apply indexBySlug_bound in Hj; done.
Qed.

(** The search from [i], with [A0] assigned before: [assigned] is [A0] and the
    members; what is not in the queue has its neighbours among the assigned. *)
Record searching (A0 : gmap nat nat) (i : nat) (assigned : gmap nat nat) (members queue : list nat) : Prop := {
  se_assigned k : is_Some (assigned !! k) ↔ is_Some (A0 !! k) ∨ k ∈ members;
  se_linked k : k ∈ members → linked i k;
  se_new k : k ∈ members → A0 !! k = None;
  se_NoDup : NoDup members;
  se_bound k : k ∈ members → (k < n)%nat;
  se_queue k : k ∈ queue → k ∈ members;
  se_closed k k' : k ∈ members → (k ∉ queue) → together k k' → is_Some (assigned !! k')
}.

Lemma visit_step g A0 i cur x assigned members queue : searching A0 i assigned members (cur :: queue) → together cur x →
  let '(a, m, q) := visit g (assigned, members, queue) x in
  searching A0 i a m (cur :: q) ∧ is_Some (a !! x) ∧ (∀ k, is_Some (assigned !! k) → is_Some (a !! k)) ∧
  (length m + length queue = length members + length q)%nat.
Proof.
  intros [S1 S2 S3 S4 S5 S6 S7] Hx. unfold visit. destruct (assigned !! x) as [y|] eqn:E; [split; [by split|]; by eauto|].
  assert (x ∉ members) as Hnew by (intros Hm; assert (is_Some (assigned !! x)) as [? ?] by (apply S1; by right); congruence).
  assert (∀ k, is_Some (assigned !! k) → is_Some (<[x := g]> assigned !! k)) as Hmono by (intros k Hk; apply lookup_insert_is_Some'; by right).
  split_and!.
  - split.
    + intros k. rewrite lookup_insert_is_Some', S1, elem_of_app, list_elem_of_singleton. clear. intuition auto.
    + intros k [Hk| ->%list_elem_of_singleton]%elem_of_app; [by apply S2|]. eapply rtc_r; [apply S2, S6; by left|done].
    + intros k [Hk| ->%list_elem_of_singleton]%elem_of_app; [by apply S3|]. apply eq_None_not_Some. intros HA.
      assert (is_Some (assigned !! x)) as [? ?] by (apply S1; by left). congruence.
    + apply NoDup_app. split_and!; [done| |apply NoDup_singleton]. intros k Hk ->%list_elem_of_singleton. done.
    + intros k [Hk| ->%list_elem_of_singleton]%elem_of_app; [by apply S5|]. by eapply together_bound.
    + intros k Hk. apply elem_of_app. apply elem_of_cons in Hk as [->|[Hk|Hk]%elem_of_app]; [left; apply S6; by left|left; apply S6; by right|by right].
    + intros k k' Hk Hnq Ht. apply Hmono. apply not_elem_of_cons in Hnq as [Hne [Hq Hx']%not_elem_of_app].
      apply elem_of_app in Hk as [Hk|Hk]; [|done]. apply (S7 k); [done| |done]. by apply not_elem_of_cons.
  - rewrite lookup_insert_eq. eauto.
  - done.
  - rewrite !length_app. simpl. lia.
Qed.

Lemma visit_all g A0 i cur ns assigned members queue : searching A0 i assigned members (cur :: queue) → (∀ x, x ∈ ns → together cur x) →
  let '(a, m, q) := foldl (visit g) (assigned, members, queue) ns in
  searching A0 i a m (cur :: q) ∧ (∀ x, x ∈ ns → is_Some (a !! x)) ∧ (∀ k, is_Some (assigned !! k) → is_Some (a !! k)) ∧
  (length m + length queue = length members + length q)%nat.
Proof.
  revert assigned members queue. induction ns as [|x ns IH]; intros assigned members queue Hs Hns.
  { split_and!; [done|by intros ? ?%not_elem_of_nil|done..]. }
  cbn [foldl]. pose proof (visit_step g A0 i cur x assigned members queue Hs) as Hv. destruct (visit g (assigned, members, queue) x) as [[a m] q].
  destruct Hv as (Hs1 & Hx & Hmono & Hlen); [apply Hns; by left|]. specialize (IH a m q Hs1).
  destruct (foldl (visit g) (a, m, q) ns) as [[a2 m2] q2]. destruct IH as (Hs2 & Hin & Hmono2 & Hlen2); [intros y Hy; apply Hns; by right|].
  split_and!; [done| |auto|lia]. intros y [->|Hy]%elem_of_cons; auto.
Qed.

Lemma members_bound (l : list nat) : NoDup l → (∀ k, k ∈ l → (k < n)%nat) → (length l <= n)%nat.
Proof.
  intros Hnd Hb. rewrite <-(length_seq n 0). apply submseteq_length, NoDup_submseteq; [done|]. intros k Hk. apply elem_of_seq. specialize (Hb k Hk). lia.
Qed.

Lemma group_bfs_spec g A0 i fuel assigned members queue : searching A0 i assigned members queue → (n - length members + length queue <= fuel)%nat →
  ∃ a m, group_bfs adj g fuel assigned members queue = Some (a, m) ∧ searching A0 i a m [] ∧ (∀ k, k ∈ members → k ∈ m).
Proof.
  revert assigned members queue. induction fuel as [|fuel IH]; intros assigned members queue Hs Hf; destruct queue as [|cur queue]; [by eauto|simpl in Hf; lia|by eauto|].
  cbn [group_bfs]. assert (cur ∈ members) as Hcur by (apply (se_queue _ _ _ _ _ Hs); by left).
  pose proof (visit_all g A0 i cur (default [] (adj !! cur)) assigned members queue Hs) as Hv.
  destruct (foldl (visit g) _ _) as [[a m] q]. destruct Hv as (Hs1 & Hin & Hmono & Hlen).
  { intros x Hx. apply parallel_adj_spec; [by apply (se_bound _ _ _ _ _ Hs)|done]. }
  assert (length m <= n)%nat by (apply members_bound; apply Hs1). assert (length members <= n)%nat by (apply members_bound; apply Hs). simpl in Hf.
  assert (∀ k, k ∈ members → k ∈ m) as Hsub.
  { intros k Hk. assert (is_Some (a !! k)) as [HA|?]%(se_assigned _ _ _ _ _ Hs1) by (apply Hmono, (se_assigned _ _ _ _ _ Hs); by right); [|done].
    rewrite (se_new _ _ _ _ _ Hs k Hk) in HA. by destruct HA. }
  destruct (IH a m q) as (a2 & m2 & E2 & Hs2 & Hsub2); [|lia|exists a2, m2; by auto 6]. destruct Hs1 as [S1 S2 S3 S4 S5 S6 S7]. split; try done; [intros k Hk; apply S6; by right|].
  intros k k' Hk Hq Ht. destruct (decide (k = cur)) as [->|Hne]; [|apply (S7 k); [done|by apply not_elem_of_cons|done]].
  apply Hin. apply parallel_adj_spec; [by apply (se_bound _ _ _ _ _ Hs)|done].
Qed.

(** *** The groups *)

Lemma linked_bound i j : (i < n)%nat → linked i j → (j < n)%nat.
Proof. intros Hi Hl. induction Hl as [|x y z Hxy _ IH]; [done|]. apply IH. by eapply together_bound. Qed.

Lemma linked_sym i j : linked i j → linked j i.
Proof. induction 1 as [|x y z Hxy _ IH]; [done|]. eapply rtc_r; [exact IH|]. destruct Hxy; [by right|by left]. Qed.

(** What is assigned is a union of classes. *)
Definition classes (A : gmap nat nat) : Prop := ∀ k k', is_Some (A !! k) → linked k k' → is_Some (A !! k').

Lemma group_found g A i : (i < n)%nat → A !! i = None → classes A →
  ∃ a m, group_bfs adj g (S (length adj)) (<[i := g]> A) [i] [i] = Some (a, m) ∧ classes a ∧ NoDup m ∧
    (∀ k, k ∈ m ↔ linked i k) ∧ (∀ k, is_Some (a !! k) ↔ is_Some (A !! k) ∨ k ∈ m).
Proof.
  intros Hi HA Hc. destruct (group_bfs_spec g A i (S (length adj)) (<[i := g]> A) [i] [i]) as (a & m & E & [S1 S2 S3 S4 S5 S6 S7] & Hsub).
  - split.
    + intros k. rewrite lookup_insert_is_Some', list_elem_of_singleton. clear. intuition auto.
    + intros k ->%list_elem_of_singleton. done.
    + intros k ->%list_elem_of_singleton. done.
    + apply NoDup_singleton.
    + intros k ->%list_elem_of_singleton. done.
    + done.
    + intros k k' Hk Hn. done.
  - rewrite adj_length. simpl. lia.
  - assert (∀ k, linked i k → k ∈ m) as Hall.
    { apply (rtc_ind_r (λ k, k ∈ m) i); [apply Hsub; by left|]. intros x y _ Hxy IH.
      destruct (proj1 (S1 y) (S7 x y IH ltac:(by apply not_elem_of_nil) Hxy)) as [HA'|?]; [|done].
      assert (is_Some (A !! x)) as [z Hz]; [|by rewrite S3 in Hz]. apply (Hc y); [done|]. apply linked_sym. by apply rtc_once. }
    exists a, m. split; [done|]. split_and!; [|done|split; [apply S2|apply Hall]|done].
    intros k k' Hk Hl. apply S1. apply S1 in Hk as [Hk|Hk]; [left; by eapply Hc|right]. apply Hall. etrans; [by apply S2|done].
Qed.

Lemma elem_concat (gs : list (list nat)) j : j ∈ concat gs ↔ ∃ ms, ms ∈ gs ∧ j ∈ ms.
Proof. rewrite list_elem_of_In, in_concat. split; intros (ms & H1 & H2); exists ms; rewrite list_elem_of_In in *; by rewrite ?list_elem_of_In in *. Qed.

(** The groups after the indices below [k]: whole classes, each with its least
    index first, in the order of these. *)
Record grouped (k : nat) (A : gmap nat nat) (gs : list (list nat)) : Prop := {
  gr_classes : classes A;
  gr_all j : (j < k)%nat → is_Some (A !! j);
  gr_assigned j : is_Some (A !! j) ↔ j ∈ concat gs;
  gr_NoDup : NoDup (concat gs);
  gr_sorted : Forall (StronglySorted Nat.le) gs;
  gr_class ms : ms ∈ gs → ∃ i, (i < k)%nat ∧ (i < n)%nat ∧ head ms = Some i ∧ ∀ j, j ∈ ms ↔ linked i j;
  gr_order : StronglySorted (λ a b, ∀ i j, head a = Some i → head b = Some j → (i < j)%nat) gs
}.

Lemma group_added k A gs a m : grouped k A gs → A !! k = None → (k < n)%nat → classes a → NoDup m → (∀ j, j ∈ m ↔ linked k j) →
  (∀ j, is_Some (a !! j) ↔ is_Some (A !! j) ∨ j ∈ m) → grouped (S k) a (gs ++ [merge_sort Nat.le m]).
Proof.
  intros [G1 G2 G3 G4 G5 G6 G7] HA Hk Hc Hnd Hm Ha. set (ms := merge_sort Nat.le m).
  assert (∀ j, j ∈ ms ↔ linked k j) as Hms by (intros j; unfold ms; by rewrite merge_sort_Permutation, Hm).
  assert (StronglySorted Nat.le ms) as Hsort by (apply StronglySorted_merge_sort; [intros ???; apply Nat.le_trans|intros ??; apply Nat.le_ge_cases]).
  assert (head ms = Some k) as Hhead.
  { assert (k ∈ ms) as Hin by (by apply Hms). destruct ms as [|x l]; [by apply not_elem_of_nil in Hin|]. simpl. f_equal.
    assert (linked k x) as Hx by (apply Hms; by left). destruct (decide (x < k)%nat) as [Hlt|Hge].
    { assert (is_Some (A !! k)) as [y Hy]; [|congruence]. apply (G1 x); [by apply G2|by apply linked_sym]. }
    apply elem_of_cons in Hin as [->|Hin]; [done|]. apply StronglySorted_inv in Hsort as [_ Hf]. rewrite Forall_forall in Hf. specialize (Hf _ Hin). lia. }
  split.
  - done.
  - intros j Hj. apply Ha. destruct (decide (j = k)) as [->|?]; [right; by apply Hm|left; apply G2; lia].
  - intros j. rewrite Ha, G3, concat_app, elem_of_app. simpl. rewrite app_nil_r. unfold ms. by rewrite merge_sort_Permutation.
  - rewrite concat_app. simpl. rewrite app_nil_r. apply NoDup_app. split_and!; [done| |unfold ms; by rewrite merge_sort_Permutation].
    intros j Hj Hj'. apply G3 in Hj. assert (is_Some (A !! k)) as [y Hy]; [|congruence]. apply (G1 j); [done|]. apply linked_sym. by apply Hms.
  - apply Forall_app. split; [done|]. by constructor.
  - intros x [Hx| ->%list_elem_of_singleton]%elem_of_app; [destruct (G6 x Hx) as (i & ? & ?); exists i; split; [lia|done]|]. exists k. split_and!; [lia|done..].
  - apply StronglySorted_app_2; [|done|by repeat constructor]. intros x y Hx ->%list_elem_of_singleton i j Ex Ey.
    destruct (G6 x Hx) as (i' & ? & ? & E' & _). rewrite Hhead in Ey. simplify_eq. congruence || lia.
Qed.

Lemma group_loop_spec m k A gs : (k + m = n)%nat → grouped k A gs → ∃ A' gs', group_loop adj (seq k m) A gs = Some gs' ∧ grouped n A' gs'.
Proof.
  revert k A gs. induction m as [|m IH]; intros k A gs Hk Hg; cbn [seq group_loop].
  { exists A, gs. split; [done|]. by replace n with k by lia. }
  destruct (A !! k) as [x|] eqn:E.
  - apply IH; [lia|]. destruct Hg as [G1 G2 G3 G4 G5 G6 G7]. split; try done.
    + intros j Hj. destruct (decide (j = k)) as [->|?]; [eauto|apply G2; lia].
    + intros ms Hms. destruct (G6 ms Hms) as (i & ? & ?). exists i. split; [lia|done].
  - destruct (group_found (length gs) A k) as (a & ms & Eb & Hc & Hnd & Hm & Ha); [lia|done|by apply Hg|]. rewrite Eb. apply IH; [lia|].
    apply (group_added k A); try done. lia.
Qed.

Lemma groups_spec : ∃ gs : list (list nat), buildParallelGroups steps = Some (members_of steps <$> gs) ∧
  concat gs ≡ₚ seq 0 n ∧ Forall (StronglySorted Nat.le) gs ∧
  StronglySorted (λ a b, ∀ i j, head a = Some i → head b = Some j → (i < j)%nat) gs ∧
  (∀ ms i j, ms ∈ gs → i ∈ ms → j ∈ ms ↔ linked i j) ∧ ([] ∉ gs).
Proof.
  destruct (group_loop_spec n 0 ∅ []) as (A' & gs & E & [G1 G2 G3 G4 G5 G6 G7]); [lia|split|].
  - intros k k' [x Hx]. by rewrite lookup_empty in Hx.
  - lia.
  - intros j. rewrite lookup_empty. simpl. split; [by intros []|by intros ?%not_elem_of_nil].
  - constructor.
  - constructor.
  - by intros ms ?%not_elem_of_nil.
  - constructor.
  - exists gs. unfold buildParallelGroups. rewrite E. split_and!; [done| |done|done| |by intros (i & _ & _ & [=] & _)%G6].
    + apply NoDup_Permutation; [done|apply NoDup_seq|]. intros j. rewrite elem_of_seq. split.
      * intros (ms & Hms & Hj)%elem_concat. destruct (G6 ms Hms) as (i & _ & Hi & _ & Hcl). apply Hcl, (linked_bound i) in Hj; [lia|done].
      * intros [_ Hj]. apply G3, G2. lia.
    + intros ms i j Hms Hi. destruct (G6 ms Hms) as (h & _ & _ & _ & Hcl). rewrite Hcl in Hi |- *.
      split; intros Hj; (etrans; [|exact Hj]); [by apply linked_sym|done].
Qed.
End groups.

(** C16: The parallel groups of a flow.  The search always ends.  The groups
    contain every step once; two steps are in one group exactly if a chain of
    steps, each naming the next or named by it, connects them; steps keep their
    order inside a group, and groups are in the order of their first steps. *)
Theorem buildParallelGroups_correct steps : ∃ gs : list (list nat), buildParallelGroups steps = Some (members_of steps <$> gs) ∧
  concat gs ≡ₚ seq 0 (length steps) ∧ Forall (StronglySorted Nat.le) gs ∧
  StronglySorted (λ a b, ∀ i j, head a = Some i → head b = Some j → (i < j)%nat) gs ∧
  (∀ ms i j, ms ∈ gs → i ∈ ms → j ∈ ms ↔ rtc (together steps) i j) ∧ ([] ∉ gs).
Proof. apply groups_spec. Qed.

Section execute.
Context (launch : nat → Step → string → result string parsed) (finished : nat → list Step → list Step) (ctx_err : nat → option string).
Context (finished_all : ∀ g l, finished g l ≡ₚ l) (base : string).
Implicit Types (results : gmap string parsed) (group : list Step) (s : Step) (l : list (Step * string)).

(** The results that the launches [l] of group [g] add. *)
Definition add_results (g : nat) l results : gmap string parsed :=
  foldl (λ m '(s, p), match launch g s p with Ok v => <[AgentSlug s := v]> m | Err _ => m end) results l.

(** The results of the groups launched so far, from group [g] on. *)
Fixpoint results_of (g : nat) (launched : list (list (Step * string))) results : gmap string parsed :=
  match launched with
  | [] => results
  | l :: rest => results_of (S g) rest (add_results g l results)
  end.

Definition launches group results : list (Step * string) := (λ s, (s, resolvePrompt s base results)) <$> group.

(** No step that has to succeed failed. *)
Definition passed (g : nat) l : Prop := ∀ s p, (s, p) ∈ l → Optional s = false → is_ok (launch g s p) = true.

Definition failed_step (g : nat) l (e : flow_error) : Prop :=
  ∃ s p err, (s, p) ∈ l ∧ Optional s = false ∧ launch g s p = Err err ∧ e = StepErr (AgentSlug s) err.

Abbreviation with_prompt prompt := (λ s : Step, (s, prompt s)).

Lemma with_prompt_fst (prompt : Step → string) group : (with_prompt prompt <$> group).*1 = group.
Proof. rewrite <-list_fmap_compose. apply list_fmap_id. Qed.

Lemma collect_results g prompt ended err bySlug : (collect launch g prompt ended err bySlug).2 = add_results g (with_prompt prompt <$> ended) bySlug.
Proof.
  revert err bySlug. induction ended as [|s ended IH]; intros err bySlug; [done|]. rewrite fmap_cons. cbn [collect add_results foldl].
  destruct (launch g s (prompt s)); [by rewrite IH|]. destruct (Optional s); by rewrite IH.
Qed.

Lemma collect_error g prompt ended err bySlug :
  match (collect launch g prompt ended err bySlug).1 with
  | None => err = None ∧ passed g (with_prompt prompt <$> ended)
  | Some e => err = Some e ∨ failed_step g (with_prompt prompt <$> ended) e
  end.
Proof.
  assert (∀ s l (e : flow_error), failed_step g l e → failed_step g ((s, prompt s) :: l) e) as Hmore.
  { intros s l e (s' & p & err' & Hin & Hrest). exists s', p, err'. split; [by right|done]. }
  revert err bySlug. induction ended as [|s ended IH]; intros err bySlug; [simpl; destruct err; [by left|]; split; [done|]; by intros ?? ?%not_elem_of_nil|].
  rewrite fmap_cons. cbn [collect]. destruct (launch g s (prompt s)) as [v|x] eqn:El; [|destruct (Optional s) eqn:Eo].
  - specialize (IH err (<[AgentSlug s := v]> bySlug)). destruct (collect _ _ _ _ _ _).1; [destruct IH; auto|]. destruct IH as [? Hp]. split; [done|].
    intros s' p [[= -> ->]|Hin]%elem_of_cons Hs; [by rewrite El|by apply Hp].
  - specialize (IH err bySlug). destruct (collect _ _ _ _ _ _).1; [destruct IH; auto|]. destruct IH as [? Hp]. split; [done|].
    intros s' p [[= -> ->]|Hin]%elem_of_cons Hs; [congruence|by apply Hp].
  - specialize (IH (match err with Some x => Some x | None => Some (StepErr (AgentSlug s) x) end) bySlug). destruct (collect _ _ _ _ _ _).1.
    + destruct IH as [E|Hf]; [|right; by apply Hmore]. destruct err; [by left|right]. exists s, (prompt s), x. simplify_eq. split; [by left|done].
    + destruct IH as [E _]. by destruct err.
Qed.

Lemma add_results_perm g l l' results : l ≡ₚ l' → NoDup (AgentSlug <$> l.*1) → add_results g l results = add_results g l' results.
Proof.
  intros Hp. revert results. induction Hp as [|[s p] l l' Hp IH|[s p] [s' p'] l|l1 l2 l3 H1 IH1 H2 IH2]; intros results Hnd.
  - done.
  - rewrite !fmap_cons in Hnd. apply NoDup_cons in Hnd as [_ Hnd]. by apply IH.
  - rewrite !fmap_cons in Hnd. apply NoDup_cons in Hnd as [Hs Hnd]. unfold add_results. cbn [foldl]. f_equal.
    destruct (launch g s p), (launch g s' p'); try done. apply insert_insert_ne. intros E. apply Hs. simpl. rewrite <-E. by left.
  - rewrite IH1 by done. apply IH2. by rewrite <-H1.
Qed.

Lemma add_results_union g l a results : add_results g l a ∪ results = add_results g l (a ∪ results).
Proof.
  revert a. induction l as [|[s p] l IH]; intros a; [done|]. unfold add_results in *. cbn [foldl]. rewrite IH. f_equal.
  destruct (launch g s p); [by rewrite insert_union_l|done].
Qed.

Lemma run_group_spec g group results : NoDup (AgentSlug <$> group) → group ≠ [] →
  let '(r, l) := run_group launch finished g base group results in
  l = launches group results ∧
  match r with Ok results' => passed g l ∧ results' = add_results g l results | Err e => failed_step g l e end.
Proof.
  intros Hnd Hne. unfold run_group. fold (launches group results).
  assert (∀ ended, ended ≡ₚ group → let '(err, m) := collect launch g (λ s, resolvePrompt s base results) ended None ∅ in
    match err with Some e => failed_step g (launches group results) e | None => passed g (launches group results) ∧ m ∪ results = add_results g (launches group results) results end) as Hpar.
  { intros ended Hp. pose proof (collect_results g (λ s, resolvePrompt s base results) ended None ∅) as Hm.
    pose proof (collect_error g (λ s, resolvePrompt s base results) ended None ∅) as He.
    destruct (collect _ _ _ _ _ _) as [[e|] m]; simpl in He, Hm.
    - destruct He as [[=]|(s & p & err & Hin & Hrest)]. exists s, p, err. split; [|done]. unfold launches. by rewrite <-Hp.
    - destruct He as [_ He]. split; [intros s p Hin; apply He; rewrite Hp; exact Hin|]. rewrite Hm, add_results_union, (left_id_L ∅ (∪)).
      apply add_results_perm; [unfold launches; by rewrite Hp|]. by rewrite with_prompt_fst, Hp. }
  specialize (Hpar (finished g group) (finished_all g group)). destruct group as [|s [|s' group]]; [done| |].
  - destruct (launch g s (resolvePrompt s base results)) as [v|x] eqn:El; [|destruct (Optional s) eqn:Eo].
    + split; [done|]. split; [|unfold add_results; simpl; by rewrite El]. intros s' p [= -> ->]%list_elem_of_singleton _. by rewrite El.
    + split; [done|]. split; [|unfold add_results; simpl; by rewrite El]. intros s' p [= -> ->]%list_elem_of_singleton ?. congruence.
    + split; [done|]. exists s, (resolvePrompt s base results), x. split; [by left|done].
  - destruct (collect _ _ _ _ _ _) as [[e|] m]; [done|]. split; [done|]. done.
Qed.

(** The launches of group [g] use the results of the groups before. *)
Definition wired (g : nat) (launched : list (list (Step * string))) results : Prop :=
  ∀ k l, launched !! k = Some l → ∀ s p, (s, p) ∈ l → p = resolvePrompt s base (results_of g (take k launched) results).

Lemma run_groups_spec g groups results : Forall (λ gr : list Step, NoDup (AgentSlug <$> gr) ∧ gr ≠ []) groups →
  let '(r, launched) := run_groups launch finished ctx_err g base groups results in
  (λ l : list (Step * string), l.*1) <$> launched = take (length launched) groups ∧ wired g launched results ∧
  match r with
  | Ok _ => length launched = length groups ∧ ∀ k l, launched !! k = Some l → passed (g + k) l
  | Err (CtxErr e) => (length launched < length groups)%nat ∧ ctx_err (g + length launched)%nat = Some e ∧ ∀ k l, launched !! k = Some l → passed (g + k) l
  | Err (StepErr _ _ as e) => ∃ k l, launched = (take k launched ++ [l])%list ∧ failed_step (g + k) l e ∧ ∀ j l, take k launched !! j = Some l → passed (g + j) l
  end.
Proof.
  revert g results. induction groups as [|gr groups IH]; intros g results Hgs; [simpl; split_and!; done|].
  apply Forall_cons in Hgs as [[Hnd Hne] Hgs]. cbn [run_groups]. destruct (ctx_err g) as [e|] eqn:Ec.
  { split; [done|]. split; [done|]. simpl. rewrite Nat.add_0_r. split; [lia|done]. }
  pose proof (run_group_spec g gr results Hnd Hne) as Hg. destruct (run_group launch finished g base gr results) as [[res|e] l]; destruct Hg as [-> Hg].
  - specialize (IH (S g) res Hgs). destruct (run_groups launch finished ctx_err (S g) base groups res) as [r launched]. destruct Hg as [Hp ->].
    destruct IH as (IH1 & IH2 & IH3).
    assert (∀ k' l', (launches gr results :: launched) !! k' = Some l' → (∀ k l, launched !! k = Some l → passed (S g + k) l) → passed (g + k') l') as Hpass.
    { intros [|k'] l' Hk Hall; simpl in Hk; [simplify_eq; by rewrite Nat.add_0_r|]. rewrite <-Nat.add_succ_comm. by apply Hall. }
    split; [rewrite fmap_cons; simpl; f_equal; [apply with_prompt_fst|exact IH1]|]. split.
    { intros [|k'] l' Hk s p Hin; simpl in Hk; [simplify_eq; simpl; apply list_elem_of_fmap in Hin as (s' & [= -> ->] & _); done|].
      simpl. by apply (IH2 k' l'). }
    destruct r as [?|[e|slug e]].
    + destruct IH3 as [El Hall]. simpl. split; [lia|]. intros k' l' Hk. by apply Hpass.
    + destruct IH3 as (El & Ee & Hall). simpl. rewrite <-Nat.add_succ_comm. split; [lia|]. split; [done|]. intros k' l' Hk. by apply Hpass.
    + destruct IH3 as (k & l & El & Hf & Hall). exists (S k), l. simpl. rewrite <-Nat.add_succ_comm. split; [by f_equal|]. split; [done|].
      intros [|j] l' Hj; simpl in Hj; [simplify_eq; by rewrite Nat.add_0_r|]. rewrite <-Nat.add_succ_comm. by apply Hall.
  - split; [simpl; f_equal; apply with_prompt_fst|]. split.
    { intros [|k] l' Hk s p Hin; simpl in Hk; [|done]. simplify_eq. simpl. apply list_elem_of_fmap in Hin as (s' & [= -> ->] & _). done. }
    destruct e as [e|slug e]; [destruct Hg as (? & ? & ? & _ & _ & _ & [=])|]. exists 0%nat, (launches gr results). rewrite Nat.add_0_r. split; [done|]. split; [done|].
    by intros j l' Hj.
Qed.
End execute.

(** The steps of the groups are the steps of the flow. *)
Lemma members_of_concat steps (gs : list (list nat)) : concat (members_of steps <$> gs) = members_of steps (concat gs).
Proof. unfold members_of. induction gs as [|ms gs IH]; [done|]. rewrite fmap_cons. simpl. by rewrite IH, omap_app. Qed.

Lemma members_of_all steps : members_of steps (seq 0 (length steps)) = steps.
Proof.
  assert (∀ pre post, members_of (pre ++ post) (seq (length pre) (length post)) = post) as Hgen; [|apply (Hgen [] steps)].
  intros pre post. revert pre. induction post as [|s post IH]; intros pre; [done|]. unfold members_of. cbn [length seq omap list_omap].
  rewrite lookup_app_r, Nat.sub_diag by lia. cbn [lookup list_lookup]. f_equal. specialize (IH (pre ++ [s])%list). rewrite length_app, Nat.add_1_r, <-app_assoc in IH. exact IH.
Qed.

Lemma sublist_concat {A} (ms : list A) gs : ms ∈ gs → ms `sublist_of` concat gs.
Proof.
  induction gs as [|x gs IH]; [by intros ?%not_elem_of_nil|]. intros [->|Hin]%elem_of_cons; simpl; [by apply sublist_inserts_r|].
  apply sublist_inserts_l. by apply IH.
Qed.

Lemma groups_ready steps gs : NoDup (AgentSlug <$> steps) → concat gs ≡ₚ seq 0 (length steps) → ([] ∉ gs) →
  concat (members_of steps <$> gs) ≡ₚ steps ∧ Forall (λ gr : list Step, NoDup (AgentSlug <$> gr) ∧ gr ≠ []) (members_of steps <$> gs).
Proof.
  intros Hnd Hp Hne. assert (concat (members_of steps <$> gs) ≡ₚ steps) as Hall.
  { rewrite members_of_concat. rewrite <-(members_of_all steps) at 2. unfold members_of. by rewrite Hp. }
  split; [done|]. apply Forall_forall. intros gr Hgr. split.
  - eapply (sublist_NoDup _ (AgentSlug <$> concat (members_of steps <$> gs))); [by rewrite Hall|]. apply fmap_sublist. by apply sublist_concat.
  - apply list_elem_of_fmap in Hgr as (ms & -> & Hms). destruct ms as [|i ms]; [done|]. unfold members_of. simpl.
    assert (i ∈ concat gs) as Hi by (apply elem_concat; exists (i :: ms); split; [done|by left]). rewrite Hp in Hi. apply elem_of_seq in Hi.
    destruct (lookup_lt_is_Some_2 steps i) as [s ->]; [lia|]. done.
Qed.

(** C20: The execution of a flow whose steps have different agents, whatever these
    answer and in whatever order parallel steps end.  It always returns.  The groups
    are launched whole and in order; the prompt of a step is the task's, or the result
    of the step it names if that ran in an earlier group and succeeded.  It succeeds
    only after every step was launched once and no step that is not optional failed;
    it fails with the error of such a step, right after its group, or, with a group
    still to launch, with the error of the context. *)
Theorem Execute_spec launch finished ctx_err f base : (∀ g l, finished g l ≡ₚ l) → NoDup (AgentSlug <$> Steps f) →
  ∃ groups r launched, buildParallelGroups (Steps f) = Some groups ∧ Execute launch finished ctx_err f base = Some (r, launched) ∧
    (λ l : list (Step * string), l.*1) <$> launched = take (length launched) groups ∧ wired launch base 0 launched ∅ ∧
    match r with
    | Ok _ => concat ((λ l : list (Step * string), l.*1) <$> launched) ≡ₚ Steps f ∧ ∀ k l, launched !! k = Some l → passed launch k l
    | Err (CtxErr e) => (length launched < length groups)%nat ∧ ctx_err (length launched) = Some e ∧ ∀ k l, launched !! k = Some l → passed launch k l
    | Err (StepErr _ _ as e) => ∃ k l, launched = (take k launched ++ [l])%list ∧ failed_step launch k l e ∧ ∀ j l, take k launched !! j = Some l → passed launch j l
    end.
Proof.
  intros Hfin Hnd. destruct (groups_spec (Steps f)) as (gs & Eg & Hp & _ & _ & _ & Hne). destruct (groups_ready _ _ Hnd Hp Hne) as [Hall Hgs].
  pose proof (run_groups_spec launch finished ctx_err Hfin base 0 _ ∅ Hgs) as Hr. unfold Execute. rewrite Eg. cbn [mbind option_bind].
  destruct (run_groups launch finished ctx_err 0 base (members_of (Steps f) <$> gs) ∅) as [r launched]. destruct Hr as (H1 & H2 & H3).
  eexists _, _, _. split; [done|]. split; [done|]. split; [done|]. split; [done|]. destruct r as [?|[e|slug e]]; [|done|done].
  destruct H3 as [El H3]. split; [|done]. rewrite H1, El, firstn_all. exact Hall.
Qed.

(** ** Files *)

Lemma decode_ascii b l : is_byte b → (decode_rune (b :: l)).1 < 128 → (decode_rune (b :: l)) = (b, 1%nat).
Proof.
  intros Hb. unfold decode_rune, in_range, cont, in_range, RuneError. destruct (Z.ltb_spec b 128); [done|].
  repeat match goal with |- context [if ?c then _ else _] => destruct c eqn:? | |- context [match ?t with [] => _ | _ => _ end] => destruct t end; simpl; lia.
Qed.

Lemma chunks_ascii l : Forall is_byte l → Forall (λ c, c.1 < 128) (chunks l) → Forall (λ c, c.2 = [c.1]) (chunks l).
Proof.
  unfold chunks. remember (length l) as fuel eqn:Ef. assert (length l <= fuel)%nat as Hf by lia. clear Ef. revert l Hf.
  induction fuel as [|fuel IH]; intros [|b l] Hf Hb Hc; [constructor|simpl in Hf; lia|constructor|]. cbn [chunks_fuel] in *.
  apply Forall_cons in Hb as [Hb Hbl]. destruct (decode_rune (b :: l)) as [r k] eqn:Ed. apply Forall_cons in Hc as [Hr Hc]. simpl in Hr.
  pose proof (decode_ascii b l Hb) as Ha. rewrite Ed in Ha. injection (Ha Hr) as -> ->. constructor; [done|]. change (drop 1 (b :: l)) with l in *. apply IH; [cbn [length] in Hf; lia|done..].
Qed.

Definition slug_byte (b : Z) : Prop := 97 <= b <= 122 ∨ 48 <= b <= 57 ∨ b = 45.

Lemma slug_bytes s : slug_IsValid s = true → Forall slug_byte (bytes s).
Proof.
  unfold slug_IsValid. destruct (_ || _); [done|]. intros Hf.
  assert (Forall (λ c, slug_byte c.1) (chunks (bytes s))) as Hc.
  { match type of Hf with forallb ?F (range_string s) = true =>
      assert (∀ l o, forallb F (with_offsets o l) = true → Forall (λ c, slug_byte c.1) l) as Hgen; [|exact (Hgen _ _ Hf)] end.
    clear Hf. induction l as [|[r w] l IH]; intros o Hf; [constructor|].
    cbn [with_offsets forallb] in Hf. apply andb_true_iff in Hf as [H1 H2]. constructor; [|exact (IH _ H2)]. unfold slug_byte. simpl.
    destruct (in_range 97 r 122) eqn:E1; [unfold in_range in E1; lia|]. destruct (in_range 48 r 57) eqn:E2; [unfold in_range in E2; lia|].
    destruct (Z.eqb_spec r 45); [auto|done]. }
  pose proof (chunks_ascii (bytes s) (bytes_is_byte s)) as Ha. rewrite <-(chunks_concat (bytes s)).
  assert (Forall (λ c, c.2 = [c.1]) (chunks (bytes s))) as Hone.
  { apply Ha. eapply Forall_impl; [done|]. unfold slug_byte. intros c ?. simpl in *. lia. }
  clear Ha Hf. induction (chunks (bytes s)) as [|[r w] l IH]; [constructor|]. apply Forall_cons in Hc as [Hr Hc]. apply Forall_cons in Hone as [Hw Hone].
  simpl in *. subst w. constructor; [done|]. by apply IH.
Qed.

Lemma slug_free a s : slug_IsValid s = true → ¬ slug_byte (byte_of a) → free_of a s.
Proof.
  intros Hs Ha. apply slug_bytes in Hs. unfold free_of. induction s as [|x s IH]; [done|]. simpl in *. apply Forall_cons in Hs as [Hx Hs].
  split; [|by apply IH]. intros ->. done.
Qed.

Lemma path_Ext_yaml s : slug_IsValid s = true → path_Ext (s +:+ ".yaml") = ".yaml".
Proof.
  intros Hs. unfold path_Ext, split_last. rewrite (Split_free_id slash).
  - cbn [snd List.last]. pose proof (Split_app (Ascii.ascii_of_nat 46) s "yaml") as E.
    change (s +:+ String (Ascii.ascii_of_nat 46) "yaml") with (s +:+ ".yaml") in E. rewrite E.
    rewrite (Split_free_id _ s) by (apply slug_free; [done|]; unfold slug_byte; vm_compute byte_of; lia). reflexivity.
  - apply all_bytes_app. split; [|by vm_compute]. apply slug_free; [done|]. unfold slug_byte. vm_compute byte_of. lia.
Qed.

Record valid_flow (f : Flow) : Prop := {
  vf_slug : slug_IsValid (Slug f) = true;
  vf_name : Name f ≠ "";
  vf_steps : Steps f ≠ [];
  vf_topology : Topology f ∈ [""; TopologyOrchestratorWorker; TopologyMesh];
  vf_agents : Forall (λ s, AgentSlug s ≠ "") (Steps f);
  vf_distinct : NoDup (AgentSlug <$> Steps f)
}.

(** A user's flow is not a built-in one. *)
Definition as_user (f : Flow) : Flow :=
  MkFlow (Slug f) (Name f) (Description f) (Steps f) false (Agentic f) (Dynamic f) (Topology f) (MaxHandoffDepth f).

Section files.
Context `{FlowYaml} (tbl : Z → Z).

Lemma load_steps_spec (steps : list Step) i seen acc : Forall (λ s, AgentSlug s ≠ "") steps → NoDup (AgentSlug <$> steps) →
  (∀ s, s ∈ steps → AgentSlug s ∉ seen) →
  load_steps ((λ s, MkDiskStep (AgentSlug s) (Optional s) (InputFrom s) (RunInParallelWith s)) <$> steps) i seen acc = Ok (acc ++ steps)%list.
Proof.
  revert i seen acc. induction steps as [|s steps IH]; intros i seen acc Hne Hnd Hseen; [simpl; by rewrite app_nil_r|]. rewrite fmap_cons in *.
  apply Forall_cons in Hne as [Hs Hne]. apply NoDup_cons in Hnd as [Hs' Hnd]. cbn [load_steps d_AgentSlug d_Optional d_InputFrom d_RunInParallelWith].
  rewrite decide_False by done. rewrite decide_False by (apply Hseen; by left). rewrite IH; [|done..|].
  - rewrite <-app_assoc. by destruct s.
  - intros x Hx. apply not_elem_of_union. split; [|apply Hseen; by right]. rewrite elem_of_singleton. intros E. apply Hs'. rewrite <-E. by apply list_elem_of_fmap_2.
Qed.

Lemma slug_not_empty s : slug_IsValid s = true → s ≠ "".
Proof. intros Hs ->. vm_compute in Hs. done. Qed.

Lemma load_flow_spec f body : valid_flow f → yaml_Marshal_flow (to_disk f) = Ok body → load_flow body = Ok (as_user f).
Proof.
  intros [V1 V2 V3 V4 V5 V6] Hb. unfold load_flow. rewrite (yaml_Marshal_Unmarshal _ _ Hb). simpl. rewrite V1.
  rewrite !decide_False; [|by destruct (Steps f)|done|by apply slug_not_empty]. rewrite bool_decide_eq_true_2 by done. simpl.
  rewrite load_steps_spec; [done..|]. intros s _. apply not_elem_of_empty.
Qed.

Definition yaml_name (n : string) : bool :=
  bool_decide (ToLower tbl (path_Ext n) = ".yaml") || bool_decide (ToLower tbl (path_Ext n) = ".yml").

Definition content (d : gmap string (File string)) (n : string) : string * string := (n, default "" (f_data <$> d !! n)).

Lemma read_files_spec unreadable d names : (∀ n, unreadable n = None) →
  read_files tbl unreadable d names = Ok (content d <$> filter (λ n, yaml_name n = true) names).
Proof.
  intros Hu. induction names as [|n names IH]; [done|]. cbn [read_files]. rewrite filter_cons, <-negb_orb.
  change (bool_decide (ToLower tbl (path_Ext n) = ".yaml") || bool_decide (ToLower tbl (path_Ext n) = ".yml")) with (yaml_name n).
  destruct (yaml_name n); simpl; [|done]. by rewrite Hu, IH.
Qed.

Lemma load_flows_spec files acc l : load_flows files acc = Ok l → ∃ l', l = (acc ++ l')%list ∧ ∀ acc', load_flows files acc' = Ok (acc' ++ l')%list.
Proof.
  revert acc. induction files as [|[n body] files IH]; intros acc E; simpl in E.
  { simplify_eq. exists []. rewrite app_nil_r. split; [done|]. intros acc'. simpl. by rewrite app_nil_r. }
  destruct (load_flow body) as [f|e] eqn:Ef; [|done]. apply IH in E as (l' & -> & Hl). exists (f :: l'). rewrite <-app_assoc. split; [done|].
  intros acc'. simpl. rewrite Ef, Hl, <-app_assoc. done.
Qed.

Lemma load_flows_app a b acc : load_flows (a ++ b) acc = match load_flows a acc with Ok l => load_flows b l | Err e => Err e end.
Proof. revert acc. induction a as [|[n body] a IH]; intros acc; [done|]. simpl. destruct (load_flow body); [apply IH|done]. Qed.

Lemma string_le_alt a b : string_le a b ↔ String.le a b.
Proof. unfold string_le, string_leb, String.le. by rewrite Is_true_true. Qed.

#[local] Instance string_le_total : Total string_le.
Proof. intros a b. rewrite !string_le_alt. apply (total String.le). Qed.

#[local] Instance string_le_trans : Transitive string_le.
Proof. intros a b c. rewrite !string_le_alt. apply (transitivity (R:=String.le)). Qed.

#[local] Instance string_le_anti : AntiSymm eq string_le.
Proof. intros a b. rewrite !string_le_alt. apply (anti_symm String.le). Qed.

Lemma insert_sorted k (l : list string) : StronglySorted string_le l → ∃ l1 l2, l = (l1 ++ l2)%list ∧ StronglySorted string_le (l1 ++ k :: l2).
Proof.
  induction 1 as [|x l Hs IH Hx]; [exists [], []; split; [done|]; by repeat constructor|].
  destruct (decide (string_le k x)) as [Hk|Hk].
  - exists [], (x :: l). split; [done|]. constructor; [by constructor|]. constructor; [done|]. eapply Forall_impl; [done|]. intros y Hy. by etrans.
  - destruct IH as (l1 & l2 & -> & Hl). exists (x :: l1), l2. split; [done|]. simpl. constructor; [done|]. apply Forall_app in Hx as [H1 H2].
    apply Forall_app. split; [done|]. constructor; [|done]. by destruct (total string_le k x).
Qed.

Lemma names_insert k x (d : gmap string (File string)) : ∃ l1 l2,
  merge_sort string_le (map_to_list (delete k d)).*1 = (l1 ++ l2)%list ∧ merge_sort string_le (map_to_list (<[k := x]> d)).*1 = (l1 ++ k :: l2)%list.
Proof.
  destruct (insert_sorted k (merge_sort string_le (map_to_list (delete k d)).*1)) as (l1 & l2 & E & Hs); [apply StronglySorted_merge_sort; apply _|].
  exists l1, l2. split; [done|]. apply (StronglySorted_unique string_le); [apply StronglySorted_merge_sort; apply _|done|].
  rewrite merge_sort_Permutation, <-insert_delete_eq, map_to_list_insert by apply lookup_delete_eq. rewrite fmap_cons. simpl.
  rewrite <-Permutation_middle, <-E, merge_sort_Permutation. done.
Qed.

Lemma yaml_name_slug f : slug_IsValid (Slug f) = true → yaml_name (Slug f +:+ ".yaml") = true.
Proof. intros Hs. unfold yaml_name. rewrite path_Ext_yaml by done. reflexivity. Qed.

Lemma content_insert k x d (l : list string) : k ∉ l → content (<[k := x]> d) <$> l = content (delete k d) <$> l.
Proof.
  intros Hk. apply list_fmap_ext. intros i y Hy. unfold content. rewrite lookup_insert_ne, lookup_delete_ne; [done|..];
    intros ->; apply Hk; by eapply list_elem_of_lookup_2.
Qed.

Lemma names_absent k (d : gmap string (File string)) : k ∉ merge_sort string_le (map_to_list (delete k d)).*1.
Proof.
  rewrite merge_sort_Permutation. intros ([k' x] & E & Hx)%list_elem_of_fmap. simpl in E. subst k'.
  apply elem_of_map_to_list in Hx. by rewrite lookup_delete_eq in Hx.
Qed.

Lemma insert_loads d f body l m : valid_flow f → yaml_Marshal_flow (to_disk f) = Ok body → let name := Slug f +:+ ".yaml" in
  LoadUserFlows tbl None (λ _, None) (Some (delete name d)) = Ok l →
  ∃ l1 l2, l = (l1 ++ l2)%list ∧ LoadUserFlows tbl None (λ _, None) (Some (<[name := MkFile body m]> d)) = Ok (l1 ++ as_user f :: l2)%list.
Proof.
  intros Hf Hb name. unfold LoadUserFlows, ReadAll. rewrite !read_files_spec by done. pose proof (names_absent name d) as Ha.
  set (x := MkFile body m). destruct (names_insert name x d) as (n1 & n2 & En & ->). rewrite En in *. apply not_elem_of_app in Ha as [Ha1 Ha2].
  rewrite !filter_app, filter_cons_True by (apply yaml_name_slug, Hf). rewrite !fmap_app, fmap_cons, !load_flows_app.
  rewrite !content_insert by (intros [_ ?]%list_elem_of_filter; done).
  destruct (load_flows (content (delete name d) <$> filter (λ n, yaml_name n = true) n1) []) as [l1|e]; [|done]. intros El.
  destruct (load_flows_spec _ _ _ El) as (l2 & -> & Hl2). exists l1, l2. split; [done|]. unfold content at 1. rewrite lookup_insert_eq. cbn [fmap option_fmap option_map default load_flows f_data x].
  unfold id. by rewrite (load_flow_spec f body), Hl2, <-app_assoc.
Qed.

(** C33: A flow that was saved is read back: if it is valid, its write succeeded and
    the other files of the directory load, then the directory loads to the same
    flows in the same order with this one among them, once, with its steps,
    prompts' sources, parallel groups and agentic settings, not marked built-in;
    an earlier version under the slug is replaced. *)
Theorem user_flow_roundtrip f o d d' l :
  valid_flow f → admissible o (Slug f +:+ ".yaml") (default ∅ d) → WriteUserFlow None o f d = (Ok tt, d') →
  LoadUserFlows tbl None (λ _, None) (Some (delete (Slug f +:+ ".yaml") (default ∅ d))) = Ok l →
  ∃ l1 l2, l = (l1 ++ l2)%list ∧ LoadUserFlows tbl None (λ _, None) d' = Ok (l1 ++ as_user f :: l2)%list.
Proof.
  intros Hf Ha. unfold WriteUserFlow. rewrite (vf_slug _ Hf). cbn [negb]. set (name := Slug f +:+ ".yaml") in *. destruct (yaml_Marshal_flow (to_disk f)) as [data|e] eqn:Hb; [|done].
  destruct (write_states o name data 420 false (default ∅ d) Ha) as [_ Hw]. unfold Write. intros [= Hr <-]. rewrite Hr in Hw.
  intros Hl. replace (after _ _) with (<[name := MkFile data 420]> (default ∅ d)); [by apply insert_loads|].
  apply map_eq. intros q. rewrite Hw, lookup_insert. by repeat case_decide; subst.
Qed.
End files.
