(* ===== verification/FlowRun.v ===== *)
(** * Concrete runs of flows

    A codec for the files of user flows, the witnesses, the groups of the built-in
    flow, and a run in which a step names a peer of its own group as its input. *)

From S2P Require Import Prelude GoStrings GoText PkgUtil TaskModel AtomicFile Flow FlowSpec.
From Stdlib Require Import String.
From stdpp Require Import list gmap countable.
Local Open Scope Z_scope.
Local Open Scope string_scope.

Module FlowRun.

(** ** A codec *)

#[local] Instance diskStep_eq : EqDecision diskStep.
Proof. solve_decision. Defined.
#[local] Instance diskFlow_eq : EqDecision diskFlow.
Proof. solve_decision. Defined.

#[local] Instance diskStep_countable : Countable diskStep.
Proof.
  apply (inj_countable' (λ s, (d_AgentSlug s, d_Optional s, d_InputFrom s, d_RunInParallelWith s))
    (λ '(a, o, i, p), MkDiskStep a o i p)). by intros [].
Defined.

#[local] Instance diskFlow_countable : Countable diskFlow.
Proof.
  apply (inj_countable' (λ f, (d_Slug f, d_Name f, d_Description f, d_Agentic f, d_Dynamic f, d_Topology f, d_MaxHandoffDepth f, d_Steps f))
    (λ '(s, n, d, a, dy, t, m, st), MkDiskFlow s n d a dy t m st)). by intros [].
Defined.

Fixpoint bits (p : positive) : string :=
  match p with xI p => String (Ascii.ascii_of_nat 49) (bits p) | xO p => String (Ascii.ascii_of_nat 48) (bits p) | xH => "" end.

Fixpoint unbits (s : string) : positive :=
  match s with EmptyString => xH | String a s => if decide (a = Ascii.ascii_of_nat 49) then xI (unbits s) else xO (unbits s) end.

Lemma unbits_bits p : unbits (bits p) = p.
Proof. induction p as [p IH|p IH|]; cbn [bits unbits]; [by rewrite decide_True, IH|by rewrite decide_False, IH|done]. Qed.

#[local] Instance coded : FlowYaml.
Proof.
  refine {| yaml_Unmarshal := λ s, match decode (unbits s) with Some f => Ok f | None => Err "yaml" end;
            yaml_Marshal_flow := λ f, Ok (bits (encode f)) |}.
  intros f body [= <-]. by rewrite unbits_bits, decode_encode.
Defined.

(** ** Witnesses *)

Definition step (slug input : string) (peers : list string) : Step := MkStep slug false input peers.

Definition review : Flow :=
  MkFlow "review" "Review" "" [step "impl" "" []; step "lint" "impl" ["test"]; MkStep "test" true "lint" []; step "sum" "lint" []]
    false false false "" 0.

(** The optional test fails; a later step is given the text of an earlier one. *)
Definition answers (g : nat) (s : Step) (prompt : string) : result string parsed :=
  if decide (AgentSlug s = "test") then Err "exit 1" else Ok (PString (AgentSlug s +:+ "(" +:+ prompt +:+ ")")).

Lemma Execute_spec_witness :
  NoDup (AgentSlug <$> Steps review) ∧
  Execute answers (λ _ l, reverse l) (λ _, None) review "do" =
    Some (Ok tt, [[(step "impl" "" [], "do")];
                  [(step "lint" "impl" ["test"], "impl(do)"); (MkStep "test" true "lint" [], "do")];
                  [(step "sum" "lint" [], "lint(impl(do))")]])%list ∧
  ∃ groups r launched, buildParallelGroups (Steps review) = Some groups ∧
    Execute answers (λ _ l, reverse l) (λ _, None) review "do" = Some (r, launched) ∧ wired answers "do" 0 launched ∅.
Proof.
  assert (NoDup (AgentSlug <$> Steps review)) as Hnd by (apply (bool_decide_unpack _); vm_compute; exact I).
  split; [exact Hnd|]. split; [vm_compute; reflexivity|].
  destruct (Execute_spec answers (λ _ l, reverse l) (λ _, None) review "do") as (gs & r & launched & H1 & H2 & _ & H4 & _);
    [intros g l; apply reverse_Permutation|exact Hnd|].
  exists gs, r, launched. split; [exact H1|]. split; [exact H2|exact H4].
Defined.

Definition quiet_disk : Outcomes string := MkOutcomes (Ok ".tmp-1") None None None None None None.
Definition old_dir : gmap string (File string) :=
  {["review.yaml" := MkFile "broken" 420; "a.yml" := MkFile (bits (encode (to_disk (mark_builtin review)))) 420; "notes.txt" := MkFile "x" 420]}.

Lemma user_flow_roundtrip_witness :
  valid_flow review ∧ ∃ l1 l2, [review] = (l1 ++ l2)%list ∧
    LoadUserFlows id None (λ _, None) (WriteUserFlow None quiet_disk review (Some old_dir)).2 = Ok (l1 ++ as_user review :: l2)%list.
Proof.
  assert (valid_flow review) as Hv.
  { constructor; [vm_compute; reflexivity|discriminate|discriminate|left| |].
    - repeat constructor; discriminate.
    - apply (bool_decide_unpack _). vm_compute. exact I. }
  split; [exact Hv|]. apply (user_flow_roundtrip id review quiet_disk (Some old_dir)); [exact Hv|split; [vm_compute; reflexivity|discriminate]| |].
  - apply injective_projections; [vm_compute; reflexivity|reflexivity].
  - vm_compute. reflexivity.
Defined.

(** ** Runs *)

(** The built-in flow: implement, test, then three agents at the same time. *)
Lemma builtin_groups :
  map (λ f, option_map (map (map AgentSlug)) (buildParallelGroups (Steps f))) builtins = [Some [["impl"]; ["test"]; ["commit-msg"; "title"; "oversight"]]].
Proof. vm_compute. reflexivity. Qed.

(** A step whose input is a peer of its own group is given the task's prompt,
    although the peer succeeds. *)
Lemma peer_input_is_base :
  let f := MkFlow "p" "P" "" [step "a" "" ["b"]; step "b" "a" []] false false false "" 0 in
  Execute answers (λ _ l, l) (λ _, None) f "do" = Some (Ok tt, [[(step "a" "" ["b"], "do"); (step "b" "a" [], "do")]]).
Proof. vm_compute. reflexivity. Qed.
End FlowRun.
