(* ===== verification/Tree.v ===== *)
(** * Rooted trees (internal/pkg/tree/tree.go)

    Nodes are allocated in a heap, a list in which a pointer is an index; the
    tree holds its roots and the index of nodes by key.  [walkNode] recurses
    through pointers, so it takes fuel; [None] is running out of it, or a
    dangling pointer.  On a well-formed tree ([tree_wf], kept by [Add]) the
    number of nodes is enough fuel: a child is allocated after its parent. *)

From S2P Require Import Prelude.
From stdpp Require Import list gmap.
Local Open Scope Z_scope.

(** The loop that appends the results for the children. *)
Abbreviation append_all f l0 cs := (foldl (λ acc c, l ← acc; l' ← f c; Some (l ++ l')%list) l0 cs).

Section tree.
Context {K V : Type} `{Countable K}.

Record Node := MkNode {
  Key : K;
  Value : V;
  Parent : option nat;
  Children : list nat;
  IsLeaf : bool;
  Depth : Z
}.

Record Tree := MkTree {
  Roots : list nat;
  All : gmap K nat;
  heap : list Node
}.

(** [New]. *)
Definition New_tree : Tree := MkTree [] ∅ [].

Definition NodeAt (t : Tree) (key : K) : option nat := All t !! key.

Definition adopt (c : nat) (n : Node) : Node :=
  MkNode (Key n) (Value n) (Parent n) (Children n ++ [c]) false (Depth n).

Definition Add (key : K) (value : V) (parentKey : option K) (t : Tree) : Tree * nat :=
  let id := length (heap t) in
  let parent := p ← parentKey; All t !! p in
  let node := MkNode key value None [] true 0 in
  let '(node, roots, hp) :=
    match parent with
    | Some p =>
      let depth := from_option Depth 0 (heap t !! p) in
      (MkNode key value (Some p) [] true (depth + 1), Roots t, alter (adopt id) p (heap t))
    | None => (node, Roots t ++ [id], heap t)
    end in
  (MkTree roots (<[key := id]> (All t)) (hp ++ [node]), id).

(** The nodes visited by [Walk], in order, when the consumer never stops. *)
Fixpoint walkNode (fuel : nat) (t : Tree) (p : nat) : option (list nat) :=
  match fuel with
  | O => None
  | S fuel =>
    n ← heap t !! p;
    foldl (λ acc c, l ← acc; l' ← walkNode fuel t c; Some (l ++ l')) (Some [p]) (Children n)
  end.

Definition Walk (t : Tree) : option (list nat) :=
  foldl (λ acc r, l ← acc; l' ← walkNode (length (heap t)) t r; Some (l ++ l')) (Some []) (Roots t).

(** [Leaves], in the iteration order of the index. *)
Definition Leaves (order : list K) (t : Tree) : list nat :=
  omap (λ k, p ← All t !! k; n ← heap t !! p; if IsLeaf n then Some p else None) order.

(** ** Well-formed trees *)

Record tree_wf (t : Tree) : Prop := {
  tw_child : ∀ p n c, heap t !! p = Some n → c ∈ Children n →
    (p < c)%nat ∧ ∃ m, heap t !! c = Some m ∧ Parent m = Some p ∧ Depth m = Depth n + 1;
  tw_parent : ∀ c m p, heap t !! c = Some m → Parent m = Some p → ∃ n, heap t !! p = Some n ∧ c ∈ Children n;
  tw_root : ∀ r, r ∈ Roots t ↔ ∃ n, heap t !! r = Some n ∧ Parent n = None;
  tw_depth : ∀ r n, heap t !! r = Some n → Parent n = None → Depth n = 0;
  tw_roots : NoDup (Roots t);
  tw_children : ∀ p n, heap t !! p = Some n → NoDup (Children n);
  tw_leaf : ∀ p n, heap t !! p = Some n → IsLeaf n = bool_decide (Children n = []);
  tw_all : ∀ k p, All t !! k = Some p → ∃ n, heap t !! p = Some n ∧ Key n = k
}.

(** No key was added twice. *)
Definition tree_unique (t : Tree) : Prop := ∀ p n, heap t !! p = Some n → All t !! Key n = Some p.

Lemma New_wf : tree_wf New_tree.
Proof. split; try done; [intros r; split; [by intros ?%elem_of_nil|by intros (? & ? & _)]|constructor]. Qed.

(** What [Add] makes of the nodes. *)
Lemma Add_lookup key value pk t q :
  let t' := (Add key value pk t).1 in
  let parent := p ← pk; All t !! p in
  heap t' !! q =
    if decide (q = length (heap t)) then
      Some (MkNode key value parent [] true
              (match parent with Some p => from_option Depth 0 (heap t !! p) + 1 | None => 0 end))
    else (λ n, if decide (parent = Some q) then adopt (length (heap t)) n else n) <$> heap t !! q.
Proof.
  intros t' parent. unfold t', Add. fold parent. destruct parent as [p|]; cbn [fst heap].
  - case_decide as E; [subst q; rewrite lookup_app_r; rewrite length_alter; [by rewrite Nat.sub_diag|lia]|].
    destruct (decide (q < length (heap t))%nat).
    + rewrite lookup_app_l by (rewrite length_alter; lia). destruct (decide (p = q)) as [->|Hn].
      * rewrite list_lookup_alter_eq. destruct (heap t !! q); simpl; [by rewrite decide_True|done].
      * rewrite list_lookup_alter_ne by done. destruct (heap t !! q); simpl; [rewrite decide_False by congruence|]; done.
    + rewrite (lookup_ge_None_2 (heap t) q) by lia. apply lookup_ge_None. rewrite length_app, length_alter. simpl. lia.
  - case_decide as E; [subst q; by rewrite lookup_app_r, Nat.sub_diag|].
    destruct (decide (q < length (heap t))%nat).
    + rewrite lookup_app_l by lia. by destruct (heap t !! q).
    + rewrite (lookup_ge_None_2 (heap t) q) by lia. apply lookup_ge_None. rewrite length_app. simpl. lia.
Qed.

(** A node of the tree after [Add] is the new one or an old one, perhaps with the
    new one among its children. *)
Lemma Add_cases key value pk t q n :
  let t' := (Add key value pk t).1 in
  let parent := p ← pk; All t !! p in
  heap t' !! q = Some n →
  q = length (heap t) ∧ Key n = key ∧ Parent n = parent ∧ Children n = [] ∧ IsLeaf n = true ∧
    Depth n = match parent with Some p => from_option Depth 0 (heap t !! p) + 1 | None => 0 end ∨
  ∃ n0, q ≠ length (heap t) ∧ heap t !! q = Some n0 ∧ n = if decide (parent = Some q) then adopt (length (heap t)) n0 else n0.
Proof.
  intros t' parent Hq. unfold t' in Hq. rewrite Add_lookup in Hq. fold parent in Hq. case_decide as E.
  - injection Hq as <-. by left.
  - right. apply fmap_Some in Hq as (n0 & E0 & ->). by exists n0.
Qed.

(** *** [Add] keeps the tree well-formed *)

Section add.
Context (key : K) (value : V) (pk : option K) (t : Tree) (Hwf : tree_wf t).
Let t' : Tree := (Add key value pk t).1.
Let parent : option nat := p ← pk; All t !! p.
Let id : nat := length (heap t).

Lemma add_parent p : parent = Some p → ∃ n, heap t !! p = Some n.
Proof. intros (k & _ & Hk)%bind_Some. destruct (tw_all _ Hwf _ _ Hk) as (n & ? & _). eauto. Qed.

Lemma add_new : ∃ m, heap t' !! id = Some m ∧ Key m = key ∧ Parent m = parent ∧ Children m = [] ∧
  Depth m = match parent with Some p => from_option Depth 0 (heap t !! p) + 1 | None => 0 end.
Proof. unfold t'. rewrite Add_lookup, decide_True by done. by eexists. Qed.

(** Old nodes keep their fields and may gain the new one as a child. *)
Lemma add_old c n0 : heap t !! c = Some n0 →
  ∃ n, heap t' !! c = Some n ∧ Parent n = Parent n0 ∧ Depth n = Depth n0 ∧ Key n = Key n0 ∧
    ∀ x, x ∈ Children n ↔ x ∈ Children n0 ∨ parent = Some c ∧ x = id.
Proof.
  intros Hc. pose proof (lookup_lt_Some _ _ _ Hc). unfold t'. rewrite Add_lookup, decide_False by lia. rewrite Hc. simpl.
  case_decide; eexists; (split; [done|]); simpl; split_and!; try done; intros x; rewrite ?elem_of_app, ?list_elem_of_singleton; tauto.
Qed.

Lemma add_inv q n : heap t' !! q = Some n →
  q = id ∧ Parent n = parent ∧ Children n = [] ∨
  ∃ n0, (q < id)%nat ∧ heap t !! q = Some n0 ∧ Parent n = Parent n0 ∧ Depth n = Depth n0 ∧
    ∀ x, x ∈ Children n ↔ x ∈ Children n0 ∨ parent = Some q ∧ x = id.
Proof.
  intros Hn. destruct (Add_cases _ _ _ _ _ _ Hn) as [(? & ? & ? & ? & _)|(n0 & _ & H0 & _)]; [by left|right].
  destruct (add_old q n0 H0) as (n' & Hn' & Hp & Hd & _ & Hc). assert (n' = n) as -> by congruence.
  exists n0. split; [by eapply lookup_lt_Some|]. done.
Qed.

Lemma add_child p n c : heap t' !! p = Some n → c ∈ Children n →
  (p < c)%nat ∧ ∃ m, heap t' !! c = Some m ∧ Parent m = Some p ∧ Depth m = Depth n + 1.
Proof.
  intros Hn Hc. destruct (add_inv _ _ Hn) as [(_ & _ & E)|(n0 & Hlt & H0 & _ & Hd & Hch)]; [rewrite E in Hc; by apply elem_of_nil in Hc|].
  destruct (proj1 (Hch c) Hc) as [Hc'|[Hp Ec]].
  - destruct (tw_child _ Hwf _ _ _ H0 Hc') as (? & m & Hm & Hpm & Hdm). split; [done|].
    destruct (add_old _ _ Hm) as (m' & Hm' & Hp' & Hd' & _). exists m'. rewrite Hp', Hd', Hd. done.
  - rewrite Ec. split; [done|]. destruct add_new as (m & Hm & _ & Hpm & _ & Hdm). exists m. rewrite Hp in *. rewrite H0 in Hdm.
    rewrite Hd. done.
Qed.

Lemma add_parent_child c m p : heap t' !! c = Some m → Parent m = Some p → ∃ n, heap t' !! p = Some n ∧ c ∈ Children n.
Proof.
  intros Hm Hp. destruct (add_inv _ _ Hm) as [(-> & Hpp & _)|(m0 & Hlt & H0 & Hpp & _)].
  - rewrite Hp in Hpp. destruct (add_parent p) as [n0 Hn0]; [done|].
    destruct (add_old _ _ Hn0) as (n & Hn & _ & _ & _ & Hch). exists n. split; [done|]. apply Hch. by right.
  - rewrite Hp in Hpp. destruct (tw_parent _ Hwf _ _ _ H0 (eq_sym Hpp)) as (n0 & Hn0 & Hc).
    destruct (add_old _ _ Hn0) as (n & Hn & _ & _ & _ & Hch). exists n. split; [done|]. apply Hch. by left.
Qed.

Lemma add_roots : Roots t' = match parent with Some _ => Roots t | None => Roots t ++ [id] end.
Proof. unfold t', Add. fold parent. by destruct parent. Qed.

Lemma add_root r : r ∈ Roots t' ↔ ∃ n, heap t' !! r = Some n ∧ Parent n = None.
Proof.
  rewrite add_roots. split.
  - intros Hr. assert (r ∈ Roots t ∨ parent = None ∧ r = id) as [Hr0|[Hp ->]].
    { destruct parent; [by left|]. apply elem_of_app in Hr as [?|?%list_elem_of_singleton]; auto. }
    + apply (tw_root _ Hwf) in Hr0 as (n & Hn & Hp). destruct (add_old _ _ Hn) as (n' & ? & E & _). exists n'. by rewrite E.
    + destruct add_new as (m & Hm & _ & Hpm & _). exists m. by rewrite Hpm.
  - intros (n & Hn & Hp). destruct (add_inv _ _ Hn) as [(-> & Hpp & _)|(n0 & _ & H0 & Hpp & _)]; rewrite Hp in Hpp.
    + rewrite <- Hpp. set_solver.
    + assert (r ∈ Roots t) by (apply (tw_root _ Hwf); eauto). destruct parent; set_solver.
Qed.

Lemma add_NoDup p n : heap t' !! p = Some n → NoDup (Children n) ∧ IsLeaf n = bool_decide (Children n = []).
Proof.
  intros Hn. destruct (Add_cases _ _ _ _ _ _ Hn) as [(_ & _ & _ & E & El & _)|(n0 & Hne & H0 & ->)].
  { rewrite E, El. split; [constructor|done]. }
  pose proof (tw_children _ Hwf _ _ H0). pose proof (tw_leaf _ Hwf _ _ H0). case_decide; [|done]. simpl. split.
  - apply NoDup_app. split; [done|]. split; [|apply NoDup_singleton]. intros x Hx ->%list_elem_of_singleton.
    destruct (tw_child _ Hwf _ _ _ H0 Hx) as (_ & m & Hm%lookup_lt_Some & _). lia.
  - symmetry. apply bool_decide_eq_false. by destruct (Children n0).
Qed.

Lemma add_all : All t' = <[key := id]> (All t).
Proof. unfold t', Add. fold parent. by destruct parent. Qed.
End add.

Lemma Add_wf key value pk t : tree_wf t → tree_wf (Add key value pk t).1.
Proof.
  intros Hwf. split.
  - by apply add_child.
  - by apply add_parent_child.
  - by apply add_root.
  - intros r n Hn Hp. destruct (Add_cases _ _ _ _ _ _ Hn) as [(_ & _ & Hpp & _ & _ & ->)|(n0 & _ & H0 & ->)].
    + by rewrite Hp in Hpp; rewrite <- Hpp.
    + case_decide; by apply (tw_depth _ Hwf) in H0.
  - rewrite add_roots. destruct (_ ← _; _); [apply Hwf|]. apply NoDup_app. split; [apply Hwf|].
    split; [|apply NoDup_singleton]. intros x Hx ->%list_elem_of_singleton.
    apply (tw_root _ Hwf) in Hx as (n & Hn%lookup_lt_Some & _). lia.
  - intros p n Hn. by eapply add_NoDup.
  - intros p n Hn. by eapply add_NoDup.
  - intros k p. rewrite add_all. intros [[<- <-]|[Hne Hk]]%lookup_insert_Some.
    + destruct (add_new key value pk t) as (m & ? & ? & _). eauto.
    + destruct (tw_all _ Hwf _ _ Hk) as (n & Hn & Hkey). destruct (add_old key value pk t p n Hn) as (n' & ? & _ & _ & E & _).
      exists n'. by rewrite E.
Qed.

Lemma Add_unique key value pk t :
  tree_wf t → All t !! key = None → tree_unique t → tree_unique (Add key value pk t).1.
Proof.
  intros Hwf Hk Hu p n Hn. rewrite add_all. destruct (Add_cases _ _ _ _ _ _ Hn) as [(-> & -> & _)|(n0 & Hne & H0 & ->)].
  - by rewrite lookup_insert_eq.
  - assert (All t !! Key n0 = Some p) as E by (by apply Hu). rewrite lookup_insert_ne; [by case_decide|].
    intros ->. case_decide; simpl in *; congruence.
Qed.

(** ** Subtrees

    [child t p c] is the edge relation; [live prune t p q] says that [q] is
    reached from [p] through nodes none of which is pruned. *)

Definition child (t : Tree) (p c : nat) : Prop := ∃ n, heap t !! p = Some n ∧ c ∈ Children n.

Inductive live (prune : Node → bool) (t : Tree) : nat → nat → Prop :=
| live_refl p n : heap t !! p = Some n → prune n = false → live prune t p p
| live_step p n c q : heap t !! p = Some n → prune n = false → c ∈ Children n → live prune t c q → live prune t p q.

(** The unpruned nodes below [p] in depth-first pre-order. *)
Fixpoint walk_pruned (prune : Node → bool) (fuel : nat) (t : Tree) (p : nat) : option (list nat) :=
  match fuel with
  | O => None
  | S fuel =>
    n ← heap t !! p;
    if prune n then Some []
    else foldl (λ acc c, l ← acc; l' ← walk_pruned prune fuel t c; Some (l ++ l')) (Some [p]) (Children n)
  end.

Lemma walkNode_pruned fuel t p : walkNode fuel t p = walk_pruned (λ _, false) fuel t p.
Proof.
  revert p. induction fuel as [|fuel IH]; intros p; simpl; [done|]. destruct (heap t !! p) as [n|]; simpl; [|done].
  generalize (Some [p]). induction (Children n) as [|c cs IHc]; intros acc; simpl; [done|].
  rewrite IH. apply IHc.
Qed.

Lemma append_all_None (f : nat → option (list nat)) cs : append_all f None cs = None.
Proof. by induction cs. Qed.

Lemma append_all_cons (f : nat → option (list nat)) x l0 cs l :
  append_all f (Some (x :: l0)) cs = Some l → ∃ l', l = x :: l' ∧ append_all f (Some l0) cs = Some l'.
Proof.
  revert l0. induction cs as [|c cs IH]; intros l0; simpl; [intros [= <-]; by exists l0|].
  destruct (f c) as [lc|]; simpl; [apply (IH (l0 ++ lc))|by rewrite append_all_None].
Qed.

Section subtree.
Context (t : Tree) (Hwf : tree_wf t) (prune : Node → bool).

Lemma live_desc p q : live prune t p q → rtc (child t) p q.
Proof. induction 1 as [|p n c q ? ? ? _ IH]; [done|]. eapply rtc_l; [|done]. by exists n. Qed.

Lemma child_lt p c : child t p c → (p < c)%nat.
Proof. intros (n & Hn & Hc). by eapply tw_child. Qed.

Lemma desc_le p q : rtc (child t) p q → (p <= q)%nat.
Proof. induction 1 as [|p c q H1%child_lt _ IH]; lia. Qed.

Lemma child_inj p1 p2 c : child t p1 c → child t p2 c → p1 = p2.
Proof.
  intros (n1 & H1 & C1) (n2 & H2 & C2). destruct (tw_child _ Hwf _ _ _ H1 C1) as (_ & m1 & M1 & P1 & _).
  destruct (tw_child _ Hwf _ _ _ H2 C2) as (_ & m2 & M2 & P2 & _). congruence.
Qed.

(** Two ancestors of the same node are on one line. *)
Lemma desc_linear p1 p2 q : rtc (child t) p1 q → rtc (child t) p2 q → rtc (child t) p1 p2 ∨ rtc (child t) p2 p1.
Proof.
  revert q. apply (rtc_ind_r (λ q, rtc (child t) p2 q → rtc (child t) p1 p2 ∨ rtc (child t) p2 p1)); [by right|].
  intros x q H1 Hx IH H2.
  destruct (rtc_inv_r _ _ H2) as [->|(y & Hy & Hc)].
  - left. by eapply rtc_r.
  - assert (y = x) as -> by (by eapply child_inj). auto.
Qed.

(** The subtrees of two nodes neither of which is below the other are disjoint. *)
Lemma siblings_disjoint p c1 c2 q : child t p c1 → child t p c2 → live prune t c1 q → live prune t c2 q → c1 = c2.
Proof.
  intros C1 C2 L1%live_desc L2%live_desc.
  assert (∀ a b, child t p a → child t p b → rtc (child t) a b → a = b) as Hsib.
  { intros a b Ha Hb Hab. destruct (rtc_inv_r _ _ Hab) as [->|(y & Hy & Hyb)]; [done|].
    assert (y = p) as -> by (by eapply child_inj). apply child_lt in Ha. apply desc_le in Hy. lia. }
  destruct (desc_linear _ _ _ L1 L2) as [Hd|Hd]; [by apply Hsib|]. symmetry. by apply Hsib.
Qed.

(** The loop over the roots of disjoint subtrees, when the recursive calls succeed. *)
Lemma walk_forest fuel cs l0 :
  (∀ c, c ∈ cs → ∃ l, walk_pruned prune fuel t c = Some l ∧ NoDup l ∧ ∀ q, q ∈ l ↔ live prune t c q) →
  NoDup cs → (∀ c1 c2 q, c1 ∈ cs → c2 ∈ cs → live prune t c1 q → live prune t c2 q → c1 = c2) →
  NoDup l0 → (∀ c q, c ∈ cs → q ∈ l0 → ¬ live prune t c q) →
  ∃ l, foldl (λ acc c, l ← acc; l' ← walk_pruned prune fuel t c; Some (l ++ l')) (Some l0) cs = Some l ∧ NoDup l ∧
    ∀ q, q ∈ l ↔ q ∈ l0 ∨ ∃ c, c ∈ cs ∧ live prune t c q.
Proof.
  revert l0. induction cs as [|c cs IH]; intros l0 Hrec Hcs Hdis Hnd Hsep; simpl.
  { exists l0. split; [done|]. split; [done|]. intros q. split; [by left|]. intros [?|(c & Hc & _)]; [done|]. by apply elem_of_nil in Hc. }
  destruct (Hrec c) as (l & -> & Hl & Hlin); [left|]. simpl. apply NoDup_cons in Hcs as [Hc Hcs].
  destruct (IH (l0 ++ l)) as (l' & E & Hnd' & Hin).
  - intros c' Hc'. apply Hrec. by right.
  - done.
  - intros c1 c2 q H1 H2. apply Hdis; by right.
  - apply NoDup_app. split; [done|]. split; [|done]. intros q Hq Hq'%Hlin. by eapply Hsep; [left|..].
  - intros c' q Hc' [Hq|Hq%Hlin]%elem_of_app Hlive; [by eapply Hsep; [right|..]|].
    apply Hc. replace c with c'; [done|]. by eapply Hdis; [right|left|..].
  - exists l'. split; [done|]. split; [done|]. intros q. rewrite Hin, elem_of_app, Hlin. set_solver.
Qed.

(** Fuel for every node still below [p] is enough. *)
Lemma walk_pruned_spec fuel p :
  (p < length (heap t))%nat → (length (heap t) - p <= fuel)%nat →
  ∃ l, walk_pruned prune fuel t p = Some l ∧ NoDup l ∧ ∀ q, q ∈ l ↔ live prune t p q.
Proof.
  revert p. induction fuel as [|fuel IH]; intros p Hp Hf; [lia|]. simpl.
  destruct (heap t !! p) as [n|] eqn:Hn; [|apply lookup_ge_None in Hn; lia]. simpl.
  destruct (prune n) eqn:Epr.
  { exists []. split; [done|]. split; [constructor|]. intros q. split; [by intros ?%elem_of_nil|].
    intros Hl. exfalso. destruct Hl; congruence. }
  destruct (walk_forest fuel (Children n) [p]) as (l & E & Hnd & Hin).
  - intros c Hc. destruct (tw_child _ Hwf _ _ _ Hn Hc) as (? & m & Hm%lookup_lt_Some & _). apply IH; lia.
  - by eapply tw_children.
  - intros c1 c2 q H1 H2. apply (siblings_disjoint p); by exists n.
  - apply NoDup_singleton.
  - intros c q Hc ->%list_elem_of_singleton Hl%live_desc%desc_le. assert (child t p c) as Hx%child_lt by (by exists n). lia.
  - exists l. split; [done|]. split; [done|]. intros q. rewrite Hin, list_elem_of_singleton. split.
    + intros [->|(c & Hc & Hl)]; [by eapply live_refl|by eapply live_step].
    + inversion 1; subst; [by left|]. right. exists c. split; [congruence|done].
Qed.
End subtree.

(** Every node is below exactly one root. *)
Lemma live_root t q n :
  tree_wf t → heap t !! q = Some n → ∃ r, r ∈ Roots t ∧ live (λ _, false) t r q.
Proof.
  intros Hwf. revert n. induction (lt_wf q) as [q _ IH]. intros n Hn. destruct (Parent n) as [p|] eqn:Hp.
  - destruct (tw_parent _ Hwf _ _ _ Hn Hp) as (m & Hm & Hc). destruct (tw_child _ Hwf _ _ _ Hm Hc) as [Hlt _].
    destruct (IH p Hlt m Hm) as (r & Hr & Hl). exists r. split; [done|]. clear -Hl Hm Hc Hn.
    induction Hl as [p n0 H0|p n0 c0 q0 H0 ? ? _ IHl].
    + apply (live_step _ _ p m q); [done..|]. by eapply live_refl.
    + apply (live_step _ _ p n0 c0); auto.
  - exists q. split; [apply (tw_root _ Hwf); eauto|by eapply live_refl].
Qed.

Lemma roots_disjoint t r1 r2 q :
  tree_wf t → r1 ∈ Roots t → r2 ∈ Roots t → live (λ _, false) t r1 q → live (λ _, false) t r2 q → r1 = r2.
Proof.
  intros Hwf H1 H2 L1%live_desc L2%live_desc.
  assert (∀ a b, b ∈ Roots t → rtc (child t) a b → a = b) as Hroot.
  { intros a b Hb Hab. destruct (rtc_inv_r _ _ Hab) as [->|(y & _ & (n & Hn & Hc))]; [done|].
    apply (tw_root _ Hwf) in Hb as (m & Hm & Hp). destruct (tw_child _ Hwf _ _ _ Hn Hc) as (_ & m' & Hm' & Hp' & _). congruence. }
  destruct (desc_linear t Hwf _ _ _ L1 L2) as [Hd|Hd]; [by apply Hroot|]. symmetry. by apply Hroot.
Qed.

(** [Walk] visits every node exactly once. *)
Lemma Walk_all t : tree_wf t → ∃ l, Walk t = Some l ∧ l ≡ₚ seq 0 (length (heap t)).
Proof.
  intros Hwf. destruct (walk_forest t Hwf (λ _, false) (length (heap t)) (Roots t) []) as (l & E & Hnd & Hin).
  - intros r Hr. apply (tw_root _ Hwf) in Hr as (n & Hn%lookup_lt_Some & _). apply walk_pruned_spec; [done..|lia].
  - apply Hwf.
  - intros r1 r2 q. by apply roots_disjoint.
  - constructor.
  - intros c q _ Hq. by apply elem_of_nil in Hq.
  - exists l. split.
    + unfold Walk. rewrite <- E. clear E Hin. generalize (Some (@nil nat)). induction (Roots t) as [|r rs IH]; intros acc; simpl; [done|].
      rewrite walkNode_pruned. apply IH.
    + apply NoDup_Permutation; [done|apply NoDup_seq|]. intros q. rewrite Hin, elem_of_seq. split.
      * intros [Hq|(r & _ & Hl)]; [by apply elem_of_nil in Hq|]. split; [lia|]. simpl.
        induction Hl as [p n Hn%lookup_lt_Some|]; done.
      * intros [_ Hq]. right. destruct (lookup_lt_is_Some_2 (heap t) q Hq) as [n Hn]. by eapply live_root.
Qed.
End tree.
Arguments Node : clear implicits.
Arguments Tree K V {_ _}.
