(* ===== verification/SpecArchive.v ===== *)
(** * Archive paths (internal/spec/archive.go)

    The logical path of a spec and its physical one under [specs/.archive/]. *)

From S2P Require Import Prelude GoStrings GoText.
From Stdlib Require Import Ascii String.
From stdpp Require Import list.
Local Open Scope string_scope.

Definition archiveSegment : string := ".archive".
Definition specsPrefix : string := "specs/".
Definition archivePrefix : string := specsPrefix +:+ archiveSegment +:+ "/".

Definition ArchivePath (logical : string) : string :=
  if HasPrefix logical archivePrefix then logical
  else match CutPrefix logical specsPrefix with
       | None => logical
       | Some rest => archivePrefix +:+ rest
       end.

Definition LogicalPath (physical : string) : string :=
  match CutPrefix physical archivePrefix with
  | None => physical
  | Some rest => specsPrefix +:+ rest
  end.

Definition IsArchivedPath (p : string) : bool := HasPrefix p archivePrefix.

(** ** Facts *)

Lemma archivePrefix_specs : archivePrefix = specsPrefix +:+ ".archive/".
Proof. done. Qed.

(** Archiving a live spec and reading its logical path back. *)
Lemma Logical_Archive p :
  IsArchivedPath p = false → HasPrefix p specsPrefix = true →
  IsArchivedPath (ArchivePath p) = true ∧ LogicalPath (ArchivePath p) = p.
Proof.
  intros Ha [r ->]%prefix_iff. unfold ArchivePath, IsArchivedPath in *. rewrite Ha.
  assert (CutPrefix (specsPrefix +:+ r) specsPrefix = Some r) as -> by (by apply CutPrefix_iff). split.
  - apply prefix_iff. eauto.
  - unfold LogicalPath. by rewrite (proj2 (CutPrefix_iff _ _ r) eq_refl).
Qed.

(** Restoring an archived one and archiving it again; the path of a second
    archive inside the first is not restored. *)
Lemma Archive_Logical p :
  IsArchivedPath p = true → IsArchivedPath (LogicalPath p) = false → ArchivePath (LogicalPath p) = p.
Proof.
  unfold IsArchivedPath, ArchivePath, LogicalPath. intros [r ->]%prefix_iff.
  rewrite (proj2 (CutPrefix_iff _ _ r) eq_refl). intros Ha. rewrite Ha. by rewrite (proj2 (CutPrefix_iff _ specsPrefix r) eq_refl).
Qed.

(** Both maps are idempotent, and other paths are left alone. *)
Lemma ArchivePath_idem p : ArchivePath (ArchivePath p) = ArchivePath p.
Proof.
  unfold ArchivePath. destruct (HasPrefix p archivePrefix) eqn:Ha; [by rewrite Ha|].
  destruct (CutPrefix p specsPrefix) as [r|] eqn:Hc; [|by rewrite Ha, Hc].
  assert (HasPrefix (archivePrefix +:+ r) archivePrefix = true) as -> by (apply prefix_iff; eauto). done.
Qed.
