(* ===== verification/SpecTree.v ===== *)
(** * The spec tree: model, lifecycle, progress (internal/spec)

    model.go, lifecycle.go, progress.go, subtree.go, serialize.go and the leaf
    collection of impact.go, over the trees of Tree.v.  A node's value is a
    pointer to a [Spec], [None] when nil.  The recursive functions follow
    pointers and take fuel, as in Tree.v; the entry points give them the number
    of nodes, which is enough on a well-formed tree. *)

From S2P Require Import Prelude StateMachine Tree.
From Stdlib Require Import String.
From stdpp Require Import list gmap sorting.
Local Open Scope Z_scope.
Local Open Scope string_scope.

(** ** model.go *)

Definition SpecStatus := string.
Definition StatusVague : SpecStatus := "vague".
Definition StatusDrafted : SpecStatus := "drafted".
Definition StatusValidated : SpecStatus := "validated".
Definition StatusTesting : SpecStatus := "testing".
Definition StatusComplete : SpecStatus := "complete".
Definition StatusStale : SpecStatus := "stale".
Definition StatusArchived : SpecStatus := "archived".

Definition Effort := string.
Definition EffortSmall : Effort := "small".
Definition EffortMedium : Effort := "medium".
Definition EffortLarge : Effort := "large".
Definition EffortXLarge : Effort := "xlarge".

(** Dates are instants in nanoseconds, [0] the zero time. *)
Record Spec := MkSpec {
  spec_Title : string;
  spec_Status : SpecStatus;
  spec_DependsOn : list string;
  spec_Affects : list string;
  spec_Effort : Effort;
  spec_Created : Z;
  spec_Updated : Z;
  spec_Author : string;
  spec_DispatchedTaskID : option string;
  spec_ImplementationCommit : option string;
  spec_TestingPending : option string;
  spec_Path : string;
  spec_Track : string;
  spec_Body : string;
  spec_PhysicalPath : string;
  spec_Doc : bool
}.

#[export] Instance eta_Spec : Eta Spec := λ s,
  MkSpec (spec_Title s) (spec_Status s) (spec_DependsOn s) (spec_Affects s) (spec_Effort s) (spec_Created s)
    (spec_Updated s) (spec_Author s) (spec_DispatchedTaskID s) (spec_ImplementationCommit s) (spec_TestingPending s)
    (spec_Path s) (spec_Track s) (spec_Body s) (spec_PhysicalPath s) (spec_Doc s).
#[export] Instance set_spec_Status : Setter spec_Status. Proof. derive_setter. Defined.
#[export] Instance set_spec_Path : Setter spec_Path. Proof. derive_setter. Defined.
#[export] Instance set_spec_Track : Setter spec_Track. Proof. derive_setter. Defined.
#[export] Instance set_spec_Body : Setter spec_Body. Proof. derive_setter. Defined.
#[export] Instance set_spec_PhysicalPath : Setter spec_PhysicalPath. Proof. derive_setter. Defined.

(** ** lifecycle.go *)

Definition StatusMachine : Machine SpecStatus := New (list_to_map [
  (StatusVague, [StatusDrafted; StatusArchived]);
  (StatusDrafted, [StatusValidated; StatusStale; StatusArchived]);
  (StatusValidated, [StatusTesting; StatusStale]);
  (StatusTesting, [StatusComplete; StatusStale; StatusArchived]);
  (StatusComplete, [StatusStale; StatusArchived]);
  (StatusStale, [StatusDrafted; StatusValidated; StatusArchived]);
  (StatusArchived, [StatusDrafted])]).

Definition ValidStatuses : list SpecStatus :=
  [StatusVague; StatusDrafted; StatusValidated; StatusTesting; StatusComplete; StatusStale; StatusArchived].

Definition ValidEfforts : list Effort := [EffortSmall; EffortMedium; EffortLarge; EffortXLarge].

(** ** tree.go: the tree type *)

Definition SNode := Node string (option Spec).
Definition STree := Tree string (option Spec).

(** Parse errors, collected beside the tree. *)
Record SpecTree := MkSpecTree { st_tree : STree; Errs : list string }.

Definition archived_node (n : SNode) : bool :=
  match Value n with Some s => bool_decide (spec_Status s = StatusArchived) | None => false end.

Definition ByTrack (t : STree) (track : string) : list nat :=
  omap (λ r, n ← heap t !! r; s ← Value n; if decide (spec_Track s = track) then Some r else None) (Roots t).

(** ** progress.go *)

Record Progress := MkProgress { pr_Complete : Z; pr_Total : Z }.

Definition zero_progress : Progress := MkProgress 0 0.

Definition add_progress (p cp : Progress) : Progress :=
  MkProgress (pr_Complete p + pr_Complete cp) (pr_Total p + pr_Total cp).

Definition leaf_progress (n : SNode) : Progress :=
  match Value n with
  | None => zero_progress
  | Some s => if spec_Doc s then zero_progress
              else if decide (spec_Status s = StatusComplete) then MkProgress 1 1 else MkProgress 0 1
  end.

Fixpoint NodeProgress (fuel : nat) (t : STree) (p : nat) : option Progress :=
  match fuel with
  | O => None
  | S fuel =>
    node ← heap t !! p;
    if archived_node node then Some zero_progress
    else if IsLeaf node then Some (leaf_progress node)
    else foldl (λ acc c, p ← acc; cp ← NodeProgress fuel t c; Some (add_progress p cp)) (Some zero_progress) (Children node)
  end.

(** [order] is the iteration order of [tree.All]. *)
Definition TreeProgress (order : list string) (t : STree) : option (gmap string Progress) :=
  foldl (λ acc path,
    result ← acc;
    match All t !! path with
    | None => Some result
    | Some p =>
      node ← heap t !! p;
      if IsLeaf node then Some result
      else pr ← NodeProgress (length (heap t)) t p; Some (<[path := pr]> result)
    end) (Some ∅) order.

(** ** subtree.go *)

Fixpoint subtree_walk (fuel : nat) (t : STree) (p : nat) (acc : list nat * list nat) : option (list nat * list nat) :=
  match fuel with
  | O => None
  | S fuel =>
    n ← heap t !! p;
    match Value n with
    | None => Some acc
    | Some s =>
      if spec_Doc s then Some acc
      else if decide (spec_Status s = StatusArchived) then Some acc
      else if IsLeaf n then Some ((acc.1 ++ [p])%list, acc.2)
      else foldl (λ acc c, a ← acc; subtree_walk fuel t c a) (Some (acc.1, (acc.2 ++ [p])%list)) (Children n)
    end
  end.

Definition key_of (t : STree) (p : nat) : string := from_option Key EmptyString (heap t !! p).

Definition key_le (t : STree) (a b : nat) : Prop := String.le (key_of t a) (key_of t b).

#[export] Instance key_le_dec t : RelDecision (key_le t).
Proof. intros a b. unfold key_le. apply _. Defined.

Definition SubtreeSpecs (t : STree) (root : string) : option (list nat * list nat) :=
  match All t !! root with
  | None => Some ([], [])
  | Some p =>
    node ← heap t !! p;
    match Value node with
    | None => Some ([], [])
    | Some s =>
      if decide (spec_Status s = StatusArchived) then Some ([], [])
      else '(leaves, nonLeaves) ← subtree_walk (length (heap t)) t p ([], []);
           Some (merge_sort (key_le t) leaves, nonLeaves)
    end
  end.

(** ** impact.go: the leaves of a subtree *)

Definition leaf_step (rec : nat → list string → option (list string)) (t : STree) (acc : option (list string)) (c : nat)
  : option (list string) :=
  paths ← acc;
  child ← heap t !! c;
  match Value child with
  | None => Some paths
  | Some s =>
    if decide (spec_Status s = StatusArchived) then Some paths
    else if IsLeaf child then Some (paths ++ [Key child])%list
    else rec c paths
  end.

Fixpoint collectLeafPaths (fuel : nat) (t : STree) (p : nat) (paths : list string) : option (list string) :=
  match fuel with
  | O => None
  | S fuel =>
    node ← heap t !! p;
    foldl (leaf_step (collectLeafPaths fuel t) t) (Some paths) (Children node)
  end.

(** ** serialize.go *)

Record NodeResponse := MkNodeResponse {
  nr_Path : string;
  nr_Spec : Spec;
  nr_Children : list string;
  nr_IsLeaf : bool;
  nr_Depth : Z
}.

Record TreeResponse := MkTreeResponse { tr_Nodes : list NodeResponse; tr_Progress : gmap string Progress }.

Definition node_response (t : STree) (p : nat) : option NodeResponse :=
  node ← heap t !! p;
  s ← Value node;
  Some (MkNodeResponse (Key node) s (key_of t <$> Children node) (IsLeaf node) (Depth node)).

Definition SerializeTree (order : list string) (t : STree) : option TreeResponse :=
  walk ← Walk t;
  progress ← TreeProgress order t;
  Some (MkTreeResponse (omap (node_response t) walk) progress).

(** ** Progress counts the live leaves *)

Section progress.
Context (t : STree) (Hwf : tree_wf t).

(** A leaf that counts: not archived, no archived ancestor up to [p], and not a
    document without a lifecycle. *)
Definition counted_node (n : SNode) : bool :=
  IsLeaf n && match Value n with Some s => negb (spec_Doc s) | None => false end.

Definition complete_node (n : SNode) : bool :=
  match Value n with Some s => bool_decide (spec_Status s = StatusComplete) | None => false end.

Definition counted (q : nat) : Prop := from_option (λ n, counted_node n = true) False (heap t !! q).
Definition complete (q : nat) : Prop := from_option (λ n, complete_node n = true) False (heap t !! q).

#[export] Instance counted_dec q : Decision (counted q).
Proof. unfold counted. destruct (heap t !! q); simpl; apply _. Defined.

#[export] Instance complete_dec q : Decision (complete q).
Proof. unfold complete. destruct (heap t !! q); simpl; apply _. Defined.

Definition count_leaves (l : list nat) : Progress :=
  MkProgress (Z.of_nat (length (filter complete (filter counted l)))) (Z.of_nat (length (filter counted l))).

Lemma count_leaves_app l1 l2 : count_leaves (l1 ++ l2) = add_progress (count_leaves l1) (count_leaves l2).
Proof. unfold count_leaves, add_progress. simpl. rewrite !filter_app, !length_app. f_equal; lia. Qed.

Lemma count_leaves_one p n :
  heap t !! p = Some n →
  count_leaves [p] = if counted_node n then MkProgress (if complete_node n then 1 else 0) 1 else zero_progress.
Proof.
  intros Hn. unfold count_leaves. rewrite filter_cons, filter_nil. case_decide as Hc; unfold counted in Hc; rewrite Hn in Hc; simpl in Hc.
  - rewrite Hc. rewrite filter_cons, filter_nil. case_decide as Hk; unfold complete in Hk; rewrite Hn in Hk; simpl in Hk.
    + by rewrite Hk.
    + apply not_true_is_false in Hk. by rewrite Hk.
  - apply not_true_is_false in Hc. by rewrite Hc.
Qed.

(** The recursion computes a sum over the pre-order. *)
Lemma NodeProgress_walk fuel p l :
  walk_pruned archived_node fuel t p = Some l → NodeProgress fuel t p = Some (count_leaves l).
Proof.
  revert p l. induction fuel as [|fuel IH]; intros p l; simpl; [done|]. destruct (heap t !! p) as [n|] eqn:Hn; simpl; [|done].
  destruct (archived_node n); [by intros [= <-]|]. pose proof (count_leaves_one p n Hn) as E0.
  pose proof (tw_leaf _ Hwf _ _ Hn) as Hleaf. unfold counted_node in E0. destruct (IsLeaf n) eqn:El; simpl in E0.
  - symmetry in Hleaf. apply bool_decide_eq_true in Hleaf. rewrite Hleaf. simpl. intros [= <-]. rewrite E0. f_equal.
    unfold leaf_progress, complete_node. destruct (Value n) as [s|]; [|done]. destruct (spec_Doc s); simpl; [done|].
    case_bool_decide; case_decide; done.
  - clear Hleaf.
    rewrite <- E0. generalize [p]. intros l0. clear E0 Hn El. revert l0. induction (Children n) as [|c cs IHc]; intros l0; simpl; [by intros [= <-]|].
    destruct (walk_pruned archived_node fuel t c) as [lc|] eqn:Ec; simpl.
    + rewrite (IH _ _ Ec). simpl. rewrite <- count_leaves_app. apply IHc.
    + by rewrite append_all_None.
Qed.

(** [NodeProgress] terminates and counts each live leaf below a node once:
    [Total] is the number of leaves that are reached from the node without
    passing an archived one and that are not plain documents, [Complete] the
    number of those that are complete. *)
Theorem NodeProgress_spec p n :
  heap t !! p = Some n →
  ∃ leaves, NoDup leaves ∧ (∀ q, q ∈ leaves ↔ live archived_node t p q ∧ counted q) ∧
    NodeProgress (length (heap t)) t p =
      Some (MkProgress (Z.of_nat (length (filter complete leaves))) (Z.of_nat (length leaves))).
Proof.
  intros Hn. pose proof (lookup_lt_Some _ _ _ Hn) as Hlt.
  destruct (walk_pruned_spec t Hwf archived_node (length (heap t)) p) as (l & E & Hnd & Hin); [done|lia|].
  exists (filter counted l). split; [by apply NoDup_filter|]. split.
  - intros q. rewrite list_elem_of_filter, Hin. tauto.
  - by apply NodeProgress_walk.
Qed.
End progress.

(** ** The leaves and inner nodes of a subtree *)

Section subtree.
Context (t : STree) (Hwf : tree_wf t).

Definition leaf_at (q : nat) : Prop := from_option (λ n, IsLeaf n = true) False (heap t !! q).

#[export] Instance leaf_at_dec q : Decision (leaf_at q).
Proof. unfold leaf_at. destruct (heap t !! q); simpl; apply _. Defined.

Lemma leaf_at_lookup q n : heap t !! q = Some n → leaf_at q ↔ IsLeaf n = true.
Proof. unfold leaf_at. intros ->. done. Qed.

(** Nodes that have no lifecycle to move: absent, documents and archived ones. *)
Definition inert_node (n : SNode) : bool :=
  match Value n with None => true | Some s => spec_Doc s || bool_decide (spec_Status s = StatusArchived) end.

Lemma subtree_walk_pruned fuel p l acc :
  walk_pruned inert_node fuel t p = Some l →
  subtree_walk fuel t p acc = Some (acc.1 ++ filter leaf_at l, acc.2 ++ filter (λ q, ¬ leaf_at q) l)%list.
Proof.
  revert p l acc. induction fuel as [|fuel IH]; intros p l acc; simpl; [done|]. destruct (heap t !! p) as [n|] eqn:Hn; simpl; [|done].
  unfold inert_node at 1. destruct (Value n) as [s|]; [|intros [= <-]; by rewrite !filter_nil, !app_nil_r, <- surjective_pairing].
  destruct (spec_Doc s); simpl; [intros [= <-]; by rewrite !filter_nil, !app_nil_r, <- surjective_pairing|].
  case_bool_decide; [intros [= <-]; rewrite decide_True by done; by rewrite !filter_nil, !app_nil_r, <- surjective_pairing|].
  rewrite decide_False by done. pose proof (tw_leaf _ Hwf _ _ Hn) as Hleaf. pose proof (leaf_at_lookup p n Hn) as Hat.
  destruct (IsLeaf n) eqn:El.
  - symmetry in Hleaf. apply bool_decide_eq_true in Hleaf. rewrite Hleaf. simpl. intros [= <-].
    rewrite !filter_cons, !filter_nil, decide_True, decide_False, app_nil_r by tauto. done.
  - assert (filter leaf_at [p] = [] ∧ filter (λ q, ¬ leaf_at q) [p] = [p]) as [E1 E2].
    { rewrite !filter_cons, !filter_nil, decide_False, decide_True by naive_solver. done. }
    replace (acc.1, (acc.2 ++ [p])%list) with ((acc.1 ++ filter leaf_at [p], acc.2 ++ filter (λ q, ¬ leaf_at q) [p])%list)
      by (by rewrite E1, E2, app_nil_r).
    generalize [p]. intros l0. clear -IH. revert l0. induction (Children n) as [|c cs IHc]; intros l0; simpl; [by intros [= <-]|].
    destruct (walk_pruned inert_node fuel t c) as [lc|] eqn:Ec; simpl.
    + rewrite (IH _ _ _ Ec). simpl. rewrite <- !app_assoc, <- !filter_app. apply IHc.
    + by rewrite append_all_None.
Qed.

#[export] Instance key_le_total : Total (key_le t).
Proof. intros a b. unfold key_le. apply (total String.le). Qed.

#[export] Instance key_le_trans : Transitive (key_le t).
Proof. intros a b c. unfold key_le. apply transitivity. Qed.

(** Dispatching a subtree considers exactly its live part: the leaves and the
    inner nodes reached from the root without passing an archived node or a
    document, each once, the leaves sorted by path. *)
Theorem SubtreeSpecs_spec root p n s :
  All t !! root = Some p → heap t !! p = Some n → Value n = Some s → spec_Status s ≠ StatusArchived →
  ∃ leaves inner, SubtreeSpecs t root = Some (leaves, inner) ∧ NoDup leaves ∧ NoDup inner ∧
    StronglySorted (key_le t) leaves ∧
    (∀ q, q ∈ leaves ↔ live inert_node t p q ∧ leaf_at q) ∧ (∀ q, q ∈ inner ↔ live inert_node t p q ∧ ¬ leaf_at q).
Proof.
  intros Hr Hn Hv Hs. pose proof (lookup_lt_Some _ _ _ Hn) as Hlt.
  destruct (walk_pruned_spec t Hwf inert_node (length (heap t)) p) as (l & E & Hnd & Hin); [done|lia|].
  unfold SubtreeSpecs. rewrite Hr, Hn. simpl. rewrite Hv, decide_False by done.
  rewrite (subtree_walk_pruned _ _ _ _ E). simpl. do 2 eexists. split; [done|].
  split; [rewrite merge_sort_Permutation; by apply NoDup_filter|]. split; [by apply NoDup_filter|].
  split; [apply StronglySorted_merge_sort; apply _|].
  split; intros q; [rewrite merge_sort_Permutation|]; rewrite list_elem_of_filter, Hin; tauto.
Qed.

(** [collectLeafPaths] prunes absent and archived nodes only. *)
Definition dead_node (n : SNode) : bool :=
  match Value n with None => true | Some s => bool_decide (spec_Status s = StatusArchived) end.

Lemma collectLeafPaths_S fuel p paths :
  collectLeafPaths (S fuel) t p paths =
  (node ← heap t !! p; foldl (leaf_step (collectLeafPaths fuel t) t) (Some paths) (Children node)).
Proof. done. Qed.

Lemma collectLeafPaths_walk fuel p n l paths :
  heap t !! p = Some n → append_all (walk_pruned dead_node fuel t) (Some []) (Children n) = Some l →
  collectLeafPaths (S fuel) t p paths = Some (paths ++ (key_of t <$> filter leaf_at l))%list.
Proof.
  revert p n l paths. induction fuel as [|fuel IH]; intros p n l paths Hn Hf; rewrite collectLeafPaths_S, Hn;
    cbn [mbind option_bind]; revert Hf;
    replace paths with (paths ++ (key_of t <$> filter leaf_at []))%list at 1 by apply app_nil_r;
    generalize (@nil nat); clear Hn; induction (Children n) as [|c cs IHc]; intros l0; cbn [foldl]; try (by intros [= <-]);
    cbn [mbind option_bind]; [by rewrite append_all_None|].
  destruct (walk_pruned dead_node (S fuel) t c) as [lc|] eqn:Ec; cbn [mbind option_bind]; [|by rewrite append_all_None].
  intros Hrest. rewrite <- (IHc _ Hrest). f_equal. unfold leaf_step. simpl in Ec. cbn [mbind option_bind].
  destruct (heap t !! c) as [m|] eqn:Hm; simpl in Ec; cbn [mbind option_bind]; [|done]. unfold dead_node at 1 in Ec.
  destruct (Value m) as [s|]; [|injection Ec as <-; by rewrite app_nil_r].
  case_bool_decide; [rewrite decide_True by done; injection Ec as <-; by rewrite app_nil_r|]. rewrite decide_False by done.
  pose proof (tw_leaf _ Hwf _ _ Hm) as Hleaf. pose proof (leaf_at_lookup c m Hm) as Hat. destruct (IsLeaf m) eqn:El.
  - symmetry in Hleaf. apply bool_decide_eq_true in Hleaf. rewrite Hleaf in Ec. simpl in Ec. injection Ec as <-.
    rewrite filter_app, filter_cons, filter_nil, decide_True, fmap_app, app_assoc by tauto. simpl. unfold key_of at 3. by rewrite Hm.
  - apply append_all_cons in Ec as (lc' & -> & Hlc).
    rewrite (IH _ _ _ _ Hm Hlc), filter_app, filter_cons, decide_False, fmap_app, app_assoc by naive_solver. done.
Qed.
End subtree.

(** ** A small tree *)

Module TreeRun.
Definition spec_of (path : string) (status : SpecStatus) (deps affects : list string) : Spec :=
  MkSpec "A title" status deps affects EffortSmall 1 2 "Ada" None None None path "local" "Body" EmptyString false.

Definition grow (t : STree) (s : Spec) (parent : option string) : STree := (Tree.Add (spec_Path s) (Some s) parent t).1.

(** [a.md] depends on [b.md] and has the children [a/x.md] and [a/y.md]. *)
Definition demo : STree :=
  grow (grow (grow (grow New_tree
    (spec_of "specs/local/a.md" StatusValidated ["specs/local/b.md"] ["src/a"]) None)
    (spec_of "specs/local/a/x.md" StatusComplete [] ["src/a/x"]) (Some "specs/local/a.md"))
    (spec_of "specs/local/a/y.md" StatusValidated [] []) (Some "specs/local/a.md"))
    (spec_of "specs/local/b.md" StatusComplete [] ["src/b"]) None.

Definition keys : list string := ["specs/local/b.md"; "specs/local/a.md"; "specs/local/a/y.md"; "specs/local/a/x.md"].

Lemma demo_wf : tree_wf demo.
Proof. unfold demo, grow. repeat apply Add_wf. apply New_wf. Qed.

Lemma demo_unique : tree_unique demo.
Proof.
  unfold demo, grow. repeat (apply Add_unique; [repeat apply Add_wf; apply New_wf|vm_compute; reflexivity|]).
  intros p n Hn. vm_compute in Hn. discriminate.
Qed.

Lemma NodeProgress_spec_witness :
  NodeProgress 4 demo 0 = Some (MkProgress 1 2) ∧
  ∃ leaves, NoDup leaves ∧ NodeProgress (length (heap demo)) demo 0 =
    Some (MkProgress (Z.of_nat (length (filter (complete demo) leaves))) (Z.of_nat (length leaves))).
Proof.
  split; [vm_compute; reflexivity|].
  destruct (heap demo !! 0%nat) as [n|] eqn:E; [|vm_compute in E; discriminate].
  destruct (NodeProgress_spec demo demo_wf 0 n E) as (leaves & Hnd & _ & Hp). exists leaves. split; [exact Hnd|exact Hp].
Defined.

Lemma SubtreeSpecs_spec_witness :
  SubtreeSpecs demo "specs/local/a.md" = Some ([1; 2]%nat, [0]%nat) ∧
  ∃ leaves inner, SubtreeSpecs demo "specs/local/a.md" = Some (leaves, inner) ∧ StronglySorted (key_le demo) leaves.
Proof.
  split; [vm_compute; reflexivity|].
  destruct (heap demo !! 0%nat) as [n|] eqn:E; [|vm_compute in E; discriminate].
  destruct (Value n) as [s|] eqn:Ev; [|vm_compute in E; injection E as <-; discriminate].
  destruct (SubtreeSpecs_spec demo demo_wf "specs/local/a.md" 0 n s) as (leaves & inner & Hl & _ & _ & Hs & _);
    [vm_compute; reflexivity|exact E|exact Ev| |exists leaves, inner; split; [exact Hl|exact Hs]].
  vm_compute in E. injection E as <-. injection Ev as <-. discriminate.
Defined.
End TreeRun.
