(* ===== verification/SpecGraph.v ===== *)
(** * The spec dependency graph and stale propagation (internal/spec)

    impact.go, propagation.go, staleness.go and drift.go.  Where the code ranges
    over a map the iteration order is an argument; where it turns a set into a
    slice by ranging over it, [enum] is the enumeration it meets.

    [FanOutStale] writes files through [UpdateFrontmatter], here the argument
    [update], which gets the resolved path and the state of the file system. *)

From S2P Require Import Prelude Dag StateMachine GoStrings GoText TaskModel Tree SpecTree.
From Stdlib Require Import Ascii String SpecFloat.
From stdpp Require Import list gmap sorting.
Local Open Scope Z_scope.

(** ** impact.go *)

Definition spec_at (t : STree) (path : string) : option Spec :=
  p ← All t !! path; n ← heap t !! p; Value n.

(** The target exists and is archived. *)
Definition archived_dep (t : STree) (dep : string) : bool :=
  match spec_at t dep with Some s => bool_decide (spec_Status s = StatusArchived) | None => false end.

Definition live_edges (t : STree) (v : option Spec) : list string :=
  match v with
  | None => []
  | Some s => if decide (spec_Status s = StatusArchived) then []
              else filter (λ dep, archived_dep t dep = false) (spec_DependsOn s)
  end.

Definition Adjacency (t : STree) : gmap string (list string) :=
  (λ p, from_option (λ n, live_edges t (Value n)) [] (heap t !! p)) <$> All t.

Record Impact := MkImpact { imp_Direct : list string; imp_Transitive : list string }.

Definition impact_seeds (t : STree) (specPath : string) : option (list string) :=
  match All t !! specPath with
  | None => Some [specPath]
  | Some p =>
    node ← heap t !! p;
    if IsLeaf node then Some [specPath] else collectLeafPaths (length (heap t)) t p [specPath]
  end.

Definition direct_set (reverse : gmap string (list string)) (specPath : string) (seeds : list string) : gset string :=
  foldl (λ acc seed,
    foldl (λ acc dep, if decide (dep = specPath) then acc else {[dep]} ∪ acc) acc (succs reverse seed)) ∅ seeds.

Definition transitive_set (reverse : gmap string (list string)) (specPath : string) (direct : gset string)
    (order : list string) : option (gset string) :=
  foldl (λ acc d,
    a ← acc;
    r ← Reachable reverse d;
    Some (a ∪ (filter (λ x, ¬ (x ∈ direct) ∧ x ≠ specPath) r))) (Some ∅) order.

Definition ComputeImpact (rorder : list string) (enum : gset string → list string) (t : STree) (specPath : string)
  : option Impact :=
  if archived_dep t specPath then Some (MkImpact [] [])
  else
    let reverse := ReverseEdges rorder (Adjacency t) in
    seeds ← impact_seeds t specPath;
    let direct := direct_set reverse specPath seeds in
    trans ← transitive_set reverse specPath direct (enum direct);
    Some (MkImpact (enum direct) (enum trans)).

(** A dependency holds nothing up when it is complete, archived or missing. *)
Definition dep_settled (t : STree) (dep : string) : bool :=
  match spec_at t dep with
  | None => true
  | Some s => bool_decide (spec_Status s = StatusComplete) || bool_decide (spec_Status s = StatusArchived)
  end.

Definition allDepsComplete (t : STree) (s : Spec) : bool := forallb (dep_settled t) (spec_DependsOn s).

Definition UnblockedSpecs (rorder : list string) (t : STree) (completedPath : string) : list nat :=
  let reverse := ReverseEdges rorder (Adjacency t) in
  omap (λ dependent,
    p ← All t !! dependent;
    n ← heap t !! p;
    s ← Value n;
    if bool_decide (spec_Status s = StatusComplete) || bool_decide (spec_Status s = StatusArchived) then None
    else if allDepsComplete t s then Some p else None) (succs reverse completedPath).

(** ** propagation.go *)

(** [filepath.ToSlash] is the identity on Unix. *)
Definition normalizeAffect (e : string) : string := trim_right (is_ascii slash) e.

Definition affectContains (dir path : string) : bool :=
  bool_decide (dir = path) || HasPrefix path (dir +:+ sl).

Definition affectsOverlap (a b : string) : bool := affectContains a b || affectContains b a.

(** The normalized entries of a list, without the empty one. *)
Definition normalized (l : list string) : list string := filter (λ x, x ≠ EmptyString) (normalizeAffect <$> l).

(** A spec that takes part in the affects index. *)
Definition affecting (s : Spec) : bool := negb (spec_Doc s) && negb (bool_decide (spec_Status s = StatusArchived)).

Fixpoint index_affects (path : string) (affects : list string) (seen : gset string) (idx : gmap string (list string))
  : gmap string (list string) :=
  match affects with
  | [] => idx
  | e :: rest =>
    let key := normalizeAffect e in
    if bool_decide (key = EmptyString) || bool_decide (key ∈ seen) then index_affects path rest seen idx
    else index_affects path rest ({[key]} ∪ seen) (<[key := (default [] (idx !! key) ++ [path])%list]> idx)
  end.

Definition affectsToSpecs (order : list string) (t : STree) : gmap string (list string) :=
  foldl (λ idx path,
    match spec_at t path with
    | Some s => if affecting s then index_affects path (spec_Affects s) ∅ idx else idx
    | None => idx
    end) ∅ order.

Definition DependsOnImpact (rorder : list string) (t : STree) (source : string) : list string :=
  filter (λ dep, dep ≠ source) (succs (ReverseEdges rorder (Adjacency t)) source).

Definition string_sort (l : list string) : list string := merge_sort String.le l.

Definition setToSorted (X : gset string) : list string := string_sort (elements X).

(** The loop over the index shared by the two directions of the affects channel;
    [hits] says whether an entry is concerned. *)
Definition impacted_by (hits : string → bool) (source : string) (idx : gmap string (list string)) (iorder : list string)
  : gset string :=
  foldl (λ acc entry,
    if hits entry then list_to_set (filter (λ p, p ≠ source) (default [] (idx !! entry))) ∪ acc else acc) ∅ iorder.

Definition AffectsImpactFromDiff (order iorder : list string) (t : STree) (changedFiles : list string) (source : string)
  : list string :=
  let files := normalized changedFiles in
  setToSorted (impacted_by (λ entry, existsb (affectContains entry) files) source (affectsToSpecs order t) iorder).

Definition AffectsImpactFromSpec (order iorder : list string) (t : STree) (source : string) : list string :=
  match spec_at t source with
  | None => []
  | Some s =>
    let srcAffects := normalized (spec_Affects s) in
    setToSorted (impacted_by (λ entry, existsb (λ sa, affectsOverlap sa entry) srcAffects) source (affectsToSpecs order t) iorder)
  end.

Section fan_out.
Context {FS : Type} (update : string → FS → result string unit * FS) (resolve : string → string).

(** The spec may be marked stale and has a file. *)
Definition fan_target (t : STree) (path : string) : option string :=
  s ← spec_at t path;
  if decide (spec_Status s = StatusArchived) then None
  else if CanTransition StatusMachine (spec_Status s) StatusStale
       then (if decide (resolve path = EmptyString) then None else Some (resolve path))
       else None.

Fixpoint fan_loop (t : STree) (paths : list string) (applied : list string) (errs : list string) (fs : FS)
  : list string * list string * FS :=
  match paths with
  | [] => (applied, errs, fs)
  | path :: rest =>
    match fan_target t path with
    | None => fan_loop t rest applied errs fs
    | Some abs =>
      match update abs fs with
      | (Err e, fs) => fan_loop t rest applied (errs ++ [e])%list fs
      | (Ok _, fs) => fan_loop t rest (applied ++ [path])%list errs fs
      end
    end
  end.

(** The paths marked stale, the errors that are joined, and the files. *)
Definition FanOutStale (t : STree) (impacted : list string) (fs : FS) : list string * list string * FS :=
  fan_loop t (string_sort impacted) [] [] fs.
End fan_out.

(** ** staleness.go: [changedSince] is the handler's git query *)

Record StaleCandidate := MkStale { sc_Path : string; sc_Files : list string }.

Definition stale_candidate (changedSince : Z → list string → option (list string)) (t : STree) (path : string)
  : option StaleCandidate :=
  s ← spec_at t path;
  if spec_Doc s || negb (bool_decide (spec_Status s = StatusComplete)) || bool_decide (spec_Affects s = []) then None
  else changed ← changedSince (spec_Updated s) (spec_Affects s);
       if decide (changed = []) then None else Some (MkStale path changed).

Definition candidate_le (a b : StaleCandidate) : Prop := String.le (sc_Path a) (sc_Path b).

#[export] Instance candidate_le_dec : RelDecision candidate_le.
Proof. intros a b. unfold candidate_le. apply _. Defined.

Definition ScanStaleCandidates (order : list string) (changedSince : Z → list string → option (list string)) (t : STree)
  : list StaleCandidate :=
  merge_sort candidate_le (omap (stale_candidate changedSince t) order).

(** ** drift.go *)

Record DriftCriteria := MkCriteria {
  Satisfied : Z;
  Diverged : Z;
  NotImplemented : Z;
  Superseded : Z;
  dc_Total : Z;
  Notes : string
}.

Record DriftVerdict := MkVerdict {
  ExpectedFiles : list string;
  ActualFiles : list string;
  Unexpected : list string;
  Missing : list string;
  dv_Criteria : DriftCriteria;
  Summary : string
}.

Inductive DriftLevel := DriftMinimal | DriftModerate | DriftSignificant.

(** The double nearest to [n/d]. *)
Definition f64_lit (n d : Z) : float64 := f64_div (f64_of_Z n) (f64_of_Z d).

Definition ClassifyDrift (v : DriftVerdict) : DriftLevel :=
  let u := Z.of_nat (length (Unexpected v)) in
  let m := Z.of_nat (length (Missing v)) in
  let c := dv_Criteria v in
  if Z.eqb (dc_Total c) 0 then
    if Z.eqb u 0 && Z.eqb m 0 then DriftMinimal
    else if Z.leb u 3 && Z.eqb m 0 then DriftModerate
    else DriftSignificant
  else
    let satisfiedRatio := f64_div (f64_of_Z (Satisfied c)) (f64_of_Z (dc_Total c)) in
    if SFleb (f64_lit 9 10) satisfiedRatio && Z.leb u 1 then DriftMinimal
    else if SFleb (f64_lit 7 10) satisfiedRatio && Z.leb u 3 then DriftModerate
    else DriftSignificant.

Definition DriftOutcome (level : DriftLevel) : SpecStatus * bool :=
  match level with
  | DriftMinimal => (StatusComplete, false)
  | DriftModerate => (StatusComplete, true)
  | DriftSignificant => (StatusStale, true)
  end.

(** ** The dependency relation *)

Section impact.
Context (t : STree) (Hwf : tree_wf t).

(** [x] is a live spec that depends on [y], which is not an archived spec. *)
Definition depends (x y : string) : Prop :=
  ∃ s, spec_at t x = Some s ∧ spec_Status s ≠ StatusArchived ∧ y ∈ spec_DependsOn s ∧ archived_dep t y = false.

Lemma Adjacency_edge x y : edge (Adjacency t) x y ↔ depends x y.
Proof.
  unfold edge, succs, Adjacency, depends, spec_at. rewrite lookup_fmap. destruct (All t !! x) as [p|]; simpl;
    [|split; [by intros ?%elem_of_nil|by intros (? & ? & _)]].
  destruct (heap t !! p) as [n|]; simpl; [|split; [by intros ?%elem_of_nil|by intros (? & ? & _)]].
  unfold live_edges. destruct (Value n) as [s|]; [|split; [by intros ?%elem_of_nil|by intros (? & ? & _)]].
  case_decide as Ha; [split; [by intros ?%elem_of_nil|intros (s' & [= <-] & ? & _); done]|].
  rewrite list_elem_of_filter. naive_solver.
Qed.

(** The dependents of a path, as the reversed graph has them. *)
Lemma dependents_elem rorder x y :
  range_order (Adjacency t) rorder → x ∈ succs (ReverseEdges rorder (Adjacency t)) y ↔ depends x y.
Proof. intros Hr. destruct (ReverseEdges_spec (Adjacency t) rorder Hr) as [He _]. rewrite <- Adjacency_edge. apply He. Qed.

(** The seeds: the path itself and the live leaves below it. *)
Definition seed (path s : string) : Prop :=
  s = path ∨ ∃ p n c q, All t !! path = Some p ∧ heap t !! p = Some n ∧ c ∈ Children n ∧
    live dead_node t c q ∧ leaf_at t q ∧ s = key_of t q.

Lemma impact_seeds_spec path : ∃ seeds, impact_seeds t path = Some seeds ∧ ∀ s, s ∈ seeds ↔ seed path s.
Proof.
  unfold impact_seeds. destruct (All t !! path) as [p|] eqn:Hp.
  2: { exists [path]. split; [done|]. intros s. rewrite list_elem_of_singleton. split; [by left|]. intros [->|(? & ? & ? & ? & ? & _)]; [done|congruence]. }
  destruct (tw_all _ Hwf _ _ Hp) as (n & Hn & _). rewrite Hn. simpl. pose proof (tw_leaf _ Hwf _ _ Hn) as Hleaf. destruct (IsLeaf n).
  { symmetry in Hleaf. apply bool_decide_eq_true in Hleaf. exists [path]. split; [done|]. intros s. rewrite list_elem_of_singleton.
    split; [by left|]. intros [->|(p' & n' & c & ? & ? & ? & Hc & _)]; [done|]. simplify_eq. rewrite Hleaf in Hc. by apply elem_of_nil in Hc. }
  pose proof (lookup_lt_Some _ _ _ Hn) as Hlt. destruct (length (heap t)) as [|fuel] eqn:El; [lia|].
  destruct (walk_forest t Hwf dead_node fuel (Children n) []) as (l & E & _ & Hin).
  - intros c Hc. destruct (tw_child _ Hwf _ _ _ Hn Hc) as (? & m & Hm%lookup_lt_Some & _). apply walk_pruned_spec; [done|lia|lia].
  - by eapply tw_children.
  - intros c1 c2 q H1 H2. apply (siblings_disjoint t Hwf dead_node p); by exists n.
  - constructor.
  - intros c q _ Hq. by apply elem_of_nil in Hq.
  - rewrite (collectLeafPaths_walk t Hwf fuel p n l [path] Hn E). eexists. split; [done|]. intros s.
    rewrite elem_of_app, list_elem_of_singleton, list_elem_of_fmap. unfold seed. setoid_rewrite list_elem_of_filter. setoid_rewrite Hin.
    setoid_rewrite elem_of_nil. naive_solver.
Qed.

Lemma direct_set_elem reverse path seeds x :
  x ∈ direct_set reverse path seeds ↔ x ≠ path ∧ ∃ s, s ∈ seeds ∧ x ∈ succs reverse s.
Proof.
  unfold direct_set. assert (∀ acc : gset string, x ∈ foldl (λ acc seed,
    foldl (λ acc dep, if decide (dep = path) then acc else {[dep]} ∪ acc) acc (succs reverse seed)) acc seeds ↔
    x ∈ acc ∨ x ≠ path ∧ ∃ s, s ∈ seeds ∧ x ∈ succs reverse s) as ->; [|set_solver].
  assert (∀ deps (acc : gset string), x ∈ foldl (λ acc dep, if decide (dep = path) then acc else {[dep]} ∪ acc) acc deps ↔
    x ∈ acc ∨ x ≠ path ∧ x ∈ deps) as Hinner.
  { intros deps. induction deps as [|d deps IH]; intros acc; simpl; [set_solver|]. rewrite IH. case_decide; set_solver. }
  induction seeds as [|s seeds IH]; intros acc; simpl; [set_solver|]. rewrite IH, Hinner. set_solver.
Qed.

Lemma transitive_set_elem reverse path direct order :
  ∃ r, transitive_set reverse path direct order = Some r ∧
    ∀ x, x ∈ r ↔ (x ∉ direct) ∧ x ≠ path ∧ ∃ d, d ∈ order ∧ x ≠ d ∧ rtc (edge reverse) d x.
Proof.
  unfold transitive_set. assert (∀ acc : gset string, ∃ r, foldl (λ acc d, a ← acc; r ← Reachable reverse d;
    Some (a ∪ filter (λ x, ¬ (x ∈ direct) ∧ x ≠ path) r)) (Some acc) order = Some r ∧
    ∀ x, x ∈ r ↔ x ∈ acc ∨ (x ∉ direct) ∧ x ≠ path ∧ ∃ d, d ∈ order ∧ x ≠ d ∧ rtc (edge reverse) d x) as Hgen.
  { induction order as [|d order IH]; intros acc; simpl; [exists acc; split; [done|set_solver]|].
    destruct (Reachable_spec reverse d) as (rd & -> & Hrd). simpl. destruct (IH (acc ∪ filter (λ x, ¬ (x ∈ direct) ∧ x ≠ path) rd)) as (r & E & Hr).
    exists r. split; [done|]. intros x. rewrite Hr, elem_of_union, elem_of_filter, Hrd. set_solver. }
  destruct (Hgen ∅) as (r & E & Hr). exists r. split; [done|]. intros x. rewrite Hr. set_solver.
Qed.

(** Whoever depends on a seed, however far, does so through a direct dependent. *)
Lemma through_direct path x s :
  seed path s → tc depends x s → x ≠ path → ∃ d s', d ≠ path ∧ seed path s' ∧ depends d s' ∧ rtc depends x d.
Proof.
  intros Hs Htc. induction Htc as [x y Hxy|x y z Hxy _ IH]; intros Hx; [by exists x, y|].
  destruct (decide (y = path)) as [->|Hy].
  - exists x, path. split_and!; [done|by left|done|done].
  - destruct (IH Hs Hy) as (d & s' & ? & ? & ? & ?). exists d, s'. split_and!; [done..|]. by eapply rtc_l.
Qed.

(** C39: the impact of a spec.  The direct dependents are the live specs, other
    than the spec itself, that depend on it or on a live leaf below it; direct
    and transitive ones together are exactly those that reach such a seed
    through any number of dependencies; the two lists do not overlap.  The
    computation terminates also on cyclic dependencies. *)
Theorem ComputeImpact_spec rorder enum path :
  range_order (Adjacency t) rorder → (∀ X : gset string, enum X ≡ₚ elements X) → archived_dep t path = false →
  ∃ imp, ComputeImpact rorder enum t path = Some imp ∧ NoDup (imp_Direct imp ++ imp_Transitive imp) ∧
    (∀ x, x ∈ imp_Direct imp ↔ x ≠ path ∧ ∃ s, seed path s ∧ depends x s) ∧
    (∀ x, x ∈ imp_Direct imp ∨ x ∈ imp_Transitive imp ↔ x ≠ path ∧ ∃ s, seed path s ∧ tc depends x s).
Proof.
  intros Hr Henum Harch. unfold ComputeImpact. rewrite Harch. set (reverse := ReverseEdges rorder (Adjacency t)).
  destruct (impact_seeds_spec path) as (seeds & -> & Hseeds). simpl. set (direct := direct_set reverse path seeds).
  destruct (transitive_set_elem reverse path direct (enum direct)) as (trans & -> & Htrans). simpl.
  assert (∀ x, x ∈ direct ↔ x ≠ path ∧ ∃ s, seed path s ∧ depends x s) as Hdir.
  { intros x. unfold direct. rewrite direct_set_elem. setoid_rewrite Hseeds. unfold reverse. by setoid_rewrite (dependents_elem rorder x _ Hr). }
  assert (∀ X x, x ∈ enum X ↔ x ∈ X) as Hen by (intros X x; by rewrite Henum, elem_of_elements).
  assert (∀ x d, rtc (edge reverse) d x ↔ rtc depends x d) as Hrev.
  { intros x d. destruct (ReverseEdges_spec (Adjacency t) rorder Hr) as [He _].
    split; intros Hp; induction Hp as [|a b c Hab _ IH]; try done.
    - eapply rtc_r; [done|]. by apply Adjacency_edge, He.
    - eapply rtc_r; [done|]. by apply He, Adjacency_edge. }
  eexists; split; [done|]. simpl. split.
  { apply NoDup_app. split; [rewrite Henum; apply NoDup_elements|]. split; [|rewrite Henum; apply NoDup_elements].
    intros x Hx%Hen Hx'%Hen%Htrans. tauto. }
  setoid_rewrite Hen. split; [done|]. intros x. rewrite Htrans. setoid_rewrite Hen. split.
  - intros [(? & s & ? & ?)%Hdir|(_ & Hne & d & (_ & s & Hs & Hd)%Hdir & _ & Hp%Hrev)]; (split; [done|]); exists s; (split; [done|]).
    + by apply tc_once.
    + eapply tc_rtc_l; [done|]. by apply tc_once.
  - intros [Hne (s & Hs & Htc)]. destruct (through_direct path x s Hs Htc Hne) as (d & s' & Hd & Hs' & Hds & Hp).
    destruct (decide (x ∈ direct)) as [?|Hx]; [by left|]. right. split_and!; [done..|]. exists d.
    assert (d ∈ direct) by (apply Hdir; eauto). split; [done|]. split; [by intros ->|]. by apply Hrev.
Qed.

(** Completing a spec unblocks exactly the live, unfinished specs that depend
    on it and whose dependencies are all complete, archived or missing. *)
Theorem UnblockedSpecs_spec rorder completedPath p :
  range_order (Adjacency t) rorder → tree_unique t →
  p ∈ UnblockedSpecs rorder t completedPath ↔
  ∃ n s, heap t !! p = Some n ∧ Value n = Some s ∧ depends (Key n) completedPath ∧
    spec_Status s ≠ StatusComplete ∧ spec_Status s ≠ StatusArchived ∧
    (∀ dep s', dep ∈ spec_DependsOn s → spec_at t dep = Some s' →
       spec_Status s' = StatusComplete ∨ spec_Status s' = StatusArchived).
Proof.
  intros Hr Hu. unfold UnblockedSpecs. rewrite list_elem_of_omap.
  assert (∀ s, allDepsComplete t s = true ↔ ∀ dep s', dep ∈ spec_DependsOn s → spec_at t dep = Some s' →
    spec_Status s' = StatusComplete ∨ spec_Status s' = StatusArchived) as Hall.
  { intros s. unfold allDepsComplete. rewrite forallb_forall. setoid_rewrite <- list_elem_of_In. unfold dep_settled. split.
    - intros Hs dep s' Hdep E. specialize (Hs dep Hdep). rewrite E in Hs. apply orb_true_iff in Hs as [?%bool_decide_eq_true|?%bool_decide_eq_true]; auto.
    - intros Hs dep Hdep. destruct (spec_at t dep) as [s'|] eqn:E; [|done]. apply orb_true_iff. rewrite !bool_decide_eq_true. eauto. }
  setoid_rewrite dependents_elem; [|done]. split.
  - intros (x & Hx & (p' & Hp & (n & Hn & (s & Hs & Hif)%bind_Some)%bind_Some)%bind_Some).
    destruct (bool_decide _ || bool_decide _) eqn:Eb; [done|]. apply orb_false_iff in Eb as [?%bool_decide_eq_false ?%bool_decide_eq_false].
    destruct (allDepsComplete t s) eqn:Ea; [|done]. injection Hif as ->.
    exists n, s. destruct (tw_all _ Hwf _ _ Hp) as (n' & Hn' & Hk). assert (n' = n) as -> by congruence. rewrite Hk.
    split_and!; try done. by apply Hall.
  - intros (n & s & Hn & Hs & Hd & H1 & H2 & H3). exists (Key n). split; [done|]. rewrite (Hu _ _ Hn). simpl. rewrite Hn. simpl. rewrite Hs. simpl.
    rewrite !bool_decide_eq_false_2 by done. simpl. by rewrite (proj2 (Hall s)).
Qed.
End impact.

(** ** Stale propagation *)

(** [affectContains] compares whole path components. *)
Lemma affectContains_parts d p : affectContains d p = true ↔ Split slash d `prefix_of` Split slash p.
Proof.
  unfold affectContains, HasPrefix. rewrite Split_prefix, orb_true_iff, bool_decide_eq_true, prefix_iff. f_equiv. split; intros [r Hr]; exists r.
  - by rewrite Hr, str_app_assoc.
  - by rewrite Hr, str_app_assoc.
Qed.

Lemma affectsOverlap_iff a b : affectsOverlap a b = true ↔ affectContains a b = true ∨ affectContains b a = true.
Proof. apply orb_true_iff. Qed.

Section propagation.
Context (t : STree).

Lemma index_affects_elem path affects seen idx key x :
  x ∈ default [] (index_affects path affects seen idx !! key) ↔
  x ∈ default [] (idx !! key) ∨ x = path ∧ key ∈ normalized affects ∧ key ∉ seen.
Proof.
  revert seen idx. induction affects as [|e rest IH]; intros seen idx; simpl.
  { unfold normalized. simpl. rewrite filter_nil. set_solver. }
  unfold normalized in *. simpl. rewrite filter_cons.
  destruct (bool_decide_reflect (normalizeAffect e = EmptyString)) as [E|E]; simpl.
  { rewrite IH, decide_False by (by intros ?). done. }
  rewrite decide_True by done. destruct (bool_decide_reflect (normalizeAffect e ∈ seen)) as [Es|Es]; rewrite IH.
  - rewrite elem_of_cons. set_solver.
  - destruct (decide (key = normalizeAffect e)) as [->|Hk].
    + rewrite lookup_insert_eq. simpl. rewrite elem_of_app, list_elem_of_singleton, elem_of_cons. set_solver.
    + rewrite lookup_insert_ne by done. rewrite elem_of_cons. set_solver.
Qed.

Lemma affectsToSpecs_elem order key x :
  x ∈ default [] (affectsToSpecs order t !! key) ↔
  x ∈ order ∧ ∃ s, spec_at t x = Some s ∧ affecting s = true ∧ key ∈ normalized (spec_Affects s).
Proof.
  unfold affectsToSpecs. assert (∀ idx : gmap string (list string), x ∈ default [] (foldl (λ idx path,
    match spec_at t path with
    | Some s => if affecting s then index_affects path (spec_Affects s) ∅ idx else idx
    | None => idx end) idx order !! key) ↔ x ∈ default [] (idx !! key) ∨ x ∈ order ∧
    ∃ s, spec_at t x = Some s ∧ affecting s = true ∧ key ∈ normalized (spec_Affects s)) as ->; [|by rewrite lookup_empty; set_solver].
  induction order as [|p order IH]; intros idx; simpl; [set_solver|]. rewrite IH, elem_of_cons.
  clear IH. destruct (spec_at t p) as [s|] eqn:Es; [destruct (affecting s) eqn:Ea|].
  - rewrite index_affects_elem. set_solver.
  - split; [intros [?|[? ?]]; eauto|]. intros [?|[[->|?] (s0 & ? & ? & ?)]]; [by left|congruence|right; eauto].
  - split; [intros [?|[? ?]]; eauto|]. intros [?|[[->|?] (s0 & ? & ? & ?)]]; [by left|congruence|right; eauto].
Qed.

Lemma impacted_by_elem hits source idx iorder x :
  x ∈ impacted_by hits source idx iorder ↔
  x ≠ source ∧ ∃ entry, entry ∈ iorder ∧ hits entry = true ∧ x ∈ default [] (idx !! entry).
Proof.
  unfold impacted_by. assert (∀ acc : gset string, x ∈ foldl (λ acc entry,
    if hits entry then list_to_set (filter (λ p, p ≠ source) (default [] (idx !! entry))) ∪ acc else acc) acc iorder ↔
    x ∈ acc ∨ x ≠ source ∧ ∃ entry, entry ∈ iorder ∧ hits entry = true ∧ x ∈ default [] (idx !! entry)) as ->; [|set_solver].
  induction iorder as [|e iorder IH]; intros acc; simpl; [set_solver|]. rewrite IH. clear IH. setoid_rewrite elem_of_cons.
  destruct (hits e) eqn:Eh; [rewrite elem_of_union, elem_of_list_to_set, list_elem_of_filter|]; split.
  - intros [[[? ?]|?]|(? & en & ? & ?)]; eauto 10.
  - intros [?|(? & en & [->|?] & ? & ?)]; eauto 10.
  - intros [?|(? & en & ? & ?)]; eauto 10.
  - intros [?|(? & en & [->|?] & ? & ?)]; [by left|congruence|]. eauto 10.
Qed.

Lemma setToSorted_spec X : StronglySorted String.le (setToSorted X) ∧ NoDup (setToSorted X) ∧ ∀ x, x ∈ setToSorted X ↔ x ∈ X.
Proof.
  unfold setToSorted, string_sort. split; [apply StronglySorted_merge_sort; apply _|]. split.
  - rewrite merge_sort_Permutation. apply NoDup_elements.
  - intros x. by rewrite merge_sort_Permutation, elem_of_elements.
Qed.

(** The specs impacted through entries that [hits] selects. *)
Lemma impacted_specs hits source order iorder x :
  range_order (All t) order → range_order (affectsToSpecs order t) iorder →
  x ∈ setToSorted (impacted_by hits source (affectsToSpecs order t) iorder) ↔
  x ≠ source ∧ ∃ s e, spec_at t x = Some s ∧ affecting s = true ∧ e ∈ normalized (spec_Affects s) ∧ hits e = true.
Proof.
  intros Ho Hi. rewrite (proj2 (proj2 (setToSorted_spec _))), impacted_by_elem. setoid_rewrite affectsToSpecs_elem.
  setoid_rewrite (range_order_elem (affectsToSpecs order t) iorder); [|done]. split.
  - intros (Hx & e & _ & He & _ & s & ? & ? & ?). naive_solver.
  - intros (Hx & s & e & Hs & Ha & He & Hh). split; [done|]. exists e.
    assert (x ∈ order) as Hord. { apply (range_order_elem (All t)); [done|]. unfold spec_at in Hs. apply elem_of_dom. by destruct (All t !! x). }
    split; [|naive_solver]. apply elem_of_dom. pose proof (proj2 (affectsToSpecs_elem order e x)) as Hidx.
    destruct (affectsToSpecs order t !! e) as [l|]; [done|]. exfalso. apply (not_elem_of_nil x), Hidx. eauto.
Qed.

(** The specs that a change of files makes stale through [affects] are exactly
    the live specs, other than the source, one of whose entries names a changed
    file or a directory above one, path component by path component; they come
    out sorted and without repetition. *)
Theorem AffectsImpactFromDiff_spec order iorder files source :
  range_order (All t) order → range_order (affectsToSpecs order t) iorder →
  let l := AffectsImpactFromDiff order iorder t files source in
  StronglySorted String.le l ∧ NoDup l ∧
  ∀ x, x ∈ l ↔ x ≠ source ∧ ∃ s e f, spec_at t x = Some s ∧ affecting s = true ∧
    e ∈ normalized (spec_Affects s) ∧ f ∈ normalized files ∧ Split slash e `prefix_of` Split slash f.
Proof.
  intros Ho Hi l. split; [apply setToSorted_spec|]. split; [apply setToSorted_spec|]. intros x. unfold l, AffectsImpactFromDiff.
  rewrite impacted_specs by done. setoid_rewrite <- affectContains_parts. setoid_rewrite existsb_exists. setoid_rewrite <- list_elem_of_In. naive_solver.
Qed.

(** The same for an edit of the source spec: an entry of one contains an entry of the other. *)
Lemma AffectsImpactFromSpec_spec order iorder source src x :
  range_order (All t) order → range_order (affectsToSpecs order t) iorder → spec_at t source = Some src →
  x ∈ AffectsImpactFromSpec order iorder t source ↔
  x ≠ source ∧ ∃ s e f, spec_at t x = Some s ∧ affecting s = true ∧ e ∈ normalized (spec_Affects s) ∧
    f ∈ normalized (spec_Affects src) ∧
    (Split slash e `prefix_of` Split slash f ∨ Split slash f `prefix_of` Split slash e).
Proof.
  intros Ho Hi Hs. unfold AffectsImpactFromSpec. rewrite Hs, impacted_specs by done.
  setoid_rewrite <- affectContains_parts. setoid_rewrite existsb_exists. setoid_rewrite <- list_elem_of_In.
  setoid_rewrite affectsOverlap_iff. split.
  - intros (? & s & e & ? & ? & ? & f & ? & Hor). split; [done|]. exists s, e, f. tauto.
  - intros (? & s & e & f & ? & ? & ? & ? & Hor). split; [done|]. exists s, e. split_and!; try done. exists f. tauto.
Qed.
End propagation.

(** ** Marking the impacted specs *)

Section fan_out_facts.
Context {FS : Type} (update : string → FS → result string unit * FS) (resolve : string → string) (t : STree).

(** The specs whose lifecycle allows them to become stale and that have a file. *)
Definition may_go_stale (x : string) : Prop :=
  resolve x ≠ EmptyString ∧
  ∃ s, spec_at t x = Some s ∧ spec_Status s ∈ [StatusDrafted; StatusValidated; StatusTesting; StatusComplete].

(** The transition table, read backwards. *)
Lemma stale_from st :
  CanTransition StatusMachine st StatusStale = true ↔ st ∈ [StatusDrafted; StatusValidated; StatusTesting; StatusComplete].
Proof.
  split.
  - intros Hc%CanTransition_spec. unfold Allowed in Hc. destruct (transitions StatusMachine !! st) as [l|] eqn:E;
      [|by apply elem_of_nil in Hc]. unfold StatusMachine, New in E. cbn [transitions] in E. apply elem_of_list_to_map_2 in E. simpl in Hc.
    repeat (apply elem_of_cons in E as [[= -> ->]|E]; [clear -Hc; vm_compute in Hc |- *; set_solver|]). by apply elem_of_nil in E.
  - intros Hst. repeat (apply elem_of_cons in Hst as [->|Hst]; [vm_compute; reflexivity|]). by apply elem_of_nil in Hst.
Qed.

Lemma fan_target_iff x abs : fan_target resolve t x = Some abs ↔ may_go_stale x ∧ abs = resolve x.
Proof.
  unfold fan_target, may_go_stale. destruct (spec_at t x) as [s|]; simpl; [|split; [done|intros [(_ & ? & ? & _) _]; done]].
  case_decide as Ha.
  { split; [done|]. intros [(_ & s' & [= <-] & Hin) _]. rewrite Ha in Hin. vm_compute in Hin. set_solver. }
  destruct (CanTransition StatusMachine (spec_Status s) StatusStale) eqn:Ec.
  - apply stale_from in Ec. case_decide; split; [done|intros [[? _] _]; done|intros [= <-]; eauto|by intros [_ ->]].
  - split; [done|]. intros [(_ & s' & [= <-] & Hin%stale_from) _]. congruence.
Qed.

Lemma fan_loop_spec paths applied errs fs :
  ∃ new errs', fan_loop update resolve t paths applied errs fs =
    ((applied ++ new)%list, (errs ++ errs')%list,
     foldl (λ fs x, (update (resolve x) fs).2) fs (filter (λ x, is_Some (fan_target resolve t x)) paths)) ∧
    new `sublist_of` paths ∧ (∀ x, x ∈ new → may_go_stale x) ∧
    (errs' = [] → ∀ x, x ∈ paths → may_go_stale x → x ∈ new).
Proof.
  revert applied errs fs. induction paths as [|x paths IH]; intros applied errs fs; cbn [fan_loop].
  { exists [], []. rewrite !app_nil_r. split; [done|]. split; [done|]. split; [intros x Hx|intros _ x Hx]; by apply elem_of_nil in Hx. }
  rewrite filter_cons. destruct (fan_target resolve t x) as [abs|] eqn:Ef.
  - pose proof Ef as [Hx ->]%fan_target_iff. rewrite decide_True by eauto. simpl. destruct (update (resolve x) fs) as [[u|e] fs1]; simpl.
    + destruct (IH (applied ++ [x])%list errs fs1) as (new & errs' & -> & Hsub & Hin & Hall). exists (x :: new), errs'.
      rewrite <- app_assoc. split; [done|]. split; [by constructor|]. split; [intros y [->|?]%elem_of_cons; auto|].
      intros He y [->|Hy]%elem_of_cons Hm; [left|right; auto].
    + destruct (IH applied (errs ++ [e])%list fs1) as (new & errs' & -> & Hsub & Hin & Hall). exists new, (e :: errs').
      rewrite <- app_assoc. split; [done|]. split; [by constructor|]. split; [done|]. done.
  - assert (¬ may_go_stale x) as Hn by (intros Hm; assert (fan_target resolve t x = Some (resolve x)) by (by apply fan_target_iff); congruence).
    rewrite decide_False by (by intros [? ?]). destruct (IH applied errs fs) as (new & errs' & -> & Hsub & Hin & Hall).
    exists new, errs'. split; [done|]. split; [by constructor|]. split; [done|]. intros He y [->|Hy]%elem_of_cons Hm; [done|auto].
Qed.

(** Fanning out staleness writes exactly to the impacted specs whose status
    may become stale (drafted, validated, testing or complete) and that have a
    file, in sorted order; it reports as marked only specs it wrote, and all of
    them unless a write failed; a failure does not stop the others. *)
Theorem FanOutStale_spec impacted fs applied errs fs' :
  FanOutStale update resolve t impacted fs = (applied, errs, fs') →
  StronglySorted String.le applied ∧
  (∀ x, x ∈ applied → x ∈ impacted ∧ may_go_stale x) ∧
  (errs = [] → ∀ x, x ∈ impacted → may_go_stale x → x ∈ applied) ∧
  ∃ written, fs' = foldl (λ fs x, (update (resolve x) fs).2) fs written ∧ StronglySorted String.le written ∧
    ∀ x, x ∈ written ↔ x ∈ impacted ∧ may_go_stale x.
Proof.
  unfold FanOutStale. destruct (fan_loop_spec (string_sort impacted) [] [] fs) as (new & errs' & -> & Hsub & Hin & Hall).
  intros [= <- <- <-]. simpl. assert (∀ x, x ∈ string_sort impacted ↔ x ∈ impacted) as Hs by (intros x; unfold string_sort; by rewrite merge_sort_Permutation).
  assert (StronglySorted String.le (string_sort impacted)) as Hsort by (apply StronglySorted_merge_sort; apply _).
  split; [by eapply sorted_sublist|].
  split; [intros x Hx; split; [by apply Hs; eapply elem_of_sublist|auto]|]. split; [intros He x Hx; apply Hall; [done|by apply Hs]|].
  exists (filter (λ x, is_Some (fan_target resolve t x)) (string_sort impacted)). split; [done|]. split; [by apply sorted_filter|].
  intros x. rewrite list_elem_of_filter, Hs. split.
  - by intros [[abs [? _]%fan_target_iff] ?].
  - intros [? ?]. split; [|done]. exists (resolve x). by apply fan_target_iff.
Qed.
End fan_out_facts.

(** ** Stale candidates *)

#[export] Instance candidate_le_total : Total candidate_le.
Proof. intros a b. unfold candidate_le. apply (total String.le). Qed.

#[export] Instance candidate_le_trans : Transitive candidate_le.
Proof. intros a b c. unfold candidate_le. apply transitivity. Qed.

(** The candidates are the complete specs some of whose files changed since. *)
Lemma ScanStaleCandidates_spec order changedSince t :
  range_order (All t) order →
  let l := ScanStaleCandidates order changedSince t in
  StronglySorted candidate_le l ∧
  ∀ x files, MkStale x files ∈ l ↔ files ≠ [] ∧ ∃ s, spec_at t x = Some s ∧ spec_Doc s = false ∧
    spec_Status s = StatusComplete ∧ spec_Affects s ≠ [] ∧ changedSince (spec_Updated s) (spec_Affects s) = Some files.
Proof.
  intros Ho l. split; [apply StronglySorted_merge_sort; apply _|]. intros x files. unfold l, ScanStaleCandidates.
  rewrite merge_sort_Permutation, list_elem_of_omap. unfold stale_candidate. split.
  - intros (y & _ & (s & Hs & Hif)%bind_Some). destruct (spec_Doc s) eqn:Ed; [done|]. simpl in Hif.
    destruct (bool_decide_reflect (spec_Status s = StatusComplete)) as [Est|]; [|done]. simpl in Hif.
    destruct (bool_decide_reflect (spec_Affects s = [])); [done|]. apply bind_Some in Hif as (ch & Hch & Hif).
    case_decide; [done|]. injection Hif as -> ->. eauto 10.
  - intros (Hf & s & Hs & Hd & Hst & Ha & Hc). exists x. split.
    + apply (range_order_elem (All t)); [done|]. unfold spec_at in Hs. apply elem_of_dom. by destruct (All t !! x).
    + rewrite Hs. simpl. rewrite Hd, bool_decide_eq_true_2, bool_decide_eq_false_2 by done. simpl. rewrite Hc. simpl. by rewrite decide_False.
Qed.

(** ** Drift classification *)

(** The quotient of floating-point numbers meets a threshold of tenths exactly
    when the fraction does, for the numbers of criteria a spec has. *)
Definition ratio_agrees (bound : nat) (tenths : Z) : bool :=
  forallb (λ total, forallb (λ sat,
    Bool.eqb (SFleb (f64_lit tenths 10) (f64_div (f64_of_Z (Z.of_nat sat)) (f64_of_Z (Z.of_nat total))))
             (Z.leb (tenths * Z.of_nat total) (10 * Z.of_nat sat))) (seq 0 (S total))) (seq 1 bound).

Lemma ratio_agrees_50 : ratio_agrees 50 9 = true ∧ ratio_agrees 50 7 = true.
Proof. split; vm_compute; reflexivity. Qed.

Lemma ratio_exact tenths sat total :
  ratio_agrees 50 tenths = true → 0 <= sat <= total → 1 <= total <= 50 →
  SFleb (f64_lit tenths 10) (f64_div (f64_of_Z sat) (f64_of_Z total)) = Z.leb (tenths * total) (10 * sat).
Proof.
  intros Hr Hs Ht. unfold ratio_agrees in Hr.
  pose proof (proj1 (forallb_forall _ _) Hr (Z.to_nat total) ltac:(apply in_seq; lia)) as H1. cbv beta in H1.
  pose proof (proj1 (forallb_forall _ _) H1 (Z.to_nat sat) ltac:(apply in_seq; lia)) as H2. cbv beta in H2.
  rewrite !Z2Nat.id in H2 by lia. by apply Bool.eqb_prop.
Qed.

(** The drift verdict.  With up to 50 acceptance criteria, of which some are
    satisfied, the level is the one of the exact fraction, floating-point
    rounding notwithstanding: minimal from nine tenths on with at most one
    unexpected file, moderate from seven tenths on with at most three.  Without
    criteria the files alone decide, and only a change without unexpected or
    missing files is minimal.  A spec ends up complete exactly when its drift is
    not significant, and dependents are told unless it is minimal. *)
Theorem drift_verdict v :
  let c := dv_Criteria v in
  let u := Z.of_nat (length (Unexpected v)) in
  (dc_Total c = 0 →
     (ClassifyDrift v = DriftMinimal ↔ Unexpected v = [] ∧ Missing v = []) ∧
     (DriftOutcome (ClassifyDrift v) = (StatusStale, true) ↔ 3 < u ∨ Missing v ≠ [])) ∧
  (0 <= Satisfied c <= dc_Total c → 1 <= dc_Total c <= 50 →
     (ClassifyDrift v = DriftMinimal ↔ 9 * dc_Total c <= 10 * Satisfied c ∧ u <= 1) ∧
     (DriftOutcome (ClassifyDrift v) = (StatusStale, true) ↔
        10 * Satisfied c < 7 * dc_Total c ∨ 3 < u)).
Proof.
  intros c u. unfold ClassifyDrift. fold c u. split.
  - intros ->. simpl. set (m := Z.of_nat (length (Missing v))).
    assert ((Missing v = [] ↔ m = 0) ∧ (Unexpected v = [] ↔ u = 0)) as [Hm Hu].
    { unfold m, u. split; (split; [by intros ->|]); intros E; apply length_zero_iff_nil; lia. }
    rewrite Hm, Hu. destruct (Z.eqb_spec u 0), (Z.eqb_spec m 0), (Z.leb_spec u 3); simpl; split; split; try done; try lia; try tauto.
  - intros Hs Ht. destruct ratio_agrees_50 as [H9 H7]. rewrite (proj2 (Z.eqb_neq _ _)) by lia.
    rewrite (ratio_exact 9 _ _ H9 Hs Ht), (ratio_exact 7 _ _ H7 Hs Ht). clear H9 H7.
    destruct (Z.leb_spec (9 * dc_Total c) (10 * Satisfied c)), (Z.leb_spec (7 * dc_Total c) (10 * Satisfied c)),
      (Z.leb_spec u 1), (Z.leb_spec u 3); simpl; split; split; try done; try lia; try tauto.
Qed.

(** ** Runs on a small tree *)

Module GraphRun.
Import TreeRun.

Lemma adjacency_order : range_order (Adjacency demo) keys.
Proof. range_order_tac. Qed.

Lemma ComputeImpact_spec_witness :
  ComputeImpact keys elements demo "specs/local/b.md" = Some (MkImpact ["specs/local/a.md"] []) ∧
  ∃ imp, ComputeImpact keys elements demo "specs/local/b.md" = Some imp ∧ NoDup (imp_Direct imp ++ imp_Transitive imp).
Proof.
  split; [vm_compute; reflexivity|].
  destruct (ComputeImpact_spec demo demo_wf keys elements "specs/local/b.md") as (imp & E & Hnd & _);
    [exact adjacency_order|intros X; reflexivity|vm_compute; reflexivity|].
  exists imp. split; [exact E|exact Hnd].
Defined.

Lemma UnblockedSpecs_spec_witness :
  UnblockedSpecs keys demo "specs/local/b.md" = [0%nat] ∧
  ∃ n s, heap demo !! 0%nat = Some n ∧ Value n = Some s ∧ depends demo (Key n) "specs/local/b.md".
Proof.
  assert (UnblockedSpecs keys demo "specs/local/b.md" = [0%nat]) as E by (vm_compute; reflexivity).
  split; [exact E|].
  destruct (proj1 (UnblockedSpecs_spec demo demo_wf keys "specs/local/b.md" 0 adjacency_order demo_unique)) as (n & s & Hn & Hs & Hd & _).
  { rewrite E. apply list_elem_of_singleton. reflexivity. }
  exists n, s. split; [exact Hn|]. split; [exact Hs|exact Hd].
Defined.

Lemma AffectsImpactFromDiff_spec_witness :
  AffectsImpactFromDiff keys ["src/a"; "src/a/x"; "src/b"] demo ["src/a/x/f.go"] "specs/local/b.md" =
    ["specs/local/a.md"; "specs/local/a/x.md"] ∧
  NoDup (AffectsImpactFromDiff keys ["src/a"; "src/a/x"; "src/b"] demo ["src/a/x/f.go"] "specs/local/b.md").
Proof.
  split; [vm_compute; reflexivity|].
  destruct (AffectsImpactFromDiff_spec demo keys ["src/a"; "src/a/x"; "src/b"] ["src/a/x/f.go"] "specs/local/b.md") as (_ & Hnd & _);
    [range_order_tac|range_order_tac|exact Hnd].
Defined.

(** The second of two writes fails. *)
Definition flaky (path : string) (log : list string) : result string unit * list string :=
  (if decide (path = "/w/specs/local/b.md") then Err "EIO" else Ok tt, (log ++ [path])%list).

Lemma FanOutStale_spec_witness :
  FanOutStale flaky (String.append "/w/") demo ["specs/local/b.md"; "specs/local/a.md"] [] =
    (["specs/local/a.md"], ["EIO"], ["/w/specs/local/a.md"; "/w/specs/local/b.md"]) ∧
  StronglySorted String.le ["specs/local/a.md"].
Proof.
  assert (FanOutStale flaky (String.append "/w/") demo ["specs/local/b.md"; "specs/local/a.md"] [] =
    (["specs/local/a.md"], ["EIO"], ["/w/specs/local/a.md"; "/w/specs/local/b.md"])) as E by (vm_compute; reflexivity).
  split; [exact E|].
  exact (proj1 (FanOutStale_spec flaky (String.append "/w/") demo _ _ _ _ _ E)).
Defined.
End GraphRun.
