(* ===== verification/SpecValidate.v ===== *)
(** * Validation of the spec tree (internal/spec/validate.go)

    A [Result] carries the values that its message formats instead of the text.
    [stat] says whether [os.Stat] of a path succeeds.  The map ranges take their
    iteration orders: [order] of [tree.All], [iorder] of the affects index,
    [rorder] and [dorder] of the adjacency map in [ReverseEdges] and
    [DetectCycles]. *)

From S2P Require Import Prelude Dag StateMachine GoStrings GoText Tree SpecTree SpecGraph SpecArchive.
From Stdlib Require Import Ascii String.
From stdpp Require Import list gmap.
Local Open Scope Z_scope.

Inductive Severity := SeverityError | SeverityWarning.

#[export] Instance Severity_eq_dec : EqDecision Severity.
Proof. solve_decision. Defined.

Record Result := MkResult {
  r_Path : string;
  r_Severity : Severity;
  r_Rule : string;
  r_Args : list string
}.

Section checks.
Context (stat : string → bool) (repoRoot : string).

Definition required (s : Spec) (missing : bool) (field : string) : list Result :=
  if missing then [MkResult (spec_Path s) SeverityError "required-fields" [field]] else [].

Definition checkRequiredFields (s : Spec) : list Result :=
  (required s (bool_decide (spec_Title s = EmptyString)) "title" ++
   required s (bool_decide (spec_Status s = EmptyString)) "status" ++
   required s (bool_decide (spec_Effort s = EmptyString)) "effort" ++
   required s (Z.eqb (spec_Created s) 0) "created" ++
   required s (Z.eqb (spec_Updated s) 0) "updated" ++
   required s (bool_decide (spec_Author s = EmptyString)) "author")%list.

Definition checkValidEnums (s : Spec) : list Result :=
  ((if negb (bool_decide (spec_Status s = EmptyString)) && negb (bool_decide (spec_Status s ∈ ValidStatuses))
    then [MkResult (spec_Path s) SeverityError "valid-status" [spec_Status s]] else []) ++
   (if negb (bool_decide (spec_Effort s = EmptyString)) && negb (bool_decide (spec_Effort s ∈ ValidEfforts))
    then [MkResult (spec_Path s) SeverityError "valid-effort" [spec_Effort s]] else []))%list.

Definition checkDateOrdering (s : Spec) : list Result :=
  if Z.eqb (spec_Created s) 0 || Z.eqb (spec_Updated s) 0 then []
  else if Z.ltb (spec_Updated s) (spec_Created s)
       then [MkResult (spec_Path s) SeverityError "date-ordering" []] else [].

Definition checkNoSelfDependency (s : Spec) : list Result :=
  if bool_decide (spec_Path s ∈ spec_DependsOn s)
  then [MkResult (spec_Path s) SeverityError "no-self-dependency" []] else [].

Definition checkDispatchConsistency (s : Spec) (isLeaf : bool) : list Result :=
  if negb isLeaf && bool_decide (spec_DispatchedTaskID s ≠ None)
  then [MkResult (spec_Path s) SeverityError "dispatch-consistency" []] else [].

(** A dependency exists at its path or, archived, at its physical path. *)
Definition dep_exists (dep : string) : bool :=
  stat (path_Join [repoRoot; dep]) || stat (path_Join [repoRoot; ArchivePath dep]).

Definition checkDependsOnExist (s : Spec) : list Result :=
  if decide (repoRoot = EmptyString) then []
  else (λ dep, MkResult (spec_Path s) SeverityError "depends-on-exist" [dep]) <$>
       filter (λ dep, dep_exists dep = false) (spec_DependsOn s).

Definition checkAffectsExist (s : Spec) : list Result :=
  if decide (repoRoot = EmptyString) then []
  else if decide (spec_Status s = StatusArchived) then []
  else (λ p, MkResult (spec_Path s) SeverityWarning "affects-exist" [p]) <$>
       filter (λ p, stat (path_Join [repoRoot; p]) = false) (spec_Affects s).

Definition checkBodyNotEmpty (s : Spec) : list Result :=
  if bool_decide (spec_Status s = StatusVague) || bool_decide (spec_Status s = StatusArchived) ||
     bool_decide (spec_Status s = EmptyString) then []
  else if decide (TrimSpace (spec_Body s) = EmptyString)
       then [MkResult (spec_Path s) SeverityWarning "body-not-empty" []] else [].

Definition ValidateSpec (s : Spec) (isLeaf : bool) : list Result :=
  (checkRequiredFields s ++ checkValidEnums s ++ checkDateOrdering s ++ checkNoSelfDependency s ++
   checkDispatchConsistency s isLeaf ++ checkDependsOnExist s ++ checkAffectsExist s ++ checkBodyNotEmpty s)%list.

(** ** Rules across specs *)

Definition affectsTooBroadThreshold : Z := 20.

(** The other specs that an entry overlaps. *)
Definition overlapping (idx : gmap string (list string)) (iorder : list string) (path e : string) : gset string :=
  foldl (λ others entry,
    if affectsOverlap e entry then list_to_set (filter (λ p, p ≠ path) (default [] (idx !! entry))) ∪ others
    else others) ∅ iorder.

Fixpoint broad_entries (idx : gmap string (list string)) (iorder : list string) (path : string) (affects : list string)
    (seen : gset string) : list Result :=
  match affects with
  | [] => []
  | raw :: rest =>
    let e := normalizeAffect raw in
    if bool_decide (e = EmptyString) || bool_decide (e ∈ seen) then broad_entries idx iorder path rest seen
    else
      let others := overlapping idx iorder path e in
      ((if Z.ltb affectsTooBroadThreshold (Z.of_nat (size others))
        then [MkResult path SeverityWarning "affects-too-broad" [raw]] else []) ++
       broad_entries idx iorder path rest ({[e]} ∪ seen))%list
  end.

Definition checkAffectsTooBroad (order iorder : list string) (t : STree) : list Result :=
  let idx := affectsToSpecs order t in
  order ≫= λ path,
    match spec_at t path with
    | Some s => if affecting s then broad_entries idx iorder path (spec_Affects s) ∅ else []
    | None => []
    end.

(** [None] when the cycle search does not return, or a cycle is empty. *)
Definition checkDAGAcyclic (dorder : list string) (t : STree) : option (list Result) :=
  cycles ← DetectCycles EmptyString dorder (Adjacency t);
  mapM (λ cycle, first ← head cycle; Some (MkResult first SeverityError "dag-acyclic" cycle)) cycles.

Definition checkOrphanDirectories (order : list string) (t : STree) : list Result :=
  if decide (repoRoot = EmptyString) then []
  else omap (λ path,
    let parts := Split slash path in
    if Z.ltb (Z.of_nat (length parts)) 4 then None
    else
      let parentMD := strings_Join (removelast parts) sl +:+ ".md" in
      match All t !! parentMD with
      | Some _ => None
      | None => if stat (path_Join [repoRoot; parentMD]) then None
                else Some (MkResult path SeverityWarning "no-orphan-directories" [parentMD])
      end) order.

Fixpoint hasIncompleteLeaf (fuel : nat) (t : STree) (p : nat) : option bool :=
  match fuel with
  | O => None
  | S fuel =>
    node ← heap t !! p;
    if archived_node node then Some false
    else if IsLeaf node then
      Some (match Value node with Some s => negb (bool_decide (spec_Status s = StatusComplete)) | None => false end)
    else
      (fix any (cs : list nat) : option bool :=
         match cs with
         | [] => Some false
         | c :: cs => b ← hasIncompleteLeaf fuel t c; if (b : bool) then Some true else any cs
         end) (Children node)
  end.

Definition consistency_at (t : STree) (path : string) : option (list Result) :=
  match All t !! path with
  | None => Some []
  | Some p =>
    node ← heap t !! p;
    match Value node with
    | None => Some []
    | Some s =>
      if IsLeaf node || negb (bool_decide (spec_Status s = StatusComplete)) then Some []
      else incomplete ← hasIncompleteLeaf (length (heap t)) t p;
           Some (if (incomplete : bool) then [MkResult (spec_Path s) SeverityWarning "status-consistency" []] else [])
    end
  end.

Definition checkStatusConsistency (order : list string) (t : STree) : option (list Result) :=
  rs ← mapM (consistency_at t) order; Some (mjoin rs).

Definition has_status (t : STree) (path : string) (st : SpecStatus) : bool :=
  match spec_at t path with Some s => bool_decide (spec_Status s = st) | None => false end.

Definition checkStalePropagation (order rorder : list string) (t : STree) : list Result :=
  let reverse := ReverseEdges rorder (Adjacency t) in
  order ≫= λ path,
    if has_status t path StatusStale then
      (λ dependent, MkResult dependent SeverityWarning "stale-propagation" [path]) <$>
      filter (λ dependent, has_status t dependent StatusValidated = true) (succs reverse path)
    else [].

Definition checkArchivedDependencies (order : list string) (t : STree) : list Result :=
  order ≫= λ path,
    match spec_at t path with
    | None => []
    | Some s =>
      if decide (spec_Status s = StatusArchived) then []
      else (λ dep, MkResult path SeverityWarning "dependency-is-archived" [dep]) <$>
           filter (λ dep, archived_dep t dep = true) (spec_DependsOn s)
    end.

Fixpoint unique_loop (t : STree) (order : list string) (seen : gmap string string) : list Result :=
  match order with
  | [] => []
  | path :: rest =>
    match (s ← spec_at t path; spec_DispatchedTaskID s) with
    | None => unique_loop t rest seen
    | Some id =>
      match seen !! id with
      | Some first => MkResult path SeverityError "unique-dispatches" [id; first] :: unique_loop t rest seen
      | None => unique_loop t rest (<[id := path]> seen)
      end
    end
  end.

Definition checkUniqueDispatches (order : list string) (t : STree) : list Result := unique_loop t order ∅.

Record Orders := MkOrders { or_all : list string; or_affects : list string; or_reverse : list string; or_cycles : list string }.

Definition ValidateTree (o : Orders) (t : STree) : option (list Result) :=
  let per_spec := or_all o ≫= λ path,
    match (p ← All t !! path; heap t !! p) with
    | Some node => match Value node with Some s => ValidateSpec s (IsLeaf node) | None => [] end
    | None => []
    end in
  acyclic ← checkDAGAcyclic (or_cycles o) t;
  consistency ← checkStatusConsistency (or_all o) t;
  Some (per_spec ++ acyclic ++ checkOrphanDirectories (or_all o) t ++ consistency ++
        checkStalePropagation (or_all o) (or_reverse o) t ++ checkArchivedDependencies (or_all o) t ++
        checkUniqueDispatches (or_all o) t ++ checkAffectsTooBroad (or_all o) (or_affects o) t)%list.
End checks.

(** ** What it means that validation reports no error *)

Definition no_errors (rs : list Result) : Prop := Forall (λ r, r_Severity r ≠ SeverityError) rs.

Section facts.
Context (stat : string → bool) (repoRoot : string) (t : STree) (Hwf : tree_wf t).

(** The conditions on one spec. *)
Record spec_ok (s : Spec) (isLeaf : bool) : Prop := {
  ok_title : spec_Title s ≠ EmptyString;
  ok_status : spec_Status s ∈ ValidStatuses;
  ok_effort : spec_Effort s ∈ ValidEfforts;
  ok_dates : spec_Created s ≠ 0 ∧ spec_Updated s ≠ 0 ∧ spec_Created s <= spec_Updated s;
  ok_author : spec_Author s ≠ EmptyString;
  ok_self : spec_Path s ∉ spec_DependsOn s;
  ok_dispatch : isLeaf = false → spec_DispatchedTaskID s = None;
  ok_deps : repoRoot ≠ EmptyString → ∀ dep, dep ∈ spec_DependsOn s → dep_exists stat repoRoot dep = true
}.

Lemma no_errors_app l1 l2 : no_errors (l1 ++ l2) ↔ no_errors l1 ∧ no_errors l2.
Proof. apply Forall_app. Qed.

Lemma no_errors_bind {A} (f : A → list Result) (l : list A) : no_errors (l ≫= f) ↔ ∀ x, x ∈ l → no_errors (f x).
Proof. unfold no_errors. setoid_rewrite Forall_forall. setoid_rewrite list_elem_of_bind. naive_solver. Qed.

Lemma no_errors_one path rule args : no_errors [MkResult path SeverityError rule args] ↔ False.
Proof. split; [|done]. intros Hf. inversion_clear Hf. done. Qed.

Lemma no_errors_nil : no_errors [] ↔ True.
Proof. split; [done|constructor]. Qed.

Lemma no_errors_warnings rs : (∀ r, r ∈ rs → r_Severity r = SeverityWarning) → no_errors rs.
Proof. intros Hw. apply Forall_forall. intros r Hr. by rewrite Hw. Qed.

Lemma required_ok s b f : no_errors (required s b f) ↔ b = false.
Proof. unfold required. destruct b; [rewrite no_errors_one; done|]. split; [done|constructor]. Qed.

Lemma enums_ok s :
  no_errors (checkValidEnums s) ↔ (spec_Status s = EmptyString ∨ spec_Status s ∈ ValidStatuses) ∧
    (spec_Effort s = EmptyString ∨ spec_Effort s ∈ ValidEfforts).
Proof.
  unfold checkValidEnums. rewrite no_errors_app.
  f_equiv; do 2 case_bool_decide; simpl; rewrite ?no_errors_one, ?no_errors_nil; tauto.
Qed.

Lemma dates_ok s :
  no_errors (checkDateOrdering s) ↔ spec_Created s = 0 ∨ spec_Updated s = 0 ∨ spec_Created s <= spec_Updated s.
Proof.
  unfold checkDateOrdering. destruct (Z.eqb_spec (spec_Created s) 0); simpl; [rewrite no_errors_nil; tauto|].
  destruct (Z.eqb_spec (spec_Updated s) 0); [rewrite no_errors_nil; tauto|].
  destruct (Z.ltb_spec (spec_Updated s) (spec_Created s)); rewrite ?no_errors_one, ?no_errors_nil; lia.
Qed.

Lemma self_ok s : no_errors (checkNoSelfDependency s) ↔ spec_Path s ∉ spec_DependsOn s.
Proof. unfold checkNoSelfDependency. case_bool_decide; rewrite ?no_errors_one, ?no_errors_nil; tauto. Qed.

Lemma dispatch_ok s isLeaf :
  no_errors (checkDispatchConsistency s isLeaf) ↔ (isLeaf = false → spec_DispatchedTaskID s = None).
Proof.
  unfold checkDispatchConsistency. destruct isLeaf; simpl; [rewrite no_errors_nil; naive_solver|].
  destruct (spec_DispatchedTaskID s); simpl; rewrite ?no_errors_one, ?no_errors_nil; naive_solver.
Qed.

Lemma depends_ok s :
  no_errors (checkDependsOnExist stat repoRoot s) ↔
  (repoRoot ≠ EmptyString → ∀ dep, dep ∈ spec_DependsOn s → dep_exists stat repoRoot dep = true).
Proof.
  unfold checkDependsOnExist. case_decide; [rewrite no_errors_nil; tauto|]. unfold no_errors. rewrite Forall_fmap, Forall_forall.
  setoid_rewrite list_elem_of_filter. simpl. split.
  - intros Hno _ dep Hdep. apply not_false_is_true. intros Hf. by destruct (Hno dep).
  - intros Hall dep [Hf Hdep]. rewrite Hall in Hf by done. done.
Qed.

Lemma spec_warnings s : no_errors (checkAffectsExist stat repoRoot s) ∧ no_errors (checkBodyNotEmpty s).
Proof.
  split; apply no_errors_warnings; unfold checkAffectsExist, checkBodyNotEmpty; intros r.
  - repeat case_decide; try by intros ?%elem_of_nil. intros (p & -> & _)%list_elem_of_fmap. done.
  - destruct (_ || _); [by intros ?%elem_of_nil|]. case_decide; [by intros ->%list_elem_of_singleton|by intros ?%elem_of_nil].
Qed.

Lemma ValidateSpec_ok s isLeaf : no_errors (ValidateSpec stat repoRoot s isLeaf) ↔ spec_ok s isLeaf.
Proof.
  unfold ValidateSpec, checkRequiredFields. rewrite !no_errors_app, !required_ok, !bool_decide_eq_false, !Z.eqb_neq.
  rewrite enums_ok, dates_ok, self_ok, dispatch_ok, depends_ok. pose proof (spec_warnings s) as [? ?].
  split; [intros; split; tauto|]. intros []. assert (spec_Status s ≠ EmptyString ∧ spec_Effort s ≠ EmptyString) as [? ?].
  { split; intros E; [rewrite E in ok_status0; vm_compute in ok_status0|rewrite E in ok_effort0; vm_compute in ok_effort0]; set_solver. }
  tauto.
Qed.

(** *** The checks across specs *)

Definition incomplete_leaf (q : nat) : Prop :=
  ∃ n s, heap t !! q = Some n ∧ IsLeaf n = true ∧ Value n = Some s ∧ spec_Status s ≠ StatusComplete.

Lemma hasIncompleteLeaf_walk fuel p l :
  walk_pruned archived_node fuel t p = Some l →
  ∃ b, hasIncompleteLeaf fuel t p = Some b ∧ (b = true ↔ ∃ q, q ∈ l ∧ incomplete_leaf q).
Proof.
  revert p l. induction fuel as [|fuel IH]; intros p l; simpl; [done|]. destruct (heap t !! p) as [n|] eqn:Hn; simpl; [|done].
  destruct (archived_node n); [intros [= <-]; exists false; split; [done|]; set_solver|].
  pose proof (tw_leaf _ Hwf _ _ Hn) as Hleaf. destruct (IsLeaf n) eqn:El.
  - symmetry in Hleaf. apply bool_decide_eq_true in Hleaf. rewrite Hleaf. simpl. intros [= <-]. eexists; split; [done|].
    setoid_rewrite list_elem_of_singleton. unfold incomplete_leaf. destruct (Value n) as [s|] eqn:Ev.
    + rewrite negb_true_iff, bool_decide_eq_false. split; [intros ?; exists p; eauto 10|]. intros (q & -> & n' & s' & ? & ? & ? & ?). congruence.
    + split; [done|]. intros (q & -> & n' & s' & ? & ? & ? & ?). congruence.
  - clear Hleaf. assert (¬ ∃ q, q ∈ [p] ∧ incomplete_leaf q) as H0.
    { intros (q & ->%list_elem_of_singleton & n' & s' & ? & ? & _). congruence. }
    revert H0. generalize [p]. clear Hn El. induction (Children n) as [|c cs IHc]; intros l0 H0; simpl.
    + intros [= <-]. exists false. split; [done|]. by split.
    + destruct (walk_pruned archived_node fuel t c) as [lc|] eqn:Ec; simpl; [|by rewrite append_all_None].
      destruct (IH _ _ Ec) as (b & -> & Hb). simpl. destruct b.
      * intros Hrest. exists true. split; [done|]. split; [|done]. intros _. destruct (proj1 Hb eq_refl) as (q & Hq & Hi). exists q.
        split; [|done]. revert Hrest. assert (q ∈ l0 ++ lc) as Hin by set_solver. clear -Hin. revert Hin. generalize (l0 ++ lc).
        induction cs as [|c' cs IHc]; intros l1 Hin; simpl; [by intros [= <-]|].
        destruct (walk_pruned archived_node fuel t c'); simpl; [|by rewrite append_all_None]. apply IHc. set_solver.
      * apply IHc. intros (q & [Hq|Hq]%elem_of_app & Hi); [apply H0; eauto|]. by assert (false = true) by (apply Hb; eauto).
Qed.

Lemma checkStatusConsistency_total order :
  ∃ rs, checkStatusConsistency order t = Some rs ∧ no_errors rs.
Proof.
  unfold checkStatusConsistency. assert (∃ rs, mapM (consistency_at t) order = Some rs ∧ Forall no_errors rs) as (rs & -> & Hrs).
  2: { eexists; split; [done|]. clear -Hrs. induction Hrs; simpl; [constructor|]. by apply no_errors_app. }
  induction order as [|x order (rs & IH & Hrs)]; [by exists []|]. simpl.
  assert (∃ r, consistency_at t x = Some r ∧ no_errors r) as (r & -> & Hr).
  { unfold consistency_at. destruct (All t !! x) as [p|] eqn:Hp; [|eauto using no_errors_nil; exists []; split; [done|by apply no_errors_nil]].
    destruct (tw_all _ Hwf _ _ Hp) as (n & Hn & _). rewrite Hn. simpl. destruct (Value n) as [s|]; [|exists []; split; [done|by apply no_errors_nil]].
    destruct (_ || _); [exists []; split; [done|by apply no_errors_nil]|]. pose proof (lookup_lt_Some _ _ _ Hn).
    destruct (walk_pruned_spec t Hwf archived_node (length (heap t)) p) as (l & E & _); [done|lia|].
    destruct (hasIncompleteLeaf_walk _ _ _ E) as (b & -> & _). simpl. eexists; split; [done|].
    destruct b; [|by apply no_errors_nil]. apply no_errors_warnings. by intros r ->%list_elem_of_singleton. }
  simpl. rewrite IH. simpl. exists (r :: rs). split; [done|]. by constructor.
Qed.

Definition dispatched (x id : string) : Prop := ∃ s, spec_at t x = Some s ∧ spec_DispatchedTaskID s = Some id.

Lemma unique_loop_ok order seen :
  NoDup order → (∀ id y, seen !! id = Some y → y ∉ order) →
  no_errors (unique_loop t order seen) ↔
  (∀ x id, x ∈ order → dispatched x id → seen !! id = None) ∧
  (∀ x y id, x ∈ order → y ∈ order → dispatched x id → dispatched y id → x = y).
Proof.
  intros Hnd. revert seen. induction Hnd as [|x order Hx Hnd IH]; intros seen Hseen; simpl.
  { rewrite no_errors_nil. split; [intros _; split; set_solver|done]. }
  assert (∀ id, (s ← spec_at t x; spec_DispatchedTaskID s) = Some id ↔ dispatched x id) as Hd.
  { intros id. unfold dispatched. by rewrite bind_Some. }
  destruct (s ← spec_at t x; spec_DispatchedTaskID s) as [id|] eqn:Ed.
  - assert (dispatched x id) as Hxid by (by apply Hd). assert (∀ id', dispatched x id' → id' = id) as Huniq by (intros ? ?%Hd; congruence).
    destruct (seen !! id) as [first|] eqn:Es.
    + unfold no_errors. rewrite Forall_cons. simpl. split; [intros [? _]; done|]. intros [H1 _]. specialize (H1 x id). set_solver.
    + rewrite IH. 2: { intros id' y. rewrite lookup_insert_Some. intros [[<- <-]|[_ Hy]]; [done|]. apply Hseen in Hy. set_solver. }
      split; intros [H1 H2]; split.
      * intros y id' [->|Hy]%elem_of_cons Hyd; [by rewrite (Huniq _ Hyd)|]. specialize (H1 y id' Hy Hyd). by apply lookup_insert_None in H1 as [? _].
      * intros y z id' [->|Hy]%elem_of_cons [->|Hz]%elem_of_cons Hyd Hzd; [done|..|by eapply H2].
        -- rewrite (Huniq _ Hyd) in *. specialize (H1 z id Hz Hzd). by rewrite lookup_insert_eq in H1.
        -- rewrite (Huniq _ Hzd) in *. specialize (H1 y id Hy Hyd). by rewrite lookup_insert_eq in H1.
      * intros y id' Hy Hyd. apply lookup_insert_None. split; [apply (H1 y); set_solver|]. intros <-. apply Hx.
        replace x with y; [done|]. eapply (H2 y x); set_solver.
      * intros y z id' Hy Hz. apply H2; set_solver.
  - assert (∀ id, ¬ dispatched x id) as Hno by (intros id ?%Hd; congruence). rewrite IH by (intros id y ?%Hseen; set_solver).
    split; intros [H1 H2]; split.
    + intros y id' [->|Hy]%elem_of_cons Hyd; [by apply Hno in Hyd|]. by apply (H1 y).
    + intros y z id' [->|Hy]%elem_of_cons [->|Hz]%elem_of_cons Hyd Hzd; [done|by apply Hno in Hyd|by apply Hno in Hzd|by eapply H2].
    + intros y id' Hy. apply H1. by right.
    + intros y z id' Hy Hz. apply H2; by right.
Qed.

Lemma checkDAGAcyclic_ok dorder :
  range_order (Adjacency t) dorder →
  ∃ rs, checkDAGAcyclic dorder t = Some rs ∧ (no_errors rs ↔ acyclic (Adjacency t)).
Proof.
  intros Hd. unfold checkDAGAcyclic. destruct (DetectCycles_spec EmptyString (Adjacency t) dorder Hd) as (cs & -> & Hcw & Hac). simpl.
  assert (∃ rs, mapM (λ cycle, first ← head cycle; Some (MkResult first SeverityError "dag-acyclic" cycle)) cs = Some rs ∧
    (no_errors rs ↔ cs = [])) as (rs & -> & Hrs); [|exists rs; split; [done|by rewrite Hrs]].
  clear Hac. induction Hcw as [|c cs (_ & x & l & ->) _ (rs & E & Hrs)]; [exists []; split; [done|]; by rewrite no_errors_nil|].
  simpl. rewrite E. simpl. eexists; split; [done|]. split; [|done]. intros Hf. inversion_clear Hf. done.
Qed.

Lemma tree_warnings order iorder rorder :
  no_errors (checkOrphanDirectories stat repoRoot order t) ∧ no_errors (checkStalePropagation order rorder t) ∧
  no_errors (checkArchivedDependencies order t) ∧ no_errors (checkAffectsTooBroad order iorder t).
Proof.
  split_and!.
  - apply no_errors_warnings. intros r. unfold checkOrphanDirectories. case_decide; [by intros ?%elem_of_nil|].
    intros (x & _ & E)%list_elem_of_omap. repeat case_match; simplify_eq. done.
  - apply no_errors_bind. intros x _. destruct (has_status _ _ _); [|by apply no_errors_nil].
    apply no_errors_warnings. by intros r (d & -> & _)%list_elem_of_fmap.
  - apply no_errors_bind. intros x _. destruct (spec_at t x) as [s|]; [|by apply no_errors_nil].
    case_decide; [by apply no_errors_nil|]. apply no_errors_warnings. by intros r (d & -> & _)%list_elem_of_fmap.
  - apply no_errors_bind. intros x _. destruct (spec_at t x) as [s|]; [|by apply no_errors_nil].
    destruct (affecting s); [|by apply no_errors_nil]. generalize (∅ : gset string).
    induction (spec_Affects s) as [|e l IH]; intros seen; simpl; [by apply no_errors_nil|]. destruct (_ || _); [apply IH|].
    apply no_errors_app. split; [|apply IH]. destruct (_ <? _)%Z; [|by apply no_errors_nil].
    apply no_errors_warnings. by intros r ->%list_elem_of_singleton.
Qed.

(** C40: validation is sound and complete.  It always returns, and it reports no
    error exactly when every spec of the tree is in order by itself, the
    dependencies among live specs have no cycle, and no two specs claim the same
    dispatched task. *)
Theorem ValidateTree_spec o :
  range_order (All t) (or_all o) → range_order (Adjacency t) (or_cycles o) →
  ∃ rs, ValidateTree stat repoRoot o t = Some rs ∧
    (no_errors rs ↔
     (∀ x p n s, All t !! x = Some p → heap t !! p = Some n → Value n = Some s → spec_ok s (IsLeaf n)) ∧
     acyclic (Adjacency t) ∧ ∀ x y id, dispatched x id → dispatched y id → x = y).
Proof.
  intros Ho Hc. unfold ValidateTree. destruct (checkDAGAcyclic_ok _ Hc) as (ra & -> & Ha). simpl.
  destruct (checkStatusConsistency_total (or_all o)) as (rc & -> & Hrc). simpl. eexists; split; [done|].
  destruct (tree_warnings (or_all o) (or_affects o) (or_reverse o)) as (W1 & W2 & W3 & W4).
  assert (∀ x, x ∈ or_all o ↔ is_Some (All t !! x)) as Hall by (intros x; rewrite (range_order_elem (All t)) by done; apply elem_of_dom).
  assert (∀ x id, dispatched x id → x ∈ or_all o) as Hdisp.
  { intros x id (s & Hs & _). apply Hall. unfold spec_at in Hs. by destruct (All t !! x). }
  rewrite !no_errors_app, no_errors_bind, Ha. unfold checkUniqueDispatches.
  rewrite unique_loop_ok; [|by eapply range_order_NoDup|done].
  assert ((∀ x, x ∈ or_all o → no_errors match (p ← All t !! x; heap t !! p) with
    | Some node => match Value node with Some s => ValidateSpec stat repoRoot s (IsLeaf node) | None => [] end
    | None => [] end) ↔
    ∀ x p n s, All t !! x = Some p → heap t !! p = Some n → Value n = Some s → spec_ok s (IsLeaf n)) as ->.
  { split.
    - intros Hx x p n s Hp Hn Hv. apply ValidateSpec_ok. specialize (Hx x). rewrite Hp in Hx. simpl in Hx. rewrite Hn, Hv in Hx. apply Hx, Hall. eauto.
    - intros Hx x _. destruct (All t !! x) as [p|] eqn:Hp; simpl; [|by apply no_errors_nil].
      destruct (heap t !! p) as [n|] eqn:Hn; [|by apply no_errors_nil]. destruct (Value n) as [s|] eqn:Hv; [|by apply no_errors_nil].
      apply ValidateSpec_ok. by eapply Hx. }
  split.
  - intros (H1 & H2 & _ & _ & _ & _ & (_ & H3) & _). split_and!; [done..|]. intros x y id Hx Hy. by eapply H3; eauto.
  - intros (H1 & H2 & H3). split_and!; try done. intros x y id _ _. apply H3.
Qed.

(** A document without frontmatter is reported as an error, although the tree
    tolerates it: it has no status, effort, dates or author. *)
Lemma document_reported s isLeaf :
  spec_Doc s = true → spec_Status s = EmptyString → ¬ no_errors (ValidateSpec stat repoRoot s isLeaf).
Proof. intros _ Hs Hok%ValidateSpec_ok. destruct Hok. rewrite Hs in ok_status0. vm_compute in ok_status0. set_solver. Qed.
End facts.

Module ValidateRun.
Import TreeRun.

Definition orders : Orders := MkOrders keys ["src/a"; "src/a/x"; "src/b"] keys keys.

Lemma ValidateTree_spec_witness :
  ∃ rs, ValidateTree (λ _, true) "/w" orders demo = Some rs ∧
    (no_errors rs ↔
     (∀ x p n s, All demo !! x = Some p → heap demo !! p = Some n → Value n = Some s → spec_ok (λ _, true) "/w" s (IsLeaf n)) ∧
     acyclic (Adjacency demo) ∧ ∀ x y id, dispatched demo x id → dispatched demo y id → x = y).
Proof. apply (ValidateTree_spec (λ _, true) "/w" demo demo_wf orders); range_order_tac. Defined.
End ValidateRun.
