(* ===== verification/SpecFront.v ===== *)
(** * Frontmatter of spec files (internal/spec: parse.go, write.go)

    A spec file is YAML between two [---] lines, then markdown.  [yaml.v3] is
    the class [YamlLib]: decoding into a [Spec], decoding into nodes, encoding
    nodes and marshalling a string.  A node has the fields of [yaml.Node] that the
    encoder writes from; the pointer of an alias node to its anchor is left out, since
    an alias is written from its [Value].  Its laws: the content
    of a mapping alternates keys and values; no line of an encoding starts with [---], the mark between documents, and there is no carriage
    return in it, since the encoder quotes strings with either.  Slice expressions are [option]s,
    [None] a panic; no function here panics ([ParseBytes_cases], [update_content_cases]).

    A calendar date is a triple. *)

From S2P Require Import Prelude GoStrings GoText AtomicFile SpecTree.
From Stdlib Require Import Ascii String.
From stdpp Require Import list gmap pretty.
Local Open Scope Z_scope.
Local Open Scope string_scope.
#[local] Arguments String.append : simpl nomatch.

(** ** yaml.v3 *)

(** The kind of a node; [ZeroNode] is that of a node nothing was decoded into. *)
Inductive yaml_kind := ZeroNode | DocumentNode | SequenceNode | MappingNode | ScalarNode | AliasNode.
#[export] Instance yaml_kind_eq_dec : EqDecision yaml_kind.
Proof. solve_decision. Defined.

(** How a node is written, and where it was read. *)
Record yaml_layout := MkLayout {
  Style : Z;
  Anchor : string;
  HeadComment : string;
  LineComment : string;
  FootComment : string;
  Line : Z;
  Column : Z
}.
Definition no_layout : yaml_layout := MkLayout 0 EmptyString EmptyString EmptyString EmptyString 0 0.

#[warnings="-register-all"]
Inductive yaml_node := MkNode (kind : yaml_kind) (tag value : string) (layout : yaml_layout) (content : list yaml_node).
Definition n_Kind (n : yaml_node) : yaml_kind := let 'MkNode k _ _ _ _ := n in k.
Definition n_Value (n : yaml_node) : string := let 'MkNode _ _ v _ _ := n in v.
Definition n_Content (n : yaml_node) : list yaml_node := let 'MkNode _ _ _ _ c := n in c.
Definition with_content (c : list yaml_node) (n : yaml_node) : yaml_node := let 'MkNode k t v l _ := n in MkNode k t v l c.

(** [&yaml.Node{Kind: yaml.ScalarNode, Tag: tag, Value: value}]. *)
Definition scalar (tag value : string) : yaml_node := MkNode ScalarNode tag value no_layout [].

Definition mark : string := "---".
Definition front_open : string := mark +:+ nl.
Definition front_close : string := nl +:+ mark +:+ nl.
Definition carriage_return : ascii := Ascii.ascii_of_nat 13.
Definition crlf : string := String carriage_return nl.

Class YamlLib := {
  yaml_Spec : string → option Spec;
  yaml_Node : string → option yaml_node;
  yaml_Encode : yaml_node → option string;
  yaml_Marshal : string → option string;
  yaml_Node_pairs : ∀ text doc m others, yaml_Node text = Some doc → n_Content doc = m :: others → n_Kind m = MappingNode →
    ∃ ps : list (yaml_node * yaml_node), n_Content m = ps ≫= λ p, [p.1; p.2];
  yaml_Encode_lines : ∀ doc out, yaml_Encode doc = Some out →
    free_of carriage_return out ∧ Forall (λ l, HasPrefix l mark = false) (Split newline out);
  yaml_Marshal_lines : ∀ x out, yaml_Marshal x = Some out →
    free_of carriage_return out ∧ Forall (λ l, HasPrefix l mark = false) (Split newline out)
}.

(** ** parse.go *)

Inductive parse_error := ErrEmptySpec | ErrMissingFrontmatter | ErrNoClosing | ErrParseFrontmatter.

Section parse.
Context `{YamlLib}.

(** Where the frontmatter ends in what follows the opening mark. *)
Definition front_end (rest : string) : option Z :=
  let e := Index rest front_close in
  if Z.ltb e 0 then (if HasSuffix rest (nl +:+ mark) then Some (len rest - 3) else None) else Some e.

Definition ParseBytes (data path : string) : option (result parse_error Spec) :=
  if decide (data = EmptyString) then Some (Err ErrEmptySpec)
  else
    let content := ReplaceAll data crlf nl in
    if negb (HasPrefix content front_open) then Some (Err ErrMissingFrontmatter)
    else
      rest ← slice content 4 (len content);
      match front_end rest with
      | None => Some (Err ErrNoClosing)
      | Some e =>
        frontmatter ← slice rest 0 e;
        body ← (if Z.ltb (e + 4) (len rest) then trim_left (is_ascii newline) <$> slice rest (e + 4) (len rest)
                else Some EmptyString);
        match yaml_Spec frontmatter with
        | None => Some (Err ErrParseFrontmatter)
        | Some s => Some (Ok (s <| spec_Path := path |> <| spec_Body := body |>))
        end
      end.

Definition BodyForAnchoring (data path : string) : option (result parse_error string) :=
  r ← ParseBytes data path;
  Some (match r with
        | Ok s => Ok (spec_Body s)
        | Err ErrMissingFrontmatter => Ok (ReplaceAll data crlf nl)
        | Err e => Err e
        end).

(** [ParseFile]: [None] in the file system is a read error. *)
Inductive file_error := ErrRead | ErrParse (e : parse_error) | ErrHasFrontmatter | ErrStructure | ErrSerialize | ErrWrite (e : string).

Definition ParseFile (fs : FileSystem) (path : string) : option (result file_error Spec) :=
  match fs !! path with
  | None => Some (Err ErrRead)
  | Some f => r ← ParseBytes (f_data f) path; Some (match r with Ok s => Ok s | Err e => Err (ErrParse e) end)
  end.

Definition trackFromPath (path : string) : string :=
  match Cut slash (TrimPrefix path "specs/") with
  | None => EmptyString
  | Some (track, _) => track
  end.

(** ** write.go *)

Inductive yaml_value :=
| VNil
| VString (s : string)
| VStringPtr (s : option string)
| VDate (y m d : Z)
| VOther (printed : string).

Definition pad (width : nat) (n : Z) : string :=
  let p := pretty n in String.concat EmptyString (replicate (width - String.length p) "0") +:+ p.

(** [t.Format(time.DateOnly)]. *)
Definition format_date (y m d : Z) : string := pad 4 y +:+ "-" +:+ pad 2 m +:+ "-" +:+ pad 2 d.

Definition toYAMLNode (v : yaml_value) : yaml_node :=
  match v with
  | VNil | VStringPtr None => scalar "!!null" "null"
  | VString s | VStringPtr (Some s) => scalar EmptyString s
  | VDate y m d => scalar EmptyString (format_date y m d)
  | VOther s => scalar EmptyString s
  end.

(** Keys and values alternate in a mapping's content. *)
Fixpoint updateMappingKey (content : list yaml_node) (key : string) (val : yaml_node) : option (list yaml_node) :=
  match content with
  | k :: v :: rest =>
    if decide (n_Value k = key) then Some (k :: val :: rest)
    else (λ r, k :: v :: r) <$> updateMappingKey rest key val
  | _ => None
  end.

Definition apply_update (content : list yaml_node) (u : string * yaml_value) : list yaml_node :=
  let val := toYAMLNode u.2 in
  match updateMappingKey content u.1 val with
  | Some c => c
  | None => (content ++ [scalar EmptyString u.1; val])%list
  end.

(** The part of [UpdateFrontmatter] between reading and writing; [updates] are
    the entries of the map in iteration order. *)
Definition update_content (updates : list (string * yaml_value)) (data : string) : option (result file_error string) :=
  let content := ReplaceAll data crlf nl in
  if negb (HasPrefix content front_open) then Some (Err (ErrParse ErrMissingFrontmatter))
  else
    rest ← slice content 4 (len content);
    let e := Index rest front_close in
    match (if Z.ltb e 0
           then (if HasSuffix rest (nl +:+ mark) then Some (len rest - 3, len rest + 1) else None)
           else Some (e, e + 5)) with
    | None => Some (Err (ErrParse ErrNoClosing))
    | Some (e, bodyStart) =>
      fmText ← slice rest 0 e;
      body ← (if Z.leb bodyStart (len rest) then slice rest bodyStart (len rest) else Some EmptyString);
      match yaml_Node fmText with
      | None => Some (Err (ErrParse ErrParseFrontmatter))
      | Some doc =>
        match n_Content doc with
        | mapping :: others =>
          if negb (bool_decide (n_Kind doc = DocumentNode)) || negb (bool_decide (n_Kind mapping = MappingNode)) then Some (Err ErrStructure)
          else
            match yaml_Encode (with_content (with_content (foldl apply_update (n_Content mapping) updates) mapping :: others) doc) with
            | None => Some (Err ErrSerialize)
            | Some out =>
              let fmOut := trim_right (is_ascii newline) (TrimSuffix out ("..." +:+ nl)) in
              Some (Ok (front_open +:+ fmOut +:+ front_close +:+ body))
            end
        | [] => Some (Err ErrStructure)
        end
      end
    end.

(** The mode of an existing file is kept. *)
Definition perm_of (fs : FileSystem) (path : string) : Z := from_option f_mode 420 (fs !! path).

Definition write_back (o : Outcomes string) (path content : string) (fs : FileSystem) : result file_error unit * FileSystem :=
  let r := Write o path content (perm_of fs path) fs in
  (match r.1 with Ok _ => Ok tt | Err e => Err (ErrWrite e) end, after r fs).

Definition UpdateFrontmatter (o : Outcomes string) (path : string) (updates : list (string * yaml_value)) (fs : FileSystem)
  : option (result file_error unit * FileSystem) :=
  if decide (updates = []) then Some (Ok tt, fs)
  else match fs !! path with
       | None => Some (Err ErrRead, fs)
       | Some f =>
         r ← update_content updates (f_data f);
         Some (match r with
               | Err e => (Err e, fs)
               | Ok out => write_back o path out fs
               end)
       end.
End parse.

(** ** Facts *)

(** Resolves the binds whose first part is known, and nothing else. *)
Ltac opt_step := cbn [mbind option_bind fmap option_fmap option_map negb].

Section facts.
Context `{YamlLib}.

(** What the opening mark leaves. *)
Lemma open_slice content : HasPrefix content front_open = true →
  ∃ rest, content = front_open +:+ rest ∧ slice content 4 (len content) = Some rest.
Proof.
  intros [rest ->]%prefix_iff. exists rest. split; [done|]. apply slice_from; [done|]. by rewrite len_app.
Qed.

(** The two ways in which frontmatter ends. *)
Lemma front_end_cases rest :
  match front_end rest with
  | None => Index rest front_close = -1 ∧ HasSuffix rest (nl +:+ mark) = false
  | Some e => (∃ fm body, rest = fm +:+ front_close +:+ body ∧ e = len fm ∧ Index rest front_close = e) ∨
              (∃ fm, rest = fm +:+ nl +:+ mark ∧ e = len fm + 1 ∧ Index rest front_close = -1)
  end.
Proof.
  unfold front_end. destruct (decide (Index rest front_close = -1)) as [E|E].
  - rewrite E. change (-1 <? 0)%Z with true. destruct (HasSuffix rest (nl +:+ mark)) eqn:Hs; [|done]. right. apply HasSuffix_iff in Hs as [fm ->].
    exists fm. split; [done|]. split; [|done]. rewrite len_app. change (len (nl +:+ mark)) with 4. lia.
  - apply Index_found in E as (fm & body & Er & Ei & _). rewrite (proj2 (Z.ltb_ge _ _)) by (rewrite Ei; apply len_nonneg).
    left. eauto.
Qed.

(** What follows the closing mark, its line break included. *)
Lemma slice_after_mark fm body :
  slice (fm +:+ front_close +:+ body) (len fm + 4) (len fm + (5 + len body)) = Some (nl +:+ body).
Proof.
  replace (fm +:+ front_close +:+ body) with ((fm +:+ nl +:+ mark) +:+ nl +:+ body) by (by rewrite !str_app_assoc).
  apply slice_from; rewrite ?len_app; change (len nl) with 1; change (len mark) with 3; lia.
Qed.

(** [ParseBytes] never panics; on success the body is what follows the closing
    mark, without its leading line breaks. *)
Lemma ParseBytes_cases data path :
  ∃ r, ParseBytes data path = Some r ∧
    match r with
    | Ok s => ∃ fm rest, ReplaceAll data crlf nl = front_open +:+ fm +:+ rest ∧ spec_Path s = path ∧
        ((∃ body, rest = front_close +:+ body ∧ Index (fm +:+ rest) front_close = len fm ∧
                  spec_Body s = trim_left (is_ascii newline) body) ∨
         (rest = nl +:+ mark ∧ Index (fm +:+ rest) front_close = -1 ∧ spec_Body s = EmptyString))
    | Err _ => True
    end.
Proof.
  unfold ParseBytes. case_decide; [by eexists|]. set (content := ReplaceAll data crlf nl).
  destruct (HasPrefix content front_open) eqn:Hp; opt_step; [|by eexists]. destruct (open_slice content Hp) as (rest & Ec & ->). opt_step.
  pose proof (front_end_cases rest) as Hend. destruct (front_end rest) as [e|]; [|by eexists].
  destruct Hend as [(fm & body & -> & -> & Hi)|(fm & -> & -> & Hi)].
  - rewrite slice_to by done. opt_step. pose proof (len_nonneg body).
    replace (len (fm +:+ front_close +:+ body)) with (len fm + (5 + len body)) by (by rewrite len_app, len_app).
    rewrite (proj2 (Z.ltb_lt _ _)) by lia.
    rewrite slice_after_mark.
    opt_step. destruct (yaml_Spec fm) as [s|]; [|by eexists]. eexists; split; [done|]. exists fm, (front_close +:+ body).
    split; [done|]. split; [done|]. left. by exists body.
  - replace (fm +:+ nl +:+ mark) with ((fm +:+ nl) +:+ mark) by (by rewrite str_app_assoc).
    rewrite slice_to by (rewrite len_app; done). opt_step. rewrite !len_app. change (len nl) with 1. change (len mark) with 3.
    rewrite (proj2 (Z.ltb_ge _ _)) by lia. opt_step. destruct (yaml_Spec _) as [s|]; [|by eexists].
    eexists; split; [done|]. exists fm, (nl +:+ mark). split; [done|]. split; [done|]. right. done.
Qed.

(** The frontmatter written is a prefix of the encoder's output. *)
Lemma front_out_prefix out : ∃ q, out = trim_right (is_ascii newline) (TrimSuffix out ("..." +:+ nl)) +:+ q.
Proof.
  destruct (trim_right_split (is_ascii newline) (TrimSuffix out ("..." +:+ nl))) as (u & Hu & _).
  unfold TrimSuffix in *. destruct (HasSuffix out ("..." +:+ nl)) eqn:Hs; [|eauto].
  apply HasSuffix_iff in Hs as [r ->]. rewrite slice_to in * by (rewrite len_app; lia).
  cbn [from_option default id] in *. exists (u +:+ "..." +:+ nl). rewrite Hu at 1. by rewrite str_app_assoc.
Qed.

(** A prefix of an encoding has no line that is the mark. *)
Lemma prefix_no_mark p q : Forall (λ l, HasPrefix l mark = false) (Split newline (p +:+ q)) → mark ∉ Split newline p.
Proof.
  intros Hl Hin. destruct (Split_part newline _ q _ Hin) as (l' & Hl' & r & ->). rewrite Forall_forall in Hl.
  specialize (Hl _ Hl'). assert (HasPrefix (mark +:+ r) mark = true) by (apply prefix_iff; eauto). congruence.
Qed.

Lemma front_out_mark out : Forall (λ l, HasPrefix l mark = false) (Split newline out) →
  mark ∉ Split newline (trim_right (is_ascii newline) (TrimSuffix out ("..." +:+ nl))).
Proof.
  intros Hl. destruct (front_out_prefix out) as [q Hq]. apply (prefix_no_mark _ q). by rewrite <- Hq.
Qed.

Lemma front_out_free out : free_of carriage_return out →
  free_of carriage_return (trim_right (is_ascii newline) (TrimSuffix out ("..." +:+ nl))).
Proof. destruct (front_out_prefix out) as [q Hq]. rewrite Hq at 1. unfold free_of. by intros [? _]%all_bytes_app. Qed.

Lemma tail_free fm tail body :
  free_of carriage_return (front_open +:+ fm +:+ tail) → (tail = front_close +:+ body ∨ tail = mark ∧ body = EmptyString) →
  free_of carriage_return body.
Proof. unfold free_of. intros [_ [_ Ht]%all_bytes_app]%all_bytes_app [->|[-> ->]]; [|done]. by apply all_bytes_app in Ht as [_ Ht]. Qed.

(** A successful write-back. *)
Lemma write_back_ok o path out fs f :
  admissible o path fs → fs !! path = Some f → (write_back o path out fs).1 = Ok tt →
  (write_back o path out fs).2 !! path = Some (MkFile out (f_mode f)) ∧
  ∀ q, q ≠ path → (write_back o path out fs).2 !! q = fs !! q.
Proof.
  intros Hadm Hf. unfold write_back, perm_of, Write. rewrite Hf. destruct (write_states o path out (f_mode f) false fs Hadm) as [_ Hw].
  cbn [fst snd from_option]. destruct (write o path out (f_mode f) false fs).1; [|done]. intros _. split.
  - by rewrite Hw, decide_True.
  - intros q Hq. by rewrite Hw, decide_False.
Qed.

(** The value of a key: the first pair whose key is that scalar. *)
Fixpoint mapping_get (content : list yaml_node) (key : string) : option yaml_node :=
  match content with
  | k :: v :: rest => if decide (n_Value k = key) then Some v else mapping_get rest key
  | _ => None
  end.

Definition mapping (ps : list (yaml_node * yaml_node)) : list yaml_node := ps ≫= λ p, [p.1; p.2].

Lemma mapping_get_app ps qs key :
  mapping_get (mapping ps ++ mapping qs)%list key = match mapping_get (mapping ps) key with Some v => Some v | None => mapping_get (mapping qs) key end.
Proof. induction ps as [|[k v] ps IH]; simpl; [done|]. by case_decide. Qed.

(** A missing key is reported as such; otherwise exactly its value changes. *)
Lemma updateMappingKey_spec ps key val :
  match updateMappingKey (mapping ps) key val with
  | None => mapping_get (mapping ps) key = None
  | Some c => ∃ qs, c = mapping qs ∧ qs.*1 = ps.*1 ∧ mapping_get (mapping ps) key ≠ None ∧
                ∀ k, mapping_get c k = if decide (k = key) then Some val else mapping_get (mapping ps) k
  end.
Proof.
  induction ps as [|[k v] ps IH]; simpl; [done|]. case_decide as Hk.
  - exists ((k, val) :: ps). split; [done|]. split; [done|]. split; [done|]. intros k'. simpl.
    destruct (decide (k' = key)) as [->|Hne]; [by rewrite decide_True|]. by rewrite !decide_False by congruence.
  - destruct (updateMappingKey (mapping ps) key val) as [c|]; simpl; [|done]. destruct IH as (qs & -> & Hfst & Hsome & Hget).
    exists ((k, v) :: qs). split; [done|]. split; [csimpl; congruence|]. split; [done|]. intros k'. simpl. rewrite Hget.
    destruct (decide (k' = key)) as [->|Hne]; [|done]. by rewrite decide_False.
Qed.

Lemma apply_update_spec ps u :
  ∃ qs, apply_update (mapping ps) u = mapping qs ∧
    qs.*1 = (ps.*1 ++ if decide (mapping_get (mapping ps) u.1 = None) then [scalar EmptyString u.1] else [])%list ∧
    ∀ k, mapping_get (mapping qs) k = if decide (k = u.1) then Some (toYAMLNode u.2) else mapping_get (mapping ps) k.
Proof.
  unfold apply_update. pose proof (updateMappingKey_spec ps u.1 (toYAMLNode u.2)) as Hs.
  destruct (updateMappingKey _ _ _) as [c|].
  { destruct Hs as (qs & -> & Hk & Hsome & Hget). exists qs. rewrite decide_False by done. by rewrite app_nil_r. }
  exists (ps ++ [(scalar EmptyString u.1, toYAMLNode u.2)])%list. rewrite decide_True, fmap_app by done. unfold mapping. rewrite bind_app.
  split; [done|]. split; [done|].
  intros k. pose proof (mapping_get_app ps [(scalar EmptyString u.1, toYAMLNode u.2)] k) as E. unfold mapping in E. rewrite E.
  simpl. destruct (decide (k = u.1)) as [->|Hne].
  - unfold mapping in Hs. rewrite Hs. by rewrite decide_True.
  - rewrite decide_False by congruence. clear. by destruct (mapping_get _ k).
Qed.

(** The keys among [ks] that a mapping does not have. *)
Definition absent (content : list yaml_node) (ks : list string) : list string := filter (λ k, mapping_get content k = None) ks.

(** After all updates a key has the value of the update that names it, the
    other keys what they had, and new keys come at the end: but for their order, the
    order of the map's entries does not matter. *)
Lemma updates_spec us : NoDup us.*1 → ∀ ps,
  ∃ qs, foldl apply_update (mapping ps) us = mapping qs ∧
    qs.*1 = (ps.*1 ++ (scalar EmptyString <$> absent (mapping ps) us.*1))%list ∧
    ∀ k, mapping_get (mapping qs) k =
         match (list_to_map us : gmap string yaml_value) !! k with
         | Some v => Some (toYAMLNode v)
         | None => mapping_get (mapping ps) k
         end.
Proof.
  induction us as [|[key v] us IH]; intros Hnd ps; [exists ps; by rewrite app_nil_r|]. apply NoDup_cons in Hnd as [Hni Hnd].
  destruct (apply_update_spec ps (key, v)) as (qs & E & Hk & Hget). destruct (IH Hnd qs) as (rs & E' & Hk' & Hget'). exists rs.
  split; [simpl; by rewrite E|]. split.
  - rewrite Hk', Hk, <-app_assoc. f_equal. cbn [fst]. rewrite fmap_cons. unfold absent. rewrite filter_cons. cbn [fst].
    assert (filter (λ k, mapping_get (mapping qs) k = None) us.*1 = filter (λ k, mapping_get (mapping ps) k = None) us.*1) as ->.
    { apply list_filter_agree. intros k Hin. rewrite Hget, decide_False; [done|]. intros ->. done. }
    by repeat case_decide.
  - intros k. rewrite Hget'. simpl. destruct (decide (k = key)) as [->|Hne].
    + rewrite lookup_insert_eq. rewrite (not_elem_of_list_to_map_1 us key Hni). rewrite Hget. by rewrite decide_True.
    + rewrite lookup_insert_ne by done. rewrite Hget, decide_False by done. done.
Qed.

(** Parsing a text whose marks are where [front_end] finds them. *)
Lemma ParseBytes_split data path fm tail body :
  ReplaceAll data crlf nl = front_open +:+ fm +:+ tail →
  (tail = front_close +:+ body ∨ tail = mark ∧ body = EmptyString) → front_end (fm +:+ tail) = Some (len fm) →
  ParseBytes data path =
    Some (match yaml_Spec fm with
          | None => Err ErrParseFrontmatter
          | Some s => Ok (s <| spec_Path := path |> <| spec_Body := trim_left (is_ascii newline) body |>)
          end).
Proof.
  intros Hr Htail He. unfold ParseBytes. rewrite decide_False by (intros ->; discriminate). rewrite Hr.
  assert (HasPrefix (front_open +:+ fm +:+ tail) front_open = true) as Hp by (apply prefix_iff; by eexists). rewrite Hp.
  destruct (open_slice _ Hp) as (rest & Ed & ->). opt_step. apply (inj (String.append front_open)) in Ed as <-.
  rewrite He, slice_to by done. opt_step. pose proof (len_nonneg body). destruct Htail as [->|[-> ->]].
  - replace (len (fm +:+ front_close +:+ body)) with (len fm + (5 + len body)) by (by rewrite len_app, len_app).
    rewrite (proj2 (Z.ltb_lt _ _)) by lia. rewrite slice_after_mark. opt_step. by destruct (yaml_Spec fm).
  - rewrite len_app. change (len mark) with 3. rewrite (proj2 (Z.ltb_ge _ _)) by lia. opt_step. by destruct (yaml_Spec fm).
Qed.

(** Frontmatter without a [---] line is found again. *)
Lemma front_end_assembled fm body : mark ∉ Split newline fm → front_end (fm +:+ front_close +:+ body) = Some (len fm).
Proof.
  intros Hm. assert (Index (fm +:+ front_close +:+ body) front_close = len fm) as Hi.
  { apply Index_first. intros pre' post' E. apply (line_first mark fm body pre' post'); [done|by repeat split|exact E]. }
  unfold front_end. rewrite Hi. pose proof (len_nonneg fm). by rewrite (proj2 (Z.ltb_ge _ _)) by lia.
Qed.

Lemma ParseBytes_assembled fm body path :
  mark ∉ Split newline fm → free_of carriage_return fm → free_of carriage_return body →
  ParseBytes (front_open +:+ fm +:+ front_close +:+ body) path =
    Some (match yaml_Spec fm with
          | None => Err ErrParseFrontmatter
          | Some s => Ok (s <| spec_Path := path |> <| spec_Body := trim_left (is_ascii newline) body |>)
          end).
Proof.
  intros Hm Hf Hb. eapply ParseBytes_split; [|by left|by apply front_end_assembled].
  apply ReplaceAll_absent. unfold free_of in *. rewrite !all_bytes_app. by repeat split.
Qed.

(** The two ends [UpdateFrontmatter] computes, and the body it cuts out. *)
Lemma update_bounds rest :
  match (if Z.ltb (Index rest front_close) 0
         then (if HasSuffix rest (nl +:+ mark) then Some (len rest - 3, len rest + 1) else None)
         else Some (Index rest front_close, Index rest front_close + 5)) with
  | None => True
  | Some (e, bodyStart) => ∃ fm tail body, rest = fm +:+ tail ∧ e = len fm ∧ front_end rest = Some e ∧
      (tail = front_close +:+ body ∨ tail = mark ∧ body = EmptyString) ∧
      (if Z.leb bodyStart (len rest) then slice rest bodyStart (len rest) else Some EmptyString) = Some body
  end.
Proof.
  pose proof (front_end_cases rest) as Hend. unfold front_end in *.
  destruct (Index rest front_close <? 0)%Z eqn:Hneg; [destruct (HasSuffix rest (nl +:+ mark)); [|done]|].
  - apply Z.ltb_lt in Hneg. destruct Hend as [(fm & body & E & He & Hi)|(fm & E & He & Hi)]; [pose proof (len_nonneg fm); lia|].
    exists (fm +:+ nl), mark, EmptyString. rewrite str_app_assoc, len_app. rewrite (proj2 (Z.leb_gt _ _)) by lia.
    split_and!; try done. by right.
  - apply Z.ltb_ge in Hneg. destruct Hend as [(fm & body & E & He & _)|(fm & E & He & Hi)]; [|lia].
    exists fm, (front_close +:+ body), body. rewrite He. split_and!; [done..|by left|].
    rewrite E. replace (len (fm +:+ front_close +:+ body)) with (len fm + (5 + len body)) by (by rewrite len_app, len_app).
    pose proof (len_nonneg body). rewrite (proj2 (Z.leb_le _ _)) by lia.
    rewrite <- str_app_assoc. apply slice_from; rewrite len_app; change (len front_close) with 5; lia.
Qed.

(** What [UpdateFrontmatter] makes of a file's text: no panic, and on success
    the frontmatter between the marks is replaced and the rest kept. *)
Lemma update_content_cases updates data :
  ∃ r, update_content updates data = Some r ∧
    ∀ out, r = Ok out → ∃ fm tail body root m others doc fm',
      ReplaceAll data crlf nl = front_open +:+ fm +:+ tail ∧
      (tail = front_close +:+ body ∨ tail = mark ∧ body = EmptyString) ∧
      front_end (fm +:+ tail) = Some (len fm) ∧
      yaml_Node fm = Some root ∧ n_Content root = m :: others ∧ n_Kind m = MappingNode ∧
      yaml_Encode (with_content (with_content (foldl apply_update (n_Content m) updates) m :: others) root) = Some doc ∧
      fm' = trim_right (is_ascii newline) (TrimSuffix doc ("..." +:+ nl)) ∧
      out = front_open +:+ fm' +:+ front_close +:+ body.
Proof.
  unfold update_content. set (text := ReplaceAll data crlf nl).
  destruct (HasPrefix text front_open) eqn:Hp; opt_step; [|by eexists]. destruct (open_slice text Hp) as (rest & Et & ->). opt_step.
  pose proof (update_bounds rest) as Hend. destruct (if (_ <? 0)%Z then _ else _) as [[e bs]|]; [|by eexists].
  destruct Hend as (fm & tail & body & -> & -> & Hfe & Htail & ->). rewrite slice_to by done. opt_step.
  destruct (yaml_Node fm) as [root|] eqn:Hn; [|by eexists]. destruct (n_Content root) as [|m others] eqn:Hc; [by eexists|].
  case_bool_decide; [|by eexists]. case_bool_decide; [|by eexists]. cbn [negb orb].
  destruct (yaml_Encode _) as [doc|] eqn:He; [|by eexists]. eexists; split; [done|]. intros out [= <-].
  by exists fm, tail, body, root, m, others, doc, (trim_right (is_ascii newline) (TrimSuffix doc ("..." +:+ nl))).
Qed.

(** C38: [UpdateFrontmatter] never panics.  When it reports success, the node that is
    encoded is the parsed document with only its top mapping changed: the keys stay in
    their order and the new ones follow; an updated key has the node of its new
    value, and every other key the node it had, with its lists, style and comments.
    The file then is that encoding between the marks, and after them the same markdown
    with its line ends normalised; if it has no other carriage returns, parsing the
    new file gives the old body.  The mode is kept and no other file is touched. *)
Theorem UpdateFrontmatter_spec o path updates fs :
  updates ≠ [] → NoDup updates.*1 → admissible o path fs →
  ∃ r fs', UpdateFrontmatter o path updates fs = Some (r, fs') ∧
    (r = Ok tt → ∃ f fm tail body root m others ps qs doc fm',
      fs !! path = Some f ∧ ReplaceAll (f_data f) crlf nl = front_open +:+ fm +:+ tail ∧
      (tail = front_close +:+ body ∨ tail = mark ∧ body = EmptyString) ∧
      yaml_Node fm = Some root ∧ n_Content root = m :: others ∧ n_Content m = mapping ps ∧
      yaml_Encode (with_content (with_content (mapping qs) m :: others) root) = Some doc ∧
      qs.*1 = (ps.*1 ++ (scalar EmptyString <$> absent (mapping ps) updates.*1))%list ∧
      (∀ k, mapping_get (mapping qs) k = match (list_to_map updates : gmap string yaml_value) !! k with
                                         | Some v => Some (toYAMLNode v)
                                         | None => mapping_get (mapping ps) k
                                         end) ∧
      fm' = trim_right (is_ascii newline) (TrimSuffix doc ("..." +:+ nl)) ∧
      f_data <$> fs' !! path = Some (front_open +:+ fm' +:+ front_close +:+ body) ∧
      f_mode <$> fs' !! path = Some (f_mode f) ∧
      (∀ q, q ≠ path → fs' !! q = fs !! q) ∧
      (free_of carriage_return (ReplaceAll (f_data f) crlf nl) → ∀ p s,
        ParseFile fs' path = Some (Ok s) → ∀ s0, ParseBytes (f_data f) p = Some (Ok s0) → spec_Body s = spec_Body s0)).
Proof.
  intros Hne Hnd Hadm. unfold UpdateFrontmatter. rewrite decide_False by done. destruct (fs !! path) as [f|] eqn:Hf; [|by eexists _, _].
  destruct (update_content_cases updates (f_data f)) as (r & -> & Hr). opt_step. destruct r as [out|e]; [|by eexists _, _].
  destruct (Hr out eq_refl) as (fm & tail & body & root & m & others & doc & fm' & Hdata & Htail & Hend & Hnode & Hc & Hk & Henc & Hfm' & ->).
  eexists _, _. split; [by rewrite <- surjective_pairing|]. intros Hok.
  destruct (write_back_ok o path _ fs f Hadm Hf Hok) as [Hpath Hothers].
  destruct (yaml_Node_pairs _ _ _ _ Hnode Hc Hk) as [ps Hps]. destruct (updates_spec updates Hnd ps) as (qs & Hqs & Hkeys & Hget).
  rewrite Hps in Henc. unfold mapping in Hqs at 1. rewrite Hqs in Henc.
  exists f, fm, tail, body, root, m, others, ps, qs, doc, fm'. rewrite Hpath. split_and!; try done.
  intros Hfree p s. rewrite Hdata in Hfree. unfold ParseFile. rewrite Hpath. cbn [f_data].
  destruct (yaml_Encode_lines _ _ Henc) as [Hcr Hlines].
  rewrite ParseBytes_assembled; [|rewrite Hfm'; by apply front_out_mark|rewrite Hfm'; by apply front_out_free|by eapply tail_free].
  opt_step. rewrite (ParseBytes_split _ p fm tail body Hdata Htail Hend).
  destruct (yaml_Spec fm') as [s'|]; [|done]. intros [= <-] s0. destruct (yaml_Spec fm) as [s''|]; [|done]. by intros [= <-].
Qed.
End facts.

(** ** A run with flat [key: value] frontmatter *)

Module FrontRun.
Definition line_pair (line : string) : option (yaml_node * yaml_node) :=
  match Cut ":"%char line with
  | Some (k, v) => Some (scalar EmptyString k, scalar EmptyString (TrimPrefix v " "))
  | None => None
  end.

Definition pairs_of (text : string) : list (yaml_node * yaml_node) := omap line_pair (Split newline text).

Fixpoint print_pairs (content : list yaml_node) : string :=
  match content with
  | k :: v :: rest => n_Value k +:+ ": " +:+ n_Value v +:+ nl +:+ print_pairs rest
  | _ => EmptyString
  end.

(** Encodings that would need quotes are refused. *)
Definition checked (out : string) : option string :=
  if decide (free_of carriage_return out ∧ Forall (λ l, HasPrefix l mark = false) (Split newline out)) then Some out else None.

Lemma checked_ok out out' : checked out = Some out' →
  free_of carriage_return out' ∧ Forall (λ l, HasPrefix l mark = false) (Split newline out').
Proof. unfold checked. case_decide; [|done]. by intros [= <-]. Qed.

Definition field (text key : string) : string := from_option n_Value EmptyString (mapping_get (mapping (pairs_of text)) key).

Definition branch_node (k : yaml_kind) (c : list yaml_node) : yaml_node := MkNode k EmptyString EmptyString no_layout c.
Definition decode (text : string) : option yaml_node := Some (branch_node DocumentNode [branch_node MappingNode (mapping (pairs_of text))]).
Definition encode (doc : yaml_node) : option string :=
  match n_Content doc with [m] => checked (print_pairs (n_Content m)) | _ => None end.
Definition marshal (s : string) : option string := checked (s +:+ nl).

Lemma decode_pairs text doc m others : decode text = Some doc → n_Content doc = m :: others → n_Kind m = MappingNode →
  ∃ ps : list (yaml_node * yaml_node), n_Content m = ps ≫= λ p, [p.1; p.2].
Proof. unfold decode. intros [= <-] [= <- <-] _. by exists (pairs_of text). Qed.

Lemma encode_lines doc out : encode doc = Some out →
  free_of carriage_return out ∧ Forall (λ l, HasPrefix l mark = false) (Split newline out).
Proof. unfold encode. repeat case_match; try done; apply checked_ok. Qed.

Lemma marshal_lines x out : marshal x = Some out →
  free_of carriage_return out ∧ Forall (λ l, HasPrefix l mark = false) (Split newline out).
Proof. apply checked_ok. Qed.

#[export] Instance LineYaml : YamlLib := {|
  yaml_Spec text := Some (MkSpec (field text "title") (field text "status") [] [] (field text "effort") 0 0 (field text "author")
                            None None None EmptyString EmptyString EmptyString EmptyString false);
  yaml_Node := decode;
  yaml_Encode := encode;
  yaml_Marshal := marshal;
  yaml_Node_pairs := decode_pairs;
  yaml_Encode_lines := encode_lines;
  yaml_Marshal_lines := marshal_lines
|}.

Definition spec_text : string :=
  "---" +:+ nl +:+ "title: A" +:+ nl +:+ "status: drafted" +:+ nl +:+ "---" +:+ nl +:+ nl +:+ "# A" +:+ nl.
Definition disk : FileSystem := <["specs/a.md" := MkFile spec_text 420]> ∅.
Definition fine : Outcomes string := MkOutcomes (Ok "specs/.tmp") None None None None None None.

Lemma UpdateFrontmatter_spec_witness :
  UpdateFrontmatter fine "specs/a.md" [("status", VString "stale"); ("updated", VDate 2026 3 9)] disk =
    Some (Ok tt, <["specs/a.md" := MkFile ("---" +:+ nl +:+ "title: A" +:+ nl +:+ "status: stale" +:+ nl +:+ "updated: 2026-03-09"
                                           +:+ nl +:+ "---" +:+ nl +:+ nl +:+ "# A" +:+ nl) 420]> disk) ∧
  ∃ r fs', UpdateFrontmatter fine "specs/a.md" [("status", VString "stale"); ("updated", VDate 2026 3 9)] disk = Some (r, fs').
Proof.
  split; [vm_compute; reflexivity|].
  destruct (UpdateFrontmatter_spec fine "specs/a.md" [("status", VString "stale"); ("updated", VDate 2026 3 9)] disk) as (r & fs' & E & _).
  - discriminate.
  - apply NoDup_cons; split; [intros Hin; apply list_elem_of_singleton in Hin; discriminate|]. apply NoDup_singleton.
  - split; [vm_compute; reflexivity|discriminate].
  - exists r, fs'. exact E.
Defined.
End FrontRun.
