(* ===== verification/SpecScaffold.v ===== *)
(** * New spec files (internal/spec: scaffold.go, index.go, [InjectFrontmatter] of write.go)

    [Scaffold] renders frontmatter and a skeleton and creates the file;
    [InjectFrontmatter] puts frontmatter before an existing document.  The
    answers of the system are an argument, as in AtomicFile: [MkdirAll] and the
    calls on the file may fail, and a failing write leaves a part of the
    content.  The author that [git config] gives and the current date are
    arguments too.  Which runes above 255 [strconv.Quote] takes for
    printable, and [unicode.ToUpper] outside ASCII, are arguments. *)

From S2P Require Import Prelude GoStrings GoText AtomicFile SpecTree SpecFront.
From Stdlib Require Import Ascii String.
From stdpp Require Import list gmap pretty.
Local Open Scope Z_scope.
Local Open Scope string_scope.
#[local] Arguments String.append : simpl nomatch.

(** ** Options *)

Record Date := MkDate { date_Year : Z; date_Month : Z; date_Day : Z }.

Record ScaffoldOptions := MkScaffoldOptions {
  so_Path : string;
  so_Title : string;
  so_Status : SpecStatus;
  so_Effort : Effort;
  so_Author : string;
  so_DependsOn : list string;
  so_Now : option Date;
  so_Force : bool
}.

(** What the process finds around it: [git config user.name] ([None]: it
    failed), the current date, the printable runes, [unicode.ToUpper]
    outside ASCII, the umask. *)
Record Env := MkEnv {
  env_git : option string;
  env_Now : Date;
  env_print : Z → bool;
  env_upper : Z → Z;
  env_umask : Z
}.

Definition or_default (s d : string) : string := if decide (s = EmptyString) then d else s.

Definition ResolveAuthor (env : Env) : string :=
  match env_git env with
  | Some out => or_default (TrimSpace out) "unknown"
  | None => "unknown"
  end.

(** ** Paths and titles *)

Inductive scaffold_error :=
| ErrSuffix
| ErrTrack
| ErrTrackMissing
| ErrStatus
| ErrEffort
| ErrMkdir (e : string)
| ErrExists
| ErrCreate (e : string)
| ErrWriteFile (e : string).

Definition ValidateSpecPath (path : string) : option scaffold_error :=
  let clean := Clean path in
  if negb (HasSuffix clean ".md") then Some ErrSuffix
  else match Split slash clean with
       | p0 :: p1 :: _ :: _ =>
         if decide (p0 = "specs") then (if decide (TrimSpace p1 = EmptyString) then Some ErrTrackMissing else None)
         else Some ErrTrack
       | _ => Some ErrTrack
       end.

Definition TitleFromFilename (env : Env) (path : string) : string :=
  let base := path_Base path in
  let base := TrimSuffix base (path_Ext base) in
  let parts := FieldsFunc (λ r, Z.eqb r 45 || Z.eqb r 95) base in
  match parts with
  | [] => base
  | _ => strings_Join (map (capitalize (env_upper env)) parts) " "
  end.

(** ** Rendering *)

Section render.
Context `{YamlLib}.

Definition yamlScalar (env : Env) (s : string) : string :=
  match yaml_Marshal s with
  | None => Quote (env_print env) s
  | Some out => trim_right (is_ascii newline) out
  end.

Definition dep_lines (dependsOn : list string) : string :=
  match dependsOn with
  | [] => "depends_on: []" +:+ nl
  | _ => "depends_on:" +:+ nl +:+ strings_Join (map (λ d, "  - " +:+ d +:+ nl) dependsOn) EmptyString
  end.

Definition renderFrontmatter (env : Env) (title : string) (status : SpecStatus) (effort : Effort) (author : string)
    (dependsOn : list string) (now : Date) : string :=
  let date := format_date (date_Year now) (date_Month now) (date_Day now) in
  mark +:+ nl
  +:+ "title: " +:+ yamlScalar env title +:+ nl
  +:+ "status: " +:+ status +:+ nl
  +:+ dep_lines dependsOn
  +:+ "affects: []" +:+ nl
  +:+ "effort: " +:+ effort +:+ nl
  +:+ "created: " +:+ date +:+ nl
  +:+ "updated: " +:+ date +:+ nl
  +:+ "author: " +:+ yamlScalar env author +:+ nl
  +:+ "dispatched_task_id: null" +:+ nl
  +:+ mark +:+ nl.

Definition skeleton (title : string) : string :=
  "# " +:+ title +:+ nl +:+ nl
  +:+ "## Problem" +:+ nl +:+ nl
  +:+ "<!-- What problem does this spec address? Why now? -->" +:+ nl +:+ nl
  +:+ "## Design" +:+ nl +:+ nl
  +:+ "<!-- High-level approach. Key decisions and trade-offs. -->" +:+ nl +:+ nl
  +:+ "## Acceptance" +:+ nl +:+ nl
  +:+ "<!-- How will we know this is done? Tests, behaviour changes, files touched. -->" +:+ nl.

Definition RenderSkeleton (env : Env) (title : string) (status : SpecStatus) (effort : Effort) (author : string)
    (dependsOn : list string) (now : Date) : string :=
  renderFrontmatter env title status effort author dependsOn now +:+ nl +:+ skeleton title.

(** ** Scaffold *)

(** The answers to [MkdirAll], [OpenFile] and [Write]; a write that fails has
    put the first bytes into the file. *)
Record ScaffoldOutcomes := MkScaffoldOutcomes {
  sc_mkdir : option string;
  sc_open : option string;
  sc_write : option (nat * string)
}.

(** Writing to a file just opened: a new one gets the mode, an existing one
    keeps its own. *)
Definition fill (o : ScaffoldOutcomes) (env : Env) (path content : string) (fs : FileSystem)
  : result scaffold_error string * FileSystem :=
  let mode := from_option f_mode (Z.ldiff 420 (env_umask env)) (fs !! path) in
  match sc_write o with
  | Some (n, e) => (Err (ErrWriteFile e), <[path := MkFile (String.substring 0 n content) mode]> fs)
  | None => (Ok path, <[path := MkFile content mode]> fs)
  end.

Definition Scaffold (o : ScaffoldOutcomes) (env : Env) (opts : ScaffoldOptions) (fs : FileSystem)
  : result scaffold_error string * FileSystem :=
  match ValidateSpecPath (so_Path opts) with
  | Some e => (Err e, fs)
  | None =>
    let status := or_default (so_Status opts) StatusVague in
    if negb (bool_decide (status ∈ ValidStatuses)) then (Err ErrStatus, fs)
    else
      let effort := or_default (so_Effort opts) EffortMedium in
      if negb (bool_decide (effort ∈ ValidEfforts)) then (Err ErrEffort, fs)
      else
        let title := or_default (so_Title opts) (TitleFromFilename env (so_Path opts)) in
        let author := or_default (so_Author opts) (ResolveAuthor env) in
        let now := default (env_Now env) (so_Now opts) in
        let content := RenderSkeleton env title status effort author (so_DependsOn opts) now in
        match sc_mkdir o with
        | Some e => (Err (ErrMkdir e), fs)
        | None =>
          if so_Force opts then
            match sc_open o with
            | Some e => (Err (ErrWriteFile e), fs)
            | None => fill o env (so_Path opts) content fs
            end
          else
            match fs !! so_Path opts, sc_open o with
            | Some _, _ => (Err ErrExists, fs)
            | None, Some e => (Err (ErrCreate e), fs)
            | None, None => fill o env (so_Path opts) content fs
            end
        end
  end.

(** ** Headings *)

Definition indexTitleScanMax : nat := 200.
Definition max_token : Z := 65535.

(** The tokens of [bufio.Scanner] with [ScanLines]: no empty last line, a final
    carriage return dropped; the scan ends at a line that does not fit. *)
Definition drop_cr (l : string) : string := TrimSuffix l (String carriage_return EmptyString).

Fixpoint scan_tokens (lines : list string) : list string :=
  match lines with
  | [] => []
  | [l] => if decide (l = EmptyString) then [] else if Z.ltb max_token (len l) then [] else [drop_cr l]
  | l :: rest => if Z.ltb max_token (len l) then [] else (drop_cr l :: scan_tokens rest)%list
  end.

Definition scan_lines (data : string) : list string := scan_tokens (Split newline data).

Definition h1_of (line : string) : option string :=
  match CutPrefix (trim_right (λ a, is_ascii carriage_return a || is_ascii newline a) line) "# " with
  | Some title => if decide (TrimSpace title = EmptyString) then None else Some (TrimSpace title)
  | None => None
  end.

Fixpoint first_some {A B} (f : A → option B) (l : list A) : option B :=
  match l with
  | [] => None
  | x :: l => match f x with Some y => Some y | None => first_some f l end
  end.

Definition readFirstH1 (data fallback : string) : string :=
  default fallback (first_some h1_of (take indexTitleScanMax (scan_lines data))).

(** ** InjectFrontmatter *)

Definition inject_content (env : Env) (path : string) (opts : ScaffoldOptions) (data : string) : result file_error string :=
  let content := ReplaceAll data crlf nl in
  if HasPrefix content front_open then Err ErrHasFrontmatter
  else
    let title := if decide (so_Title opts = EmptyString) then readFirstH1 data (TitleFromFilename env path) else so_Title opts in
    let status := or_default (so_Status opts) StatusDrafted in
    let effort := or_default (so_Effort opts) EffortMedium in
    let author := or_default (so_Author opts) (ResolveAuthor env) in
    let now := default (env_Now env) (so_Now opts) in
    Ok (renderFrontmatter env title status effort author (so_DependsOn opts) now +:+ nl +:+ content).

Definition InjectFrontmatter (o : Outcomes string) (env : Env) (path : string) (opts : ScaffoldOptions) (fs : FileSystem)
  : result file_error unit * FileSystem :=
  match fs !! path with
  | None => (Err ErrRead, fs)
  | Some f =>
    match inject_content env path opts (f_data f) with
    | Err e => (Err e, fs)
    | Ok out => write_back o path out fs
    end
  end.
End render.

(** ** ResolveIndex *)

Record Index_t := MkIndex { ix_Path : string; ix_Workspace : string; ix_Title : string; ix_Modified : Z }.

Definition indexFallbackTitle : string := "Roadmap".

(** What [os.Stat] says of the roadmap, and its text if it can be opened. *)
Inductive stat_result :=
| StatError
| StatDir
| StatFile (mtime : Z) (data : option string).

Fixpoint ResolveIndex (stat : string → stat_result) (workspaces : list string) : option Index_t :=
  match workspaces with
  | [] => None
  | ws :: rest =>
    match stat (path_Join [ws; "specs"; "README.md"]) with
    | StatError | StatDir => ResolveIndex stat rest
    | StatFile mtime data =>
      let title := match data with Some d => readFirstH1 d indexFallbackTitle | None => indexFallbackTitle end in
      Some (MkIndex "specs/README.md" ws title mtime)
    end
  end.

(** ** Facts *)

(** Bytes of numbers and dates. *)
Lemma pretty_N_go_bytes (p : ascii → Prop) x :
  (∀ y, p (pretty_N_char y)) → ∀ s, all_bytes p s → all_bytes p (pretty_N_go x s).
Proof.
  intros Hc. induction (N.lt_wf_0 x) as [x _ IH]. intros s Hs.
  assert (x = 0 ∨ 0 < x)%N as [->|Hx] by lia; [done|]. rewrite pretty_N_go_step by done.
  apply IH; [apply N.div_lt; lia|]. split; [apply Hc|done].
Qed.

Lemma pretty_Z_bytes (p : ascii → Prop) (n : Z) : (∀ y, p (pretty_N_char y)) → p "-"%char → p "0"%char → all_bytes p (pretty n).
Proof.
  intros Hc Hm H0.
  assert (∀ m : N, all_bytes p (pretty m)) as HN.
  { intros m. unfold pretty, pretty_N. case_decide; [by repeat split|]. by apply pretty_N_go_bytes. }
  unfold pretty, pretty_Z. destruct n; [by repeat split|apply (HN (Npos p0))|]. split; [done|apply (HN (Npos p0))].
Qed.

(** A printed date has digits and dashes only. *)
Lemma format_date_bytes (p : ascii → Prop) y m d :
  (∀ y, p (pretty_N_char y)) → p "-"%char → p "0"%char → all_bytes p (format_date y m d).
Proof.
  intros Hc Hm H0. assert (∀ n, all_bytes p (String.concat EmptyString (replicate n "0"))) as Hz.
  { induction n as [|[|n] IH]; [done|by repeat split|]. change (all_bytes p ("0" +:+ String.concat EmptyString (replicate (S n) "0"))).
    split; done. }
  unfold format_date, pad. rewrite !all_bytes_app. repeat split; try apply Hz; try done; by apply pretty_Z_bytes.
Qed.

Lemma digit_not y c : c = newline ∨ c = carriage_return → pretty_N_char y ≠ c.
Proof. intros [-> | ->]; unfold pretty_N_char; by repeat case_match. Qed.

Lemma format_date_free y m d c : c = newline ∨ c = carriage_return → free_of c (format_date y m d).
Proof.
  intros Hc. apply format_date_bytes; [intros k; by apply digit_not|by destruct Hc as [-> | ->]..].
Qed.

(** What frontmatter can hold: no line that is the mark, no carriage return; and
    a piece of a line. *)
Definition fits (s : string) : Prop := (mark ∉ Split newline s) ∧ free_of carriage_return s.
Definition plain (s : string) : Prop := free_of newline s ∧ free_of carriage_return s.

Lemma plain_app a b : plain a → plain b → plain (a +:+ b).
Proof. unfold plain, free_of. rewrite !all_bytes_app. tauto. Qed.

Lemma fits_nl a b : fits a → fits b → fits (a +:+ nl +:+ b).
Proof.
  intros [Ha Fa] [Hb Fb]. unfold fits, free_of in *. change (nl +:+ b) with (String newline b).
  rewrite Split_app, not_elem_of_app, all_bytes_app. by repeat split.
Qed.

Lemma fits_key c k x : c ≠ "-"%char → plain (String c k) → fits x → fits (String c k +:+ x).
Proof.
  intros Hc [Hk Hr] [Hx Fx]. split; [|unfold free_of in *; by apply all_bytes_app].
  destruct (Split_concat newline (String c k) x) as (init & u & y & rest & E1 & E2 & ->).
  rewrite (Split_free_id newline (String c k) Hk) in E1. destruct init as [|? [|]]; [|done..]. injection E1 as <-. simpl.
  rewrite E2 in Hx. apply not_elem_of_cons in Hx as [_ Hx]. apply not_elem_of_cons. split; [|done].
  unfold mark. congruence.
Qed.

Lemma fits_line c k : c ≠ "-"%char → plain (String c k) → fits (String c k).
Proof.
  intros Hc [Hk Hr]. split; [|done]. rewrite Split_free_id by done. apply not_elem_of_cons.
  split; [unfold mark; congruence|by apply not_elem_of_nil].
Qed.

Lemma date_plain d : plain (format_date (date_Year d) (date_Month d) (date_Day d)).
Proof. split; apply format_date_free; auto. Qed.

Lemma status_plain s : s ∈ ValidStatuses → plain s.
Proof. apply Forall_forall. unfold ValidStatuses. repeat (constructor; [by repeat split|]). constructor. Qed.

Lemma effort_plain s : s ∈ ValidEfforts → plain s.
Proof. apply Forall_forall. unfold ValidEfforts. repeat (constructor; [by repeat split|]). constructor. Qed.

Section scaffold_facts.
Context `{YamlLib}.

(** A marshalled scalar is a text that frontmatter can hold. *)
Lemma yamlScalar_fits env s out : yaml_Marshal s = Some out → fits (yamlScalar env s).
Proof.
  intros Hm. unfold yamlScalar. rewrite Hm. destruct (yaml_Marshal_lines _ _ Hm) as [Hf Hl].
  destruct (trim_right_split (is_ascii newline) out) as (t & E & _). split.
  - apply (prefix_no_mark _ t). by rewrite <- E.
  - rewrite E in Hf. unfold free_of in *. by apply all_bytes_app in Hf as [? _].
Qed.

(** The lines between the marks. *)
Definition front_text (env : Env) (title : string) (status : SpecStatus) (effort : Effort) (author : string)
    (dependsOn : list string) (now : Date) : string :=
  let date := format_date (date_Year now) (date_Month now) (date_Day now) in
  ("title: " +:+ yamlScalar env title) +:+ nl
  +:+ ("status: " +:+ status) +:+ nl
  +:+ dep_lines dependsOn
  +:+ "affects: []" +:+ nl
  +:+ ("effort: " +:+ effort) +:+ nl
  +:+ ("created: " +:+ date) +:+ nl
  +:+ ("updated: " +:+ date) +:+ nl
  +:+ ("author: " +:+ yamlScalar env author) +:+ nl
  +:+ "dispatched_task_id: null".

Lemma render_shape env title status effort author deps now :
  renderFrontmatter env title status effort author deps now =
  front_open +:+ front_text env title status effort author deps now +:+ front_close.
Proof. unfold renderFrontmatter, front_text, front_open, front_close. by rewrite !str_app_assoc. Qed.

Lemma concat_nil x l : strings_Join (x :: l) EmptyString = x +:+ strings_Join l EmptyString.
Proof. destruct l; unfold strings_Join; simpl; by rewrite ?str_app_nil_r. Qed.

Lemma dep_lines_fits deps rest : Forall plain deps → fits rest → fits (dep_lines deps +:+ rest).
Proof.
  intros Hd Hr. assert (∀ rest, fits rest → fits (strings_Join (map (λ d, "  - " +:+ d +:+ nl) deps) EmptyString +:+ rest)) as Hl.
  { clear rest Hr. induction Hd as [|d deps Hp _ IH]; intros rest Hr; [done|]. cbn [map]. rewrite concat_nil, !str_app_assoc.
    rewrite <- str_app_assoc. apply fits_nl; [|by apply IH].
    apply (fits_line " " (" - " +:+ d)); [done|]. by apply (plain_app "  - "). }
  destruct deps as [|d deps]; [by apply (fits_nl "depends_on: []"); [apply fits_line|]|].
  unfold dep_lines. rewrite !str_app_assoc. apply (fits_nl "depends_on:"); [by apply fits_line|]. by apply Hl.
Qed.

(** The frontmatter rendered from plain values is found again by the parser. *)
Lemma front_text_fits env title status effort author deps now t a :
  yaml_Marshal title = Some t → yaml_Marshal author = Some a → plain status → plain effort → Forall plain deps →
  fits (front_text env title status effort author deps now).
Proof.
  intros Ht Ha Hs He Hd. pose proof (date_plain now) as Hn. unfold front_text.
  assert (∀ k v, plain k → plain v → plain (k +:+ v)) as Hkv by apply plain_app.
  apply fits_nl; [apply (fits_key "t" "itle: "); [done..|by eapply yamlScalar_fits]|].
  apply fits_nl; [by apply (fits_line "s" ("tatus: " +:+ status)); [|apply (Hkv "status: ")]|].
  apply dep_lines_fits; [done|]. apply (fits_nl "affects: []"); [by apply fits_line|].
  apply fits_nl; [by apply (fits_line "e" ("ffort: " +:+ effort)); [|apply (Hkv "effort: ")]|].
  apply fits_nl; [by apply (fits_line "c" ("reated: " +:+ _)); [|apply (Hkv "created: ")]|].
  apply fits_nl; [by apply (fits_line "u" ("pdated: " +:+ _)); [|apply (Hkv "updated: ")]|].
  apply fits_nl; [apply (fits_key "a" "uthor: "); [done..|by eapply yamlScalar_fits]|]. by apply fits_line.
Qed.

(** Parsing rendered frontmatter followed by a text. *)
Lemma ParseBytes_rendered env title status effort author deps now t a text path :
  yaml_Marshal title = Some t → yaml_Marshal author = Some a → plain status → plain effort → Forall plain deps →
  free_of carriage_return text →
  ParseBytes (renderFrontmatter env title status effort author deps now +:+ text) path =
    Some (match yaml_Spec (front_text env title status effort author deps now) with
          | None => Err ErrParseFrontmatter
          | Some s => Ok (s <| spec_Path := path |> <| spec_Body := trim_left (is_ascii newline) text |>)
          end).
Proof.
  intros Ht Ha Hs He Hd Hf. destruct (front_text_fits env title status effort author deps now t a) as [Hm Hc]; [done..|].
  rewrite render_shape, !str_app_assoc. by apply ParseBytes_assembled.
Qed.

(** Either nothing is written or the checks passed and the target is free. *)
Lemma Scaffold_cases o env opts fs :
  (∃ e, Scaffold o env opts fs = (Err e, fs)) ∨
  (ValidateSpecPath (so_Path opts) = None ∧ or_default (so_Status opts) StatusVague ∈ ValidStatuses ∧
   or_default (so_Effort opts) EffortMedium ∈ ValidEfforts ∧ (so_Force opts = true ∨ fs !! so_Path opts = None) ∧
   Scaffold o env opts fs = fill o env (so_Path opts)
     (RenderSkeleton env (or_default (so_Title opts) (TitleFromFilename env (so_Path opts)))
        (or_default (so_Status opts) StatusVague) (or_default (so_Effort opts) EffortMedium)
        (or_default (so_Author opts) (ResolveAuthor env)) (so_DependsOn opts) (default (env_Now env) (so_Now opts))) fs).
Proof.
  unfold Scaffold. destruct (ValidateSpecPath (so_Path opts)); [by eauto|].
  case_bool_decide; cbn [negb]; [|by eauto]. case_bool_decide; cbn [negb]; [|by eauto]. destruct (sc_mkdir o); [by eauto|].
  destruct (so_Force opts); [destruct (sc_open o); [by eauto|]; right; by auto 10|].
  destruct (fs !! so_Path opts); [by eauto|]. destruct (sc_open o); [by eauto|]. right. by auto 10.
Qed.

(** [Scaffold] touches no file but its target and never overwrites one
    without [Force].  On success the path is a legal spec path, status and effort
    are legal ones, and the file it leaves is read back by [ParseFile] as the
    rendered frontmatter with the skeleton as body, also when title and author
    have to be quoted; the dependencies, which are inserted unquoted, must not
    break a line. *)
Theorem Scaffold_spec o env opts fs :
  let r := Scaffold o env opts fs in
  (∀ q, q ≠ so_Path opts → r.2 !! q = fs !! q) ∧
  (so_Force opts = false → is_Some (fs !! so_Path opts) → r.2 = fs ∧ ∃ e, r.1 = Err e) ∧
  ∀ p, r.1 = Ok p → 
    let title := or_default (so_Title opts) (TitleFromFilename env p) in
    let status := or_default (so_Status opts) StatusVague in
    let effort := or_default (so_Effort opts) EffortMedium in
    let author := or_default (so_Author opts) (ResolveAuthor env) in
    let now := default (env_Now env) (so_Now opts) in
    p = so_Path opts ∧ ValidateSpecPath p = None ∧ status ∈ ValidStatuses ∧ effort ∈ ValidEfforts ∧
    (is_Some (yaml_Marshal title) → is_Some (yaml_Marshal author) → Forall plain (so_DependsOn opts) →
     free_of carriage_return title →
     ParseFile r.2 p =
       Some (match yaml_Spec (front_text env title status effort author (so_DependsOn opts) now) with
             | None => Err (ErrParse ErrParseFrontmatter)
             | Some s => Ok (s <| spec_Path := p |> <| spec_Body := skeleton title |>)
             end)).
Proof.
  set (content := RenderSkeleton env (or_default (so_Title opts) (TitleFromFilename env (so_Path opts)))
                    (or_default (so_Status opts) StatusVague) (or_default (so_Effort opts) EffortMedium)
                    (or_default (so_Author opts) (ResolveAuthor env)) (so_DependsOn opts) (default (env_Now env) (so_Now opts))).
  destruct (Scaffold_cases o env opts fs) as [[e ->]|(Hv & Hs & He & Hforce & Hr)]; [by split_and!; simpl; eauto|]. fold content in Hr.
  rewrite Hr. unfold fill. destruct (sc_write o) as [[n e]|]; simpl.
  - split_and!; [intros q Hq; by rewrite lookup_insert_ne| |done]. intros Hf Hp. destruct Hforce; [congruence|]. by destruct Hp; simplify_eq.
  - split_and!; [intros q Hq; by rewrite lookup_insert_ne| |].
    { intros Hf Hp. destruct Hforce; [congruence|]. by destruct Hp; simplify_eq. }
    intros p [= <-]. split_and!; [done..|]. intros [t Ht] [a Ha] Hd Hcr. unfold ParseFile. rewrite lookup_insert_eq. cbn [f_data].
    unfold content, RenderSkeleton. erewrite ParseBytes_rendered; [|done|done|by apply status_plain|by apply effort_plain|done|].
    + opt_step. by destruct (yaml_Spec _).
    + unfold skeleton, free_of in *. rewrite !all_bytes_app. by repeat split.
Qed.

Lemma rendered_open x : HasPrefix (ReplaceAll (front_open +:+ x) crlf nl) front_open = true.
Proof. apply prefix_iff. exists (ReplaceAll x crlf nl). by unfold ReplaceAll; simpl. Qed.

Lemma or_default_plain s d : plain s → plain d → plain (or_default s d).
Proof. unfold or_default. by case_decide. Qed.

(** [InjectFrontmatter] is refused on a file that has frontmatter, and
    nothing changes then.  On success no other file and no mode changes, the
    text that comments are anchored to is the one before up to leading blank
    lines, and a second injection is refused. *)
Theorem InjectFrontmatter_spec o env path opts fs :
  admissible o path fs →
  let title d := if decide (so_Title opts = EmptyString) then readFirstH1 d (TitleFromFilename env path) else so_Title opts in
  let author := or_default (so_Author opts) (ResolveAuthor env) in
  let r := InjectFrontmatter o env path opts fs in
  (r.1 = Err ErrHasFrontmatter ↔ ∃ f, fs !! path = Some f ∧ HasPrefix (ReplaceAll (f_data f) crlf nl) front_open = true) ∧
  (r.1 = Err ErrHasFrontmatter → r.2 = fs) ∧
  (r.1 = Ok tt → ∃ f f', fs !! path = Some f ∧ r.2 !! path = Some f' ∧ f_mode f' = f_mode f ∧
    (∀ q, q ≠ path → r.2 !! q = fs !! q) ∧
    (∀ o' opts', InjectFrontmatter o' env path opts' r.2 = (Err ErrHasFrontmatter, r.2)) ∧
    let body := ReplaceAll (f_data f) crlf nl in
    (f_data f ≠ EmptyString → ∀ p, BodyForAnchoring (f_data f) p = Some (Ok body)) ∧
    (is_Some (yaml_Marshal (title (f_data f))) → is_Some (yaml_Marshal author) →
     plain (so_Status opts) → plain (so_Effort opts) → Forall plain (so_DependsOn opts) → free_of carriage_return body →
     ∀ p body', BodyForAnchoring (f_data f') p = Some (Ok body') → body' = trim_left (is_ascii newline) body)).
Proof.
  intros Hadm title author r. subst r. unfold InjectFrontmatter. destruct (fs !! path) as [f|] eqn:Hf; [|by split_and!; simpl; [split; naive_solver|..]].
  unfold inject_content. destruct (HasPrefix (ReplaceAll (f_data f) crlf nl) front_open) eqn:Hp; [by split_and!; simpl; [naive_solver|..]|].
  fold (title (f_data f)) author.
  set (out := renderFrontmatter _ _ _ _ _ _ _ +:+ _). set (w := write_back o path out fs).
  assert (w.1 ≠ Err ErrHasFrontmatter) as Hne by (unfold w, write_back; cbn [fst]; by destruct (Write _ _ _ _ _).1).
  split_and!; [split; [done|intros (? & [= <-] & E); congruence]|done|]. intros Hok. destruct (write_back_ok o path out fs f Hadm Hf Hok) as [Hpath Hother].
  exists f, (MkFile out (f_mode f)). split_and!; [done..| | |].
  - intros o' opts'. unfold InjectFrontmatter, inject_content. unfold w. rewrite Hpath. cbn [f_data].
    unfold out. rewrite render_shape, !str_app_assoc, rendered_open. done.
  - intros Hd p. unfold BodyForAnchoring, ParseBytes. rewrite decide_False by done. by rewrite Hp.
  - intros [t Ht] [a Ha] Hs He Hdeps Hcr p body'. unfold BodyForAnchoring. cbn [f_data]. unfold out.
    erewrite ParseBytes_rendered; [|done|done|by apply or_default_plain|by apply or_default_plain|done|by repeat split].
    opt_step. destruct (yaml_Spec _); [|done]. by intros [= <-].
Qed.
End scaffold_facts.

Module ScaffoldRun.
#[local] Existing Instance FrontRun.LineYaml.
Definition env : Env := MkEnv (Some ("Ada" +:+ nl)) (MkDate 2026 3 9) (λ _, true) (λ r, r) 18.
Definition opts : ScaffoldOptions := MkScaffoldOptions EmptyString EmptyString EmptyString EmptyString EmptyString [] None false.
Definition doc : string := nl +:+ "# Notes" +:+ String carriage_return nl +:+ "text".
Definition disk : FileSystem := <["specs/n.md" := MkFile doc 384]> ∅.

Lemma InjectFrontmatter_spec_witness :
  (∃ f', (InjectFrontmatter FrontRun.fine env "specs/n.md" opts disk).2 !! "specs/n.md" = Some f' ∧ f_mode f' = 384) ∧
  (InjectFrontmatter FrontRun.fine env "specs/n.md" opts disk).1 = Ok tt.
Proof.
  assert ((InjectFrontmatter FrontRun.fine env "specs/n.md" opts disk).1 = Ok tt) as Hok by (vm_compute; reflexivity).
  split; [|exact Hok].
  destruct (InjectFrontmatter_spec FrontRun.fine env "specs/n.md" opts disk) as (_ & _ & H); [split; [vm_compute; reflexivity|discriminate]|].
  destruct (H Hok) as (f & f' & Hf & Hf' & Hm & _). exists f'. split; [exact Hf'|]. rewrite Hm.
  assert (disk !! "specs/n.md" = Some (MkFile doc 384)) as E by reflexivity. rewrite E in Hf. injection Hf as <-. reflexivity.
Defined.
End ScaffoldRun.
