(* ===== verification/SpecSection.v ===== *)
(** * Sections of markdown files (internal/spec: outcome.go, readme.go)

    [SetOutcome] writes the drift verdict into the [## Outcome] section of a
    spec; [EnsureReadme] adds a row to the track's table in [specs/README.md].
    Slice expressions are [option]s as before.  [unicode.ToUpper] outside ASCII
    is the argument [up]. *)

From S2P Require Import Prelude GoStrings GoText AtomicFile SpecTree SpecFront.
From Stdlib Require Import Ascii String.
From stdpp Require Import list gmap.
Local Open Scope Z_scope.
Local Open Scope string_scope.
#[local] Arguments String.append : simpl nomatch.

(** ** outcome.go *)

Definition outcomeHeading : string := "## Outcome".

Definition indexOfHeading (body heading : string) : Z :=
  if HasPrefix body heading then 0
  else let i := Index body (nl +:+ heading) in if Z.leb 0 i then i + 1 else -1.

Definition indexOfNextH2 (s : string) : Z :=
  let i := Index s (nl +:+ "## ") in if Z.leb 0 i then i + 1 else -1.

Definition trim_nl (s : string) : string := trim_right (is_ascii newline) s.

Definition replaceOrAppendSection (body section : string) : option string :=
  let idx := indexOfHeading body outcomeHeading in
  if Z.ltb idx 0 then
    let trimmed := trim_nl body in
    Some (if decide (trimmed = EmptyString) then section else trimmed +:+ nl +:+ nl +:+ section)
  else
    let afterStart := idx + len outcomeHeading in
    rest ← slice body afterStart (len body);
    let next := indexOfNextH2 rest in
    before ← trim_nl <$> slice body 0 idx;
    tail ← (if Z.leb 0 next then slice rest next (len rest) else Some EmptyString);
    let out := if decide (before = EmptyString) then section else before +:+ nl +:+ nl +:+ section in
    Some (if decide (tail = EmptyString) then out else trim_nl out +:+ nl +:+ nl +:+ tail).

Definition outcome_section (outcomeBody : string) : string :=
  outcomeHeading +:+ nl +:+ nl +:+ TrimSpace outcomeBody +:+ nl.

Definition outcome_content (outcomeBody data : string) : option (result file_error string) :=
  let content := ReplaceAll data crlf nl in
  if negb (HasPrefix content front_open) then Some (Err (ErrParse ErrMissingFrontmatter))
  else
    rest ← slice content 4 (len content);
    let e := Index rest front_close in
    if Z.ltb e 0 then Some (Err (ErrParse ErrNoClosing))
    else
      head ← slice content 0 (4 + e + 5);
      body ← slice content (4 + e + 5) (len content);
      newBody ← replaceOrAppendSection body (outcome_section outcomeBody);
      Some (Ok (head +:+ newBody)).

Definition SetOutcome (o : Outcomes string) (path outcomeBody : string) (fs : FileSystem)
  : option (result file_error unit * FileSystem) :=
  match fs !! path with
  | None => Some (Err ErrRead, fs)
  | Some f =>
    r ← outcome_content outcomeBody (f_data f);
    Some (match r with
          | Err e => (Err e, fs)
          | Ok out => write_back o path out fs
          end)
  end.

(** ** readme.go *)

Record Meta := MkMeta { meta_Path : string; meta_Title : string; meta_Status : SpecStatus; meta_Summary : string }.

Definition trackDisplayNames : gmap string string := list_to_map
  [("local", "Local Product"); ("foundations", "Foundations"); ("cloud", "Cloud Platform"); ("shared", "Shared Design")].

Section readme.
Context (up : Z → Z).

Definition titleCase (s : string) : string := strings_Join (map (capitalize up) (Split "-"%char s)) " ".

Definition TrackDisplayName (track : string) : string :=
  match trackDisplayNames !! track with
  | Some name => name
  | None => titleCase (ReplaceAll track "_" "-")
  end.

Definition trackFromSpecPath (specPath : string) : string :=
  match Split slash (Clean specPath) with
  | p0 :: p1 :: _ :: _ => if decide (p0 = "specs") then p1 else EmptyString
  | _ => EmptyString
  end.

Definition statusDisplay (s : SpecStatus) : string :=
  if decide (s = StatusComplete) then "**Complete**"
  else if decide (s = EmptyString) then "(status unset)"
  else titleCase s.

Definition summaryOrPlaceholder (s : string) : string :=
  let s := ReplaceAll s "|" "\|" in
  let s := ReplaceAll s (String carriage_return EmptyString) " " in
  let s := ReplaceAll s nl " " in
  let s := TrimSpace s in
  if decide (s = EmptyString) then "(agent will fill this in)" else s.

Definition specTrackRelativePath (specPath : string) : string := TrimPrefix (Clean specPath) "specs/".

Definition renderRow (meta : Meta) : string :=
  "| [" +:+ path_Base (meta_Path meta) +:+ "](" +:+ specTrackRelativePath (meta_Path meta) +:+ ") | "
  +:+ statusDisplay (meta_Status meta) +:+ " | " +:+ summaryOrPlaceholder (meta_Summary meta) +:+ " |".

Definition table_head : string := "| Spec | Status | Delivers |".
Definition table_rule : string := "|------|--------|----------|".

Definition renderNewTrackSection (track : string) (meta : Meta) : string :=
  "## " +:+ TrackDisplayName track +:+ nl +:+ nl +:+ table_head +:+ nl +:+ table_rule +:+ nl +:+ renderRow meta +:+ nl.

Definition readme_banner : string :=
  "<!-- Auto-generated on first scaffold. Customise the prose freely — future appends only modify the track tables below. -->".

Definition renderInitialReadme (track : string) (meta : Meta) : string :=
  "# Specs" +:+ nl +:+ nl +:+ readme_banner +:+ nl +:+ nl +:+ renderNewTrackSection track meta.

Definition ensureTrailingNewline (s : string) : string := if HasSuffix s nl then s else s +:+ nl.

(** [for j := lo; j < hi; j++ { if p(lines[j]) { return j } }], [None] when no
    line qualifies. *)
Fixpoint find_line (p : string → bool) (lines : list string) (lo n : nat) : option nat :=
  match n with
  | O => None
  | S n => match lines !! lo with
           | Some l => if p l then Some lo else find_line p lines (S lo) n
           | None => None
           end
  end.

Definition is_row (line : string) : bool := HasPrefix (TrimSpace line) "|".
Definition is_h2 (line : string) : bool := HasPrefix line "## ".
Definition blank (line : string) : bool := bool_decide (TrimSpace line = EmptyString).
Definition trailing_ws (a : ascii) : bool :=
  is_ascii " "%char a || is_ascii (Ascii.ascii_of_nat 9) a || is_ascii carriage_return a.

(** The last row of the table that starts at [j]. *)
Fixpoint last_row (lines : list string) (j n cur : nat) : nat :=
  match n with
  | O => cur
  | S n => match lines !! j with
           | Some l => if is_row l then last_row lines (S j) n j else cur
           | None => cur
           end
  end.

(** The first blank line of the section, or its end. *)
Definition table_place (lines : list string) (lo hi : nat) : nat :=
  match find_line blank lines lo (hi - lo) with
  | Some j => j
  | None => lo `max` hi
  end.

Definition insert_lines (lines : list string) (i : nat) (new : list string) : list string :=
  (take i lines ++ new ++ drop i lines)%list.

Definition appendToReadme (content track : string) (meta : Meta) : string :=
  let heading := "## " +:+ TrackDisplayName track in
  let lines := Split newline content in
  match find_line (λ line, bool_decide (trim_right trailing_ws line = heading)) lines 0 (length lines) with
  | None => ensureTrailingNewline content +:+ nl +:+ renderNewTrackSection track meta
  | Some headingIdx =>
    let nextHeadingIdx := default (length lines) (find_line is_h2 lines (S headingIdx) (length lines - S headingIdx)) in
    match find_line is_row lines (S headingIdx) (nextHeadingIdx - S headingIdx) with
    | None =>
      let insertAt := table_place lines (S headingIdx) nextHeadingIdx in
      strings_Join (insert_lines lines insertAt [EmptyString; table_head; table_rule; renderRow meta; EmptyString]) nl
    | Some tableStart =>
      let lastRow := last_row lines tableStart (nextHeadingIdx - tableStart) tableStart in
      strings_Join (insert_lines lines (S lastRow) [renderRow meta]) nl
    end
  end.

(** [EnsureReadme]: [mkdir] is the answer to [MkdirAll]. *)
Inductive readme_error := ErrNoWorkspace | ErrBadPath | ErrMkdirAll (e : string) | ErrWriteSync (e : string).

Definition EnsureReadme (o : Outcomes string) (mkdir : option string) (workspace : string) (newSpec : Meta) (fs : FileSystem)
  : result readme_error unit * FileSystem :=
  if decide (workspace = EmptyString) then (Err ErrNoWorkspace, fs)
  else
    let track := trackFromSpecPath (meta_Path newSpec) in
    if decide (track = EmptyString) then (Err ErrBadPath, fs)
    else
      let readmePath := path_Join [workspace; "specs"; "README.md"] in
      let existing := from_option f_data EmptyString (fs !! readmePath) in
      let next := if decide (existing = EmptyString) then renderInitialReadme track newSpec
                  else appendToReadme existing track newSpec in
      match mkdir with
      | Some e => (Err (ErrMkdirAll e), fs)
      | None =>
        let r := WriteSync o readmePath next 420 fs in
        (match r.1 with Ok _ => Ok tt | Err e => Err (ErrWriteSync e) end, after r fs)
      end.
End readme.

(** ** Facts *)

(** *** Headings and lines *)

(** No line after the first starts with [h]. *)
Definition no_later (h s : string) : Prop := ∀ pre post, s ≠ pre +:+ (nl +:+ h) +:+ post.

(** No line starts with [h]. *)
Definition no_heading (h s : string) : Prop := HasPrefix s h = false ∧ no_later h s.

(** A line break followed by [h], after a text that has none, is the first one. *)
Lemma later_first h a r : free_of newline h → no_later h a → Index (a +:+ (nl +:+ h) +:+ r) (nl +:+ h) = len a.
Proof.
  intros Hh Ha. apply Index_first. intros pre post E.
  destruct (str_app_compare _ _ _ _ E) as [(u & -> & Eu)|(u & -> & Eu)]; [|rewrite len_app; pose proof (len_nonneg u); lia].
  destruct u as [|b u]; [rewrite str_app_nil_r; lia|]. exfalso. simpl in Eu. injection Eu as <- Eu.
  destruct (str_app_compare _ _ _ _ Eu) as [(v & -> & Ev)|(v & -> & Ev)].
  - destruct v as [|c v]; [rewrite str_app_nil_r in *|].
    + apply (Ha pre EmptyString). by rewrite str_app_nil_r.
    + simpl in Ev. injection Ev as <- _. unfold free_of in Hh. apply all_bytes_app in Hh as [_ [Hh _]]. done.
  - apply (Ha pre v). done.
Qed.

Section headings.
Context (h : string) (Hh : free_of newline h) (Hne : h ≠ EmptyString).

Lemma no_later_prefix a b : no_later h (a +:+ b) → no_later h a.
Proof. intros Hab pre post ->. apply (Hab pre (post +:+ b)). by rewrite !str_app_assoc. Qed.

Lemma no_heading_prefix a b : no_heading h (a +:+ b) → no_heading h a.
Proof.
  intros [Hp Hl]. split; [|by eapply no_later_prefix]. apply not_true_iff_false. intros [r ->]%prefix_iff.
  apply not_true_iff_false in Hp. apply Hp, prefix_iff. exists (r +:+ b). by rewrite str_app_assoc.
Qed.

(** A heading does not reach over a line break. *)
Lemma heading_within a b : HasPrefix (a +:+ nl +:+ b) h = true → HasPrefix a h = true.
Proof.
  intros [r E]%prefix_iff. apply prefix_iff. destruct (str_app_compare _ _ _ _ E) as [(u & -> & _)|(u & Eu & E')]; [eauto|].
  destruct u as [|c u]; [exists EmptyString; by rewrite Eu, !str_app_nil_r|]. simpl in E'. injection E' as <- _.
  rewrite Eu in Hh. unfold free_of in Hh. apply all_bytes_app in Hh as [_ [Hc _]]. done.
Qed.

Lemma not_heading_nl b : HasPrefix (nl +:+ b) h = false.
Proof. apply not_true_iff_false. intros [r E]%(heading_within EmptyString)%prefix_iff. by destruct h. Qed.

Lemma no_later_nl a b : no_later h a → no_heading h b → no_later h (a +:+ nl +:+ b).
Proof.
  intros Ha [Hb Hl] pre post E. destruct (str_app_compare _ _ _ _ E) as [(u & -> & Eu)|(u & -> & Eu)].
  - destruct u as [|c u]; [rewrite str_app_nil_r in Ha; simpl in Eu; injection Eu as <-; apply not_true_iff_false in Hb; apply Hb, prefix_iff; by exists post|].
    simpl in Eu. injection Eu as <- Eu. assert (HasPrefix (u +:+ nl +:+ b) h = true) as Hu by (apply prefix_iff; eauto).
    apply heading_within, prefix_iff in Hu as [r ->]. by apply (Ha pre r).
  - destruct u as [|c u]; simpl in Eu; [injection Eu as Eu; apply not_true_iff_false in Hb; apply Hb, prefix_iff; by exists post|].
    injection Eu as <- Eu. by apply (Hl u post).
Qed.
End headings.

(** *** The outcome section *)

Lemma h2_plain : free_of newline "## " ∧ "## " ≠ EmptyString.
Proof. by repeat split. Qed.
Lemma outcome_plain : free_of newline outcomeHeading ∧ outcomeHeading ≠ EmptyString.
Proof. by repeat split. Qed.

(** The texts before and after the section, put together with a new one. *)
Definition assemble (before section tail : string) : string :=
  let out := if decide (before = EmptyString) then section else before +:+ nl +:+ nl +:+ section in
  if decide (tail = EmptyString) then out else trim_nl out +:+ nl +:+ nl +:+ tail.

(** Texts that can stand around a section. *)
Definition around (before tail : string) : Prop :=
  no_heading outcomeHeading before ∧ trim_nl before = before ∧ (tail = EmptyString ∨ HasPrefix tail "## " = true).

Lemma trim_nl_prefix s : ∃ t, s = trim_nl s +:+ t ∧ all_bytes (λ a, is_ascii newline a = true) t.
Proof. apply trim_right_split. Qed.

(** The text from the next heading on. *)
Definition next_heading (rest : string) : option string :=
  if Z.leb 0 (indexOfNextH2 rest) then slice rest (indexOfNextH2 rest) (len rest) else Some EmptyString.

Lemma next_tail rest : ∃ mid tail,
  rest = mid +:+ tail ∧ (tail = EmptyString ∨ HasPrefix tail "## " = true) ∧
  next_heading rest = Some tail.
Proof.
  unfold next_heading, indexOfNextH2. destruct (decide (Index rest (nl +:+ "## ") = -1)) as [E|E].
  - rewrite E. exists rest, EmptyString. rewrite str_app_nil_r. split_and!; [done|by left|done].
  - apply Index_found in E as (pre & post & -> & -> & _). pose proof (len_nonneg pre). rewrite (proj2 (Z.leb_le 0 (len pre))) by done.
    rewrite (proj2 (Z.leb_le 0 (len pre + 1))) by lia. exists (pre +:+ nl), ("## " +:+ post).
    rewrite !str_app_assoc. split_and!; [done|right; apply prefix_iff; by eexists|].
    rewrite <- (str_app_assoc pre). rewrite !len_app. apply slice_from; rewrite !len_app; change (len nl) with 1; lia.
Qed.

(** Replacing the section at a known place. *)
Lemma replace_at a rest tail section :
  indexOfHeading (a +:+ outcomeHeading +:+ rest) outcomeHeading = len a → next_heading rest = Some tail →
  replaceOrAppendSection (a +:+ outcomeHeading +:+ rest) section = Some (assemble (trim_nl a) section tail).
Proof.
  intros Hi Hs. unfold replaceOrAppendSection. rewrite Hi.
  pose proof (len_nonneg a). rewrite (proj2 (Z.ltb_ge _ _)) by lia.
  assert (slice (a +:+ outcomeHeading +:+ rest) (len a + len outcomeHeading) (len (a +:+ outcomeHeading +:+ rest)) = Some rest) as ->.
  { rewrite <- str_app_assoc. apply slice_from; rewrite !len_app; lia. }
  opt_step. rewrite slice_to by done. opt_step. fold (next_heading rest). by rewrite Hs.
Qed.

(** Texts before the first heading have none. *)
Lemma before_first a rest :
  HasPrefix (a +:+ (nl +:+ outcomeHeading) +:+ rest) outcomeHeading = false →
  (∀ pre post, a +:+ (nl +:+ outcomeHeading) +:+ rest = pre +:+ (nl +:+ outcomeHeading) +:+ post → len a <= len pre) →
  no_heading outcomeHeading a.
Proof.
  intros Hp Hmin. split.
  - apply not_true_iff_false. intros [r ->]%prefix_iff. apply not_true_iff_false in Hp. apply Hp, prefix_iff. eexists. by rewrite str_app_assoc.
  - intros p q ->. specialize (Hmin p (q +:+ (nl +:+ outcomeHeading) +:+ rest)). rewrite !str_app_assoc, !len_app in Hmin.
    specialize (Hmin eq_refl). pose proof (len_nonneg q). change (len nl) with 1 in Hmin. change (len outcomeHeading) with 10 in Hmin. lia.
Qed.

(** [replaceOrAppendSection] does not panic and puts the section between two
    parts of the body. *)
Lemma replace_shape body : ∃ before mid tail,
  body = before +:+ mid +:+ tail ∧ around before tail ∧
  ∀ section, replaceOrAppendSection body section = Some (assemble before section tail).
Proof.
  destruct (HasPrefix body outcomeHeading) eqn:Hp.
  - pose proof Hp as [rest ->]%prefix_iff. destruct (next_tail rest) as (mid & tail & E & Ht & Hs).
    exists EmptyString, (outcomeHeading +:+ mid), tail. split; [by rewrite str_app_assoc, <- E|].
    split; [split_and!; [split; [done|by intros []]|done|done]|].
    intros section. apply (replace_at EmptyString); [|done]. unfold indexOfHeading. change (EmptyString +:+ ?x) with x. by rewrite Hp.
  - destruct (decide (Index body (nl +:+ outcomeHeading) = -1)) as [E|E].
    + destruct (trim_nl_prefix body) as (t & Eb & _). exists (trim_nl body), t, EmptyString. rewrite str_app_nil_r.
      split; [done|]. split.
      * split_and!; [|apply trim_right_idem|by left]. rewrite Index_absent in E. apply (no_heading_prefix _ _ t). rewrite <- Eb. by split.
      * intros section. unfold replaceOrAppendSection, indexOfHeading. rewrite Hp, E. done.
    + apply Index_found in E as (pre & post & -> & Ei & Hmin). pose proof (len_nonneg pre). destruct (trim_nl_prefix pre) as (t & Ep & Hnl).
      assert (trim_nl (pre +:+ nl) = trim_nl pre) as Et by (apply trim_right_app; by repeat split).
      destruct (next_tail post) as (mid & tail & E & Ht & Hs).
      exists (trim_nl pre), (t +:+ nl +:+ outcomeHeading +:+ mid), tail. split; [rewrite Ep at 1; by rewrite !str_app_assoc, <- E|]. split.
      * split_and!; [|apply trim_right_idem|done]. apply (no_heading_prefix _ _ t). rewrite <- Ep. by apply (before_first _ post).
      * intros section. rewrite <- Et, str_app_assoc, <- str_app_assoc. apply replace_at; [|done].
        unfold indexOfHeading. rewrite str_app_assoc, <- (str_app_assoc nl), Hp, Ei. rewrite (proj2 (Z.leb_le _ _)) by done. by rewrite len_app.
Qed.

(** A section written by [SetOutcome] from a text without second-level headings. *)
Definition section_of (txt : string) : string := outcomeHeading +:+ nl +:+ nl +:+ txt +:+ nl.

Lemma trim_keep p s a t : p a = false → trim_right p (s +:+ String a t) = s +:+ String a (trim_right p t).
Proof.
  intros Ha. induction s as [|b s IH]; simpl; [destruct (trim_right p t); by rewrite ?Ha|]. rewrite IH. by destruct s.
Qed.

(** The tail is found again behind a text without headings. *)
Lemma next_again r tail : no_later "## " r → HasPrefix tail "## " = true → next_heading (r +:+ nl +:+ tail) = Some tail.
Proof.
  intros Hr [q ->]%prefix_iff. unfold next_heading, indexOfNextH2.
  rewrite <- (str_app_assoc nl), (later_first "## " r q) by (done || apply h2_plain).
  pose proof (len_nonneg r). rewrite (proj2 (Z.leb_le 0 (len r))), (proj2 (Z.leb_le 0 (len r + 1))) by lia.
  rewrite str_app_assoc, <- (str_app_assoc r).
  apply slice_from; rewrite !len_app; change (len nl) with 1; lia.
Qed.

Lemma next_none r : no_later "## " r → next_heading r = Some EmptyString.
Proof. intros Hr. unfold next_heading, indexOfNextH2. by rewrite (proj2 (Index_absent _ _) Hr). Qed.

(** The heading is found again behind a text without it. *)
Lemma heading_again before rest : no_heading outcomeHeading before →
  let a := if decide (before = EmptyString) then EmptyString else before +:+ nl +:+ nl in
  indexOfHeading (a +:+ outcomeHeading +:+ rest) outcomeHeading = len a.
Proof.
  intros [Hp Hl] a. destruct outcome_plain as [Hf Hne]. unfold indexOfHeading, a. case_decide as Hb.
  - assert (HasPrefix (EmptyString +:+ outcomeHeading +:+ rest) outcomeHeading = true) as -> by (apply prefix_iff; by exists rest). done.
  - rewrite !str_app_assoc. destruct (HasPrefix (before +:+ nl +:+ _) outcomeHeading) eqn:E.
    { apply (heading_within outcomeHeading Hf) in E. congruence. }
    rewrite <- (str_app_assoc nl outcomeHeading), <- (str_app_assoc before), later_first; [|done|].
    + rewrite !len_app. change (len nl) with 1. pose proof (len_nonneg before). rewrite (proj2 (Z.leb_le _ _)) by lia. lia.
    + rewrite <- (str_app_nil_r nl). apply (no_later_nl outcomeHeading Hf); [done|]. split; [done|by intros []].
Qed.

(** Writing the section again finds the same surroundings. *)
Lemma assemble_again before txt tail section : around before tail → no_heading "## " txt →
  replaceOrAppendSection (assemble before (section_of txt) tail) section = Some (assemble before section tail).
Proof.
  intros (Hb & Htrim & Htail) Htxt. destruct h2_plain as [Hf Hne]. pose proof (heading_again before) as Hidx.
  set (a := if decide (before = EmptyString) then EmptyString else before +:+ nl +:+ nl) in *.
  set (r := nl +:+ nl +:+ txt +:+ nl).
  assert (no_heading "## " EmptyString) as Hempty by (split; [done|by intros []]).
  assert (no_later "## " r) as Hr.
  { apply (no_later_nl _ Hf EmptyString); [apply Hempty|]. split; [by apply not_heading_nl|].
    apply (no_later_nl _ Hf EmptyString); [apply Hempty|]. destruct Htxt as [Hp Hl]. split.
    - apply not_true_iff_false. intros E. rewrite <- (str_app_nil_r nl) in E. apply heading_within in E; [congruence|done..].
    - rewrite <- (str_app_nil_r nl). by apply no_later_nl. }
  assert (trim_nl a = before) as Ha.
  { unfold a. case_decide as E; [by rewrite E|]. unfold trim_nl. by rewrite trim_right_app by (by repeat split). }
  assert (∀ s, (if decide (before = EmptyString) then s else before +:+ nl +:+ nl +:+ s) = a +:+ s) as Hout.
  { intros s. unfold a. case_decide; [done|]. by rewrite !str_app_assoc. }
  unfold assemble at 1. rewrite Hout. unfold section_of. fold r. rewrite <- Ha at 1. destruct (decide (tail = EmptyString)) as [->|Et].
  - apply replace_at; [by apply Hidx|by apply next_none].
  - destruct Htail as [|Htail]; [done|]. assert (trim_nl (a +:+ outcomeHeading +:+ r) = a +:+ outcomeHeading +:+ trim_nl r) as ->.
    { pose proof (trim_keep (is_ascii newline) (a +:+ "## Outcom") "e"%char r eq_refl) as E. rewrite !str_app_assoc in E. exact E. }
    rewrite !str_app_assoc. apply replace_at; [by apply Hidx|]. rewrite <- str_app_assoc. apply next_again; [|done].
    rewrite <- (str_app_nil_r nl). apply no_later_nl; [done..| |done]. destruct (trim_nl_prefix r) as (t & E & _).
    apply (no_later_prefix _ _ t). by rewrite <- E.
Qed.

(** A mark found first stays the first one whatever follows it. *)
Lemma Index_stable a q b b' : Index (a +:+ q +:+ b) q = len a → Index (a +:+ q +:+ b') q = len a.
Proof.
  intros E. assert (Index (a +:+ q +:+ b) q ≠ -1) as Hne by (pose proof (len_nonneg a); lia).
  apply Index_found in Hne as (pre & post & _ & Epre & Hmin). rewrite E in Epre. apply Index_first. intros pre' post' E'.
  destruct (str_app_compare _ _ _ _ E') as [(u & -> & Eu)|(u & -> & Eu)]; [|rewrite len_app; pose proof (len_nonneg u); lia].
  rewrite <- str_app_assoc in Eu. destruct (str_app_compare _ _ _ _ Eu) as [(w & Ew & _)|(w & Ew & _)].
  - apply (f_equal len) in Ew as Hlen. rewrite !len_app in Hlen. pose proof (len_nonneg w). pose proof (len_nonneg u).
    assert (len u = 0) by lia. rewrite len_app. lia.
  - rewrite Epre. apply (Hmin pre' (w +:+ b)). rewrite <- (str_app_assoc q), <- Ew. by rewrite !str_app_assoc.
Qed.

(** Cutting a file at the marks. *)
Lemma outcome_content_at a fm body data :
  ReplaceAll data crlf nl = front_open +:+ fm +:+ front_close +:+ body →
  Index (fm +:+ front_close +:+ body) front_close = len fm →
  outcome_content a data = (λ b, Ok (front_open +:+ fm +:+ front_close +:+ b)) <$> replaceOrAppendSection body (outcome_section a).
Proof.
  intros Hd Hi. unfold outcome_content. rewrite Hd.
  assert (HasPrefix (front_open +:+ fm +:+ front_close +:+ body) front_open = true) as Hp by (apply prefix_iff; by eexists). rewrite Hp.
  destruct (open_slice _ Hp) as (rest & Ed & ->). opt_step. apply (inj (String.append front_open)) in Ed as <-. rewrite Hi.
  pose proof (len_nonneg fm). rewrite (proj2 (Z.ltb_ge _ _)) by lia.
  rewrite <- !(str_app_assoc front_open), <- (str_app_assoc _ front_close).
  assert (4 + len fm + 5 = len ((front_open +:+ fm) +:+ front_close)) as -> by (rewrite len_app, len_app; done).
  rewrite slice_to by done. opt_step. rewrite slice_from by (rewrite ?(len_app _ body); done). opt_step.
  destruct (replaceOrAppendSection body _); opt_step; [by rewrite !str_app_assoc|done].
Qed.

(** [SetOutcome] never panics. *)
Lemma outcome_content_cases a data :
  ∃ r, outcome_content a data = Some r ∧ ∀ out, r = Ok out → ∃ fm body before mid tail,
    ReplaceAll data crlf nl = front_open +:+ fm +:+ front_close +:+ body ∧
    Index (fm +:+ front_close +:+ body) front_close = len fm ∧ body = before +:+ mid +:+ tail ∧ around before tail ∧
    out = front_open +:+ fm +:+ front_close +:+ assemble before (outcome_section a) tail ∧
    ∀ section, replaceOrAppendSection body section = Some (assemble before section tail).
Proof.
  destruct (HasPrefix (ReplaceAll data crlf nl) front_open) eqn:Hp; [|unfold outcome_content; rewrite Hp; by eexists].
  destruct (open_slice _ Hp) as (rest & Ed & Hs).
  destruct (decide (Index rest front_close = -1)) as [E|E].
  { unfold outcome_content. rewrite Hp, Hs. opt_step. rewrite E. by eexists. }
  apply Index_found in E as (fm & body & -> & Hi & _). destruct (replace_shape body) as (before & mid & tail & Eb & Ha & Hr).
  rewrite (outcome_content_at a fm body data Ed Hi), Hr. eexists; split; [done|]. intros out [= <-].
  by exists fm, body, before, mid, tail.
Qed.

Lemma assemble_free c before section tail : c ≠ newline →
  free_of c before → free_of c section → free_of c tail → free_of c (assemble before section tail).
Proof.
  intros Hc Hb Hs Ht. assert (free_of c nl) as Hn by (by repeat split). unfold assemble, free_of in *.
  assert (all_bytes (λ a, a ≠ c) (if decide (before = EmptyString) then section else before +:+ nl +:+ nl +:+ section)) as Hout.
  { case_decide; [done|]. by rewrite !all_bytes_app. }
  revert Hout. generalize (if decide (before = EmptyString) then section else before +:+ nl +:+ nl +:+ section). intros out Hout.
  case_decide; [done|]. rewrite !all_bytes_app. destruct (trim_nl_prefix out) as (t & E & _). rewrite E in Hout.
  apply all_bytes_app in Hout as [Hout _]. done.
Qed.

(** [SetOutcome] never panics.  On success the frontmatter, the text before the
    section and the text from the next second-level heading on are kept and the
    section stands between them; mode and other files are kept.  Verdicts without
    second-level headings replace one another: writing a second one gives the file
    that writing it to the original gives. *)
Theorem SetOutcome_spec o path a fs :
  admissible o path fs →
  ∃ r fs', SetOutcome o path a fs = Some (r, fs') ∧
    (r = Ok tt → ∃ f f' fm before mid tail,
      fs !! path = Some f ∧ fs' !! path = Some f' ∧ f_mode f' = f_mode f ∧ (∀ q, q ≠ path → fs' !! q = fs !! q) ∧
      ReplaceAll (f_data f) crlf nl = front_open +:+ fm +:+ front_close +:+ before +:+ mid +:+ tail ∧ around before tail ∧
      f_data f' = front_open +:+ fm +:+ front_close +:+ assemble before (outcome_section a) tail ∧
      (free_of carriage_return (ReplaceAll (f_data f) crlf nl) → free_of carriage_return (TrimSpace a) →
       no_heading "## " (TrimSpace a) → ∀ b, outcome_content b (f_data f') = outcome_content b (f_data f))).
Proof.
  intros Hadm. unfold SetOutcome. destruct (fs !! path) as [f|] eqn:Hf; [|by eexists _, _].
  destruct (outcome_content_cases a (f_data f)) as (r & -> & Hr). opt_step. destruct r as [out|e]; [|by eexists _, _].
  destruct (Hr out eq_refl) as (fm & body & before & mid & tail & Hd & Hi & Hbody & Ha & -> & Hrep).
  eexists _, _. split; [by rewrite <- surjective_pairing|]. intros Hok.
  destruct (write_back_ok o path _ fs f Hadm Hf Hok) as [Hpath Hothers].
  eexists f, _, fm, before, mid, tail. split_and!; [done|exact Hpath|done|done|by rewrite <- Hbody|done|done|].
  cbn [f_data]. intros Hcr Htxt Hno b. rewrite (outcome_content_at b fm body (f_data f) Hd Hi), Hrep.
  set (new := assemble before (outcome_section a) tail).
  rewrite (outcome_content_at b fm new); [|apply ReplaceAll_absent|by eapply Index_stable].
  - unfold new. change (outcome_section a) with (section_of (TrimSpace a)). by rewrite assemble_again.
  - rewrite Hd, Hbody in Hcr. unfold free_of in *. rewrite !all_bytes_app in *. destruct Hcr as (Ho & Hfm & Hc & Hb & _ & Ht).
    split_and!; [done..|]. apply assemble_free; [done..| |done]. unfold outcome_section, free_of. rewrite !all_bytes_app. by repeat split.
Qed.

(** A section whose heading only starts like [## Outcome] is taken for it. *)
Lemma prefix_heading_replaced :
  replaceOrAppendSection ("## Outcomes we want" +:+ nl +:+ "1. speed" +:+ nl) (outcome_section "done") =
  Some ("## Outcome" +:+ nl +:+ nl +:+ "done" +:+ nl).
Proof. vm_compute. reflexivity. Qed.

(** *** The roadmap *)

Lemma find_line_spec p lines n : ∀ lo, match find_line p lines lo n with
  | Some j => (lo <= j < lo + n)%nat ∧ (∃ l, lines !! j = Some l ∧ p l = true) ∧
              ∀ k l, (lo <= k < j)%nat → lines !! k = Some l → p l = false
  | None => ∀ k l, (lo <= k < lo + n)%nat → lines !! k = Some l → p l = false
  end.
Proof.
  induction n as [|n IH]; intros lo; simpl; [intros; lia|]. destruct (lines !! lo) as [l|] eqn:El.
  - destruct (p l) eqn:Hp.
    + split; [lia|]. split; [eauto|]. intros; lia.
    + specialize (IH (S lo)). destruct (find_line p lines (S lo) n) as [j|].
      * destruct IH as (Hj & Hl & Hk). split; [lia|]. split; [done|]. intros k l' Hkr Hl'.
        destruct (decide (k = lo)) as [->|]; [congruence|]. apply (Hk k l'); [lia|done].
      * intros k l' Hkr Hl'. destruct (decide (k = lo)) as [->|]; [congruence|]. apply (IH k l'); [lia|done].
  - intros k l' Hk Hl'. apply lookup_ge_None in El. apply lookup_lt_Some in Hl'. lia.
Qed.

Lemma last_row_bound lines n : ∀ j cur, (cur <= j)%nat →
  (cur <= last_row lines j n cur)%nat ∧ (last_row lines j n cur < (j + n) `max` S cur)%nat.
Proof.
  induction n as [|n IH]; intros j cur Hj; simpl; [lia|]. destruct (lines !! j); [|lia]. destruct (is_row s); [|lia].
  destruct (IH (S j) j); lia.
Qed.

(** Row [row] stands below a heading line, with no other heading between. *)
Definition under_heading (heading row : string) (lines : list string) : Prop :=
  ∃ h j l, (h < j)%nat ∧ lines !! h = Some l ∧ (l = heading ∨ trim_right trailing_ws l = heading) ∧ lines !! j = Some row ∧
    ∀ k l', (h < k < j)%nat → lines !! k = Some l' → is_h2 l' = false.

Lemma insert_under heading row lines h i l new pre post :
  (h < i <= length lines)%nat → lines !! h = Some l → trim_right trailing_ws l = heading →
  (∀ k l', (h < k < i)%nat → lines !! k = Some l' → is_h2 l' = false) →
  new = (pre ++ row :: post)%list → Forall (λ l, is_h2 l = false) pre →
  under_heading heading row (insert_lines lines i new).
Proof.
  intros Hi Hl Hh Hno -> Hpre. unfold insert_lines. assert (length (take i lines) = i) as Hlen by (rewrite length_take; lia).
  exists h, (i + length pre)%nat, l. split_and!; [lia|by rewrite lookup_app_l, lookup_take_lt by lia|by right| |].
  - rewrite lookup_app_r by lia. rewrite Hlen. replace (i + length pre - i)%nat with (length pre) by lia.
    rewrite <- app_assoc, lookup_app_r by lia. by rewrite Nat.sub_diag.
  - intros k l' Hk. destruct (decide (k < i)%nat).
    + rewrite lookup_app_l, lookup_take_lt by lia. apply Hno. lia.
    + rewrite lookup_app_r, Hlen, <- app_assoc, lookup_app_l by lia. intros Hl'. rewrite Forall_forall in Hpre.
      apply Hpre. by eapply list_elem_of_lookup_2.
Qed.

Section readme_facts.
Context (up : Z → Z) (track : string) (meta : Meta).
Context (Hrow : free_of newline (renderRow up meta)) (Hname : free_of newline (TrackDisplayName up track)).

Lemma table_lines_free : Forall (free_of newline) [EmptyString; table_head; table_rule; renderRow up meta; EmptyString].
Proof. repeat (constructor; [done || by repeat split|]). constructor. Qed.

Lemma insert_lines_split content i new : Forall (free_of newline) new → 
  Split newline (strings_Join (insert_lines (Split newline content) i new) nl) = insert_lines (Split newline content) i new ∨
  insert_lines (Split newline content) i new = [].
Proof.
  intros Hnew. destruct (decide (insert_lines (Split newline content) i new = [])) as [|Hne]; [by right|left].
  apply Split_Join; [done|]. unfold insert_lines. pose proof (Split_free newline content) as Hf.
  repeat apply Forall_app_2; [by apply Forall_take|done|by apply Forall_drop].
Qed.

(** The lines of a new section. *)
Lemma new_section_lines :
  Split newline (renderNewTrackSection up track meta) =
  ["## " +:+ TrackDisplayName up track; EmptyString; table_head; table_rule; renderRow up meta; EmptyString].
Proof.
  assert (∀ a b, free_of newline a → Split newline (a +:+ nl +:+ b) = a :: Split newline b) as Hl.
  { intros a b Ha. change (nl +:+ b) with (String newline b). by rewrite Split_app, Split_free_id. }
  unfold renderNewTrackSection. rewrite <- (str_app_assoc "## "). rewrite Hl by (unfold free_of; rewrite all_bytes_app; by repeat split).
  rewrite (Hl EmptyString _ I : Split newline (nl +:+ _) = _). do 2 rewrite Hl by (by repeat split).
  pose proof (Hl (renderRow up meta) EmptyString Hrow) as E. rewrite str_app_nil_r in E. by rewrite E.
Qed.

Lemma sublist_insert {A} (l : list A) i new : l `sublist_of` (take i l ++ new ++ drop i l)%list.
Proof. rewrite <- (take_drop i l) at 1. apply sublist_app; [done|]. by apply sublist_inserts_l. Qed.

Lemma insert_ne lines i (new : list string) : new ≠ [] → insert_lines lines i new ≠ [].
Proof. unfold insert_lines. intros Hne [_ [? _]%app_eq_nil]%app_eq_nil. done. Qed.

(** A section after a text. *)
Lemma section_after x :
  let lines := Split newline (x +:+ nl +:+ renderNewTrackSection up track meta) in
  Split newline x `sublist_of` lines ∧ under_heading ("## " +:+ TrackDisplayName up track) (renderRow up meta) lines.
Proof.
  cbn zeta. change (nl +:+ ?y) with (String newline y). rewrite Split_app, new_section_lines. split; [by apply sublist_inserts_r|].
  set (n := length (Split newline x)). exists n, (n + 4)%nat, ("## " +:+ TrackDisplayName up track).
  split_and!; [lia|by rewrite lookup_app_r, Nat.sub_diag|by left|rewrite lookup_app_r by (unfold n; lia)|].
  - by replace (n + 4 - length _)%nat with 4%nat by (unfold n; lia).
  - intros k l' Hk. rewrite lookup_app_r by (unfold n in *; lia). fold n.
    destruct (k - n)%nat as [|[|[|[|m]]]] eqn:E; [lia|by intros [= <-]..|lia].
Qed.

Lemma append_section content :
  let lines := Split newline (ensureTrailingNewline content +:+ nl +:+ renderNewTrackSection up track meta) in
  Split newline content `sublist_of` lines ∧ under_heading ("## " +:+ TrackDisplayName up track) (renderRow up meta) lines.
Proof.
  cbn zeta. unfold ensureTrailingNewline. destruct (HasSuffix content nl); [apply section_after|].
  destruct (section_after (content +:+ nl)) as [Hsub Hu]. split; [|done].
  etransitivity; [|exact Hsub]. change nl with (String newline EmptyString). rewrite Split_app. by apply sublist_inserts_r.
Qed.

Lemma initial_lines :
  under_heading ("## " +:+ TrackDisplayName up track) (renderRow up meta) (Split newline (renderInitialReadme up track meta)).
Proof.
  destruct (section_after ("# Specs" +:+ nl +:+ nl +:+ readme_banner +:+ nl)) as [_ Hu]. rewrite !str_app_assoc in Hu. exact Hu.
Qed.

(** Rows inserted below a heading, before the next one. *)
Lemma insert_row content h i l new pre post :
  let lines := Split newline content in let heading := "## " +:+ TrackDisplayName up track in
  (h < i <= length lines)%nat → lines !! h = Some l → trim_right trailing_ws l = heading →
  (∀ k l', (h < k < i)%nat → lines !! k = Some l' → is_h2 l' = false) →
  new = (pre ++ renderRow up meta :: post)%list → Forall (λ l, is_h2 l = false) pre → Forall (free_of newline) new →
  let lines' := Split newline (strings_Join (insert_lines lines i new) nl) in
  lines `sublist_of` lines' ∧ under_heading heading (renderRow up meta) lines'.
Proof.
  intros lines heading Hi Hl Hlh Hno Hnew Hpre Hfree. cbn zeta.
  destruct (insert_lines_split content i new Hfree) as [E|E]; fold lines in E.
  - rewrite E. split; [apply sublist_insert|]. by apply (insert_under _ _ _ h i l new pre post).
  - by apply insert_ne in E; [|rewrite Hnew; destruct pre].
Qed.

(** [appendToReadme] keeps every line, in order, and puts the row under the
    track's heading. *)
Lemma append_lines content :
  let lines := Split newline (appendToReadme up content track meta) in
  Split newline content `sublist_of` lines ∧ under_heading ("## " +:+ TrackDisplayName up track) (renderRow up meta) lines.
Proof.
  cbn zeta. unfold appendToReadme. set (lines := Split newline content). set (heading := "## " +:+ TrackDisplayName up track).
  pose proof (find_line_spec (λ line, bool_decide (trim_right trailing_ws line = heading)) lines (length lines) 0) as Hh.
  destruct (find_line _ lines 0 (length lines)) as [h|]; [|apply append_section].
  destruct Hh as (Hh & (l & Hl & Hlh%bool_decide_eq_true) & _).
  pose proof (find_line_spec is_h2 lines (length lines - S h) (S h)) as Hn.
  set (next := default (length lines) (find_line is_h2 lines (S h) (length lines - S h))).
  assert ((h < next <= length lines)%nat ∧ ∀ k l', (h < k < next)%nat → lines !! k = Some l' → is_h2 l' = false) as [Hnext Hno].
  { unfold next. destruct (find_line is_h2 lines (S h) (length lines - S h)) as [j|]; simpl.
    - destruct Hn as (Hj & _ & Hk). split; [lia|]. intros k l' Hr. apply Hk. lia.
    - split; [lia|]. intros k l' Hr. apply Hn. lia. }
  clearbody next. clear Hn.
  pose proof (find_line_spec is_row lines (next - S h) (S h)) as Ht.
  destruct (find_line is_row lines (S h) (next - S h)) as [t|].
  - destruct Ht as (Ht & _ & _). destruct (last_row_bound lines (next - t) t t) as [H1 H2]; [lia|].
    apply (insert_row content h _ l [renderRow up meta] [] []); [fold lines; lia|done|done| |done|by apply Forall_nil_2|by apply Forall_singleton].
    intros k l' Hk. apply Hno. lia.
  - unfold table_place. pose proof (find_line_spec blank lines (next - S h) (S h)) as Hb.
    set (i := match find_line blank lines (S h) (next - S h) with Some j => j | None => (S h `max` next)%nat end).
    assert (h < i <= next)%nat as Hi.
    { unfold i. destruct (find_line blank lines (S h) (next - S h)); [destruct Hb as [Hb _]; lia|lia]. }
    apply (insert_row content h i l _ [EmptyString; table_head; table_rule] [EmptyString]);
      [fold lines; lia|done|done| |done|by repeat constructor|apply table_lines_free]. intros k l' Hk. apply Hno. lia.
Qed.

(** [EnsureReadme] touches no file but [specs/README.md].  On success that
    file has every line it had before, in order, and the row of the new spec
    stands below the heading of its track with no other heading between; when a
    write fails the file is as before. *)
Theorem EnsureReadme_spec o mkdir workspace fs :
  let readme := path_Join [workspace; "specs"; "README.md"] in
  track = trackFromSpecPath (meta_Path meta) → admissible o readme fs →
  let r := EnsureReadme up o mkdir workspace meta fs in
  let old := from_option f_data EmptyString (fs !! readme) in
  match r.1 with
  | Ok _ => (∀ q, q ≠ readme → r.2 !! q = fs !! q) ∧ ∃ f', r.2 !! readme = Some f' ∧
      (old ≠ EmptyString → Split newline old `sublist_of` Split newline (f_data f')) ∧
      under_heading ("## " +:+ TrackDisplayName up track) (renderRow up meta) (Split newline (f_data f'))
  | Err _ => r.2 !! readme = fs !! readme ∧ ∀ q f, fs !! q = Some f → r.2 !! q = Some f
  end.
Proof.
  intros readme Htrack Hadm. cbn zeta. unfold EnsureReadme. case_decide; [done|]. rewrite <- Htrack. case_decide; [done|]. fold readme.
  destruct mkdir as [e|]; [done|]. set (old := from_option f_data EmptyString (fs !! readme)). unfold WriteSync.
  set (next := if decide (old = EmptyString) then _ else _).
  destruct (write_states o readme next 420 true fs Hadm) as [Hall Hw]. cbn [fst snd].
  destruct (write o readme next 420 true fs) as [[u|e] states] eqn:Er; cbn [fst] in *.
  - split; [intros q Hq; by rewrite Hw, decide_False|]. exists (MkFile next 420). rewrite Hw, decide_True by done.
    split; [done|]. cbn [f_data]. unfold next. case_decide as Ho.
    + split; [done|]. apply initial_lines.
    + split; [intros _|]; apply append_lines.
  - split; [done|]. intros q f Hq. destruct (decide (q = readme)) as [->|Hne]; [by rewrite Hw|].
    destruct states as [|fs' states]; [done|]. inversion Hall as [|? ? [_ Hi] _]. by apply Hi.
Qed.
End readme_facts.

Module SectionRun.
Definition fine : Outcomes string := MkOutcomes (Ok "t/.tmp") None None None None None None.
Definition disk : FileSystem := <["s.md" := MkFile ("---" +:+ nl +:+ "title: A" +:+ nl +:+ "---" +:+ nl +:+ "# A" +:+ nl) 420]> ∅.

Lemma SetOutcome_spec_witness :
  (λ r, (r.1, f_data <$> r.2 !! "s.md")) <$> SetOutcome fine "s.md" " minor drift " disk =
    Some (Ok tt, Some ("---" +:+ nl +:+ "title: A" +:+ nl +:+ "---" +:+ nl +:+ "# A" +:+ nl +:+ nl
                       +:+ "## Outcome" +:+ nl +:+ nl +:+ "minor drift" +:+ nl)) ∧
  ∃ r fs', SetOutcome fine "s.md" " minor drift " disk = Some (r, fs').
Proof.
  split; [vm_compute; reflexivity|].
  destruct (SetOutcome_spec fine "s.md" " minor drift " disk) as (r & fs' & E & _); [split; [vm_compute; reflexivity|discriminate]|].
  exists r, fs'. exact E.
Defined.

Definition readme : string := "# Specs" +:+ nl +:+ "## Cloud Platform" +:+ nl +:+ "prose" +:+ nl.
Definition ws : FileSystem := <["/w/specs/README.md" := MkFile readme 420]> ∅.
Definition meta : Meta := MkMeta "specs/cloud/auth.md" "Auth" StatusDrafted EmptyString.

Lemma EnsureReadme_spec_witness :
  path_Join ["/w"; "specs"; "README.md"] = "/w/specs/README.md" ∧
  match (EnsureReadme (λ r, r) fine None "/w" meta ws).1 with
  | Ok _ => ∀ q, q ≠ "/w/specs/README.md" → (EnsureReadme (λ r, r) fine None "/w" meta ws).2 !! q = ws !! q
  | Err _ => False
  end.
Proof.
  split; [reflexivity|].
  assert (free_of newline (renderRow (λ r, r) meta)) as Hrow by (vm_compute; repeat split; discriminate).
  assert (free_of newline (TrackDisplayName (λ r, r) "cloud")) as Hname by (vm_compute; repeat split; discriminate).
  assert (trackFromSpecPath (meta_Path meta) = "cloud") as Ht by reflexivity.
  pose proof (EnsureReadme_spec (λ r, r) "cloud" meta Hrow Hname fine None "/w" ws (eq_sym Ht)) as H.
  assert (admissible fine "/w/specs/README.md" ws) as Ha by (split; [vm_compute; reflexivity|discriminate]).
  specialize (H Ha). cbv zeta in H. destruct ((EnsureReadme (λ r, r) fine None "/w" meta ws).1) eqn:E; [exact (proj1 H)|].
  vm_compute in E. discriminate.
Defined.
End SectionRun.
