(* ===== verification/Regex.v ===== *)
(** * Regular expressions

    The part of Go's [regexp] that the program's compiled patterns use: classes,
    concatenation, alternation, greedy repetition, [\b] and [(?m)^], matched
    against the runes of a string.  [matches] enumerates the matches at a
    position in the order of preference of the library (leftmost-first);
    [language] says what a pattern means.  [MatchString_language] shows that the
    two agree, so the bound on the repetitions that [matches] tries (the length
    of the rest of the text) is enough. *)

From S2P Require Import Prelude GoStrings.
From Stdlib Require Import String.
From stdpp Require Import list.
Local Open Scope Z_scope.

Inductive regex :=
| Eps
| Class (p : Z → bool)
| Seq (r1 r2 : regex)
| Alt (r1 r2 : regex)
| Star (r : regex)
| WordB
| LineStart.

Definition Opt (r : regex) : regex := Alt r Eps.
Definition Plus (r : regex) : regex := Seq r (Star r).

(** ** Classes *)

Definition digit (c : Z) : bool := in_range 48 c 57.
Definition upper (c : Z) : bool := in_range 65 c 90.
Definition lower (c : Z) : bool := in_range 97 c 122.

(** [\s] of RE2: tab, newline, form feed, carriage return and space. *)
Definition space (c : Z) : bool := bool_decide (c ∈ [9; 10; 12; 13; 32]).

(** [\w], the class that [\b] looks at. *)
Definition word (c : Z) : bool := digit c || upper c || lower c || Z.eqb c 95.

(** A letter under [(?i)]: besides the two cases, simple folding relates [s]
    with U+017F and [k] with U+212A. *)
Definition folds (l c : Z) : bool :=
  if upper l || lower l then
    let u := if lower l then l - 32 else l in
    Z.eqb c u || Z.eqb c (u + 32) || (Z.eqb u 83 && Z.eqb c 383) || (Z.eqb u 75 && Z.eqb c 8490)
  else Z.eqb c l.

(** The literal text [s] under [(?i)]. *)
Definition lit (s : string) : regex := foldr (λ c r, Seq (Class (folds c)) r) Eps (bytes s).

Definition alts (l : list regex) : regex :=
  match l with
  | [] => Class (λ _, false)
  | r :: rest => foldl Alt r rest
  end.

Definition ws : regex := Class space.

(** ** Matching *)

(** A position in the text: the runes before it, the last one first, and the
    runes from it on. *)
Definition pos : Type := list Z * list Z.

Definition is_word (l : list Z) : bool := match l with c :: _ => word c | [] => false end.

Definition at_boundary (k : pos) : bool := xorb (is_word k.1) (is_word k.2).

Definition at_line_start (k : pos) : bool := match k.1 with [] => true | c :: _ => Z.eqb c 10 end.

(** Greedy repetition; a round that consumes nothing ends it. *)
Fixpoint star (step : pos → list pos) (fuel : nat) (k : pos) : list pos :=
  match fuel with
  | O => [k]
  | S fuel => (filter (λ k', (length k'.2 < length k.2)%nat) (step k) ≫= star step fuel) ++ [k]
  end.

Fixpoint matches (r : regex) (k : pos) : list pos :=
  match r with
  | Eps => [k]
  | Class p => match k.2 with c :: rest => if p c then [(c :: k.1, rest)] else [] | [] => [] end
  | Seq r1 r2 => matches r1 k ≫= matches r2
  | Alt r1 r2 => matches r1 k ++ matches r2 k
  | Star r => star (matches r) (length k.2) k
  | WordB => if at_boundary k then [k] else []
  | LineStart => if at_line_start k then [k] else []
  end.

(** The positions of a text, from the first one on. *)
Fixpoint positions (before rest : list Z) : list pos :=
  (before, rest) :: match rest with c :: rest => positions (c :: before) rest | [] => [] end.

Definition MatchString (r : regex) (s : string) : bool :=
  existsb (λ k, match matches r k with [] => false | _ => true end) (positions [] (runes s)).

(** The text between two positions of which the second is not before the first. *)
Definition between (k k' : pos) : string :=
  string_of_runes (reverse (take (length k'.1 - length k.1) k'.1)).

(** The group of a pattern of the form [r1 ( r2 ) r3], in its preferred match. *)
Definition find_group (r1 r2 r3 : regex) (s : string) : option string :=
  head (positions [] (runes s) ≫= λ k, matches r1 k ≫= λ k1, matches r2 k1 ≫= λ k2,
    match matches r3 k2 with [] => [] | _ => [between k1 k2] end).

(** ** Meaning *)

(** [language r pre mid post]: [r] matches [mid] where the text before is [pre]
    and the text after is [post]. *)
Inductive repeated (R : list Z → list Z → list Z → Prop) : list Z → list Z → list Z → Prop :=
| repeated_none pre post : repeated R pre [] post
| repeated_one pre m1 m2 post :
    R pre m1 (m2 ++ post) → repeated R (pre ++ m1) m2 post → repeated R pre (m1 ++ m2) post.

Fixpoint language (r : regex) (pre mid post : list Z) : Prop :=
  match r with
  | Eps => mid = []
  | Class p => ∃ c, mid = [c] ∧ p c = true
  | Seq r1 r2 => ∃ m1 m2, mid = m1 ++ m2 ∧ language r1 pre m1 (m2 ++ post) ∧ language r2 (pre ++ m1) m2 post
  | Alt r1 r2 => language r1 pre mid post ∨ language r2 pre mid post
  | Star r => repeated (language r) pre mid post
  | WordB => mid = [] ∧ at_boundary (reverse pre, post) = true
  | LineStart => mid = [] ∧ at_line_start (reverse pre, post) = true
  end.

(** ** The matcher and the meaning agree *)

(** [k'] is [k] after the text [mid]. *)
Definition after (k : pos) (mid : list Z) (k' : pos) : Prop :=
  k.2 = mid ++ k'.2 ∧ k'.1 = reverse mid ++ k.1.

(** [step] enumerates the matches of [L]. *)
Definition enumerates (step : pos → list pos) (L : list Z → list Z → list Z → Prop) : Prop :=
  ∀ k k', k' ∈ step k ↔ ∃ mid, after k mid k' ∧ L (reverse k.1) mid k'.2.

Lemma after_nil k : after k [] k.
Proof. done. Qed.

Lemma after_nil_inv k k' : after k [] k' → k' = k.
Proof. destruct k, k'. intros [? ?]. by simplify_eq/=. Qed.

Lemma after_app k m1 k1 m2 k2 : after k m1 k1 → after k1 m2 k2 → after k (m1 ++ m2) k2.
Proof.
  intros [E1 E2] [E3 E4]. split; [by rewrite E1, E3, app_assoc|]. by rewrite E4, E2, reverse_app, app_assoc.
Qed.

Lemma after_split k m1 m2 k2 : after k (m1 ++ m2) k2 →
  ∃ k1, after k m1 k1 ∧ after k1 m2 k2 ∧ k1.2 = m2 ++ k2.2 ∧ reverse k1.1 = reverse k.1 ++ m1.
Proof.
  intros [E1 E2]. exists (reverse m1 ++ k.1, m2 ++ k2.2). unfold after. simpl.
  rewrite E1, E2, !reverse_app, reverse_involutive, <- !app_assoc. done.
Qed.

Lemma after_before k m k1 : after k m k1 → reverse k1.1 = reverse k.1 ++ m.
Proof. intros [_ ->]. by rewrite reverse_app, reverse_involutive. Qed.

(** Matching of two patterns in a row. *)
Lemma enumerates_seq f g L1 L2 : enumerates f L1 → enumerates g L2 →
  enumerates (λ k, f k ≫= g)
    (λ pre mid post, ∃ m1 m2, mid = m1 ++ m2 ∧ L1 pre m1 (m2 ++ post) ∧ L2 (pre ++ m1) m2 post).
Proof.
  intros Hf Hg k k'. rewrite list_elem_of_bind. split.
  - intros (k1 & (m2 & Ha2 & H2)%Hg & (m1 & Ha1 & H1)%Hf). exists (m1 ++ m2). split; [by eapply after_app|].
    exists m1, m2. split; [done|]. destruct (Ha2) as [<- _]. by rewrite <- (after_before _ _ _ Ha1).
  - intros (mid & Ha & m1 & m2 & -> & H1 & H2). apply after_split in Ha as (k1 & Ha1 & Ha2 & E1 & E2).
    exists k1. rewrite (Hf k k1), (Hg k1 k'). split; [exists m2|exists m1]; split; [done|by rewrite E2|done|by rewrite E1].
Qed.

Lemma repeated_progress L pre mid post : repeated L pre mid post →
  mid = [] ∨ ∃ m1 m2, mid = m1 ++ m2 ∧ m1 ≠ [] ∧ L pre m1 (m2 ++ post) ∧ repeated L (pre ++ m1) m2 post.
Proof.
  induction 1 as [|pre m1 m2 post H1 H2 IH]; [by left|]. destruct m1 as [|c m1]; [by rewrite app_nil_r in *|].
  right. exists (c :: m1), m2. done.
Qed.

Lemma enumerates_star f L fuel k k' : enumerates f L → (length k.2 <= fuel)%nat →
  k' ∈ star f fuel k ↔ ∃ mid, after k mid k' ∧ repeated L (reverse k.1) mid k'.2.
Proof.
  intros Hf. revert k. induction fuel as [|fuel IH]; intros k Hk; simpl.
  - rewrite list_elem_of_singleton. split.
    + intros ->. exists []. split; [done|constructor].
    + intros (mid & Ha & _). apply after_nil_inv. destruct mid as [|c mid]; [done|].
      destruct Ha as [E _]. by rewrite E in Hk; simpl in Hk; lia.
  - rewrite elem_of_app, list_elem_of_bind, list_elem_of_singleton. split.
    + intros [(k1 & Hin & [Hlt (m1 & Ha1 & H1)%Hf]%list_elem_of_filter)| ->].
      * apply IH in Hin as (m2 & Ha2 & H2); [|lia]. exists (m1 ++ m2). split; [by eapply after_app|].
        constructor; [by destruct Ha2 as [<- _]|]. by rewrite <- (after_before _ _ _ Ha1).
      * exists []. split; [done|constructor].
    + intros (mid & Ha & [-> |(m1 & m2 & -> & Hm & H1 & H2)]%repeated_progress);
        [right; by apply after_nil_inv|left].
      apply after_split in Ha as (k1 & Ha1 & Ha2 & E1 & E2). exists k1.
      assert (length k1.2 < length k.2)%nat.
      { destruct Ha1 as [-> _]. rewrite length_app. destruct m1; simpl; [done|lia]. }
      split; [apply IH; [lia|]; exists m2; by rewrite E2|].
      apply list_elem_of_filter. split; [done|]. apply Hf. exists m1. by rewrite E1.
Qed.

Lemma enumerates_test (b : pos → bool) :
  enumerates (λ k, if b k then [k] else []) (λ pre mid post, mid = [] ∧ b (reverse pre, post) = true).
Proof.
  intros k k'. destruct (b k) eqn:E.
  - rewrite list_elem_of_singleton. split.
    + intros ->. exists []. split_and!; [done..|]. rewrite reverse_involutive. by destruct k.
    + intros (mid & Ha & -> & _). by apply after_nil_inv.
  - split; [by intros ?%not_elem_of_nil|]. intros (mid & Ha & -> & Hb). apply after_nil_inv in Ha as ->.
    rewrite reverse_involutive in Hb. destruct k. simpl in Hb. congruence.
Qed.

Lemma matches_language r : enumerates (matches r) (language r).
Proof.
  induction r as [|p|r1 IH1 r2 IH2|r1 IH1 r2 IH2|r IH| |]; [..|apply enumerates_test|apply enumerates_test].
  - intros k k'. simpl. rewrite list_elem_of_singleton. split; [intros ->; by exists []|].
    intros (? & Ha & ->). by apply after_nil_inv.
  - intros [b rest] k'. unfold after. simpl. split.
    + destruct rest as [|c rest]; [by intros ?%not_elem_of_nil|]. destruct (p c) eqn:Hp; [|by intros ?%not_elem_of_nil].
      intros ->%list_elem_of_singleton. exists [c]. split; [done|]. by exists c.
    + intros (mid & [E1 E2] & c & -> & Hp). simplify_eq/=. rewrite Hp. apply list_elem_of_singleton. destruct k'. by simplify_eq/=.
  - by apply enumerates_seq.
  - intros k k'. simpl. rewrite elem_of_app, (IH1 k k'), (IH2 k k'). naive_solver.
  - intros k k'. simpl. by apply enumerates_star.
Qed.

Lemma elem_of_positions before rest k :
  k ∈ positions before rest ↔ ∃ pre, after (before, rest) pre k.
Proof.
  revert before. induction rest as [|c rest IH]; intros before; simpl.
  - rewrite list_elem_of_singleton. split; [intros ->; by exists []|]. intros (pre & E1 & E2). destruct k as [b r]. simpl in *.
    destruct pre; simplify_eq/=. done.
  - rewrite elem_of_cons, IH. split.
    + intros [-> |(pre & E1 & E2)]; [by exists []|]. exists (c :: pre). split; simpl in *; [by f_equal|].
      by rewrite E2, reverse_cons, <- app_assoc.
    + intros (pre & E1 & E2). destruct pre as [|c' pre]; [left; by destruct k; simplify_eq/=|]. right. exists pre.
      simplify_eq/=. split; [done|]. by rewrite E2, reverse_cons, <- app_assoc.
Qed.

(** The matcher decides what a pattern means: [MatchString] answers true
    exactly when some part of the text, in the context of the text around it,
    is in the language of the pattern. *)
Theorem MatchString_language r s :
  MatchString r s = true ↔ ∃ pre mid post, runes s = pre ++ mid ++ post ∧ language r pre mid post.
Proof.
  unfold MatchString. rewrite existsb_exists. split.
  - intros (k & (pre & E1 & E2)%list_elem_of_In%elem_of_positions & Hm).
    destruct (matches r k) as [|k' l] eqn:E; [done|].
    destruct (proj1 (matches_language r k k')) as (mid & [E3 E4] & HL); [rewrite E; left|].
    simpl in *. exists pre, mid, k'.2. rewrite E1, E3. split; [done|].
    by rewrite E2, app_nil_r, reverse_involutive in HL.
  - intros (pre & mid & post & E & HL). exists (reverse pre, mid ++ post). split.
    + apply list_elem_of_In, elem_of_positions. exists pre. split; [done|]. simpl. by rewrite app_nil_r.
    + assert ((reverse mid ++ reverse pre, post) ∈ matches r (reverse pre, mid ++ post)) as Hin.
      { apply matches_language. exists mid. simpl. by rewrite reverse_involutive. }
      destruct (matches r _); [by apply not_elem_of_nil in Hin|done].
Qed.
