(* ===== verification/Verdict.v ===== *)
(** * The verdict of a test run (internal/runner: execute.go)

    [parseTestVerdict] looks for bold markers, then for a verdict in the last
    lines, then for the summaries of common test runners.  The compiled patterns
    of the package are terms of [Regex.regex]; [compile] stands for
    [regexp.Compile] on the patterns a user attached to the task, and [up] for
    [unicode.ToUpper] outside ASCII. *)

From S2P Require Import Prelude GoStrings GoText Regex.
From Stdlib Require Import Ascii String.
From stdpp Require Import list.
Local Open Scope Z_scope.
Local Open Scope string_scope.
#[local] Arguments String.append : simpl nomatch.

(** ** Patterns *)

Definition words (l : list string) : regex := alts (lit <$> l).
Definition seqs (l : list regex) : regex := foldr Seq Eps l.
Definition digits : regex := Plus (Class digit).
Definition spaces : regex := Plus ws.
Definition opt_s : regex := Opt (lit "S").

(** The parts of [verdictLabelPattern] before, in and after its group. *)
Definition label_head : regex := seqs [WordB;
  words ["RESULT"; "VERDICT"; "STATUS"; "OUTCOME"; "CONCLUSION"; "SUMMARY"];
  Star ws; Opt (Class (λ c, Z.eqb c 58 || Z.eqb c 45)); Star ws].
Definition label_token : regex := words ["PASS"; "PASSED"; "PASSING"; "FAIL"; "FAILED"; "FAILURE"; "FAILS"].
Definition negatedPassPattern : regex := seqs [WordB; words ["NO"; "NOT"]; spaces; lit "PASS";
  Opt (words ["ED"; "ING"]); WordB].
Definition xPassingPattern : regex := seqs [WordB; digits; spaces; lit "passing"; WordB].
Definition allPassedPattern : regex := seqs [WordB; lit "all"; spaces; Opt (Seq digits spaces);
  alts [Seq (lit "test") opt_s; Seq (lit "check") opt_s; Seq (lit "spec") opt_s; Seq (lit "example") opt_s];
  spaces; lit "pass"; Opt (lit "ed"); WordB].
Definition goTestOKPattern : regex := seqs [LineStart; lit "ok"; spaces; Class (λ c, negb (space c))].
Definition buildSuccessPattern : regex := seqs [WordB; lit "BUILD"; spaces; lit "SUCCESS"; WordB].
Definition nPassedPattern : regex := seqs [WordB; digits; spaces;
  Opt (alts [seqs [lit "test"; opt_s; spaces]; seqs [lit "spec"; opt_s; spaces]; seqs [lit "example"; opt_s; spaces]]);
  lit "passed"; WordB].
Definition allGreenPattern : regex := seqs [WordB; lit "all"; spaces; lit "green"; WordB].
Definition succeedPattern : regex := seqs [WordB;
  alts [Seq (lit "pass") (Opt (lit "es")); Seq (lit "test") opt_s; lit "both"; lit "all"];
  spaces; lit "succeed"; Opt (words ["ed"; "s"]); WordB].
Definition failureInContentPattern : regex := seqs [WordB; Class (λ c, in_range 49 c 57); Star (Class digit); spaces;
  Opt (seqs [lit "test"; opt_s; spaces]); alts [lit "failed"; Seq (lit "failure") opt_s; lit "failing"]; WordB].
Definition satisfiesRequirementsPattern : regex := seqs [WordB; lit "satisfies"; spaces; words ["every"; "all"]; spaces;
  lit "requirement"].
Definition allRequirementsMetPattern : regex := seqs [WordB;
  Alt (seqs [lit "all"; spaces; lit "requirement"; opt_s; spaces; Opt (Seq (lit "are") spaces); lit "met"])
      (seqs [lit "meet"; opt_s; spaces; words ["all"; "every"]; spaces; lit "requirement"; opt_s]); WordB].
Definition noChangesNeededPattern : regex := seqs [WordB; lit "no"; spaces; lit "changes"; spaces;
  Opt (Seq (lit "are") spaces); words ["needed"; "required"; "necessary"]; WordB].
Definition correctAsWrittenPattern : regex := seqs [WordB; lit "correct"; spaces; lit "as";
  Class (λ c, space c || Z.eqb c 45); words ["written"; "is"]; WordB].
Definition llmFailureGuardPattern : regex := seqs [WordB; alts [
    seqs [lit "requirement"; Star (Class (λ c, negb (Z.eqb c 10))); words ["not"; "un"]; Star ws; lit "met"];
    seqs [lit "does"; spaces; lit "not"; spaces; words ["meet"; "satisfy"]];
    seqs [lit "fail"; Opt (words ["s"; "ed"]); spaces; lit "to"; spaces; words ["meet"; "satisfy"]];
    seqs [lit "missing"; spaces; lit "requirement"];
    seqs [lit "unmet"; spaces; lit "requirement"]]; WordB].

Section verdict.
Variable up : Z → Z.
Variable compile : string → option (string → bool).

Definition ToUpper (s : string) : string := string_of_runes (upper_rune up <$> runes s).

(** ** The parser *)

Definition verdictTokenToValue (token : string) : string :=
  let t := ToUpper token in
  if bool_decide (t ∈ ["PASS"; "PASSED"; "PASSING"]) then "pass"
  else if bool_decide (t ∈ ["FAIL"; "FAILS"; "FAILED"; "FAILING"; "FAILURE"; "FAILURES"]) then "fail"
  else EmptyString.

Definition not_alnum (r : Z) : bool := (Z.ltb r 65 || Z.ltb 90 r) && (Z.ltb r 48 || Z.ltb 57 r).

Definition parseTestVerdictFromLine (line : string) : string :=
  match find_group label_head label_token WordB line with
  | Some m1 => verdictTokenToValue m1
  | None =>
    match last (FieldsFunc not_alnum line) with
    | None => EmptyString
    | Some w => if MatchString negatedPassPattern line then "fail" else verdictTokenToValue w
    end
  end.

(** One of the custom patterns compiles and matches. *)
Definition custom (patterns : list string) (result : string) : bool :=
  existsb (λ p, match compile p with Some m => m result | None => false end) patterns.

Definition inferPassFromContent (result : string) (customPass customFail : list string) : string :=
  if custom customFail result then "fail"
  else if custom customPass result then "pass"
  else if MatchString failureInContentPattern result then EmptyString
  else if MatchString xPassingPattern result then "pass"
  else if MatchString allPassedPattern result then "pass"
  else if MatchString goTestOKPattern result then "pass"
  else if MatchString buildSuccessPattern result then "pass"
  else if MatchString nPassedPattern result then "pass"
  else if MatchString allGreenPattern result then "pass"
  else if MatchString succeedPattern result then "pass"
  else if negb (MatchString llmFailureGuardPattern result) then
    if MatchString satisfiesRequirementsPattern result || MatchString allRequirementsMetPattern result ||
       MatchString noChangesNeededPattern result || MatchString correctAsWrittenPattern result
    then "pass" else EmptyString
  else EmptyString.

Definition MaxTailLines : Z := 15.

(** [strings.TrimRight(strings.TrimSpace(line), ".*!?:;,-")]. *)
Definition trim_line (l : string) : string :=
  trim_right (λ a, bool_decide (a ∈ list_ascii_of_string ".*!?:;,-")) (TrimSpace l).

(** The scan of the lines, the last one first. *)
Fixpoint scan_tail (lines : list string) (seen : Z) : string :=
  match lines with
  | [] => EmptyString
  | l :: rest =>
    let line := trim_line l in
    if bool_decide (line = EmptyString) then scan_tail rest seen
    else
      let seen := seen + 1 in
      if Z.ltb MaxTailLines seen then EmptyString
      else
        let verdict := parseTestVerdictFromLine line in
        if negb (bool_decide (verdict = EmptyString)) then verdict
        else if HasSuffix line "PASS" then "pass"
        else if HasSuffix line "FAIL" then "fail"
        else scan_tail rest seen
  end.

Definition parseTestVerdict (result : string) (customPass customFail : list string) : string :=
  let upper := ToUpper result in
  if Contains upper "**PASS**" then "pass"
  else if Contains upper "**FAIL**" then "fail"
  else
    let v := scan_tail (reverse (Split newline upper)) 0 in
    if negb (bool_decide (v = EmptyString)) then v
    else inferPassFromContent result customPass customFail.

Definition buildTestFailureFeedback (result : string) : string :=
  let result := TrimSpace result in
  let result := if bool_decide (result = EmptyString)
                then "The test agent did not provide detailed failure output." else result in
  "Automated test verification failed. Address the following issues before continuing:" +:+ nl +:+ nl +:+ result.

(** ** The tail scan against a reference *)

(** What one line says, and the lines that are asked. *)
Definition line_verdict (line : string) : option string :=
  let verdict := parseTestVerdictFromLine line in
  if bool_decide (verdict ≠ EmptyString) then Some verdict
  else if HasSuffix line "PASS" then Some "pass"
  else if HasSuffix line "FAIL" then Some "fail"
  else None.

Definition tail_lines (result : string) : list string :=
  take 15 (filter (λ l, l ≠ EmptyString) (trim_line <$> reverse (Split newline (ToUpper result)))).

Lemma token_value t : verdictTokenToValue t ∈ ["pass"; "fail"; EmptyString].
Proof. unfold verdictTokenToValue. repeat case_bool_decide; set_solver. Qed.

Lemma scan_tail_spec lines seen : 0 <= seen <= 15 →
  scan_tail lines seen = default EmptyString
    (head (omap line_verdict (take (Z.to_nat (15 - seen)) (filter (λ l, l ≠ EmptyString) (trim_line <$> lines))))).
Proof.
  revert seen. induction lines as [|l lines IH]; intros seen Hs; cbn [scan_tail fmap list_fmap].
  { rewrite filter_nil. by rewrite take_nil. }
  rewrite filter_cons. unfold MaxTailLines. case_bool_decide as He.
  { rewrite decide_False by naive_solver. by apply IH. }
  rewrite decide_True by done. destruct (Z.ltb_spec 15 (seen + 1)).
  { by replace (Z.to_nat (15 - seen)) with 0%nat by lia. }
  replace (Z.to_nat (15 - seen)) with (S (Z.to_nat (15 - (seen + 1)))) by lia.
  cbn [take omap list_omap]. unfold line_verdict at 1. set (v := parseTestVerdictFromLine (trim_line l)).
  destruct (decide (v = EmptyString)) as [Hv|Hv].
  - rewrite !(bool_decide_true (v = _)), bool_decide_false by naive_solver. simpl negb. cbv iota.
    destruct (HasSuffix _ "PASS"); [done|]. destruct (HasSuffix _ "FAIL"); [done|]. apply IH. lia.
  - rewrite !(bool_decide_false (v = _)), bool_decide_true by done. done.
Qed.

Lemma line_verdict_value l v : line_verdict l = Some v → v = "pass" ∨ v = "fail".
Proof.
  unfold line_verdict. assert (parseTestVerdictFromLine l ∈ ["pass"; "fail"; EmptyString]) as Hv.
  { unfold parseTestVerdictFromLine. destruct (find_group _ _ _ _); [apply token_value|].
    destruct (last _); [|set_solver]. destruct (MatchString _ _); [set_solver|apply token_value]. }
  case_bool_decide; [intros [= <-]; set_solver|].
  destruct (HasSuffix l "PASS"); [intros [= <-]; by left|]. destruct (HasSuffix l "FAIL"); [intros [= <-]; by right|done].
Qed.

Lemma first_verdict l v : head (omap line_verdict l) = Some v → v = "pass" ∨ v = "fail".
Proof.
  intros Hh. assert (v ∈ omap line_verdict l) as (x & _ & Hx)%list_elem_of_omap; [|by eapply line_verdict_value].
  destruct (omap _ _); [done|]. injection Hh as ->. left.
Qed.

Lemma infer_value result customPass customFail :
  inferPassFromContent result customPass customFail ∈ ["pass"; "fail"; EmptyString].
Proof. unfold inferPassFromContent. repeat (match goal with |- context [if ?b then _ else _] => destruct b end); set_solver. Qed.

(** The verdict with the scan of the lines as a specification. *)
Definition verdict_of (result : string) (customPass customFail : list string) : string :=
  if Contains (ToUpper result) "**PASS**" then "pass"
  else if Contains (ToUpper result) "**FAIL**" then "fail"
  else match head (omap line_verdict (tail_lines result)) with
       | Some v => v
       | None => inferPassFromContent result customPass customFail
       end.

Lemma parse_verdict_of result customPass customFail :
  parseTestVerdict result customPass customFail = verdict_of result customPass customFail.
Proof.
  unfold parseTestVerdict, verdict_of. destruct (Contains _ _); [done|]. destruct (Contains _ _); [done|].
  rewrite scan_tail_spec by lia. change (Z.to_nat (15 - 0)) with 15%nat. fold (tail_lines result).
  destruct (head _) as [v|] eqn:Hh; [|done]. simpl. by destruct (first_verdict _ _ Hh) as [-> | ->].
Qed.

(** C31: Without patterns of the user, the parser gives the verdict of the
    specification: a bold marker decides, [**PASS**] before [**FAIL**]; without one,
    the last of the final 15 non-blank lines that says something decides; only when
    none does is the content as a whole looked at for the summary of a test runner.
    The answer is always pass, fail or nothing. *)
Theorem parseTestVerdict_spec result :
  parseTestVerdict result [] [] = verdict_of result [] [] ∧ parseTestVerdict result [] [] ∈ ["pass"; "fail"; EmptyString].
Proof.
  rewrite parse_verdict_of. split; [done|]. unfold verdict_of.
  destruct (Contains _ _); [set_solver|]. destruct (Contains _ _); [set_solver|].
  destruct (head _) as [v|] eqn:Hh; [|apply infer_value]. destruct (first_verdict _ _ Hh) as [-> | ->]; set_solver.
Qed.

(** ** A count of failures *)

Lemma lit_language s pre mid post :
  language (lit s) pre mid post ↔ Forall2 (λ l c, folds l c = true) (bytes s) mid.
Proof.
  unfold lit. generalize (bytes s) as l. intros l. revert pre mid.
  induction l as [|c l IH]; intros pre mid; simpl.
  { split; [by intros ->|]. by intros ?%Forall2_nil_inv_l. }
  split.
  - intros (m1 & m2 & -> & (x & -> & Hx) & H2%IH). by constructor.
  - intros Hf. apply Forall2_cons_inv_l in Hf as (x & m2 & Hx & H2 & ->). exists [x], m2. split; [done|].
    split; [by exists x|]. by apply IH.
Qed.

Lemma folds_refl c : folds c c = true.
Proof.
  unfold folds. destruct (upper c) eqn:Eu, (lower c) eqn:El; simpl; try apply Z.eqb_refl;
    unfold upper, lower, in_range in *; rewrite ?Z.eqb_refl; [lia| |].
  - done.
  - replace (c - 32 + 32) with c by lia. rewrite Z.eqb_refl. by rewrite orb_true_r.
Qed.

Lemma lit_itself s pre post : language (lit s) pre (bytes s) post.
Proof. apply lit_language. induction (bytes s); constructor; [apply folds_refl|done]. Qed.

Lemma star_class p pre l post : Forall (λ c, p c = true) l → language (Star (Class p)) pre l post.
Proof.
  simpl. revert pre. induction l as [|c l IH]; intros pre Hl; [constructor|].
  apply Forall_cons in Hl as [Hc Hl]. apply (repeated_one _ pre [c] l); [by exists c|by apply IH].
Qed.

Lemma plus_class p pre l post : l ≠ [] → Forall (λ c, p c = true) l → language (Plus (Class p)) pre l post.
Proof.
  intros Hne Hl. destruct l as [|c l]; [done|]. apply Forall_cons in Hl as [Hc Hl].
  exists [c], l. split; [done|]. split; [by exists c|by apply star_class].
Qed.

(** A word of the text that is a number other than zero, and the word failed
    after it. *)
Record failure_count (result : string) (d : Z) (pre ds sp post : list Z) : Prop := {
  fc_text : runes result = (pre ++ (d :: ds) ++ sp ++ bytes "failed" ++ post)%list;
  fc_start : is_word (reverse pre) = false;
  fc_first : in_range 49 d 57 = true;
  fc_digits : Forall (λ c, digit c = true) ds;
  fc_gap : sp ≠ [];
  fc_spaces : Forall (λ c, space c = true) sp;
  fc_end : is_word post = false
}.

Lemma failure_count_matches result d pre ds sp post :
  failure_count result d pre ds sp post → MatchString failureInContentPattern result = true.
Proof.
  intros [Ht Hs Hf Hds Hg Hsp He]. apply MatchString_language.
  exists pre, ((d :: ds) ++ sp ++ bytes "failed")%list, post. split; [by rewrite Ht, <- !app_assoc|].
  exists [], ((d :: ds) ++ sp ++ bytes "failed")%list. split; [done|]. split.
  { split; [done|]. unfold at_boundary. cbn [fst snd app]. rewrite Hs. unfold is_word, word, digit.
    unfold in_range in *. assert (Z.leb 48 d && Z.leb d 57 = true) as -> by lia. done. }
  exists [d], (ds ++ sp ++ bytes "failed")%list. split; [done|]. split; [by exists d|].
  exists ds, (sp ++ bytes "failed")%list. split; [done|]. split; [by apply star_class|].
  exists sp, (bytes "failed"). split; [done|]. split; [by apply plus_class|].
  exists [], (bytes "failed"). split; [done|]. split; [by right|].
  exists (bytes "failed"), []. split; [done|]. split; [left; left; apply lit_itself|].
  exists [], []. split; [done|]. split; [|done]. split; [done|]. unfold at_boundary. cbn [fst snd app].
  rewrite He, !reverse_app. done.
Qed.

(** A test run that reports failures does not pass by inference: when the
    text counts a non-zero number of failures, no marker and no final line says
    pass, and no pass pattern of the user applies, the verdict is not pass. *)
Theorem failure_count_not_pass result customPass customFail d pre ds sp post :
  failure_count result d pre ds sp post →
  Contains (ToUpper result) "**PASS**" = false →
  Forall (λ l, line_verdict l ≠ Some "pass") (tail_lines result) →
  custom customPass result = false →
  parseTestVerdict result customPass customFail ≠ "pass".
Proof.
  intros Hfc Hb Hl Hc. rewrite parse_verdict_of. unfold verdict_of. rewrite Hb.
  destruct (Contains (ToUpper result) "**FAIL**"); [done|]. destruct (head _) as [v|] eqn:Hh.
  - intros ->. assert ("pass" ∈ omap line_verdict (tail_lines result)) as (l & Hin & Hv)%list_elem_of_omap.
    { destruct (omap _ _); [done|]. injection Hh as ->. left. }
    rewrite Forall_forall in Hl. by apply (Hl l).
  - unfold inferPassFromContent. rewrite Hc, (failure_count_matches _ _ _ _ _ _ Hfc). destruct (custom customFail result); discriminate.
Qed.
End verdict.

Module VerdictRun.
Definition no_pattern : string → option (string → bool) := λ _, None.
Definition report : string := "5 passed, 1 failed in 3s".

(** A mixed report without a verdict line gives no verdict. *)
Lemma failure_count_not_pass_witness :
  failure_count report 49 (bytes "5 passed, ") [] [32] (bytes " in 3s") ∧
  parseTestVerdict id no_pattern report [] [] ≠ "pass".
Proof.
  assert (failure_count report 49 (bytes "5 passed, ") [] [32] (bytes " in 3s")) as Hfc.
  { split; try (vm_compute; reflexivity); repeat constructor. discriminate. }
  split; [exact Hfc|]. apply (failure_count_not_pass id no_pattern report [] [] 49 _ _ _ _ Hfc).
  - vm_compute. reflexivity.
  - apply (bool_decide_unpack _). vm_compute. exact I.
  - vm_compute. reflexivity.
Defined.

(** A fail pattern of the user that matches does not decide: the last line is
    asked first. *)
Lemma custom_fail_after_tail :
  parseTestVerdict id (λ _, Some (λ _, true)) "All good: PASS" [] ["panic"] = "pass".
Proof. vm_compute. reflexivity. Qed.
End VerdictRun.
