(* ===== verification/World.v ===== *)
(** * Goroutines that share a store

    What the runner and the handlers do between calls of the store: a goroutine
    is a function on a [World], which holds the store, the position of the clock
    and the calls made to collaborators outside the store.  Every method of the
    store runs under its lock, so a goroutine is a sequence of store operations,
    and before each of them [others] may have run any number of operations of
    other goroutines: the theorems about a goroutine hold for every such
    interleaving that respects their rely condition.  [clock] gives the time at
    each operation.

    The file also has the JSON encoding of event payloads ([encoding/json] on
    maps, structs of strings, numbers, booleans and lists of strings) and [fmt]'s [%.4f]. *)

From S2P Require Import Prelude Breaker StateMachine GoStrings GoText PkgUtil TaskModel Backend Store StoreUpdate StoreQuery.
From Stdlib Require Import String.
From stdpp Require Import list gmap pretty.
Local Open Scope Z_scope.

(** ** Event payloads *)

Inductive jval := JStr (s : string) | JInt (z : Z) | JBool (b : bool) | JList (l : list string).

(** [\uXXXX]. *)
Definition u_escape (r : Z) : list Z := 92 :: 117 :: hex 4 r.

(** One rune of a string, with the bytes it is encoded by; HTML characters are
    escaped and invalid bytes replaced. *)
Definition json_rune (c : Z * list Z) : list Z :=
  let '(r, b) := c in
  if Z.eqb r 34 || Z.eqb r 92 then [92; r]
  else if Z.eqb r 8 then [92; 98] else if Z.eqb r 12 then [92; 102]
  else if Z.eqb r 10 then [92; 110] else if Z.eqb r 13 then [92; 114] else if Z.eqb r 9 then [92; 116]
  else if Z.ltb r 32 || Z.eqb r 60 || Z.eqb r 62 || Z.eqb r 38 || Z.eqb r 8232 || Z.eqb r 8233 then u_escape r
  else if Z.eqb r RuneError && bool_decide (length b = 1%nat) then u_escape r
  else b.

Definition json_string (s : string) : string := of_bytes (34 :: (chunks (bytes s) ≫= json_rune) ++ [34]).

Definition json_val (v : jval) : string :=
  match v with
  | JStr s => json_string s
  | JInt z => pretty_Z z
  | JBool b => (if b then "true" else "false")%string
  | JList l => ("[" ++ strings_Join (json_string <$> l) "," ++ "]")%string
  end.

(** An object with its members in the given order. *)
Definition json_object (l : list (string * jval)) : string :=
  ("{" ++ strings_Join ((λ '(k, v), json_string k ++ ":" ++ json_val v)%string <$> l) "," ++ "}")%string.

Definition key_le (a b : string * jval) : Prop := string_leb a.1 b.1 = true.
#[export] Instance key_le_dec : RelDecision key_le.
Proof. intros a b. unfold key_le. apply _. Defined.

(** A map is written with its keys sorted. *)
Definition json_map (m : gmap string jval) : string := json_object (merge_sort key_le (map_to_list m)).

Definition payload (l : list (string * string)) : string := json_map (JStr <$> list_to_map l).

(** [SpanData]. *)
Definition span (phase label : string) : string := json_object [("phase", JStr phase); ("label", JStr label)]%string.

(** [NewStateChangeData] without extras. *)
Definition Trigger := string.
Definition TriggerUser : Trigger := "user"%string.
Definition TriggerAutoPromote : Trigger := "auto_promote"%string.
Definition TriggerAutoRetry : Trigger := "auto_retry"%string.
Definition TriggerAutoTest : Trigger := "auto_test"%string.
Definition TriggerAutoSubmit : Trigger := "auto_submit"%string.
Definition TriggerFeedback : Trigger := "feedback"%string.
Definition TriggerSync : Trigger := "sync"%string.
Definition TriggerSystem : Trigger := "system"%string.

Definition NewStateChangeData (from to : TaskStatus) (trigger : Trigger) (extra : list (string * string)) : string :=
  json_map (JStr <$> (list_to_map extra ∪
    list_to_map [("from", from); ("to", to); ("trigger", trigger)]%string : gmap string string)).

Definition EventTypeStateChange : EventType := "state_change"%string.
Definition EventTypeOutput : EventType := "output"%string.
Definition EventTypeFeedback : EventType := "feedback"%string.
Definition EventTypeError : EventType := "error"%string.
Definition EventTypeSystem : EventType := "system"%string.

(** [fmt.Sprintf("%.4f", f)]: the exact value rounded to four decimals, a tie
    to the even one. *)
Definition round_even (n d : Z) : Z :=
  let q := n / d in
  match 2 * (n mod d) ?= d with
  | Lt => q
  | Gt => q + 1
  | Eq => if Z.even q then q else q + 1
  end.

Definition pad (width : nat) (s : string) : string :=
  (of_bytes (replicate (width - String.length s) 48%Z) ++ s)%string.

Definition fmt_f4 (f : float64) : string :=
  match f with
  | SpecFloat.S754_zero s => (if s then "-0.0000" else "0.0000")%string
  | SpecFloat.S754_infinity s => (if s then "-Inf" else "+Inf")%string
  | SpecFloat.S754_nan => "NaN"%string
  | SpecFloat.S754_finite s m e =>
    let n := if Z.leb 0 e then Zpos m * 10000 * 2 ^ e else round_even (Zpos m * 10000) (2 ^ (- e)) in
    ((if s then "-" else EmptyString) ++ pretty_Z (n / 10000) ++ "." ++ pad 4 (pretty_Z (n mod 10000)))%string
  end.

(** ** Worlds *)

Section world.
Context `{UUIDLib} {B : Type} `{!StorageBackend B}.
Abbreviation Store := (Store B).
Abbreviation M := (M (B:=B)).

(** Calls to collaborators: the sandbox, git, the background goroutines. *)
Inductive Effect :=
| RunBackground (id : uuid) (prompt sessionID : string) (resumedFromWaiting : bool)
| SyncWorktreesBackground (id : uuid) (sessionID : string) (prev : TaskStatus)
| RunContainer (id : uuid) (prompt sessionID : string) (test : bool)
| CommitPipeline (id : uuid) (sessionID : string)
| GenerateOversightBackground (id : uuid)
| GenerateOversight (id : uuid)
| GenerateTestOversight (id : uuid) (startTurn : Z)
| NotifyStopReason (id : uuid) (reason : string)
| AppendTurnUsage (id : uuid) (turn : Z) (usage : TaskUsage) (stopReason sandbox subAgent : string)
| StopTaskWorker (id : uuid)
| KillContainer (id : uuid)
| CleanupWorktrees (id : uuid)
| ResolveConflicts (id : uuid) (repo : string) (attempt : Z)
| CommitTransition (id : uuid) (sessionID trigger failurePrefix : string)
| ReviewBackground (id : uuid)
| ArchiveThreads (id : uuid)
| UnarchiveThreads (id : uuid)
| UnregisterRoutine (id : uuid)
| InvalidateDiff (id : uuid)
| ArmPromoteTimer (due : Z)
| GenerateTitle (id : uuid) (prompt : string).

(** The circuit breaker of a watcher, with what it last failed on. *)
Record watcherBreaker := MkWatcherBreaker {
  wb_breaker : BackoffBreaker;
  lastReason : string;
  lastTaskID : option uuid
}.

(** [w_locked] says whether the goroutine holds [promoteMu]. *)
Record World := MkWorld {
  w_store : Store;
  w_tick : nat;
  w_effects : list Effect;
  w_locked : bool;
  w_breakers : gmap string watcherBreaker;
  w_reviews : gset uuid
}.

#[export] Instance eta_World : Eta World := λ w,
  MkWorld (w_store w) (w_tick w) (w_effects w) (w_locked w) (w_breakers w) (w_reviews w).
#[export] Instance set_w_store : Setter w_store. Proof. derive_setter. Defined.
#[export] Instance set_w_tick : Setter w_tick. Proof. derive_setter. Defined.
#[export] Instance set_w_effects : Setter w_effects. Proof. derive_setter. Defined.
#[export] Instance set_w_locked : Setter w_locked. Proof. derive_setter. Defined.
#[export] Instance set_w_breakers : Setter w_breakers. Proof. derive_setter. Defined.
#[export] Instance set_w_reviews : Setter w_reviews. Proof. derive_setter. Defined.

(** The schedule: the other goroutines, while this one holds [promoteMu] and
    while it does not, the clock, and the order in which each operation ranges
    over the map of tasks. *)
Record Schedule := MkSchedule {
  others : bool → nat → Store → Store;
  clock : nat → Z;
  ranges : nat → gmap uuid Task → list uuid
}.

Definition W (A : Type) : Type := World → A * World.

#[export] Instance W_ret : MRet W := λ A a w, (a, w).
#[export] Instance W_bind : MBind W := λ A C k m w, let '(a, w') := m w in k a w'.

(** State of the goroutine's own process that no store operation touches. *)
Definition inspect {A} (f : World → A) : W A := λ w, (f w, w).
Definition update (f : World → World) : W unit := λ w, (tt, f w).

Definition emit (e : Effect) : W unit := λ w, (tt, w <| w_effects := w_effects w ++ [e] |>).
Definition lock : W unit := λ w, (tt, w <| w_locked := true |>).
Definition unlock : W unit := λ w, (tt, w <| w_locked := false |>).

Variable sch : Schedule.

(** The other goroutines run up to the next operation of this one. *)
Definition arrive (w : World) : World :=
  w <| w_store := others sch (w_locked w) (w_tick w) (w_store w) |> <| w_tick := S (w_tick w) |>.

(** One operation of the store, which may read the clock twice. *)
Definition op {A} (f : Z → Z → M A) : W (result store_error A) := λ w,
  let n := w_tick w in
  let w := arrive w in
  let '(r, s) := f (clock sch (2 * n)) (clock sch (2 * n + 1)) (w_store w) in
  (r, w <| w_store := s |>).

(** One that ranges over the tasks. *)
Definition op_range {A} (f : list uuid → Z → Z → M A) : W (result store_error A) := λ w,
  op (λ n1 n2 s, f (ranges sch (w_tick w) (tasks s)) n1 n2 s) w.

(** An operation whose error is dropped, [_ = s.Op(...)]. *)
Definition quiet {A} (f : Z → Z → M A) : W unit := _ ← op f; mret tt.

(** Reads under the read lock. *)
Definition read {A} (f : Store → A) : W A := λ w, let w := arrive w in (f (w_store w), w).

Definition read_range {A} (f : list uuid → Store → A) : W A := λ w,
  read (λ s, f (ranges sch (w_tick w) (tasks s)) s) w.

(** The clock, and an answer that may change over time. *)
Definition now : W Z := λ w, let n := w_tick w in (clock sch (2 * n), arrive w).
Definition ask {A} (f : nat → A) : W A := λ w, let n := w_tick w in (f n, arrive w).

Definition get_task (id : uuid) : W (result store_error Task) := read (GetTask id).

Definition status_to (id : uuid) (st : TaskStatus) : Z → Z → M unit := λ n1 n2, UpdateTaskStatus n1 n2 id st.

(** Who writes the events: the runner's context has no actor. *)
Record Actor := MkActor { actor_Sub : string; actor_Type : string }.
Definition no_actor : Actor := MkActor EmptyString EmptyString.

Definition event_as (a : Actor) (id : uuid) (ty : EventType) (data : string) : W unit :=
  quiet (λ n _, InsertEvent n (actor_Sub a) (actor_Type a) id ty (Some data)).
Definition event : uuid → EventType → string → W unit := event_as no_actor.

Definition state_change (a : Actor) (id : uuid) (from to : TaskStatus) (trigger : Trigger) : W unit :=
  event_as a id EventTypeStateChange (NewStateChangeData from to trigger []).
End world.
Arguments World {_} B.
Arguments Schedule {_} B.
