(* ===== verification/WorldRules.v ===== *)
(** * Reasoning about goroutines

    [triple P m Q]: from a world with [P], [m] ends in a world with [Q].  The
    rules for sequencing, and, for the operations of the store, what they do to
    the record of one task whatever the backend answers ([touches]): an update
    reaches memory even when saving fails. *)

From S2P Require Import Prelude StateMachine GoStrings PkgUtil TaskModel Backend Store StoreUpdate StoreWf StoreSpec StoreQuery World.
From Stdlib Require Import String.
From stdpp Require Import list gmap.
Local Open Scope Z_scope.

Create HintDb world.

Section touches.
Context `{UUIDLib} {B : Type} `{!StorageBackend B}.
Abbreviation Store := (Store B).
Abbreviation M := (M (B:=B)).
Implicit Types (s : Store) (t : Task) (id : uuid).

(** What [m] may do to the live tasks: nothing, or replace the record of [id]
    by one related to it by [R]. *)
Definition touches {A} id (R : Task → Task → Prop) (m : M A) : Prop := ∀ s,
  tasks (m s).2 = tasks s ∨
  ∃ t t', tasks s !! id = Some t ∧ R t t' ∧ tasks (m s).2 = <[id := t']> (tasks s).

Lemma touches_keeps {A} id R (m : M A) : keeps m → touches id R m.
Proof. intros Hk s. left. by injection (Hk s). Qed.

Lemma touches_weaken {A} id (R R' : Task → Task → Prop) (m : M A) :
  (∀ t t', R t t' → R' t t') → touches id R m → touches id R' m.
Proof. intros Hi Hm s. destruct (Hm s) as [?|(t & t' & ? & ? & ?)]; [by left|right; eauto 10]. Qed.

Lemma touches_ignore {A} id R (m : M A) : touches id R m → touches id R (ignore m).
Proof. intros Hm s. apply Hm. Qed.

Lemma touches_bind_keeps {A C} id R (m : M A) (k : A → M C) : keeps m → (∀ a, touches id R (k a)) → touches id R (m ≫= k).
Proof.
  intros Hm Hk s. unfold mbind, M_bind, bind. pose proof (Hm s) as [= E _ _ _].
  destruct (m s) as [[a|e] s1]; simpl in *; [|by left]. rewrite <- E. apply Hk.
Qed.

(** An update with a function. *)
Lemma touches_mutate now id f : touches id (λ t t', t' = updated now f t) (mutateTask now id (pure_fn f)).
Proof.
  intros s. destruct (tasks s !! id) as [t|] eqn:Ht.
  - right. exists t, (updated now f t). destruct (mutate_mem now id f s t Ht) as [E _]. done.
  - left. unfold mutateTask, mbind, M_bind, bind, find_task. by rewrite Ht.
Qed.

(** One that refuses a task that is not a routine. *)
Lemma touches_routine now id f : touches id (λ t t', t' = updated now f t) (mutateTask now id (routine_fn id f)).
Proof.
  intros s. destruct (tasks s !! id) as [t|] eqn:Ht.
  - destruct (IsRoutine t) eqn:E; [|left; unfold mutateTask, routine_fn, mbind, M_bind, bind, find_task; by rewrite Ht, E].
    replace (mutateTask now id (routine_fn id f) s) with (mutateTask now id (pure_fn f) s); [rewrite <- Ht; apply touches_mutate|].
    unfold mutateTask, routine_fn, pure_fn, mbind, M_bind, bind, find_task. by rewrite Ht, E.
  - left. unfold mutateTask, mbind, M_bind, bind, find_task. by rewrite Ht.
Qed.

Lemma touches_InsertEvent id R now a1 a2 id' ty data : touches id R (InsertEvent now a1 a2 id' ty data).
Proof. apply touches_keeps, keeps_InsertEvent. Qed.

Lemma touches_SaveTurnOutput now id turn out err :
  touches id (λ t t', t' = updated now (λ t, t <| TruncatedTurns := TruncatedTurns t ++ [turn] |>) t)
    (SaveTurnOutput now id turn out err).
Proof.
  unfold SaveTurnOutput. apply touches_bind_keeps; [apply keeps_gets|]. intros mb.
  destruct (truncateTurnData mb out) as [o ol]. apply touches_bind_keeps; [apply keeps_call|]. intros _.
  destruct (truncateTurnData mb err) as [e el]. apply touches_bind_keeps.
  { destruct (decide _); [apply keeps_ret|apply keeps_call]. }
  intros _. destruct (_ || _); [|apply touches_keeps, keeps_ret]. apply touches_ignore, touches_mutate.
Qed.

(** A status change: in memory it happens exactly when the machine allows it. *)
Lemma status_mem now1 now2 id st s t : tasks s !! id = Some t →
  tasks (UpdateTaskStatus now1 now2 id st s).2 =
    if CanTransitionTo (Status t) st then <[id := with_status now1 now2 t st]> (tasks s) else tasks s.
Proof.
  intros Ht. unfold UpdateTaskStatus, mbind, M_bind, bind, find_task. rewrite Ht.
  unfold CanTransitionTo, CanTransition. destruct (Validate TaskMachine (Status t) st); [|done]. simpl.
  rewrite (set_status_eq (λ z, z)). pose proof (keeps_status_tail id (with_status now1 now2 t st) st
    (move_task id t (with_status now1 now2 t st) s)) as [= E _ _ _]. rewrite E. unfold move_task.
  unfold removeFromStatusIndex. by destruct (tasksByStatus s !! Status t).
Qed.

Lemma force_mem now1 now2 id st s t : tasks s !! id = Some t →
  tasks (ForceUpdateTaskStatus now1 now2 id st s).2 = <[id := with_status now1 now2 t st]> (tasks s).
Proof.
  intros Ht. unfold ForceUpdateTaskStatus, mbind, M_bind, bind, find_task. rewrite Ht.
  rewrite (set_status_eq (λ z, z)). pose proof (keeps_status_tail id (with_status now1 now2 t st) st
    (move_task id t (with_status now1 now2 t st) s)) as [= E _ _ _]. rewrite E. unfold move_task.
  unfold removeFromStatusIndex. by destruct (tasksByStatus s !! Status t).
Qed.

Lemma status_absent now1 now2 id st s : tasks s !! id = None → (UpdateTaskStatus now1 now2 id st s).2 = s.
Proof. intros Ht. unfold UpdateTaskStatus, mbind, M_bind, bind, find_task. by rewrite Ht. Qed.

Lemma force_absent now1 now2 id st s : tasks s !! id = None → (ForceUpdateTaskStatus now1 now2 id st s).2 = s.
Proof. intros Ht. unfold ForceUpdateTaskStatus, mbind, M_bind, bind, find_task. by rewrite Ht. Qed.

Lemma Status_with_status now1 now2 t st : Status (with_status now1 now2 t st) = st.
Proof. by apply (with_status_facts (λ z, z) now1 now2 t st EmptyString). Qed.
End touches.

(** ** Triples *)

Section triples.
Context `{UUIDLib} {B : Type} `{!StorageBackend B} (sch : Schedule B).
Abbreviation Store := (Store B).
Abbreviation M := (M (B:=B)).
Abbreviation World := (World B).
Abbreviation W := (W (B:=B)).
Implicit Types (P : World → Prop).

Definition triple {A} P (m : W A) (Q : A → World → Prop) : Prop := ∀ w, P w → Q (m w).1 (m w).2.

Lemma triple_ret {A} P (a : A) (Q : A → World → Prop) : (∀ w, P w → Q a w) → triple P (mret a) Q.
Proof. intros Hi w. apply Hi. Qed.

Lemma triple_bind {A C} P (m : W A) (k : A → W C) R Q :
  triple P m R → (∀ a, triple (R a) (k a) Q) → triple P (m ≫= k) Q.
Proof.
  intros Hm Hk w Hw. specialize (Hm w Hw). unfold mbind, W_bind. destruct (m w) as [a w']. by apply Hk.
Qed.

(** The first part answers [a]. *)
Lemma triple_bind_eq {A C} P R (m : W A) (k : A → W C) a Q :
  triple P m (λ r w, r = a ∧ R w) → triple R (k a) Q → triple P (m ≫= k) Q.
Proof. intros Hm Hk. eapply triple_bind; [exact Hm|]. intros r w [-> Hw]. by apply Hk. Qed.

Lemma bind_run {A C} (m : W A) (k : A → W C) w : (m ≫= k) w = k (m w).1 (m w).2.
Proof. unfold mbind, W_bind. by destruct (m w). Qed.

(** The first part may end anywhere. *)
Lemma triple_skip {A C} P (m : W A) (k : A → W C) Q : (∀ a, triple (λ _, True) (k a) Q) → triple P (m ≫= k) Q.
Proof. intros Hk. apply (triple_bind _ _ _ (λ _ _, True)); done. Qed.

Lemma triple_any {A} P (m : W A) Q : triple (λ _, True) m Q → triple P m Q.
Proof. intros Hm w _. by apply Hm. Qed.

Lemma triple_conseq {A} P P' (m : W A) (Q Q' : A → World → Prop) :
  triple P' m Q' → (∀ w, P w → P' w) → (∀ a w, Q' a w → Q a w) → triple P m Q.
Proof. intros Hm HP HQ w Hw. apply HQ, Hm, HP, Hw. Qed.

(** A fact in the precondition. *)
Lemma triple_pure {A} (φ : Prop) P (m : W A) Q : (φ → triple P m Q) → triple (λ w, φ ∧ P w) m Q.
Proof. intros Hm w [Hφ Hw]. by apply Hm. Qed.

Lemma triple_and {A} P (m : W A) Q1 Q2 : triple P m Q1 → triple P m Q2 → triple P m (λ a w, Q1 a w ∧ Q2 a w).
Proof. intros H1 H2 w Hw. auto. Qed.

(** A property of the store that the other goroutines respect. *)
Definition stable (P : Store → Prop) : Prop := ∀ b n s, P s → P (others sch b n s).

(** [m] keeps [P]; [m] establishes [P]. *)
Definition preserves {A} (P : Store → Prop) (m : W A) : Prop :=
  triple (λ w, P (w_store w)) m (λ _ w, P (w_store w)).
Definition establishes {A} (P : Store → Prop) (m : W A) : Prop := triple (λ _, True) m (λ _ w, P (w_store w)).

Lemma preserves_ret {A} (P : Store → Prop) (a : A) : preserves P (mret a).
Proof. by apply triple_ret. Qed.

Lemma preserves_bind {A C} (P : Store → Prop) (m : W A) (k : A → W C) : preserves P m → (∀ a, preserves P (k a)) → preserves P (m ≫= k).
Proof. intros Hm Hk. by eapply triple_bind. Qed.

Lemma preserves_emit (P : Store → Prop) e : preserves P (emit e).
Proof. intros w Hw. done. Qed.

Lemma preserves_lock (P : Store → Prop) : preserves P lock.
Proof. intros w Hw. done. Qed.

Lemma preserves_unlock (P : Store → Prop) : preserves P unlock.
Proof. intros w Hw. done. Qed.

Lemma preserves_inspect {A} (P : Store → Prop) (f : World → A) : preserves P (inspect f).
Proof. intros w Hw. done. Qed.

(** [f] changes what is not the store. *)
Lemma preserves_update (P : Store → Prop) (f : World → World) : (∀ w, w_store (f w) = w_store w) → preserves P (update f).
Proof. intros Hf w Hw. simpl. by rewrite Hf. Qed.

Lemma preserves_now (P : Store → Prop) : stable P → preserves P (now sch).
Proof. intros Hst w Hw. by apply Hst. Qed.

Lemma preserves_ask {A} (P : Store → Prop) (f : nat → A) : stable P → preserves P (ask sch f).
Proof. intros Hst w Hw. by apply Hst. Qed.

Lemma preserves_op {A} (P : Store → Prop) (f : Z → Z → M A) : stable P → (∀ n1 n2 s, P s → P (f n1 n2 s).2) → preserves P (op sch f).
Proof.
  intros Hst Hf w Hw. unfold op. specialize (Hst (w_locked w) (w_tick w) _ Hw). apply (Hf (clock sch (2 * w_tick w)) (clock sch (2 * w_tick w + 1))) in Hst.
  by destruct (f _ _ _).
Qed.

Lemma preserves_quiet {A} (P : Store → Prop) (f : Z → Z → M A) : stable P → (∀ n1 n2 s, P s → P (f n1 n2 s).2) → preserves P (quiet sch f).
Proof. intros. apply preserves_bind; [by apply preserves_op|]. intros _. apply preserves_ret. Qed.

Lemma preserves_read {A} (P : Store → Prop) (f : Store → A) : stable P → preserves P (read sch f).
Proof. intros Hst w Hw. by apply Hst. Qed.

Lemma establishes_bind_l {A C} (P : Store → Prop) (m : W A) (k : A → W C) :
  establishes P m → (∀ a, preserves P (k a)) → establishes P (m ≫= k).
Proof. intros Hm Hk. by eapply triple_bind. Qed.

Lemma establishes_bind_r {A C} (P : Store → Prop) (m : W A) (k : A → W C) : (∀ a, establishes P (k a)) → establishes P (m ≫= k).
Proof. intros Hk. eapply triple_bind; [|exact Hk]. done. Qed.

Lemma establishes_preserves {A} (P : Store → Prop) (m : W A) : establishes P m → preserves P m.
Proof. intros Hm w _. by apply Hm. Qed.

Lemma establishes_triple {A} (P : Store → Prop) X (m : W A) (Q : A → World → Prop) :
  establishes P m → (∀ a w, P (w_store w) → Q a w) → triple X m Q.
Proof. intros Hm HQ w _. by apply HQ, Hm. Qed.

Lemma establishes_op {A} (P : Store → Prop) (f : Z → Z → M A) : (∀ n1 n2 s, P (f n1 n2 s).2) → establishes P (op sch f).
Proof.
  intros Hf w _. unfold op. pose proof (Hf (clock sch (2 * w_tick w)) (clock sch (2 * w_tick w + 1))
    (w_store (arrive sch w))) as Hp. by destruct (f _ _ _).
Qed.

Lemma establishes_quiet {A} (P : Store → Prop) (f : Z → Z → M A) : (∀ n1 n2 s, P (f n1 n2 s).2) → establishes P (quiet sch f).
Proof.
  intros Hf w _. unfold quiet, op, mbind, W_bind. pose proof (Hf (clock sch (2 * w_tick w)) (clock sch (2 * w_tick w + 1))
    (w_store (arrive sch w))) as Hp. by destruct (f _ _ _).
Qed.
End triples.

#[export] Hint Resolve preserves_ret preserves_emit preserves_read : world.

(** ** Tasks that left a status *)

(** The task is not live, or its status is not [x]. *)
Definition away `{UUIDLib} {B : Type} (x : TaskStatus) (id : uuid) (s : Store B) : Prop :=
  ∀ t, tasks s !! id = Some t → Status t ≠ x.

(** Not in progress. *)
Abbreviation idle := (away TaskStatusInProgress).

Section away.
Context `{UUIDLib} {B : Type} `{!StorageBackend B} (sch : Schedule B) (x : TaskStatus) (id : uuid).
Abbreviation Store := (Store B).
Abbreviation away := (away x id).
Implicit Types (s : Store) (t : Task).

Lemma away_touches {A} id' (R : Task → Task → Prop) (m : M (B:=B) A) s :
  touches id' R m → (∀ t t', R t t' → Status t' = Status t) → away s → away (m s).2.
Proof.
  intros Hm HR Hi t. destruct (Hm s) as [-> |(u & u' & Hu & HRu & ->)]; [by apply Hi|].
  destruct (decide (id' = id)) as [-> |Hne]; [rewrite lookup_insert_eq|rewrite lookup_insert_ne by done; by apply Hi].
  intros [= <-]. rewrite (HR _ _ HRu). by apply Hi.
Qed.

Lemma away_status now1 now2 id' st s : st ≠ x → away s → away (UpdateTaskStatus now1 now2 id' st s).2.
Proof.
  intros Hst Hi t. destruct (tasks s !! id') as [u|] eqn:Hu; [|rewrite status_absent by done; apply Hi].
  rewrite (status_mem _ _ _ _ _ _ Hu). destruct (CanTransitionTo _ _); [|apply Hi].
  destruct (decide (id' = id)) as [-> |Hne]; [rewrite lookup_insert_eq|rewrite lookup_insert_ne by done; by apply Hi].
  intros [= <-]. by rewrite Status_with_status.
Qed.

Lemma away_forced now1 now2 st s : st ≠ x → away (ForceUpdateTaskStatus now1 now2 id st s).2.
Proof.
  intros Hst t. destruct (tasks s !! id) as [u|] eqn:Hu; [|rewrite force_absent by done; congruence].
  rewrite (force_mem _ _ _ _ _ _ Hu), lookup_insert_eq. intros [= <-]. by rewrite Status_with_status.
Qed.

(** A status that may follow [x] makes the task leave it, whatever it was. *)
Lemma away_made now1 now2 st s : st ≠ x → CanTransitionTo x st = true → away (UpdateTaskStatus now1 now2 id st s).2.
Proof.
  intros Hst Hx t. destruct (tasks s !! id) as [u|] eqn:Hu; [|rewrite status_absent by done; congruence].
  rewrite (status_mem _ _ _ _ _ _ Hu). destruct (CanTransitionTo (Status u) st) eqn:Hc.
  - rewrite lookup_insert_eq. intros [= <-]. by rewrite Status_with_status.
  - rewrite Hu. intros [= <-] Hs. congruence.
Qed.

(** The rely condition: no other goroutine gives the task the status [x]. *)
Definition never_enters : Prop := stable sch away.

Hypothesis others_away : never_enters.

Lemma away_mutate id' (f : Z → Z → Task → Task) (now : Z → Z → Z) : (∀ n1 n2 t, Status (f n1 n2 t) = Status t) →
  preserves away (op sch (λ n1 n2, mutateTask (now n1 n2) id' (pure_fn (f n1 n2)))).
Proof.
  intros Hf. apply preserves_op; [done|]. intros n1 n2 s. eapply away_touches; [apply touches_mutate|].
  intros t t' ->. unfold updated. apply Hf.
Qed.

Lemma away_event a id' ty data : preserves away (event_as sch a id' ty data).
Proof.
  apply preserves_quiet; [done|]. intros n1 n2 s.
  eapply (away_touches id (λ t t', t' = t)); [apply touches_InsertEvent|by intros ? ? ->].
Qed.

Lemma away_turn_output id' turn out err : preserves away (op sch (λ n _, SaveTurnOutput n id' turn out err)).
Proof.
  apply preserves_op; [done|]. intros n1 n2 s. eapply away_touches; [apply touches_SaveTurnOutput|].
  by intros t t' ->.
Qed.

Lemma away_status_to id' st : st ≠ x → preserves away (op sch (status_to id' st)).
Proof. intros. apply preserves_op; [done|]. intros. by apply away_status. Qed.

Lemma away_force st : st ≠ x → preserves away (op sch (λ n1 n2, ForceUpdateTaskStatus n1 n2 id st)).
Proof. intros. apply preserves_op; [done|]. intros. by apply away_forced. Qed.

Lemma made_away st : st ≠ x → CanTransitionTo x st = true → establishes away (quiet sch (status_to id st)).
Proof. intros. apply establishes_quiet. intros. by apply away_made. Qed.
End away.

(** No other goroutine puts the task in progress. *)
Abbreviation undisturbed sch := (never_enters sch TaskStatusInProgress).

Lemma made_idle `{UUIDLib} {B : Type} `{!StorageBackend B} (sch : Schedule B) id st :
  st ∈ [TaskStatusBacklog; TaskStatusWaiting; TaskStatusFailed] → establishes (idle id) (quiet sch (status_to id st)).
Proof.
  intros Hin. set_unfold in Hin. apply made_away; destruct Hin as [-> |[-> |[-> |[]]]]; done.
Qed.

#[export] Hint Resolve away_event away_turn_output : world.

(** Keeps a task away from a status: operations that leave its status alone, or
    set another one. *)
Ltac away_step :=
  lazymatch goal with
  | |- preserves _ (quiet _ _) => unfold quiet
  | |- preserves _ (event _ _ _ _) => unfold event
  | |- preserves _ (state_change _ _ _ _ _ _) => unfold state_change
  | |- preserves _ (get_task _ _) => unfold get_task
  | |- preserves _ (mret _) => apply preserves_ret
  | |- preserves _ (emit _) => apply preserves_emit
  | |- preserves _ lock => apply preserves_lock
  | |- preserves _ unlock => apply preserves_unlock
  | |- preserves _ (inspect _) => apply preserves_inspect
  | |- preserves _ (update _) => apply preserves_update; done
  | |- preserves _ (now _) => apply preserves_now; assumption
  | |- preserves _ (ask _ _) => apply preserves_ask; assumption
  | |- preserves _ (read _ _) => apply preserves_read; assumption
  | |- preserves _ (event_as _ _ _ _ _) => apply away_event; assumption
  | |- preserves _ (op _ (status_to _ _)) => apply away_status_to; [assumption|done]
  | |- preserves _ (op _ _) =>
      first [apply away_turn_output; assumption | apply away_mutate; [assumption|by intros] | apply away_force; [assumption|done]]
  | |- preserves _ (_ ≫= _) => apply preserves_bind; [|intros ?]
  | |- preserves _ (match ?x with _ => _ end) => destruct x
  | |- _ => solve [eauto with world]
  end.
Ltac away_tac := intros; repeat away_step.

(** ** A goroutine on its own

    With no other goroutine running, the record of one task and the calls to
    collaborators can be followed exactly. *)

Definition is_container `{UUIDLib} (e : Effect) : bool := match e with RunContainer _ _ _ _ => true | _ => false end.

Section solo.
Context `{UUIDLib} {B : Type} `{!StorageBackend B} (sch : Schedule B) (sel : Effect → bool) (id : uuid).
Abbreviation World := (World B).
Abbreviation M := (M (B:=B)).
Implicit Types (t : Task) (φ ψ : Task → Prop) (es : list Effect).

Definition solo : Prop := ∀ b n s, others sch b n s = s.

(** The calls so far that [sel] selects. *)
Definition calls (w : World) : list Effect := filter (λ e, sel e = true) (w_effects w).

(** The task is live with [φ], and the selected calls were [es]. *)
Definition task_at φ es (w : World) : Prop :=
  (∃ t, tasks (w_store w) !! id = Some t ∧ φ t) ∧ calls w = es.

Hypothesis alone : solo.

Lemma arrive_solo (w : World) : w_store (arrive sch w) = w_store w ∧ calls (arrive sch w) = calls w.
Proof. split; [apply alone|done]. Qed.

Lemma at_op {A} φ ψ es (f : Z → Z → M A) :
  (∀ n1 n2 s t, tasks s !! id = Some t → φ t → ∃ t', tasks (f n1 n2 s).2 !! id = Some t' ∧ ψ t') →
  triple (task_at φ es) (quiet sch f) (λ _, task_at ψ es).
Proof.
  intros Hf w [(t & Ht & Hφ) He]. unfold quiet, op, mbind, W_bind. rewrite (proj1 (arrive_solo w)).
  specialize (Hf (clock sch (2 * w_tick w)) (clock sch (2 * w_tick w + 1)) _ _ Ht Hφ).
  destruct (f _ _ _) as [r s']. done.
Qed.

(** The answer of the operation, on a backend that works if [h]. *)
Lemma at_op_answer {A} φ ψ es (h : Prop) (f : Z → Z → M A) :
  (∀ n1 n2 s t, tasks s !! id = Some t → φ t →
     (∃ t', tasks (f n1 n2 s).2 !! id = Some t' ∧ ψ t') ∧
     (healthy (backend s) → is_ok (f n1 n2 s).1 = true ∧ healthy (backend (f n1 n2 s).2))) →
  triple (λ w, task_at φ es w ∧ (h → healthy (backend (w_store w)))) (op sch f)
    (λ r w, (task_at ψ es w ∧ (h → healthy (backend (w_store w)))) ∧ (h → is_ok r = true)).
Proof.
  intros Hf w [[(t & Ht & Hφ) He] Hh]. unfold op. rewrite (proj1 (arrive_solo w)).
  destruct (Hf (clock sch (2 * w_tick w)) (clock sch (2 * w_tick w + 1)) _ _ Ht Hφ) as [H1 H2].
  destruct (f _ _ _) as [r s']. simpl in *. split; [split; [by split|]|]; intros h'; by apply H2, Hh.
Qed.

Lemma at_mutate φ ψ es (f : Z → Z → Task → Task) (now : Z → Z → Z) :
  (∀ n1 n2 t, φ t → ψ (updated (now n1 n2) (f n1 n2) t)) →
  triple (task_at φ es) (quiet sch (λ n1 n2, mutateTask (now n1 n2) id (pure_fn (f n1 n2)))) (λ _, task_at ψ es).
Proof.
  intros Hf. apply at_op. intros n1 n2 s t Ht Hφ. eexists. split; [|by apply Hf].
  by rewrite (proj1 (mutate_mem (now n1 n2) id (f n1 n2) s t Ht)), lookup_insert_eq.
Qed.

Lemma at_touches {A} φ es (R : Z → Z → Task → Task → Prop) (f : Z → Z → M A) :
  (∀ n1 n2, touches id (R n1 n2) (f n1 n2)) → (∀ n1 n2 t t', R n1 n2 t t' → φ t → φ t') →
  triple (task_at φ es) (quiet sch f) (λ _, task_at φ es).
Proof.
  intros Hm HR. apply at_op. intros n1 n2 s t Ht Hφ. destruct (Hm n1 n2 s) as [-> |(u & u' & Hu & Hr & ->)]; [eauto|].
  rewrite lookup_insert_eq. simplify_eq. eauto.
Qed.

Lemma at_event φ es a ty data : triple (task_at φ es) (event_as sch a id ty data) (λ _, task_at φ es).
Proof.
  apply (at_touches _ _ (λ _ _ t t', t' = t)); [intros; apply touches_InsertEvent|by intros ?? ?? ->].
Qed.

Lemma at_status φ ψ es st :
  (∀ n1 n2 t, φ t → CanTransitionTo (Status t) st = true ∧ ψ (with_status n1 n2 t st)) →
  triple (task_at φ es) (quiet sch (status_to id st)) (λ _, task_at ψ es).
Proof.
  intros Hst. apply at_op. intros n1 n2 s t Ht Hφ. destruct (Hst n1 n2 t Hφ) as [Hc Hψ].
  exists (with_status n1 n2 t st). split; [|done]. unfold status_to. by rewrite (status_mem _ _ _ _ _ _ Ht), Hc, lookup_insert_eq.
Qed.

Lemma at_force φ ψ es st : (∀ n1 n2 t, φ t → ψ (with_status n1 n2 t st)) →
  triple (task_at φ es) (quiet sch (λ n1 n2, ForceUpdateTaskStatus n1 n2 id st)) (λ _, task_at ψ es).
Proof.
  intros Hst. apply at_op. intros n1 n2 s t Ht Hφ. exists (with_status n1 n2 t st). split; [|by apply Hst].
  by rewrite (force_mem _ _ _ _ _ _ Ht), lookup_insert_eq.
Qed.

Lemma at_emit φ es e : triple (task_at φ es) (emit e) (λ _, task_at φ (es ++ (if sel e then [e] else []))).
Proof.
  intros w [Ht He]. split; [done|]. unfold calls. simpl. rewrite filter_app. unfold calls in He. rewrite He.
  f_equal. rewrite filter_cons, filter_nil. destruct (sel e); [by rewrite decide_True|by rewrite decide_False].
Qed.

Lemma at_emit_quiet φ es e : sel e = false → triple (task_at φ es) (emit e) (λ _, task_at φ es).
Proof. intros He w Hw. apply (at_emit _ _ e) in Hw. by rewrite He, app_nil_r in Hw. Qed.

Lemma at_read {A} φ es (k : result store_error Task → W A) Q :
  (∀ t, φ t → triple (task_at (λ t', t' = t) es) (k (Ok t)) Q) → triple (task_at φ es) (get_task sch id ≫= k) Q.
Proof.
  intros Hk w [(t & Ht & Hφ) He]. rewrite bind_run. unfold get_task, read, GetTask. cbn [fst snd].
  destruct (arrive_solo w) as [E1 E2]. rewrite E1, Ht. apply (Hk t Hφ). split; [exists t; by rewrite E1|by rewrite E2].
Qed.

Lemma at_weaken φ ψ es w : (∀ t, φ t → ψ t) → task_at φ es w → task_at ψ es w.
Proof. intros Hi [(t & ? & ?) ?]. split; [eauto|done]. Qed.
End solo.
