(* ===== verification/Runner.v ===== *)
(** * The turn loop (internal/runner: execute.go, execute_testrun.go, agentic.go, parse.go)

    [Run] takes a task that is in progress through the turns of its agent until
    the task waits, fails or goes back to the backlog; [driveToposRun] is the
    path of in-process runs.  What the agent and the other collaborators answer
    is an argument: [Collab] for the calls made once, and a list with what each
    turn of the container gives ([Panic] for a turn that panics).  The rest of
    the world acts through the schedule of World.v.  [high] is the
    printable part of Unicode above 255, for [%q]. *)

From S2P Require Import Prelude StateMachine GoStrings GoText PkgUtil TaskModel Backend Store StoreUpdate StoreQuery Verdict World.
From Stdlib Require Import String SpecFloat.
From stdpp Require Import list gmap pretty.
Local Open Scope Z_scope.
Local Open Scope string_scope.
#[local] Arguments String.append : simpl nomatch.

(** An error value: its message, and whether it wraps
    [context.DeadlineExceeded] or [gitutil.ErrConflict]. *)
Record goErr := MkErr { Error : string; IsDeadline : bool; IsConflict : bool }.

Definition classifyFailure (err : option goErr) (isError : bool) (result : string) : FailureCategory :=
  if match err with Some e => IsDeadline e | None => false end then FailureCategoryTimeout
  else if Contains result "budget exceeded" then FailureCategoryBudget
  else if isError then FailureCategoryAgentError
  else match err with
       | Some e => if Contains (Error e) "empty output" || Contains (Error e) "exit status"
                   then FailureCategoryContainerCrash else FailureCategoryUnknown
       | None => FailureCategoryUnknown
       end.

(** [usage] has the token counts and the cost of the invocation. *)
Record agentOutput := MkOutput {
  out_Result : string;
  out_SessionID : string;
  out_StopReason : string;
  out_IsError : bool;
  out_usage : TaskUsage;
  out_ActualSandbox : string;
  out_ObservedModel : string
}.

Record Turn := MkTurn { rawStdout : list Z; rawStderr : list Z; answer : goErr + agentOutput }.

Inductive TurnOutcome := Panic | Answers (t : Turn).

(** [extractSessionID]; [decode] is [json.Unmarshal] of a line into its
    [session_id] and [thread_id]. *)
Section parse.
Variable decode : string → option (string * string).

Fixpoint session_in (lines : list string) : string :=
  match lines with
  | [] => EmptyString
  | l :: rest =>
    let line := TrimSpace l in
    if negb (String.prefix "{" line) then session_in rest
    else match decode line with
         | Some (sid, tid) =>
           if negb (bool_decide (sid = EmptyString)) then sid
           else if negb (bool_decide (tid = EmptyString)) then tid
           else session_in rest
         | None => session_in rest
         end
  end.

Definition extractSessionID (raw : list Z) : string := session_in (Split GoText.newline (of_bytes raw)).
End parse.

(** An event of an in-process run, with the fields its payload decodes to. *)
Record TraceEvent := MkTrace {
  tr_Name : string;
  tr_AgentID : string;
  tr_Node : string;
  tr_text : string;
  tr_tool : string
}.

Definition arrow : string := of_bytes [226; 134; 179].

Definition agenticTraceEvent (ev : TraceEvent) : option (EventType * string) :=
  let label := if bool_decide (tr_AgentID ev = EmptyString) then tr_Node ev else tr_AgentID ev in
  let trace kind result text := Some (EventTypeSystem,
    payload [("result", result); ("source", "agentgraph"); ("kind", kind); ("node", tr_Node ev);
             ("agent", label); ("text", text)]) in
  if bool_decide (tr_Name ev = "AssistantMessage") then
    if bool_decide (tr_text ev = EmptyString) then None
    else trace "assistant" (label +:+ ": " +:+ tr_text ev) (tr_text ev)
  else if bool_decide (tr_Name ev = "SubagentStart") then
    trace "delegate" (arrow +:+ " delegated to " +:+ label) EmptyString
  else if bool_decide (tr_Name ev = "PostToolUse") then
    if bool_decide (tr_tool ev = EmptyString) then None
    else trace "tool" (label +:+ " used " +:+ tr_tool ev) (tr_tool ev)
  else None.

(** What the collaborators of [Run] answer. *)
(** A call of a collaborator: it returns, or it panics. *)
Inductive called (A : Type) := Panics | Returns (a : A).
Arguments Panics {A}.
Arguments Returns {A} a.

Record Collab `{UUIDLib} := MkCollab {
  captureExecutionEnvironment : Task → ExecutionEnvironment;
  (** The flow registry, when there is one: [ResolveForTask] and [Get], which
      says whether the flow is agentic. *)
  flows : option ((Task → string) * (string → option bool));
  (** The flow engine, when there is one, with the outcome of [Execute]. *)
  flowEngine : option (called (option goErr));
  inProcess : Task → bool;
  (** Whether a worktree path exists and is a git repository. *)
  worktree_valid : string → bool;
  ensureTaskWorktrees : called (goErr + (gmap string string * string));
  setupWorktrees : called (goErr + (gmap string string * string));
  boardDir : bool;
  (** The in-process run: its observed events, and an error or the final text
      and the marshalled lineage. *)
  topos_trace : list TraceEvent;
  topos_result : called (goErr + (string * option string));
  Commit_result : called (option goErr);
  (** [GenerateOversight] and [GenerateTestOversight], called in the goroutine of
      the run. *)
  oversight : called unit
}.
Arguments MkCollab {_}.

Section runner.
Context `{UUIDLib} {B : Type} `{!StorageBackend B}.
Variables (sch : Schedule B) (up : Z → Z) (compile : string → option (string → bool))
          (decode : string → option (string * string)) (high : Z → bool) (env : Collab).
Abbreviation W := (W (B:=B)).
Abbreviation op := (op sch).
Abbreviation quiet := (quiet sch).
Abbreviation event := (event sch).
Abbreviation get_task := (get_task sch).
Abbreviation change id from to := (state_change sch no_actor id from to TriggerSystem).

(** ** Retry on failure *)

Definition tryAutoRetry (id : uuid) (category : FailureCategory) : W bool :=
  r ← get_task id;
  match r with
  | Err _ => mret false
  | Ok t =>
    if negb (IsAutoRetryEligible t category) then mret false
    else
      e ← op (λ n _, IncrementAutoRetryCount n id category);
      match e with
      | Err _ => mret false
      | Ok _ =>
        u ← get_task id;
        (match u with
         | Ok updated => event id EventTypeSystem (payload [("message",
             "auto-retry " +:+ pretty_Z (AutoRetryCount updated) +:+ "/" +:+ pretty_Z MaxAutoRetries +:+
             " after " +:+ category)])
         | Err _ => mret tt
         end) ;;
        quiet (status_to id TaskStatusBacklog) ;;
        mret true
      end
  end.

Definition fail_or_retry (id : uuid) (category : FailureCategory) (rest : W unit) : W unit :=
  retried ← tryAutoRetry id category;
  if (retried : bool) then mret tt else rest.

Definition is_cancelled (id : uuid) : W bool :=
  cur ← get_task id;
  mret (match cur with Ok t => bool_decide (Status t = TaskStatusCancelled) | Err _ => false end).

(** The deferred guard of [Run]. *)
Definition run_guard (id : uuid) (statusSet : bool) : W unit :=
  if statusSet then mret tt
  else
    quiet (λ n _, SetTaskFailureCategory n id FailureCategoryUnknown) ;;
    fail_or_retry id FailureCategoryUnknown (
      quiet (status_to id TaskStatusFailed) ;;
      change id TaskStatusInProgress TaskStatusFailed).

(** ** Test runs *)

Definition finalizeTestRun (id : uuid) (task : Task) (result : string) : W unit :=
  let verdict := parseTestVerdict up compile result (CustomPassPatterns task) (CustomFailPatterns task) in
  let verdict := if bool_decide (verdict = EmptyString) then "fail" else verdict in
  quiet (λ n _, UpdateTaskTestRun n id false verdict) ;;
  (if bool_decide (verdict = "fail") then
     quiet (λ n _, IncrementTestFailCount n id) ;;
     quiet (λ n _, UpdateTaskPendingTestFeedback n id (buildTestFailureFeedback result))
   else quiet (λ n _, ResetTestFailCount n id)) ;;
  emit (GenerateTestOversight id (TestRunStartTurn task)) ;;
  match oversight env with
  | Panics => mret tt
  | Returns _ =>
    event id EventTypeSystem (payload [("result", "Test verification complete: " +:+ ToUpper up verdict)]) ;;
    quiet (status_to id TaskStatusWaiting) ;;
    change id TaskStatusInProgress TaskStatusWaiting ;;
    event id EventTypeSpanStart (span "feedback_waiting" "feedback_waiting")
  end.

(** ** The turn loop *)

(** The variables the turns share; [ts_turns] is [turns]. *)
Record TurnState := MkTurnState {
  ts_prompt : string;
  ts_sessionID : string;
  ts_testSessionID : string;
  ts_turns : Z;
  ts_env : ExecutionEnvironment
}.

Section turns.
Variables (id : uuid) (task : Task).

Definition original_prompt : string :=
  if bool_decide (ExecutionPrompt task = EmptyString) then Prompt task else ExecutionPrompt task.

Definition turn_label (turns : Z) : string :=
  (if IsTestRun task then "test_" else "implementation_") +:+ pretty_Z turns.

(** Up to the call of the container. *)
Definition begin_turn (ts : TurnState) : W TurnState :=
  let turns := wrap64 (ts_turns ts + 1) in
  (if boardDir env then
     event id EventTypeSpanStart (span "board_context" ("board_context_" +:+ pretty_Z turns)) ;;
     event id EventTypeSpanEnd (span "board_context" ("board_context_" +:+ pretty_Z turns))
   else mret tt) ;;
  event id EventTypeSpanStart (span "agent_turn" (turn_label turns)) ;;
  emit (RunContainer id (ts_prompt ts) (ts_sessionID ts) (IsTestRun task)) ;;
  mret (MkTurnState (ts_prompt ts) (ts_sessionID ts) (ts_testSessionID ts) turns (ts_env ts)).

Definition save_output (turns : Z) (t : Turn) : W unit :=
  event id EventTypeSpanEnd (span "agent_turn" (turn_label turns)) ;;
  quiet (λ n _, SaveTurnOutput n id turns (rawStdout t) (rawStderr t)) ;;
  (if bool_decide (rawStderr t = []) then mret tt
   else event id EventTypeSystem (payload [("stderr_file", "turn-" +:+ pad4 turns +:+ ".stderr.txt");
                                           ("turn", pretty_Z turns)])).

(** The container failed; [None] when the run is over. *)
Definition container_error (ts : TurnState) (t : Turn) (err : goErr) : W (option TurnState) :=
  let sid := extractSessionID decode (rawStdout t) in
  let sessionID :=
    if bool_decide (ts_sessionID ts = EmptyString) && negb (bool_decide (rawStdout t = [])) &&
       negb (bool_decide (sid = EmptyString)) then sid else ts_sessionID ts in
  if negb (bool_decide (sessionID = EmptyString)) && Contains (Error err) "empty output from container" then
    event id EventTypeSystem (payload [("result", "Session resume failed (empty output). Retrying with fresh session...")]) ;;
    mret (Some (MkTurnState original_prompt EmptyString (ts_testSessionID ts) (ts_turns ts) (ts_env ts)))
  else
    cancelled ← is_cancelled id;
    if (cancelled : bool) then mret None
    else
      let category := classifyFailure (Some err) false EmptyString in
      quiet (λ n _, SetTaskFailureCategory n id category) ;;
      quiet (λ n _, UpdateTaskResult n id (Error err) sessionID EmptyString (ts_turns ts)) ;;
      event id EventTypeError (payload [("error", Error err)]) ;;
      fail_or_retry id category (
        quiet (status_to id TaskStatusFailed) ;;
        change id TaskStatusInProgress TaskStatusFailed) ;;
      mret None.

(** The output is recorded; the session continues with the answer's. *)
Definition record_answer (ts : TurnState) (out : agentOutput) : W TurnState :=
  event id EventTypeOutput (payload [("result", out_Result out); ("stop_reason", out_StopReason out);
                                     ("session_id", out_SessionID out)]) ;;
  let changed := negb (bool_decide (out_ObservedModel out = EmptyString)) &&
                 negb (bool_decide (out_ObservedModel out = ModelName (ts_env ts))) in
  let e := ts_env ts in
  let env' := if changed then MkEnv (ContainerImage e) (ContainerDigest e) (out_ObservedModel out)
                                    (APIBaseURL e) (env_Sandbox e) (RecordedAt e) else e in
  (if changed then quiet (λ n _, UpdateTaskEnvironment n id env') else mret tt) ;;
  let next old := if bool_decide (out_SessionID out = EmptyString) then old else out_SessionID out in
  let ts' := if IsTestRun task
             then MkTurnState (ts_prompt ts) (ts_sessionID ts) (next (ts_testSessionID ts)) (ts_turns ts) env'
             else MkTurnState (ts_prompt ts) (next (ts_sessionID ts)) (ts_testSessionID ts) (ts_turns ts) env' in
  (if IsTestRun task then quiet (λ n _, UpdateTaskTurns n id (ts_turns ts))
   else quiet (λ n _, UpdateTaskResult n id (out_Result out) (ts_sessionID ts') (out_StopReason out) (ts_turns ts))) ;;
  let subAgent := if IsTestRun task then "test" else "implementation" in
  quiet (λ n _, AccumulateSubAgentUsage n id subAgent (out_usage out)) ;;
  emit (AppendTurnUsage (ID task) (ts_turns ts) (out_usage out) (out_StopReason out) (out_ActualSandbox out) subAgent) ;;
  mret ts'.

(** [currentTask.MaxCostUSD > 0 && u.CostUSD >= currentTask.MaxCostUSD], and
    the same for the input tokens. *)
Definition over_cost (t : Task) : bool :=
  f64_ltb f64_zero (MaxCostUSD t) && SFleb (MaxCostUSD t) (CostUSD (Usage t)).
Definition input_total (t : Task) : Z :=
  wrap64 (wrap64 (InputTokens (Usage t) + CacheReadInputTokens (Usage t)) + CacheCreationTokens (Usage t)).
Definition over_tokens (t : Task) : bool :=
  Z.ltb 0 (MaxInputTokens t) && Z.leb (MaxInputTokens t) (input_total t).

Definition budget_reason (t : Task) : string :=
  if over_cost t then
    "cost budget exceeded: $" +:+ fmt_f4 (CostUSD (Usage t)) +:+ " of $" +:+ fmt_f4 (MaxCostUSD t)
  else "token budget exceeded: " +:+ pretty_Z (input_total t) +:+ " of " +:+ pretty_Z (MaxInputTokens t) +:+ " input tokens".

(** The budget guardrail; true when the run is over. *)
Definition budget_guard : W bool :=
  cur ← get_task id;
  match cur with
  | Err _ => mret false
  | Ok t =>
    if over_cost t || over_tokens t then
      quiet (status_to id TaskStatusWaiting) ;;
      quiet (λ n _, SetTaskFailureCategory n id FailureCategoryBudget) ;;
      change id TaskStatusInProgress TaskStatusWaiting ;;
      event id EventTypeSystem (json_map (list_to_map [("message", JStr (budget_reason t)); ("budget_exceeded", JBool true)])) ;;
      emit (GenerateOversightBackground id) ;;
      event id EventTypeSpanStart (span "feedback_waiting" "feedback_waiting") ;;
      mret true
    else mret false
  end.

(** The agent reported an error. *)
Definition agent_error (ts : TurnState) (t : Turn) (out : agentOutput) : W (option TurnState) :=
  let combinedErr := out_Result out +:+ " " +:+ of_bytes (rawStdout t) in
  if negb (bool_decide (ts_sessionID ts = EmptyString)) && Contains combinedErr "No conversation found" then
    event id EventTypeSystem (payload [("result", "Session expired or lost. Retrying with fresh session...")]) ;;
    mret (Some (MkTurnState original_prompt EmptyString (ts_testSessionID ts) (ts_turns ts) (ts_env ts)))
  else
    let category := classifyFailure None true (out_Result out) in
    quiet (λ n _, SetTaskFailureCategory n id category) ;;
    fail_or_retry id category (
      quiet (status_to id TaskStatusFailed) ;;
      change id TaskStatusInProgress TaskStatusFailed) ;;
    mret None.

(** [switch output.StopReason]. *)
Definition route (ts : TurnState) (out : agentOutput) : W (option TurnState) :=
  if bool_decide (out_StopReason out = "end_turn") then
    (if IsTestRun task then finalizeTestRun id task (out_Result out)
     else
       emit (GenerateOversightBackground id) ;;
       quiet (status_to id TaskStatusWaiting) ;;
       change id TaskStatusInProgress TaskStatusWaiting ;;
       event id EventTypeSystem (payload [("result", "Task complete " +:+ of_bytes [226; 128; 148] +:+ " awaiting review.")]) ;;
       event id EventTypeSpanStart (span "feedback_waiting" "feedback_waiting")) ;;
    mret None
  else if bool_decide (out_StopReason out = "max_tokens" ∨ out_StopReason out = "pause_turn") then
    (if bool_decide (out_StopReason out = "max_tokens") then emit (NotifyStopReason id (out_StopReason out)) else mret tt) ;;
    let sessionID := if IsTestRun task && negb (bool_decide (ts_testSessionID ts = EmptyString))
                     then ts_testSessionID ts else ts_sessionID ts in
    mret (Some (MkTurnState EmptyString sessionID (ts_testSessionID ts) (ts_turns ts) (ts_env ts)))
  else
    cancelled ← is_cancelled id;
    if (cancelled : bool) then mret None
    else
      (if IsTestRun task then finalizeTestRun id task (out_Result out)
       else
         emit (GenerateOversight id) ;;
         match oversight env with
         | Panics => mret tt
         | Returns _ =>
           quiet (status_to id TaskStatusWaiting) ;;
           change id TaskStatusInProgress TaskStatusWaiting ;;
           event id EventTypeSpanStart (span "feedback_waiting" "feedback_waiting")
         end) ;;
      mret None.

(** What follows the call of the container. *)
Definition end_turn (ts : TurnState) (t : Turn) : W (option TurnState) :=
  save_output (ts_turns ts) t ;;
  match answer t with
  | inl err => container_error ts t err
  | inr out =>
    ts ← record_answer ts out;
    over ← budget_guard;
    if (over : bool) then mret None
    else if out_IsError out then agent_error ts t out
    else route ts out
  end.

(** How the body of [Run] ends: it returns, it panics with [statusSet] false, or it
    is waiting for the container.  A panic that finds [statusSet] true is
    [Returned true]: the guard recovers it and does no more than after a return,
    so what is left of the body is skipped and nothing else happens. *)
Inductive run_end := Returned (statusSet : bool) | Panicked | Running.

Fixpoint turn_loop (ts : TurnState) (turns : list TurnOutcome) : W run_end :=
  match turns with
  | [] => mret Running
  | o :: rest =>
    ts ← begin_turn ts;
    match o with
    | Panic => mret Panicked
    | Answers t =>
      next ← end_turn ts t;
      match next with
      | None => mret (Returned true)
      | Some ts => turn_loop ts rest
      end
    end
  end.
End turns.

(** ** In-process runs *)

Fixpoint forward_trace (id : uuid) (evs : list TraceEvent) : W unit :=
  match evs with
  | [] => mret tt
  | ev :: rest =>
    (match agenticTraceEvent ev with
     | Some (etype, data) => event id etype data
     | None => mret tt
     end) ;;
    forward_trace id rest
  end.

(** [in_progress → waiting → committing], each with its event. *)
Definition walk_to_committing (id : uuid) : W unit :=
  quiet (status_to id TaskStatusWaiting) ;;
  change id TaskStatusInProgress TaskStatusWaiting ;;
  quiet (status_to id TaskStatusCommitting) ;;
  change id TaskStatusWaiting TaskStatusCommitting.

Definition walk_to_done (id : uuid) : W unit :=
  quiet (status_to id TaskStatusDone) ;;
  change id TaskStatusCommitting TaskStatusDone.

(** The failure path shared by the flow engine and in-process runs. *)
Definition flow_failed (id : uuid) (err : goErr) : W unit :=
  cancelled ← is_cancelled id;
  if (cancelled : bool) then mret tt
  else
    let category := classifyFailure (Some err) false EmptyString in
    quiet (λ n _, SetTaskFailureCategory n id category) ;;
    fail_or_retry id category (
      quiet (status_to id TaskStatusFailed) ;;
      quiet (λ n _, UpdateTaskResult n id (Error err) EmptyString EmptyString 0) ;;
      event id EventTypeError (payload [("error", Error err)]) ;;
      change id TaskStatusInProgress TaskStatusFailed).

(** The commit pipeline of an in-process run that has a worktree; true when the
    run ends there. *)
Definition topos_commit (id : uuid) : W bool :=
  cur ← get_task id;
  match cur with
  | Ok t =>
    if bool_decide (WorktreePaths t = ∅) then mret false
    else
      emit (CommitPipeline id EmptyString) ;;
      match Commit_result env with
      | Panics => mret true
      | Returns None => mret false
      | Returns (Some err) =>
        quiet (λ n _, SetTaskFailureCategory n id (classifyFailure (Some err) false EmptyString)) ;;
        quiet (status_to id TaskStatusFailed) ;;
        event id EventTypeError (payload [("error", Error err)]) ;;
        change id TaskStatusCommitting TaskStatusFailed ;;
        mret true
      end
  | Err _ => mret false
  end.

Definition driveToposRun (id : uuid) : W unit :=
  forward_trace id (topos_trace env) ;;
  match topos_result env with
  | Panics => mret tt
  | Returns (inl err) => flow_failed id err
  | Returns (inr (final, lineage)) =>
    quiet (λ n _, UpdateTaskResult n id final EmptyString "end_turn" 0) ;;
    (match lineage with
     | Some data => quiet (λ n _, UpdateTaskLineage n id data)
     | None => mret tt
     end) ;;
    event id EventTypeOutput (payload [("result", final)]) ;;
    walk_to_committing id ;;
    failed ← topos_commit id;
    if (failed : bool) then mret tt else walk_to_done id
  end.

(** ** Run *)

(** The flow engine's branch. *)
Definition run_flow (id : uuid) (known : bool) (slug : string) (outcome : called (option goErr)) : W unit :=
  if negb known then
    let msg := "unknown flow " +:+ Quote high slug in
    let err := MkErr msg false false in
    quiet (status_to id TaskStatusFailed) ;;
    quiet (λ n _, SetTaskFailureCategory n id (classifyFailure (Some err) false EmptyString)) ;;
    quiet (λ n _, UpdateTaskResult n id msg EmptyString EmptyString 0) ;;
    event id EventTypeError (payload [("error", msg)]) ;;
    change id TaskStatusInProgress TaskStatusFailed
  else match outcome with
       | Panics => mret tt
       | Returns (Some err) => flow_failed id err
       | Returns None => walk_to_committing id ;; walk_to_done id
       end.

Definition need_setup (task : Task) : bool :=
  bool_decide (WorktreePaths task = ∅) || negb (forallb (worktree_valid env) (map_to_list (WorktreePaths task)).*2).

(** The worktree phase: [None] when the run can go on, or how it ends. *)
Definition prepare_worktrees (id : uuid) (task : Task) (sessionID : string) : W (option run_end) :=
  if negb (need_setup task) then mret None
  else
    event id EventTypeSpanStart (span "worktree_setup" "worktree_setup") ;;
    match (if bool_decide (WorktreePaths task = ∅) then setupWorktrees env else ensureTaskWorktrees env) with
    | Panics => mret (Some Panicked)
    | Returns r =>
      event id EventTypeSpanEnd (span "worktree_setup" "worktree_setup") ;;
      match r with
      | inl err =>
        quiet (status_to id TaskStatusFailed) ;;
        quiet (λ n _, SetTaskFailureCategory n id FailureCategoryWorktree) ;;
        quiet (λ n _, UpdateTaskResult n id (Error err) sessionID EmptyString (Turns task)) ;;
        event id EventTypeError (payload [("error", Error err)]) ;;
        change id TaskStatusInProgress TaskStatusFailed ;;
        mret (Some (Returned true))
      | inr (paths, branch) =>
        quiet (λ n _, UpdateTaskWorktrees n id paths branch) ;;
        mret None
      end
    end.

Definition flow_slug (task : Task) : string :=
  match flows env with Some (resolve, _) => resolve task | None => "implement" end.
Definition flow_get (slug : string) : option bool :=
  match flows env with Some (_, get) => get slug | None => None end.

(** The body of [Run] between the guard's installation and its return. *)
Definition run_body (id : uuid) (prompt sessionID : string) (turns : list TurnOutcome) : W run_end :=
  r ← get_task id;
  match r with
  | Err _ => mret (Returned false)
  | Ok task =>
    let execEnv := captureExecutionEnvironment env task in
    quiet (λ n _, UpdateTaskEnvironment n id execEnv) ;;
    let prompt := if bool_decide (ExecutionPrompt task = EmptyString) then prompt else ExecutionPrompt task in
    let slug := flow_slug task in
    if bool_decide (flow_get slug = Some true) then
      driveToposRun id ;; mret (Returned true)
    else
      match (if bool_decide (slug = "implement") then None else flowEngine env) with
      | Some outcome =>
        run_flow id (bool_decide (flow_get slug ≠ None)) slug outcome ;; mret (Returned true)
      | None =>
        let nativeTopos := negb (IsTestRun task) && inProcess env task in
        over ← prepare_worktrees id task sessionID;
        match over with
        | Some e => mret e
        | None =>
        if nativeTopos then driveToposRun id ;; mret (Returned true)
        else
          event id EventTypeSpanStart (span "board_context" "board_context") ;;
          event id EventTypeSpanEnd (span "board_context" "board_context") ;;
          turn_loop id task (MkTurnState prompt sessionID EmptyString (Turns task) execEnv) turns
        end
      end
  end.

(** [None]: the run is still waiting for the container after the given turns. *)
Definition Run (id : uuid) (prompt sessionID : string) (resumedFromWaiting : bool) (turns : list TurnOutcome)
  : W (option unit) :=
  (if resumedFromWaiting then event id EventTypeSpanEnd (span "feedback_waiting" "feedback_waiting") else mret tt) ;;
  e ← run_body id prompt sessionID turns;
  match e with
  | Running => mret None
  | Returned statusSet => run_guard id statusSet ;; mret (Some tt)
  | Panicked => run_guard id false ;; mret (Some tt)
  end.
End runner.
