(* ===== verification/RunnerSpec.v ===== *)
(** * What a run of the turn loop guarantees

    [Run_settles]: a run that ends leaves its task out of [in_progress],
    whatever the agent, the backend and the other goroutines do.
    [Run_returns]: it ends as soon as one turn is decisive. *)

From S2P Require Import Prelude StateMachine GoStrings GoText PkgUtil TaskModel Backend Store StoreUpdate StoreWf StoreSpec StoreQuery Verdict World WorldRules Runner.
From Stdlib Require Import String.
From stdpp Require Import list gmap.
Local Open Scope Z_scope.
Local Open Scope string_scope.

Section settles.
Context `{UUIDLib} {B : Type} `{!StorageBackend B}.
Variables (sch : Schedule B) (up : Z → Z) (compile : string → option (string → bool))
          (decode : string → option (string * string)) (high : Z → bool) (env : Collab) (id : uuid).
Hypothesis others_idle : undisturbed sch id.

(** No collaborator panics in a call that [Run] makes after it has set
    [statusSet] and before it has changed the status. *)
Definition calm : Prop :=
  flowEngine env ≠ Some Panics ∧ topos_result env ≠ Panics ∧ oversight env ≠ Panics.
Hypothesis no_late_panic : calm.

Lemma tryAutoRetry_idle c : preserves (idle id) (tryAutoRetry sch id c).
Proof. unfold tryAutoRetry. away_tac. Qed.

(** A retry puts the task in the backlog. *)
Lemma tryAutoRetry_made c : triple (λ _, True) (tryAutoRetry sch id c) (λ b w, b = true → idle id (w_store w)).
Proof.
  unfold tryAutoRetry. apply triple_skip. intros [t|e]; [|by apply triple_ret].
  destruct (negb _); [by apply triple_ret|]. apply triple_skip. intros [[]|e]; [|by apply triple_ret].
  apply (establishes_triple (idle id)); [|by intros].
  apply (establishes_bind_r (idle id)). intros u. apply (establishes_bind_r (idle id)). intros _.
  apply (establishes_bind_l (idle id)); [apply made_idle; set_solver|]. away_tac.
Qed.

Lemma fail_or_retry_idle c rest : preserves (idle id) rest → preserves (idle id) (fail_or_retry sch id c rest).
Proof. intros. unfold fail_or_retry. apply preserves_bind; [apply tryAutoRetry_idle|]. intros []; [away_tac|done]. Qed.

Lemma fail_or_retry_made c rest : establishes (idle id) rest → establishes (idle id) (fail_or_retry sch id c rest).
Proof.
  intros Hr. eapply triple_bind; [apply tryAutoRetry_made|]. intros []; simpl.
  - apply triple_ret. auto.
  - by apply (establishes_triple (idle id)).
Qed.

Lemma fail_made : establishes (idle id)
  (quiet sch (status_to id TaskStatusFailed) ;; state_change sch no_actor id TaskStatusInProgress TaskStatusFailed TriggerSystem).
Proof. apply establishes_bind_l; [apply made_idle; set_solver|]. away_tac. Qed.

(** A task that is seen cancelled is idle. *)
Lemma is_cancelled_made : triple (λ _, True) (is_cancelled sch id) (λ b w, b = true → idle id (w_store w)).
Proof.
  intros w _. unfold is_cancelled, get_task, read, mbind, W_bind, GetTask. simpl.
  destruct (tasks _ !! id) as [t|] eqn:Ht; simpl; [|done]. intros Hc%bool_decide_eq_true u. rewrite Ht.
  intros [= <-]. by rewrite Hc.
Qed.

Lemma wait_made {A} (k : W (B:=B) A) : preserves (idle id) k → establishes (idle id) (quiet sch (status_to id TaskStatusWaiting) ;; k).
Proof. intros. apply establishes_bind_l; [apply made_idle; set_solver|]. by intros _. Qed.

Lemma finalizeTestRun_made task result : establishes (idle id) (finalizeTestRun sch up compile env id task result).
Proof.
  destruct no_late_panic as (_ & _ & Ho). unfold finalizeTestRun. do 3 (apply establishes_bind_r; intros _).
  destruct (oversight env); [done|]. apply establishes_bind_r. intros _. apply wait_made. away_tac.
Qed.

(** A part of the turn that is over leaves the task idle. *)
Definition over_idle {A} (r : option A) (w : World B) : Prop := r = None → idle id (w_store w).

Lemma stop_made {A} (m : W (B:=B) unit) : establishes (idle id) m → triple (λ _, True) (m ;; mret None) (over_idle (A:=A)).
Proof. intros Hm. eapply triple_bind; [exact Hm|]. intros ?. apply triple_ret. intros w Hw _. exact Hw. Qed.

Lemma go_on {A} (m : W (B:=B) unit) (a : A) : triple (λ _, True) (m ;; mret (Some a)) over_idle.
Proof. apply triple_skip. intros _. by apply triple_ret. Qed.

Lemma container_error_made task ts t err : triple (λ _, True) (container_error sch decode id task ts t err) over_idle.
Proof.
  unfold container_error. destruct (_ && Contains _ _); [apply go_on|].
  eapply triple_bind; [apply is_cancelled_made|]. intros []; [apply triple_ret; by intros w Hw _; apply Hw|].
  do 3 (apply triple_skip; intros _). apply triple_any, stop_made, fail_or_retry_made, fail_made.
Qed.

Lemma budget_guard_made : triple (λ _, True) (budget_guard sch id) (λ b w, b = true → idle id (w_store w)).
Proof.
  unfold budget_guard. apply triple_skip. intros [t|e]; [|by apply triple_ret].
  destruct (_ || _); [|by apply triple_ret]. apply (establishes_triple (idle id)); [|by intros].
  apply wait_made. away_tac.
Qed.

Lemma agent_error_made task ts t out : triple (λ _, True) (agent_error sch id task ts t out) over_idle.
Proof.
  unfold agent_error. destruct (_ && _); [apply go_on|]. apply triple_skip. intros _.
  apply stop_made, fail_or_retry_made, fail_made.
Qed.

Lemma route_made task ts out : triple (λ _, True) (route sch up compile env id task ts out) over_idle.
Proof.
  unfold route. destruct (bool_decide _).
  { apply stop_made. destruct (IsTestRun task); [apply finalizeTestRun_made|].
    apply establishes_bind_r. intros _. apply wait_made. away_tac. }
  destruct (bool_decide _); [apply go_on|].
  eapply triple_bind; [apply is_cancelled_made|]. intros []; [apply triple_ret; by intros w Hw _; apply Hw|].
  apply triple_any, stop_made.
  destruct (IsTestRun task); [apply finalizeTestRun_made|].
  apply establishes_bind_r. intros _. destruct no_late_panic as (_ & _ & Ho). destruct (oversight env); [done|].
  apply wait_made. away_tac.
Qed.

Lemma end_turn_made task ts t : triple (λ _, True) (end_turn sch up compile decode env id task ts t) over_idle.
Proof.
  unfold end_turn. apply triple_skip. intros _. destruct (answer t) as [err|out]; [apply container_error_made|].
  apply triple_skip. intros ts'. eapply triple_bind; [apply budget_guard_made|].
  intros []; [apply triple_ret; by intros w Hw _; apply Hw|].
  destruct (out_IsError out); apply triple_any; [apply agent_error_made|apply route_made].
Qed.

(** The body of the run sets the status before it returns. *)
Definition end_idle (e : run_end) (w : World B) : Prop := e = Returned true → idle id (w_store w).

Lemma turn_loop_made task ts turns : triple (λ _, True) (turn_loop sch up compile decode env id task ts turns) end_idle.
Proof.
  revert ts. induction turns as [|o turns IH]; intros ts; simpl; [by apply triple_ret|].
  apply triple_skip. intros ts'. destruct o as [|t]; [by apply triple_ret|].
  eapply triple_bind; [apply end_turn_made|]. intros [ts2|]; [apply triple_any, IH|].
  apply triple_ret. intros w Hw _. by apply Hw.
Qed.

Lemma flow_failed_made err : establishes (idle id) (flow_failed sch id err).
Proof.
  unfold flow_failed. eapply triple_bind; [apply is_cancelled_made|].
  intros []; [apply triple_ret; intros w Hw; by apply Hw|]. apply (establishes_triple (idle id)); [|done].
  apply establishes_bind_r. intros _. apply fail_or_retry_made.
  apply establishes_bind_l; [apply made_idle; set_solver|]. away_tac.
Qed.

Lemma walk_to_committing_made : establishes (idle id) (walk_to_committing sch id).
Proof. apply wait_made. away_tac. Qed.

Lemma topos_commit_idle : preserves (idle id) (topos_commit sch env id).
Proof. unfold topos_commit. away_tac. Qed.

Lemma driveToposRun_made : establishes (idle id) (driveToposRun sch env id).
Proof.
  destruct no_late_panic as (_ & Ht & _).
  unfold driveToposRun. apply establishes_bind_r. intros _. destruct (topos_result env) as [|[err|[final lineage]]]; [done|..].
  - apply flow_failed_made.
  - do 3 (apply establishes_bind_r; intros _). apply establishes_bind_l; [apply walk_to_committing_made|]. intros _.
    apply preserves_bind; [apply topos_commit_idle|]. intros []; unfold walk_to_done; away_tac.
Qed.

Lemma run_flow_made known slug outcome : outcome ≠ Panics → establishes (idle id) (run_flow sch high id known slug outcome).
Proof.
  intros Ho. unfold run_flow. destruct (negb known).
  { apply establishes_bind_l; [apply made_idle; set_solver|]. away_tac. }
  destruct outcome as [|[err|]]; [done|apply flow_failed_made|].
  apply establishes_bind_l; [apply walk_to_committing_made|]. unfold walk_to_done. away_tac.
Qed.

Lemma prepare_made task sid : triple (λ _, True) (prepare_worktrees sch env id task sid)
  (λ over w, over = Some (Returned true) → idle id (w_store w)).
Proof.
  unfold prepare_worktrees. destruct (negb _); [by apply triple_ret|]. apply triple_skip. intros _.
  destruct (if bool_decide _ then _ else _) as [|r]; [by apply triple_ret|]. apply triple_skip. intros _.
  destruct r as [err|[paths branch]].
  - apply (establishes_triple (idle id)); [|done]. apply establishes_bind_l; [apply made_idle; set_solver|]. away_tac.
  - apply triple_skip. intros _. by apply triple_ret.
Qed.

Lemma returned_made (m : W (B:=B) unit) : establishes (idle id) m → triple (λ _, True) (m ;; mret (Returned true)) end_idle.
Proof. intros Hm. eapply triple_bind; [exact Hm|]. intros ?. apply triple_ret. intros w Hw _. exact Hw. Qed.

Lemma run_body_made prompt sid turns :
  triple (λ _, True) (run_body sch up compile decode high env id prompt sid turns) end_idle.
Proof.
  unfold run_body. apply triple_skip. intros [task|e]; [|by apply triple_ret]. apply triple_skip. intros _.
  destruct (bool_decide (flow_get _ _ = _)); [apply returned_made, driveToposRun_made|].
  assert (∀ b : bool, (if b then None else flowEngine env) ≠ Some Panics) as Hf.
  { intros []; [done|]. apply no_late_panic. }
  specialize (Hf (bool_decide (flow_slug env task = "implement"))).
  destruct (if bool_decide _ then _ else _) as [outcome|]; [apply returned_made, run_flow_made; congruence|].
  eapply triple_bind; [apply prepare_made|]. intros [e|]; simpl.
  - apply triple_ret. intros w Hw ->. by apply Hw.
  - destruct (_ && _); apply triple_any; [apply returned_made, driveToposRun_made|].
    do 2 (apply triple_skip; intros _). apply turn_loop_made.
Qed.

Lemma run_guard_made : establishes (idle id) (run_guard sch id false).
Proof. apply establishes_bind_r. intros _. apply fail_or_retry_made, fail_made. Qed.

Lemma run_settles prompt sid resumed turns w :
  (Run sch up compile decode high env id prompt sid resumed turns w).1 = Some tt →
  idle id (w_store (Run sch up compile decode high env id prompt sid resumed turns w).2).
Proof.
  assert (triple (λ _, True) (Run sch up compile decode high env id prompt sid resumed turns)
    (λ r w, r = Some tt → idle id (w_store w))) as Hrun; [|by apply Hrun].
  unfold Run. apply triple_skip. intros _. eapply triple_bind; [apply run_body_made|].
  intros [[]| |]; unfold end_idle; simpl.
  - eapply triple_bind; [|intros ?; apply triple_ret; intros ? Hw _; exact Hw].
    apply triple_ret. auto.
  - apply (establishes_triple (idle id)); [|by intros]. eapply establishes_bind_l; [apply run_guard_made|]. away_tac.
  - apply (establishes_triple (idle id)); [|by intros]. eapply establishes_bind_l; [apply run_guard_made|]. away_tac.
  - by apply triple_ret.
Qed.

(** C4: A run does not leave its task stuck: when [Run] ends, for whatever answers
    of the agent, the flow engine, git and the backend (failing saves and panics of
    the agent's container or of the worktree setup included), the task is not in
    progress any more.  Other goroutines may do anything between its steps except
    put the task in progress, and the calls that [Run] makes after it has set
    [statusSet] - the flow engine, the in-process agents, the oversight - do not
    panic ([calm]; RunnerRun has the run that gets stuck when one does). *)
Theorem Run_settles prompt sid resumed turns w :
  (Run sch up compile decode high env id prompt sid resumed turns w).1 = Some tt →
  idle id (w_store (Run sch up compile decode high env id prompt sid resumed turns w).2).
Proof. apply run_settles. Qed.
End settles.

(** ** The loop ends *)

Section returns.
Context `{UUIDLib} {B : Type} `{!StorageBackend B}.
Variables (sch : Schedule B) (up : Z → Z) (compile : string → option (string → bool))
          (decode : string → option (string * string)) (high : Z → bool) (env : Collab) (id : uuid).

(** A turn after which the loop does not go on: a panic, an error of the
    container that is not an empty output, or an answer that is neither an
    error nor a request to continue. *)
Definition decisive (o : TurnOutcome) : Prop :=
  match o with
  | Panic => True
  | Answers t =>
    match answer t with
    | inl err => Contains (Error err) "empty output from container" = false
    | inr out => out_IsError out = false ∧ out_StopReason out ∉ ["max_tokens"; "pause_turn"]
    end
  end.

(** [m] answers [None]. *)
Definition stops {A} (m : W (B:=B) (option A)) : Prop := triple (λ _, True) m (λ r _, r = None).

Lemma stops_bind {A C} (m : W (B:=B) C) (k : C → W (option A)) : (∀ a, stops (k a)) → stops (m ≫= k).
Proof. apply triple_skip. Qed.

Lemma stops_ret {A} : stops (A:=A) (mret None).
Proof. by apply triple_ret. Qed.

Lemma end_turn_stops task ts t : decisive (Answers t) → stops (end_turn sch up compile decode env id task ts t).
Proof.
  simpl. intros Hd. unfold end_turn. apply stops_bind. intros _. destruct (answer t) as [err|out].
  - unfold container_error. rewrite Hd, andb_false_r. apply stops_bind. intros []; [apply stops_ret|].
    repeat (apply stops_bind; intros _). apply stops_ret.
  - destruct Hd as [He Hs]. apply stops_bind. intros ts'. apply stops_bind. intros []; [apply stops_ret|].
    rewrite He. unfold route. case_bool_decide; [apply stops_bind; intros _; apply stops_ret|].
    rewrite bool_decide_false by set_solver. apply stops_bind. intros []; [apply stops_ret|].
    apply stops_bind. intros _. apply stops_ret.
Qed.

Lemma turn_loop_ends task ts turns : Exists decisive turns →
  triple (λ _, True) (turn_loop sch up compile decode env id task ts turns) (λ e _, e ≠ Running).
Proof.
  intros Hex. revert ts. induction Hex as [o turns Ho|o turns Hex IH]; intros ts; simpl.
  - apply triple_skip. intros ts'. destruct o as [|t]; [by apply triple_ret|].
    eapply triple_bind; [by apply end_turn_stops|]. intros [ts2|]; [intros w; simpl; done|by apply triple_ret].
  - apply triple_skip. intros ts'. destruct o as [|t]; [by apply triple_ret|].
    apply triple_skip. intros [ts2|]; [apply IH|by apply triple_ret].
Qed.

Lemma prepare_ends task sid : triple (λ _, True) (prepare_worktrees sch env id task sid) (λ over _, over ≠ Some Running).
Proof.
  unfold prepare_worktrees. destruct (negb _); [by apply triple_ret|]. apply triple_skip. intros _.
  destruct (if bool_decide _ then _ else _) as [|[err|[paths branch]]]; [by apply triple_ret|..];
    repeat (apply triple_skip; intros _); by apply triple_ret.
Qed.

Lemma run_body_ends prompt sid turns : Exists decisive turns →
  triple (λ _, True) (run_body sch up compile decode high env id prompt sid turns) (λ e _, e ≠ Running).
Proof.
  intros Hex. unfold run_body. apply triple_skip. intros [task|e]; [|by apply triple_ret]. apply triple_skip. intros _.
  destruct (bool_decide (flow_get _ _ = _)); [apply triple_skip; intros _; by apply triple_ret|].
  destruct (if bool_decide _ then _ else _) as [outcome|]; [apply triple_skip; intros _; by apply triple_ret|].
  eapply triple_bind; [apply prepare_ends|]. intros [e|]; simpl; [apply triple_ret; intros w He; congruence|].
  apply triple_any. destruct (_ && _); [apply triple_skip; intros _; by apply triple_ret|].
  do 2 (apply triple_skip; intros _). by apply turn_loop_ends.
Qed.

(** C23: The turn loop ends with the first decisive turn at the latest: if one of
    the turns panics, fails with something else than an empty output, or gives
    an answer that neither is an error nor asks to continue, [Run] returns. *)
Theorem Run_returns prompt sid resumed turns w : Exists decisive turns →
  (Run sch up compile decode high env id prompt sid resumed turns w).1 = Some tt.
Proof.
  intros Hex. assert (triple (λ _, True) (Run sch up compile decode high env id prompt sid resumed turns)
    (λ r _, r = Some tt)) as Hrun; [|by apply Hrun].
  unfold Run. apply triple_skip. intros _. eapply triple_bind; [by apply run_body_ends|].
  intros [b| |]; [..|by intros ? []]; apply triple_skip; intros _; by apply triple_ret.
Qed.

(** The prompt of the caller does not matter for a task with an execution
    prompt: feedback given to such a task does not reach the agent. *)
Lemma execution_prompt_wins task p1 p2 sid turns w :
  GetTask id (w_store (arrive sch w)) = Ok task → ExecutionPrompt task ≠ EmptyString →
  run_body sch up compile decode high env id p1 sid turns w = run_body sch up compile decode high env id p2 sid turns w.
Proof.
  intros Hg He. unfold run_body. rewrite !(bind_run (get_task sch id)).
  assert ((get_task sch id w).1 = Ok task) as -> by exact Hg. by rewrite (bool_decide_false (ExecutionPrompt task = _)) by done.
Qed.
End returns.

(** ** One answer of the agent, with no other goroutine running *)

Section outcome.
Context `{UUIDLib} {B : Type} `{!StorageBackend B}.
Variables (sch : Schedule B) (up : Z → Z) (compile : string → option (string → bool))
          (decode : string → option (string * string)) (env : Collab) (id : uuid) (task : Task).
Hypothesis alone : solo sch.
Hypothesis no_test : IsTestRun task = false.

(** The fields that decide about the budget and the status. *)
Definition same (t0 t : Task) : Prop :=
  Status t = Status t0 ∧ Usage t = Usage t0 ∧ MaxCostUSD t = MaxCostUSD t0 ∧ MaxInputTokens t = MaxInputTokens t0.

(** The task [t0] after the answer [out] of turn [n]: its result, session, turn
    and usage, under the status [st]. *)
Definition recorded (t0 : Task) (n : Z) (sid : string) (out : agentOutput) (st : TaskStatus) (t : Task) : Prop :=
  Status t = st ∧ Result t = Some (out_Result out) ∧ SessionID t = Some sid ∧ StopReason t = Some (out_StopReason out) ∧
  Turns t = n ∧ Usage t = usage_Add (Usage t0) (out_usage out) ∧
  MaxCostUSD t = MaxCostUSD t0 ∧ MaxInputTokens t = MaxInputTokens t0.

(** The session after the answer: the one it names, or the one before. *)
Definition next_session (ts : TurnState) (out : agentOutput) : string :=
  if bool_decide (out_SessionID out = EmptyString) then ts_sessionID ts else out_SessionID out.

Definition over_budget (t : Task) : bool := over_cost t || over_tokens t.

(** The task with the usage of the answer added. *)
Definition charged (t0 : Task) (out : agentOutput) : Task := t0 <| Usage := usage_Add (Usage t0) (out_usage out) |>.

Lemma over_budget_recorded t0 n sid out st t : recorded t0 n sid out st t → over_budget t = over_budget (charged t0 out).
Proof.
  intros (_ & _ & _ & _ & _ & E1 & E2 & E3). unfold over_budget, over_cost, over_tokens, input_total, charged. simpl.
  by rewrite E1, E2, E3.
Qed.

Ltac at_step :=
  lazymatch goal with
  | |- triple _ (_ ≫= _) _ => eapply triple_bind; [|intros ?; cbv beta]
  | |- triple _ (event _ _ _ _) _ => apply at_event; exact alone
  | |- triple _ (state_change _ _ _ _ _ _) _ => apply at_event; exact alone
  | |- triple _ (emit _) _ => first [apply at_emit_quiet; reflexivity | apply at_emit]
  | |- triple _ (if ?b then _ else _) _ => destruct b
  end.

Lemma begin_turn_at ts φ es : triple (task_at is_container id φ es) (begin_turn sch env id task ts)
  (λ ts' w, ts' = MkTurnState (ts_prompt ts) (ts_sessionID ts) (ts_testSessionID ts) (wrap64 (ts_turns ts + 1)) (ts_env ts) ∧
    task_at is_container id φ (es ++ [RunContainer id (ts_prompt ts) (ts_sessionID ts) false]) w).
Proof.
  unfold begin_turn. apply (triple_bind _ _ _ (λ _, task_at is_container id φ es)).
  { destruct (boardDir env); [repeat at_step|by apply triple_ret]. }
  intros _. repeat at_step. apply triple_ret. intros w Hw. split; [done|]. by rewrite no_test in Hw.
Qed.

Lemma save_output_at t0 turns t es :
  triple (task_at is_container id (same t0) es) (save_output sch id task turns t) (λ _, task_at is_container id (same t0) es).
Proof.
  unfold save_output. at_step; [at_step|]. eapply triple_bind.
  - eapply (at_touches _ _ _ alone); [intros; apply touches_SaveTurnOutput|]. by intros n1 n2 x x' -> Hx.
  - intros ?. case_bool_decide; [by apply triple_ret|at_step].
Qed.

Lemma record_answer_at t0 ts out es :
  triple (task_at is_container id (same t0) es) (record_answer sch id task ts out)
    (λ ts' w, (ts_sessionID ts' = next_session ts out ∧ ts_testSessionID ts' = ts_testSessionID ts ∧ ts_turns ts' = ts_turns ts) ∧
      task_at is_container id (recorded t0 (ts_turns ts) (next_session ts out) out (Status t0)) es w).
Proof.
  unfold record_answer. rewrite no_test. at_step; [at_step|].
  apply (triple_bind _ _ _ (λ _, task_at is_container id (same t0) es)).
  { destruct (_ && _); [|by apply triple_ret]. apply (at_mutate _ _ _ alone). by intros. }
  intros _. cbn [ts_sessionID]. fold (next_session ts out). eapply triple_bind.
  { apply (at_mutate _ _ _ alone _ (λ t, recorded (t0 <| Usage := Usage t |>) (ts_turns ts) (next_session ts out) out (Status t0)
      (t <| Usage := usage_Add (Usage t) (out_usage out) |>) ∧ Usage t = Usage t0)).
    intros n1 n2 t (E1 & E2 & E3 & E4). unfold recorded. simpl. by rewrite E1, E2, E3, E4. }
  intros ?. apply (triple_bind _ _ _ (λ _, task_at is_container id
    (recorded t0 (ts_turns ts) (next_session ts out) out (Status t0)) es));
    [|intros ?; at_step; [at_step|by apply triple_ret]].
  apply (at_mutate _ _ _ alone). intros n1 n2 t [(E1 & E2 & E3 & E4 & E5 & E6 & E7 & E8) E9]. unfold recorded in *. simpl in *.
  rewrite E9 in *. done.
Qed.

(** What one answer leads to: the status the task ends with and whether the
    loop goes on, with which prompt and session. *)
Definition answered (t0 : Task) (ts : TurnState) (out : agentOutput) (es : list Effect)
    (r : option TurnState) (w : World B) : Prop :=
  let at_status st φ := task_at is_container id (λ t, recorded t0 (ts_turns ts) (next_session ts out) out st t ∧ φ t) es w in
  if over_budget (charged t0 out) then
    r = None ∧ at_status TaskStatusWaiting (λ t, TaskFailureCategory t = FailureCategoryBudget)
  else if bool_decide (out_StopReason out = "end_turn") then
    r = None ∧ at_status TaskStatusWaiting (λ _, True)
  else
    at_status TaskStatusInProgress (λ _, True) ∧
    ∃ e, r = Some (MkTurnState EmptyString (next_session ts out) (ts_testSessionID ts) (ts_turns ts) e).

Lemma budget_guard_at t0 n sid out es : Status t0 = TaskStatusInProgress →
  triple (task_at is_container id (recorded t0 n sid out (Status t0)) es) (budget_guard sch id)
    (λ b w, b = over_budget (charged t0 out) ∧
      task_at is_container id (λ t, if over_budget (charged t0 out)
        then recorded t0 n sid out TaskStatusWaiting t ∧ TaskFailureCategory t = FailureCategoryBudget
        else recorded t0 n sid out TaskStatusInProgress t) es w).
Proof.
  intros Hs. rewrite Hs. unfold budget_guard. apply (at_read _ _ _ alone). intros t Hr. fold (over_budget t).
  rewrite (over_budget_recorded _ _ _ _ _ _ Hr).
  destruct (over_budget (charged t0 out)).
  - eapply triple_bind; [apply (at_status _ _ _ alone _ (recorded t0 n sid out TaskStatusWaiting))|intros ?; cbv beta].
    { intros n1 n2 u ->. destruct Hr as [E Hr]. rewrite E. split; [by vm_compute|]. unfold with_status. simpl. split; done. }
    eapply triple_bind; [apply (at_mutate _ _ _ alone _ (λ t, recorded t0 n sid out TaskStatusWaiting t ∧
      TaskFailureCategory t = FailureCategoryBudget)); by intros|intros ?; cbv beta].
    repeat at_step. by apply triple_ret.
  - apply triple_ret. intros w Hw. split; [done|]. revert Hw. apply at_weaken. by intros u ->.
Qed.

(** An answer that is not an error and either ends the turn or asks to go on. *)
Definition ordinary (out : agentOutput) : Prop :=
  out_IsError out = false ∧ out_StopReason out ∈ ["end_turn"; "max_tokens"; "pause_turn"].

Lemma route_at t0 ts ts0 out es : ordinary out →
  ts_sessionID ts = next_session ts0 out → ts_testSessionID ts = ts_testSessionID ts0 → ts_turns ts = ts_turns ts0 →
  over_budget (charged t0 out) = false →
  triple (task_at is_container id (recorded t0 (ts_turns ts0) (next_session ts0 out) out TaskStatusInProgress) es)
    (route sch up compile env id task ts out) (answered t0 ts0 out es).
Proof.
  intros [_ Hstop] E1 E2 E3 Hb. unfold route, answered. rewrite Hb, no_test, E1, E2, E3. case_bool_decide as He.
  - eapply triple_bind; [|intros ?; cbv beta; apply triple_ret; intros w Hw; split; [done|exact Hw]].
    at_step; [at_step|]. eapply triple_bind; [|intros ?; cbv beta; repeat at_step].
    apply (at_status _ _ _ alone). intros n1 n2 u [Eu Hu]. rewrite Eu. split; [by vm_compute|]. split; [|done]. split; done.
  - rewrite bool_decide_true by set_solver. apply (triple_bind _ _ _
      (λ _, task_at is_container id (recorded t0 (ts_turns ts0) (next_session ts0 out) out TaskStatusInProgress) es)).
    { case_bool_decide; [by apply at_emit_quiet|by apply triple_ret]. }
    intros _. apply triple_ret. intros w Hw. split; [|by eexists]. revert Hw. by apply at_weaken.
Qed.

Lemma end_turn_at t0 ts t out es : answer t = inr out → ordinary out → Status t0 = TaskStatusInProgress →
  triple (task_at is_container id (same t0) es) (end_turn sch up compile decode env id task ts t) (answered t0 ts out es).
Proof.
  intros Ha Ho Hs. unfold end_turn. rewrite Ha. eapply triple_bind; [apply save_output_at|intros ?; cbv beta].
  eapply triple_bind; [apply record_answer_at|]. intros ts' w [(E1 & E2 & E3) Hw]. revert w Hw.
  eapply triple_bind; [by apply budget_guard_at|]. intros b w [-> Hw].
  destruct (over_budget (charged t0 out)) eqn:Hb.
  - unfold answered. rewrite Hb. done.
  - rewrite (proj1 Ho). revert w Hw. by apply route_at.
Qed.

(** C25: One ordinary answer of the agent to an implementation run, whatever the
    backend does: the container is called once, with the prompt and session of
    the turn; the answer's result, session, stop reason, turn number and usage
    are in the task's record; a task over its cost or token budget then waits
    with the budget category and the loop ends; otherwise an ended turn makes
    the task wait, and a turn that was cut short goes on in the same session
    with an empty prompt. *)
Theorem turn_outcome t0 ts t out rest es w :
  answer t = inr out → ordinary out → Status t0 = TaskStatusInProgress → task_at is_container id (λ t, t = t0) es w →
  let ts1 := MkTurnState (ts_prompt ts) (ts_sessionID ts) (ts_testSessionID ts) (wrap64 (ts_turns ts + 1)) (ts_env ts) in
  ∃ r w1, answered t0 ts1 out (es ++ [RunContainer id (ts_prompt ts) (ts_sessionID ts) false]) r w1 ∧
    turn_loop sch up compile decode env id task ts (Answers t :: rest) w =
      match r with
      | None => (Returned true, w1)
      | Some ts2 => turn_loop sch up compile decode env id task ts2 rest w1
      end.
Proof.
  intros Ha Ho Hs Hw ts1. cbn [turn_loop]. rewrite bind_run. apply (begin_turn_at ts) in Hw as [E Hw].
  fold ts1 in E. destruct (begin_turn sch env id task ts w) as [ts' w'].
  cbn [fst snd] in *. subst ts'. rewrite bind_run.
  apply (at_weaken is_container id _ (same t0)) in Hw; [|by intros ? ->]. apply (end_turn_at t0 ts1 t out _ Ha Ho Hs) in Hw.
  destruct (end_turn _ _ _ _ _ _ _ ts1 t w') as [r w1]. cbn [fst snd] in *. exists r, w1. split; [done|]. by destruct r.
Qed.
End outcome.
