(* ===== verification/RunnerRun.v ===== *)
(** * Concrete runs of the turn loop

    A store with one task in progress, and runs of [Run] on it: witnesses for
    the theorems of RunnerSpec, and two runs that show what the code does not
    keep: a cancellation that loses against an automatic retry, and the session
    of the implementation agent, lost when a test run fails. *)

From S2P Require Import Prelude StateMachine GoStrings GoText PkgUtil TaskModel Backend Store StoreUpdate StoreWf StoreRestart StoreSpec StoreQuery Verdict World WorldRules Runner RunnerSpec.
From Stdlib Require Import String.
From stdpp Require Import list gmap.
Local Open Scope Z_scope.
Local Open Scope string_scope.

Module RunnerRun.
#[local] Existing Instance text_uuid.

Definition idA : @uuid text_uuid := "A".

(** A task in progress with its worktree, budget and session. *)
Definition task : Task := zero_Task <| ID := idA |> <| Status := TaskStatusInProgress |> <| Prompt := "do it" |>
  <| SessionID := Some "impl" |> <| WorktreePaths := {["repo" := "wt"]} |>
  <| AutoRetryBudget := Some defaultAutoRetryBudget |>.

Definition store_with (t : Task) (faults : list bool) : Store MemBackend :=
  match NewStore id (Mem (Contents {[idA := t]} ∅ ∅) faults) 10 10 10 100 with
  | Ok s => s
  | Err _ => fresh_store (Mem (Contents ∅ ∅ ∅) []) 0 0 0 0
  end.

Definition world (t : Task) (faults : list bool) : World MemBackend := MkWorld (store_with t faults) 0 [] false ∅ ∅.

Definition any_order (_ : nat) (m : gmap (@uuid text_uuid) Task) : list (@uuid text_uuid) := (map_to_list m).*1.

Definition alone : Schedule MemBackend := MkSchedule (λ _ _ s, s) Z.of_nat any_order.

Definition no_env : ExecutionEnvironment := MkEnv EmptyString EmptyString EmptyString EmptyString EmptyString 0.

Definition collab : Collab := MkCollab (λ _, no_env) None None (λ _, false) (λ _, true)
  (Returns (inl (MkErr "ensure" false false))) (Returns (inl (MkErr "setup" false false))) false []
  (Returns (inl (MkErr "topos" false false))) (Returns None) (Returns tt).

Lemma collab_calm : calm collab.
Proof. by repeat split. Qed.

Definition no_pattern : string → option (string → bool) := λ _, None.
Definition no_ids : string → option (string * string) := λ _, None.

Definition run (sch : Schedule MemBackend) (sid : string) (turns : list TurnOutcome) (w : World MemBackend) :=
  Run sch id no_pattern no_ids (λ _, false) collab idA "go" sid false turns w.

Definition says (stop sid result : string) : Turn :=
  MkTurn [] [] (inr (MkOutput result sid stop false zero_usage EmptyString EmptyString)).
Definition crashes : Turn := MkTurn [] [] (inl (MkErr "exit status 137" false false)).

Definition seen {A} (f : Task → A) (r : option unit * World MemBackend) : option A := f <$> tasks (w_store r.2) !! idA.

Lemma alone_undisturbed i : undisturbed alone i.
Proof. intros b n s Hs. exact Hs. Qed.

(** A turn cut short, then one that ends. *)
Definition two_turns : list TurnOutcome := [Answers (says "max_tokens" "s1" "part"); Answers (says "end_turn" "s1" "done")].

Lemma Run_settles_witness :
  (run alone "impl" two_turns (world task [])).1 = Some tt ∧
  idle idA (w_store (run alone "impl" two_turns (world task [])).2).
Proof.
  assert ((run alone "impl" two_turns (world task [])).1 = Some tt) as E by (vm_compute; reflexivity).
  split; [exact E|]. exact (Run_settles alone id no_pattern no_ids (λ _, false) collab idA (alone_undisturbed idA)
    collab_calm "go" "impl" false two_turns (world task []) E).
Defined.

Lemma Run_returns_witness : (run alone "impl" two_turns (world task [])).1 = Some tt.
Proof.
  apply (Run_returns alone id no_pattern no_ids (λ _, false) collab idA "go" "impl" false two_turns (world task [])).
  apply Exists_cons_tl, Exists_cons_hd. split; [reflexivity|]. apply (bool_decide_unpack _). vm_compute. exact I.
Defined.

Definition first : TurnState := MkTurnState "go" "impl" EmptyString 0 no_env.
Definition finished : agentOutput := MkOutput "done" "s1" "end_turn" false zero_usage EmptyString EmptyString.

(** The loaded record of the task. *)
Definition loaded : Task := default zero_Task (tasks (store_with task []) !! idA).

Lemma turn_outcome_witness :
  ∃ r w1, answered idA loaded (MkTurnState "go" "impl" EmptyString 1 no_env) finished [RunContainer idA "go" "impl" false] r w1 ∧
    turn_loop alone id no_pattern no_ids collab idA task first [Answers (says "end_turn" "s1" "done")] (world task []) =
      match r with
      | None => (Returned true, w1)
      | Some ts2 => turn_loop alone id no_pattern no_ids collab idA task ts2 [] w1
      end.
Proof.
  apply (turn_outcome alone id no_pattern no_ids collab idA task (λ _ _ _, eq_refl) eq_refl loaded first
    (says "end_turn" "s1" "done") finished [] [] (world task [])); [reflexivity| |vm_compute; reflexivity|].
  - split; [reflexivity|]. apply (bool_decide_unpack _). vm_compute. exact I.
  - split; [|reflexivity]. exists loaded. split; [vm_compute; reflexivity|reflexivity].
Defined.

(** ** A cancellation that is undone *)

(** Another goroutine cancels the task before the [n]-th operation of the run. *)
Definition cancels_at (n : nat) : Schedule MemBackend :=
  MkSchedule (λ _ k s, if Nat.eqb k n then (UpdateTaskStatus 5 5 idA TaskStatusCancelled s).2 else s) Z.of_nat any_order.

(** The crash of the container is looked at before the cancellation and
    retried after it: the cancelled task is back in the backlog. *)
Lemma cancel_lost_to_retry :
  seen Status (run (cancels_at 7) "impl" [Answers crashes] (world task [])) = Some TaskStatusCancelled ∧
  seen Status (run (cancels_at 8) "impl" [Answers crashes] (world task [])) = Some TaskStatusBacklog.
Proof. split; vm_compute; reflexivity. Qed.

(** ** The implementation session *)

(** A test run whose second turn crashes leaves the session of the test agent
    in the record of the task. *)
Lemma test_run_loses_session :
  SessionID (task <| IsTestRun := true |>) = Some "impl" ∧
  seen SessionID (run alone "impl" [Answers (says "max_tokens" "test" "part"); Answers crashes]
    (world (task <| IsTestRun := true |>) [])) = Some (Some "test").
Proof. split; vm_compute; reflexivity. Qed.

(** ** A panic after [statusSet] *)

(** The engine panics in a flow that is not the implement flow: the guard recovers
    the panic, finds the status set, and the task stays in progress. *)
Definition panicking : Collab := MkCollab (λ _, no_env) (Some (λ _, "review", λ _, Some false)) (Some Panics) (λ _, false)
  (λ _, true) (Returns (inl (MkErr "ensure" false false))) (Returns (inl (MkErr "setup" false false))) false []
  (Returns (inl (MkErr "topos" false false))) (Returns None) (Returns tt).

Lemma engine_panic_stuck :
  let r := Run alone id no_pattern no_ids (λ _, false) panicking idA "go" "impl" false [] (world task []) in
  r.1 = Some tt ∧ seen Status r = Some TaskStatusInProgress.
Proof. split; vm_compute; reflexivity. Qed.
End RunnerRun.
