(* ===== verification/Sync.v ===== *)
(** * Worktree synchronisation (internal/runner: [SyncWorktrees] and [failSync] of execute.go)

    The rebase of a task's worktrees onto the default branch.  What git and the
    conflict resolver answer for a repository is an argument ([RepoAnswers]);
    [order] is the order in which the map of worktrees is ranged over. *)

From S2P Require Import Prelude StateMachine GoStrings GoText PkgUtil TaskModel Backend Store StoreUpdate StoreWf StoreSpec StoreQuery Verdict World WorldRules Runner RunnerSpec RunnerRun.
From Stdlib Require Import String.
From stdpp Require Import list gmap.
Local Open Scope Z_scope.
Local Open Scope string_scope.
#[local] Arguments String.append : simpl nomatch.

Record RepoAnswers := MkRepo {
  (** [os.Stat] of the worktree succeeds; the repository is a git repository. *)
  wt_exists : bool;
  is_repo : bool;
  DefaultBranch : goErr + string;
  (** [CommitsBehind], 0 when it fails. *)
  CommitsBehind : Z;
  StashIfDirty : bool;
  (** [RebaseOntoDefault] and [resolveConflicts] at each attempt. *)
  RebaseOntoDefault : Z → option goErr;
  resolveConflicts : Z → option goErr;
  StashPop : option goErr
}.

Definition MaxRebaseRetries : Z := 3.

Definition emdash : string := of_bytes [226; 128; 148].
Definition tick : string := of_bytes [96].

(** The prompts handed to the agent. *)
Definition conflict_prompt (defBranch wt : string) (stash_lost : bool) : string :=
  "Syncing your worktree with the latest " +:+ defBranch +:+ " branch failed due to conflicting changes in " +:+ wt +:+
  ". The rebase was aborted and the worktree is back to its pre-sync state." +:+ nl +:+ nl +:+
  "Please incorporate the upstream changes:" +:+ nl +:+
  "1. Run " +:+ tick +:+ "git log HEAD.." +:+ defBranch +:+ tick +:+ " to see what changed upstream" +:+ nl +:+
  "2. Run " +:+ tick +:+ "git diff HEAD.." +:+ defBranch +:+ " -- ." +:+ tick +:+ " to inspect the upstream diff" +:+ nl +:+
  "3. Update your code to be compatible with those upstream changes" +:+ nl +:+
  "4. Commit the updated changes" +:+ nl +:+ nl +:+
  "Once your changes are committed and compatible, the sync will be retried." +:+
  (if stash_lost then
     nl +:+ nl +:+ "IMPORTANT: You had uncommitted changes before the sync that could not be automatically restored. " +:+
     "They are saved in the git stash." +:+ nl +:+ "After resolving the conflict above:" +:+ nl +:+
     "1. Run " +:+ tick +:+ "git stash show -p" +:+ tick +:+ " to see what was stashed" +:+ nl +:+
     "2. Run " +:+ tick +:+ "git stash pop" +:+ tick +:+ " to restore the uncommitted changes" +:+ nl +:+
     "3. Resolve any conflicts from the stash pop" +:+ nl +:+
     "Do NOT discard the stash " +:+ emdash +:+ " it contains your work in progress."
   else EmptyString).

Definition stash_prompt (defBranch wt : string) : string :=
  "The worktree " +:+ wt +:+ " was successfully rebased onto " +:+ defBranch +:+
  ", but your uncommitted changes could not be automatically restored because they conflict with the rebased code." +:+
  nl +:+ nl +:+ "Your uncommitted work is saved in the git stash. Please:" +:+ nl +:+
  "1. Run " +:+ tick +:+ "git stash show -p" +:+ tick +:+ " to see what was stashed" +:+ nl +:+
  "2. Run " +:+ tick +:+ "git stash pop" +:+ tick +:+ " to attempt restoring (may produce conflicts)" +:+ nl +:+
  "3. Resolve any conflicts, ensuring your changes work with the updated code" +:+ nl +:+
  "4. Commit the result" +:+ nl +:+ nl +:+
  "Do NOT discard the stash " +:+ emdash +:+ " it contains your work in progress.".

Section sync.
Context `{UUIDLib} {B : Type} `{!StorageBackend B}.
Variables (sch : Schedule B) (up : Z → Z) (compile : string → option (string → bool))
          (decode : string → option (string * string)) (high : Z → bool) (env : Collab).
Variables (git : string → RepoAnswers) (id : uuid) (sessionID : string).
Abbreviation W := (W (B:=B)).
Abbreviation quiet := (quiet sch).
Abbreviation system data := (event sch id EventTypeSystem (payload [("result", data)])).
Abbreviation change from to := (state_change sch no_actor id from to TriggerSystem).
Abbreviation base := path_Base.

Definition failSync (turns : Z) (msg : string) : W unit :=
  event sch id EventTypeError (payload [("error", msg)]) ;;
  quiet (status_to id TaskStatusFailed) ;;
  quiet (λ n _, SetTaskFailureCategory n id FailureCategorySyncError) ;;
  change TaskStatusInProgress TaskStatusFailed ;;
  quiet (λ n _, UpdateTaskResult n id ("Sync failed: " +:+ msg) sessionID "sync_failed" turns).

(** The attempts from [attempt] on: the last error, and whether a conflict was
    seen.  [fuel] bounds the attempts that are left. *)
Fixpoint rebase_loop (fuel : nat) (repo : string) (attempt : Z) (conflict : bool) : W (option goErr * bool) :=
  match fuel with
  | O => mret (None, conflict)
  | S fuel =>
    match RebaseOntoDefault (git repo) attempt with
    | None => mret (None, conflict)
    | Some err =>
      if negb (IsConflict err) then mret (Some err, conflict)
      else if Z.eqb attempt MaxRebaseRetries then mret (Some err, true)
      else
        system ("Conflict in " +:+ base repo +:+ " " +:+ emdash +:+ " running resolver (attempt " +:+ pretty_Z attempt +:+
                "/" +:+ pretty_Z MaxRebaseRetries +:+ ")...") ;;
        emit (ResolveConflicts id repo attempt) ;;
        match resolveConflicts (git repo) attempt with
        | Some rerr => mret (Some (MkErr ("conflict resolution failed: " +:+ Error rerr) (IsDeadline rerr) (IsConflict rerr)), true)
        | None => rebase_loop fuel repo (attempt + 1) true
        end
    end
  end.

Definition clear_test_state (invalidated : bool) : W unit :=
  if invalidated then mret tt else quiet (λ n _, UpdateTaskTestRun n id false EmptyString).

(** What one repository leads to: the next one, the end of the sync, or a run
    of the agent. *)
Inductive repo_end := NextRepo (invalidated : bool) | SyncFailed | HandOff (prompt : string).

Definition sync_rebase (turns : Z) (repo wt defBranch : string) (invalidated : bool) : W repo_end :=
  let a := git repo in
  system ("Rebasing " +:+ base repo +:+ " onto " +:+ defBranch +:+ " (" +:+ pretty_Z (CommitsBehind a) +:+ " new commit(s))...") ;;
  r ← rebase_loop 3 repo 1 false;
  let '(rebaseErr, conflictDetected) := (r : option goErr * bool) in
  let stashPopErr := if StashIfDirty a then StashPop a else None in
  match rebaseErr with
  | Some err =>
    if negb conflictDetected then
      let msg := "rebase in " +:+ base wt +:+ ": " +:+ Error err in
      failSync turns (match stashPopErr with Some _ => msg +:+ "; uncommitted changes are saved in git stash" | None => msg end) ;;
      mret SyncFailed
    else
      system ("Sync conflict in " +:+ base repo +:+ " could not be automatically resolved " +:+ emdash +:+
              " handing off to agent for interactive resolution.") ;;
      event sch id EventTypeSystem (json_map (list_to_map [("phase", JStr "conflict_resolver"); ("status", JStr "handoff");
        ("trigger", JStr "sync"); ("repo", JStr (base repo)); ("attempt", JInt MaxRebaseRetries);
        ("max_attempts", JInt MaxRebaseRetries);
        ("result", JStr ("Automatic conflict resolver exhausted retries for " +:+ base repo +:+
                         ". Handing off to the main agent for interactive resolution."))])) ;;
      clear_test_state invalidated ;;
      mret (HandOff (conflict_prompt defBranch (base wt) (match stashPopErr with Some _ => true | None => false end)))
  | None =>
    match stashPopErr with
    | Some _ =>
      system ("Rebase of " +:+ base repo +:+ " succeeded, but restoring uncommitted changes failed (they conflict with the " +:+
              "rebased code). The changes are saved in " +:+ tick +:+ "git stash list" +:+ tick +:+
              ". Handing off to agent to re-apply them.") ;;
      clear_test_state invalidated ;;
      mret (HandOff (stash_prompt defBranch (base wt)))
    | None =>
      system ("Successfully synced " +:+ base repo +:+ " with " +:+ defBranch +:+ ".") ;;
      if negb invalidated && conflictDetected
      then clear_test_state false ;; mret (NextRepo true)
      else mret (NextRepo invalidated)
    end
  end.

Definition sync_repo (turns : Z) (repo wt : string) (invalidated : bool) : W repo_end :=
  let a := git repo in
  if negb (wt_exists a) then
    system ("Skipping " +:+ base repo +:+ " " +:+ emdash +:+ " worktree no longer exists on disk.") ;; mret (NextRepo invalidated)
  else if negb (is_repo a) then
    system ("Skipping " +:+ base repo +:+ " " +:+ emdash +:+ " not a git repository, cannot sync.") ;; mret (NextRepo invalidated)
  else
    match DefaultBranch a with
    | inl err => failSync turns ("defaultBranch for " +:+ base repo +:+ ": " +:+ Error err) ;; mret SyncFailed
    | inr defBranch =>
      if Z.eqb (CommitsBehind a) 0 then
        system (base repo +:+ " is already up to date with " +:+ defBranch +:+ ".") ;; mret (NextRepo invalidated)
      else sync_rebase turns repo wt defBranch invalidated
    end.

Fixpoint sync_loop (turns : Z) (paths : list (string * string)) (invalidated : bool) : W repo_end :=
  match paths with
  | [] => mret (NextRepo invalidated)
  | (repo, wt) :: rest =>
    r ← sync_repo turns repo wt invalidated;
    match (r : repo_end) with
    | NextRepo invalidated => sync_loop turns rest invalidated
    | SyncFailed => mret SyncFailed
    | HandOff p => mret (HandOff p)
    end
  end.

(** The status to go back to. *)
Definition restore_status (prev : TaskStatus) : TaskStatus :=
  if bool_decide (prev = TaskStatusFailed) then TaskStatusWaiting else prev.

Definition restore (prev : TaskStatus) : W unit :=
  quiet (λ n1 n2, ForceUpdateTaskStatus n1 n2 id (restore_status prev)) ;;
  change TaskStatusInProgress (restore_status prev).

(** [None] when the agent that a conflict was handed to is still running after
    [turns]. *)
Definition SyncWorktrees (prev : TaskStatus) (order : list string) (turns : list TurnOutcome) : W (option unit) :=
  emit (StopTaskWorker id) ;;
  r ← get_task sch id;
  match r with
  | Err _ => restore prev ;; mret (Some tt)
  | Ok task =>
    system "Syncing worktrees with latest changes on default branch..." ;;
    e ← sync_loop (Turns task) (omap (λ repo, pair repo <$> WorktreePaths task !! repo) order) false;
    match (e : repo_end) with
    | SyncFailed => mret (Some tt)
    | HandOff p => Run sch up compile decode high env id p sessionID false turns
    | NextRepo _ =>
      restore prev ;;
      system "Sync complete. Worktrees are up to date with the default branch." ;;
      mret (Some tt)
    end
  end.
End sync.

(** ** The task is never stuck *)

Section settles.
Context `{UUIDLib} {B : Type} `{!StorageBackend B}.
Variables (sch : Schedule B) (up : Z → Z) (compile : string → option (string → bool))
          (decode : string → option (string * string)) (high : Z → bool) (env : Collab).
Variables (git : string → RepoAnswers) (id : uuid) (sessionID : string).
Hypothesis others_idle : undisturbed sch id.
Hypothesis no_late_panic : calm env.

Definition failed_idle (e : repo_end) (w : World B) : Prop := e = SyncFailed → idle id (w_store w).

Lemma failSync_made turns msg : establishes (idle id) (failSync sch id sessionID turns msg).
Proof.
  apply establishes_bind_r. intros _. apply establishes_bind_l; [apply made_idle; set_solver|]. away_tac.
Qed.

Lemma failed_made (m : W (B:=B) unit) : establishes (idle id) m → triple (λ _, True) (m ;; mret SyncFailed) failed_idle.
Proof. intros Hm. eapply triple_bind; [exact Hm|]. intros ?. apply triple_ret. intros w Hw _. exact Hw. Qed.

Lemma sync_repo_made turns repo wt inv :
  triple (λ _, True) (sync_repo sch git id sessionID turns repo wt inv) failed_idle.
Proof.
  unfold sync_repo. destruct (negb _); [apply triple_skip; intros _; by apply triple_ret|].
  destruct (negb _); [apply triple_skip; intros _; by apply triple_ret|].
  destruct (DefaultBranch _) as [err|defBranch]; [apply failed_made, failSync_made|].
  destruct (Z.eqb _ 0); [apply triple_skip; intros _; by apply triple_ret|].
  unfold sync_rebase. apply triple_skip. intros _. apply triple_skip. intros [[err|] conflict].
  - destruct (negb conflict); [apply failed_made, failSync_made|].
    do 3 (apply triple_skip; intros _). by apply triple_ret.
  - destruct (if StashIfDirty _ then _ else _); [do 2 (apply triple_skip; intros _); by apply triple_ret|].
    apply triple_skip. intros _. destruct (_ && _); [apply triple_skip; intros _|]; by apply triple_ret.
Qed.

Lemma sync_loop_made turns paths inv : triple (λ _, True) (sync_loop sch git id sessionID turns paths inv) failed_idle.
Proof.
  revert inv. induction paths as [|[repo wt] paths IH]; intros inv; simpl; [by apply triple_ret|].
  eapply triple_bind; [apply sync_repo_made|]. intros [inv'| |p]; [apply triple_any, IH|..]; by apply triple_ret.
Qed.

Lemma restore_made prev : prev ≠ TaskStatusInProgress → establishes (idle id) (restore sch id prev).
Proof.
  intros Hp. apply establishes_bind_l; [|away_tac]. apply establishes_quiet. intros. apply away_forced.
  unfold restore_status. by case_bool_decide.
Qed.

(** C26: A sync never leaves its task stuck: when [SyncWorktrees] ends, whatever
    git, the conflict resolver, the agent and the backend answer and however
    other goroutines interleave, the task is not in progress any more, provided
    the sync was not asked to restore that status, no other goroutine puts the task
    in progress, and a run the sync hands over to does not panic after it has set
    its flag ([calm]). *)
Theorem SyncWorktrees_settles prev order turns w : prev ≠ TaskStatusInProgress →
  (SyncWorktrees sch up compile decode high env git id sessionID prev order turns w).1 = Some tt →
  idle id (w_store (SyncWorktrees sch up compile decode high env git id sessionID prev order turns w).2).
Proof.
  intros Hp. assert (triple (λ _, True) (SyncWorktrees sch up compile decode high env git id sessionID prev order turns)
    (λ r w, r = Some tt → idle id (w_store w))) as Hrun; [|by apply Hrun].
  unfold SyncWorktrees. apply triple_skip. intros _. apply triple_skip. intros [task|e].
  - apply triple_skip. intros _. eapply triple_bind; [apply sync_loop_made|]. intros [inv| |p].
    + apply (establishes_triple (idle id)); [|by intros]. eapply establishes_bind_l; [by apply restore_made|]. away_tac.
    + apply triple_ret. intros w' Hw _. by apply Hw.
    + intros w' _. by apply run_settles.
  - apply (establishes_triple (idle id)); [|by intros]. eapply establishes_bind_l; [by apply restore_made|]. away_tac.
Qed.
End settles.

(** ** A sync without conflicts *)

Section clean.
Context `{UUIDLib} {B : Type} `{!StorageBackend B}.
Variables (sch : Schedule B) (up : Z → Z) (compile : string → option (string → bool))
          (decode : string → option (string * string)) (high : Z → bool) (env : Collab).
Variables (git : string → RepoAnswers) (id : uuid) (sessionID : string).
Hypothesis alone : solo sch.

(** The repository is skipped, up to date, or rebases without a conflict and
    gets its uncommitted changes back. *)
Definition clean (a : RepoAnswers) : Prop :=
  wt_exists a = false ∨ is_repo a = false ∨
  ∃ d, DefaultBranch a = inr d ∧
    (CommitsBehind a = 0 ∨ RebaseOntoDefault a 1 = None ∧ (StashIfDirty a = true → StashPop a = None)).

Ltac at_event_tac := eapply triple_bind; [apply at_event; exact alone|intros ?; cbv beta].

Lemma sync_repo_clean φ es turns repo wt : clean (git repo) →
  triple (task_at is_container id φ es) (sync_repo sch git id sessionID turns repo wt false)
    (λ e w, e = NextRepo false ∧ task_at is_container id φ es w).
Proof.
  intros Hc. unfold sync_repo. destruct (wt_exists _) eqn:E1; cbn [negb]; [|at_event_tac; by apply triple_ret].
  destruct (is_repo _) eqn:E2; cbn [negb]; [|at_event_tac; by apply triple_ret].
  destruct Hc as [?|[?|(d & Hd & Hc)]]; [congruence..|]. rewrite Hd.
  destruct (Z.eqb_spec (CommitsBehind (git repo)) 0) as [E3|E3]; [at_event_tac; by apply triple_ret|].
  destruct Hc as [?|[Hr Hs]]; [done|]. unfold sync_rebase. at_event_tac.
  cbn [rebase_loop]. rewrite Hr. apply (triple_bind_eq _ (task_at is_container id φ es) _ _ (None, false)); [by apply triple_ret|].
  cbn [fst snd]. assert ((if StashIfDirty (git repo) then StashPop (git repo) else None) = None) as ->.
  { destruct (StashIfDirty _); [by apply Hs|done]. }
  at_event_tac. by apply triple_ret.
Qed.

Lemma sync_loop_clean φ es turns paths : Forall (λ p, clean (git p.1)) paths →
  triple (task_at is_container id φ es) (sync_loop sch git id sessionID turns paths false)
    (λ e w, e = NextRepo false ∧ task_at is_container id φ es w).
Proof.
  induction 1 as [|[repo wt] paths Hc _ IH]; simpl; [by apply triple_ret|].
  eapply triple_bind_eq; [by apply sync_repo_clean|]. apply IH.
Qed.

(** A sync without conflicts gives the task back as it was: the status of
    before ([waiting] for a failed task), with its session, result, turns,
    test verdict and failure category untouched, and the agent was not run. *)
Theorem SyncWorktrees_clean prev order turns t0 es w :
  (∀ repo, repo ∈ order → clean (git repo)) → task_at is_container id (λ t, t = t0) es w →
  let r := SyncWorktrees sch up compile decode high env git id sessionID prev order turns w in
  r.1 = Some tt ∧
  task_at is_container id (λ t, Status t = restore_status prev ∧ SessionID t = SessionID t0 ∧ Result t = Result t0 ∧
    Turns t = Turns t0 ∧ LastTestResult t = LastTestResult t0 ∧ TaskFailureCategory t = TaskFailureCategory t0) es r.2.
Proof.
  intros Hc Hw. revert w Hw. cbv zeta. set (φ := λ t, t = t0).
  change (triple (task_at is_container id φ es) (SyncWorktrees sch up compile decode high env git id sessionID prev order turns)
    (λ r w, r = Some tt ∧ task_at is_container id (λ t, Status t = restore_status prev ∧ SessionID t = SessionID t0 ∧ Result t = Result t0 ∧
    Turns t = Turns t0 ∧ LastTestResult t = LastTestResult t0 ∧ TaskFailureCategory t = TaskFailureCategory t0) es w)).
  unfold SyncWorktrees. eapply triple_bind; [by apply at_emit_quiet|intros ?; cbv beta].
  apply (at_read _ _ _ alone). intros t ->. at_event_tac. eapply triple_bind_eq.
  { apply sync_loop_clean. apply Forall_forall. intros [repo wt] (r & Hr & Hp)%list_elem_of_omap. simpl.
    destruct (WorktreePaths t0 !! r); [|done]. injection Hp as -> ->. by apply Hc. }
  eapply triple_bind; [|intros ?; cbv beta; at_event_tac; by apply triple_ret].
  unfold restore. eapply triple_bind; [apply (at_force _ _ _ alone)|intros ?; apply at_event; exact alone].
  intros n1 n2 t ->. rewrite Status_with_status. unfold with_status. by destruct (_ && _).
Qed.
End clean.

(** ** Concrete syncs *)

Module SyncRun.
#[local] Existing Instance text_uuid.
Import RunnerRun.

(** Two commits behind, with uncommitted changes; a conflict at every attempt. *)
Definition behind : RepoAnswers := MkRepo true true (inr "main") 2 true (λ _, None) (λ _, None) None.
Definition conflicting : RepoAnswers :=
  MkRepo true true (inr "main") 2 false (λ _, Some (MkErr "conflict" false true)) (λ _, None) None.

Definition sync (a : RepoAnswers) (turns : list TurnOutcome) :=
  SyncWorktrees alone id no_pattern no_ids (λ _, false) collab (λ _, a) idA "impl" TaskStatusWaiting ["repo"] turns (world task []).

Lemma SyncWorktrees_settles_witness :
  (sync conflicting [Answers (says "end_turn" "s1" "merged")]).1 = Some tt ∧
  idle idA (w_store (sync conflicting [Answers (says "end_turn" "s1" "merged")]).2).
Proof.
  assert ((sync conflicting [Answers (says "end_turn" "s1" "merged")]).1 = Some tt) as E by (vm_compute; reflexivity).
  split; [exact E|].
  refine (SyncWorktrees_settles alone id no_pattern no_ids (λ _, false) collab (λ _, conflicting) idA "impl"
    (alone_undisturbed idA) collab_calm TaskStatusWaiting ["repo"] _ (world task []) _ E). discriminate.
Defined.

Lemma SyncWorktrees_clean_witness :
  (sync behind []).1 = Some tt ∧
  task_at is_container idA (λ t, Status t = TaskStatusWaiting ∧ SessionID t = SessionID loaded ∧ Result t = Result loaded ∧
    Turns t = Turns loaded ∧ LastTestResult t = LastTestResult loaded ∧ TaskFailureCategory t = TaskFailureCategory loaded)
    [] (sync behind []).2.
Proof.
  apply (SyncWorktrees_clean alone id no_pattern no_ids (λ _, false) collab (λ _, behind) idA "impl" (λ _ _ _, eq_refl)
    TaskStatusWaiting ["repo"] [] loaded [] (world task [])).
  - intros repo _. right. right. exists "main". split; [reflexivity|]. right. split; reflexivity.
  - split; [|reflexivity]. exists loaded. split; [vm_compute; reflexivity|reflexivity].
Defined.
End SyncRun.
