(* ===== verification/Execute.v ===== *)
(** * Task lifecycle handlers (internal/handler: execute.go; breakers of handler.go)

    The handlers behind feedback, completion, cancellation, resumption, testing,
    archiving and synchronisation of a task, as goroutines of World.v.  [lock]
    and [unlock] are [promoteMu]; a request whose body does not decode, or that
    comes while no workspace is open, is answered before these functions.  What
    the runner and git answer is an argument ([Answers]). *)

From S2P Require Import Prelude Breaker StateMachine GoStrings GoText PkgUtil TaskModel Backend Store StoreUpdate StoreWf StoreSpec StoreQuery Verdict World WorldRules Runner.
From Stdlib Require Import String.
From stdpp Require Import list gmap.
Local Open Scope Z_scope.
Local Open Scope string_scope.
#[local] Arguments String.append : simpl nomatch.

(** A response: an error of the handler or of the store with its HTTP status,
    a JSON object, the record of a task with its status, lists of tasks, a page
    of the archive, the tasks of a batch with the identifiers of their refs, the
    refs of a cycle, or nothing. *)
Inductive Response `{UUIDLib} :=
| HttpError (msg : string) (code : Z)
| StoreError (e : store_error) (code : Z)
| JSON (code : Z) (fields : list (string * string))
| TaskJSON (code : Z) (t : Task)
| TasksJSON (ts : list Task)
| PageJSON (page : ArchivedPage) (after before : string)
| SearchJSON (results : list TaskSearchResult)
| BatchJSON (ts : list Task) (ref_to_id : gmap string string)
| CycleJSON (refs : list string)
| NoContent.

Record Answers := MkAnswers {
  (** The order in which a map of worktrees is ranged over. *)
  path_order : gmap string string → list string;
  (** A worktree path is a directory and a git repository. *)
  worktree_present : string → bool;
  EnsureTaskWorktrees : goErr + (gmap string string * string);
  (** [Commit]: an error, with whether it is a commit message error. *)
  Commit_error : option (goErr * bool);
  (** [generateWorktreeDiff] and [prompts.TestVerification]. *)
  worktree_diff : gmap string string → string;
  TestVerification : string → string → string → string → string
}.

Section handlers.
Context `{UUIDLib} {B : Type} `{!StorageBackend B}.
Variables (sch : Schedule B) (ans : Answers) (actor : Actor).
Abbreviation W := (W (B:=B)).
Abbreviation op := (op sch).
Abbreviation quiet := (quiet sch).
Abbreviation get_task := (get_task sch).
Abbreviation log id ty data := (event_as sch actor id ty data).
Abbreviation change id from to trigger := (state_change sch actor id from to trigger).

(** ** Breakers *)

Definition breaker_isOpen (name : string) : W bool :=
  n ← now sch;
  inspect (λ w, match w_breakers w !! name with Some wb => IsOpen n (wb_breaker wb) | None => false end).

Definition recordFailure (name : string) (taskID : option uuid) (reason : string) : W unit :=
  n ← now sch;
  update (λ w, w <| w_breakers := alter (λ wb,
    MkWatcherBreaker (BackoffRecordFailure n (wb_breaker wb)).2 reason taskID) name (w_breakers w) |>).

Definition recordSuccess (name : string) : W unit :=
  update (λ w, w <| w_breakers := alter (λ wb,
    MkWatcherBreaker (BackoffRecordSuccess (wb_breaker wb)) EmptyString None) name (w_breakers w) |>).

(** An unknown watcher has no breaker to open. *)
Definition openWatcherBreaker (name : string) (taskID : option uuid) (reason : string) : W bool :=
  known ← inspect (λ w, bool_decide (is_Some (w_breakers w !! name)));
  if negb known then mret false
  else
    isopen ← breaker_isOpen name;
    recordFailure name taskID reason ;;
    (match taskID with
     | Some id => log id EventTypeSystem (payload [("result", "[" +:+ name +:+ "] circuit breaker opened: " +:+ reason)])
     | None => mret tt
     end) ;;
    mret (negb isopen).

Definition pauseAllAutomation (taskID : option uuid) (watcher reason : string) : W bool :=
  openWatcherBreaker watcher taskID reason.

(** ** Helpers *)

Definition closeFeedbackWaitingSpan (id : uuid) : W unit :=
  log id EventTypeSpanEnd (span "feedback_waiting" "feedback_waiting").

Definition worktree_missing (t : Task) (repo : string) : bool :=
  match WorktreePaths t !! repo with
  | Some wt => bool_decide (wt = EmptyString) || negb (worktree_present ans wt)
  | None => false
  end.

Definition missingTaskWorktrees (t : Task) : list string :=
  filter (λ repo, worktree_missing t repo = true) (path_order ans (WorktreePaths t)).

Definition StatusConflict : Z := 409.

Definition validateTaskWorktreesForCommit (t : Task) : option (string * Z) :=
  if bool_decide (WorktreePaths t = ∅) then Some ("task has no worktrees to commit", StatusConflict)
  else match missingTaskWorktrees t with
       | [] => None
       | missing => Some ("task worktree missing for: " +:+ strings_Join missing ", ", StatusConflict)
       end.

(** The task to commit, and the error of the restoration. *)
Definition restoreTaskWorktreesForCommit (t : Task) : W (Task * option (goErr + store_error)) :=
  if bool_decide (WorktreePaths t = ∅) then mret (t, None)
  else match missingTaskWorktrees t with
       | [] => mret (t, None)
       | _ =>
         match EnsureTaskWorktrees ans with
         | inl err => mret (t, Some (inl err))
         | inr (paths, branch) =>
           r ← op (λ n _, UpdateTaskWorktrees n (ID t) paths branch);
           match r with
           | Err e => mret (t, Some (inr e))
           | Ok _ =>
             u ← get_task (ID t);
             mret (match u with Ok t' => (t', None) | Err e => (t, Some (inr e)) end)
           end
         end
       end.

(** ** Feedback *)

(** Operations in a row, the first error ends them. *)
Fixpoint in_order (ops : list (Z → Z → M (B:=B) unit)) : W (option store_error) :=
  match ops with
  | [] => mret None
  | o :: rest =>
    r ← op o;
    match r with Err e => mret (Some e) | Ok _ => in_order rest end
  end.

Definition session_of (t : Task) : string := default EmptyString (SessionID t).

Definition resumeWaitingTaskWithFeedbackLocked (t : Task) (message : string) (trigger : Trigger) (systemMessage : string)
  : W (option store_error) :=
  let id := ID t in
  e ← in_order [(λ n _, UpdateTaskTestRun n id false EmptyString);
                (λ n _, UpdateTaskPendingTestFeedback n id EmptyString);
                (λ n _, ClearReviewResult n id);
                (λ n _, ResetTestFailCount n id);
                status_to id TaskStatusInProgress];
  match e with
  | Some e => mret (Some e)
  | None =>
    log id EventTypeFeedback (payload [("message", message)]) ;;
    change id TaskStatusWaiting TaskStatusInProgress trigger ;;
    (if bool_decide (systemMessage = EmptyString) then mret tt
     else log id EventTypeSystem (payload [("result", systemMessage)])) ;;
    emit (RunBackground id message (session_of t) true) ;;
    mret None
  end.

Definition SubmitFeedback (id : uuid) (message : string) : W Response :=
  if bool_decide (TrimSpace message = EmptyString) then mret (HttpError "message is required" 400)
  else
    lock ;;
    r ← get_task id;
    resp ← match r with
      | Err _ => mret (HttpError "task not found" 404)
      | Ok t =>
        if negb (bool_decide (Status t = TaskStatusWaiting)) then mret (HttpError "task is not in waiting status" 400)
        else
          e ← op (λ n _, UpdateTaskTestRun n id false EmptyString);
          match e with
          | Err e => mret (StoreError e 500)
          | Ok _ =>
            e ← resumeWaitingTaskWithFeedbackLocked t message TriggerFeedback EmptyString;
            mret (match e with Some e => StoreError e 500 | None => JSON 200 [("status", "resumed")] end)
          end
      end;
    unlock ;;
    mret resp.

(** ** The commit pipeline goroutine *)

Definition commit_failed (id : uuid) (trigger : Trigger) (failurePrefix : string) (err : goErr) : W unit :=
  quiet (status_to id TaskStatusFailed) ;;
  log id EventTypeError (payload [("error", failurePrefix +:+ Error err)]) ;;
  change id TaskStatusCommitting TaskStatusFailed trigger ;;
  (if bool_decide (trigger = TriggerUser) then mret tt
   else _ ← pauseAllAutomation (Some id) "auto-submit" (Error err); mret tt).

(** A commit message error gives the task back; false when that fails. *)
Definition commit_aborted (id : uuid) (trigger : Trigger) (err : goErr) : W bool :=
  e ← op (λ n1 n2, ForceUpdateTaskStatus n1 n2 id TaskStatusWaiting);
  match e with
  | Err _ => mret false
  | Ok _ =>
    change id TaskStatusCommitting TaskStatusWaiting trigger ;;
    log id EventTypeSystem (payload [("result",
      "Commit aborted: commit message generation failed. Task returned to waiting for review.")]) ;;
    (if bool_decide (trigger = TriggerUser) then mret tt
     else _ ← pauseAllAutomation (Some id) "auto-submit" (Error err); mret tt) ;;
    mret true
  end.

Definition run_commit (id : uuid) (sessionID : string) (trigger : Trigger) (failurePrefix : string) : W unit :=
  emit (CommitPipeline id sessionID) ;;
  match Commit_error ans with
  | Some (err, message_error) =>
    handled ← if (message_error : bool) then commit_aborted id trigger err else mret false;
    if (handled : bool) then mret tt else commit_failed id trigger failurePrefix err
  | None =>
    quiet (status_to id TaskStatusDone) ;;
    change id TaskStatusCommitting TaskStatusDone trigger
  end.

Definition runCommitTransition (id : uuid) (sessionID : string) (trigger : Trigger)
    (failurePrefix : string) : W unit :=
  r ← get_task id;
  match r with
  | Err _ => run_commit id sessionID trigger failurePrefix
  | Ok t =>
    x ← restoreTaskWorktreesForCommit t;
    match validateTaskWorktreesForCommit x.1 with
    | Some (msg, _) =>
      e ← op (λ n1 n2, ForceUpdateTaskStatus n1 n2 id TaskStatusWaiting);
      match e with
      | Err _ => mret tt
      | Ok _ =>
        change id TaskStatusCommitting TaskStatusWaiting trigger ;;
        log id EventTypeError (payload [("error", msg)])
      end
    | None => run_commit id sessionID trigger failurePrefix
    end
  end.

Definition CompleteTask (id : uuid) : W Response :=
  lock ;;
  r ← get_task id;
  resp ← match r with
    | Err _ => mret (HttpError "task not found" 404)
    | Ok t =>
      if negb (bool_decide (Status t = TaskStatusWaiting)) then mret (HttpError "only waiting tasks can be completed" 400)
      else
        closeFeedbackWaitingSpan id ;;
        if bool_decide (session_of t = EmptyString) then
          e ← op (λ n1 n2, ForceUpdateTaskStatus n1 n2 id TaskStatusDone);
          match e with
          | Err e => mret (StoreError e 500)
          | Ok _ =>
            change id TaskStatusWaiting TaskStatusDone TriggerUser ;;
            mret (JSON 200 [("status", "ok")])
          end
        else
          x ← restoreTaskWorktreesForCommit t;
          match x.2 with
          | Some (inl err) => mret (HttpError (Error err) 500)
          | Some (inr e) => mret (StoreError e 500)
          | None =>
            match validateTaskWorktreesForCommit x.1 with
            | Some (msg, code) => mret (HttpError msg code)
            | None =>
              e ← op (λ n1 n2, ForceUpdateTaskStatus n1 n2 id TaskStatusCommitting);
              match e with
              | Err e => mret (StoreError e 500)
              | Ok _ =>
                change id TaskStatusWaiting TaskStatusCommitting TriggerUser ;;
                emit (CommitTransition id (session_of x.1) TriggerUser "commit failed: ") ;;
                mret (JSON 200 [("status", "ok")])
              end
            end
          end
    end;
  unlock ;;
  mret resp.

(** ** Cancelling *)

Definition cancellableStatuses : list TaskStatus :=
  [TaskStatusBacklog; TaskStatusInProgress; TaskStatusWaiting; TaskStatusFailed].

Definition live_statuses : list TaskStatus := [TaskStatusBacklog; TaskStatusInProgress; TaskStatusWaiting].

Definition cancelTaskInternal (t : Task) : W (option store_error) :=
  let id := ID t in
  let oldStatus := Status t in
  (if bool_decide (oldStatus = TaskStatusWaiting) then closeFeedbackWaitingSpan id else mret tt) ;;
  (if bool_decide (oldStatus = TaskStatusInProgress) then emit (KillContainer id) else mret tt) ;;
  emit (StopTaskWorker id) ;;
  e ← op_range sch (λ order n1 n2, CancelTask order n1 n2 (λ _, n2) id);
  match e with
  | Err e => mret (Some e)
  | Ok _ =>
    change id oldStatus TaskStatusCancelled TriggerUser ;;
    (if bool_decide (WorktreePaths t = ∅) then mret tt else emit (CleanupWorktrees id)) ;;
    mret None
  end.

Definition spawn_tag (id : uuid) : string := "spawned-by:" +:+ uuid_String id.

Fixpoint cancel_children (routine : uuid) (ts : list Task) : W unit :=
  match ts with
  | [] => mret tt
  | t :: rest =>
    (if negb (bool_decide (ID t = routine)) && HasTag t (spawn_tag routine) && bool_decide (Status t ∈ live_statuses)
     then _ ← cancelTaskInternal t; mret tt else mret tt) ;;
    cancel_children routine rest
  end.

Definition cascadeCancelRoutineChildren (routine : uuid) : W unit :=
  ts ← read_range sch (λ order, ListTasks order false);
  cancel_children routine ts.

(** The parent routine of a spawned instance: the first tag that names one. *)
Fixpoint spawned_by (tags : list string) : option uuid :=
  match tags with
  | [] => None
  | tag :: rest =>
    match CutPrefix tag "spawned-by:" with
    | Some s => match uuid_Parse s with Some id => Some id | None => spawned_by rest end
    | None => spawned_by rest
    end
  end.

Definition spawnedByRoutineID (t : Task) : option uuid :=
  match spawned_by (Tags t) with
  | Some id => if bool_decide (id = uuid_Nil) then None else Some id
  | None => None
  end.

Definition isRoutineStoppedStatus (st : TaskStatus) : bool :=
  bool_decide (st ∈ [TaskStatusCancelled; TaskStatusDone; TaskStatusFailed]).

Definition cascadeDisableRoutineIfLastLiveInstance (canceled : Task) : W unit :=
  match spawnedByRoutineID canceled with
  | None => mret tt
  | Some routineID =>
    r ← get_task routineID;
    match r with
    | Err _ => mret tt
    | Ok routine =>
      if negb (IsRoutine routine) then mret tt
      else if negb (RoutineEnabled routine) || isRoutineStoppedStatus (Status routine) then mret tt
      else
        ts ← read_range sch (λ order, ListTasks order false);
        let live t := negb (bool_decide (ID t = ID canceled)) && negb (bool_decide (ID t = routineID)) &&
                      HasTag t (spawn_tag routineID) && bool_decide (Status t ∈ live_statuses) in
        if existsb live (ts : list Task) then mret tt
        else
          e ← op (λ n _, UpdateRoutineEnabled n routineID false);
          match e with
          | Err _ => mret tt
          | Ok _ =>
            emit (UnregisterRoutine routineID) ;;
            log routineID EventTypeSystem (payload [("kind", "routine:auto_disabled");
              ("reason", "last_live_instance_cancelled"); ("instance", uuid_String (ID canceled))])
          end
    end
  end.

Definition applyCancel (t : Task) : W (option store_error) :=
  e ← cancelTaskInternal t;
  match e with
  | Some e => mret (Some e)
  | None =>
    (if bool_decide (Status t = TaskStatusBacklog ∨ Status t = TaskStatusWaiting) then emit (ArchiveThreads (ID t)) else mret tt) ;;
    (if IsRoutine t then
       cascadeCancelRoutineChildren (ID t) ;;
       quiet (λ n _, UpdateRoutineEnabled n (ID t) false) ;;
       emit (UnregisterRoutine (ID t))
     else mret tt) ;;
    cascadeDisableRoutineIfLastLiveInstance t ;;
    mret None
  end.

(** ** Resuming, testing, syncing, archiving *)

Definition ResumeTask (id : uuid) (timeout : option Z) : W Response :=
  r ← get_task id;
  match r with
  | Err _ => mret (HttpError "task not found" 404)
  | Ok t =>
    if negb (bool_decide (Status t = TaskStatusFailed)) && negb (bool_decide (Status t = TaskStatusWaiting))
    then mret (HttpError "only failed or waiting tasks can be resumed" 400)
    else if bool_decide (session_of t = EmptyString) then mret (HttpError "task has no session to resume" 400)
    else
      lock ;;
      e ← op (λ n1 n2, StoreUpdate.ResumeTask n1 n2 id timeout);
      unlock ;;
      match e with
      | Err e => mret (StoreError e 500)
      | Ok _ =>
        quiet (λ n _, ClearReviewResult n id) ;;
        change id (Status t) TaskStatusInProgress TriggerUser ;;
        emit (RunBackground id "continue" (session_of t) false) ;;
        mret (JSON 200 [("status", "resumed")])
      end
  end.

Definition buildTestPrompt (originalPrompt criteria implResult diff : string) : string :=
  TestVerification ans originalPrompt (TrimSpace criteria) (TrimSpace implResult) (TrimSpace diff).

Definition test_prompt_of (t : Task) (criteria : string) : string :=
  buildTestPrompt (Prompt t) criteria (default EmptyString (Result t)) (worktree_diff ans (WorktreePaths t)).

Definition TestTask (id : uuid) (criteria : string) : W Response :=
  lock ;;
  r ← get_task id;
  resp ← match r with
    | Err _ => mret (HttpError "task not found" 404)
    | Ok t =>
      if negb (bool_decide (Status t = TaskStatusWaiting)) then mret (HttpError "only waiting tasks can be tested" 400)
      else
        let criteria := if bool_decide (TrimSpace criteria = EmptyString) then Criteria t else TrimSpace criteria in
        let testPrompt := test_prompt_of t criteria in
        closeFeedbackWaitingSpan id ;;
        e ← in_order [(λ n _, UpdateTaskTestRun n id true EmptyString); status_to id TaskStatusInProgress];
        match e with
        | Some e => mret (StoreError e 500)
        | None =>
          change id TaskStatusWaiting TaskStatusInProgress TriggerUser ;;
          log id EventTypeSystem (payload [("result", "Test verification started"); ("test_prompt", testPrompt)]) ;;
          emit (RunBackground id testPrompt EmptyString false) ;;
          mret (JSON 200 [("status", "testing")])
        end
    end;
  unlock ;;
  mret resp.

Definition SyncTask (id : uuid) : W Response :=
  r ← get_task id;
  match r with
  | Err _ => mret (HttpError "task not found" 404)
  | Ok t =>
    if bool_decide (Status t = TaskStatusInProgress) then mret (JSON 200 [("status", "already_syncing")])
    else if negb (bool_decide (Status t = TaskStatusWaiting)) && negb (bool_decide (Status t = TaskStatusFailed))
    then mret (HttpError "only waiting or failed tasks with worktrees can be synced" 400)
    else if bool_decide (WorktreePaths t = ∅) then mret (HttpError "task has no worktrees to sync" 400)
    else
      lock ;;
      e ← op (λ n1 n2, ForceUpdateTaskStatus n1 n2 id TaskStatusInProgress);
      unlock ;;
      match e with
      | Err e => mret (StoreError e 500)
      | Ok _ =>
        change id (Status t) TaskStatusInProgress TriggerUser ;;
        emit (InvalidateDiff id) ;;
        emit (SyncWorktreesBackground id (session_of t) (Status t)) ;;
        mret (JSON 200 [("status", "syncing")])
      end
  end.

Definition archive_event (id : uuid) (to : string) : W unit :=
  log id EventTypeStateChange (payload [("to", to); ("trigger", TriggerUser)]).

Fixpoint archived_all (ids : list uuid) : W unit :=
  match ids with
  | [] => mret tt
  | id :: rest => emit (StopTaskWorker id) ;; archive_event id "archived" ;; archived_all rest
  end.

(** The store's operation answers the archived tasks and the error that ended it. *)
Definition ArchiveAllDone : W Response :=
  r ← op_range sch (λ order n _ s, let '(a, s') := StoreUpdate.ArchiveAllDone order (λ _, n) s in (Ok a, s'));
  match r with
  | Ok (ids, None) => archived_all ids ;; mret (JSON 200 [("archived", pretty_Z (Z.of_nat (length ids)))])
  | Ok (_, Some e) => mret (StoreError e 500)
  | Err e => mret (StoreError e 500)
  end.

Definition applyArchive (t : Task) (archived : bool) : W (option store_error) :=
  let id := ID t in
  (if archived then emit (StopTaskWorker id) else mret tt) ;;
  e ← op (λ n _, SetTaskArchived n id archived);
  match e with
  | Err e => mret (Some e)
  | Ok _ =>
    archive_event id (if archived then "archived" else "unarchived") ;;
    (if archived then
       (if IsRoutine t then
          cascadeCancelRoutineChildren id ;;
          quiet (λ n _, UpdateRoutineEnabled n id false) ;;
          emit (UnregisterRoutine id)
        else mret tt) ;;
       emit (ArchiveThreads id)
     else emit (UnarchiveThreads id)) ;;
    mret None
  end.

(** ** Review *)

Definition maxConcurrentReview : Z := 2.

Definition beginReview (id : uuid) : W bool := λ w,
  if decide (id ∈ w_reviews w) then (false, w)
  else if Z.leb maxConcurrentReview (Z.of_nat (size (w_reviews w))) then (false, w)
  else (true, w <| w_reviews := {[id]} ∪ w_reviews w |>).

Definition endReview (id : uuid) : W unit := update (λ w, w <| w_reviews := w_reviews w ∖ {[id]} |>).

Definition primaryWorktree (paths : gmap string string) : string :=
  default EmptyString (head (merge_sort String.le (map_to_list paths).*2)).

Definition reviewStateDir (wt : string) : string :=
  if bool_decide (wt = EmptyString) then EmptyString else path_Join [path_Dir wt; ".review"].

Definition ReviewTask (id : uuid) : W Response :=
  r ← get_task id;
  match r with
  | Err _ => mret (HttpError "task not found" 404)
  | Ok t =>
    if negb (bool_decide (Status t = TaskStatusWaiting)) then mret (HttpError "only waiting tasks can be verified by review" 409)
    else if bool_decide (session_of t = EmptyString)
    then mret (HttpError "task has no session ID (claude fork-session required)" 400)
    else
      ok ← beginReview id;
      if negb ok then mret (HttpError "review verification already running for this task" 409)
      else
        emit (ReviewBackground id) ;;
        mret (JSON 202 [("status", "running"); ("state_dir", reviewStateDir (primaryWorktree (WorktreePaths t)))])
  end.
End handlers.
