(* ===== verification/ExecuteSpec.v ===== *)
(** * What the lifecycle handlers guarantee

    [commit_outcome]: how the commit goroutine ends, for each answer of the
    pipeline.
    [SubmitFeedback_spec]: feedback on every branch.  Concrete interleavings show
    where a check and the write that follows it are not one step. *)

From S2P Require Import Prelude Breaker StateMachine GoStrings GoText PkgUtil TaskModel Backend Store StoreUpdate StoreWf StoreDurable StoreRestart StoreSpec StoreEvents StoreQuery Verdict World WorldRules Runner RunnerRun Execute.
From Stdlib Require Import String.
From stdpp Require Import list gmap.
Local Open Scope Z_scope.
Local Open Scope string_scope.

(** ** Committing *)

Section commit.
Context `{UUIDLib} {B : Type} `{!StorageBackend B}.
Variables (sch : Schedule B) (ans : Answers) (actor : Actor) (id : uuid).
Hypothesis others_away : never_enters sch TaskStatusCommitting id.
Abbreviation gone := (away TaskStatusCommitting id).

Lemma pause_away task w r : preserves gone (pauseAllAutomation sch actor task w r).
Proof. unfold pauseAllAutomation, openWatcherBreaker, breaker_isOpen, recordFailure. away_tac. Qed.

Hint Resolve pause_away : world.

Lemma commit_failed_made trigger prefix err : establishes gone (commit_failed sch actor id trigger prefix err).
Proof. apply establishes_bind_l; [by apply made_away|]. away_tac. Qed.

Lemma forced_waiting : establishes gone (op sch (λ n1 n2, ForceUpdateTaskStatus n1 n2 id TaskStatusWaiting)).
Proof. apply establishes_op. intros. by apply away_forced. Qed.

Lemma commit_aborted_made trigger err : establishes gone (commit_aborted sch actor id trigger err).
Proof. apply establishes_bind_l; [apply forced_waiting|]. away_tac. Qed.

Lemma run_commit_made sid trigger prefix : establishes gone (run_commit sch ans actor id sid trigger prefix).
Proof.
  apply establishes_bind_r. intros _. destruct (Commit_error ans) as [[err []]|].
  - apply establishes_bind_l; [apply commit_aborted_made|]. intros []; [away_tac|].
    apply establishes_preserves, commit_failed_made.
  - apply (triple_bind_eq _ (λ _, True) _ _ false); [by apply triple_ret|]. apply commit_failed_made.
  - apply establishes_bind_l; [by apply made_away|]. away_tac.
Qed.

(** The commit goroutine does not leave its task committing in memory, whatever the
    backend does, provided no other goroutine puts it in committing.  The comment in
    the handler says otherwise of the case that the worktrees are missing and the
    forced change to waiting fails: there only the record on disk is still
    committing. *)
Lemma commit_settles sid trigger prefix w :
  gone (w_store (runCommitTransition sch ans actor id sid trigger prefix w).2).
Proof.
  assert (establishes gone (runCommitTransition sch ans actor id sid trigger prefix)) as Hc; [|by apply Hc].
  unfold runCommitTransition. apply establishes_bind_r. intros [t|e]; [|apply run_commit_made].
  apply establishes_bind_r. intros [t' err]. cbn [fst].
  destruct (validateTaskWorktreesForCommit ans t') as [[msg code]|]; [|apply run_commit_made].
  apply establishes_bind_l; [apply forced_waiting|]. away_tac.
Qed.
End commit.

(** ** Feedback *)

Section acked.
Context `{UUIDLib} {B : Type} `{!StorageBackend B}.
Implicit Types (s : Store B) (t : Task) (id : uuid).

Lemma mutate_acked now id f s t : tasks s !! id = Some t → healthy (backend s) →
  is_ok (mutateTask now id (pure_fn f) s).1 = true ∧ healthy (backend (mutateTask now id (pure_fn f) s).2).
Proof.
  intros Ht Hh. unfold mutateTask, mbind, M_bind, bind, find_task. rewrite Ht. simpl.
  match goal with |- context [saveTask ?t ?s] => destruct (saveTask_healthy t s Hh) as (b & E & Hb & _) end.
  rewrite E. done.
Qed.

Lemma status_acked now1 now2 id st s t : tasks s !! id = Some t → CanTransitionTo (Status t) st = true → healthy (backend s) →
  is_ok (UpdateTaskStatus now1 now2 id st s).1 = true ∧ healthy (backend (UpdateTaskStatus now1 now2 id st s).2).
Proof.
  intros Ht Hc Hh. unfold UpdateTaskStatus, mbind, M_bind, bind, find_task. rewrite Ht.
  unfold CanTransitionTo, CanTransition in Hc. destruct (Validate TaskMachine (Status t) st); [|done].
  split; [|by apply silent_set_status]. rewrite (set_status_eq (λ z, z)).
  match goal with |- is_ok ?x.1 = true => destruct x as [r s'] eqn:E end.
  apply status_tail_cases in E as [Hr _]; [|unfold with_status; apply stamp_stamp]. rewrite Hr; [done|].
  unfold move_task, removeFromStatusIndex. by destruct (tasksByStatus s !! Status t).
Qed.

Lemma force_acked now1 now2 id st s t : tasks s !! id = Some t → healthy (backend s) →
  is_ok (ForceUpdateTaskStatus now1 now2 id st s).1 = true ∧ healthy (backend (ForceUpdateTaskStatus now1 now2 id st s).2).
Proof.
  intros Ht Hh. unfold ForceUpdateTaskStatus, mbind, M_bind, bind, find_task. rewrite Ht.
  split; [|by apply silent_set_status]. rewrite (set_status_eq (λ z, z)).
  match goal with |- is_ok ?x.1 = true => destruct x as [r s'] eqn:E end.
  apply status_tail_cases in E as [Hr _]; [|unfold with_status; apply stamp_stamp]. rewrite Hr; [done|].
  unfold move_task, removeFromStatusIndex. by destruct (tasksByStatus s !! Status t).
Qed.
End acked.

(** ** How a commit ends *)

Section commit_outcome.
Context `{UUIDLib} {B : Type} `{!StorageBackend B}.
Variables (sch : Schedule B) (ans : Answers) (actor : Actor) (id : uuid).
Hypothesis alone : solo sch.

Definition is_pipeline (e : Effect) : bool := match e with CommitPipeline _ _ => true | _ => false end.
Abbreviation at_ := (task_at is_pipeline id).

(** The task, and a backend that works. *)
Definition working (φ : Task → Prop) (es : list Effect) (w : World B) : Prop := at_ φ es w ∧ healthy (backend (w_store w)).

Lemma working_op φ ψ es (f : Z → Z → M (B:=B) unit) :
  (∀ n1 n2 s t, tasks s !! id = Some t → φ t →
     (∃ t', tasks (f n1 n2 s).2 !! id = Some t' ∧ ψ t') ∧
     (healthy (backend s) → is_ok (f n1 n2 s).1 = true ∧ healthy (backend (f n1 n2 s).2))) →
  triple (working φ es) (op sch f) (λ r w, r = Ok tt ∧ working ψ es w).
Proof.
  intros Hf w [Hw Hh]. destruct (at_op_answer sch is_pipeline id alone φ ψ es True f Hf w (conj Hw (λ _, Hh))) as [[Hat Hb] Hr].
  split; [|by split; auto]. destruct (op sch f w).1 as [[]|e]; [done|by specialize (Hr I)].
Qed.

Lemma working_at {A} φ es (m : W (B:=B) A) Q : triple (at_ φ es) m Q → triple (working φ es) m Q.
Proof. intros Hm w [Hw _]. by apply Hm. Qed.

Lemma working_force φ es st :
  triple (working φ es) (op sch (λ n1 n2, ForceUpdateTaskStatus n1 n2 id st)) (λ r w, r = Ok tt ∧ working (λ t, Status t = st) es w).
Proof.
  apply working_op. intros n1 n2 s t Ht _. split.
  - exists (with_status n1 n2 t st). rewrite (force_mem _ _ _ _ _ _ Ht), lookup_insert_eq. split; [done|apply Status_with_status].
  - intros Hh. by apply (force_acked _ _ _ _ _ t).
Qed.

Lemma working_worktrees t es paths branch :
  triple (working (λ t', t' = t) es) (op sch (λ n _, UpdateTaskWorktrees n id paths branch))
    (λ r w, r = Ok tt ∧ working (λ t', Status t' = Status t ∧ WorktreePaths t' = paths) es w).
Proof.
  apply working_op. intros n1 n2 s u Hu ->. split.
  - eexists. unfold UpdateTaskWorktrees. by rewrite (proj1 (mutate_mem n1 id _ s t Hu)), lookup_insert_eq.
  - intros Hh. by apply (mutate_acked _ _ _ _ t).
Qed.

Lemma working_read {A} φ es (k : result store_error Task → W (B:=B) A) Q :
  (∀ t, φ t → triple (working (λ t', t' = t) es) (k (Ok t)) Q) → triple (working φ es) (get_task sch id ≫= k) Q.
Proof.
  intros Hk w [[(t & Ht & Hφ) He] Hh]. rewrite bind_run. unfold get_task, read, GetTask. cbn [fst snd].
  destruct (arrive_solo sch is_pipeline alone w) as [E1 E2]. rewrite E1, Ht. apply (Hk t Hφ).
  split; [split; [exists t; by rewrite E1|by rewrite E2]|by rewrite E1].
Qed.

(** The worktrees the commit would use are there, or can be made again. *)
Definition committable (t : Task) : bool :=
  negb (bool_decide (WorktreePaths t = ∅)) &&
  (bool_decide (missingTaskWorktrees ans t = []) ||
   match EnsureTaskWorktrees ans with
   | inr (paths, _) => negb (bool_decide (paths = ∅)) && bool_decide (missingTaskWorktrees ans (t <| WorktreePaths := paths |>) = [])
   | inl _ => false
   end).

Lemma validate_spec t : validateTaskWorktreesForCommit ans t = None ↔ WorktreePaths t ≠ ∅ ∧ missingTaskWorktrees ans t = [].
Proof. unfold validateTaskWorktreesForCommit. case_bool_decide; [naive_solver|]. destruct (missingTaskWorktrees ans t); naive_solver. Qed.

Lemma missing_paths t t' : WorktreePaths t = WorktreePaths t' → missingTaskWorktrees ans t = missingTaskWorktrees ans t'.
Proof. intros E. unfold missingTaskWorktrees, worktree_missing. by rewrite E. Qed.

Lemma restore_triple t es : ID t = id →
  triple (working (λ t', t' = t) es) (restoreTaskWorktreesForCommit sch ans t)
    (λ x w, (bool_decide (validateTaskWorktreesForCommit ans x.1 = None) = committable t) ∧ working (λ t', Status t' = Status t) es w).
Proof.
  intros Hid. unfold restoreTaskWorktreesForCommit, committable.
  assert (∀ w, working (λ t', t' = t) es w → working (λ t', Status t' = Status t) es w) as Hw.
  { intros w [Ha Hh]. split; [|done]. revert Ha. apply at_weaken. by intros ? ->. }
  destruct (bool_decide_reflect (WorktreePaths t = ∅)) as [E|E]; cbn [negb andb].
  { apply triple_ret. intros w ?. split; [apply bool_decide_eq_false; rewrite validate_spec; naive_solver|auto]. }
  destruct (missingTaskWorktrees ans t) as [|m ms] eqn:Em.
  { apply triple_ret. intros w ?. split; [by apply bool_decide_eq_true, validate_spec|auto]. }
  assert (validateTaskWorktreesForCommit ans t ≠ None) as Hv by (rewrite validate_spec, Em; naive_solver).
  rewrite bool_decide_false by done. cbn [orb]. destruct (EnsureTaskWorktrees ans) as [err|[paths branch]].
  { apply triple_ret. intros w ?. split; [by apply bool_decide_eq_false|auto]. }
  rewrite Hid. eapply triple_bind_eq; [apply working_worktrees|]. apply working_read. intros t' [Es Ep]. apply triple_ret. intros w [Ha Hh].
  split; [|split; [revert Ha; apply at_weaken; by intros ? ->|done]]. cbn [fst].
  rewrite (bool_decide_ext _ _ (validate_spec t')), bool_decide_and, Ep, (missing_paths t' (t <| WorktreePaths := paths |>)) by done.
  by rewrite bool_decide_not.
Qed.

(** The status the goroutine leaves the task in. *)
Definition commit_status (t : Task) : TaskStatus :=
  if committable t then
    match Commit_error ans with
    | None => TaskStatusDone
    | Some (_, true) => TaskStatusWaiting
    | Some (_, false) => TaskStatusFailed
    end
  else TaskStatusWaiting.

Lemma at_pause φ es w r : triple (at_ φ es) (pauseAllAutomation sch actor (Some id) w r) (λ _, at_ φ es).
Proof.
  unfold pauseAllAutomation, openWatcherBreaker. apply (triple_bind _ _ _ (λ _, at_ φ es)); [by intros ? ?|]. intros known.
  destruct (negb known); [by apply triple_ret|]. unfold breaker_isOpen, recordFailure.
  assert (triple (at_ φ es) (now sch) (λ _, at_ φ es)) as Hn.
  { intros w' [(t & Ht & Hφ) He]. destruct (arrive_solo sch is_pipeline alone w') as [E1 E2].
    split; [exists t; split; [|done]|]; unfold now; cbn; [by rewrite alone|exact He]. }
  apply (triple_bind _ _ _ (λ _, at_ φ es)); [eapply triple_bind; [exact Hn|]; by intros n ? ?|]. intros isopen.
  apply (triple_bind _ _ _ (λ _, at_ φ es)); [eapply triple_bind; [exact Hn|]; by intros n ? ?|]. intros ?.
  eapply triple_bind; [apply (at_event _ _ _ alone)|]. intros ?. by apply triple_ret.
Qed.

(** The parts that only write events and pause the watchers. *)
Lemma at_logs {A} φ es (m : W (B:=B) A) : triple (at_ φ es) m (λ _, at_ φ es) →
  ∀ trigger r, triple (at_ φ es) (_ ← m; if bool_decide (trigger = TriggerUser) then mret tt
    else _ ← pauseAllAutomation sch actor (Some id) "auto-submit" r; mret tt) (λ _, at_ φ es).
Proof.
  intros Hm trigger r. eapply triple_bind; [exact Hm|]. intros ?. cbv beta. case_bool_decide; [by apply triple_ret|].
  eapply triple_bind; [apply at_pause|]. intros ?. by apply triple_ret.
Qed.

Lemma commit_failed_at es trigger prefix err :
  triple (at_ (λ t, Status t = TaskStatusCommitting) es) (commit_failed sch actor id trigger prefix err)
    (λ _, at_ (λ t, Status t = TaskStatusFailed) es).
Proof.
  unfold commit_failed. eapply triple_bind; [apply (at_status _ _ _ alone _ (λ t, Status t = TaskStatusFailed))|intros ?; cbv beta].
  { intros n1 n2 t ->. split; [done|apply Status_with_status]. }
  eapply triple_bind; [apply (at_event _ _ _ alone)|intros ?; cbv beta]. apply at_logs, (at_event _ _ _ alone).
Qed.

Lemma commit_aborted_at es trigger err :
  triple (working (λ t, Status t = TaskStatusCommitting) es) (commit_aborted sch actor id trigger err)
    (λ b w, b = true ∧ at_ (λ t, Status t = TaskStatusWaiting) es w).
Proof.
  unfold commit_aborted. eapply triple_bind_eq; [apply working_force|]. apply working_at.
  eapply triple_bind; [apply (at_event _ _ _ alone)|intros ?; cbv beta].
  eapply triple_bind; [apply (at_event _ _ _ alone)|intros ?; cbv beta].
  apply (triple_bind _ _ _ (λ _, at_ (λ t, Status t = TaskStatusWaiting) es)); [|intros ?; by apply triple_ret].
  case_bool_decide; [by apply triple_ret|]. eapply triple_bind; [apply at_pause|intros ?; by apply triple_ret].
Qed.

Lemma run_commit_at es sid trigger prefix :
  triple (working (λ t, Status t = TaskStatusCommitting) es) (run_commit sch ans actor id sid trigger prefix)
    (λ _, at_ (λ t, Status t = match Commit_error ans with
                               | None => TaskStatusDone
                               | Some (_, true) => TaskStatusWaiting
                               | Some (_, false) => TaskStatusFailed
                               end) (es ++ [CommitPipeline id sid])).
Proof.
  unfold run_commit. apply (triple_bind _ _ _ (λ _, working (λ t, Status t = TaskStatusCommitting) (es ++ [CommitPipeline id sid]))).
  { intros w [Hw Hh]. split; [by apply (at_emit is_pipeline id _ es (CommitPipeline id sid)) in Hw|done]. }
  intros ?. destruct (Commit_error ans) as [[err []]|].
  - eapply triple_bind_eq; [apply commit_aborted_at|]. by apply triple_ret.
  - apply (triple_bind_eq _ (at_ (λ t, Status t = TaskStatusCommitting) (es ++ [CommitPipeline id sid])) _ _ false);
      [apply triple_ret; by intros w [Hw _]|apply commit_failed_at].
  - apply working_at. eapply triple_bind; [apply (at_status _ _ _ alone _ (λ t, Status t = TaskStatusDone))|intros ?; apply (at_event _ _ _ alone)].
    intros n1 n2 t ->. split; [done|apply Status_with_status].
Qed.

Lemma commit_transition_at es sid trigger prefix t : ID t = id → Status t = TaskStatusCommitting →
  triple (working (λ t', t' = t) es) (runCommitTransition sch ans actor id sid trigger prefix)
    (λ _, at_ (λ t', Status t' = commit_status t) (es ++ (if committable t then [CommitPipeline id sid] else []))).
Proof.
  intros Hid Hs. unfold runCommitTransition, commit_status. apply working_read. intros ? ->. eapply triple_bind; [by apply restore_triple|].
  intros x. apply triple_pure. intros <-. rewrite Hs.
  destruct (validateTaskWorktreesForCommit ans x.1) as [[msg code]|].
  - rewrite bool_decide_false, app_nil_r by done. eapply triple_bind_eq; [apply working_force|]. apply working_at.
    eapply triple_bind; [apply (at_event _ _ _ alone)|intros ?; apply (at_event _ _ _ alone)].
  - rewrite bool_decide_true by done. apply run_commit_at.
Qed.
End commit_outcome.


Section feedback.
Context `{UUIDLib} {B : Type} `{!StorageBackend B}.
Variables (sch : Schedule B) (actor : Actor) (id : uuid).
Hypothesis alone : solo sch.

Definition every (_ : Effect) : bool := true.
Abbreviation at_ := (task_at every id).

(** The task, and a backend that works if [h]. *)
Definition kept (h : Prop) (φ : Task → Prop) (es : list Effect) (w : World B) : Prop :=
  at_ φ es w ∧ (h → healthy (backend (w_store w))).

Lemma kept_mutate h φ ψ es (f : Task → Task) : (∀ n t, φ t → ψ (updated n f t)) →
  triple (kept h φ es) (op sch (λ n _, mutateTask n id (pure_fn f))) (λ r w, kept h ψ es w ∧ (h → is_ok r = true)).
Proof.
  intros Hf. apply (at_op_answer _ _ _ alone). intros n1 n2 s t Ht Hφ. split.
  - eexists. split; [|by apply (Hf n1)]. by rewrite (proj1 (mutate_mem n1 id f s t Ht)), lookup_insert_eq.
  - intros Hh. by apply (mutate_acked _ _ _ _ t).
Qed.

Lemma kept_status h φ ψ es st : (∀ n1 n2 t, φ t → CanTransitionTo (Status t) st = true ∧ ψ (with_status n1 n2 t st)) →
  triple (kept h φ es) (op sch (status_to id st)) (λ r w, kept h ψ es w ∧ (h → is_ok r = true)).
Proof.
  intros Hf. apply (at_op_answer _ _ _ alone). intros n1 n2 s t Ht Hφ. destruct (Hf n1 n2 t Hφ) as [Hc Hψ]. split.
  - exists (with_status n1 n2 t st). split; [|done]. unfold status_to. by rewrite (status_mem _ _ _ _ _ _ Ht), Hc, lookup_insert_eq.
  - intros Hh. by apply (status_acked _ _ _ _ _ t).
Qed.

(** The next operation in a row: its error ends them. *)
Lemma in_order_step h φ ψ es o ops Q :
  triple (kept h φ es) (op sch o) (λ r w, kept h ψ es w ∧ (h → is_ok r = true)) →
  (∀ e w, calls every w = es → ¬ h → Q (Some e) w) →
  triple (kept h ψ es) (in_order sch ops) Q → triple (kept h φ es) (in_order sch (o :: ops)) Q.
Proof.
  intros Ho He Hops. cbn [in_order]. eapply triple_bind; [exact Ho|]. intros [[]|e] w [Hk Hr].
  - by apply Hops.
  - apply He; [apply Hk|]. intros h'. by specialize (Hr h').
Qed.

(** The parts of the task the feedback keeps. *)
Definition same_work (t0 t : Task) : Prop :=
  SessionID t = SessionID t0 ∧ Prompt t = Prompt t0 ∧ WorktreePaths t = WorktreePaths t0.
Definition untested (t : Task) : Prop := IsTestRun t = false ∧ LastTestResult t = EmptyString.
Definition forgotten (t : Task) : Prop :=
  untested t ∧ PendingTestFeedback t = EmptyString ∧ ReviewUnresolved t = None ∧ TestFailCount t = 0.

(** The task after feedback: in progress, with its tests and review forgotten. *)
Definition resumed (t0 t : Task) : Prop := Status t = TaskStatusInProgress ∧ forgotten t ∧ same_work t0 t.

(** What is refused before anything is done, the task being [t]. *)
Definition feedback_refusal (t : option Task) (message : string) : option Response :=
  if bool_decide (TrimSpace message = EmptyString) then Some (HttpError "message is required" 400)
  else match t with
       | None => Some (HttpError "task not found" 404)
       | Some t => if bool_decide (Status t = TaskStatusWaiting) then None
                   else Some (HttpError "task is not in waiting status" 400)
       end.

Abbreviation stage t0 φ := (λ t, Status t = TaskStatusWaiting ∧ same_work t0 t ∧ φ t).

Lemma resume_ops h t0 es :
  triple (kept h (stage t0 (λ _, True)) es)
    (in_order sch [(λ n _, UpdateTaskTestRun n id false EmptyString); (λ n _, UpdateTaskPendingTestFeedback n id EmptyString);
                   (λ n _, ClearReviewResult n id); (λ n _, ResetTestFailCount n id); status_to id TaskStatusInProgress])
    (λ r w, match r with None => at_ (resumed t0) es w | Some _ => calls every w = es ∧ ¬ h end).
Proof.
  eapply (in_order_step _ _ (stage t0 untested)); [apply kept_mutate; intros ?? (? & ? & ?); done|done|].
  eapply (in_order_step _ _ (stage t0 (λ t, untested t ∧ PendingTestFeedback t = EmptyString)));
    [apply kept_mutate; intros ?? (? & ? & ?); done|done|].
  eapply (in_order_step _ _ (stage t0 (λ t, untested t ∧ PendingTestFeedback t = EmptyString ∧ ReviewUnresolved t = None)));
    [apply kept_mutate; intros ?? (? & ? & ? & ?); done|done|].
  eapply (in_order_step _ _ (stage t0 forgotten)); [apply kept_mutate; intros ?? (? & ? & ? & ? & ?); done|done|].
  eapply (in_order_step _ _ (resumed t0)); [|done|intros w Hw; apply Hw].
  apply kept_status. intros n1 n2 t (E & Hw & Hf). rewrite E. split; [done|].
  unfold resumed, with_status. by destruct (_ && _).
Qed.

Lemma resume_triple h t message trigger es : ID t = id →
  triple (kept h (stage t (λ _, True)) es)
    (resumeWaitingTaskWithFeedbackLocked sch actor t message trigger EmptyString)
    (λ r w, match r with
            | None => at_ (resumed t) (es ++ [RunBackground id message (session_of t) true]) w
            | Some _ => calls every w = es ∧ ¬ h
            end).
Proof.
  intros Hid. unfold resumeWaitingTaskWithFeedbackLocked. rewrite Hid. eapply triple_bind; [apply resume_ops|].
  intros [e|]; cbv beta; [by apply triple_ret|].
  do 2 (eapply triple_bind; [apply (at_event _ _ _ alone)|intros ?; cbv beta]).
  rewrite bool_decide_true by done. apply (triple_bind _ _ _ (λ _, at_ (resumed t) es)); [by apply triple_ret|intros ?].
  eapply triple_bind; [apply at_emit|intros ?; cbv beta]. by apply triple_ret.
Qed.

(** The answer to the feedback, and what was started before it. *)
Definition feedback_answer (h : Prop) (t : Task) (message : string) (es : list Effect) (resp : Response) (w : World B) : Prop :=
  (resp = JSON 200 [("status", "resumed")] ∧ at_ (resumed t) (es ++ [RunBackground id message (session_of t) true]) w) ∨
  (∃ e, resp = StoreError e 500 ∧ calls every w = es ∧ ¬ h).

Lemma feedback_triple h t message es : ID t = id → Status t = TaskStatusWaiting →
  triple (kept h (λ t', t' = t) es)
    (e ← op sch (λ n _, UpdateTaskTestRun n id false EmptyString);
     match e with
     | Err e => mret (StoreError e 500)
     | Ok _ =>
       e ← resumeWaitingTaskWithFeedbackLocked sch actor t message TriggerFeedback EmptyString;
       mret (match e with Some e => StoreError e 500 | None => JSON 200 [("status", "resumed")] end)
     end) (feedback_answer h t message es).
Proof.
  intros Hid Hst. eapply triple_bind.
  { apply (kept_mutate _ _ (stage t (λ _, True))). by intros n ? ->. }
  intros [[]|e]; cbv beta.
  - intros w [Hw _]. revert w Hw. eapply triple_bind; [by apply resume_triple|].
    intros [e|]; apply triple_ret; intros w Hw; [right; eauto|by left].
  - apply triple_ret. intros w [[[_ Hc] _] Hr]. right. exists e. split_and!; [done..|]. intros Hh. by specialize (Hr Hh).
Qed.

Lemma calls_every (w : World B) : calls every w = w_effects w.
Proof. unfold calls. induction (w_effects w); [done|]. by rewrite filter_cons, decide_True, IHl. Qed.

(** C13: Feedback on every branch.  A blank message, an unknown task and a task
    that is not waiting are refused with nothing changed and nothing started.  A
    waiting task goes back to work with its test result, its review and its
    count of test failures forgotten, its session, prompt and worktrees kept, and
    exactly one run started with the message; or the store reported a write
    error, which a working backend never does, and no run was started. *)
Theorem SubmitFeedback_spec message w :
  (∀ t, tasks (w_store w) !! id = Some t → ID t = id) →
  let (resp, w') := SubmitFeedback sch actor id message w in
  match feedback_refusal (tasks (w_store w) !! id) message with
  | Some refusal => resp = refusal ∧ w_store w' = w_store w ∧ w_effects w' = w_effects w
  | None =>
    ∃ t, tasks (w_store w) !! id = Some t ∧
    ((resp = JSON 200 [("status", "resumed")] ∧
      w_effects w' = (w_effects w ++ [RunBackground id message (session_of t) true])%list ∧
      ∃ t', tasks (w_store w') !! id = Some t' ∧ resumed t t') ∨
     (∃ e, resp = StoreError e 500 ∧ w_effects w' = w_effects w ∧ ¬ healthy (backend (w_store w))))
  end.
Proof.
  intros Hid. unfold feedback_refusal, SubmitFeedback.
  destruct (bool_decide (TrimSpace message = EmptyString)); [done|].
  rewrite 2 bind_run. unfold get_task, read. cbn [fst snd lock].
  set (w1 := arrive sch _). assert (w_store w1 = w_store w) as E by apply alone.
  assert (w_effects w1 = w_effects w) as Ee by done. clearbody w1. unfold GetTask. rewrite E.
  destruct (tasks (w_store w) !! id) as [t|] eqn:Ht; [|done]. specialize (Hid t eq_refl).
  destruct (bool_decide_reflect (Status t = TaskStatusWaiting)) as [Hst|]; [|by rewrite bind_run].
  cbn [negb]. rewrite bind_run.
  assert (kept (healthy (backend (w_store w))) (λ t', t' = t) (w_effects w) w1) as Hk.
  { split; [split; [exists t; by rewrite E|by rewrite calls_every]|by rewrite E]. }
  apply (feedback_triple _ t message _ Hid Hst) in Hk.
  match type of Hk with feedback_answer _ _ _ _ ?r.1 _ => destruct r as [resp w'] end.
  exists t. split; [done|]. destruct Hk as [(-> & Hr & He)|(e & -> & He & Hn)]; rewrite calls_every in He; [left|right]; eauto.
Qed.
End feedback.

(** ** Cancelling a routine *)

Section cascade.
Context `{UUIDLib} {B : Type} `{!StorageBackend B}.
Variables (sch : Schedule B) (actor : Actor).
Hypothesis alone : solo sch.
Hypothesis covers : ∀ n m i, i ∈ ranges sch n m ↔ is_Some (m !! i).

(** What a cancellation looks at: the status, and what no cancellation changes. *)
Definition face (t : Task) : TaskStatus * (uuid * list string * bool) := (Status t, (ID t, Tags t, Archived t)).
Abbreviation Face := (TaskStatus * (uuid * list string * bool))%type.
Implicit Types (s : Store B) (t : Task) (f g : uuid → option Face) (x : Face).

Definition faces s (i : uuid) : option Face := face <$> tasks s !! i.
Definition viewed f (w : World B) : Prop := ∀ i, faces (w_store w) i = f i.
Definition as_cancelled x : Face := (TaskStatusCancelled, x.2).

Lemma viewed_op {A} f g (m : Z → Z → M (B:=B) A) :
  (∀ n1 n2 s, (∀ i, faces s i = f i) → ∀ i, faces (m n1 n2 s).2 i = g i) →
  triple (viewed f) (op sch m) (λ _, viewed g).
Proof.
  intros Hm w Hw. unfold op. specialize (Hm (clock sch (2 * w_tick w)) (clock sch (2 * w_tick w + 1)) (w_store (arrive sch w))).
  destruct (m _ _ _) as [r s']. intros i. apply Hm. cbn. rewrite alone. exact Hw.
Qed.

(** An operation that changes neither keeps the view. *)
Lemma faces_touches {A} id R (m : M (B:=B) A) s i :
  touches id R m → (∀ t t', R t t' → face t' = face t) → faces (m s).2 i = faces s i.
Proof.
  intros Hm HR. unfold faces. destruct (Hm s) as [-> |(t & t' & Ht & Hr & ->)]; [done|].
  destruct (decide (i = id)) as [-> |Hi]; [|by rewrite lookup_insert_ne].
  rewrite lookup_insert_eq, Ht. apply (f_equal Some). by apply HR.
Qed.

Lemma viewed_touches {A} f id R (m : Z → Z → M (B:=B) A) :
  (∀ n1 n2, touches id R (m n1 n2)) → (∀ t t', R t t' → face t' = face t) → triple (viewed f) (quiet sch m) (λ _, viewed f).
Proof.
  intros Hm HR. apply (triple_bind _ _ _ (λ _, viewed f)); [|intros ?; by apply triple_ret].
  apply viewed_op. intros n1 n2 s Hs i. rewrite (faces_touches id R); [apply Hs|apply Hm|exact HR].
Qed.

Lemma viewed_event f a id ty data : triple (viewed f) (event_as sch a id ty data) (λ _, viewed f).
Proof. apply (viewed_touches f id (λ _ _, False)); [intros; apply touches_InsertEvent|done]. Qed.

Lemma viewed_emit f e : triple (viewed f) (emit e) (λ _, viewed f).
Proof. intros w Hw. exact Hw. Qed.

Lemma faces_orphans order now id s i : faces (removeOrphanedDependents order now id s).2 i = faces s i.
Proof.
  unfold removeOrphanedDependents, TasksDependingOn, mbind at 1, M_bind at 1, bind at 1, gets.
  generalize (filter (λ t, depends_on id t = true) (omap (λ i, tasks s !! i) order)). intros l.
  revert s. induction l as [|d l IH]; [done|]. intros s. cbn [iterM]. unfold mbind, M_bind, bind, ignore. cbv beta.
  rewrite IH. eapply faces_touches; [apply touches_mutate|by intros ?? ->].
Qed.

Abbreviation cancels P f := (λ i, if decide (P i) then as_cancelled <$> f i else f i).

Lemma faces_cancelled order n1 n2 nows id s i : is_Some (tasks s !! id) →
  faces (CancelTask order n1 n2 nows id s).2 i = cancels (λ i, i = id) (faces s) i.
Proof.
  intros [t Ht]. unfold CancelTask, mbind, M_bind, bind. pose proof (force_mem n1 n2 id TaskStatusCancelled s t Ht) as E.
  assert (faces (ForceUpdateTaskStatus n1 n2 id TaskStatusCancelled s).2 i = cancels (λ i, i = id) (faces s) i) as Es.
  { unfold faces. rewrite E. cbv beta. destruct (decide (i = id)) as [-> |Hi]; [|by rewrite lookup_insert_ne].
    by rewrite lookup_insert_eq, Ht. }
  destruct (ForceUpdateTaskStatus _ _ _ _ _) as [[[]|e] s']; [|exact Es]. rewrite faces_orphans. exact Es.
Qed.

Lemma viewed_CancelTask f t : is_Some (f (ID t)) →
  triple (viewed f) (op_range sch (λ order n1 n2, CancelTask order n1 n2 (λ _, n2) (ID t))) (λ _, viewed (cancels (λ i, i = ID t) f)).
Proof.
  intros Hf w Hw. unfold op_range. eapply (viewed_op f (cancels (λ i, i = ID t) f)); [|exact Hw].
  intros n1 n2 s Hs i. cbv beta. rewrite faces_cancelled, Hs; [done|].
  specialize (Hs (ID t)). unfold faces in Hs. rewrite <- Hs in Hf. by apply fmap_is_Some in Hf.
Qed.

Lemma viewed_cancel f t : is_Some (f (ID t)) →
  triple (viewed f) (cancelTaskInternal sch actor t) (λ _, viewed (cancels (λ i, i = ID t) f)).
Proof.
  intros Hf. unfold cancelTaskInternal, closeFeedbackWaitingSpan.
  apply (triple_bind _ _ _ (λ _, viewed f)); [destruct (bool_decide _); [apply viewed_event|by apply triple_ret]|intros ?].
  apply (triple_bind _ _ _ (λ _, viewed f)); [destruct (bool_decide _); [apply viewed_emit|by apply triple_ret]|intros ?].
  eapply triple_bind; [apply viewed_emit|intros ?; cbv beta].
  eapply triple_bind; [by apply viewed_CancelTask|]. cbv beta.
  intros [[]|e]; [|by apply triple_ret]. eapply triple_bind; [apply viewed_event|intros ?; cbv beta].
  apply (triple_bind _ _ _ (λ _, viewed (cancels (λ i, i = ID t) f)));
    [destruct (bool_decide _); [by apply triple_ret|apply viewed_emit]|intros ?; by apply triple_ret].
Qed.

(** A live instance of the routine. *)
Definition instance_of (routine : uuid) x : bool :=
  negb (bool_decide (x.2.1.1 = routine)) && bool_decide (spawn_tag routine ∈ x.2.1.2) && bool_decide (x.1 ∈ live_statuses).

Lemma viewed_children routine ts f : Forall (λ t, is_Some (f (ID t))) ts →
  triple (viewed f) (cancel_children sch actor routine ts)
    (λ _, viewed (cancels (λ i, i ∈ ID <$> filter (λ t, instance_of routine (face t) = true) ts) f)).
Proof.
  revert f. induction ts as [|t ts IH]; intros f Hf; [by apply triple_ret|].
  apply Forall_cons in Hf as [Ht Hf]. cbn [cancel_children]. change (_ && bool_decide (Status t ∈ _)) with (instance_of routine (face t)).
  rewrite filter_cons. destruct (instance_of routine (face t)) eqn:E.
  - rewrite decide_True by done. eapply triple_bind.
    { eapply triple_bind; [by apply viewed_cancel|]. intros ?. by apply (triple_ret _ _ (λ _, viewed (cancels (λ i, i = ID t) f))). }
    intros ?. cbv beta. eapply triple_conseq; [apply IH|done|].
    + eapply Forall_impl; [exact Hf|]. intros u Hu. simpl. destruct (decide _); [by rewrite fmap_is_Some|done].
    + intros ? w Hw i. rewrite (Hw i). rewrite fmap_cons. destruct (decide (i = ID t)) as [-> |Hi].
      * rewrite (decide_True (P := ID t ∈ ID t :: _)) by apply list_elem_of_here. destruct (decide _); [|done]. by destruct (f (ID t)).
      * apply decide_ext. rewrite elem_of_cons. naive_solver.
  - rewrite decide_False by done. apply (triple_bind _ _ _ (λ _, viewed f)); [by apply triple_ret|]. intros ?. by apply IH.
Qed.

(** The instances a cascade reaches: the live ones that are not archived. *)
Definition doomed (routine : uuid) f (i : uuid) : bool :=
  match f i with Some x => negb x.2.2 && instance_of routine x | None => false end.

Definition keyed f : Prop := ∀ i x, f i = Some x → x.2.1.1 = i.

Lemma elem_listed order s f i routine : (∀ i, faces s i = f i) → keyed f → (∀ i, i ∈ order ↔ is_Some (tasks s !! i)) →
  i ∈ ID <$> filter (λ t, instance_of routine (face t) = true) (ListTasks order false s) ↔ doomed routine f i = true.
Proof.
  intros Hs Hk Ho. unfold doomed. rewrite <- Hs. unfold faces. rewrite list_elem_of_fmap. split.
  - intros (t & -> & Ht). rewrite list_elem_of_filter in Ht. destruct Ht as [Hi Ht].
    unfold ListTasks in Ht. rewrite SortFunc_Permutation, list_elem_of_filter in Ht. destruct Ht as [[|Ha] Ht]; [done|].
    unfold range_tasks in Ht. apply list_elem_of_omap in Ht as (j & _ & Hj).
    assert (ID t = j) as -> by (apply (Hk j (face t)); by rewrite <- Hs; unfold faces; rewrite Hj).
    rewrite Hj. simpl. by rewrite Ha, Hi.
  - destruct (tasks s !! i) as [t|] eqn:Ht; [|done]. simpl. rewrite andb_true_iff, negb_true_iff. intros [Ha Hi].
    assert (ID t = i) as E by (apply (Hk i (face t)); by rewrite <- Hs; unfold faces; rewrite Ht).
    exists t. split; [done|]. rewrite list_elem_of_filter. split; [done|].
    unfold ListTasks. rewrite SortFunc_Permutation, list_elem_of_filter. split; [by right|].
    apply list_elem_of_omap. exists i. split; [by apply Ho|done].
Qed.

Lemma viewed_cascade routine f : keyed f →
  triple (viewed f) (cascadeCancelRoutineChildren sch actor routine) (λ _, viewed (cancels (λ i, doomed routine f i = true) f)).
Proof.
  intros Hk w Hw. unfold cascadeCancelRoutineChildren. rewrite bind_run. unfold read_range, read. cbn [fst snd].
  set (w1 := arrive sch w). assert (viewed f w1) as Hw1 by (intros i; unfold w1; cbn; rewrite alone; apply Hw).
  set (ts := ListTasks _ false _). assert (Forall (λ t, is_Some (f (ID t))) ts) as Hts.
  { apply Forall_forall. intros t Ht. unfold ts, ListTasks in Ht. rewrite SortFunc_Permutation, list_elem_of_filter in Ht.
    destruct Ht as [_ Ht]. apply list_elem_of_omap in Ht as (j & _ & Hj).
    specialize (Hw1 j). unfold faces in Hw1. rewrite Hj in Hw1. rewrite (Hk j (face t) (eq_sym Hw1) : ID t = j). by rewrite <- Hw1. }
  pose proof (viewed_children routine ts f Hts w1 Hw1) as Hc. intros i. rewrite (Hc i). apply decide_ext.
  apply elem_listed; [done|done|apply covers].
Qed.

Lemma stable_view f : stable sch (λ s, ∀ i, faces s i = f i).
Proof. intros b n s Hs i. rewrite alone. apply Hs. Qed.

Lemma viewed_enabled f id b : preserves (λ s, ∀ i, faces s i = f i) (op sch (λ n _, UpdateRoutineEnabled n id b)).
Proof.
  apply viewed_op. intros n1 n2 s Hs i. unfold UpdateRoutineEnabled.
  erewrite (faces_touches id); [apply Hs|apply touches_routine|by intros ?? ->].
Qed.

Lemma viewed_enabled_quiet f id b : triple (viewed f) (quiet sch (λ n _, UpdateRoutineEnabled n id b)) (λ _, viewed f).
Proof. eapply triple_bind; [apply (viewed_enabled f)|intros ?; by apply triple_ret]. Qed.

Lemma viewed_disable f t : triple (viewed f) (cascadeDisableRoutineIfLastLiveInstance sch actor t) (λ _, viewed f).
Proof.
  change (preserves (λ s, ∀ i, faces s i = f i) (cascadeDisableRoutineIfLastLiveInstance sch actor t)).
  unfold cascadeDisableRoutineIfLastLiveInstance. destruct (spawnedByRoutineID t) as [r|]; [|apply preserves_ret].
  apply preserves_bind; [apply preserves_read, stable_view|]. intros [u|e]; [|apply preserves_ret].
  destruct (negb (IsRoutine u)); [apply preserves_ret|]. destruct (_ || _); [apply preserves_ret|].
  apply preserves_bind; [intros w Hw; apply (stable_view f _ _ _ Hw)|]. intros ts. destruct (existsb _ _); [apply preserves_ret|].
  apply preserves_bind; [apply viewed_enabled|]. intros [?|?]; [|apply preserves_ret].
  apply preserves_bind; [apply preserves_emit|]. intros ?. apply viewed_event.
Qed.

Abbreviation cancelled_by t f e := (λ i, i = ID t ∨ (e = None ∧ IsRoutine t = true ∧ doomed (ID t) f i = true)).

Lemma doomed_rest t f i : keyed f →
  doomed (ID t) (cancels (λ i, i = ID t) f) i = true ↔ i ≠ ID t ∧ doomed (ID t) f i = true.
Proof.
  intros Hk. unfold doomed. destruct (decide (i = ID t)) as [-> |Hi]; [|naive_solver].
  split; [|naive_solver]. destruct (f (ID t)) as [x|] eqn:Ex; [|done]. simpl. unfold instance_of. cbn [as_cancelled snd].
  rewrite (Hk _ _ Ex), bool_decide_true by done. simpl. by rewrite andb_false_r.
Qed.

(** The cascade after the cancellation of the routine itself. *)
Lemma viewed_after t f : keyed f → triple (viewed (cancels (λ i, i = ID t) f))
  (if IsRoutine t then
     cascadeCancelRoutineChildren sch actor (ID t) ;;
     quiet sch (λ n _, UpdateRoutineEnabled n (ID t) false) ;;
     emit (UnregisterRoutine (ID t))
   else mret tt) (λ _, viewed (cancels (cancelled_by t f (@None store_error)) f)).
Proof.
  intros Hk. set (f1 := cancels (λ i, i = ID t) f). assert (keyed f1) as Hk1.
  { intros i x. unfold f1. destruct (decide (i = ID t)); [|apply Hk]. destruct (f i) as [y|] eqn:Ey; [|done].
    intros [= <-]. by apply (Hk _ _ Ey). }
  destruct (IsRoutine t).
  - eapply (triple_bind _ _ _ (λ _, _)); [by apply viewed_cascade|intros ?]. cbv beta.
    eapply triple_bind; [apply viewed_enabled_quiet|intros ?; cbv beta].
    intros w Hw i. simpl. rewrite (Hw i). pose proof (doomed_rest t f i Hk) as Hd.
    destruct (decide (doomed _ _ _ = true)) as [D|D]; destruct (decide (i = ID t ∨ _)) as [D'|D'];
      unfold f1; destruct (decide (i = ID t)); try (by naive_solver); by destruct (f i).
  - apply triple_ret. intros w Hw i. rewrite (Hw i). apply decide_ext. naive_solver.
Qed.

Lemma viewed_applyCancel t f : keyed f → is_Some (f (ID t)) →
  triple (viewed f) (applyCancel sch actor t) (λ e, viewed (cancels (cancelled_by t f e) f)).
Proof.
  intros Hk Ht. unfold applyCancel. eapply triple_bind; [by apply viewed_cancel|]. cbv beta. intros [e|].
  - apply triple_ret. intros w Hw i. rewrite (Hw i). apply decide_ext. naive_solver.
  - apply (triple_bind _ _ _ (λ _, viewed (cancels (λ i, i = ID t) f))).
    { destruct (bool_decide _); [apply viewed_emit|by apply triple_ret]. }
    intros ?. eapply triple_bind; [by apply viewed_after|intros ?; cbv beta].
    eapply triple_bind; [apply viewed_disable|intros ?; cbv beta]. by apply triple_ret.
Qed.

(** C15: Cancelling a task cancels it in memory and, when it is a routine whose
    cancellation was saved, every live instance it spawned that is not archived;
    no other task changes its status, whether the saves succeed or not. *)
Theorem applyCancel_spec tbl t w : store_wf tbl (w_store w) → tasks (w_store w) !! ID t = Some t →
  let (e, w') := applyCancel sch actor t w in
  ∀ i, faces (w_store w') i = cancels (cancelled_by t (faces (w_store w)) e) (faces (w_store w)) i.
Proof.
  intros Hwf Ht. pose proof (viewed_applyCancel t (faces (w_store w))) as Hc.
  unfold triple in Hc. specialize (λ H1 H2, Hc H1 H2 w (λ _, eq_refl)). destruct (applyCancel sch actor t w) as [e w'].
  apply Hc; [|unfold faces; by rewrite Ht]. intros i x. unfold faces. destruct (tasks _ !! i) as [u|] eqn:Hu; [|done].
  intros [= <-]. by apply (wf_ids _ _ Hwf).
Qed.
End cascade.

(** ** Concrete runs and interleavings *)

Module ExecuteRun.
#[local] Existing Instance text_uuid.
Import RunnerRun.

Definition waiting : Task := task <| Status := TaskStatusWaiting |> <| LastTestResult := "fail" |> <| TestFailCount := 2 |>.
Definition committing : Task := task <| Status := TaskStatusCommitting |>.

Definition answers : Execute.Answers := MkAnswers (λ m, (map_to_list m).*1) (λ _, true) (inl (MkErr "ensure" false false)) None
  (λ _, EmptyString) (λ p _ _ _, p).

(** The pipeline fails for want of a commit message. *)
Definition no_message : Execute.Answers := MkAnswers (λ m, (map_to_list m).*1) (λ _, true) (inl (MkErr "ensure" false false))
  (Some (MkErr "message" false false, true)) (λ _, EmptyString) (λ p _ _ _, p).


Lemma SubmitFeedback_spec_witness :
  feedback_refusal (tasks (w_store (world waiting [])) !! idA) "try again" = None ∧
  let (resp, w') := SubmitFeedback alone no_actor idA "try again" (world waiting []) in
  match feedback_refusal (tasks (w_store (world waiting [])) !! idA) "try again" with
  | Some refusal => resp = refusal ∧ w_store w' = w_store (world waiting []) ∧ w_effects w' = w_effects (world waiting [])
  | None =>
    ∃ t, tasks (w_store (world waiting [])) !! idA = Some t ∧
    ((resp = JSON 200 [("status", "resumed")] ∧
      w_effects w' = (w_effects (world waiting []) ++ [RunBackground idA "try again" (session_of t) true])%list ∧
      ∃ t', tasks (w_store w') !! idA = Some t' ∧ resumed t t') ∨
     (∃ e, resp = StoreError e 500 ∧ w_effects w' = w_effects (world waiting []) ∧ ¬ healthy (backend (w_store (world waiting [])))))
  end.
Proof.
  split; [vm_compute; reflexivity|].
  apply (SubmitFeedback_spec alone no_actor idA (λ _ _ _, eq_refl) "try again" (world waiting [])).
  intros t Ht. vm_compute in Ht. injection Ht as <-. vm_compute. reflexivity.
Defined.

(** A routine and a live instance of it. *)
Definition idR : @uuid text_uuid := "R".
Definition routine : Task := task <| ID := idR |> <| Kind := TaskKindRoutine |> <| Status := TaskStatusBacklog |>.
Definition child : Task := waiting <| Tags := ["spawned-by:R"] |>.

Definition family : Store MemBackend :=
  match NewStore id (Mem (Contents {[idR := routine; idA := child]} ∅ ∅) []) 10 10 10 100 with
  | Ok s => s
  | Err _ => fresh_store (Mem (Contents ∅ ∅ ∅) []) 0 0 0 0
  end.

Lemma family_wf : store_wf id family.
Proof.
  unfold family. destruct (NewStore _ _ _ _ _ _) as [s|e] eqn:E.
  - apply (NewStore_wf id _ 10 10 10 100 s) in E; [done|]. intros i t. cbn.
    intros [[<- <-]|[_ [<- <-]%lookup_singleton_Some]]%lookup_insert_Some; reflexivity.
  - apply (NewStore_wf id (Mem (Contents ∅ ∅ ∅) []) 0 0 0 0); [|done]. intros i u. cbn. by rewrite lookup_empty.
Qed.

Definition family_world : World MemBackend := MkWorld family 0 [] false ∅ ∅.
Definition parent : Task := default zero_Task (tasks family !! idR).

Lemma any_order_covers n (m : gmap (@uuid text_uuid) Task) i : i ∈ any_order n m ↔ is_Some (m !! i).
Proof.
  unfold any_order. rewrite list_elem_of_fmap. split.
  - intros ([j t] & -> & Hj%elem_of_map_to_list). by eexists.
  - intros [t Ht]. exists (i, t). split; [done|]. by apply elem_of_map_to_list.
Qed.

Lemma applyCancel_spec_witness :
  IsRoutine parent = true ∧ doomed idR (faces family) idA = true ∧
  let (e, w') := applyCancel alone no_actor parent family_world in
  ∀ i, faces (w_store w') i =
    if decide (i = ID parent ∨ (e = None ∧ IsRoutine parent = true ∧ doomed (ID parent) (faces family) i = true))
    then as_cancelled <$> faces family i else faces family i.
Proof.
  split; [vm_compute; reflexivity|]. split; [vm_compute; reflexivity|].
  apply (applyCancel_spec alone no_actor (λ _ _ _, eq_refl) any_order_covers id parent family_world family_wf).
  vm_compute. reflexivity.
Defined.

(** The routine and its instance end cancelled. *)
Lemma family_cancelled :
  Status <$> tasks (w_store (applyCancel alone no_actor parent family_world).2) = {[idR := TaskStatusCancelled; idA := TaskStatusCancelled]}.
Proof. vm_compute. reflexivity. Qed.

(** ** Checks that are not one step with the write that follows *)

(** Another goroutine runs [m] before the [n]-th operation. *)
Definition meanwhile (n : nat) (m : M (B:=MemBackend) unit) : Schedule MemBackend :=
  MkSchedule (λ _ k s, if Nat.eqb k n then (m s).2 else s) Z.of_nat any_order.

Definition outcome {A} (r : A * World MemBackend) := (r.1, Status <$> tasks (w_store r.2) !! idA, w_effects r.2).

(** The sync checks the status before it takes the lock: a task that began
    committing in between is forced back to in progress. *)
Lemma sync_overrides_commit :
  outcome (SyncTask (meanwhile 1 (ForceUpdateTaskStatus 5 5 idA TaskStatusCommitting)) no_actor idA (world waiting [])) =
  (JSON 200 [("status", "syncing")], Some TaskStatusInProgress,
   [InvalidateDiff idA; SyncWorktreesBackground idA "impl" TaskStatusWaiting]).
Proof. vm_compute. reflexivity. Qed.

(** Cancelling takes no lock: a cancellation inside [CompleteTask] is forced to
    committing, and the commit runs. *)
Lemma complete_overrides_cancel :
  outcome (CompleteTask (meanwhile 2 (λ s, CancelTask [] 5 5 (λ _, 5) idA s)) answers no_actor idA (world waiting [])) =
  (JSON 200 [("status", "ok")], Some TaskStatusCommitting, [CommitTransition idA "impl" TriggerUser "commit failed: "]).
Proof. vm_compute. reflexivity. Qed.

(** The save of the new status fails: the answer is an error, the task in
    memory is in progress, and no run was started. *)
Lemma feedback_strands_task : ∃ e,
  outcome (SubmitFeedback alone no_actor idA "try again" (world waiting [false; false; false; false; false; false; false; false; false; true])) =
  (StoreError e 500, Some TaskStatusInProgress, []).
Proof. eexists. vm_compute. reflexivity. Qed.
End ExecuteRun.
