(* ===== verification/Automation.v ===== *)
(** * The watchers (internal/handler: tasks_autoimplement.go, watcher.go; limits of handler.go)

    The scans that promote, resume, retry, sync, test, submit and review tasks
    on their own.  Each watcher collects candidates without [promoteMu] (its
    phase 1) and acts on them with the mutex held (phase 2, [runTwoPhase]);
    between the phases and between any two store operations the schedule of
    World.v runs the other goroutines.  The toggles, limits and the answers of
    git and of the agent sessions may change over time: [Settings] gives them at
    each position of the clock. *)

From S2P Require Import Prelude Breaker StateMachine GoStrings GoText PkgUtil TaskModel Backend Store StoreUpdate StoreWf StoreSpec StoreQuery Verdict World WorldRules Runner Execute.
From Stdlib Require Import String.
From stdpp Require Import list gmap sorting.
Local Open Scope Z_scope.
Local Open Scope string_scope.
#[local] Arguments String.append : simpl nomatch.

(** A repository of a task and its worktree, as git sees them. *)
Record RepoState := MkRepoState {
  (** [IsGitRepo(repo) && HasOriginRemote(repo)]. *)
  has_remote : bool;
  (** The worktree exists, and is a git repository. *)
  wt_stat : bool;
  wt_is_repo : bool;
  FetchOrigin : option goErr;
  (** [CommitsBehind]; [None] for an error. *)
  behind : option Z;
  (** [HasConflicts]; [None] for an error. *)
  conflicts : option bool
}.

Record Settings `{UUIDLib} := MkSettings {
  AutoimplementEnabled : nat → bool;
  AutotestEnabled : nat → bool;
  AutosubmitEnabled : nat → bool;
  AutosyncEnabled : nat → bool;
  ReviewEnabled : nat → bool;
  (** The limit of the workspace group, and the default of the env file. *)
  group_parallel : nat → option Z;
  group_test_parallel : nat → option Z;
  cachedMaxParallel : nat → Z;
  cachedMaxTestParallel : nat → Z;
  isTaskLockedByAgent : nat → uuid → bool;
  ContainerCircuitAllow : nat → bool;
  repo_state : nat → string → string → RepoState
}.
Arguments MkSettings {_}.

Definition MaxInt32 : Z := 2147483647.

(** [currentGroupParallelLimit]: an override of 0 means no limit. *)
Definition group_limit (v : option Z) : option Z :=
  match v with
  | None => None
  | Some n => Some (if Z.eqb n 0 then MaxInt32 else n)
  end.

Definition maxConcurrentTasks `{UUIDLib} (st : Settings) (n : nat) : Z :=
  match group_limit (group_parallel st n) with Some v => v | None => cachedMaxParallel st n end.
Definition maxTestConcurrentTasks `{UUIDLib} (st : Settings) (n : nat) : Z :=
  match group_limit (group_test_parallel st n) with Some v => v | None => cachedMaxTestParallel st n end.

Definition MaxTestFailRetries : Z := 3.
Definition FetchErrorGracePeriod : Z := 300000000000.

Definition retryableCategories : list FailureCategory :=
  [FailureCategoryContainerCrash; FailureCategoryWorktree; FailureCategorySyncError].

(** [autoPromoteCandidate]. *)
Record candidate `{UUIDLib} := MkCandidate { c_task : Task; isResume : bool; c_feedback : string }.
Arguments MkCandidate {_}.

(** A backlog task with its critical path score, and the order of promotion:
    higher scores first, then position and age. *)
Definition scored `{UUIDLib} : Type := Task * Z.

Definition cp_before `{UUIDLib} (a b : scored) : Prop :=
  b.2 < a.2 ∨ (a.2 = b.2 ∧ cmpTaskPositionCreatedAt a.1 b.1).
#[export] Instance cp_before_dec `{UUIDLib} : RelDecision cp_before.
Proof. intros a b. unfold cp_before. apply _. Defined.

Section automation.
Context `{UUIDLib} {B : Type} `{!StorageBackend B} (tbl : Z → Z).
(** [err_text] is [Error()] of the store's errors. *)
Variables (sch : Schedule B) (ans : Answers) (st : Settings) (err_text : store_error → string).
Abbreviation W := (W (B:=B)).
Abbreviation op := (op sch).
Abbreviation quiet := (quiet sch).
Abbreviation get_task := (get_task sch).
Abbreviation log id ty data := (event_as sch no_actor id ty data).
Abbreviation change id from to trigger := (state_change sch no_actor id from to trigger).
Abbreviation missing := (missingTaskWorktrees ans).

Definition runTwoPhase {C} (phase1 : W (list C)) (phase2 : list C → W bool) : W unit :=
  candidates ← phase1;
  match candidates with
  | [] => mret tt
  | _ =>
    lock ;;
    _ ← phase2 candidates;
    unlock
  end.

Definition countGlobalInProgress : W Z := read_range sch CountRegularInProgress.

Definition countGlobalTestsInProgress : W Z :=
  ts ← read_range sch (λ order, ListTasksByStatus order TaskStatusInProgress);
  mret (Z.of_nat (length (filter (λ t, IsTestRun t = true) (ts : list Task)))).

(** [checkConcurrencyAndUpdateStatus]; [None] on success. *)
Definition checkConcurrencyAndUpdateStatus (id : uuid) (newStatus : TaskStatus) : W (option Response) :=
  lock ;;
  regularInProgress ← countGlobalInProgress;
  limit ← ask sch (maxConcurrentTasks st);
  r ← if Z.leb limit regularInProgress then
        shown ← ask sch (maxConcurrentTasks st);
        mret (Some (HttpError ("max concurrent tasks (" +:+ pretty_Z shown +:+ ") reached") 409))
      else
        e ← op (status_to id newStatus);
        mret (match e with
              | Ok _ => None
              | Err (ErrTransition _ _ as e) => Some (StoreError e 400)
              | Err e => Some (StoreError e 500)
              end);
  unlock ;;
  mret r.

(** ** Promotion *)

(** A waiting task whose failed test is to be fed back to its agent. *)
Definition resume_eligible (t : Task) : bool :=
  negb (IsTestRun t) && negb (bool_decide (PendingTestFeedback t = EmptyString)) &&
  bool_decide (LastTestResult t = "fail") && negb (bool_decide (session_of t = EmptyString)) &&
  Z.ltb (TestFailCount t) MaxTestFailRetries.

Definition may_start (t : Task) : W bool :=
  deps ← read sch (AreDependenciesSatisfied (ID t));
  match deps with
  | Ok true =>
    locked ← ask sch (λ n, isTaskLockedByAgent st n (ID t));
    mret (negb locked)
  | _ => mret false
  end.

(** The task is scheduled for later than [n]. *)
Definition due_later (t : Task) (n : Z) : option Z :=
  match ScheduledAt t with
  | Some due => if Z.ltb n due then Some due else None
  | None => None
  end.

Definition earliest (next : option Z) (due : Z) : option Z :=
  match next with
  | Some d => if Z.ltb due d then Some due else next
  | None => Some due
  end.

(** The tasks of the backlog that may start, and the earliest time at which a
    scheduled one is due. *)
Fixpoint startable (ts : list Task) (next : option Z) : W (list Task * option Z) :=
  match ts with
  | [] => mret ([], next)
  | t :: rest =>
    if IsRoutine t then startable rest next
    else
      n ← now sch;
      match due_later t n with
      | Some due => startable rest (earliest next due)
      | None =>
        ok ← may_start t;
        r ← startable rest next;
        mret (if (ok : bool) then (t :: r.1, r.2) else r)
      end
  end.

(** [ensureScheduledPromoteTrigger]: a timer for a time that is not past. *)
Definition ensureScheduledPromoteTrigger (due : Z) : W unit :=
  n ← now sch;
  if Z.leb (due - n) 0 then mret tt else emit (ArmPromoteTimer due).

(** The [slots] best of the scored tasks. *)
Definition best (slots : Z) (l : list scored) : list Task := (take (Z.to_nat slots) (merge_sort cp_before l)).*1.

Definition promote_backlog_candidates (slots : Z) : W (list candidate) :=
  backlog ← read_range sch (λ order, ListTasksByStatus order TaskStatusBacklog);
  r ← startable backlog None;
  scores ← read_range sch (λ order, CriticalPathScores order (ID <$> (r.1 : list Task)));
  (match r.2 with Some due => ensureScheduledPromoteTrigger due | None => mret tt end) ;;
  let score t := default 0 (default ∅ scores !! ID t) in
  mret ((λ t, MkCandidate t false EmptyString) <$> best slots ((λ t, (t, score t)) <$> r.1)).

Definition promote_phase1 : W (list candidate) :=
  waiting ← read_range sch (λ order, ListTasksByStatus order TaskStatusWaiting);
  let resumes := (λ t, MkCandidate t true (PendingTestFeedback t)) <$> filter (λ t, resume_eligible t = true) (waiting : list Task) in
  regularInProgress ← countGlobalInProgress;
  limit ← ask sch (maxConcurrentTasks st);
  let slots := limit - regularInProgress in
  if Z.leb slots 0 then mret resumes
  else
    fresh ← promote_backlog_candidates slots;
    mret (resumes ++ fresh)%list.

(** A resume in phase 2, with the fresh task. *)
Definition resume_candidate (id : uuid) : W bool :=
  r ← get_task id;
  match r with
  | Err _ => mret false
  | Ok t =>
    if negb (bool_decide (Status t = TaskStatusWaiting)) || IsTestRun t || negb (bool_decide (LastTestResult t = "fail")) ||
       bool_decide (PendingTestFeedback t = EmptyString) then mret false
    else if bool_decide (session_of t = EmptyString) then mret false
    else if Z.leb MaxTestFailRetries (TestFailCount t) then
      log (ID t) EventTypeSystem (payload [("result", "Auto-resume halted: " +:+ pretty_Z (TestFailCount t) +:+
        " consecutive test failures (cap: " +:+ pretty_Z MaxTestFailRetries +:+ "). Manual feedback required to continue.")]) ;;
      mret false
    else
      e ← resumeWaitingTaskWithFeedbackLocked sch no_actor t (PendingTestFeedback t) TriggerFeedback
            "Autoimplement: resuming task with failed test feedback.";
      match e with
      | Some e => recordFailure sch "auto-promote" (Some (ID t)) (err_text e) ;; mret false
      | None => recordSuccess "auto-promote" ;; mret true
      end
  end.

(** A promotion from the backlog in phase 2: [None] when the scan stops here. *)
Definition promote_candidate (t : Task) : W (option bool) :=
  freshInProgress ← countGlobalInProgress;
  limit ← ask sch (maxConcurrentTasks st);
  if Z.leb limit freshInProgress then mret None
  else
    allow ← ask sch (ContainerCircuitAllow st);
    if negb allow then mret None
    else
      locked ← ask sch (λ n, isTaskLockedByAgent st n (ID t));
      if (locked : bool) then mret (Some false)
      else
        e ← op (status_to (ID t) TaskStatusInProgress);
        match e with
        | Err e => recordFailure sch "auto-promote" (Some (ID t)) (err_text e) ;; mret (Some false)
        | Ok _ =>
          change (ID t) TaskStatusBacklog TaskStatusInProgress TriggerAutoPromote ;;
          emit (ArchiveThreads (ID t)) ;;
          emit (RunBackground (ID t) (Prompt t) (if FreshStart t then EmptyString else session_of t) false) ;;
          recordSuccess "auto-promote" ;;
          mret (Some true)
        end.

Fixpoint promote_phase2 (cs : list candidate) : W bool :=
  match cs with
  | [] => mret false
  | c :: rest =>
    if isResume c then
      done ← resume_candidate (ID (c_task c));
      more ← promote_phase2 rest;
      mret (done || more)
    else
      r ← promote_candidate (c_task c);
      match r with
      | None => mret false
      | Some done => more ← promote_phase2 rest; mret (done || more)
      end
  end.

Definition enabled (toggle : nat → bool) (breaker : string) : W bool :=
  on ← ask sch toggle;
  if negb on then mret false
  else isopen ← breaker_isOpen sch breaker; mret (negb isopen).

Definition tryAutoPromote : W unit :=
  on ← enabled (AutoimplementEnabled st) "auto-promote";
  if negb on then mret tt else runTwoPhase promote_phase1 promote_phase2.

(** ** Retries *)

Definition tryAutoRetry (t : Task) : W unit :=
  let category := TaskFailureCategory t in
  if negb (bool_decide (Status t = TaskStatusFailed)) then mret tt
  else if negb (bool_decide (category ∈ retryableCategories)) then mret tt
  else
    isopen ← breaker_isOpen sch "auto-retry";
    if (isopen : bool) then mret tt
    else if Z.leb (budget_of t category) 0 then mret tt
    else if Z.leb MaxAutoRetries (AutoRetryCount t) then mret tt
    else
      allow ← if bool_decide (category = FailureCategoryContainerCrash) then ask sch (ContainerCircuitAllow st) else mret true;
      if negb allow then mret tt
      else
        e ← op (λ n1 n2, ResetTaskForRetry tbl n1 n2 (ID t) (Prompt t) false);
        match e with
        | Err e => recordFailure sch "auto-retry" (Some (ID t)) (err_text e)
        | Ok _ =>
          recordSuccess "auto-retry" ;;
          event_as sch no_actor (ID t) EventTypeStateChange
            (NewStateChangeData TaskStatusFailed TaskStatusBacklog TriggerAutoRetry [("failure_category", category)])
        end.

Fixpoint retry_each (ts : list Task) : W unit :=
  match ts with
  | [] => mret tt
  | t :: rest => tryAutoRetry t ;; retry_each rest
  end.

(** The scan of [StartAutoRetrier]. *)
Definition retryAll : W unit :=
  failed ← read_range sch (λ order, ListTasksByStatus order TaskStatusFailed);
  retry_each failed.

(** ** Syncing waiting tasks *)

(** The worktrees of a task: whether a fetch failed, and whether one is behind. *)
Fixpoint sync_scan (id : uuid) (paths : list (string * string)) : W (bool * bool) :=
  match paths with
  | [] => mret (false, false)
  | (repo, wt) :: rest =>
    g ← ask sch (λ n, repo_state st n repo wt);
    if negb (has_remote g && wt_stat g && wt_is_repo g) then sync_scan id rest
    else match FetchOrigin g with
         | Some err => quiet (λ n1 n2, RecordFetchFailure n1 n2 id (Error err)) ;; mret (true, false)
         | None =>
           match behind g with
           | None => sync_scan id rest
           | Some n => if Z.ltb 0 n then mret (false, true) else sync_scan id rest
           end
         end
  end.

Definition worktrees (t : Task) : list (string * string) :=
  omap (λ repo, pair repo <$> WorktreePaths t !! repo) (path_order ans (WorktreePaths t)).

Fixpoint sync_candidates (ts : list Task) : W (list Task) :=
  match ts with
  | [] => mret []
  | t :: rest =>
    if bool_decide (WorktreePaths t = ∅) then sync_candidates rest
    else
      r ← sync_scan (ID t) (worktrees t);
      if (r : bool * bool).1 then sync_candidates rest
      else
        quiet (λ n _, ClearFetchFailure n (ID t)) ;;
        more ← sync_candidates rest;
        mret (if r.2 then t :: more else more)
  end.

Definition sync_candidate (t : Task) : W unit :=
  lock ;;
  r ← get_task (ID t);
  match r with
  | Err _ => unlock
  | Ok ft =>
    if negb (bool_decide (Status ft = TaskStatusWaiting)) then unlock
    else
      e ← op (status_to (ID t) TaskStatusInProgress);
      match e with
      | Err e => unlock ;; recordFailure sch "auto-sync" (Some (ID t)) (err_text e)
      | Ok _ =>
        change (ID t) TaskStatusWaiting TaskStatusInProgress TriggerSync ;;
        log (ID t) EventTypeSystem (payload [("result", "Auto-syncing: worktree is behind the default branch.")]) ;;
        emit (InvalidateDiff (ID t)) ;;
        unlock ;;
        emit (SyncWorktreesBackground (ID t) (session_of t) TaskStatusWaiting)
      end
  end.

Fixpoint sync_each (ts : list Task) : W unit :=
  match ts with
  | [] => mret tt
  | t :: rest => sync_candidate t ;; sync_each rest
  end.

Definition success_unless_open (name : string) : W unit :=
  isopen ← breaker_isOpen sch name;
  if (isopen : bool) then mret tt else recordSuccess name.

Definition checkAndSyncWaitingTasks : W unit :=
  on ← enabled (AutosyncEnabled st) "auto-sync";
  if negb on then mret tt
  else
    waiting ← read_range sch (λ order, ListTasksByStatus order TaskStatusWaiting);
    cs ← sync_candidates waiting;
    sync_each cs ;;
    success_unless_open "auto-sync".

(** ** Tests *)

Definition reviewSupersedesTest (t : Task) : W bool :=
  on ← ask sch (ReviewEnabled st);
  mret (on && negb (bool_decide (session_of t = EmptyString))).

(** Some worktree is behind, or git could not tell. *)
Fixpoint test_behind (paths : list (string * string)) : W bool :=
  match paths with
  | [] => mret false
  | (repo, wt) :: rest =>
    g ← ask sch (λ n, repo_state st n repo wt);
    if negb (has_remote g) then test_behind rest
    else match behind g with
         | None => mret true
         | Some n => if Z.ltb 0 n then mret true else test_behind rest
         end
  end.

Fixpoint test_candidates (ts : list Task) : W (list (Task * string)) :=
  match ts with
  | [] => mret []
  | t :: rest =>
    if negb (bool_decide (LastTestResult t = EmptyString)) || IsTestRun t then test_candidates rest
    else
      superseded ← reviewSupersedesTest t;
      if (superseded : bool) || bool_decide (WorktreePaths t = ∅) || negb (bool_decide (missing t = [])) then test_candidates rest
      else
        late ← test_behind (worktrees t);
        if (late : bool) then test_candidates rest
        else
          more ← test_candidates rest;
          mret ((t, test_prompt_of ans t (Criteria t)) :: more)
  end.

Definition test_phase1 : W (list (Task * string)) :=
  waiting ← read_range sch (λ order, ListTasksByStatus order TaskStatusWaiting);
  test_candidates waiting.

(** One test candidate: whether its test was started. *)
Definition test_candidate (id : uuid) (prompt : string) : W bool :=
  r ← get_task id;
  match r with
  | Err _ => mret false
  | Ok ft =>
    if negb (bool_decide (Status ft = TaskStatusWaiting)) || negb (bool_decide (LastTestResult ft = EmptyString)) || IsTestRun ft
    then mret false
    else if bool_decide (WorktreePaths ft = ∅) || negb (bool_decide (missing ft = [])) then mret false
    else
      e ← op (λ n _, UpdateTaskTestRun n id true EmptyString);
      match e with
      | Err e => recordFailure sch "auto-test" (Some id) (err_text e) ;; mret false
      | Ok _ =>
        e ← op (status_to id TaskStatusInProgress);
        match e with
        | Err e =>
          recordFailure sch "auto-test" (Some id) (err_text e) ;;
          quiet (λ n _, UpdateTaskTestRun n id false EmptyString) ;;
          mret false
        | Ok _ =>
          closeFeedbackWaitingSpan sch no_actor id ;;
          change id TaskStatusWaiting TaskStatusInProgress TriggerAutoTest ;;
          log id EventTypeSystem (payload [("result", "Auto-test: triggering test verification agent.")]) ;;
          emit (RunBackground id prompt EmptyString false) ;;
          mret true
        end
      end
  end.

Fixpoint test_each (limit testInProgress : Z) (cs : list (Task * string)) : W bool :=
  match cs with
  | [] => mret false
  | (t, prompt) :: rest =>
    if Z.leb limit testInProgress then mret false
    else
      done ← test_candidate (ID t) prompt;
      more ← test_each limit (if (done : bool) then testInProgress + 1 else testInProgress) rest;
      mret (done || more)
  end.

Definition test_phase2 (cs : list (Task * string)) : W bool :=
  testInProgress ← countGlobalTestsInProgress;
  limit ← ask sch (maxTestConcurrentTasks st);
  triggered ← test_each limit testInProgress cs;
  success_unless_open "auto-test" ;;
  mret triggered.

Definition tryAutoTest : W unit :=
  on ← enabled (AutotestEnabled st) "auto-test";
  if negb on then mret tt else runTwoPhase test_phase1 test_phase2.

(** ** Submission *)

(** The worktrees of a candidate: whether it is to be skipped, and whether a
    repository has a remote. *)
Fixpoint submit_scan (paths : list (string * string)) (remote : bool) : W (bool * bool) :=
  match paths with
  | [] => mret (false, remote)
  | (repo, wt) :: rest =>
    g ← ask sch (λ n, repo_state st n repo wt);
    if negb (has_remote g) then submit_scan rest remote
    else if negb (wt_is_repo g) then mret (true, true)
    else match behind g with
         | None => mret (true, true)
         | Some n =>
           if Z.ltb 0 n then mret (true, true)
           else match conflicts g with
                | Some false => submit_scan rest true
                | _ => mret (true, true)
                end
         end
  end.

(** Verified, or ended on its own while tests are off. *)
Definition submit_verdict (t : Task) : W (bool * bool) :=
  gate ← reviewSupersedesTest t;
  if (gate : bool) then mret (bool_decide (ReviewUnresolved t = Some 0), false)
  else
    testing ← ask sch (AutotestEnabled st);
    mret (bool_decide (LastTestResult t = "pass"),
          bool_decide (StopReason t = Some "end_turn") && bool_decide (LastTestResult t = EmptyString) && negb testing).

Definition recently (failed : option Z) : W bool :=
  n ← now sch;
  mret (match failed with Some at_ => Z.ltb (n - at_) FetchErrorGracePeriod | None => false end).

Fixpoint submit_candidates (ts : list Task) : W (list (Task * bool)) :=
  match ts with
  | [] => mret []
  | t :: rest =>
    if negb (bool_decide (Status t = TaskStatusWaiting)) then submit_candidates rest
    else
      v ← submit_verdict t;
      let '(tested, naturallyComplete) := (v : bool * bool) in
      if negb tested && negb naturallyComplete then submit_candidates rest
      else if IsTestRun t || bool_decide (WorktreePaths t = ∅) || negb (bool_decide (missing t = [])) then submit_candidates rest
      else
        r ← submit_scan (worktrees t) false;
        if (r : bool * bool).1 then submit_candidates rest
        else
          stale ← recently (LastFetchErrorAt t);
          if r.2 && stale then submit_candidates rest
          else
            more ← submit_candidates rest;
            mret ((t, naturallyComplete) :: more)
  end.

Definition submit_phase1 : W (list (Task * bool)) :=
  ts ← read_range sch (λ order, ListTasks order false);
  submit_candidates ts.

Definition submitAutoSubmitCandidate (id : uuid) (naturallyComplete : bool) : W bool :=
  r ← get_task id;
  match r with
  | Err _ => mret false
  | Ok t =>
    if negb (bool_decide (Status t = TaskStatusWaiting)) || IsTestRun t then mret false
    else if bool_decide (WorktreePaths t = ∅) || negb (bool_decide (missing t = [])) then mret false
    else
      log (ID t) EventTypeSystem (payload [("result",
        if naturallyComplete then "Auto-submit: task naturally completed, up to date, and no conflicts."
        else "Auto-submit: task verified with passing tests, up to date, and no conflicts.")]) ;;
      closeFeedbackWaitingSpan sch no_actor (ID t) ;;
      if negb (bool_decide (session_of t = EmptyString)) then
        e ← op (status_to (ID t) TaskStatusCommitting);
        match e with
        | Err e => recordFailure sch "auto-submit" (Some (ID t)) (err_text e) ;; mret false
        | Ok _ =>
          change (ID t) TaskStatusWaiting TaskStatusCommitting TriggerAutoSubmit ;;
          emit (CommitTransition (ID t) (session_of t) TriggerAutoSubmit "auto-submit: commit failed: ") ;;
          mret true
        end
      else
        emit (StopTaskWorker (ID t)) ;;
        e ← op (λ n1 n2, ForceUpdateTaskStatus n1 n2 (ID t) TaskStatusDone);
        match e with
        | Err e => recordFailure sch "auto-submit" (Some (ID t)) (err_text e) ;; mret false
        | Ok _ => change (ID t) TaskStatusWaiting TaskStatusDone TriggerAutoSubmit ;; mret true
        end
  end.

Fixpoint submit_each (cs : list (Task * bool)) : W bool :=
  match cs with
  | [] => mret false
  | (t, natural) :: rest =>
    done ← submitAutoSubmitCandidate (ID t) natural;
    more ← submit_each rest;
    mret (done || more)
  end.

Definition submit_phase2 (cs : list (Task * bool)) : W bool :=
  submitted ← submit_each cs;
  success_unless_open "auto-submit" ;;
  mret submitted.

Definition tryAutoSubmit : W unit :=
  on ← enabled (AutosubmitEnabled st) "auto-submit";
  if negb on then mret tt else runTwoPhase submit_phase1 submit_phase2.

(** ** Review *)

Fixpoint review_each (ts : list Task) : W unit :=
  match ts with
  | [] => mret tt
  | t :: rest =>
    ok ← beginReview (ID t);
    (if (ok : bool) then emit (ReviewBackground (ID t)) else mret tt) ;;
    review_each rest
  end.

Definition tryAutoReview : W unit :=
  on ← enabled (ReviewEnabled st) "auto-review";
  if negb on then mret tt
  else
    ts ← read_range sch ListWaitingTasksWithSession;
    review_each ts.

(** What the verifier answers: an error, nothing, or the verdict with the usage
    of the run. *)
Record ReviewResult := MkReview { Unresolved : Z; Headline : string; SessionDir : string; rv_usage : TaskUsage }.

Definition reviewUsageNonZero (u : TaskUsage) : bool :=
  Z.ltb 0 (InputTokens u) || Z.ltb 0 (OutputTokens u) || Z.ltb 0 (CacheReadInputTokens u) ||
  Z.ltb 0 (CacheCreationTokens u) || f64_ltb f64_zero (CostUSD u).

(** [runReview], and the release of the slot that its goroutine defers. *)
Definition runReview (forks rounds : Z) (verdict : goErr + option ReviewResult) (t : Task) : W unit :=
  if bool_decide (session_of t = EmptyString) || bool_decide (WorktreePaths t = ∅) then mret tt
  else
    log (ID t) EventTypeSystem (payload [("result", "Review: adversarial verification started (" +:+ pretty_Z forks +:+
      " critics, up to " +:+ pretty_Z rounds +:+ " rounds).")]) ;;
    match verdict with
    | inl err =>
      recordFailure sch "auto-review" (Some (ID t)) (Error err) ;;
      log (ID t) EventTypeSystem (payload [("result", "Review: verification failed: " +:+ Error err)])
    | inr None => recordSuccess "auto-review"
    | inr (Some r) =>
      recordSuccess "auto-review" ;;
      (if reviewUsageNonZero (rv_usage r)
       then quiet (λ n _, AccumulateSubAgentUsage n (ID t) "review" (rv_usage r)) else mret tt) ;;
      f ← get_task (ID t);
      match f with
      | Err _ => mret tt
      | Ok ft =>
        if negb (bool_decide (Status ft = TaskStatusWaiting)) then mret tt
        else
          e ← op (λ n _, UpdateTaskReview n (ID t) (Unresolved r) (Headline r) (SessionDir r));
          match e with
          | Err _ => mret tt
          | Ok _ =>
            log (ID t) EventTypeSystem (payload [("result",
              if Z.eqb (Unresolved r) 0
              then "Review: verification clean " +:+ of_bytes [226; 128; 148] +:+ " no unresolved attacks."
              else "Review: " +:+ pretty_Z (Unresolved r) +:+ " unresolved attack(s); task halted for review " +:+
                   of_bytes [226; 128; 148] +:+ " confirm or resume with steering to re-verify.")])
          end
      end
    end.

Definition review_goroutine (forks rounds : Z) (verdict : goErr + option ReviewResult) (t : Task) : W unit :=
  runReview forks rounds verdict t ;;
  endReview (ID t).
End automation.
