(* ===== verification/AutomationSpec.v ===== *)
(** * What the watchers guarantee

    [promote_capacity]: the promotion loop respects the limit on parallel tasks
    however stale its candidates are.  [promote_selection]: what its scan
    selects.  [tryAutoSubmit_safe]: only verified tasks are submitted.
    [tryAutoReview_slots]: the verifier runs at most twice at a time, once per task. *)

From S2P Require Import Prelude Breaker StateMachine GoStrings GoText PkgUtil TaskModel Backend Store StoreUpdate StoreWf StoreRestart StoreSpec StoreQuery Verdict World WorldRules Runner RunnerRun Execute Automation.
From Stdlib Require Import String.
From stdpp Require Import list gmap sorting.
Local Open Scope Z_scope.
Local Open Scope string_scope.

(** ** The limit on parallel tasks *)

Section capacity.
Context `{UUIDLib} {B : Type} `{!StorageBackend B} (tbl : Z → Z).
Variables (sch : Schedule B) (st : Settings) (err_text : store_error → string).
Implicit Types (s : Store B) (t : Task) (i c : uuid) (X : gset uuid).

(** The tasks in progress that are not test runs. *)
Definition regular t : Prop := Status t = TaskStatusInProgress ∧ IsTestRun t = false.
#[local] Instance regular_dec t : Decision (regular t).
Proof. unfold regular. apply _. Defined.
Definition running s : gset uuid := dom (filter (λ p : uuid * Task, regular p.2) (tasks s)).

Lemma elem_running s i : i ∈ running s ↔ ∃ t, tasks s !! i = Some t ∧ regular t.
Proof.
  unfold running. rewrite elem_of_dom. split.
  - intros [t [Ht Hr]%map_lookup_filter_Some]. eauto.
  - intros (t & Ht & Hr). exists t. by apply map_lookup_filter_Some.
Qed.

(** While this goroutine holds the lock the others start at most the tasks
    [foreign] as regular runs: a fired routine and the start of a saved
    configuration do not take the lock. *)
Variable foreign : gset uuid.
Record bystanders : Prop := {
  by_wf : ∀ n s, store_wf tbl s → store_wf tbl (others sch true n s);
  by_start : ∀ n s, running (others sch true n s) ⊆ running s ∪ foreign;
  by_range : ∀ n m, NoDup (ranges sch n m) ∧ ∀ i, i ∈ ranges sch n m ↔ is_Some (m !! i)
}.
Hypothesis rely : bystanders.

Lemma count_running order s : store_wf tbl s → NoDup order → (∀ i, i ∈ order ↔ is_Some (tasks s !! i)) →
  CountRegularInProgress order s = Z.of_nat (size (running s)).
Proof.
  intros Hwf Hn Hc. unfold CountRegularInProgress.
  set (l := range_status s TaskStatusInProgress order).
  assert (∀ k, foldl (λ count i, match tasks s !! i with Some t => if IsTestRun t then count else count + 1 | None => count end) k l =
    k + Z.of_nat (length (filter (λ i, i ∈ running s) l))) as Hf.
  { assert (Forall (λ i, ∃ t, tasks s !! i = Some t ∧ Status t = TaskStatusInProgress) l) as Hl.
    { apply Forall_forall. intros i. unfold l, range_status. rewrite list_elem_of_filter, (wf_status _ _ Hwf). by intros [? _]. }
    induction Hl as [|i l (t & Ht & Hs) Hl IH]; intros k; [simpl; lia|]. cbn [foldl]. rewrite IH, Ht, filter_cons.
    destruct (IsTestRun t) eqn:E.
    - rewrite decide_False; [done|]. rewrite elem_running. intros (u & Hu & _ & Hr). congruence.
    - rewrite decide_True; [simpl length; lia|]. apply elem_running. by exists t. }
  rewrite Hf, Z.add_0_l. f_equal. rewrite <- (size_list_to_set (C:=gset uuid)) by (by apply NoDup_filter, NoDup_filter).
  f_equal. apply set_eq. intros i. rewrite elem_of_list_to_set, list_elem_of_filter. split; [by intros [? _]|].
  intros Hi. split; [done|]. apply elem_running in Hi as (t & Ht & Hs & _). unfold l, range_status.
  rewrite list_elem_of_filter, (wf_status _ _ Hwf), Hc. eauto.
Qed.

(** With the lock held, every regular run is one of [X] or was started by others. *)
Definition within X (w : World B) : Prop := store_wf tbl (w_store w) ∧ w_locked w = true ∧ running (w_store w) ⊆ X ∪ foreign.

Lemma within_arrive X w : within X w → within X (arrive sch w).
Proof.
  intros (Hwf & Hl & Hr). unfold within, arrive. cbn. rewrite Hl. split; [by apply (by_wf rely)|]. split; [done|].
  pose proof (by_start rely (w_tick w) (w_store w)). set_solver.
Qed.

Lemma within_weaken X Y w : X ⊆ Y → within X w → within Y w.
Proof. intros Hs (? & ? & ?). split_and!; [done..|]. set_solver. Qed.

(** An operation that starts at most [c]. *)
Definition starts c (m : Z → Z → M (B:=B) unit) : Prop :=
  ∀ n1 n2 s, store_op tbl s (m n1 n2) ∧ running (m n1 n2 s).2 ⊆ {[c]} ∪ running s.

Lemma within_op X c m : starts c m → triple (within X) (op sch m) (λ _, within ({[c]} ∪ X)).
Proof.
  intros Hm w Hw. apply within_arrive in Hw as (Hwf & Hl & Hr). unfold op.
  destruct (Hm (clock sch (2 * w_tick w)) (clock sch (2 * w_tick w + 1)) (w_store (arrive sch w))) as [Ho Hs].
  apply store_wf_step in Ho; [|done]. destruct (m _ _ _) as [r s']. split; [done|]. split; [done|]. set_solver.
Qed.

Lemma running_touches c R (m : M (B:=B) unit) s : touches c R m → running (m s).2 ⊆ {[c]} ∪ running s.
Proof.
  intros Hm i. rewrite !elem_of_union, elem_of_singleton, !elem_running. intros (t & Ht & Hr).
  destruct (Hm s) as [E|(u & u' & _ & _ & E)]; rewrite E in Ht; [by right; eauto|].
  destruct (decide (i = c)) as [-> |Hi]; [by left|]. rewrite lookup_insert_ne in Ht by done. right. eauto.
Qed.

Lemma starts_status c x : starts c (status_to c x).
Proof.
  intros n1 n2 s. split; [apply op_status|]. intros i. rewrite elem_of_union, elem_of_singleton, !elem_running. unfold status_to.
  destruct (decide (i = c)) as [-> |Hi]; [by left|]. intros (t & Ht & Hr). right. exists t. split; [|done].
  destruct (tasks s !! c) as [u|] eqn:Hu; [|by rewrite status_absent in Ht].
  rewrite (status_mem _ _ _ _ _ _ Hu) in Ht. destruct (CanTransitionTo _ _); [by rewrite lookup_insert_ne in Ht|done].
Qed.

Lemma within_event X a c ty data : triple (within X) (event_as sch a c ty data) (λ _, within X).
Proof.
  apply (triple_bind _ _ _ (λ _, within X)); [|intros ?; by apply triple_ret].
  intros w Hw. apply within_arrive in Hw as (Hwf & Hl & Hr). unfold op. cbv beta.
  match goal with |- context [InsertEvent ?n ?a1 ?a2 ?c ?ty ?d ?s] =>
    pose proof (keeps_InsertEvent n a1 a2 c ty d s) as Hk; destruct (InsertEvent n a1 a2 c ty d s) as [r s'] end.
  split; [by apply (wf_core tbl (w_store (arrive sch w)))|]. split; [done|]. injection Hk as E _ _ _. unfold running in *. cbn. by rewrite E.
Qed.

Lemma within_failure X name id r : triple (within X) (recordFailure sch name id r) (λ _, within X).
Proof.
  unfold recordFailure. apply (triple_bind _ _ _ (λ _, within X)); [intros w Hw; by apply within_arrive|].
  intros n w Hw. exact Hw.
Qed.

Lemma within_success X name : triple (within X) (recordSuccess name) (λ _, within X).
Proof. intros w Hw. exact Hw. Qed.

Lemma within_emit X e : triple (within X) (emit e) (λ _, within X).
Proof. intros w Hw. exact Hw. Qed.

Lemma within_ask X {A} (f : nat → A) : triple (within X) (ask sch f) (λ r w, (∃ n, r = f n) ∧ within X w).
Proof. intros w Hw. split; [by eexists|]. by apply within_arrive. Qed.

Lemma within_asks X {A} (f : nat → A) : triple (within X) (ask sch f) (λ _, within X).
Proof. intros w Hw. by apply within_arrive. Qed.

Lemma within_read X c : triple (within X) (get_task sch c) (λ _, within X).
Proof. intros w Hw. by apply within_arrive. Qed.

Lemma within_in_order X c ops : Forall (starts c) ops → triple (within ({[c]} ∪ X)) (in_order sch ops) (λ _, within ({[c]} ∪ X)).
Proof.
  induction 1 as [|m ops Hm Hops IH]; [by apply triple_ret|]. cbn [in_order].
  apply (triple_bind _ _ _ (λ _, within ({[c]} ∪ X))).
  { intros w Hw. apply (within_op _ c m Hm) in Hw. eapply within_weaken; [|exact Hw]. set_solver. }
  intros [[]|e]; [exact IH|by apply triple_ret].
Qed.

Ltac mutates op := intros ???; split; [apply op|]; eapply running_touches, touches_mutate.

Lemma within_resume X t message trigger sys :
  triple (within ({[ID t]} ∪ X)) (resumeWaitingTaskWithFeedbackLocked sch no_actor t message trigger sys) (λ _, within ({[ID t]} ∪ X)).
Proof.
  unfold resumeWaitingTaskWithFeedbackLocked. eapply triple_bind.
  { apply within_in_order. 
    apply Forall_cons; split; [mutates op_test_run|]. apply Forall_cons; split; [mutates op_feedback|].
    apply Forall_cons; split; [mutates op_clear_review|]. apply Forall_cons; split; [mutates op_reset_fail|].
    apply Forall_singleton, starts_status. }
  cbv beta. intros [e|]; [by apply triple_ret|].
  do 2 (eapply triple_bind; [apply within_event|intros ?; cbv beta]).
  apply (triple_bind _ _ _ (λ _, within ({[ID t]} ∪ X))); [destruct (bool_decide _); [by apply triple_ret|apply within_event]|intros ?].
  eapply triple_bind; [apply within_emit|intros ?; cbv beta]. by apply triple_ret.
Qed.

Lemma size_one c X : (size ({[c]} ∪ X) ≤ size X + 1)%nat.
Proof.
  rewrite size_union_alt, size_singleton. assert (X ∖ {[c]} ⊆ X) as Hs%subseteq_size by set_solver. lia.
Qed.

Lemma resume_cases X t (w : World B) (m : W (B:=B) bool) :
  within X w → triple (within ({[ID t]} ∪ X)) m (λ _, within ({[ID t]} ∪ X)) → ∃ Y, (size Y ≤ size X + 1)%nat ∧ within Y (m w).2.
Proof.
  intros Hw Hm. exists ({[ID t]} ∪ X). split; [apply size_one|]. apply Hm. eapply within_weaken; [|done]. set_solver.
Qed.

(** At most [k] regular runs, with the lock held. *)
Definition at_most (k : nat) (w : World B) : Prop := ∃ X, (size X ≤ k)%nat ∧ within X w.

Lemma at_most_weaken k k' w : (k ≤ k')%nat → at_most k w → at_most k' w.
Proof. intros Hk (X & ? & ?). exists X. split; [lia|done]. Qed.

(** A resume starts at most its own task. *)
Lemma at_most_resume k c : triple (at_most k) (resume_candidate sch err_text c) (λ _, at_most (k + 1)).
Proof.
  intros w (X & Hx & Hw). unfold resume_candidate. rewrite bind_run. apply (within_read X c) in Hw. revert Hw.
  generalize (get_task sch c w).2. destruct (get_task sch c w).1 as [t|e]; intros w1 Hw1; [|exists X; split; [lia|done]].
  match goal with |- at_most _ (?m w1).2 => destruct (resume_cases X t w1 m Hw1) as (Y & Hy & HY) end; [|exists Y; split; [lia|done]].
  destruct (_ || _); [by apply triple_ret|]. destruct (bool_decide _); [by apply triple_ret|]. destruct (Z.leb _ _).
  - eapply triple_bind; [apply within_event|intros ?; cbv beta]. by apply triple_ret.
  - eapply triple_bind; [apply within_resume|]. cbv beta. intros [e|].
    + eapply triple_bind; [apply within_failure|intros ?; cbv beta]. by apply triple_ret.
    + eapply triple_bind; [apply within_success|intros ?; cbv beta]. by apply triple_ret.
Qed.

(** The count under the lock bounds the runs until this goroutine starts one. *)
Lemma within_count X : triple (within X) (countGlobalInProgress sch) (λ n w, ∃ Y, Z.of_nat (size Y) <= n ∧ Y ⊆ X ∧ within Y w).
Proof.
  intros w Hw. apply within_arrive in Hw as (Hwf & Hl & Hr). unfold countGlobalInProgress, read_range, read.
  exists (X ∩ running (w_store (arrive sch w))). cbn [fst snd]. rewrite count_running; [|done|apply (by_range rely)..].
  split; [apply inj_le, subseteq_size; set_solver|]. split; [set_solver|]. split; [done|]. split; [done|]. set_solver.
Qed.

Variable limit : nat.
Hypothesis limited : ∀ n, maxConcurrentTasks st n <= Z.of_nat limit.

Lemma at_most_promote k t : triple (at_most k) (promote_candidate sch st err_text t) (λ _, at_most (Nat.max k limit)).
Proof.
  intros w (X & Hx & Hw). unfold promote_candidate. rewrite bind_run. apply (within_count X) in Hw. revert Hw.
  generalize (countGlobalInProgress sch w). intros [n w1] (Y & Hn & Hy & HY). cbn [fst snd] in *.
  apply subseteq_size in Hy. assert (∀ w', within Y w' → at_most (Nat.max k limit) w') as Hdone by (intros w' ?; exists Y; split; [lia|done]).
  rewrite bind_run. apply (within_ask Y (maxConcurrentTasks st)) in HY. revert HY.
  generalize (ask sch (maxConcurrentTasks st) w1). intros [l w2] [[q ->] HY]. cbn [fst snd] in *. specialize (limited q).
  destruct (Z.leb_spec (maxConcurrentTasks st q) n) as [|Hlt]; [by apply Hdone|].
  assert (∀ (m : W (B:=B) (option bool)), triple (within Y) m (λ _ w, within Y w ∨ within ({[ID t]} ∪ Y) w) → at_most (Nat.max k limit) (m w2).2) as Hm.
  { intros m Ht. destruct (Ht w2 HY) as [?|Hs]; [by apply Hdone|]. exists ({[ID t]} ∪ Y). split; [|done].
    pose proof (size_one (ID t) Y). lia. }
  apply Hm. eapply triple_bind; [apply within_asks|]. cbv beta. intros allow. destruct (negb allow); [apply triple_ret; by left|].
  eapply triple_bind; [apply within_asks|]. cbv beta. intros locked. destruct locked; [apply triple_ret; by left|].
  apply (triple_conseq (within Y) (within Y) _ _ (λ _, within ({[ID t]} ∪ Y))); [|done|by right].
  eapply triple_bind; [apply within_op, starts_status|]. cbv beta. intros [[]|e].
  - do 2 (eapply triple_bind; [first [apply within_event|apply within_emit]|intros ?; cbv beta]).
    do 2 (eapply triple_bind; [first [apply within_emit|apply within_success]|intros ?; cbv beta]). by apply triple_ret.
  - eapply triple_bind; [apply within_failure|intros ?; cbv beta]. by apply triple_ret.
Qed.

Definition resumes (cs : list candidate) : nat := length (filter (λ x : candidate, isResume x = true) cs).

Lemma at_most_phase2 cs k : triple (at_most k) (promote_phase2 sch st err_text cs) (λ _, at_most (Nat.max k limit + resumes cs)).
Proof.
  revert k. induction cs as [|x cs IH]; intros k.
  { apply triple_ret. intros w (X & ? & ?). exists X. split; [lia|done]. }
  cbn [promote_phase2]. unfold resumes. rewrite filter_cons. fold (resumes cs).
  destruct (isResume x) eqn:E.
  - rewrite decide_True by done. eapply triple_bind; [apply at_most_resume|intros b; cbv beta].
    eapply triple_bind; [apply IH|intros more; cbv beta]. apply triple_ret. intros w. apply at_most_weaken. simpl length. fold (resumes cs). lia.
  - rewrite decide_False by done. eapply triple_bind; [apply at_most_promote|cbv beta]. intros [b|].
    + eapply triple_bind; [apply IH|intros more; cbv beta]. apply triple_ret. intros w. apply at_most_weaken. fold (resumes cs). lia.
    + apply triple_ret. intros w. apply at_most_weaken. fold (resumes cs). lia.
Qed.

(** C7: The promotion loop keeps the limit, whatever its candidates are and
    however much the store changed since they were collected.  If the limit never
    exceeds [limit], and the tasks that other goroutines start as regular runs while
    the loop holds the lock are among [foreign], then after the loop at most [limit]
    regular tasks are in progress, or as many as before it, plus one for each
    candidate that is a resume, plus those of [foreign]. *)
Theorem promote_capacity cs w : store_wf tbl (w_store w) → w_locked w = true →
  (size (running (w_store (promote_phase2 sch st err_text cs w).2)) ≤
   Nat.max (size (running (w_store w))) limit + resumes cs + size foreign)%nat.
Proof.
  intros Hwf Hl. destruct (at_most_phase2 cs (size (running (w_store w))) w) as (X & Hx & _ & _ & Hr).
  - exists (running (w_store w)). split; [done|]. split; [done|]. split; [done|]. set_solver.
  - apply subseteq_size in Hr. rewrite size_union_alt in Hr.
    assert (foreign ∖ X ⊆ foreign) as Hs%subseteq_size by set_solver. lia.
Qed.
End capacity.

(** ** Submission *)

Section submit.
Context `{UUIDLib} {B : Type} `{!StorageBackend B} (tbl : Z → Z).
Variables (sch : Schedule B) (ans : Answers) (st : Settings) (err_text : store_error → string).
Hypothesis alone : solo sch.
Variable s0 : Store B.
Hypothesis wf : store_wf tbl s0.
Implicit Types (s : Store B) (t : Task) (i : uuid).

(** The review decides about the task, not the tests. *)
Definition reviewing (n : nat) t : bool := ReviewEnabled st n && negb (bool_decide (session_of t = EmptyString)).

(** The review found nothing left; or, where the tests decide, they passed, or
    the agent ended its turn on its own while tests were off. *)
Definition verdict t : Prop := ∃ n,
  if reviewing n t then ReviewUnresolved t = Some 0
  else LastTestResult t = "pass" ∨
       (StopReason t = Some "end_turn" ∧ LastTestResult t = EmptyString ∧ ∃ m, AutotestEnabled st m = false).

(** A worktree that is up to date and merges, where there is a remote. *)
Definition mergeable (p : string * string) : Prop := ∃ n,
  let g := repo_state st n p.1 p.2 in
  has_remote g = true → wt_is_repo g = true ∧ (∃ k, behind g = Some k ∧ k <= 0) ∧ conflicts g = Some false.

Definition submittable t : Prop :=
  Status t = TaskStatusWaiting ∧ IsTestRun t = false ∧ WorktreePaths t ≠ ∅ ∧ missingTaskWorktrees ans t = [] ∧
  verdict t ∧ Forall mergeable (worktrees ans t).

Definition same (w : World B) : Prop := tasks (w_store w) = tasks s0.

Lemma same_arrive w : same w → same (arrive sch w).
Proof. unfold same, arrive. cbn. by rewrite alone. Qed.

Lemma same_ask {A} (f : nat → A) : triple same (ask sch f) (λ r w, (∃ n, r = f n) ∧ same w).
Proof. intros w Hw. split; [by eexists|]. by apply same_arrive. Qed.

Lemma same_gate t : triple same (reviewSupersedesTest sch st t) (λ r w, (∃ n, r = reviewing n t) ∧ same w).
Proof.
  unfold reviewSupersedesTest. eapply triple_bind; [apply same_ask|]. intros r. apply triple_ret. intros w [[n ->] Hw].
  split; [by exists n|done].
Qed.

Lemma same_verdict t : triple same (submit_verdict sch st t) (λ v w, (v.1 || v.2 = true → verdict t) ∧ same w).
Proof.
  unfold submit_verdict. eapply triple_bind; [apply same_gate|]. intros r w [[n ->] Hw]. destruct (reviewing n t) eqn:E.
  - split; [|done]. simpl. rewrite orb_false_r, bool_decide_eq_true. intros Hr. exists n. by rewrite E.
  - unfold ask, mbind, W_bind, mret, W_ret. cbn. split; [|by apply same_arrive].
    rewrite orb_true_iff, !andb_true_iff, !bool_decide_eq_true, negb_true_iff. intros Hv. exists n. rewrite E. naive_solver.
Qed.

Lemma same_scan paths remote :
  triple same (submit_scan sch st paths remote) (λ r w, (r.1 = false → Forall mergeable paths) ∧ same w).
Proof.
  revert remote. induction paths as [|[repo wt] rest IH]; intros remote; [by apply triple_ret|]. cbn [submit_scan].
  eapply triple_bind; [apply same_ask|]. intros g w [[n ->] Hw].
  assert (∀ b, mergeable (repo, wt) → (λ r w, (r.1 = false → Forall mergeable ((repo, wt) :: rest)) ∧ same w)
    (submit_scan sch st rest b w).1 (submit_scan sch st rest b w).2) as Hrest.
  { intros b Hm. destruct (IH b w Hw) as [H1 H2]. split; [|done]. intros Hr. constructor; auto. }
  destruct (has_remote _) eqn:E1; cbn [negb]; [|apply Hrest; exists n; simpl; congruence].
  destruct (wt_is_repo _) eqn:E2; cbn [negb]; [|done].
  destruct (behind _) as [k|] eqn:E3; [|done]. destruct (Z.ltb_spec 0 k); [done|].
  destruct (conflicts _) as [[]|] eqn:E4; [done| |done]. apply Hrest. exists n. simpl. eauto 10.
Qed.

Definition chosen (c : Task * bool) : Prop := submittable c.1 ∧ tasks s0 !! ID c.1 = Some c.1.

Lemma same_candidates ts : Forall (λ t, tasks s0 !! ID t = Some t) ts →
  triple same (submit_candidates sch ans st ts) (λ cs w, Forall chosen cs ∧ same w).
Proof.
  induction 1 as [|t ts Ht Hts IH]; [by apply triple_ret|]. cbn [submit_candidates].
  destruct (bool_decide_reflect (Status t = TaskStatusWaiting)) as [Hs|]; cbn [negb]; [|exact IH].
  eapply triple_bind; [apply same_verdict|]. intros [tested natural]. apply triple_pure. cbn [fst snd]. intros Hv.
  destruct (negb tested && negb natural) eqn:Ev; [exact IH|].
  assert (verdict t) as Hver by (apply Hv; destruct tested, natural; done).
  destruct (IsTestRun t || bool_decide (WorktreePaths t = ∅) || negb (bool_decide (missingTaskWorktrees ans t = []))) eqn:Eg; [exact IH|].
  rewrite !orb_false_iff, bool_decide_eq_false, negb_false_iff, bool_decide_eq_true in Eg. destruct Eg as [[Ht1 Ht2] Ht3].
  eapply triple_bind; [apply same_scan|]. intros r. apply triple_pure. intros Hr. destruct (r.1) eqn:Er; [exact IH|].
  apply (triple_bind _ _ _ (λ _, same)).
  { unfold recently. apply (triple_bind _ _ _ (λ _, same)); [intros w; apply same_arrive|intros ?; by apply triple_ret]. }
  intros stale. destruct (r.2 && stale); [exact IH|]. eapply triple_bind; [exact IH|]. intros more. apply triple_pure. intros Hm.
  apply triple_ret. intros w Hw. split; [|done]. constructor; [|done]. unfold chosen, submittable. cbn. auto 10.
Qed.

(** A task after the submission: the same, or submitted. *)
Definition submitted t t' : Prop :=
  t' = t ∨ (submittable t ∧ Status t' = if bool_decide (session_of t = EmptyString) then TaskStatusDone else TaskStatusCommitting).

Definition sound (w : World B) : Prop := ∀ i, option_Forall2 submitted (tasks s0 !! i) (tasks (w_store w) !! i).

Lemma sound_arrive w : sound w → sound (arrive sch w).
Proof. unfold sound, arrive. cbn. by rewrite alone. Qed.

Lemma sound_event a i ty data : triple sound (event_as sch a i ty data) (λ _, sound).
Proof.
  change (preserves (λ s, ∀ i, option_Forall2 submitted (tasks s0 !! i) (tasks s !! i)) (event_as sch a i ty data)).
  apply preserves_quiet; [intros b n s Hs; by rewrite alone|]. intros n1 n2 s Hs j.
  destruct (touches_InsertEvent i (λ _ _, False) n1 (actor_Sub a) (actor_Type a) i ty (Some data) s) as [-> |(? & ? & _ & [] & _)].
  apply Hs.
Qed.

Lemma sound_emit e : triple sound (emit e) (λ _, sound).
Proof. intros w Hw. exact Hw. Qed.

Lemma sound_failure name id r : triple sound (recordFailure sch name id r) (λ _, sound).
Proof. unfold recordFailure. apply (triple_bind _ _ _ (λ _, sound)); [intros w; apply sound_arrive|intros n w Hw; exact Hw]. Qed.

(** The status of a task that was chosen. *)
Lemma sound_status (m : Z → Z → M (B:=B) unit) t :
  submittable t → tasks s0 !! ID t = Some t →
  (∀ n1 n2 s, tasks (m n1 n2 s).2 = tasks s ∨ ∃ t', Status t' = (if bool_decide (session_of t = EmptyString) then TaskStatusDone else TaskStatusCommitting) ∧
     tasks (m n1 n2 s).2 = <[ID t := t']> (tasks s)) →
  triple sound (op sch m) (λ _, sound).
Proof.
  intros Hsub Ht Hm w Hw. apply sound_arrive in Hw. unfold op.
  specialize (Hm (clock sch (2 * w_tick w)) (clock sch (2 * w_tick w + 1)) (w_store (arrive sch w))).
  destruct (m _ _ _) as [r s']. intros i. specialize (Hw i). cbn in *.
  destruct Hm as [-> |(t' & Hs & ->)]; [done|]. destruct (decide (i = ID t)) as [-> |Hi]; [|by rewrite lookup_insert_ne].
  rewrite lookup_insert_eq, Ht. constructor. right. done.
Qed.

(** A chosen task that still waits is unchanged. *)
Lemma sound_waiting w t u : sound w → tasks s0 !! ID t = Some t → tasks (w_store w) !! ID t = Some u → Status u = TaskStatusWaiting → u = t.
Proof.
  intros Hw Ht Hu Hs. specialize (Hw (ID t)). rewrite Ht, Hu in Hw. inversion Hw as [? ? Hr|]; subst.
  destruct Hr as [->|[_ Hr]]; [done|]. rewrite Hs in Hr. by destruct (bool_decide _).
Qed.

Lemma sound_submit c : chosen c → triple sound (submitAutoSubmitCandidate sch ans err_text (ID c.1) c.2) (λ _, sound).
Proof.
  destruct c as [t natural]. intros [Hsub Ht]. cbn [fst snd] in *. unfold submitAutoSubmitCandidate.
  intros w Hw. rewrite bind_run. unfold get_task, read, GetTask. cbn [fst snd]. apply sound_arrive in Hw.
  destruct (tasks (w_store (arrive sch w)) !! ID t) as [u|] eqn:Hu; [|done].
  destruct (bool_decide_reflect (Status u = TaskStatusWaiting)) as [Hs|]; cbn [negb orb]; [|done].
  assert (u = t) as -> by (by apply (sound_waiting (arrive sch w))). revert Hw. generalize (arrive sch w). clear Hu w.
  match goal with |- ∀ w, sound w → sound (?m w).2 => change (triple sound m (λ _, sound)) end.
  destruct (IsTestRun t); [by apply triple_ret|]. destruct (_ || _); [by apply triple_ret|].
  eapply triple_bind; [apply sound_event|intros ?; cbv beta]. eapply triple_bind; [apply sound_event|intros ?; cbv beta].
  destruct (bool_decide_reflect (session_of t = EmptyString)) as [E|E]; cbn [negb].
  - eapply triple_bind; [apply sound_emit|intros ?; cbv beta].
    eapply triple_bind; [apply (sound_status _ t Hsub Ht)|].
    { intros n1 n2 s. destruct (tasks s !! ID t) as [v|] eqn:Hv; [|left; by rewrite force_absent].
      right. exists (with_status n1 n2 v TaskStatusDone). rewrite bool_decide_true by done. split; [apply Status_with_status|]. by apply force_mem. }
    cbv beta. intros [[]|e].
    + eapply triple_bind; [apply sound_event|intros ?; cbv beta]. by apply triple_ret.
    + eapply triple_bind; [apply sound_failure|intros ?; cbv beta]. by apply triple_ret.
  - eapply triple_bind; [apply (sound_status _ t Hsub Ht)|].
    { intros n1 n2 s. destruct (tasks s !! ID t) as [v|] eqn:Hv; [|left; unfold status_to; by rewrite status_absent].
      unfold status_to. rewrite (status_mem _ _ _ _ _ _ Hv). destruct (CanTransitionTo _ _); [right|by left].
      exists (with_status n1 n2 v TaskStatusCommitting). rewrite bool_decide_false by done. split; [apply Status_with_status|done]. }
    cbv beta. intros [[]|e].
    + eapply triple_bind; [apply sound_event|intros ?; cbv beta]. eapply triple_bind; [apply sound_emit|intros ?; cbv beta]. by apply triple_ret.
    + eapply triple_bind; [apply sound_failure|intros ?; cbv beta]. by apply triple_ret.
Qed.

Lemma sound_each cs : Forall chosen cs → triple sound (submit_each sch ans err_text cs) (λ _, sound).
Proof.
  induction 1 as [|[t natural] cs Hc Hcs IH]; [by apply triple_ret|]. cbn [submit_each].
  eapply triple_bind; [apply (sound_submit (t, natural) Hc)|intros ?; cbv beta]. eapply triple_bind; [exact IH|intros ?; cbv beta]. by apply triple_ret.
Qed.

Lemma sound_open name : triple sound (breaker_isOpen sch name) (λ _, sound).
Proof.
  unfold breaker_isOpen. apply (triple_bind _ _ _ (λ _, sound)); [intros w; apply sound_arrive|]. intros n w Hw. exact Hw.
Qed.

Lemma same_sound w : same w → sound w.
Proof. intros Hw i. rewrite Hw. destruct (tasks s0 !! i); constructor. by left. Qed.

Lemma same_open name : triple same (breaker_isOpen sch name) (λ _, same).
Proof.
  unfold breaker_isOpen. apply (triple_bind _ _ _ (λ _, same)); [intros w; apply same_arrive|]. intros n w Hw. exact Hw.
Qed.

Lemma same_enabled toggle name : triple same (enabled sch toggle name) (λ _, same).
Proof.
  unfold enabled. apply (triple_bind _ _ _ (λ _, same)); [intros w; apply same_arrive|]. intros on.
  destruct (negb on); [by apply triple_ret|]. eapply triple_bind; [apply same_open|intros ?; by apply triple_ret].
Qed.

Lemma same_phase1 : triple same (submit_phase1 sch ans st) (λ cs w, Forall chosen cs ∧ same w).
Proof.
  unfold submit_phase1. apply (triple_bind _ _ _ (λ ts w, Forall (λ t, tasks s0 !! ID t = Some t) ts ∧ same w)).
  - intros w Hw. apply same_arrive in Hw. unfold read_range, read. cbn [fst snd]. split; [|done]. apply Forall_forall. intros t.
    unfold ListTasks. rewrite SortFunc_Permutation, list_elem_of_filter. intros [_ (i & _ & Hi)%list_elem_of_omap].
    rewrite Hw in Hi. by rewrite (wf_ids _ _ wf _ _ Hi).
  - intros ts. apply triple_pure, same_candidates.
Qed.

Lemma sound_phase2 cs : Forall chosen cs → triple sound (submit_phase2 sch ans err_text cs) (λ _, sound).
Proof.
  intros Hcs. unfold submit_phase2, success_unless_open. eapply triple_bind; [by apply sound_each|intros ?; cbv beta].
  apply (triple_bind _ _ _ (λ _, sound)); [|intros ?; by apply triple_ret].
  eapply triple_bind; [apply sound_open|]. intros []; cbv beta; [by apply triple_ret|]. intros w Hw. exact Hw.
Qed.

Lemma sound_autosubmit : triple same (tryAutoSubmit sch ans st err_text) (λ _, sound).
Proof.
  unfold tryAutoSubmit. eapply triple_bind; [apply same_enabled|]. intros on; cbv beta.
  destruct (negb on); [apply triple_ret, same_sound|]. unfold runTwoPhase. eapply triple_bind; [apply same_phase1|].
  intros cs. apply triple_pure. intros Hcs. destruct cs as [|c cs]; [apply triple_ret, same_sound|].
  apply (triple_bind _ _ _ (λ _, sound)); [intros w Hw; by apply same_sound|]. intros ?.
  eapply triple_bind; [by apply sound_phase2|]. intros ? w Hw. exact Hw.
Qed.
End submit.


(** ** What is promoted *)

Section selection.
Context `{UUIDLib} {B : Type} `{!StorageBackend B} (tbl : Z → Z).
Variables (sch : Schedule B) (st : Settings).
Hypothesis alone : solo sch.
Variable s0 : Store B.
Implicit Types (s : Store B) (t : Task) (i : uuid).

#[local] Instance cp_before_total : Total cp_before.
Proof. intros [a x] [b y]. unfold cp_before, cmpTaskPositionCreatedAt. simpl. lia. Qed.
#[local] Instance cp_before_trans : Transitive cp_before.
Proof. intros [a x] [b y] [c z]. unfold cp_before, cmpTaskPositionCreatedAt. simpl. lia. Qed.

(** Nothing that is left out comes before what is taken. *)
Lemma best_spec slots (l : list scored) :
  let sel := take (Z.to_nat slots) (merge_sort cp_before l) in
  StronglySorted cp_before sel ∧ length sel = Nat.min (Z.to_nat slots) (length l) ∧
  ∃ rest, l ≡ₚ (sel ++ rest)%list ∧ ∀ x y, x ∈ sel → y ∈ rest → cp_before x y.
Proof.
  intros sel. pose proof (StronglySorted_merge_sort cp_before l) as Hs.
  rewrite <- (take_drop (Z.to_nat slots) (merge_sort cp_before l)) in Hs. fold sel in Hs.
  split; [by eapply StronglySorted_app_1_l|]. split; [unfold sel; by rewrite length_take, merge_sort_Permutation|].
  exists (drop (Z.to_nat slots) (merge_sort cp_before l)). split; [unfold sel; by rewrite take_drop, merge_sort_Permutation|].
  intros x y Hx Hy. by eapply StronglySorted_app_1_elem_of.
Qed.

(** Ready at some reading of the clock and of the agents' locks, and at each. *)
Definition maybe_ready t : Prop :=
  IsRoutine t = false ∧ (∃ n, due_later t (clock sch n) = None) ∧ AreDependenciesSatisfied (ID t) s0 = Ok true ∧
  ∃ n, isTaskLockedByAgent st n (ID t) = false.
Definition surely_ready t : Prop :=
  IsRoutine t = false ∧ (∀ n, due_later t (clock sch n) = None) ∧ AreDependenciesSatisfied (ID t) s0 = Ok true ∧
  ∀ n, isTaskLockedByAgent st n (ID t) = false.

Definition still (w : World B) : Prop := w_store w = s0.
Lemma still_arrive w : still w → still (arrive sch w).
Proof. unfold still, arrive. cbn. by rewrite alone. Qed.

Lemma still_may_start t :
  triple still (may_start sch st t) (λ b w, (if b then AreDependenciesSatisfied (ID t) s0 = Ok true ∧ ∃ n, isTaskLockedByAgent st n (ID t) = false
    else ¬ (AreDependenciesSatisfied (ID t) s0 = Ok true ∧ ∀ n, isTaskLockedByAgent st n (ID t) = false)) ∧ still w).
Proof.
  intros w Hw. apply still_arrive in Hw. unfold may_start. rewrite bind_run. unfold read. cbn [fst snd]. rewrite Hw.
  destruct (AreDependenciesSatisfied (ID t) s0) as [[]|e]; [|split; [naive_solver|done]..].
  rewrite bind_run. unfold ask. cbn [fst snd]. set (n := w_tick _). split; [|by apply still_arrive].
  destruct (isTaskLockedByAgent st n (ID t)) eqn:E; simpl; [|by eauto]. intros [_ Hn]. by rewrite Hn in E.
Qed.

Lemma still_startable ts next :
  triple still (startable sch st ts next)
    (λ r w, (Forall maybe_ready r.1 ∧ r.1 `sublist_of` ts ∧ ∀ t, t ∈ ts → surely_ready t → t ∈ r.1) ∧ still w).
Proof.
  revert next. induction ts as [|t ts IH]; intros next.
  { apply triple_ret. intros w Hw. split_and!; [constructor|constructor|by intros ? ?%not_elem_of_nil|done]. }
  assert (∀ nx, ¬ surely_ready t → triple still (startable sch st ts nx)
    (λ r w, (Forall maybe_ready r.1 ∧ r.1 `sublist_of` (t :: ts) ∧ ∀ u, u ∈ t :: ts → surely_ready u → u ∈ r.1) ∧ still w)) as Hskip.
  { intros nx Hn. eapply triple_conseq; [apply IH|done|]. intros r w [(H1 & H2 & H3) Hw]. split_and!; [done|by constructor| |done].
    intros u [-> |Hu]%elem_of_cons Hr; [done|by apply H3]. }
  cbn [startable]. destruct (IsRoutine t) eqn:Er; [apply Hskip; intros [? _]; congruence|].
  apply (triple_bind _ _ _ (λ n w, (∃ k, n = clock sch k) ∧ still w)); [intros w Hw; split; [by eexists|by apply still_arrive]|].
  intros n. apply triple_pure. intros [k ->].
  destruct (due_later t (clock sch k)) as [due|] eqn:Ed; [apply Hskip; intros (_ & Hn & _); by rewrite Hn in Ed|].
  eapply triple_bind; [apply still_may_start|]. intros ok. apply triple_pure. intros Hok.
  destruct ok.
  - eapply triple_bind; [apply IH|]. intros r. apply triple_pure. intros (H1 & H2 & H3). apply triple_ret. intros w Hw. cbn.
    split_and!; [constructor; [|done]; unfold maybe_ready; naive_solver|by constructor| |done].
    intros u [-> |Hu]%elem_of_cons Hr; [left|right; by apply H3].
  - eapply triple_bind; [apply (Hskip next); unfold surely_ready; naive_solver|]. intros r. by apply triple_ret.
Qed.

Hypothesis wf : store_wf tbl s0.
Hypothesis fair : ∀ n m, NoDup (ranges sch n m) ∧ ∀ i, i ∈ ranges sch n m ↔ is_Some (m !! i).

Definition live x t : Prop := tasks s0 !! ID t = Some t ∧ Status t = x.

Lemma elem_by_status n x t : t ∈ ListTasksByStatus (ranges sch n (tasks s0)) x s0 ↔ live x t.
Proof.
  unfold ListTasksByStatus, live. rewrite SortFunc_Permutation, (elem_range_tasks tbl) by done. unfold range_status.
  rewrite list_elem_of_filter, (wf_status _ _ wf), (proj2 (fair n (tasks s0))). naive_solver.
Qed.

Lemma nodup_by_status n x : NoDup (ListTasksByStatus (ranges sch n (tasks s0)) x s0).
Proof.
  apply (NoDup_fmap_1 ID). unfold ListTasksByStatus. rewrite SortFunc_Permutation. apply (NoDup_range_tasks tbl); [done|].
  apply NoDup_filter, fair.
Qed.

Lemma still_list x : triple still (read_range sch (λ order, ListTasksByStatus order x)) (λ ts w, (NoDup ts ∧ ∀ t, t ∈ ts ↔ live x t) ∧ still w).
Proof.
  intros w Hw. apply still_arrive in Hw. unfold read_range, read. split; [|exact Hw]. cbn [fst snd].
  split; [rewrite Hw; apply nodup_by_status|]. intros t. rewrite Hw. apply elem_by_status.
Qed.

Lemma still_count : triple still (countGlobalInProgress sch) (λ n w, n = Z.of_nat (size (running s0)) ∧ still w).
Proof.
  intros w Hw. apply still_arrive in Hw. unfold countGlobalInProgress, read_range, read. cbn [fst snd]. rewrite Hw.
  split; [|done]. apply (count_running tbl); [done|apply fair..].
Qed.

(** The critical path score of a task among the identifiers [ids]. *)
Definition path_score order ids t : Z := default 0 (default ∅ (CriticalPathScores order ids s0) !! ID t).

(** [fresh] are the best of the tasks that may start, best first and as many as
    there are slots, and [rest] the others. *)
Record backlog_choice (slots : Z) (fresh rest : list Task) : Prop := {
  bc_slots : length fresh = Nat.min (Z.to_nat slots) (length (fresh ++ rest)%list);
  bc_once : NoDup (fresh ++ rest)%list;
  bc_ready : ∀ t, t ∈ (fresh ++ rest)%list → live TaskStatusBacklog t ∧ maybe_ready t;
  bc_all : ∀ t, live TaskStatusBacklog t → surely_ready t → t ∈ (fresh ++ rest)%list;
  bc_best : ∃ order ids, ids ≡ₚ ID <$> (fresh ++ rest)%list ∧
    StronglySorted cp_before ((λ t, (t, path_score order ids t)) <$> fresh) ∧
    ∀ x y, x ∈ fresh → y ∈ rest → cp_before (x, path_score order ids x) (y, path_score order ids y)
}.

Lemma best_choice slots l order : NoDup l → Forall maybe_ready l → (∀ t, t ∈ l → live TaskStatusBacklog t) →
  (∀ t, live TaskStatusBacklog t → surely_ready t → t ∈ l) →
  ∃ rest, backlog_choice slots (best slots ((λ t, (t, path_score order (ID <$> l) t)) <$> l)) rest.
Proof.
  intros Hnd Hm Hl Hs. set (sc := path_score order (ID <$> l)).
  destruct (best_spec slots ((λ t, (t, sc t)) <$> l)) as (Hss & Hlen & rest & Hp & Hb). unfold best.
  set (sel := take (Z.to_nat slots) (merge_sort cp_before ((λ t, (t, sc t)) <$> l))) in *.
  assert (∀ x, x ∈ (sel ++ rest)%list → x.2 = sc x.1) as Hsc.
  { intros x. rewrite <- Hp. by intros (t & -> & _)%list_elem_of_fmap. }
  assert (l ≡ₚ (sel.*1 ++ rest.*1)%list) as Hl1.
  { rewrite <- fmap_app, <- Hp, <- list_fmap_compose. symmetry. erewrite list_fmap_ext; [by rewrite list_fmap_id|done]. }
  exists rest.*1. split.
  - rewrite <- Hl1. etrans; [apply length_fmap|]. etrans; [exact Hlen|]. by rewrite length_fmap.
  - by rewrite <- Hl1.
  - intros t. rewrite <- Hl1. rewrite Forall_forall in Hm. auto.
  - intros t. rewrite <- Hl1. auto.
  - exists order, (ID <$> l). split; [by rewrite <- Hl1|]. fold sc. split.
    { rewrite <- list_fmap_compose. erewrite list_fmap_ext; [by rewrite list_fmap_id|]. intros k x Hx%list_elem_of_lookup_2. cbn.
      rewrite <- Hsc by (rewrite elem_of_app; auto). by destruct x. }
    intros x y (x' & -> & Hx)%list_elem_of_fmap (y' & -> & Hy)%list_elem_of_fmap.
    specialize (Hb _ _ Hx Hy). rewrite <- !Hsc by (rewrite elem_of_app; auto). by destruct x', y'.
Qed.

Lemma still_fresh slots :
  triple still (promote_backlog_candidates sch st slots)
    (λ cs w, (∃ fresh rest, cs = (λ t, MkCandidate t false EmptyString) <$> fresh ∧ backlog_choice slots fresh rest) ∧ still w).
Proof.
  unfold promote_backlog_candidates. eapply triple_bind; [apply still_list|]. intros backlog. apply triple_pure. intros [Hnd Hb].
  eapply triple_bind; [apply still_startable|]. intros r. apply triple_pure. intros (Hm & Hsub & Hall).
  apply (triple_bind _ _ _ (λ sc w, (∃ order, sc = CriticalPathScores order (ID <$> r.1) s0) ∧ still w)).
  { intros w Hw. apply still_arrive in Hw. unfold read_range, read. cbn [fst snd]. rewrite Hw. split; [by eexists|done]. }
  intros sc. apply triple_pure. intros [order ->].
  apply (triple_bind _ _ _ (λ _, still)).
  { destruct (r.2) as [due|]; [|by apply triple_ret]. unfold ensureScheduledPromoteTrigger.
    apply (triple_bind _ _ _ (λ _, still)); [intros w; apply still_arrive|]. intros n.
    destruct (Z.leb _ _); [by apply triple_ret|]. intros w Hw. exact Hw. }
  intros ?. apply triple_ret. intros w Hw. split; [|done].
  destruct (best_choice slots r.1 order) as [rest Hr]; [by eapply sublist_NoDup|done|..].
  - intros t Ht. apply Hb. by eapply elem_of_sublist.
  - intros t Hl Hs. apply Hall; [by apply Hb|done].
  - eexists _, rest. split; [reflexivity|exact Hr].
Qed.

Definition resume_of t : candidate := MkCandidate t true (PendingTestFeedback t).
Definition fresh_of t : candidate := MkCandidate t false EmptyString.

Lemma still_phase1 :
  triple still (promote_phase1 sch st) (λ cs _, ∃ resumed fresh rest n,
    cs = ((resume_of <$> resumed) ++ (fresh_of <$> fresh))%list ∧
    NoDup resumed ∧ (∀ t, t ∈ resumed ↔ live TaskStatusWaiting t ∧ resume_eligible t = true) ∧
    let slots := maxConcurrentTasks st n - Z.of_nat (size (running s0)) in
    if bool_decide (slots <= 0) then fresh = [] else backlog_choice slots fresh rest).
Proof.
  unfold promote_phase1. eapply triple_bind; [apply still_list|]. intros waiting. apply triple_pure. intros [Hnd Hw].
  eapply triple_bind; [apply still_count|]. intros ?. apply triple_pure. intros ->.
  apply (triple_bind _ _ _ (λ l w, (∃ n, l = maxConcurrentTasks st n) ∧ still w)).
  { intros w Hs. split; [by eexists|by apply still_arrive]. }
  intros ?. apply triple_pure. intros [n ->]. set (ts := filter (λ t, resume_eligible t = true) waiting).
  assert (∀ t, t ∈ ts ↔ live TaskStatusWaiting t ∧ resume_eligible t = true) as Hts.
  { intros t. unfold ts. rewrite list_elem_of_filter, Hw. naive_solver. }
  assert (NoDup ts) as Hndt by (by apply NoDup_filter).
  destruct (Z.leb_spec (maxConcurrentTasks st n - Z.of_nat (size (running s0))) 0).
  - apply triple_ret. intros w _. exists ts, [], [], n. cbn. rewrite app_nil_r, bool_decide_true by done. done.
  - eapply triple_bind; [apply still_fresh|]. intros cs. apply triple_pure. intros (fresh & rest & -> & Hc).
    apply triple_ret. intros w _. exists ts, fresh, rest, n. cbn. rewrite bool_decide_false by lia. done.
Qed.
End selection.


(** ** Review slots *)

Section review.
Context `{UUIDLib} {B : Type} `{!StorageBackend B}.
Variables (sch : Schedule B) (st : Settings).
Implicit Types (w : World B) (i : uuid).

(** The verifiers that were started, in order. *)
Definition verifier (e : Effect) : option uuid := match e with ReviewBackground i => Some i | _ => None end.
Definition verifiers w : list uuid := omap verifier (w_effects w).

(** From the slots [R] and the verifiers [l] on: within the cap, one new
    verifier for each new slot. *)
Definition slots_from (R : gset uuid) (l : list uuid) w : Prop :=
  (Z.of_nat (size R) <= maxConcurrentReview → Z.of_nat (size (w_reviews w)) <= maxConcurrentReview) ∧
  ∃ new, verifiers w = (l ++ new)%list ∧ NoDup new ∧ R ## list_to_set new ∧ w_reviews w = list_to_set new ∪ R.

Lemma list_to_set_snoc (l : list uuid) i : list_to_set (C:=gset uuid) (l ++ [i]) = {[i]} ∪ list_to_set l.
Proof. apply set_eq. intros x. rewrite elem_of_list_to_set, elem_of_app, list_elem_of_singleton, elem_of_union, elem_of_singleton, elem_of_list_to_set. tauto. Qed.

Lemma slots_begin R l i :
  triple (slots_from R l) (ok ← beginReview i; if (ok : bool) then emit (ReviewBackground i) else mret tt) (λ _, slots_from R l).
Proof.
  intros w (Hc & new & Hv & Hn & Hd & Hr). rewrite bind_run. unfold beginReview.
  destruct (decide (i ∈ w_reviews w)) as [|Hi]; [by split; [|exists new]|].
  destruct (Z.leb_spec maxConcurrentReview (Z.of_nat (size (w_reviews w)))); [by split; [|exists new]|]. cbn [fst snd]. split.
  - intros _. cbn. rewrite size_union, size_singleton by set_solver. lia.
  - exists (new ++ [i])%list. unfold verifiers in *. cbn. rewrite omap_app, Hv, <- app_assoc. split; [done|].
    rewrite Hr in Hi. split.
    + apply NoDup_app. split; [done|]. split; [|apply NoDup_singleton]. intros x Hx ->%list_elem_of_singleton.
      apply Hi, elem_of_union_l. by apply elem_of_list_to_set.
    + rewrite not_elem_of_union in Hi. destruct Hi as [Hi1 Hi2]. rewrite Hr, list_to_set_snoc. split.
      * rewrite disjoint_union_r. split; [|done]. by apply disjoint_singleton_r.
      * by rewrite (assoc_L (∪)).
Qed.

Lemma slots_each R l ts : triple (slots_from R l) (review_each ts) (λ _, slots_from R l).
Proof.
  induction ts as [|t ts IH]; [by apply triple_ret|]. cbn [review_each].
  intros w Hw. pose proof (slots_begin R l (ID t) w Hw) as Hb. rewrite bind_run in Hb |- *.
  destruct (beginReview (ID t) w) as [ok w1]. cbn [fst snd] in *. rewrite bind_run. by apply IH.
Qed.

(** C32: The review watcher never runs more than two verifiers at a time nor two
    for one task: it starts one verifier for each slot it takes and for no task
    that holds one already, and takes none beyond the cap. *)
Theorem tryAutoReview_slots w : slots_from (w_reviews w) (verifiers w) (tryAutoReview sch st w).2.
Proof.
  assert (triple (slots_from (w_reviews w) (verifiers w)) (tryAutoReview sch st) (λ _, slots_from (w_reviews w) (verifiers w))) as Ht.
  { unfold tryAutoReview, enabled, breaker_isOpen. set (P := slots_from _ _).
    apply (triple_bind _ _ _ (λ _, P)).
    - apply (triple_bind _ _ _ (λ _, P)); [intros w' Hw; exact Hw|]. intros on. destruct (negb on); [by apply triple_ret|].
      apply (triple_bind _ _ _ (λ _, P)); [|intros ?; by apply triple_ret].
      apply (triple_bind _ _ _ (λ _, P)); [intros w' Hw; exact Hw|]. intros n w' Hw. exact Hw.
    - intros on. destruct (negb on); [by apply triple_ret|].
      apply (triple_bind _ _ _ (λ _, P)); [intros w' Hw; exact Hw|]. intros ts. apply slots_each. }
  apply Ht. split; [done|]. exists []. rewrite app_nil_r. split_and!; [done|constructor|set_solver|set_solver].
Qed.
End review.
