(* ===== verification/AutomationRun.v ===== *)
(** * Concrete runs of the watchers

    Witnesses for the theorems of AutomationSpec, and runs of the watchers
    together with the turn loop that show two caps that do not hold and two
    decisions taken on a task that has changed since. *)

From S2P Require Import Prelude Breaker StateMachine GoStrings GoText PkgUtil TaskModel Backend Store StoreUpdate StoreWf StoreRestart StoreSpec StoreQuery Verdict World WorldRules Runner RunnerSpec RunnerRun Execute ExecuteSpec Automation AutomationSpec.
From Stdlib Require Import String.
From stdpp Require Import list gmap.
Local Open Scope Z_scope.
Local Open Scope string_scope.

Module AutomationRun.
#[local] Existing Instance text_uuid.
Import RunnerRun ExecuteRun.

(** Everything on, two tasks in parallel, no remote. *)
Definition on (_ : nat) : bool := true.
Definition settings : Settings := MkSettings on on on on (λ _, false) (λ _, None) (λ _, None) (λ _, 2) (λ _, 2) (λ _ _, false) on
  (λ _ _ _, MkRepoState false true true None (Some 0) (Some false)).

Definition text (_ : store_error) : string := "store error".

Definition backlog : Task := task <| Status := TaskStatusBacklog |> <| WorktreePaths := ∅ |> <| SessionID := None |>.

Lemma any_order_fair n (m : gmap (@uuid text_uuid) Task) : NoDup (any_order n m) ∧ ∀ i, i ∈ any_order n m ↔ is_Some (m !! i).
Proof. split; [apply NoDup_fst_map_to_list|]. intros i. apply any_order_covers. Qed.

Lemma one_wf t faults : ID t = idA → store_wf id (store_with t faults).
Proof.
  intros Ht. unfold store_with. destruct (NewStore id (Mem (Contents {[idA := t]} ∅ ∅) faults) 10 10 10 100) as [s|e] eqn:E.
  - apply (NewStore_wf id _ 10 10 10 100 s) in E; [done|]. intros i u. cbn. by intros [<- <-]%lookup_singleton_Some.
  - apply (NewStore_wf id (Mem (Contents ∅ ∅ ∅) []) 0 0 0 0); [|done]. intros i u. cbn. by rewrite lookup_empty.
Qed.

Definition locked (w : World MemBackend) : World MemBackend := w <| w_locked := true |>.

(** While the lock is held another goroutine puts the task in progress, as a fired
    routine does with its instance. *)
Definition starts_one : Schedule MemBackend :=
  MkSchedule (λ locked _ s, if locked then (status_to idA TaskStatusInProgress 7 7 s).2 else s) Z.of_nat any_order.

Lemma starts_one_only : bystanders id starts_one {[idA]}.
Proof.
  split; [|intros n s|intros n m; apply any_order_fair].
  - intros n s Hs. exact (store_wf_step id s _ (proj1 (starts_status id idA TaskStatusInProgress 7 7 s)) Hs).
  - pose proof (proj2 (starts_status id idA TaskStatusInProgress 7 7 s)). cbn. set_solver.
Qed.

Lemma promote_capacity_witness :
  let w := locked (world backlog []) in
  let w' := (promote_phase2 starts_one settings text [fresh_of backlog; fresh_of backlog] w).2 in
  w_locked w = true ∧ Status <$> tasks (w_store w') !! idA = Some TaskStatusInProgress ∧ (size (running (w_store w')) ≤ Nat.max 0 2 + 0 + 1)%nat.
Proof.
  split; [reflexivity|]. split; [vm_compute; reflexivity|].
  apply (promote_capacity id starts_one settings text {[idA]} starts_one_only 2 (λ _, Z.le_refl 2) [fresh_of backlog; fresh_of backlog]
    (locked (world backlog []))); [apply one_wf; reflexivity|reflexivity].
Defined.

Definition passed : Task := task <| Status := TaskStatusWaiting |> <| LastTestResult := "pass" |>.



(** ** Two caps *)

(** The promoter starts the task, its worktree cannot be set up, and the
    retrier looks at the failed tasks. *)
Definition failing_round (w : World MemBackend) : World MemBackend :=
  let w := (tryAutoPromote alone settings text w).2 in
  let w := (run alone EmptyString [] w).2 in
  (retryAll id alone settings text w).2.

(** After twelve rounds, four times the cap of retries, the task is retried
    again: every retry gives the whole budget back. *)
Lemma retries_unbounded :
  MaxAutoRetries = 3 ∧
  (λ t, (Status t, AutoRetryCount t)) <$> tasks (w_store (Nat.iter 12 failing_round (world backlog []))) !! idA = Some (TaskStatusBacklog, 0) ∧
  length (filter (λ e, match e with RunBackground _ _ _ _ => true | _ => false end = true)
    (w_effects (Nat.iter 12 failing_round (world backlog [])))) = 12%nat.
Proof. split_and!; vm_compute; reflexivity. Qed.

(** The promoter resumes the task with the failed test, its agent ends a turn,
    the tester tests it again, and the test fails again. *)
Definition failing_test : Task := task <| Status := TaskStatusWaiting |> <| LastTestResult := "fail" |>
  <| PendingTestFeedback := "it fails" |> <| TestFailCount := 1 |>.

Definition test_round (w : World MemBackend) : World MemBackend :=
  let w := (tryAutoPromote alone settings text w).2 in
  let w := (run alone "impl" [Runner.Answers (says "end_turn" "impl" "fixed")] w).2 in
  let w := (tryAutoTest alone answers settings text w).2 in
  (run alone EmptyString [Runner.Answers (says "end_turn" "test" "**FAIL**")] w).2.

(** After nine rounds, three times the cap, the count of failures is one and the
    task is resumed again: every resume sets the count to zero. *)
Lemma resumes_unbounded :
  MaxTestFailRetries = 3 ∧
  (λ t, (Status t, LastTestResult t, TestFailCount t)) <$> tasks (w_store (Nat.iter 9 test_round (world failing_test []))) !! idA =
    Some (TaskStatusWaiting, "fail", 1) ∧
  length (filter (λ e, match e with RunBackground _ _ _ true => true | _ => false end = true)
    (w_effects (Nat.iter 9 test_round (world failing_test [])))) = 9%nat.
Proof. split_and!; vm_compute; reflexivity. Qed.

(** ** Decisions on a task that has changed *)

(** Another goroutine sets the verdict of the tests between the two phases: the
    task is submitted although its tests failed. *)
Lemma submit_stale_verdict :
  let w' := (tryAutoSubmit (meanwhile 7 (UpdateTaskTestRun 5 idA false "fail")) answers settings text (world passed [])).2 in
  (λ t, (Status t, LastTestResult t)) <$> tasks (w_store w') !! idA = Some (TaskStatusCommitting, "fail").
Proof. vm_compute. reflexivity. Qed.
End AutomationRun.
