(* ===== verification/TaskRequests.v ===== *)
(** * Task requests (internal/handler: tasks.go; [taskReachable] of tasks_autoimplement.go)

    Creating, patching, deleting, listing and searching tasks, whole handlers
    after the body is decoded: a request is the decoded record, with an option
    for each pointer.  Parameters: [fresh] is what [uuid.New] returns, [compile]
    is [regexp.Compile] ([inl] with the text of the error), [unusable] is the
    reason why a harness cannot be used, if any ([sandboxUsable]), [high] says
    which characters beyond ASCII strconv prints, [parse_error] is the text of an
    error of [uuid.Parse], [lock_holder] the thread that holds the lock of a task. *)

From S2P Require Import Prelude Dag TaskBatch Breaker StateMachine GoStrings GoText PkgUtil TaskModel Backend Store StoreUpdate StoreWf StoreQuery Verdict World WorldRules Runner Execute Automation.
From Stdlib Require Import String.
From stdpp Require Import list gmap.
Local Open Scope Z_scope.
Local Open Scope string_scope.
#[local] Arguments String.append : simpl nomatch.

(** The body of [POST /api/tasks]. *)
Record CreateRequest := MkCreate {
  c_Prompt : string;
  c_Criteria : string;
  c_Timeout : Z;
  c_MountWorktrees : bool;
  c_Sandbox : option string;
  c_SandboxByActivity : gmap string string;
  c_Kind : TaskKind;
  c_Flow : string;
  c_Tags : list string;
  c_MaxCostUSD : float64;
  c_MaxInputTokens : Z;
  c_Model : string;
  c_ScheduledAt : option Z;
  c_CustomPassPatterns : list string;
  c_CustomFailPatterns : list string
}.

(** [batchTaskInput]. *)
Record batchTaskInput := MkBatchTask {
  b_Ref : string;
  b_Prompt : string;
  b_Criteria : string;
  b_Timeout : Z;
  b_Tags : list string;
  b_Sandbox : option string;
  b_SandboxByActivity : option (gmap string string);
  b_Flow : string;
  b_Kind : TaskKind;
  b_MountWorktrees : bool;
  DependsOnRefs : list string;
  b_SpecSourcePath : string
}.

(** The field [scheduled_at]: absent, or present with the error of its decoding
    or the time ([None] for null and for the zero time). *)
Inductive ScheduleField := NoSchedule | BadSchedule (err : string) | SetSchedule (at_ : option Z).

(** The body of [PATCH /api/tasks/{id}]. *)
Record PatchRequest := MkPatch {
  p_Status : option TaskStatus;
  p_Position : option Z;
  p_Prompt : option string;
  p_Criteria : option string;
  p_Timeout : option Z;
  p_FreshStart : option bool;
  p_MountWorktrees : option bool;
  p_Sandbox : option string;
  p_SandboxByActivity : option (gmap string string);
  p_DependsOn : option (list string);
  p_Tags : option (list string);
  p_Archived : option bool;
  p_Deleted : option bool;
  p_MaxCostUSD : option float64;
  p_MaxInputTokens : option Z;
  p_Model : option string;
  p_ScheduledAt : ScheduleField;
  p_CustomPassPatterns : option (list string);
  p_CustomFailPatterns : option (list string)
}.

(** ** Dependencies *)

Definition parse_deps `{UUIDLib} (deps : list string) : list uuid := omap uuid_Parse deps.

(** [adj[t.ID] = append(adj[t.ID], id)]; a task without a dependency has no entry. *)
Definition add_deps `{UUIDLib} (adj : gmap uuid (list uuid)) (id : uuid) (deps : list uuid) : gmap uuid (list uuid) :=
  foldl (λ adj d, <[id := (succs adj id ++ [d])%list]> adj) adj deps.

Definition dep_adj `{UUIDLib} (ts : list Task) : gmap uuid (list uuid) :=
  foldl (λ adj t, add_deps adj (ID t) (parse_deps (DependsOn t))) ∅ ts.

Definition taskReachable `{UUIDLib} (ts : list Task) (start target : uuid) : option bool :=
  taskReachableInAdj (dep_adj ts) start target.

Section requests.
Context `{UUIDLib} {B : Type} `{!StorageBackend B} (tbl : Z → Z) (high : Z → bool).
Variables (sch : Schedule B) (st : Settings) (actor : Actor).
Variables (compile : string → string + unit) (unusable : string → option string) (parse_error : string → string) (lock_holder : uuid → string).
Abbreviation W := (W (B:=B)).
Abbreviation op := (op sch).
Abbreviation get_task := (get_task sch).
Abbreviation log id ty data := (event_as sch actor id ty data).
Abbreviation change id from to trigger := (state_change sch actor id from to trigger).
Abbreviation Quote := (Quote high).

(** An operation whose error is the response. *)
Definition fallible {A} (o : Z → Z → M (B:=B) A) (k : A → W Response) : W Response :=
  e ← op o;
  match e with Err e => mret (StoreError e 500) | Ok a => k a end.

Definition answer_task (id : uuid) : W Response :=
  r ← get_task id;
  mret (match r with Ok t => TaskJSON 200 t | Err e => StoreError e 500 end).

Fixpoint bad_pattern (patterns : list string) : option (string * string) :=
  match patterns with
  | [] => None
  | p :: rest => match compile p with inl err => Some (p, err) | inr _ => bad_pattern rest end
  end.

Definition validateCustomPatterns (pass fail : list string) : option string :=
  match bad_pattern pass with
  | Some (p, err) => Some ("invalid custom_pass_pattern " +:+ Quote p +:+ ": " +:+ err)
  | None => match bad_pattern fail with
            | Some (p, err) => Some ("invalid custom_fail_pattern " +:+ Quote p +:+ ": " +:+ err)
            | None => None
            end
  end.

(** [order] is the order in which the map is ranged over. *)
Definition validateRequestedSandboxes (taskSandbox : string) (order : list string) (byActivity : gmap string string) : option string :=
  match unusable taskSandbox with
  | Some reason => Some reason
  | None => head (omap (λ a, match byActivity !! a with Some sb => unusable sb | None => None end) order)
  end.

(** ** Creating one task *)

Definition created_by (p : option Principal) (o : TaskCreateOptions) : TaskCreateOptions :=
  match p with
  | Some p => MkOptions (o_ID o) (o_Prompt o) (o_Criteria o) (o_Timeout o) (o_MountWorktrees o) (o_Kind o) (o_FlowID o) (o_Tags o)
      (o_Sandbox o) (o_SandboxByActivity o) (o_MaxCostUSD o) (o_MaxInputTokens o) (o_ScheduledAt o) (o_DependsOn o)
      (o_SpecSourcePath o) (o_ModelOverride o) (o_CustomPassPatterns o) (o_CustomFailPatterns o) (o_RoutineIntervalSeconds o)
      (o_RoutineEnabled o) (o_RoutineSpawnKind o) (o_RoutineSpawnFlow o) (Sub p) (p_OrgID p)
  | None => o
  end.

(** The event and the title of a new task. *)
Definition announce (t : Task) : W unit :=
  change (ID t) EmptyString TaskStatusBacklog TriggerUser ;;
  emit (GenerateTitle (ID t) (Prompt t)).

Definition create_options (req : CreateRequest) : TaskCreateOptions :=
  MkOptions uuid_Nil (c_Prompt req) (c_Criteria req) (c_Timeout req) (c_MountWorktrees req) (c_Kind req) (c_Flow req) (c_Tags req)
    EmptyString ∅ (c_MaxCostUSD req) (c_MaxInputTokens req) (c_ScheduledAt req) [] EmptyString (c_Model req)
    (c_CustomPassPatterns req) (c_CustomFailPatterns req) 0 false EmptyString EmptyString EmptyString EmptyString.

Definition dq : string := of_bytes [34].
Definition rarrow : string := of_bytes [226; 134; 146].

Definition CreateTask (fresh : uuid) (p : option Principal) (req : CreateRequest) : W Response :=
  if bool_decide (is_Some (c_Sandbox req)) then
    mret (HttpError ("the " +:+ dq +:+ "sandbox" +:+ dq +:+ " field is no longer accepted on POST /api/tasks; pin the harness on the agent a flow step references (Agents tab " +:+ rarrow +:+ " Clone " +:+ rarrow +:+ " Harness: codex), or set the task's sandbox via PATCH /api/tasks/{id} after creation") 400)
  else if negb (bool_decide (c_SandboxByActivity req = ∅)) then
    mret (HttpError ("the " +:+ dq +:+ "sandbox_by_activity" +:+ dq +:+ " field is no longer accepted on POST /api/tasks; per-activity routing lives on the agent definition now (Agents tab " +:+ rarrow +:+ " Harness)") 400)
  else if bool_decide (TrimSpace (c_Prompt req) = EmptyString) then mret (HttpError "prompt is required" 400)
  else match validateCustomPatterns (c_CustomPassPatterns req) (c_CustomFailPatterns req) with
       | Some err => mret (HttpError err 400)
       | None =>
         fallible (λ n _, CreateTaskWithOptions tbl [] fresh n (created_by p (create_options req))) (λ t,
         announce t ;;
         mret (TaskJSON 201 t))
       end.

(** ** Creating a batch *)

Definition batchRefLabel (ref : string) (i : nat) : string :=
  if bool_decide (ref = EmptyString) then "<index " +:+ pretty_Z (Z.of_nat i) +:+ ">" else ref.

(** Step 1: the refs and their positions; the ref that repeats. *)
Fixpoint collect_refs (ts : list batchTaskInput) (i : nat) (refs : gmap string nat) : string + gmap string nat :=
  match ts with
  | [] => inr refs
  | t :: rest =>
    if bool_decide (b_Ref t = EmptyString) then collect_refs rest (S i) refs
    else match refs !! b_Ref t with
         | Some _ => inl (b_Ref t)
         | None => collect_refs rest (S i) (<[b_Ref t := i]> refs)
         end
  end.

(** Step 2: a task without a prompt. *)
Definition unprompted (ts : list batchTaskInput) : option string :=
  head (omap (λ t, if bool_decide (TrimSpace (b_Prompt t) = EmptyString)
                   then Some (if bool_decide (b_Ref t = EmptyString) then "<unnamed>" else b_Ref t) else None) ts).

(** Step 3: a task that still names a harness. *)
Definition deprecated (ts : list batchTaskInput) : option string :=
  head (omap (λ '(i, t),
    if bool_decide (is_Some (b_Sandbox t)) then
      Some ("ref " +:+ Quote (batchRefLabel (b_Ref t) i) +:+ ": " +:+ dq +:+ "sandbox" +:+ dq +:+
            " is no longer accepted on POST /api/tasks/batch; pin the harness on the agent a flow step references")
    else if bool_decide (is_Some (b_SandboxByActivity t)) then
      Some ("ref " +:+ Quote (batchRefLabel (b_Ref t) i) +:+ ": " +:+ dq +:+ "sandbox_by_activity" +:+ dq +:+
            " is no longer accepted on POST /api/tasks/batch")
    else None) (imap pair ts)).

(** Step 4: a dependency that is neither a ref nor an identifier. *)
Definition unknown_ref (refs : gmap string nat) (ts : list batchTaskInput) : option string :=
  head (imap pair ts ≫= λ '(i, t),
    omap (λ dep, match refs !! dep, uuid_Parse dep with
                 | None, None => Some ("ref " +:+ Quote (batchRefLabel (b_Ref t) i) +:+ ": unknown ref in depends_on_refs: " +:+ Quote dep)
                 | _, _ => None
                 end) (DependsOnRefs t)).

(** Step 5: the dependencies inside the batch, as (dependency, dependent). *)
Definition batch_edges (refs : gmap string nat) (ts : list batchTaskInput) : list (nat * nat) :=
  imap pair ts ≫= λ '(i, t), omap (λ dep, match refs !! dep with Some d => Some (d, i) | None => None end) (DependsOnRefs t).

Definition cycle_refs (order : list nat) (ts : list batchTaskInput) : list string :=
  omap (λ '(i, t), if bool_decide (i ∈ order) then None else Some (batchRefLabel (b_Ref t) i)) (imap pair ts).

(** Step 7: a dependency outside the batch that is not there. *)
Fixpoint externals_exist (refs : gmap string nat) (label : string) (deps : list string) : W (option string) :=
  match deps with
  | [] => mret None
  | dep :: rest =>
    match refs !! dep with
    | Some _ => externals_exist refs label rest
    | None =>
      r ← get_task (default uuid_Nil (uuid_Parse dep));
      match r with
      | Err _ => mret (Some ("ref " +:+ Quote label +:+ ": dependency task not found: " +:+ dep))
      | Ok _ => externals_exist refs label rest
      end
    end
  end.

Fixpoint externals_all (refs : gmap string nat) (ts : list (nat * batchTaskInput)) : W (option string) :=
  match ts with
  | [] => mret None
  | (i, t) :: rest =>
    e ← externals_exist refs (batchRefLabel (b_Ref t) i) (DependsOnRefs t);
    match e with Some e => mret (Some e) | None => externals_all refs rest end
  end.

(** Step 8: the graph of the stored tasks and of the batch. *)
Definition resolve_dep (refs : gmap string nat) (ids : list uuid) (dep : string) : uuid :=
  match refs !! dep with
  | Some d => default uuid_Nil (ids !! d)
  | None => default uuid_Nil (uuid_Parse dep)
  end.

Definition combined_adj (refs : gmap string nat) (ids : list uuid) (stored : list Task) (ts : list batchTaskInput) : gmap uuid (list uuid) :=
  foldl (λ adj '(id, t), add_deps adj id (resolve_dep refs ids <$> DependsOnRefs t)) (dep_adj stored) (zip ids ts).

(** The first task of the batch that a dependency of its own leads back to. *)
Definition batch_cycle (adj : gmap uuid (list uuid)) (ids : list uuid) (ts : list batchTaskInput) : option string :=
  head (omap (λ '(i, (id, t)),
    if existsb (λ d, bool_decide (taskReachableInAdj adj d id ≠ Some false)) (succs adj id)
    then Some (batchRefLabel (b_Ref t) i) else None) (imap pair (zip ids ts))).

(** The dependencies of a task of the batch, in its final form. *)
Definition dep_strings (refToID : gmap string uuid) (t : batchTaskInput) : list string :=
  (λ dep, match refToID !! dep with Some id => uuid_String id | None => dep end) <$> DependsOnRefs t.

Definition batch_options (p : option Principal) (id : uuid) (deps : list string) (t : batchTaskInput) : TaskCreateOptions :=
  created_by p (MkOptions id (b_Prompt t) (b_Criteria t) (b_Timeout t) (b_MountWorktrees t) (b_Kind t) (b_Flow t) (b_Tags t)
    EmptyString ∅ f64_zero 0 None deps (b_SpecSourcePath t) EmptyString [] [] 0 false EmptyString EmptyString EmptyString EmptyString).

(** The tasks are created in topological order. *)
Fixpoint persist (p : option Principal) (ids : list uuid) (ts : list batchTaskInput) (order : list nat) (refToID : gmap string uuid)
  : W (result store_error (gmap string uuid)) :=
  match order with
  | [] => mret (Ok refToID)
  | idx :: rest =>
    match ts !! idx, ids !! idx with
    | Some t, Some id =>
      e ← op (λ n _, CreateTaskWithOptions tbl [] id n (batch_options p id (dep_strings refToID t) t));
      match e with
      | Err e => mret (Err e)
      | Ok task =>
        announce task ;;
        persist p ids ts rest (if bool_decide (b_Ref t = EmptyString) then refToID else <[b_Ref t := ID task]> refToID)
      end
    | _, _ => mret (Ok refToID)
    end
  end.

Fixpoint read_back (ids : list uuid) (acc : list Task) : W (result store_error (list Task)) :=
  match ids with
  | [] => mret (Ok acc)
  | id :: rest =>
    r ← get_task id;
    match r with Err e => mret (Err e) | Ok t => read_back rest (acc ++ [t])%list end
  end.

(** Steps 1 to 5, which read nothing: the refusal, or the refs and the order. *)
Definition preflight (ts : list batchTaskInput) : Response + (gmap string nat * list nat) :=
  if bool_decide (ts = []) then inl (HttpError "tasks must not be empty" 400)
  else if Nat.ltb 50 (length ts) then inl (HttpError "tasks must not exceed 50 items" 400)
  else match collect_refs ts 0 ∅ with
       | inl ref => inl (HttpError ("duplicate ref: " +:+ Quote ref) 400)
       | inr refs =>
         match unprompted ts with
         | Some ref => inl (HttpError ("ref " +:+ Quote ref +:+ ": prompt is required") 400)
         | None =>
           match deprecated ts with
           | Some msg => inl (HttpError msg 400)
           | None =>
             match unknown_ref refs ts with
             | Some msg => inl (HttpError msg 400)
             | None =>
               let order := default [] (batch_order (length ts) (batch_edges refs ts)) in
               if Nat.eqb (length order) (length ts) then inr (refs, order) else inl (CycleJSON (cycle_refs order ts))
             end
           end
         end
       end.

(** [ids] are the identifiers assigned in step 6. *)
Definition BatchCreateTasks (ids : list uuid) (p : option Principal) (ts : list batchTaskInput) : W Response :=
  match preflight ts with
  | inl refusal => mret refusal
  | inr (refs, order) =>
    missing ← externals_all refs (imap pair ts);
    match missing with
    | Some msg => mret (JSON 422 [("error", msg)])
    | None =>
      stored ← read_range sch (λ order, ListTasks order true);
      match batch_cycle (combined_adj refs ids stored ts) ids ts with
      | Some ref => mret (JSON 422 [("error", "ref " +:+ Quote ref +:+ ": dependency would create a cycle")])
      | None =>
        r ← persist p ids ts order ∅;
        match r with
        | Err e => mret (StoreError e 500)
        | Ok refToID =>
          final ← read_back ids [];
          mret (match final with
                | Err e => StoreError e 500
                | Ok created => BatchJSON created (uuid_String <$> refToID)
                end)
        end
      end
    end
  end.

(** ** Patching *)

Definition applyRestore (id : uuid) : W (option store_error) :=
  e ← op (λ _ _, RestoreTask tbl id);
  match e with
  | Err e => mret (Some e)
  | Ok _ => emit (UnarchiveThreads id) ;; mret None
  end.

Definition given {A} (v : option A) : bool := bool_decide (is_Some v).

(** Some field that only a backlog task takes is present. *)
Definition edits_backlog (req : PatchRequest) : bool :=
  match p_Prompt req, p_Criteria req, p_Timeout req, p_FreshStart req, p_MountWorktrees req, p_Sandbox req with
  | None, None, None, None, None, None =>
    match p_SandboxByActivity req, p_MaxCostUSD req, p_MaxInputTokens req, p_Model req, p_CustomPassPatterns req, p_CustomFailPatterns req with
    | None, None, None, None, None, None => false
    | _, _, _, _, _, _ => true
    end
  | _, _, _, _, _, _ => true
  end.

(** An update that is made when its field is present. *)
Definition when {A} (v : option A) (o : A → Z → Z → M (B:=B) unit) (k : W Response) : W Response :=
  match v with
  | Some a => fallible (o a) (λ _, k)
  | None => k
  end.

Definition patterns_field (req : PatchRequest) (t : Task) : option (list string * list string) :=
  match p_CustomPassPatterns req, p_CustomFailPatterns req with
  | None, None => None
  | pass, fail => Some (default (CustomPassPatterns t) pass, default (CustomFailPatterns t) fail)
  end.

(** The edits of a backlog task; [order] is the order of its sandbox map. *)
Definition patch_backlog (order : list string) (id : uuid) (t : Task) (req : PatchRequest) (k : W Response) : W Response :=
  if negb (bool_decide (Status t = TaskStatusBacklog)) || negb (edits_backlog req) then k
  else
    let sandbox := default (Sandbox t) (p_Sandbox req) in
    let activity := default (SandboxByActivity t) (p_SandboxByActivity req) in
    match validateRequestedSandboxes sandbox order activity with
    | Some reason => mret (HttpError reason 400)
    | None =>
      match validateCustomPatterns (default [] (p_CustomPassPatterns req)) (default [] (p_CustomFailPatterns req)) with
      | Some err => mret (HttpError err 400)
      | None =>
        fallible (λ n _, UpdateTaskBacklog tbl n order id (p_Prompt req) (p_Timeout req) (p_FreshStart req) (p_MountWorktrees req)
                    (p_SandboxByActivity req) (p_MaxCostUSD req) (p_MaxInputTokens req)) (λ _,
        when (p_Criteria req) (λ v n _, UpdateTaskCriteria n id v) (
        when (p_Sandbox req) (λ v n _, UpdateTaskSandbox tbl n id v) (
        when (p_Model req) (λ v n _, UpdateTaskModelOverride n id v) (
        when (patterns_field req t) (λ v n _, UpdateTaskCustomPatterns n id v.1 v.2) k))))
      end
    end.

Definition patch_schedule (id : uuid) (t : Task) (req : PatchRequest) (k : W Response) : W Response :=
  if negb (bool_decide (Status t = TaskStatusBacklog)) then k
  else match p_ScheduledAt req with
       | NoSchedule => k
       | BadSchedule err => mret (HttpError ("invalid scheduled_at: " +:+ err) 400)
       | SetSchedule v => fallible (λ n _, UpdateTaskScheduledAt n id v) (λ _, k)
       end.

Definition patch_budget (id : uuid) (t : Task) (req : PatchRequest) (k : W Response) : W Response :=
  if bool_decide (Status t = TaskStatusWaiting) && (given (p_MaxCostUSD req) || given (p_MaxInputTokens req)) then
    fallible (λ n _, UpdateTaskBudget n id (p_MaxCostUSD req) (p_MaxInputTokens req)) (λ _, k)
  else k.

(** The new dependencies, checked one by one: the refusal or their identifiers. *)
Fixpoint check_deps (id : uuid) (deps : list string) (acc : list uuid) : W (Response + list uuid) :=
  match deps with
  | [] => mret (inr acc)
  | dep :: rest =>
    match uuid_Parse dep with
    | None => mret (inl (HttpError ("invalid dependency UUID " +:+ Quote dep +:+ ": " +:+ parse_error dep) 400))
    | Some depID =>
      if bool_decide (depID = id) then mret (inl (HttpError "task cannot depend on itself" 400))
      else
        r ← get_task depID;
        match r with
        | Err _ => mret (inl (HttpError ("dependency task not found: " +:+ dep) 400))
        | Ok _ => check_deps id rest (acc ++ [depID])%list
        end
    end
  end.

(** The first dependency that leads back to [id]. *)
Definition closing (ts : list Task) (id : uuid) (deps : list uuid) : option uuid :=
  head (filter (λ d, taskReachable ts d id ≠ Some false) deps).

Definition patch_depends (id : uuid) (req : PatchRequest) (k : W Response) : W Response :=
  match p_DependsOn req with
  | None => k
  | Some deps =>
    c ← check_deps id deps [];
    match c with
    | inl refusal => mret refusal
    | inr ids =>
      ts ← read_range sch (λ order, ListTasks order true);
      match closing ts id ids with
      | Some d => mret (HttpError ("dependency on " +:+ uuid_String d +:+ " would create a cycle") 400)
      | None => fallible (λ n _, UpdateTaskDependsOn n id (uuid_String <$> ids)) (λ _, k)
      end
    end
  end.

Definition resume_session (t : Task) : string := if FreshStart t then EmptyString else session_of t.

(** Back to the backlog, for a retry. *)
Definition patch_retry (id : uuid) (t : Task) (req : PatchRequest) : W Response :=
  let newPrompt := default (Prompt t) (p_Prompt req) in
  let freshStart := default false (p_FreshStart req) in
  (if freshStart && negb (bool_decide (WorktreePaths t = ∅)) then emit (CleanupWorktrees id) else mret tt) ;;
  fallible (λ n1 n2, ResetTaskForRetry tbl n1 n2 id newPrompt freshStart) (λ _,
  change id (Status t) TaskStatusBacklog TriggerUser ;;
  emit (InvalidateDiff id) ;;
  answer_task id).

(** From the backlog to in progress. *)
Definition patch_start (id : uuid) (t : Task) : W Response :=
  r ← checkConcurrencyAndUpdateStatus sch st id TaskStatusInProgress;
  match r with
  | Some refusal => mret refusal
  | None =>
    change id (Status t) TaskStatusInProgress TriggerUser ;;
    emit (InvalidateDiff id) ;;
    emit (ArchiveThreads id) ;;
    emit (RunBackground id (Prompt t) (resume_session t) false) ;;
    answer_task id
  end.

Definition patch_cancel (id : uuid) (t : Task) : W Response :=
  if negb (bool_decide (Status t ∈ cancellableStatuses)) then mret (HttpError "task cannot be cancelled in its current status" 400)
  else
    e ← applyCancel sch actor t;
    match e with
    | Some e => mret (StoreError e 500)
    | None => answer_task id
    end.

(** Any other change of the status. *)
Definition patch_move (id : uuid) (t : Task) (newStatus : TaskStatus) : W Response :=
  e ← op (status_to id newStatus);
  match e with
  | Err (ErrTransition _ _ as e) => mret (StoreError e 400)
  | Err e => mret (StoreError e 500)
  | Ok _ =>
    change id (Status t) newStatus TriggerUser ;;
    emit (InvalidateDiff id) ;;
    (if bool_decide (Status t = TaskStatusBacklog ∨ Status t = TaskStatusWaiting) then emit (ArchiveThreads id) else mret tt) ;;
    (if bool_decide (newStatus = TaskStatusInProgress) && bool_decide (Status t = TaskStatusBacklog)
     then emit (RunBackground id (Prompt t) (resume_session t) false) else mret tt) ;;
    answer_task id
  end.

Definition retry_from : list TaskStatus := [TaskStatusDone; TaskStatusFailed; TaskStatusCancelled; TaskStatusWaiting].

Definition patch_status (id : uuid) (t : Task) (req : PatchRequest) (newStatus : TaskStatus) : W Response :=
  if bool_decide (newStatus = TaskStatusCancelled) then patch_cancel id t
  else if IsRoutine t then mret (HttpError "routine tasks cannot change status; use /api/routines endpoints" 422)
  else
    locked ← if bool_decide (Status t = newStatus) then mret false else ask sch (λ n, isTaskLockedByAgent st n id);
    if (locked : bool) then mret (JSON 409 [("error", "task is locked by an in-flight plan turn"); ("thread_id", lock_holder id)])
    else if bool_decide (newStatus = TaskStatusBacklog) && bool_decide (Status t ∈ retry_from) then patch_retry id t req
    else if bool_decide (newStatus = TaskStatusInProgress) && bool_decide (Status t = TaskStatusBacklog) && negb (IsTestRun t)
    then patch_start id t
    else if bool_decide (newStatus = TaskStatusInProgress) && negb (IsTestRun t)
    then mret (HttpError "cannot move a task to in_progress via PATCH; use resume, test, or feedback to start a worker" 400)
    else patch_move id t newStatus.

Definition patch_archived (id : uuid) (t : Task) (archived : bool) : W Response :=
  if archived && negb (bool_decide (Status t = TaskStatusDone)) && negb (bool_decide (Status t = TaskStatusCancelled))
  then mret (HttpError "only done or cancelled tasks can be archived" 400)
  else
    e ← applyArchive sch actor t archived;
    match e with
    | Some e => mret (StoreError e 500)
    | None => answer_task id
    end.

Definition patch_live (order : list string) (id : uuid) (req : PatchRequest) : W Response :=
  r ← get_task id;
  match r with
  | Err _ => mret (HttpError "task not found" 404)
  | Ok t =>
    match p_Archived req with
    | Some archived => patch_archived id t archived
    | None =>
      patch_backlog order id t req (
      patch_schedule id t req (
      patch_budget id t req (
      when (p_Position req) (λ v n _, UpdateTaskPosition n id v) (
      patch_depends id req (
      when (p_Tags req) (λ v n _, UpdateTaskTags tbl n id v) (
      match p_Status req with
      | Some newStatus => patch_status id t req newStatus
      | None => answer_task id
      end))))))
    end
  end.

Definition UpdateTask (order : list string) (id : uuid) (req : PatchRequest) : W Response :=
  match p_Deleted req with
  | Some true => mret (HttpError "soft-delete uses DELETE /api/tasks/{id}, not PATCH" 400)
  | Some false =>
    e ← applyRestore id;
    match e with
    | Some e => mret (StoreError e 500)
    | None => answer_task id
    end
  | None => patch_live order id req
  end.

(** ** Deleting, listing, searching *)

Definition DeleteTask_request (id : uuid) (reason : string) : W Response :=
  r ← get_task id;
  (match r with
   | Ok t => if bool_decide (WorktreePaths t = ∅) then mret tt else emit (CleanupWorktrees id)
   | Err _ => mret tt
   end) ;;
  e ← op_range sch (λ order n1 n2, DeleteTask order n1 (λ _, n2) id reason);
  match e with
  | Err e => mret (StoreError e 500)
  | Ok _ => emit (ArchiveThreads id) ;; mret NoContent
  end.

Definition filterByFailureCategory (ts : list Task) (cat : FailureCategory) : list Task :=
  filter (λ t, TaskFailureCategory t = cat) ts.

(** An identifier in a query parameter: absent, wrong, or given. *)
Definition cursor (raw : string) : option (option uuid) :=
  let raw := TrimSpace raw in
  if bool_decide (raw = EmptyString) then Some None
  else match uuid_Parse raw with Some id => Some (Some id) | None => None end.

Definition page_text (e : page_error) : string :=
  match e with
  | ErrBothCursors => "before and after cursors are mutually exclusive"
  | ErrBeforeNotFound => "before cursor task not found"
  | ErrAfterNotFound => "after cursor task not found"
  end.

Definition archived_page (size_raw before_raw after_raw : string) : W Response :=
  match Atoi size_raw with
  | None => mret (HttpError "invalid archived_page_size" 400)
  | Some n =>
    let pageSize := if Z.ltb n 1 then 1 else if Z.ltb 200 n then 200 else n in
    match cursor before_raw with
    | None => mret (HttpError "invalid archived_before" 400)
    | Some beforeID =>
      match cursor after_raw with
      | None => mret (HttpError "invalid archived_after" 400)
      | Some afterID =>
        r ← read_range sch (λ order, ListArchivedTasksPage order pageSize beforeID afterID);
        mret (match r with
              | Err e => HttpError (page_text e) 400
              | Ok page => PageJSON page (match head (ap_tasks page) with Some t => uuid_String (ID t) | None => EmptyString end)
                             (match last (ap_tasks page) with Some t => uuid_String (ID t) | None => EmptyString end)
              end)
      end
    end
  end.

(** The query parameters of [GET /api/tasks], as given. *)
Definition ListTasks_request (p : option Principal) (include_archived page_size before after failure_category : string) : W Response :=
  let includeArchived := bool_decide (include_archived = "true") in
  let pageSizeRaw := TrimSpace page_size in
  if negb (bool_decide (pageSizeRaw = EmptyString)) then
    if negb includeArchived then mret (HttpError "include_archived=true is required with archived_page_size" 400)
    else archived_page pageSizeRaw before after
  else
    ts ← read_range sch (λ order, TasksForPrincipal order p includeArchived);
    mret (if bool_decide (failure_category = EmptyString) then TasksJSON ts
          else let '(category, ok) := ParseFailureCategory failure_category in
               if negb ok then HttpError "invalid failure_category" 400 else TasksJSON (filterByFailureCategory ts category)).

(** [None]: the search panics. *)
Definition SearchTasks_request (q : string) : W (option Response) :=
  let q := TrimSpace q in
  if Nat.ltb (length (runes q)) 2 then mret (Some (HttpError "q must be at least 2 characters" 400))
  else
    r ← read_range sch (λ order, SearchTasks tbl order q);
    mret (SearchJSON <$> r).
End requests.
