(* ===== verification/TaskRequestsSpec.v ===== *)
(** * What the task requests guarantee

    The graph of dependencies under the operations of the store, and
    [patch_keeps_acyclic]: a PATCH closes no cycle. *)

From S2P Require Import Prelude Dag TaskBatch Breaker StateMachine GoStrings GoText PkgUtil TaskModel Backend Store StoreUpdate StoreWf StoreDurable StoreRestart StoreSpec StoreQuery Verdict World WorldRules Runner RunnerRun Execute ExecuteSpec Automation AutomationSpec AutomationRun TaskRequests.
From Stdlib Require Import String.
From stdpp Require Import list gmap.
Local Open Scope Z_scope.
Local Open Scope string_scope.

(** ** The graph of dependencies *)

Section graph.
Context `{UUIDLib} {B : Type} `{!StorageBackend B} (tbl : Z → Z).
Implicit Types (s : Store B) (t : Task) (E : uuid → uuid → Prop).

Definition dep_edge s (x y : uuid) : Prop := ∃ t, tasks s !! x = Some t ∧ y ∈ parse_deps (DependsOn t).
Definition acyclic_store s : Prop := ∀ x, ¬ tc (dep_edge s) x x.

(** Every dependency is one of [E], and the tasks are filed under their identifiers. *)
Definition deps_in E s : Prop := (∀ x y, dep_edge s x y → E x y) ∧ ∀ i t, tasks s !! i = Some t → ID t = i.

(** What an operation may do to a record: drop dependencies. *)
Definition fewer_deps t t' : Prop := DependsOn t' ⊆ DependsOn t ∧ ID t' = ID t.

Lemma deps_in_touches {A} E id (R : Task → Task → Prop) (m : M (B:=B) A) s :
  touches id R m → (∀ t t', R t t' → fewer_deps t t') → deps_in E s → deps_in E (m s).2.
Proof.
  intros Hm HR [Hs Hk]. destruct (Hm s) as [Em|(u & u' & Hu & Hr & Em)]; [split; unfold dep_edge; by rewrite Em|].
  destruct (HR _ _ Hr) as [Hd Hi]. split.
  - intros x y (t & Ht & Hy). rewrite Em in Ht. destruct (decide (x = id)) as [-> |Hx]; [|rewrite lookup_insert_ne in Ht by done; apply Hs; by exists t].
    rewrite lookup_insert_eq in Ht. simplify_eq. apply Hs. exists u. split; [done|].
    unfold parse_deps in *. apply list_elem_of_omap in Hy as (d & Hy & Hp). apply list_elem_of_omap. exists d. split; [|done]. by apply Hd.
  - intros i t. rewrite Em. destruct (decide (i = id)) as [-> |Hx]; [|rewrite lookup_insert_ne by done; apply Hk].
    rewrite lookup_insert_eq. intros [= <-]. rewrite Hi. by apply Hk.
Qed.

(** An update whose function writes only the index. *)
Lemma touches_fn now id (fn : Task → M (B:=B) Task) (R : Task → Task → Prop) :
  (∀ t s, tasks (fn t s).2 = tasks s ∧ ∃ u, (fn t s).1 = Ok u ∧ R t u) →
  touches id (λ t t', ∃ u, R t u ∧ t' = stamp (u <| UpdatedAt := now |>)) (mutateTask now id fn).
Proof.
  intros Hfn s. unfold mutateTask, mbind, M_bind, bind, find_task. destruct (tasks s !! id) as [t|] eqn:Ht; [|by left].
  destruct (Hfn t s) as [E1 (u & E2 & Hu)]. right. exists t, (stamp (u <| UpdatedAt := now |>)). split; [done|]. split; [by exists u|].
  destruct (fn t s) as [r s1]. simpl in *. subst r. unfold put_mem, modify. generalize (stamp (u <| UpdatedAt := now |>)). intros t'.
  destruct (saveTask t' _) as [x s2] eqn:E. apply saveTask_cases in E as (b & -> & _). destruct x; cbn; by rewrite E1.
Qed.

Lemma touches_status n1 n2 id st : touches (B:=B) id fewer_deps (UpdateTaskStatus n1 n2 id st).
Proof.
  intros s. destruct (tasks s !! id) as [t|] eqn:Ht; [|left; by rewrite status_absent].
  rewrite (status_mem _ _ _ _ _ _ Ht). destruct (CanTransitionTo _ _); [right|by left]. eexists _, _. split; [done|]. split; [|done].
  unfold with_status. by destruct (_ && _).
Qed.

Lemma touches_force n1 n2 id st : touches (B:=B) id fewer_deps (ForceUpdateTaskStatus n1 n2 id st).
Proof.
  intros s. destruct (tasks s !! id) as [t|] eqn:Ht; [|left; by rewrite force_absent].
  rewrite (force_mem _ _ _ _ _ _ Ht). right. eexists _, _. split; [done|]. split; [|done]. unfold with_status. by destruct (_ && _).
Qed.

Lemma touches_reset n1 n2 id p f : touches (B:=B) id fewer_deps (ResetTaskForRetry tbl n1 n2 id p f).
Proof.
  intros s. unfold ResetTaskForRetry, mbind, M_bind, bind, find_task. destruct (tasks s !! id) as [t|] eqn:Ht; [|by left].
  right. exists t, (stamp (reset_task n1 n2 p f t)). split; [done|]. split; [by destruct f|]. unfold put_mem, update_index, modify. cbv beta iota zeta.
  match goal with |- context [saveTask ?t ?s] => destruct (saveTask t s) as [x s2] eqn:E end.
  apply saveTask_cases in E as (b & -> & _).
  destruct x; cbn; unfold removeFromStatusIndex; cbn; by destruct (tasksByStatus s !! Status t).
Qed.

Lemma deps_in_orphans E order now id s : deps_in E s → deps_in E (removeOrphanedDependents order now id s).2.
Proof.
  unfold removeOrphanedDependents, TasksDependingOn, mbind at 1, M_bind at 1, bind at 1, gets.
  generalize (filter (λ t, depends_on id t = true) (omap (λ i, tasks s !! i) order)). intros l.
  revert s. induction l as [|d l IH]; [done|]. intros s Hs. cbn [iterM]. unfold mbind, M_bind, bind, ignore. cbv beta.
  apply IH. eapply deps_in_touches; [apply touches_mutate| |done]. intros t t' ->. split; [|done]. cbn. by intros x [_ ?]%list_elem_of_filter.
Qed.

Lemma deps_in_cancel E order n1 n2 nows id s : deps_in E s → deps_in E (CancelTask order n1 n2 nows id s).2.
Proof.
  intros Hs. unfold CancelTask, mbind, M_bind, bind.
  assert (deps_in E (ForceUpdateTaskStatus n1 n2 id TaskStatusCancelled s).2) as Hf.
  { eapply deps_in_touches; [apply touches_force|done|done]. }
  destruct (ForceUpdateTaskStatus _ _ _ _ _) as [[[]|e] s']; [|done]. by apply deps_in_orphans.
Qed.

(** A new list of dependencies. *)
Lemma deps_in_depends E now id deps s : deps_in E s →
  deps_in (λ x y, E x y ∨ (x = id ∧ y ∈ parse_deps deps)) (UpdateTaskDependsOn now id deps s).2.
Proof.
  intros [Hs Hk]. unfold UpdateTaskDependsOn.
  destruct (touches_mutate now id (λ t, t <| DependsOn := deps |>) s) as [Em|(u & u' & Hu & -> & Em)]; (split; [intros x y (t & Ht & Hy)|intros i t];
    rewrite Em in *).
  - left. apply Hs. by exists t.
  - apply Hk.
  - destruct (decide (x = id)) as [-> |Hx]; [|rewrite lookup_insert_ne in Ht by done; left; apply Hs; by exists t].
    rewrite lookup_insert_eq in Ht. simplify_eq. by right.
  - destruct (decide (i = id)) as [-> |Hx]; [|rewrite lookup_insert_ne by done; apply Hk].
    rewrite lookup_insert_eq. intros [= <-]. by apply (Hk _ u).
Qed.
End graph.

(** Edges that go down a rank close no cycle. *)
Lemma acyclic_ranked {K} (E : K → K → Prop) (rank : K → nat) : (∀ a b, E a b → (rank b < rank a)%nat) → ∀ a, ¬ tc E a a.
Proof.
  intros HE. assert (∀ a b, tc E a b → (rank b < rank a)%nat) as Htc.
  { induction 1 as [a b Hab|a b c Hab _ IH]; [by apply HE|]. apply HE in Hab. lia. }
  intros a Ha. apply Htc in Ha. lia.
Qed.

(** A set of edges out of [x] to nodes that do not lead to [x] closes no cycle. *)
Section new_edges.
Context {K : Type} (E : K → K → Prop) (x : K) (D : K → Prop).
Let E' a b := E a b ∨ (a = x ∧ D b).

Lemma new_edges_back a b : rtc E' a b → b = x → rtc E a x ∨ ∃ y, D y ∧ rtc E y x.
Proof.
  induction 1 as [a|a c b Hac _ IH]; intros ->; [by left|]. destruct (IH eq_refl) as [Hc|?]; [|by right].
  destruct Hac as [Hac|[-> Hc']]; [left; by eapply rtc_l|right; by exists c].
Qed.

Lemma new_edges_path a b : tc E' a b → tc E a b ∨ (rtc E' a x ∧ ∃ y, D y ∧ rtc E' y b).
Proof.
  induction 1 as [a b [Hab|[-> Hb]]|a c b Hac Hcb IH].
  - left. by apply tc_once.
  - right. split; [apply rtc_refl|]. exists b. split; [done|apply rtc_refl].
  - destruct Hac as [Hac|[-> Hc]]; [|right; split; [apply rtc_refl|exists c; split; [done|by apply tc_rtc]]].
    destruct IH as [IH|(Hx & Hy)]; [left; by eapply tc_l|right]. split; [|done]. eapply rtc_l; [by left|done].
Qed.

Lemma acyclic_new_edges : (∀ a, ¬ tc E a a) → (∀ y, D y → ¬ rtc E y x) → ∀ a, ¬ tc E' a a.
Proof.
  intros HE HD a [Ha|(Hax & y & Hy & Hya)]%new_edges_path; [by apply (HE a)|].
  destruct (new_edges_back y x) as [Hr|(z & Hz & Hr)]; [by etransitivity|done|by apply (HD y)|by apply (HD z)].
Qed.
End new_edges.

(** The adjacency that the handlers build has every dependency of the tasks. *)
Section adjacency.
Context `{UUIDLib}.

Lemma add_deps_edge deps (adj : gmap uuid (list uuid)) id x y :
  edge (add_deps adj id deps) x y ↔ edge adj x y ∨ (x = id ∧ y ∈ deps).
Proof.
  unfold add_deps. revert adj. induction deps as [|d deps IH]; intros adj; cbn [foldl].
  - split; [by left|]. intros [?|[_ []%not_elem_of_nil]]; done.
  - rewrite IH. unfold edge at 1, succs at 1. destruct (decide (x = id)) as [-> |Hx].
    + rewrite lookup_insert_eq. simpl. rewrite elem_of_app, list_elem_of_singleton, elem_of_cons. unfold edge. naive_solver.
    + rewrite lookup_insert_ne by done. unfold edge, succs. naive_solver.
Qed.

Lemma dep_adj_edge ts x y : edge (dep_adj ts) x y ↔ ∃ t, t ∈ ts ∧ ID t = x ∧ y ∈ parse_deps (DependsOn t).
Proof.
  unfold dep_adj. trans (edge (∅ : gmap uuid (list uuid)) x y ∨ ∃ t, t ∈ ts ∧ ID t = x ∧ y ∈ parse_deps (DependsOn t)).
  - generalize (∅ : gmap uuid (list uuid)). induction ts as [|t ts IH]; intros adj; cbn [foldl].
    + split; [by left|]. intros [?|(t & []%not_elem_of_nil & _)]; done.
    + rewrite IH, add_deps_edge. setoid_rewrite elem_of_cons. naive_solver.
  - split; [|by right]. intros [Hx|?]; [|done]. by apply not_elem_of_nil in Hx.
Qed.
End adjacency.

(** Operations that add no dependency. *)
Section patch.
Context `{UUIDLib} {B : Type} `{!StorageBackend B} (tbl : Z → Z) (high : Z → bool).
Variables (sch : Schedule B) (st : Settings) (actor : Actor).
Variables (compile : string → string + unit) (unusable : string → option string) (parse_error : string → string) (lock_holder : uuid → string).
Implicit Types (s : Store B) (t : Task) (E : uuid → uuid → Prop).

(** The other goroutines add no dependency meanwhile. *)
Definition adds_no_deps : Prop := ∀ E, stable sch (deps_in E).
Hypothesis quiet_others : adds_no_deps.

Lemma deps_op {A} E id (R : Task → Task → Prop) (m : Z → Z → M (B:=B) A) :
  (∀ n1 n2, touches id R (m n1 n2)) → (∀ t t', R t t' → fewer_deps t t') → preserves (deps_in E) (op sch m).
Proof.
  intros Hm HR. apply preserves_op; [apply quiet_others|]. intros n1 n2 s Hs. eapply deps_in_touches; [apply Hm|exact HR|exact Hs].
Qed.

Lemma deps_mutate E now id (f : Z → Z → Task → Task) : (∀ n1 n2 t, DependsOn (f n1 n2 t) = DependsOn t ∧ ID (f n1 n2 t) = ID t) →
  preserves (deps_in E) (op sch (λ n1 n2, mutateTask (now n1 n2) id (pure_fn (f n1 n2)))).
Proof.
  intros Hf. apply preserves_op; [apply quiet_others|]. intros n1 n2 s Hs. eapply deps_in_touches; [apply touches_mutate| |exact Hs].
  intros t t' ->. destruct (Hf n1 n2 t) as [E1 E2]. split; cbn; [by rewrite E1|done].
Qed.

Lemma deps_event E a id ty data : preserves (deps_in E) (event_as sch a id ty data).
Proof.
  apply preserves_quiet; [apply quiet_others|]. intros n1 n2 s Hs.
  eapply (deps_in_touches _ id (λ _ _, False)); [apply touches_InsertEvent|done|done].
Qed.

Lemma deps_status E id x : preserves (deps_in E) (op sch (status_to id x)).
Proof. eapply deps_op; [intros; apply touches_status|done]. Qed.

Lemma deps_CancelTask E id : preserves (deps_in E) (op_range sch (λ order n1 n2, CancelTask order n1 n2 (λ _, n2) id)).
Proof. intros w. apply preserves_op; [apply quiet_others|]. intros. by apply deps_in_cancel. Qed.

Lemma deps_enabled E id b : preserves (deps_in E) (op sch (λ n _, UpdateRoutineEnabled n id b)).
Proof.
  apply preserves_op; [apply quiet_others|]. intros n1 n2 s Hs. eapply deps_in_touches; [apply touches_routine|by intros t t' ->|exact Hs].
Qed.

Lemma deps_backlog E order id p tmo f m a c n :
  preserves (deps_in E) (op sch (λ now _, UpdateTaskBacklog tbl now order id p tmo f m a c n)).
Proof.
  apply preserves_op; [apply quiet_others|]. intros n1 n2 s Hs. unfold UpdateTaskBacklog.
  eapply deps_in_touches; [apply (touches_fn _ _ _ (λ t u, DependsOn u = DependsOn t ∧ ID u = ID t))| |exact Hs].
  - intros t s'. destruct p; (split; [reflexivity|eexists; split; [reflexivity|]]); destruct tmo, f, m, a, c, n; split; reflexivity.
  - intros t t' (u & [Hu Hi] & ->). split; cbn; [by rewrite Hu|done].
Qed.

Lemma deps_tags E id v : preserves (deps_in E) (op sch (λ now _, UpdateTaskTags tbl now id v)).
Proof.
  apply preserves_op; [apply quiet_others|]. intros n1 n2 s Hs. unfold UpdateTaskTags.
  eapply deps_in_touches; [apply (touches_fn _ _ _ (λ t u, DependsOn u = DependsOn t ∧ ID u = ID t))| |exact Hs].
  - intros t s'. split; [reflexivity|]. eexists. split; [reflexivity|]. split; reflexivity.
  - intros t t' (u & [Hu Hi] & ->). split; cbn; [by rewrite Hu|done].
Qed.

Lemma deps_reset E id p f : preserves (deps_in E) (op sch (λ n1 n2, ResetTaskForRetry tbl n1 n2 id p f)).
Proof. eapply deps_op; [intros; apply touches_reset|done]. Qed.

Lemma deps_read_range {A} E (f : list uuid → Store B → A) : preserves (deps_in E) (read_range sch f).
Proof. intros w Hw. by apply quiet_others. Qed.
End patch.

Ltac deps_step :=
  lazymatch goal with
  | |- preserves _ (quiet _ _) => unfold quiet
  | |- preserves _ (event _ _ _ _) => unfold event
  | |- preserves _ (state_change _ _ _ _ _ _) => unfold state_change
  | |- preserves _ (get_task _ _) => unfold get_task
  | |- preserves _ (mret _) => apply preserves_ret
  | |- preserves _ (emit _) => apply preserves_emit
  | |- preserves _ lock => apply preserves_lock
  | |- preserves _ unlock => apply preserves_unlock
  | |- preserves _ (ask _ _) => apply preserves_ask; auto
  | |- preserves _ (read _ _) => apply preserves_read; auto
  | |- preserves _ (read_range _ _) => apply deps_read_range; assumption
  | |- preserves _ (event_as _ _ _ _ _) => apply deps_event; assumption
  | |- preserves _ (op _ (status_to _ _)) => apply deps_status; assumption
  | |- preserves _ (op_range _ (λ order n1 n2, CancelTask _ _ _ _ _)) => apply deps_CancelTask; assumption
  | |- preserves _ (op _ (λ _ _, ResetTaskForRetry _ _ _ _ _ _)) => apply deps_reset; assumption
  | |- preserves _ (op _ (λ _ _, UpdateTaskTags _ _ _ _)) => apply deps_tags; assumption
  | |- preserves _ (op _ (λ _ _, UpdateRoutineEnabled _ _ _)) => apply deps_enabled; assumption
  | |- preserves _ (op _ (λ _ _, UpdateTaskBacklog _ _ _ _ _ _ _ _ _ _ _)) => apply deps_backlog; assumption
  | |- preserves _ (op _ _) => apply deps_mutate; [assumption|by intros]
  | |- preserves _ (_ ≫= _) => apply preserves_bind; [|intros ?]
  | |- preserves _ (match ?x with _ => _ end) => destruct x
  | |- _ => solve [eauto with deps]
  end.
Ltac deps_tac := intros; repeat deps_step.
Create HintDb deps.

(** ** PATCH keeps the graph acyclic *)

Section keeps.
Context `{UUIDLib} {B : Type} `{!StorageBackend B} (tbl : Z → Z) (high : Z → bool).
Variables (sch : Schedule B) (st : Settings) (actor : Actor).
Variables (compile : string → string + unit) (unusable : string → option string) (parse_error : string → string) (lock_holder : uuid → string).
Implicit Types (s : Store B) (t : Task) (E : uuid → uuid → Prop) (k : W (B:=B) Response).
Hypothesis quiet_others : adds_no_deps sch.

Lemma deps_internal E t : preserves (deps_in E) (cancelTaskInternal sch actor t).
Proof. unfold cancelTaskInternal, closeFeedbackWaitingSpan. deps_tac. Qed.

Lemma deps_children E id ts : preserves (deps_in E) (cancel_children sch actor id ts).
Proof.
  induction ts as [|t ts IH]; cbn [cancel_children]; [deps_tac|]. apply preserves_bind; [|done].
  destruct (_ && _); [|deps_tac]. apply preserves_bind; [apply deps_internal|deps_tac].
Qed.

Lemma deps_cascade E id : preserves (deps_in E) (cascadeCancelRoutineChildren sch actor id).
Proof. apply preserves_bind; [deps_tac|]. intros; apply deps_children. Qed.

Lemma deps_last E t : preserves (deps_in E) (cascadeDisableRoutineIfLastLiveInstance sch actor t).
Proof. unfold cascadeDisableRoutineIfLastLiveInstance. deps_tac. Qed.
Hint Resolve deps_internal deps_cascade deps_last : deps.

Lemma deps_applyCancel E t : preserves (deps_in E) (applyCancel sch actor t).
Proof. unfold applyCancel. deps_tac. Qed.

Lemma deps_applyArchive E t b : preserves (deps_in E) (applyArchive sch actor t b).
Proof. unfold applyArchive, archive_event. deps_tac. Qed.

Lemma deps_start E id x : preserves (deps_in E) (checkConcurrencyAndUpdateStatus sch st id x).
Proof. unfold checkConcurrencyAndUpdateStatus, countGlobalInProgress. deps_tac. Qed.
Hint Resolve deps_applyCancel deps_applyArchive deps_start : deps.

Lemma deps_answer E id : preserves (deps_in E) (answer_task sch id).
Proof. unfold answer_task. deps_tac. Qed.
Hint Resolve deps_answer : deps.

Lemma deps_patch_status E id t req x : preserves (deps_in E) (patch_status tbl sch st actor lock_holder id t req x).
Proof. unfold patch_status, patch_cancel, patch_retry, patch_start, patch_move, fallible. deps_tac. Qed.

Lemma deps_patch_archived E id t b : preserves (deps_in E) (patch_archived sch actor id t b).
Proof. unfold patch_archived. deps_tac. Qed.

(** The parts before the dependencies only go on. *)
Lemma keeps_fallible {A} (P : Store B → Prop) (o : Z → Z → M (B:=B) A) cont :
  preserves P (op sch o) → (∀ a, preserves P (cont a)) → preserves P (fallible sch o cont).
Proof. intros Ho Hk. apply preserves_bind; [done|]. intros [a|e]; [apply Hk|apply preserves_ret]. Qed.

Lemma keeps_when {A} (P : Store B → Prop) (v : option A) o k : (∀ a, preserves P (op sch (o a))) → preserves P k → preserves P (when sch v o k).
Proof. intros Ho Hk. destruct v; [|done]. by apply keeps_fallible. Qed.

(** The graph is acyclic. *)
Definition sound s : Prop := ∃ E, (∀ x, ¬ tc E x x) ∧ deps_in E s.

Lemma keeps_sound {A} (m : W (B:=B) A) : (∀ E, preserves (deps_in E) m) → preserves sound m.
Proof. intros Hm w (E & HE & Hw). exists E. split; [done|]. by apply Hm. Qed.

Lemma sound_mutate id (f : Z → Z → Task → Task) : (∀ n1 n2 t, DependsOn (f n1 n2 t) = DependsOn t ∧ ID (f n1 n2 t) = ID t) →
  preserves sound (op sch (λ n1 n2, mutateTask n1 id (pure_fn (f n1 n2)))).
Proof. intros Hf. apply keeps_sound. intros E. by apply (deps_mutate _ quiet_others _ (λ n _, n)). Qed.

Lemma sound_backlog order id t req k : preserves sound k → preserves sound (patch_backlog tbl high sch compile unusable order id t req k).
Proof.
  intros Hk. unfold patch_backlog. destruct (_ || _); [done|]. destruct (validateRequestedSandboxes _ _ _ _); [apply preserves_ret|].
  destruct (validateCustomPatterns _ _ _ _); [apply preserves_ret|].
  apply keeps_fallible; [apply keeps_sound; intros E; by apply deps_backlog|intros _].
  repeat (apply keeps_when; [intros ?; by apply sound_mutate|]). done.
Qed.

Lemma sound_schedule id t req k : preserves sound k → preserves sound (patch_schedule sch id t req k).
Proof.
  intros Hk. unfold patch_schedule. destruct (negb _); [done|]. destruct (p_ScheduledAt req); [done|apply preserves_ret|].
  apply keeps_fallible; [by apply sound_mutate|done].
Qed.

Lemma sound_budget id t req k : preserves sound k → preserves sound (patch_budget sch id t req k).
Proof.
  intros Hk. unfold patch_budget. destruct (_ && _); [|done]. apply keeps_fallible; [|done]. apply sound_mutate. intros. by destruct (p_MaxCostUSD req), (p_MaxInputTokens req).
Qed.

(** ** The new dependencies *)

(** A range visits every task. *)
Hypothesis covers : ∀ n m i, i ∈ ranges sch n m ↔ is_Some (m !! i).

Lemma listed_edges n s x y : (∀ i t, tasks s !! i = Some t → ID t = i) →
  edge (dep_adj (ListTasks (ranges sch n (tasks s)) true s)) x y ↔ dep_edge s x y.
Proof.
  intros Hk. rewrite dep_adj_edge. unfold ListTasks, dep_edge. split.
  - intros (t & Ht & Hx & Hy). exists t. split; [|done]. rewrite SortFunc_Permutation in Ht. apply list_elem_of_filter in Ht as [_ Ht].
    unfold range_tasks in Ht. apply list_elem_of_omap in Ht as (i & _ & Hi). by rewrite <-Hx, (Hk _ _ Hi).
  - intros (t & Ht & Hy). exists t. split; [|by rewrite (Hk _ _ Ht)]. rewrite SortFunc_Permutation. apply list_elem_of_filter.
    split; [by left|]. unfold range_tasks. apply list_elem_of_omap. exists x. split; [|done]. apply covers. by exists t.
Qed.

Lemma sound_check id deps acc : preserves sound (check_deps high sch parse_error id deps acc).
Proof.
  apply keeps_sound. intros E. revert acc. induction deps as [|d deps IH]; intros acc; cbn [check_deps]; [apply preserves_ret|].
  destruct (uuid_Parse d); [|apply preserves_ret]. destruct (bool_decide _); [apply preserves_ret|].
  apply preserves_bind; [deps_tac|]. intros [t|e]; [apply IH|apply preserves_ret].
Qed.

(** The tasks that the check reads have every dependency of the store, then and later. *)
Definition read_graph (ts : list Task) (w : World B) : Prop :=
  (∀ x, ¬ tc (edge (dep_adj ts)) x x) ∧ deps_in (edge (dep_adj ts)) (w_store w).

Lemma reads_graph : triple (λ w, sound (w_store w)) (read_range sch (λ order, ListTasks order true)) read_graph.
Proof.
  intros w (E & HE & Hw). apply (quiet_others E (w_locked w) (w_tick w)) in Hw as Hs. unfold read_range, read, read_graph. cbn [fst snd w_store].
  set (s := w_store (arrive sch w)). assert (deps_in E s) as [Hin Hk] by done. split.
  - intros x Hx. apply (HE x). eapply (tc_congruence (λ x, x)); [|exact Hx]. intros a b Hab. by apply Hin, (listed_edges (w_tick w) s _ _ Hk).
  - split; [|done]. intros x y. apply (listed_edges (w_tick w) s _ _ Hk).
Qed.

Lemma closing_None ts id ids d : closing ts id ids = None → d ∈ ids → ¬ rtc (edge (dep_adj ts)) d id.
Proof.
  unfold closing. intros Hc Hd Hr. apply head_None in Hc.
  assert (d ∈ filter (λ d, taskReachable ts d id ≠ Some false) ids) as Hf; [|rewrite Hc in Hf; by apply not_elem_of_nil in Hf].
  apply list_elem_of_filter. split; [|done]. unfold taskReachable.
  destruct (reachable_spec (dep_adj ts) id d) as (b & -> & Hb). apply Hb in Hr as ->. done.
Qed.

Lemma parse_strings ids : parse_deps (uuid_String <$> ids) = ids.
Proof. unfold parse_deps. induction ids as [|i ids IH]; [done|]. cbn. by rewrite uuid_Parse_String, IH. Qed.

Lemma sound_depends id req k : preserves sound k → preserves sound (patch_depends high sch parse_error id req k).
Proof.
  intros Hk. unfold patch_depends. destruct (p_DependsOn req) as [deps|]; [|done].
  apply preserves_bind; [apply sound_check|]. intros [?|ids]; [apply preserves_ret|].
  eapply triple_bind; [apply reads_graph|]. intros ts. destruct (closing ts id ids) eqn:Hc.
  { apply triple_ret. intros w [HE Hw]. by exists (edge (dep_adj ts)). }
  apply (triple_bind _ _ _ (λ _ w, sound (w_store w))); [|intros [a|e]; [exact Hk|apply triple_ret; done]].
  intros w [HE Hw]. apply (quiet_others _ (w_locked w) (w_tick w)) in Hw.
  apply (deps_in_depends _ (clock sch (2 * w_tick w)) id (uuid_String <$> ids)) in Hw. rewrite parse_strings in Hw. unfold op. cbn.
  destruct (UpdateTaskDependsOn _ _ _ _) as [r s']. eexists. split; [|exact Hw]. apply acyclic_new_edges; [done|].
  intros y Hy. by eapply closing_None.
Qed.

Lemma sound_patch order id req : p_Deleted req = None →
  preserves sound (UpdateTask tbl high sch st actor compile unusable parse_error lock_holder order id req).
Proof.
  intros Hd. unfold UpdateTask, patch_live. rewrite Hd. apply preserves_bind; [apply keeps_sound; deps_tac|].
  intros [t|e]; [|apply preserves_ret]. destruct (p_Archived req) as [b|]; [apply keeps_sound; intros; by apply deps_patch_archived|].
  apply sound_backlog, sound_schedule, sound_budget. apply keeps_when; [intros ?; by apply sound_mutate|].
  apply sound_depends, keeps_when; [intros v; apply keeps_sound; intros; by apply deps_tags|].
  destruct (p_Status req); apply keeps_sound; intros; [by apply deps_patch_status|by apply deps_answer].
Qed.
End keeps.

(** C9: a PATCH that restores no deleted task closes no cycle: if the dependencies of
    the stored tasks are acyclic and the other goroutines add none meanwhile, then
    they are acyclic after the request, whatever other fields it sets, whether it
    cancels a routine with its instances, and whether the saves succeed.  (Without
    the two conditions a cycle can be closed: [restore_closes_cycle] and
    [concurrent_patches_close_cycle].) *)
Theorem patch_keeps_acyclic `{UUIDLib} {B : Type} `{!StorageBackend B} tbl high (sch : Schedule B) st actor compile unusable parse_error
  lock_holder order id req w : adds_no_deps sch → (∀ n m i, i ∈ ranges sch n m ↔ is_Some (m !! i)) → store_wf tbl (w_store w) →
  p_Deleted req = None → acyclic_store (w_store w) →
  acyclic_store (w_store (UpdateTask tbl high sch st actor compile unusable parse_error lock_holder order id req w).2).
Proof.
  intros Hq Hc Hwf Hd Hw. destruct (sound_patch tbl high sch st actor compile unusable parse_error lock_holder Hq Hc order id req Hd w)
    as (E & HE & Hin & _).
  - exists (dep_edge (w_store w)). split; [exact Hw|]. split; [done|apply (wf_ids _ _ Hwf)].
  - intros x Hx. apply (HE x). eapply (tc_congruence (λ x, x)); [|exact Hx]. intros a b. apply Hin.
Qed.
