(* ===== verification/BatchSpec.v ===== *)
(** * Creating a batch of tasks

    [preflight_correct]: what the checks of a batch accept.
    [BatchCreateTasks_spec]: a batch is refused before anything is written, or
    its tasks are created in an order in which dependencies come first, wired
    along their refs, as far as the backend works. *)

From S2P Require Import Prelude Dag TaskBatch Breaker StateMachine GoStrings GoText PkgUtil TaskModel Backend Store StoreUpdate StoreWf StoreDurable StoreSpec StoreQuery Verdict World WorldRules Runner Execute ExecuteSpec Automation TaskRequests TaskRequestsSpec.
From Stdlib Require Import String.
From stdpp Require Import list gmap.
Local Open Scope string_scope.

(** ** The checks *)

Section checks.
Context `{UUIDLib} (high : Z → bool).
Implicit Types (ts : list batchTaskInput) (t u : batchTaskInput) (refs : gmap string nat).

(** The refs that are given. *)
Definition named ts : list string := filter (λ r, r ≠ EmptyString) (b_Ref <$> ts).

(** A task of the batch depends on another one by its ref. *)
Definition refers t u : Prop := b_Ref u ≠ EmptyString ∧ b_Ref u ∈ DependsOnRefs t.

(** A batch that can be created: between one and fifty tasks with different refs
    and prompts that are not blank, without the fields no longer taken, whose
    dependencies are refs or identifiers, and which can be put in an order. *)
Record batch_ok ts : Prop := {
  ok_size : (1 ≤ length ts ≤ 50)%nat;
  ok_refs : NoDup (named ts);
  ok_prompts : ∀ t, t ∈ ts → TrimSpace (b_Prompt t) ≠ EmptyString;
  ok_fields : ∀ t, t ∈ ts → b_Sandbox t = None ∧ b_SandboxByActivity t = None;
  ok_deps : ∀ t dep, t ∈ ts → dep ∈ DependsOnRefs t → dep ∈ named ts ∨ is_Some (uuid_Parse dep);
  ok_order : ∃ rank : nat → nat, ∀ i j t u, ts !! i = Some t → ts !! j = Some u → refers t u → (rank j < rank i)%nat
}.

Lemma named_elem r ts : r ∈ named ts ↔ r ≠ EmptyString ∧ ∃ i t, ts !! i = Some t ∧ b_Ref t = r.
Proof.
  unfold named. rewrite list_elem_of_filter, list_elem_of_fmap. setoid_rewrite list_elem_of_lookup. naive_solver.
Qed.

Lemma named_cons t ts : named (t :: ts) = if decide (b_Ref t = EmptyString) then named ts else b_Ref t :: named ts.
Proof. unfold named. rewrite fmap_cons, filter_cons. by destruct (decide (b_Ref t = _)), (decide (b_Ref t ≠ _)). Qed.

(** Step 1 fills the table unless a ref repeats. *)
Definition distinct ts refs : Prop := NoDup (named ts) ∧ ∀ r, r ∈ named ts → refs !! r = None.

Lemma distinct_cons t ts refs i : b_Ref t ≠ EmptyString →
  distinct (t :: ts) refs ↔ refs !! b_Ref t = None ∧ distinct ts (<[b_Ref t := i]> refs).
Proof.
  intros Hr. unfold distinct. rewrite named_cons, decide_False, NoDup_cons by done. setoid_rewrite elem_of_cons.
  setoid_rewrite lookup_insert_None. split; [|intros (? & ? & Hd); split; [split; [|done]|]].
  - intros [[Hn ?] Hd]. split; [by apply Hd; left|]. split; [done|]. intros r Hi. split; [by apply Hd; right|]. by intros <-.
  - intros Hi. by apply Hd in Hi as [_ ?].
  - intros r [-> |Hi]; [done|]. by apply Hd.
Qed.

Lemma from_cons t ts i k (φ : batchTaskInput → Prop) :
  (∃ j u, (t :: ts) !! j = Some u ∧ k = (i + j)%nat ∧ φ u) ↔ (k = i ∧ φ t) ∨ ∃ j u, ts !! j = Some u ∧ k = (S i + j)%nat ∧ φ u.
Proof.
  split.
  - intros ([|j] & u & Hj & -> & Hu); [simplify_eq/=; left; split; [lia|done]|]. right. exists j, u. split_and!; [done|lia|done].
  - intros [[-> Ht]|(j & u & Hj & -> & Hu)]; [exists 0%nat, t|exists (S j), u]; split_and!; done || lia.
Qed.

Lemma collect_refs_spec ts i refs :
  match collect_refs ts i refs with
  | inr refs' => distinct ts refs ∧ ∀ r k, refs' !! r = Some k ↔
      refs !! r = Some k ∨ ∃ j t, ts !! j = Some t ∧ k = (i + j)%nat ∧ b_Ref t = r ∧ r ≠ EmptyString
  | inl _ => ¬ distinct ts refs
  end.
Proof.
  revert i refs. induction ts as [|t ts IH]; intros i refs; cbn [collect_refs].
  - split; [split; [apply NoDup_nil_2|by intros r ?%not_elem_of_nil]|]. intros r k. split; [by left|]. intros [?|(j & t & ? & _)]; done.
  - case_bool_decide as Hr.
    + specialize (IH (S i) refs). unfold distinct. rewrite named_cons, decide_True by done.
      destruct (collect_refs ts (S i) refs); [done|]. destruct IH as [Hd IH]. split; [done|]. intros r k.
      rewrite IH, (from_cons t). split; [intros [?|?]; tauto|]. intros [?|[(-> & <- & ?)|?]]; tauto.
    + destruct (refs !! b_Ref t) eqn:E; [rewrite (distinct_cons t ts refs i Hr); naive_solver|].
      specialize (IH (S i) (<[b_Ref t := i]> refs)). destruct (collect_refs ts (S i) _); [rewrite (distinct_cons t ts refs i Hr); tauto|].
      destruct IH as [Hd IH]. split; [by apply (distinct_cons t ts refs i Hr)|]. intros r k. rewrite IH, lookup_insert_Some.
      rewrite (from_cons t). split; [intros [[(<- & ->)|[? ?]]|?]; tauto|]. intros [Hk|[(-> & <- & ?)|?]]; [|tauto..].
      left. right. split; [congruence|done].
Qed.

Lemma head_omap_None {A C} (f : A → option C) l : head (omap f l) = None ↔ ∀ x, x ∈ l → f x = None.
Proof.
  rewrite head_None. split.
  - intros E x Hx. destruct (f x) as [c|] eqn:Ef; [|done]. assert (c ∈ omap f l) as Hc by (apply list_elem_of_omap; eauto).
    rewrite E in Hc. by apply not_elem_of_nil in Hc.
  - intros Hf. induction l as [|x l IH]; [done|]. cbn. rewrite (Hf x) by left. apply IH. intros y Hy. apply Hf. by right.
Qed.

Lemma unprompted_None ts : unprompted ts = None ↔ ∀ t, t ∈ ts → TrimSpace (b_Prompt t) ≠ EmptyString.
Proof. unfold unprompted. rewrite head_omap_None. apply forall_proper. intros t. case_bool_decide; naive_solver. Qed.

Lemma deprecated_None ts : deprecated high ts = None ↔ ∀ t, t ∈ ts → b_Sandbox t = None ∧ b_SandboxByActivity t = None.
Proof.
  unfold deprecated. rewrite head_omap_None. split.
  - intros Hd t [i Hi]%list_elem_of_lookup. specialize (Hd (i, t)). cbn in Hd.
    destruct (b_Sandbox t), (b_SandboxByActivity t); try done; specialize (Hd (elem_of_lookup_imap_2 _ _ _ _ Hi)); done.
  - intros Hd [i t] (i' & t' & [= -> ->] & Hi)%elem_of_lookup_imap_1. destruct (Hd t') as [-> ->]; [by eapply list_elem_of_lookup_2|done].
Qed.

Lemma unknown_ref_None refs ts : unknown_ref high refs ts = None ↔
  ∀ t dep, t ∈ ts → dep ∈ DependsOnRefs t → is_Some (refs !! dep) ∨ is_Some (uuid_Parse dep).
Proof.
  unfold unknown_ref. rewrite head_None. split.
  - intros E t dep [i Hi]%list_elem_of_lookup Hd. destruct (refs !! dep) eqn:E1; [by left; eexists|].
    destruct (uuid_Parse dep) eqn:E2; [by right; eexists|].
    match type of E with ?l = _ => assert (∃ x, x ∈ l) as [x Hx]; [|rewrite E in Hx; by apply not_elem_of_nil in Hx] end.
    eexists. apply list_elem_of_bind. exists (i, t). split; [|by apply (elem_of_lookup_imap_2 pair)]. cbn. apply list_elem_of_omap.
    exists dep. split; [done|]. by rewrite E1, E2.
  - intros Hd. match goal with |- ?m = _ => destruct m as [|x l] eqn:E; [done|] end. exfalso.
    assert (x ∈ x :: l) as Hx by left. rewrite <-E in Hx.
    apply list_elem_of_bind in Hx as ([i t] & (dep & Hdep & Hs)%list_elem_of_omap & (i' & t' & [= -> ->] & Hi)%elem_of_lookup_imap_1).
    destruct (Hd t' dep) as [[v Hv]|[v Hv]]; [by eapply list_elem_of_lookup_2|done|..]; rewrite Hv in Hs; [done|by destruct (refs !! dep)].
Qed.

Lemma batch_edges_elem refs ts d i : (d, i) ∈ batch_edges refs ts ↔
  ∃ t dep, ts !! i = Some t ∧ dep ∈ DependsOnRefs t ∧ refs !! dep = Some d.
Proof.
  unfold batch_edges. rewrite list_elem_of_bind. split.
  - intros ([j t] & (dep & Hdep & Hs)%list_elem_of_omap & (i' & t' & [= -> ->] & Hi)%elem_of_lookup_imap_1).
    destruct (refs !! dep) eqn:E; simplify_eq. eauto.
  - intros (t & dep & Ht & Hdep & E). exists (i, t). split; [|by apply (elem_of_lookup_imap_2 pair)]. apply list_elem_of_omap.
    exists dep. by rewrite E.
Qed.

(** What the checks find: the tasks by their refs, and an order that has all of
    them, each after its dependencies. *)
Record batch_plan ts refs order : Prop := {
  plan_refs : ∀ r k, refs !! r = Some k ↔ ∃ t, ts !! k = Some t ∧ b_Ref t = r ∧ r ≠ EmptyString;
  plan_deps : ∀ t dep, t ∈ ts → dep ∈ DependsOnRefs t → is_Some (refs !! dep) ∨ is_Some (uuid_Parse dep);
  plan_nodup : NoDup order;
  plan_all : ∀ i, i ∈ order ↔ (i < length ts)%nat;
  plan_topo : topological (batch_edges refs ts) order
}.

Lemma refs_edges ts refs : (∀ r k, refs !! r = Some k ↔ ∃ t, ts !! k = Some t ∧ b_Ref t = r ∧ r ≠ EmptyString) →
  ∀ j i, (j, i) ∈ batch_edges refs ts ↔ ∃ t u, ts !! i = Some t ∧ ts !! j = Some u ∧ refers t u.
Proof. intros Hr j i. rewrite batch_edges_elem. setoid_rewrite Hr. unfold refers. naive_solver. Qed.

Lemma preflight_spec ts :
  match preflight high ts with
  | inl _ => ¬ batch_ok ts
  | inr (refs, order) => batch_ok ts ∧ batch_plan ts refs order
  end.
Proof.
  unfold preflight. case_bool_decide as Hne; [intros [[? _] _ _ _ _ _]; subst; simpl in *; lia|].
  destruct (Nat.ltb_spec 50 (length ts)) as [Hl|Hl]; [intros [[_ ?] _ _ _ _ _]; lia|].
  pose proof (collect_refs_spec ts 0 ∅) as Hc. destruct (collect_refs ts 0 ∅) as [r|refs].
  { intros Hok. apply Hc. split; [apply (ok_refs _ Hok)|]. intros. apply lookup_empty. }
  destruct Hc as [[Hd _] Hr]. destruct (unprompted ts) eqn:Eu; [intros Hok; by rewrite (proj2 (unprompted_None ts) (ok_prompts _ Hok)) in Eu|].
  destruct (deprecated high ts) eqn:Ed; [intros Hok; by rewrite (proj2 (deprecated_None ts) (ok_fields _ Hok)) in Ed|].
  assert (∀ r k, refs !! r = Some k ↔ ∃ t, ts !! k = Some t ∧ b_Ref t = r ∧ r ≠ EmptyString) as Hrefs.
  { intros r k. rewrite Hr. split; [|naive_solver]. intros [[=]|(j & t & ? & -> & ?)]. naive_solver. }
  assert (∀ r, is_Some (refs !! r) ↔ r ∈ named ts) as Hin.
  { intros r. rewrite named_elem. unfold is_Some. setoid_rewrite Hrefs. naive_solver. }
  destruct (unknown_ref high refs ts) eqn:Ek.
  { intros Hok. assert (unknown_ref high refs ts = None); [|congruence]. apply unknown_ref_None. intros t dep. rewrite Hin. apply (ok_deps _ Hok). }
  rewrite unprompted_None in Eu. rewrite deprecated_None in Ed. rewrite unknown_ref_None in Ek.
  destruct (batch_order_spec (length ts) (batch_edges refs ts)) as (order & -> & Hnd & Hlt & Ht & Hlen).
  { intros d i (t & u & H1%lookup_lt_Some & H2%lookup_lt_Some & _)%(refs_edges ts refs Hrefs). done. }
  cbn [default]. unfold default, from_option, id. setoid_rewrite (refs_edges ts refs Hrefs) in Hlen.
  destruct (Nat.eqb_spec (length order) (length ts)) as [El|El].
  - split; [split|split]; try done.
    + split; [|done]. destruct ts; simpl; [done|lia].
    + intros t dep. rewrite <-Hin. apply Ek.
    + apply Hlen in El as [rank Hk]. exists rank. intros i j t u Hi Hj Hu. apply Hk. eauto.
    + intros i. split; [apply Hlt|]. revert i. by apply NoDup_full.
  - intros [_ _ _ _ _ [rank Hk]]. apply El, Hlen. exists rank. intros d i (t & u & Hi & Hj & Hu). by eapply Hk.
Qed.
End checks.

(** ** The graph of the stored tasks and the batch *)

Section combined.
Context `{UUIDLib} {B : Type} `{!StorageBackend B}.
Variables (ts : list batchTaskInput) (refs : gmap string nat) (order : list nat) (ids : list uuid) (s0 : Store B).
Hypothesis plan : batch_plan ts refs order.
Hypothesis (len : length ids = length ts) (fresh_ids : NoDup ids).
Hypothesis (new : ∀ i, i ∈ ids → tasks s0 !! i = None) (unknown : ∀ x y, dep_edge s0 x y → y ∉ ids).

(** A dependency that is not a ref names a stored task. *)
Definition externals : Prop := ∀ t dep, t ∈ ts → dep ∈ DependsOnRefs t → refs !! dep = None →
  is_Some (tasks s0 !! default uuid_Nil (uuid_Parse dep)).
Hypothesis stored : externals.

Definition joined (x y : uuid) : Prop := dep_edge s0 x y ∨
  ∃ i t dep, ts !! i = Some t ∧ ids !! i = Some x ∧ dep ∈ DependsOnRefs t ∧ y = resolve_dep refs ids dep.

Lemma joined_into x y j : joined x y → ids !! j = Some y → ∃ i, ids !! i = Some x ∧ (j, i) ∈ batch_edges refs ts.
Proof.
  intros [Hxy|(i & t & dep & Ht & Hx & Hdep & ->)] Hj; [destruct (unknown _ _ Hxy); by eapply list_elem_of_lookup_2|].
  exists i. split; [done|]. apply batch_edges_elem. exists t, dep. split_and!; [done..|]. unfold resolve_dep in Hj.
  destruct (refs !! dep) as [d|] eqn:E.
  - f_equal. pose proof (proj1 (plan_refs _ _ _ plan dep d) E) as (u & Hu%lookup_lt_Some & _). rewrite <-len in Hu.
    destruct (lookup_lt_is_Some_2 _ _ Hu) as [z Hz]. rewrite Hz in Hj. simpl in Hj. by eapply NoDup_lookup.
  - destruct (stored t dep) as [u Hu]; [by eapply list_elem_of_lookup_2|done..|]. rewrite new in Hu; [done|by eapply list_elem_of_lookup_2].
Qed.

Lemma joined_out x y : joined x y → x ∉ ids → dep_edge s0 x y ∧ y ∉ ids.
Proof. intros [Hxy|(i & t & dep & Ht & Hx & _)] Hn; [split; [done|by eapply unknown]|]. destruct Hn. by eapply list_elem_of_lookup_2. Qed.

(** The place in the order goes down along a path into the batch. *)
Lemma joined_path x y j : rtc joined x y → ids !! j = Some y → ∃ i, ids !! i = Some x ∧ (pos j order ≤ pos i order)%nat.
Proof.
  induction 1 as [x|x z y Hxz _ IH]; intros Hj; [by exists j|]. destruct (IH Hj) as (k & Hk & Hle).
  destruct (joined_into _ _ _ Hxz Hk) as (i & Hi & He). exists i. split; [done|].
  pose proof (topological_rank _ _ (plan_nodup _ _ _ plan) (plan_topo _ _ _ plan) k i He) as Hlt.
  specialize (Hlt (proj2 (plan_all _ _ _ plan i) ltac:(rewrite <-len; by eapply lookup_lt_Some))). lia.
Qed.

Lemma joined_no_cycle x y : joined x y → rtc joined y x → x ∉ ids.
Proof.
  intros Hxy Hyx [i Hi]%list_elem_of_lookup. destruct (joined_path _ _ _ Hyx Hi) as (j & Hj & Hle).
  destruct (joined_into _ _ _ Hxy Hj) as (i' & Hi' & He). assert (i' = i) as -> by (by eapply NoDup_lookup).
  pose proof (topological_rank _ _ (plan_nodup _ _ _ plan) (plan_topo _ _ _ plan) j i He) as Hlt.
  specialize (Hlt (proj2 (plan_all _ _ _ plan i) ltac:(rewrite <-len; by eapply lookup_lt_Some))). lia.
Qed.

Lemma joined_old x y : tc joined x y → x ∉ ids → tc (dep_edge s0) x y.
Proof.
  induction 1 as [x y Hxy|x z y Hxz _ IH]; intros Hn; destruct (joined_out _ _ ltac:(eassumption) Hn) as [He Hz]; [by apply tc_once|].
  eapply tc_l; [exact He|by apply IH].
Qed.

(** The batch closes no cycle. *)
Lemma joined_acyclic : acyclic_store s0 → ∀ x, ¬ tc joined x x.
Proof.
  intros Ha x Hx. apply (Ha x), joined_old; [done|].
  inversion Hx as [? ? H1|? y ? H1 H2]; subst; [by apply (joined_no_cycle x x)|]. apply (joined_no_cycle x y); [done|by apply tc_rtc].
Qed.

Lemma combined_edge adj l x y : edge (foldl (λ adj '(id, t), add_deps adj id (resolve_dep refs ids <$> DependsOnRefs t)) adj l) x y ↔
  edge adj x y ∨ ∃ t dep, (x, t) ∈ l ∧ dep ∈ DependsOnRefs t ∧ y = resolve_dep refs ids dep.
Proof.
  revert adj. induction l as [|[id t] l IH]; intros adj; cbn [foldl].
  - split; [by left|]. intros [?|(t & dep & []%not_elem_of_nil & _)]; done.
  - rewrite IH, add_deps_edge, list_elem_of_fmap. setoid_rewrite elem_of_cons. naive_solver.
Qed.

(** Step 8 refuses nothing that passed the steps before. *)
Lemma batch_cycle_None l : (∀ x y, edge (dep_adj l) x y ↔ dep_edge s0 x y) → batch_cycle (combined_adj refs ids l ts) ids ts = None.
Proof.
  intros Hl. set (adj := combined_adj refs ids l ts). assert (∀ x y, edge adj x y → joined x y) as He.
  { intros x y. unfold adj, combined_adj. rewrite combined_edge, Hl. intros [?|(t & dep & Hx & Hd)]; [by left|right].
    apply list_elem_of_lookup in Hx as (i & [? ?]%lookup_zip_Some). eauto 10. }
  unfold batch_cycle. apply head_omap_None. intros [i [id t]] (i' & [id' t'] & [= -> -> ->] & [Hi Ht]%lookup_zip_Some)%elem_of_lookup_imap_1.
  destruct (existsb _ _) eqn:E; [|done]. apply existsb_exists in E as (d & Hd%list_elem_of_In & Hr). apply bool_decide_eq_true in Hr.
  destruct (reachable_spec adj id' d) as (b & E & Hb). rewrite E in Hr. destruct b; [|done].
  destruct (joined_no_cycle id' d); [by apply He|eapply (rtc_congruence (λ x, x)); [exact He|by apply Hb]|by eapply list_elem_of_lookup_2].
Qed.
End combined.

(** ** The store and the world *)

Section create.
Context `{UUIDLib} {B : Type} `{!StorageBackend B} (tbl : Z → Z).
Implicit Types (s : Store B).

(** A new task is added with its place, or nothing is and the backend failed. *)
Lemma create_cases order fresh now o s :
  match CreateTaskWithOptions tbl order fresh now o s with
  | (Ok t, s') => tasks s' = <[ID t := t]> (tasks s) ∧ (∃ p, t = build_task tbl order fresh now o <| Position := p |>) ∧
      (healthy (backend s) → healthy (backend s'))
  | (Err e, s') => tasks s' = tasks s ∧ ¬ healthy (backend s)
  end.
Proof.
  unfold CreateTaskWithOptions. set (t0 := build_task tbl order fresh now o).
  unfold mbind at 1, M_bind at 1, bind at 1, call. destruct (be_Init (ID t0) (backend s)) as [[[]|e] b] eqn:E; apply init_law in E as [_ Hh];
    [|split; [done|]; intros Hb; by destruct (Hh Hb)].
  unfold mbind at 1, M_bind at 1, bind at 1, gets at 1. simpl.
  destruct (min_backlog_pos _) as [minPos has].
  set (t1 := if has then t0 <| Position := wrap64 (minPos - 1) |> else t0).
  assert (∃ p, t1 = t0 <| Position := p |>) as Hp.
  { unfold t1. destruct has; [by eexists|]. exists (Position t0). by destruct t0. }
  unfold mbind at 1, M_bind at 1, bind at 1. destruct (saveTask t1 _) as [r s2] eqn:E.
  apply saveTask_cases in E as (b' & -> & Hh' & [[-> _]|[[e ->] _]]).
  - cbn. split; [done|]. split; [done|]. intros Hb. by apply Hh', Hh.
  - split; [done|]. intros Hb. by destruct (Hh' (proj2 (Hh Hb))).
Qed.
End create.

Section batch.
Context `{UUIDLib} {B : Type} `{!StorageBackend B} (tbl : Z → Z) (high : Z → bool).
Variables (sch : Schedule B) (actor : Actor) (p : option Principal).
Hypothesis alone : solo sch.
Variables (ts : list batchTaskInput) (refs : gmap string nat) (order : list nat) (ids : list uuid) (s0 : Store B) (es0 : list Effect).
Hypothesis plan : batch_plan ts refs order.
Hypothesis (len : length ids = length ts) (fresh_ids : NoDup ids).
Hypothesis new : ∀ i, i ∈ ids → tasks s0 !! i = None.
Implicit Types (made : list nat) (w : World B) (s : Store B).

(** The dependencies of a task: a ref stands for the identifier of its task. *)
Definition wired (t : batchTaskInput) : list string :=
  (λ dep, match refs !! dep with Some d => uuid_String (default uuid_Nil (ids !! d)) | None => dep end) <$> DependsOnRefs t.

(** The stored form of a task of the batch. *)
Definition stored_as (id : uuid) (t : batchTaskInput) (u : Task) : Prop :=
  ∃ now place, u = build_task tbl [] id now (batch_options p id (wired t) t) <| Position := place |>.

(** The tasks [made] of the batch are stored, and nothing else changed. *)
Record created made s : Prop := {
  cr_old : ∀ x, x ∉ ids → tasks s !! x = tasks s0 !! x;
  cr_made : ∀ i t x, ts !! i = Some t → ids !! i = Some x → i ∈ made → ∃ u, tasks s !! x = Some u ∧ stored_as x t u;
  cr_rest : ∀ i x, ids !! i = Some x → i ∉ made → tasks s !! x = None;
  cr_healthy : healthy (backend s0) → healthy (backend s)
}.

Definition titles made : list Effect :=
  (λ i, GenerateTitle (default uuid_Nil (ids !! i)) (default EmptyString (b_Prompt <$> ts !! i))) <$> made.

Definition at_stage made w : Prop := created made (w_store w) ∧ w_effects w = (es0 ++ titles made)%list.

(** The identifiers by ref, as far as the tasks are made. *)
Definition table made (m : gmap string uuid) : Prop :=
  ∀ r, m !! r = match refs !! r with Some d => if decide (d ∈ made) then ids !! d else None | None => None end.

Lemma wired_strings made rest i t m : order = (made ++ i :: rest)%list → ts !! i = Some t → table made m → dep_strings m t = wired t.
Proof.
  intros Ho Ht Hm. unfold dep_strings, wired. apply list_fmap_ext. intros k dep Hdep%list_elem_of_lookup_2. rewrite Hm.
  destruct (refs !! dep) as [d|] eqn:E; [|done]. rewrite decide_True.
  - pose proof (proj1 (plan_refs _ _ _ plan dep d) E) as (u & Hu%lookup_lt_Some & _). rewrite <-len in Hu.
    by destruct (lookup_lt_is_Some_2 _ _ Hu) as [x ->].
  - eapply (plan_topo _ _ _ plan); [exact Ho|]. apply batch_edges_elem. eauto.
Qed.

Lemma op_solo {A} (f : Z → Z → M (B:=B) A) w : ∃ n1 n2,
  (op sch f w).1 = (f n1 n2 (w_store w)).1 ∧ w_store (op sch f w).2 = (f n1 n2 (w_store w)).2 ∧ w_effects (op sch f w).2 = w_effects w.
Proof.
  exists (clock sch (2 * w_tick w)), (clock sch (2 * w_tick w + 1)). unfold op. cbn. rewrite alone. by destruct (f _ _ _).
Qed.

Lemma event_stage id ty data w : let w' := (event_as sch actor id ty data w).2 in
  tasks (w_store w') = tasks (w_store w) ∧ (healthy (backend (w_store w)) → healthy (backend (w_store w'))) ∧ w_effects w' = w_effects w.
Proof.
  unfold event_as, World.quiet. rewrite bind_run. destruct (op_solo (λ n _, InsertEvent n (actor_Sub actor) (actor_Type actor) id ty (Some data)) w)
    as (n1 & n2 & _ & E1 & E2). unfold mret, W_ret. cbv beta zeta. cbn [snd]. rewrite E1, E2.
  split_and!; [|intros Hh; by apply quiet_InsertEvent|done].
  by injection (keeps_InsertEvent n1 (actor_Sub actor) (actor_Type actor) id ty (Some data) (w_store w)).
Qed.

Lemma announce_stage (t : Task) w : let w' := (announce sch actor t w).2 in
  tasks (w_store w') = tasks (w_store w) ∧ (healthy (backend (w_store w)) → healthy (backend (w_store w'))) ∧
  w_effects w' = (w_effects w ++ [GenerateTitle (ID t) (Prompt t)])%list.
Proof.
  unfold announce, state_change. rewrite bind_run. cbv zeta.
  destruct (event_stage (ID t) EventTypeStateChange (NewStateChangeData EmptyString TaskStatusBacklog TriggerUser []) w) as (E1 & E2 & E3).
  unfold emit. cbn [snd w_store w_effects]. by rewrite <-E3.
Qed.

Lemma created_snoc made i t x u s s' : ts !! i = Some t → ids !! i = Some x → stored_as x t u →
  tasks s' = <[x := u]> (tasks s) → (healthy (backend s) → healthy (backend s')) → created made s → created (made ++ [i])%list s'.
Proof.
  intros Ht Hx Hu Hs Hh [Ho Hm Hr Hb]. split.
  - intros y Hy. rewrite Hs, lookup_insert_ne; [by apply Ho|]. intros ->. apply Hy. by eapply list_elem_of_lookup_2.
  - intros j t' y Ht' Hy Hj. rewrite Hs. destruct (decide (j = i)) as [-> |Hne]; [simplify_eq; rewrite lookup_insert_eq; by exists u|].
    rewrite lookup_insert_ne; [|intros ->; apply Hne; by eapply NoDup_lookup]. eapply Hm; [done..|].
    apply elem_of_app in Hj as [?| ->%list_elem_of_singleton]; done.
  - intros j y Hy [Hj1 Hj2]%not_elem_of_app. rewrite Hs, lookup_insert_ne; [by eapply Hr|]. intros ->. apply Hj2, list_elem_of_singleton.
    by eapply NoDup_lookup.
  - auto.
Qed.

Lemma created_same made s s' : tasks s' = tasks s → (healthy (backend s) → healthy (backend s')) → created made s → created made s'.
Proof. intros E Hh [Ho Hm Hr Hb]. split; rewrite ?E; auto. Qed.

Lemma table_snoc made rest i t x m : order = (made ++ i :: rest)%list → ts !! i = Some t → ids !! i = Some x → table made m →
  table (made ++ [i])%list (if bool_decide (b_Ref t = EmptyString) then m else <[b_Ref t := x]> m).
Proof.
  intros Ho Ht Hx Hm r. assert (∀ d, refs !! r = Some d → (d ∈ (made ++ [i])%list ↔ d ∈ made ∨ b_Ref t = r ∧ d = i)) as Hd.
  { intros d (u & Hu & Er & _)%(plan_refs _ _ _ plan). rewrite elem_of_app, list_elem_of_singleton. split; [|tauto].
    intros [?| ->]; [by left|right]. simplify_eq. done. }
  destruct (bool_decide_reflect (b_Ref t = EmptyString)) as [E|E].
  - rewrite Hm. destruct (refs !! r) as [d|] eqn:Er; [|done]. apply decide_ext. rewrite (Hd d) by done. split; [tauto|].
    intros [?|[<- _]]; [done|]. apply (plan_refs _ _ _ plan) in Er as (_ & _ & _ & ?). done.
  - destruct (decide (b_Ref t = r)) as [<-|Hne].
    + rewrite lookup_insert_eq. assert (refs !! b_Ref t = Some i) as Er by (apply (plan_refs _ _ _ plan); eauto).
      rewrite Er, decide_True; [done|]. apply elem_of_app. right. by apply list_elem_of_singleton.
    + rewrite lookup_insert_ne, Hm by done. destruct (refs !! r) as [d|] eqn:Er; [|done]. apply decide_ext. rewrite (Hd d) by done. tauto.
Qed.

Lemma made_step made rest i t x m w : order = (made ++ i :: rest)%list → ts !! i = Some t → ids !! i = Some x → table made m → at_stage made w →
  let '(r, w1) := op sch (λ n _, CreateTaskWithOptions tbl [] x n (batch_options p x (dep_strings m t) t)) w in
  match r with
  | Ok u => ID u = x ∧ at_stage (made ++ [i])%list (announce sch actor u w1).2
  | Err _ => at_stage made w1 ∧ ¬ healthy (backend s0)
  end.
Proof.
  intros Ho Ht Hx Hm [Hc He]. rewrite (wired_strings made rest i t m) by done.
  destruct (op_solo (λ n _, CreateTaskWithOptions tbl [] x n (batch_options p x (wired t) t)) w) as (n1 & n2 & E1 & E2 & E3).
  pose proof (create_cases tbl [] x n1 (batch_options p x (wired t) t) (w_store w)) as Hk.
  destruct (op sch _ w) as [r w1]. cbn [fst snd] in E1, E2, E3. destruct (CreateTaskWithOptions _ _ _ _ _ _) as [r' s']. cbn [fst snd] in *. subst r s'.
  destruct r' as [u|e]; destruct Hk as [Hk1 Hk2]; [|split; [split|]].
  - destruct Hk2 as [(place & Hu) Hh]. destruct (announce_stage u w1) as (A1 & A2 & A3).
    assert (ID u = x ∧ Prompt u = b_Prompt t) as [Ei Ep].
    { subst u. unfold batch_options, created_by, build_task. destruct p; cbn; repeat case_decide; done. }
    split; [done|]. rewrite Ei in Hk1. split.
    + eapply created_snoc; [done..|by exists n1, place|by rewrite A1, Hk1|auto|exact Hc].
    + rewrite A3, E3, He. unfold titles. rewrite fmap_app, (assoc_L _). cbn. by rewrite Hx, Ht, Ei, Ep.
  - eapply created_same; [exact Hk1| |exact Hc]. intros Hb. by destruct Hk2.
  - by rewrite E3.
  - intros Hb. by apply Hk2, (cr_healthy _ _ Hc).
Qed.

(** The tasks are created in order, until the backend fails. *)
Lemma persist_spec rest made m w : order = (made ++ rest)%list → table made m → at_stage made w →
  let '(r, w') := persist tbl sch actor p ids ts rest m w in
  ∃ made' rest', order = (made' ++ rest')%list ∧ at_stage made' w' ∧
    match r with Ok m' => rest' = [] ∧ table order m' | Err _ => ¬ healthy (backend s0) end.
Proof.
  revert made m w. induction rest as [|i rest IH]; intros made m w Ho Hm Hw; cbn [persist].
  { exists made, []. split_and!; [done..|]. rewrite app_nil_r in Ho. by subst. }
  assert (i < length ts)%nat as Hi. { apply (plan_all _ _ _ plan). rewrite Ho. apply elem_of_app. right. left. }
  destruct (lookup_lt_is_Some_2 _ _ Hi) as [t Ht]. rewrite <-len in Hi. destruct (lookup_lt_is_Some_2 _ _ Hi) as [x Hx].
  rewrite Ht, Hx, bind_run. pose proof (made_step made rest i t x m w Ho Ht Hx Hm Hw) as Hs.
  destruct (op sch _ w) as [[u|e] w1]; cbn [fst snd].
  - destruct Hs as [Hu Hs]. rewrite bind_run. cbv beta. rewrite Hu. apply (IH (made ++ [i])%list); [by rewrite <-(assoc_L _)|by eapply table_snoc|done].
  - destruct Hs as [Hs Hn]. unfold mret, W_ret. exists made, (i :: rest). done.
Qed.

(** Reading the tasks back. *)
Lemma read_back_spec l acc w : (∀ x, x ∈ l → is_Some (tasks (w_store w) !! x)) →
  let '(r, w') := read_back sch l acc w in w_store w' = w_store w ∧ w_effects w' = w_effects w ∧
  ∃ us, r = Ok (acc ++ us)%list ∧ Forall2 (λ x u, tasks (w_store w) !! x = Some u) l us.
Proof.
  revert acc w. induction l as [|x l IH]; intros acc w Hl; cbn [read_back].
  { split_and!; [done..|]. exists []. by rewrite app_nil_r. }
  rewrite bind_run. unfold get_task, read. cbn [fst snd]. assert (w_store (arrive sch w) = w_store w) as E1 by apply alone.
  destruct (Hl x) as [u Hu]; [left|]. unfold GetTask. rewrite E1, Hu. specialize (IH (acc ++ [u])%list (arrive sch w)). rewrite E1 in IH.
  destruct (read_back sch l _ _) as [r w']. destruct IH as (I1 & I2 & us & -> & I3); [intros y Hy; apply Hl; by right|].
  split_and!; [done..|]. exists (u :: us). split; [by rewrite <-(assoc_L _)|by constructor].
Qed.

(** The dependencies afterwards are those of before and those asked for. *)
Lemma created_joined made s x y : created made s → dep_edge s x y → joined ts refs ids s0 x y.
Proof.
  intros [Ho Hm Hr _] (u & Hu & Hy). destruct (decide (x ∈ ids)) as [[i Hi]%list_elem_of_lookup|Hx]; [|left; exists u; by rewrite <-Ho].
  right. destruct (decide (i ∈ made)) as [Hmade|Hn]; [|by rewrite (Hr i x) in Hu].
  assert (i < length ts)%nat as Hlt by (rewrite <-len; by eapply lookup_lt_Some). destruct (lookup_lt_is_Some_2 _ _ Hlt) as [t Ht].
  destruct (Hm i t x) as (u' & Hu' & now & place & ->); [done..|]. rewrite Hu' in Hu. simplify_eq.
  replace (DependsOn _) with (wired t) in Hy by (unfold batch_options, created_by, build_task; destruct p; cbn; by repeat case_decide).
  unfold parse_deps, wired in Hy. apply list_elem_of_omap in Hy as (d & (dep & -> & Hdep)%list_elem_of_fmap & Hy).
  exists i, t, dep. split_and!; [done..|]. unfold resolve_dep. destruct (refs !! dep); [|by rewrite Hy].
  rewrite uuid_Parse_String in Hy. by simplify_eq.
Qed.

Lemma created_none s : tasks s = tasks s0 → backend s = backend s0 → created [] s.
Proof.
  intros E Eb. split; rewrite ?E, ?Eb; [done| |intros i x Hx _; apply new; by eapply list_elem_of_lookup_2|done].
  by intros i t x _ _ ?%not_elem_of_nil.
Qed.

Lemma table_none : table [] ∅.
Proof. intros r. rewrite lookup_empty. destruct (refs !! r); [|done]. by rewrite decide_False by apply not_elem_of_nil. Qed.

Lemma created_all made s x : order = made → created made s → x ∈ ids → is_Some (tasks s !! x).
Proof.
  intros <- Hc [i Hi]%list_elem_of_lookup. assert (i < length ts)%nat as Hlt by (rewrite <-len; by eapply lookup_lt_Some).
  destruct (lookup_lt_is_Some_2 _ _ Hlt) as [t Ht]. destruct (cr_made _ _ Hc i t x) as (u & Hu & _); [done..|by apply (plan_all _ _ _ plan)|by exists u].
Qed.

Lemma table_strings m r : table order m → (uuid_String <$> m) !! r = match refs !! r with Some d => uuid_String <$> ids !! d | None => None end.
Proof.
  intros Hm. rewrite lookup_fmap, Hm. destruct (refs !! r) as [d|] eqn:E; [|done]. rewrite decide_True; [done|].
  apply (plan_all _ _ _ plan). apply (plan_refs _ _ _ plan) in E as (t & Ht%lookup_lt_Some & _). done.
Qed.

Lemma created_acyclic made s : externals ts refs s0 → (∀ x y, dep_edge s0 x y → y ∉ ids) → created made s → acyclic_store s0 → acyclic_store s.
Proof.
  intros Hex Hunk Hc Ha x Hx. apply (joined_acyclic ts refs order ids s0 plan len fresh_ids new Hunk Hex Ha x).
  eapply (tc_congruence (λ x, x)); [|exact Hx]. intros a b. by apply (created_joined made).
Qed.
End batch.

(** ** The request *)

Section request.
Context `{UUIDLib} {B : Type} `{!StorageBackend B} (tbl : Z → Z) (high : Z → bool).
Variables (sch : Schedule B) (actor : Actor).
Hypothesis alone : solo sch.
Implicit Types (w : World B) (s : Store B) (refs : gmap string nat).

(** The first dependency that is neither in the batch nor stored. *)
Definition missing_dep s refs (label : string) (deps : list string) : option string :=
  head (omap (λ dep, match refs !! dep, tasks s !! default uuid_Nil (uuid_Parse dep) with
                     | None, None => Some ("ref " +:+ Quote high label +:+ ": dependency task not found: " +:+ dep)
                     | _, _ => None
                     end) deps).

Definition missing_any s refs (l : list (nat * batchTaskInput)) : option string :=
  head (omap (λ '(i, t), missing_dep s refs (batchRefLabel (b_Ref t) i) (DependsOnRefs t)) l).

(** What is refused before anything is done. *)
Definition batch_refusal s (ts : list batchTaskInput) : option Response :=
  match preflight high ts with
  | inl refusal => Some refusal
  | inr (refs, _) => (λ msg, JSON 422 [("error", msg)]) <$> missing_any s refs (imap pair ts)
  end.

(** A step that only reads. *)
Definition reads {A} (m : W (B:=B) A) (a : A) w : Prop := (m w).1 = a ∧ w_store (m w).2 = w_store w ∧ w_effects (m w).2 = w_effects w.

Lemma reads_bind {A C} (m : W (B:=B) A) (k : A → W C) a c w : reads m a w →
  (∀ w', w_store w' = w_store w → w_effects w' = w_effects w → reads (k a) c w') → reads (m ≫= k) c w.
Proof.
  intros (E1 & E2 & E3) Hk. unfold reads. rewrite bind_run, E1. destruct (Hk (m w).2 E2 E3) as (-> & -> & ->). done.
Qed.

Lemma reads_exist refs label deps w : reads (externals_exist high sch refs label deps) (missing_dep (w_store w) refs label deps) w.
Proof.
  revert w. induction deps as [|dep deps IH]; intros w; [done|]. cbn [externals_exist]. unfold missing_dep. cbn.
  destruct (refs !! dep) eqn:E; [apply IH|]. eapply (reads_bind _ _ (GetTask (default uuid_Nil (uuid_Parse dep)) (w_store w))).
  { unfold reads, get_task, read. cbn. by rewrite alone. }
  intros w' E1 E2. unfold GetTask. destruct (tasks (w_store w) !! _); [|done]. rewrite <-E1. apply IH.
Qed.

Lemma reads_all refs l w : reads (externals_all high sch refs l) (missing_any (w_store w) refs l) w.
Proof.
  revert w. induction l as [|[i t] l IH]; intros w; [done|]. cbn [externals_all]. eapply reads_bind; [apply reads_exist|].
  intros w' E1 E2. unfold missing_any. cbn. destruct (missing_dep _ _ _ _); [done|]. rewrite <-E1. apply IH.
Qed.

Lemma no_missing s refs ts : missing_any s refs (imap pair ts) = None → externals ts refs s.
Proof.
  unfold missing_any. rewrite head_omap_None. intros Hm t dep [i Hi]%list_elem_of_lookup Hd Hr.
  specialize (Hm (i, t) (elem_of_lookup_imap_2 pair _ _ _ Hi)). cbn in Hm. unfold missing_dep in Hm. rewrite head_omap_None in Hm.
  specialize (Hm dep Hd). rewrite Hr in Hm. by destruct (tasks s !! _).
Qed.
End request.

(** The checks of a batch accept exactly the batches that can be created:
    between one and fifty tasks with different refs and prompts that are not
    blank, without the fields no longer taken, whose dependencies are refs or
    identifiers, and whose refs can be ordered with dependencies first. *)
Theorem preflight_correct `{UUIDLib} high ts : (∃ refs order, preflight high ts = inr (refs, order)) ↔ batch_ok ts.
Proof.
  pose proof (preflight_spec high ts) as Hp. destruct (preflight high ts) as [r|[refs order]].
  - split; [intros (? & ? & [=])|done].
  - split; [intros _; apply Hp|eauto].
Qed.

(** C8: creating a batch, with no other goroutine at work and identifiers that are
    new.  A batch that fails the checks, or depends on a task that is not there,
    is refused with nothing written.  Any other batch is not refused: its tasks are
    stored as asked, with each ref replaced by the identifier of its task, in an
    order in which dependencies come first, each with its title requested; no
    other task changes and no cycle is closed.  The answer lists all of them in
    the order of the request with the identifiers by ref, unless the backend fails:
    then the tasks stored so far remain, and the answer is the error. *)
Theorem BatchCreateTasks_spec `{UUIDLib} {B : Type} `{!StorageBackend B} tbl high (sch : Schedule B) actor ids p ts w :
  solo sch → (∀ n m i, i ∈ ranges sch n m ↔ is_Some (m !! i)) → store_wf tbl (w_store w) →
  length ids = length ts → NoDup ids → (∀ i, i ∈ ids → tasks (w_store w) !! i = None) → (∀ x y, dep_edge (w_store w) x y → y ∉ ids) →
  let (resp, w') := BatchCreateTasks tbl high sch actor ids p ts w in
  match batch_refusal high (w_store w) ts with
  | Some refusal => resp = refusal ∧ w_store w' = w_store w ∧ w_effects w' = w_effects w
  | None => ∃ refs order made rest,
      preflight high ts = inr (refs, order) ∧ batch_plan ts refs order ∧ order = (made ++ rest)%list ∧
      created tbl p ts refs ids (w_store w) made (w_store w') ∧ w_effects w' = (w_effects w ++ titles ts ids made)%list ∧
      (acyclic_store (w_store w) → acyclic_store (w_store w')) ∧
      match resp with
      | BatchJSON us refToID => rest = [] ∧ Forall2 (λ x u, tasks (w_store w') !! x = Some u) ids us ∧
          ∀ r, refToID !! r = match refs !! r with Some d => uuid_String <$> ids !! d | None => None end
      | StoreError _ code => code = 500%Z ∧ ¬ healthy (backend (w_store w))
      | _ => False
      end
  end.
Proof.
  intros Halone Hcov Hwf Hlen Hnd Hnew Hunk. unfold BatchCreateTasks, batch_refusal.
  pose proof (preflight_spec high ts) as Hp. destruct (preflight high ts) as [r|[refs order]]; [done|]. destruct Hp as [_ Hplan].
  rewrite bind_run. destruct (reads_all high sch Halone refs (imap pair ts) w) as (E1 & E2 & E3).
  destruct (externals_all _ _ _ _ w) as [r1 w1]. cbn [fst snd] in *. subst r1.
  destruct (missing_any high (w_store w) refs (imap pair ts)) eqn:Em; [done|]. cbn [fmap option_fmap option_map].
  apply no_missing in Em. rewrite bind_run. unfold read_range, read. cbn [fst snd].
  assert (w_store (arrive sch w1) = w_store w) as E4 by (cbn; by rewrite Halone).
  rewrite E4, (batch_cycle_None ts refs order ids (w_store w) Hplan Hlen Hnd Hnew Hunk Em).
  2: { intros x y. apply (listed_edges sch Hcov). apply (wf_ids _ _ Hwf). }
  rewrite bind_run. pose proof (persist_spec tbl sch actor p Halone ts refs order ids (w_store w) (w_effects w) Hplan Hlen Hnd order [] ∅ (arrive sch w1))
    as Hs. destruct (persist _ _ _ _ _ _ _ _ _) as [r2 w2]. destruct Hs as (made & rest & Ho & [Hc He] & Hr); [done|apply table_none| |].
  { split; [apply created_none; by rewrite ?E4|]. cbn. by rewrite app_nil_r. }
  pose proof (created_acyclic tbl p ts refs order ids (w_store w) Hplan Hlen Hnd Hnew made (w_store w2) Em Hunk Hc) as Ha.
  destruct r2 as [m|e]; [|exists refs, order, made, rest; done]. destruct Hr as [-> Hm]. cbn [fst snd]. rewrite app_nil_r in Ho.
  rewrite bind_run. pose proof (read_back_spec sch Halone ids [] w2) as Hb. destruct (read_back sch ids [] w2) as [r3 w3].
  destruct Hb as (F1 & F2 & us & -> & Hus); [intros x; by eapply created_all|].
  cbn. exists refs, order, made, []. rewrite F1, F2, app_nil_r. split_and!; [done..|]. intros r. by eapply table_strings.
Qed.
