(* ===== verification/TaskRequestsRun.v ===== *)
(** * Concrete task requests

    Witnesses for the theorems of TaskRequestsSpec and BatchSpec, and runs that
    show what the checks do not cover: cycles closed by two requests at once and
    by a restoration, a task in progress that no worker runs, a batch left half
    created, and a dependency that a deletion does not release. *)

From S2P Require Import Prelude Dag TaskBatch Breaker StateMachine GoStrings GoText PkgUtil TaskModel Backend Store StoreUpdate StoreWf StoreRestart StoreSpec StoreQuery Verdict World WorldRules Runner RunnerRun Execute ExecuteSpec Automation AutomationSpec AutomationRun TaskRequests TaskRequestsSpec BatchSpec.
From Stdlib Require Import String Ascii.
From stdpp Require Import list gmap.
Local Open Scope Z_scope.
Local Open Scope string_scope.

Module TaskRequestsRun.
#[local] Existing Instance text_uuid.
Import RunnerRun ExecuteRun AutomationRun.

Definition store_of (m : gmap (@uuid text_uuid) Task) (faults : list bool) : Store MemBackend :=
  match NewStore id (Mem (Contents m ∅ ∅) faults) 10 10 10 100 with
  | Ok s => s
  | Err _ => fresh_store (Mem (Contents ∅ ∅ ∅) []) 0 0 0 0
  end.
Definition world_of m faults : World MemBackend := MkWorld (store_of m faults) 0 [] false ∅ ∅.

Lemma store_of_wf m faults : map_Forall (λ i t, ID t = i) m → store_wf id (store_of m faults).
Proof.
  intros Hm. unfold store_of. destruct (NewStore _ _ _ _ _ _) as [s|e] eqn:E.
  - by apply (NewStore_wf id _ 10 10 10 100 s) in E.
  - apply (NewStore_wf id (Mem (Contents ∅ ∅ ∅) []) 0 0 0 0); [|done]. intros i u. cbn. by rewrite lookup_empty.
Qed.

Definition idC : @uuid text_uuid := "C".
Definition idD : @uuid text_uuid := "D".
Definition queued (i : @uuid text_uuid) (deps : list string) : Task := backlog <| ID := i |> <| DependsOn := deps |>.
Definition three : gmap (@uuid text_uuid) Task := {[idA := queued idA [idC]; idC := queued idC []; idD := queued idD []]}.

Definition no_change : PatchRequest :=
  MkPatch None None None None None None None None None None None None None None None None NoSchedule None None.
Definition depend_on (l : list string) : PatchRequest :=
  MkPatch None None None None None None None None None (Some l) None None None None None None NoSchedule None None.
Definition move_to (x : TaskStatus) : PatchRequest :=
  MkPatch (Some x) None None None None None None None None None None None None None None None NoSchedule None None.
Definition undelete : PatchRequest :=
  MkPatch None None None None None None None None None None None None (Some false) None None None NoSchedule None None.

Definition patch (sch : Schedule MemBackend) := UpdateTask id (λ _, false) sch settings no_actor (λ _, inr tt) (λ _, None) (λ s, s) (λ _, EmptyString) [].

Definition deps_of (w : World MemBackend) : gmap (@uuid text_uuid) (list string) := DependsOn <$> tasks (w_store w).

Lemma edges_of m faults x y : dep_edge (store_of m faults) x y → ∃ l, deps_of (world_of m faults) !! x = Some l ∧ y ∈ omap Some l.
Proof. intros (t & Ht & Hy). exists (DependsOn t). split; [|done]. unfold deps_of. rewrite lookup_fmap. change (w_store (world_of m faults)) with (store_of m faults). by rewrite Ht. Qed.

Lemma three_deps : deps_of (world_of three []) = {[idA := [idC]; idC := []; idD := []]}.
Proof. vm_compute. reflexivity. Qed.

Lemma three_acyclic : acyclic_store (store_of three []).
Proof.
  unfold acyclic_store. apply (acyclic_ranked _ (λ x, if decide (x = idA) then 1%nat else 0%nat)). intros x y (l & Hl & Hy)%edges_of. rewrite three_deps in Hl.
  apply lookup_insert_Some in Hl as [[<- <-]|[_ Hl]].
  - apply list_elem_of_singleton in Hy as ->. vm_compute. lia.
  - apply lookup_insert_Some in Hl as [[<- <-]|[_ [<- <-]%lookup_singleton_Some]]; by apply not_elem_of_nil in Hy.
Qed.

Lemma three_wf faults : store_wf id (store_of three faults).
Proof. apply store_of_wf. apply (bool_decide_unpack _). vm_compute. exact I. Qed.

(** D may depend on A; C may not, since A depends on it. *)
Lemma patch_keeps_acyclic_witness :
  deps_of (patch alone idD (depend_on [idA]) (world_of three [])).2 = {[idA := [idC]; idC := []; idD := [idA]]} ∧
  deps_of (patch alone idC (depend_on [idA]) (world_of three [])).2 = deps_of (world_of three []) ∧
  acyclic_store (w_store (patch alone idD (depend_on [idA]) (world_of three [])).2).
Proof.
  split; [vm_compute; reflexivity|]. split; [vm_compute; reflexivity|].
  apply (patch_keeps_acyclic id); [by intros E b n s|apply any_order_covers| |reflexivity|apply three_acyclic].
  apply three_wf.
Defined.

(** ** A batch *)

Definition asked (ref : string) (deps : list string) : batchTaskInput :=
  MkBatchTask ref ("do " +:+ ref) EmptyString 30 [] None None EmptyString EmptyString false deps EmptyString.
Definition pair_batch : list batchTaskInput := [asked "x" ["y"; idA]; asked "y" []].
Definition pair_ids : list (@uuid text_uuid) := ["X"; "Y"].
Definition create (faults : list bool) := BatchCreateTasks id (λ _, false) alone no_actor pair_ids None pair_batch (world_of three faults).

Lemma pair_new i : i ∈ pair_ids → tasks (store_of three []) !! i = None.
Proof. unfold pair_ids. rewrite !elem_of_cons. intros [-> |[-> |?%not_elem_of_nil]]; [vm_compute; reflexivity..|done]. Qed.

Lemma pair_unknown x y : dep_edge (store_of three []) x y → y ∉ pair_ids.
Proof.
  intros (l & Hl & Hy)%edges_of. rewrite three_deps in Hl. apply lookup_insert_Some in Hl as [[<- <-]|[_ Hl]].
  - apply list_elem_of_singleton in Hy as ->. apply (bool_decide_unpack _). vm_compute. exact I.
  - apply lookup_insert_Some in Hl as [[<- <-]|[_ [<- <-]%lookup_singleton_Some]]; by apply not_elem_of_nil in Hy.
Qed.

(** The task y is created first; x depends on it and on the stored A. *)
Lemma BatchCreateTasks_spec_witness :
  batch_refusal (λ _, false) (store_of three []) pair_batch = None ∧
  deps_of (create []).2 = {[idA := [idC]; idC := []; idD := []; "X" := ["Y"; idA]; "Y" := []]} ∧
  let (resp, w') := create [] in
  match batch_refusal (λ _, false) (store_of three []) pair_batch with
  | Some refusal => resp = refusal ∧ w_store w' = store_of three [] ∧ w_effects w' = []
  | None => ∃ refs order made rest,
      preflight (λ _, false) pair_batch = inr (refs, order) ∧ batch_plan pair_batch refs order ∧ order = (made ++ rest)%list ∧
      created id None pair_batch refs pair_ids (store_of three []) made (w_store w') ∧ w_effects w' = ([] ++ titles pair_batch pair_ids made)%list ∧
      (acyclic_store (store_of three []) → acyclic_store (w_store w')) ∧
      match resp with
      | BatchJSON us refToID => rest = [] ∧ Forall2 (λ x u, tasks (w_store w') !! x = Some u) pair_ids us ∧
          ∀ r, refToID !! r = match refs !! r with Some d => uuid_String <$> pair_ids !! d | None => None end
      | StoreError _ code => code = 500 ∧ ¬ healthy (backend (store_of three []))
      | _ => False
      end
  end.
Proof.
  split; [vm_compute; reflexivity|]. split; [vm_compute; reflexivity|].
  apply (BatchCreateTasks_spec id (λ _, false) alone no_actor pair_ids None pair_batch (world_of three []));
    [by intros b n s|apply any_order_covers|apply three_wf|reflexivity| |apply pair_new|apply pair_unknown].
  apply (bool_decide_unpack _). vm_compute. exact I.
Defined.

(** ** What the checks do not cover *)

(** Two requests at once: while one makes C depend on D, the other makes D
    depend on C between the check and the write of the first. *)
Lemma concurrent_patches_close_cycle :
  let other : M (B:=MemBackend) unit := UpdateTaskDependsOn 0 idD [idC] in
  deps_of (patch (meanwhile 3 other) idC (depend_on [idD]) (world_of three [])).2 = {[idA := [idC]; idC := [idD]; idD := [idC]]}.
Proof. vm_compute. reflexivity. Qed.

(** A is deleted while the finished D depends on it, C is made to depend on D,
    and A, which depends on C, is restored. *)
Definition finished : gmap (@uuid text_uuid) Task :=
  {[idA := queued idA [idC]; idC := queued idC []; idD := queued idD [idA] <| Status := TaskStatusDone |>]}.

Lemma restore_closes_cycle :
  let w1 := (DeleteTask_request alone idA EmptyString (world_of finished [])).2 in
  let r2 := patch alone idC (depend_on [idD]) w1 in
  (match r2.1 with TaskJSON code _ => Some code | _ => None end) = Some 200 ∧
  deps_of (patch alone idA undelete r2.2).2 = {[idA := [idC]; idC := [idD]; idD := [idA]]}.
Proof. split; vm_compute; reflexivity. Qed.

(** A waiting task that is still marked as a test run is moved to in progress:
    no worker is started. *)
Lemma test_run_patched_without_worker :
  let w' := (patch alone idA (move_to TaskStatusInProgress) (world_of {[idA := waiting <| IsTestRun := true |>]} [])).2 in
  Status <$> tasks (w_store w') !! idA = Some TaskStatusInProgress ∧
  filter (λ e, match e with RunBackground _ _ _ _ => true | _ => false end = true) (w_effects w') = [].
Proof. split; vm_compute; reflexivity. Qed.

(** The backend fails at the second task of a batch: the first one remains. *)
Lemma batch_left_half :
  let r := create (replicate 13 false ++ [true]) in
  (match r.1 with StoreError _ code => Some code | _ => None end) = Some 500 ∧
  deps_of r.2 = {[idA := [idC]; idC := []; idD := []; "Y" := []]}.
Proof. split; vm_compute; reflexivity. Qed.
End TaskRequestsRun.

(** ** A dependency in another spelling *)

(** Identifiers whose texts start with u; with U they parse as well, as the
    identifiers of the library do in upper case. *)
Module Spelling.
Definition letter_uuid : UUIDLib := {|
  uuid := string; uuid_String := String "u"%char; uuid_Nil := EmptyString;
  uuid_Parse := λ s, match s with
                     | String c r => if bool_decide (c = "u"%char ∨ c = "U"%char) then Some r else None
                     | EmptyString => None
                     end;
  uuid_Parse_String := λ _, eq_refl
|}.
#[local] Existing Instance letter_uuid.

Definition idA : @uuid letter_uuid := "A".
Definition idX : @uuid letter_uuid := "X".
Definition stored : Task := zero_Task <| ID := idA |> <| Status := TaskStatusBacklog |>.
Definition start : World MemBackend :=
  MkWorld (match NewStore id (Mem (Contents {[idA := stored]} ∅ ∅) []) 10 10 10 100 with
           | Ok s => s | Err _ => fresh_store (Mem (Contents ∅ ∅ ∅) []) 0 0 0 0 end) 0 [] false ∅ ∅.
Definition sch : Schedule MemBackend := MkSchedule (λ _ _ s, s) Z.of_nat (λ _ m, (map_to_list m).*1).

(** A task is created in a batch that depends on the stored A, spelled UA, and A
    is deleted: the new task still depends on it, and is not released.  Spelled uA,
    it is. *)
Definition then_deleted (dep : string) : World MemBackend :=
  let one := MkBatchTask EmptyString "go" EmptyString 30 [] None None EmptyString EmptyString false [dep] EmptyString in
  (DeleteTask_request sch idA EmptyString (BatchCreateTasks id (λ _, false) sch no_actor [idX] None [one] start).2).2.

Lemma other_spelling_not_released :
  DependsOn <$> tasks (w_store (then_deleted "UA")) = {[idX := ["UA"]]} ∧ DependsOn <$> tasks (w_store (then_deleted "uA")) = {[idX := []]}.
Proof. split; vm_compute; reflexivity. Qed.
End Spelling.
