(* ===== verification/Routines.v ===== *)
(** * Routine cards and the scheduler (internal/handler/routines.go, routines_engine.go)

    A handler of routines works on the store and on the scheduler of
    [RoutineEngine].  [System] holds both; [R] is the monad of the code that uses
    both.  Before each of its operations on the scheduler, the other goroutines of
    the scheduler do the actions [between]; before each operation on the store,
    those of the world's schedule run.

    Parameters: the flow registry; [booted], whether the scheduler exists;
    [has_store], whether a workspace is open; what [uuid.New] returns; the order in
    which the map of next runs is ranged over. *)

From S2P Require Import Prelude GoStrings GoText PkgUtil TaskModel Backend Store StoreUpdate StoreQuery RoutineEngine Flow World Execute.
From Stdlib Require Import String.
From stdpp Require Import list gmap pretty.
Local Open Scope Z_scope.
Local Open Scope string_scope.

(** ** Schedules *)

Definition minRoutineIntervalMinutes : Z := 1.

Definition allowedRoutineSpawnKinds : list TaskKind := [TaskKindTask].

(** [time.Second]. *)
Definition second : Z := 10 ^ 9.

(** A product of durations wraps around. *)
Definition scheduleForTask `{UUIDLib} (t : Task) : RoutineEngine.Schedule :=
  if isRoutineStoppedStatus (Status t) || negb (RoutineEnabled t) || Z.leb (RoutineIntervalSeconds t) 0 then disabled
  else FixedInterval (wrap64 (RoutineIntervalSeconds t * second)).

(** [Time.Sub] saturates. *)
Definition time_Sub (a b : Z) : Z := Z.max (- 2 ^ 63) (Z.min (2 ^ 63 - 1) (a - b)).

Definition routineNextRunEqual (a b : option Z) : bool :=
  match a, b with
  | None, None => true
  | Some a, Some b =>
    let d := time_Sub a b in
    let d := if Z.ltb d 0 then wrap64 (- d) else d in
    Z.ltb d (500 * 10 ^ 6)
  | _, _ => false
  end.

(** ** Answers *)

Record RoutineResponse `{UUIDLib} := MkRoutineResponse {
  rr_ID : uuid;
  rr_Prompt : string;
  rr_Tags : list string;
  rr_Kind : TaskKind;
  rr_RoutineIntervalSeconds : Z;
  rr_RoutineEnabled : bool;
  rr_RoutineNextRun : option Z;
  rr_RoutineLastFiredAt : option Z;
  rr_RoutineSpawnKind : TaskKind;
  rr_RoutineSpawnFlow : string;
  rr_CreatedAt : Z;
  rr_UpdatedAt : Z
}.

Arguments MkRoutineResponse {_}.

Inductive RoutineAnswer `{UUIDLib} :=
| RoutineError (msg : string) (code : Z)
| RoutineStoreError (e : store_error) (code : Z)
| RoutineJSON (code : Z) (r : RoutineResponse)
| RoutinesJSON (l : list RoutineResponse)
| Queued.

Definition toRoutineResponse `{UUIDLib} (reg : Registry) (t : Task) : RoutineResponse :=
  MkRoutineResponse (ID t) (Prompt t) (Tags t) (Kind t) (RoutineIntervalSeconds t) (RoutineEnabled t) (RoutineNextRun t)
    (RoutineLastFiredAt t) (RoutineSpawnKind t) (ResolveRoutineFlow reg (Some t)) (CreatedAt t) (UpdatedAt t).

Record RoutineRequest := MkRoutineRequest {
  q_Prompt : string;
  q_IntervalMinutes : Z;
  q_SpawnKind : TaskKind;
  q_SpawnFlow : string;
  q_Enabled : option bool;
  q_Timeout : Z;
  q_Tags : list string
}.

Section routines.
Context `{UUIDLib} {B : Type} `{!StorageBackend B} (tbl : Z → Z) (high : Z → bool).
Variables (sch : World.Schedule B) (reg : Registry) (booted has_store : bool).
Abbreviation W := (W (B:=B)).
Abbreviation op := (op sch).
Abbreviation get_task := (get_task sch).

(** ** A fire *)

Definition buildRoutineInstancePrompt (t : Task) : string := Prompt t.

Definition instance_options (id : uuid) (t : Task) : TaskCreateOptions :=
  MkOptions uuid_Nil (buildRoutineInstancePrompt t) EmptyString (TaskTimeout t) false (RoutineSpawnKind t) (ResolveRoutineFlow reg (Some t))
    (Tags t ++ [spawn_tag id])%list EmptyString ∅ f64_zero 0 None [] EmptyString EmptyString [] [] 0 false EmptyString EmptyString EmptyString EmptyString.

(** [fresh] is what [uuid.New] returns. *)
Definition fireRoutine (fresh id : uuid) : W unit :=
  if negb has_store then emit (UnregisterRoutine id)
  else
    r ← get_task id;
    match r with
    | Err _ => emit (UnregisterRoutine id)
    | Ok t =>
      if negb (IsRoutine t) then emit (UnregisterRoutine id)
      else if isRoutineStoppedStatus (Status t) || Archived t then emit (UnregisterRoutine id)
      else
        n ← now sch;
        quiet sch (λ n' _, UpdateRoutineLastFiredAt n' id (Some n)) ;;
        i ← op (λ n' _, CreateTaskWithOptions tbl [] fresh n' (instance_options id t));
        match i with
        | Err _ => mret tt
        | Ok inst =>
          e ← op (status_to (ID inst) TaskStatusInProgress);
          match e with
          | Err _ => mret tt
          | Ok _ =>
            state_change sch no_actor (ID inst) EmptyString TaskStatusInProgress TriggerSystem ;;
            event sch id EventTypeSystem (payload [("kind", "routine:fired"); ("instance", uuid_String (ID inst))]) ;;
            emit (RunBackground (ID inst) (buildRoutineInstancePrompt t) EmptyString false)
          end
        end
    end.

(** ** The store and the scheduler *)

Record System := MkSystem { world : World B; running : Running; turn : nat }.

Definition R (A : Type) : Type := System → A * System.

#[local] Instance R_ret : MRet R := λ A a x, (a, x).
#[local] Instance R_bind : MBind R := λ A C k m x, let '(a, x') := m x in k a x'.

Definition lift {A} (m : W A) : R A := λ x, let '(a, w) := m (world x) in (a, MkSystem w (running x) (turn x)).

Variable between : nat → list action.

(** The other goroutines of the scheduler, then one operation. *)
Definition elapse (x : System) : System := MkSystem (world x) (default (running x) (acts (between (turn x)) (running x))) (S (turn x)).

Definition look {A} (f : Engine → A) : R A := λ x, let x := elapse x in (f (engine (running x)), x).

Definition does (a : action) : R unit := λ x,
  let x := elapse x in (tt, MkSystem (world x) (default (running x) (act a (running x))) (turn x)).

(** The first critical section of [Trigger] and the fire; whether the routine is known. *)
Definition Trigger (id : uuid) : R bool := λ x,
  let x := elapse x in
  match trigger_take id (engine (running x)) with
  | Some e => (true, MkSystem (world x) (fire_now id e (running x)) (turn x))
  | None => (false, x)
  end.

Definition launch_fire (id : uuid) : R unit := λ x,
  let r := running x in
  (tt, MkSystem (world x) (MkRunning (engine r) (called r) (rearming r) (fired r ++ [(time r, id)])%list (time r)) (turn x)).

Definition unregisterRoutine (id : uuid) : R unit := if booted then does (DoUnregister id) else mret tt.

(** ** Reconciliation *)

Fixpoint register_routines (ts : list Task) (seen : gset uuid) : R (gset uuid) :=
  match ts with
  | [] => mret seen
  | t :: rest =>
    if negb (IsRoutine t) then register_routines rest seen
    else if isRoutineStoppedStatus (Status t) then register_routines rest seen
    else does (DoRegister (ID t) (Some (scheduleForTask t))) ;; register_routines rest ({[ID t]} ∪ seen)
  end.

Fixpoint drop_routines (ids : list uuid) (seen : gset uuid) : R unit :=
  match ids with
  | [] => mret tt
  | id :: rest => (if decide (id ∈ seen) then mret tt else does (DoUnregister id)) ;; drop_routines rest seen
  end.

(** The zero time is no time. *)
Definition desired (nextRuns : gmap uuid Z) (id : uuid) : option Z :=
  let next := default 0 (nextRuns !! id) in
  if Z.eqb next 0 then None else Some next.

Fixpoint persist_next_runs (ts : list Task) (nextRuns : gmap uuid Z) : W unit :=
  match ts with
  | [] => mret tt
  | t :: rest =>
    (if negb (IsRoutine t) then mret tt
     else if routineNextRunEqual (RoutineNextRun t) (desired nextRuns (ID t)) then mret tt
     else quiet sch (λ n _, UpdateRoutineNextRun n (ID t) (desired nextRuns (ID t)))) ;;
    persist_next_runs rest nextRuns
  end.

(** [range_runs] is the order in which the map is ranged over. *)
Definition reconcileRoutines (range_runs : gmap uuid Z → list uuid) : R unit :=
  if negb booted then mret tt
  else if negb has_store then mret tt
  else
    ts ← lift (read_range sch (λ order, ListTasks order false));
    seen ← register_routines ts ∅;
    nextRuns ← look NextRuns;
    drop_routines (range_runs nextRuns) seen ;;
    lift (persist_next_runs ts nextRuns).

(** ** Requests *)

Definition created_le (a b : RoutineResponse) : Prop := rr_CreatedAt a <= rr_CreatedAt b.

#[local] Instance created_le_dec : RelDecision created_le.
Proof. intros a b. unfold created_le. apply _. Defined.

Definition no_workspace : RoutineAnswer := RoutineError "no workspaces configured" 503.

Definition ListRoutines : W RoutineAnswer :=
  if negb has_store then mret no_workspace
  else
    ts ← read_range sch (λ order, ListTasks order false);
    mret (RoutinesJSON (merge_sort created_le (toRoutineResponse reg <$> filter (λ t, IsRoutine t = true) (ts : list Task)))).

Definition routine_options (req : RoutineRequest) : TaskCreateOptions :=
  MkOptions uuid_Nil (q_Prompt req) EmptyString (q_Timeout req) false TaskKindRoutine EmptyString (q_Tags req) EmptyString ∅ f64_zero 0 None []
    EmptyString EmptyString [] [] (wrap64 (q_IntervalMinutes req * 60)) (default true (q_Enabled req)) (q_SpawnKind req) (q_SpawnFlow req)
    EmptyString EmptyString.

Definition short_interval : RoutineAnswer := RoutineError ("interval_minutes must be >= " +:+ pretty_Z minRoutineIntervalMinutes) 422.

Definition CreateRoutine (actor : Actor) (fresh : uuid) (req : RoutineRequest) : W RoutineAnswer :=
  if bool_decide (q_Prompt req = EmptyString) then mret (RoutineError "prompt is required" 400)
  else if Z.ltb (q_IntervalMinutes req) minRoutineIntervalMinutes then mret short_interval
  else if negb (bool_decide (q_SpawnFlow req = EmptyString)) && bool_decide (Get reg (q_SpawnFlow req) = None) then
    mret (RoutineError ("spawn_flow " +:+ Quote high (q_SpawnFlow req) +:+ " is not a known flow") 422)
  else if bool_decide (q_SpawnFlow req = EmptyString) && negb (bool_decide (q_SpawnKind req ∈ allowedRoutineSpawnKinds)) then
    mret (RoutineError ("spawn_kind " +:+ Quote high (q_SpawnKind req) +:+ " is not allowed") 422)
  else if negb has_store then mret no_workspace
  else
    r ← op (λ n _, CreateTaskWithOptions tbl [] fresh n (routine_options req));
    match r with
    | Err e => mret (RoutineStoreError e 500)
    | Ok t =>
      event_as sch actor (ID t) EventTypeSystem (json_map (list_to_map
        [("kind", JStr "routine:created"); ("interval_seconds", JInt (RoutineIntervalSeconds t)); ("enabled", JBool (RoutineEnabled t));
         ("spawn_kind", JStr (RoutineSpawnKind t)); ("spawn_flow", JStr (RoutineSpawnFlow t))])) ;;
      mret (RoutineJSON 201 (toRoutineResponse reg t))
    end.

(** The routine of a request, or the refusal. *)
Definition find_routine (id : uuid) (k : Task → W RoutineAnswer) : W RoutineAnswer :=
  if negb has_store then mret no_workspace
  else
    r ← get_task id;
    match r with
    | Err _ => mret (RoutineError "routine not found" 404)
    | Ok t => if negb (IsRoutine t) then mret (RoutineError "task is not a routine" 422) else k t
    end.

(** The rest of a request after an update that may fail. *)
Definition if_updated {A} (o : option (Z → Z → M (B:=B) A)) (k : W RoutineAnswer) : W RoutineAnswer :=
  match o with
  | None => k
  | Some f => e ← op f; match e with Err e => mret (RoutineStoreError e 500) | Ok _ => k end
  end.

Definition UpdateRoutineScheduleRequest (actor : Actor) (id : uuid) (IntervalMinutes : option Z) (Enabled : option bool) : W RoutineAnswer :=
  find_routine id (λ _,
    if match IntervalMinutes with Some mins => Z.ltb mins minRoutineIntervalMinutes | None => false end then mret short_interval
    else
      if_updated ((λ mins n _, UpdateRoutineSchedule n id (wrap64 (mins * 60))) <$> IntervalMinutes) (
      if_updated ((λ enabled n _, UpdateRoutineEnabled n id enabled) <$> Enabled) (
      r ← get_task id;
      match r with
      | Err e => mret (RoutineStoreError e 500)
      | Ok t =>
        event_as sch actor id EventTypeSystem (json_map (list_to_map
          [("kind", JStr "routine:schedule_updated"); ("interval_seconds", JInt (RoutineIntervalSeconds t)); ("enabled", JBool (RoutineEnabled t))])) ;;
        mret (RoutineJSON 200 (toRoutineResponse reg t))
      end))).

(** Without a scheduler the fire is started here. *)
Definition TriggerRoutine (actor : Actor) (id : uuid) : R RoutineAnswer :=
  a ← lift (find_routine id (λ _,
        event_as sch actor id EventTypeSystem (payload [("kind", "routine:triggered")]) ;;
        mret Queued));
  match a with
  | Queued =>
    (if negb booted then launch_fire id
     else
       known ← Trigger id;
       if (known : bool) then does (ReArm id) else mret tt) ;;
    mret Queued
  | a => mret a
  end.
End routines.
