(* ===== verification/RoutinesSpec.v ===== *)
(** * Routine cards and the scheduler agree

    A reconciliation leaves in the scheduler exactly the active cards with their
    schedules, whatever its timers do meanwhile; once they agree it writes nothing
    more.  A fire spawns one running instance of an active card and none of a card
    that was stopped, archived or deleted. *)

From S2P Require Import Prelude StateMachine GoStrings GoText PkgUtil TaskModel Backend Store StoreUpdate StoreWf StoreSpec StoreQuery RoutineEngine RoutineSpec Flow World WorldRules Execute ExecuteSpec BatchSpec Routines.
From Stdlib Require Import String.
From stdpp Require Import list gmap.
Local Open Scope Z_scope.

(** ** The scheduler *)

Section plans.
Context `{UUIDLib}.
Implicit Types (r : Running) (id : uuid).

(** The schedules of the routines. *)
Definition plan r : gmap uuid RoutineEngine.Schedule := schedule <$> entries (engine r).

Definition no_client (a : action) : Prop :=
  match a with DoRegister _ _ | DoUnregister _ => False | _ => True end.

Lemma plan_put id ent e c : entries e !! id = Some ent → schedule c = schedule ent → schedule <$> entries (put id c e) = schedule <$> entries e.
Proof. intros He Hc. simpl. rewrite fmap_insert, Hc. apply insert_id. by rewrite lookup_fmap, He. Qed.

Lemma entries_Stop t e : entries (Stop t e) = entries e.
Proof. by destruct t. Qed.

Lemma plan_arm id s now e : schedule <$> entries (armLocked id s now e) = <[id := s]> (schedule <$> entries e).
Proof. unfold armLocked. destruct (Z.eqb _ _); simpl; by rewrite entries_Stop, fmap_insert. Qed.

Lemma plan_act a r r' : no_client a → act a r = Some r' → plan r' = plan r.
Proof.
  unfold plan. destruct a as [d|t|id|id|id s|id|id]; simpl; try done; intros _ E.
  - destruct (Z.leb 0 d); by simplify_eq.
  - destruct (timers _ !! t) as [[due i]|]; [|done]. destruct (Z.leb due _); by simplify_eq.
  - destruct (remove_one _ _); simplify_eq. unfold fire_take. simpl. destruct (entries (engine r) !! id) as [ent|] eqn:He; [|done].
    by apply (plan_put id ent).
  - destruct (remove_one _ _); simplify_eq. simpl. unfold reArmAfterFire. destruct (entries (engine r) !! id) as [ent|] eqn:He; [|done].
    destruct (timer ent); [done|]. rewrite plan_arm. apply insert_id. by rewrite lookup_fmap, He.
  - simplify_eq. unfold trigger_take. destruct (entries (engine r) !! id) as [ent|] eqn:He; [|done]. destruct (timer ent); [|done].
    simpl. by apply (plan_put id ent (engine r) (MkEntry _ _ _)).
Qed.

Lemma plan_acts l r r' : Forall no_client l → acts l r = Some r' → plan r' = plan r.
Proof.
  intros Hl. revert r. induction Hl as [|a l Ha Hl IH]; intros r E; [by simplify_eq/=|]. cbn [acts] in E. apply bind_Some in E as (r1 & E1 & E2).
  rewrite (IH _ E2). by eapply plan_act.
Qed.

Lemma plan_register id s r : plan (with_engine (Register id (Some s) (time r)) r) = <[id := s]> (plan r).
Proof.
  unfold plan, with_engine, Register. simpl. destruct (entries (engine r) !! id) as [ent|] eqn:He; [|apply plan_arm].
  destruct (decide (schedule ent = s)) as [E|_]; [|apply plan_arm]. symmetry. apply insert_id. by rewrite lookup_fmap, He, <-E.
Qed.

Lemma plan_unregister id r : plan (with_engine (Unregister id) r) = delete id (plan r).
Proof.
  unfold plan, with_engine, Unregister. simpl. destruct (entries (engine r) !! id) as [ent|] eqn:He; simpl.
  - by rewrite entries_Stop, fmap_delete.
  - symmetry. apply delete_id. by rewrite lookup_fmap, He.
Qed.

(** A registration that changes nothing. *)
Lemma register_same id s r : plan r !! id = Some s → with_engine (Register id (Some s) (time r)) r = r.
Proof.
  unfold plan. rewrite lookup_fmap, fmap_Some. intros (ent & He & ->). unfold with_engine, Register. simpl. rewrite He, decide_True by done. by destruct r.
Qed.
End plans.

(** ** Reconciliation *)

Section reconcile.
Context `{UUIDLib} {B : Type} `{!StorageBackend B} (tbl : Z → Z) (sch : World.Schedule B) (between : nat → list action).
Implicit Types (x : System (B:=B)) (t : Task) (ts : list Task).

(** A card that the scheduler should know. *)
Definition listed t : bool := IsRoutine t && negb (isRoutineStoppedStatus (Status t)).

Definition targets ts : gmap uuid RoutineEngine.Schedule := list_to_map ((λ t, (ID t, scheduleForTask t)) <$> filter (λ t, listed t = true) ts).

Hypothesis clients : ∀ n, Forall no_client (between n).

Lemma elapse_plan x : plan (running (elapse between x)) = plan (running x).
Proof. unfold elapse. simpl. destruct (acts _ _) as [r|] eqn:E; [|done]. simpl. by eapply plan_acts. Qed.

Lemma does_register id s x : plan (running (does between (DoRegister id (Some s)) x).2) = <[id := s]> (plan (running x)).
Proof. unfold does. cbn [snd running act default]. unfold Datatypes.id. by rewrite plan_register, elapse_plan. Qed.

Lemma does_unregister id x : plan (running (does between (DoUnregister id) x).2) = delete id (plan (running x)).
Proof. unfold does. cbn [snd running act default]. unfold Datatypes.id. by rewrite plan_unregister, elapse_plan. Qed.

Lemma targets_cons t ts : targets (t :: ts) = if listed t then <[ID t := scheduleForTask t]> (targets ts) else targets ts.
Proof. unfold targets. rewrite filter_cons. by destruct (listed t). Qed.

Lemma targets_absent t ts : ID t ∉ ID <$> ts → targets ts !! ID t = None.
Proof.
  intros Ht. apply not_elem_of_list_to_map. intros (p & E & (u & -> & [_ Hu]%list_elem_of_filter)%list_elem_of_fmap)%list_elem_of_fmap.
  apply Ht. simpl in E. rewrite E. by apply list_elem_of_fmap_2.
Qed.

Lemma targets_lookup ts id sc : NoDup (ID <$> ts) → targets ts !! id = Some sc ↔ ∃ t, t ∈ ts ∧ ID t = id ∧ listed t = true ∧ sc = scheduleForTask t.
Proof.
  intros Hnd. unfold targets. rewrite <-elem_of_list_to_map.
  - rewrite list_elem_of_fmap. setoid_rewrite list_elem_of_filter. split; [intros (t & [= -> ->] & [? ?]); eauto|intros (t & ? & <- & ? & ->); eauto].
  - rewrite <-list_fmap_compose. eapply sublist_NoDup; [exact Hnd|]. apply (fmap_sublist ID), sublist_filter.
Qed.

Lemma register_plan ts seen x : NoDup (ID <$> ts) →
  let '(seen', x') := register_routines between ts seen x in
  plan (running x') = targets ts ∪ plan (running x) ∧ seen' = dom (targets ts) ∪ seen ∧ world x' = world x.
Proof.
  revert seen x. induction ts as [|t ts IH]; intros seen x Hnd.
  { cbn. unfold targets. cbn. rewrite dom_empty_L, !(left_id_L ∅ (∪)). done. }
  rewrite fmap_cons in Hnd. apply NoDup_cons in Hnd as [Ht Hnd]. rewrite targets_cons. unfold listed. cbn [register_routines].
  destruct (IsRoutine t); cbn [negb andb]; [|by apply IH]. destruct (isRoutineStoppedStatus (Status t)); cbn [negb]; [by apply IH|].
  unfold mbind, R_bind. destruct (does between _ x) as [[] x1] eqn:E. specialize (IH ({[ID t]} ∪ seen) x1 Hnd).
  destruct (register_routines between ts ({[ID t]} ∪ seen) x1) as [seen' x']. destruct IH as (H1 & -> & ->).
  pose proof (does_register (ID t) (scheduleForTask t) x) as Hp. rewrite E in Hp. cbn [snd] in Hp. split; [|split].
  - rewrite H1, Hp, <-insert_union_r by (by apply targets_absent). by rewrite insert_union_l.
  - by rewrite dom_insert_L, (assoc_L (∪) (dom _)), (comm_L (∪) (dom _) {[_]}).
  - unfold does in E. by simplify_eq/=.
Qed.

Lemma drop_plan ids seen x :
  let '(_, x') := drop_routines between ids seen x in
  plan (running x') = filter (λ p, p.1 ∈ seen ∨ p.1 ∉ ids) (plan (running x)) ∧ world x' = world x.
Proof.
  revert x. induction ids as [|id ids IH]; intros x; cbn [drop_routines].
  { split; [|done]. symmetry. apply map_filter_id. intros i s _. right. apply not_elem_of_nil. }
  unfold mbind, R_bind. case_decide as Hd.
  - cbn. specialize (IH x). destruct (drop_routines between ids seen x) as [u x']. destruct IH as [-> ->]. split; [|done].
    apply map_filter_ext. intros i s _. simpl. rewrite not_elem_of_cons. destruct (decide (i = id)) as [->|]; tauto.
  - destruct (does between _ x) as [[] x1] eqn:E. specialize (IH x1). destruct (drop_routines between ids seen x1) as [u x']. destruct IH as [-> ->].
    pose proof (does_unregister id x) as Hp. rewrite E in Hp. cbn [snd] in Hp. split; [|unfold does in E; by simplify_eq/=].
    rewrite Hp. apply map_eq. intros i. rewrite !map_lookup_filter. destruct (decide (i = id)) as [->|Hi].
    + rewrite lookup_delete_eq. simpl. destruct (plan (running x) !! id); [|done]. simpl. rewrite option_guard_False; [done|]. rewrite not_elem_of_cons. tauto.
    + rewrite lookup_delete_ne by done. destruct (plan (running x) !! i); [|done]. simpl. apply option_guard_iff. rewrite not_elem_of_cons. tauto.
Qed.

Lemma persist_world ts runs w : running (lift (persist_next_runs sch ts runs) w).2 = running w.
Proof. unfold lift. by destruct (persist_next_runs sch ts runs (world w)). Qed.

(** The schedules of the scheduler after a reconciliation. *)
Lemma reconcile_plan range_runs x : (∀ m, range_runs m ≡ₚ (map_to_list m).*1) →
  let ts := (read_range sch (λ order, ListTasks order false) (world x)).1 in
  NoDup (ID <$> ts) → plan (running (reconcileRoutines sch true true between range_runs x).2) = targets ts.
Proof.
  intros Hr ts Hnd. unfold reconcileRoutines. cbn [negb]. unfold mbind, R_bind. destruct (lift _ x) as [ts' x1] eqn:E1.
  assert (ts' = ts ∧ running x1 = running x) as [-> R1].
  { unfold lift in E1. unfold ts. destruct (read_range _ _ _) as [a w]. by simplify_eq/=. }
  pose proof (register_plan ts ∅ x1 Hnd) as Hp. destruct (register_routines between ts ∅ x1) as [seen x2]. destruct Hp as (P2 & -> & _).
  destruct (look between NextRuns x2) as [runs x3] eqn:E3.
  assert (plan (running x3) = plan (running x2) ∧ dom runs = dom (plan (running x3))) as [P3 D3].
  { unfold look in E3. simplify_eq. split; [apply elapse_plan|]. unfold NextRuns, plan. by rewrite !dom_fmap_L. }
  pose proof (drop_plan (range_runs runs) (dom (targets ts) ∪ ∅) x3) as Hd. destruct (drop_routines between _ _ x3) as [u x4]. destruct Hd as [P4 _].
  rewrite persist_world, P4, P3, P2, (right_id_L ∅ (∪)). apply map_eq. intros i. rewrite map_lookup_filter.
  destruct (targets ts !! i) as [s|] eqn:Et.
  - rewrite (lookup_union_Some_l _ _ _ _ Et). simpl. rewrite option_guard_True; [done|]. left. by apply elem_of_dom.
  - rewrite lookup_union_r by done. destruct (plan (running x1) !! i) as [s|] eqn:Ei; [|done]. simpl. rewrite option_guard_False; [done|].
    intros [Hi|Hi]; [by apply elem_of_dom in Hi as [? ?]; congruence|]. apply Hi. rewrite Hr. apply list_elem_of_fmap.
    assert (i ∈ dom runs) as [z Hz]%elem_of_dom by (rewrite D3, P3, P2; apply elem_of_dom; exists s; by rewrite lookup_union_r).
    exists (i, z). split; [done|]. by apply elem_of_map_to_list.
Qed.

(** What the scheduler went through. *)
Definition reaches x x' : Prop := ∃ l, acts l (running x) = Some (running x').

Lemma acts_app l1 l2 (r : Running) : acts (l1 ++ l2) r = acts l1 r ≫= acts l2.
Proof. revert r. induction l1 as [|a l1 IH]; intros r; [done|]. simpl. destruct (act a r); [apply IH|done]. Qed.

#[local] Instance reaches_preorder : PreOrder reaches.
Proof.
  split; [intros x; by exists []|]. intros x y z [l1 E1] [l2 E2]. exists (l1 ++ l2)%list. by rewrite acts_app, E1.
Qed.

Lemma elapse_reaches x : reaches x (elapse between x).
Proof. unfold reaches, elapse. simpl. destruct (acts (between (turn x)) (running x)) eqn:E; [eauto|by exists []]. Qed.

Lemma does_reaches a x : reaches x (does between a x).2.
Proof.
  etrans; [apply elapse_reaches|]. unfold does, reaches. simpl. destruct (act a _) eqn:E; [exists [a]; simpl; by rewrite E|by exists []].
Qed.

Lemma register_reaches ts seen x : reaches x (register_routines between ts seen x).2.
Proof.
  revert seen x. induction ts as [|t ts IH]; intros seen x; [done|]. cbn [register_routines]. destruct (negb _); [apply IH|]. destruct (isRoutineStoppedStatus _); [apply IH|].
  unfold mbind, R_bind. pose proof (does_reaches (DoRegister (ID t) (Some (scheduleForTask t))) x) as Hd. destruct (does between _ x) as [[] x1]. etrans; [exact Hd|apply IH].
Qed.

Lemma drop_reaches ids seen x : reaches x (drop_routines between ids seen x).2.
Proof.
  revert x. induction ids as [|id ids IH]; intros x; [done|]. cbn [drop_routines]. unfold mbind, R_bind. case_decide; [apply IH|].
  pose proof (does_reaches (DoUnregister id) x) as Hd. destruct (does between _ x) as [[] x1]. etrans; [exact Hd|apply IH].
Qed.

Lemma reconcile_reaches range_runs x : reaches x (reconcileRoutines sch true true between range_runs x).2.
Proof.
  unfold reconcileRoutines. cbn [negb]. unfold mbind, R_bind. destruct (lift _ x) as [ts x1] eqn:E1.
  assert (running x1 = running x) as R1 by (unfold lift in E1; destruct (read_range _ _ _); by simplify_eq/=).
  assert (reaches x x1) as H1 by (exists []; by rewrite R1). etrans; [exact H1|]. pose proof (register_reaches ts ∅ x1) as H2. destruct (register_routines between ts ∅ x1) as [seen x2].
  etrans; [exact H2|]. destruct (look between NextRuns x2) as [runs x3] eqn:E3. assert (x3 = elapse between x2) as -> by (unfold look in E3; by simplify_eq).
  etrans; [apply elapse_reaches|]. pose proof (drop_reaches (range_runs runs) seen (elapse between x2)) as H4. destruct (drop_routines between _ _ _) as [u x4].
  etrans; [exact H4|]. exists []. by rewrite persist_world.
Qed.
End reconcile.

(** The schedule of a card that is not stopped. *)
Definition card_schedule `{UUIDLib} (t : Task) : RoutineEngine.Schedule :=
  if RoutineEnabled t && (0 <? RoutineIntervalSeconds t) then FixedInterval (wrap64 (RoutineIntervalSeconds t * 10 ^ 9)) else disabled.

Lemma listed_schedule `{UUIDLib} t : listed t = true → scheduleForTask t = card_schedule t.
Proof.
  unfold listed, scheduleForTask, card_schedule. intros [_ ->%negb_true_iff]%andb_true_iff. destruct (RoutineEnabled t); [|done]. cbn.
  by destruct (Z.leb_spec (RoutineIntervalSeconds t) 0), (Z.ltb_spec 0 (RoutineIntervalSeconds t)); try lia.
Qed.

(** C10: A reconciliation makes the scheduler agree with the cards.  Whatever timers
    expire, fires start and triggers arrive meanwhile, as long as no other goroutine
    registers or removes a routine: afterwards the scheduler knows exactly the
    routines of the board, as it was listed, that are neither stopped nor archived,
    each with the schedule of its card: its interval in nanoseconds, wrapped around
    at 64 bits, or, for a card that is switched off or has no positive interval, the
    schedule that never fires. *)
Theorem reconcile_schedules `{UUIDLib} {B : Type} `{!StorageBackend B} tbl (sch : World.Schedule B) between range_runs (x : System) :
  (∀ n, Forall no_client (between n)) → (∀ m, range_runs m ≡ₚ (map_to_list m).*1) →
  let s := w_store (arrive sch (world x)) in
  let order := ranges sch (w_tick (world x)) (tasks s) in
  store_wf tbl s → NoDup order → (∀ id, is_Some (tasks s !! id) → id ∈ order) →
  ∀ id, plan (running (reconcileRoutines sch true true between range_runs x).2) !! id =
    match tasks s !! id with
    | Some t => if listed t && negb (Archived t) then Some (card_schedule t) else None
    | None => None
    end.
Proof.
  intros Hc Hr s order Hwf Hnd Hcov id. destruct (sorted_selection tbl cmpTaskPositionCreatedAt (visible false) s order Hwf Hnd) as (_ & Hnd' & Hin).
  rewrite (reconcile_plan sch between Hc range_runs x Hr) by done. apply option_eq. intros sc. rewrite targets_lookup by done. split.
  - intros (t & (Ht & _ & Hv)%Hin & <- & Hli & ->). rewrite Ht, Hli, listed_schedule by done. by destruct Hv as [?| ->].
  - destruct (tasks s !! id) as [t|] eqn:Et; [|done]. destruct (listed t && negb (Archived t)) eqn:Eb; [|done]. intros [= <-].
    apply andb_true_iff in Eb as [E1 E2%negb_true_iff]. pose proof (wf_ids _ _ Hwf _ _ Et) as Hid. exists t. rewrite listed_schedule by done.
    split; [|done]. apply Hin. rewrite Hid. split; [done|]. split; [apply Hcov; eauto|by right].
Qed.

(** After it, every routine with an interval fires within that interval by steps the
    scheduler takes by itself. *)
Lemma reconcile_fires `{UUIDLib} {B : Type} `{!StorageBackend B} (sch : World.Schedule B) between range_runs now l (x : System) id D :
  0 <= now → acts l (started now) = Some (running x) →
  let r := running (reconcileRoutines sch true true between range_runs x).2 in
  plan r !! id = Some (FixedInterval D) → 0 < D →
  ∃ l' r' n, Forall internal l' ∧ acts l' r = Some r' ∧ fired r' = (fired r ++ [(n, id)])%list ∧ time r <= n <= time r + D.
Proof.
  intros Hn Hl r Hpl HD. destruct (reconcile_reaches sch between range_runs x) as [l1 E1]. unfold plan in Hpl. rewrite lookup_fmap in Hpl.
  apply fmap_Some in Hpl as (ent & He & Hs). eapply enabled_fires; [|exact He|by rewrite Hs|done].
  apply (acts_inv (l ++ l1) (started now)); [|by apply started_inv]. by rewrite acts_app, Hl.
Qed.

(** ** The feedback of a reconciliation *)

(** On a routine card, an update of routines is an update. *)
Lemma routine_update `{UUIDLib} {B : Type} `{!StorageBackend B} n id f (s : Store B) t : tasks s !! id = Some t → IsRoutine t = true →
  mutateTask n id (routine_fn id f) s = mutateTask n id (pure_fn f) s.
Proof. intros Ht Hr. unfold mutateTask, routine_fn, pure_fn, mbind, M_bind, bind, find_task. by rewrite Ht, Hr. Qed.

Section settle.
Context `{UUIDLib} {B : Type} `{!StorageBackend B} (tbl : Z → Z) (sch : World.Schedule B).
Hypothesis alone : solo sch.
Implicit Types (x : System (B:=B)) (t : Task) (ts : list Task) (s : Store B) (w : World B).

(** What of a card the scheduler depends on. *)
Definition card t := (ID t, Kind t, Status t, Archived t, RoutineEnabled t, RoutineIntervalSeconds t).

Lemma card_facts t t' : card t' = card t →
  ID t' = ID t ∧ IsRoutine t' = IsRoutine t ∧ Archived t' = Archived t ∧ listed t' = listed t ∧ scheduleForTask t' = scheduleForTask t.
Proof.
  unfold card. intros E. simplify_eq. unfold listed, scheduleForTask, IsRoutine. by repeat match goal with E : _ t' = _ t |- _ => rewrite E; clear E end.
Qed.

Lemma desired_nonzero runs id : nonzero_time (desired runs id) = desired runs id.
Proof. unfold desired. destruct (Z.eqb_spec (default 0 (runs !! id)) 0); [done|]. simpl. by destruct (default 0 (runs !! id)). Qed.

Lemma routineNextRunEqual_refl a : routineNextRunEqual a a = true.
Proof. destruct a as [a|]; [|done]. unfold routineNextRunEqual, time_Sub. rewrite Z.sub_diag. done. Qed.

Lemma next_run_mem n id d s t : tasks s !! id = Some t → IsRoutine t = true →
  tasks (UpdateRoutineNextRun n id d s).2 = <[id := updated n (λ t, t <| RoutineNextRun := nonzero_time d |>) t]> (tasks s).
Proof. intros Ht Hr. unfold UpdateRoutineNextRun. rewrite (routine_update _ _ _ _ _ Ht Hr). by apply mutate_mem. Qed.

(** One card. *)
Definition persist_one runs t : W (B:=B) unit :=
  if negb (IsRoutine t) then mret tt
  else if routineNextRunEqual (RoutineNextRun t) (desired runs (ID t)) then mret tt
  else quiet sch (λ n _, UpdateRoutineNextRun n (ID t) (desired runs (ID t))).

Lemma persist_one_spec runs t w : store_wf tbl (w_store w) → tasks (w_store w) !! ID t = Some t →
  let s := w_store w in let s' := w_store (persist_one runs t w).2 in
  store_wf tbl s' ∧ (∀ id, id ≠ ID t → tasks s' !! id = tasks s !! id) ∧
  ∃ t', tasks s' !! ID t = Some t' ∧ card t' = card t ∧ (IsRoutine t = true → routineNextRunEqual (RoutineNextRun t') (desired runs (ID t)) = true).
Proof.
  intros Hwf Ht. unfold persist_one. destruct (IsRoutine t) eqn:Er; cbn [negb]; [|split; [done|]; split; [done|]; by exists t].
  destruct (routineNextRunEqual _ _) eqn:Ee; [split; [done|]; split; [done|]; by exists t|].
  unfold quiet. rewrite bind_run. destruct (op_solo sch alone (λ n _, UpdateRoutineNextRun n (ID t) (desired runs (ID t))) w) as (n & n2 & _ & E & _).
  cbn. rewrite E, (next_run_mem _ _ _ _ _ Ht Er), desired_nonzero. split; [by apply (store_wf_step tbl _ (UpdateRoutineNextRun n (ID t) (desired runs (ID t)))); [constructor|]|].
  split; [intros id Hne; by apply lookup_insert_ne|]. eexists. split; [apply lookup_insert_eq|]. split; [done|]. intros _. apply routineNextRunEqual_refl.
Qed.

Lemma persist_runs_spec runs ts w : store_wf tbl (w_store w) → NoDup (ID <$> ts) → (∀ t, t ∈ ts → tasks (w_store w) !! ID t = Some t) →
  let s := w_store w in let s' := w_store (persist_next_runs sch ts runs w).2 in
  store_wf tbl s' ∧ (∀ id, id ∉ ID <$> ts → tasks s' !! id = tasks s !! id) ∧
  ∀ t, t ∈ ts → ∃ t', tasks s' !! ID t = Some t' ∧ card t' = card t ∧ (IsRoutine t = true → routineNextRunEqual (RoutineNextRun t') (desired runs (ID t)) = true).
Proof.
  revert w. induction ts as [|t ts IH]; intros w Hwf Hnd Hts; [split; [done|]; split; [done|]; by intros t ?%not_elem_of_nil|].
  rewrite fmap_cons in Hnd. apply NoDup_cons in Hnd as [Ht Hnd].
  destruct (persist_one_spec runs t w Hwf) as (Hwf1 & Ho1 & t1 & Ht1 & Hc1 & He1); [apply Hts; by left|].
  change (persist_next_runs sch (t :: ts) runs w) with ((persist_one runs t ≫= λ _, persist_next_runs sch ts runs) w). rewrite bind_run.
  destruct (IH (persist_one runs t w).2 Hwf1 Hnd) as (Hwf2 & Ho2 & Hin2).
  { intros u Hu. rewrite Ho1; [apply Hts; by right|]. intros E. apply Ht. rewrite <-E. by apply list_elem_of_fmap_2. }
  split; [done|]. split.
  - intros id [Hi1 Hi2]%not_elem_of_cons. by rewrite Ho2, Ho1.
  - intros u [->|Hu]%elem_of_cons; [|by apply Hin2]. exists t1. by rewrite Ho2.
Qed.

Context (between : nat → list action) (range_runs : gmap uuid Z → list uuid).
Hypothesis still : ∀ n, between n = [].
Hypothesis runs_ranged : ∀ m, range_runs m ≡ₚ (map_to_list m).*1.
Hypothesis tasks_ranged : ∀ n m, NoDup (ranges sch n m) ∧ ∀ id, is_Some (m !! id) → id ∈ ranges sch n m.
Abbreviation reconcile x := ((reconcileRoutines sch true true between range_runs x).2).

(** The cards that a reconciliation reads. *)
Definition board x : list Task := ListTasks (ranges sch (w_tick (world x)) (tasks (w_store (world x)))) false (w_store (world x)).

(** The scheduler knows the cards; the cards show its next runs. *)
Definition agreed x : Prop := plan (running x) = targets (board x).
Definition shown x : Prop := ∀ t, t ∈ board x → IsRoutine t = true →
  routineNextRunEqual (RoutineNextRun t) (desired (NextRuns (engine (running x))) (ID t)) = true.

Lemma board_spec x : store_wf tbl (w_store (world x)) →
  NoDup (ID <$> board x) ∧ ∀ t, t ∈ board x ↔ tasks (w_store (world x)) !! ID t = Some t ∧ Archived t = false.
Proof.
  intros Hwf. destruct (tasks_ranged (w_tick (world x)) (tasks (w_store (world x)))) as [Hnd Hcov].
  destruct (sorted_selection tbl cmpTaskPositionCreatedAt (visible false) _ _ Hwf Hnd) as (_ & H1 & H2). split; [exact H1|].
  intros t. unfold board, ListTasks. rewrite H2. split; [by intros (? & _ & [?|?])|]. intros [Ht Ha]. split; [done|]. split; [apply Hcov; eauto|by right].
Qed.

Lemma elapse_still x : elapse between x = MkSystem (world x) (running x) (S (turn x)).
Proof. unfold elapse. rewrite still. done. Qed.

Lemma register_agreed ts seen x : (∀ t, t ∈ ts → listed t = true → plan (running x) !! ID t = Some (scheduleForTask t)) →
  let '(_, x') := register_routines between ts seen x in running x' = running x ∧ world x' = world x.
Proof.
  revert seen x. induction ts as [|t ts IH]; intros seen x Hts; [done|]. cbn [register_routines].
  assert (∀ u, u ∈ ts → listed u = true → plan (running x) !! ID u = Some (scheduleForTask u)) as Hts' by (intros u Hu; apply Hts; by right).
  specialize (Hts t ltac:(by left)). unfold listed in Hts. destruct (IsRoutine t); cbn [negb andb] in *; [|by apply IH].
  destruct (isRoutineStoppedStatus (Status t)); cbn [negb] in *; [by apply IH|]. unfold mbind, R_bind.
  destruct (does between _ x) as [[] x1] eqn:E. unfold does in E. rewrite elapse_still in E. cbn [running act default] in E. unfold Datatypes.id in E.
  rewrite register_same in E by (by apply Hts). simplify_eq/=. specialize (IH ({[ID t]} ∪ seen) (MkSystem (world x) (running x) (S (turn x))) Hts').
  by destruct (register_routines _ _ _ _).
Qed.

Lemma drop_agreed ids seen x : (∀ id, id ∈ ids → id ∈ seen) → (drop_routines between ids seen x).2 = x.
Proof.
  induction ids as [|id ids IH]; intros Hs; [done|]. cbn [drop_routines]. unfold mbind, R_bind. rewrite decide_True by (apply Hs; by left).
  cbn. apply IH. intros i Hi. apply Hs. by right.
Qed.

(** A reconciliation when the scheduler knows the cards. *)
Lemma reconcile_agreed x : store_wf tbl (w_store (world x)) → agreed x →
  running (reconcile x) = running x ∧
  world (reconcile x) = (persist_next_runs sch (board x) (NextRuns (engine (running x))) (arrive sch (world x))).2.
Proof.
  intros Hwf Hag. destruct (board_spec x Hwf) as [Hnd Hin]. destruct (reconcileRoutines _ _ _ _ _ x) as [u0 x'] eqn:E. cbn [snd].
  revert E. unfold reconcileRoutines. cbn [negb]. unfold mbind, R_bind. unfold lift at 1, read_range, read at 1. cbn [w_store]. rewrite (proj1 (arrive_solo sch (λ _, true) alone (world x))). fold (board x).
  set (x1 := MkSystem (arrive sch (world x)) (running x) (turn x)). pose proof (register_agreed (board x) ∅ x1) as Hr.
  pose proof (register_plan between ltac:(intros n; rewrite still; constructor) (board x) ∅ x1 Hnd) as Hp.
  destruct (register_routines between (board x) ∅ x1) as [seen x2]. destruct Hr as [R2 W2].
  { intros t Ht Hl. simpl. rewrite Hag. apply targets_lookup; [done|]. eauto. }
  destruct Hp as (_ & -> & _). unfold look. rewrite elapse_still. cbn [running]. rewrite R2. set (runs := NextRuns (engine (running x1))).
  set (x3 := MkSystem (world x2) (running x1) (S (turn x2))). pose proof (drop_agreed (range_runs runs) (dom (targets (board x)) ∪ ∅) x3) as Hd.
  destruct (drop_routines between _ _ x3) as [u x4]. cbn [snd] in Hd. rewrite Hd.
  - unfold lift, x3. cbn [world]. rewrite W2. destruct (persist_next_runs _ _ _ _). by intros [= <- <-].
  - intros id. rewrite runs_ranged, list_elem_of_fmap. intros ([i z] & -> & Hz%elem_of_map_to_list). apply elem_of_union_l. rewrite <-Hag.
    unfold plan. rewrite dom_fmap_L. apply elem_of_dom. unfold runs, NextRuns in Hz. rewrite lookup_fmap in Hz. apply fmap_Some in Hz as (e & He & _). eauto.
Qed.

Lemma persist_shown runs ts w : (∀ t, t ∈ ts → IsRoutine t = true → routineNextRunEqual (RoutineNextRun t) (desired runs (ID t)) = true) →
  (persist_next_runs sch ts runs w).2 = w.
Proof.
  induction ts as [|t ts IH]; intros Hts; [done|]. cbn [persist_next_runs]. rewrite bind_run.
  specialize (Hts t) as Ht. destruct (IsRoutine t); cbn [negb]; [rewrite (Ht ltac:(by left) eq_refl)|]; apply IH; intros u Hu; apply Hts; by right.
Qed.

Lemma settle x : store_wf tbl (w_store (world x)) → agreed x →
  store_wf tbl (w_store (world (reconcile x))) ∧ agreed (reconcile x) ∧ shown (reconcile x).
Proof.
  intros Hwf Hag. destruct (reconcile_agreed x Hwf Hag) as [R W]. destruct (board_spec x Hwf) as [Hnd Hin].
  assert (w_store (arrive sch (world x)) = w_store (world x)) as Ea by apply (arrive_solo sch (λ _, true) alone).
  destruct (persist_runs_spec (NextRuns (engine (running x))) (board x) (arrive sch (world x))) as (Hwf' & Ho & Hn); [by rewrite Ea|done|intros t Ht; rewrite Ea; by apply Hin|].
  rewrite <-W, ?Ea in *. split; [done|]. destruct (board_spec _ Hwf') as [Hnd' Hin'].
  assert (∀ t', t' ∈ board (reconcile x) → ∃ t, t ∈ board x ∧ card t' = card t ∧ (IsRoutine t = true → routineNextRunEqual (RoutineNextRun t') (desired (NextRuns (engine (running x))) (ID t)) = true)) as Hback.
  { intros t' [Ht' Ha]%Hin'. destruct (decide (ID t' ∈ ID <$> board x)) as [(t & E & Ht)%list_elem_of_fmap|Hni].
    - destruct (Hn t Ht) as (t1 & E1 & Hc & He). rewrite <-E, Ht' in E1. injection E1 as <-. exists t. auto.
    - rewrite Ho in Ht' by done. destruct Hni. apply list_elem_of_fmap_2, Hin. done. }
  split.
  - unfold agreed. rewrite R, Hag. apply map_eq. intros id. apply option_eq. intros sc. rewrite !targets_lookup by done. split.
    + intros (t & Ht & <- & Hl & ->). destruct (Hn t Ht) as (t' & Ht' & (E1 & E2 & E3 & E4 & E5)%card_facts & _). exists t'.
      rewrite E1, E4, E5. split; [|done]. apply Hin'. rewrite E1, E3. split; [done|by apply Hin].
    + intros (t' & Ht' & <- & Hl & ->). destruct (Hback t' Ht') as (t & Ht & (E1 & E2 & E3 & E4 & E5)%card_facts & _). exists t. by rewrite <-E1, <-E4, <-E5.
  - intros t' Ht' Hr. rewrite R. destruct (Hback t' Ht') as (t & Ht & (E1 & E2 & _)%card_facts & He). rewrite E1. apply He. by rewrite <-E2.
Qed.
End settle.

(** The feedback of reconciliations ends.  When the scheduler knows the cards
    and nothing else happens, a reconciliation leaves the scheduler as it is and
    stores its next runs; the one that these writes wake changes nothing at all. *)
Theorem reconcile_settles `{UUIDLib} {B : Type} `{!StorageBackend B} tbl (sch : World.Schedule B) between range_runs (x : System) :
  solo sch → (∀ n, between n = []) → (∀ m, range_runs m ≡ₚ (map_to_list m).*1) →
  (∀ n m, NoDup (ranges sch n m) ∧ ∀ id, is_Some (m !! id) → id ∈ ranges sch n m) →
  store_wf tbl (w_store (world x)) → agreed sch x →
  let reconcile x := (reconcileRoutines sch true true between range_runs x).2 in
  running (reconcile x) = running x ∧ shown sch (reconcile x) ∧
  running (reconcile (reconcile x)) = running x ∧ w_store (world (reconcile (reconcile x))) = w_store (world (reconcile x)) ∧
  w_effects (world (reconcile (reconcile x))) = w_effects (world (reconcile x)).
Proof.
  intros Ha Hb Hr Ht Hwf Hag reconcile. destruct (settle tbl sch Ha between range_runs Hb Hr Ht x Hwf Hag) as (Hwf' & Hag' & Hs').
  destruct (reconcile_agreed tbl sch Ha between range_runs Hb Hr Ht x Hwf Hag) as [R1 _].
  destruct (reconcile_agreed tbl sch Ha between range_runs Hb Hr Ht (reconcile x) Hwf' Hag') as [R2 W2]. unfold reconcile in *.
  split; [done|]. split; [done|]. split; [congruence|]. rewrite W2, persist_shown by exact Hs'.
  split; [apply (arrive_solo sch (λ _, true) Ha)|done].
Qed.

(** ** Fires *)

Section fires.
Context `{UUIDLib} {B : Type} `{!StorageBackend B} (tbl : Z → Z) (sch : World.Schedule B) (reg : Registry).
Implicit Types (t : Task) (w : World B).

(** A card that may fire. *)
Definition fires t : bool := listed t && negb (Archived t).

Lemma op_effects {A} (f : Z → Z → M (B:=B) A) w : w_effects (op sch f w).2 = w_effects w.
Proof. unfold op. by destruct (f _ _ _). Qed.

Lemma quiet_effects {A} (f : Z → Z → M (B:=B) A) w : w_effects (quiet sch f w).2 = w_effects w.
Proof. unfold quiet. rewrite bind_run. apply op_effects. Qed.

(** The rest of a fire, after the card was read. *)
Definition spawn fresh id t : W (B:=B) unit :=
  i ← op sch (λ n _, CreateTaskWithOptions tbl [] fresh n (instance_options reg id t));
  match i with
  | Err _ => mret tt
  | Ok inst =>
    e ← op sch (status_to (ID inst) TaskStatusInProgress);
    match e with
    | Err _ => mret tt
    | Ok _ =>
      state_change sch no_actor (ID inst) EmptyString TaskStatusInProgress TriggerSystem ;;
      event sch id EventTypeSystem (payload [("kind", "routine:fired"); ("instance", uuid_String (ID inst))]%string) ;;
      emit (RunBackground (ID inst) (Prompt t) EmptyString false)
    end
  end.

Lemma fire_shape fresh id w :
  (fireRoutine tbl sch reg true fresh id w).2 =
  let unregistered := arrive sch w <| w_effects := (w_effects w ++ [UnregisterRoutine id])%list |> in
  match tasks (w_store (arrive sch w)) !! id with
  | Some t => if fires t then (spawn fresh id t (quiet sch (λ n _, UpdateRoutineLastFiredAt n id (Some (now sch (arrive sch w)).1)) (now sch (arrive sch w)).2).2).2
              else unregistered
  | None => unregistered
  end.
Proof.
  unfold fireRoutine. cbn [negb]. rewrite bind_run. unfold get_task, read, GetTask. cbn [fst snd].
  destruct (tasks (w_store (arrive sch w)) !! id) as [t|]; [|done]. unfold fires, listed.
  destruct (IsRoutine t); cbn [negb andb]; [|done]. destruct (isRoutineStoppedStatus (Status t)); cbn [negb andb orb]; [done|].
  destruct (Archived t); cbn [negb]; [done|]. unfold spawn. rewrite !bind_run. done.
Qed.

(** A new instance. *)
Lemma created_instance fresh id t n p : let inst := build_task tbl [] fresh n (instance_options reg id t) <| Position := p |> in
  ID inst = fresh ∧ Status inst = TaskStatusBacklog ∧ Prompt inst = Prompt t ∧ Tags inst = (Tags t ++ [spawn_tag id])%list ∧
  Kind inst = RoutineSpawnKind t ∧ FlowID inst = ResolveRoutineFlow reg (Some t) ∧ TaskTimeout inst = clampTimeout (TaskTimeout t) ∧
  Archived inst = false.
Proof.
  unfold build_task. cbn [o_ID o_Kind instance_options].
  destruct (decide (RoutineSpawnKind t = TaskKindRoutine)); (split; [cbn; by destruct (decide (uuid_Nil = uuid_Nil))|split_and!; reflexivity]).
Qed.

Lemma spawn_effects fresh id t w : w_effects (spawn fresh id t w).2 = w_effects w ∨
  w_effects (spawn fresh id t w).2 = (w_effects w ++ [RunBackground fresh (Prompt t) EmptyString false])%list.
Proof.
  unfold spawn. rewrite bind_run. set (f := λ n _ : Z, CreateTaskWithOptions tbl [] fresh n (instance_options reg id t)).
  pose proof (op_effects f w) as E1. pose proof (create_cases tbl [] fresh (clock sch (2 * w_tick w)) (instance_options reg id t) (w_store (arrive sch w))) as Hc.
  assert ((op sch f w).1 = (f (clock sch (2 * w_tick w)) (clock sch (2 * w_tick w + 1)) (w_store (arrive sch w))).1) as E by (unfold op; by destruct (f _ _ _)).
  rewrite E. unfold f at 1 3. destruct (CreateTaskWithOptions _ _ _ _ _ _) as [[inst|e] s']; cbn [fst snd]; [|by left].
  destruct Hc as (_ & (p & ->) & _). rewrite (proj1 (created_instance fresh id t _ p)). rewrite bind_run.
  destruct (op sch (status_to fresh TaskStatusInProgress) _).1; [right|left; cbn; by rewrite op_effects]. rewrite !bind_run. cbn.
  unfold event, state_change, event_as. by rewrite !quiet_effects, op_effects, E1.
Qed.

(** What a fire adds to the board. *)
Definition instance_of fresh id t (inst : Task) : Prop :=
  ID inst = fresh ∧ Status inst = TaskStatusInProgress ∧ Prompt inst = Prompt t ∧ Tags inst = (Tags t ++ [spawn_tag id])%list ∧
  Kind inst = RoutineSpawnKind t ∧ FlowID inst = ResolveRoutineFlow reg (Some t) ∧ TaskTimeout inst = clampTimeout (TaskTimeout t) ∧
  Archived inst = false.

Lemma running_instance fresh id t n p n1 n2 :
  instance_of fresh id t (with_status n1 n2 (build_task tbl [] fresh n (instance_options reg id t) <| Position := p |>) TaskStatusInProgress).
Proof.
  destruct (created_instance fresh id t n p) as (H1 & H2 & H3 & H4 & H5 & H6 & H7 & H8). unfold instance_of. rewrite Status_with_status. unfold with_status.
  by repeat case_match.
Qed.

Hypothesis alone : solo sch.

Lemma spawn_spec fresh id t w :
  let w' := (spawn fresh id t w).2 in
  (w_effects w' = (w_effects w ++ [RunBackground fresh (Prompt t) EmptyString false])%list ∧
   ∃ inst, instance_of fresh id t inst ∧ tasks (w_store w') = <[fresh := inst]> (tasks (w_store w))) ∨
  (w_effects w' = w_effects w ∧ ¬ healthy (backend (w_store w))).
Proof.
  unfold spawn. rewrite bind_run. destruct (op_solo sch alone (λ n _, CreateTaskWithOptions tbl [] fresh n (instance_options reg id t)) w) as (n & n' & -> & E2 & E3).
  pose proof (create_cases tbl [] fresh n (instance_options reg id t) (w_store w)) as Hc. destruct (op sch _ w) as [? w1]. cbn [snd] in *.
  destruct (CreateTaskWithOptions _ _ _ _ _ _) as [[inst|e] s1]; cbn [fst snd] in *; [|right; destruct Hc; done]. subst s1.
  destruct Hc as (Ht & (p & ->) & Hh). pose proof (created_instance fresh id t n p) as (I1 & I2 & _). rewrite I1 in *. rewrite bind_run.
  destruct (op_solo sch alone (status_to fresh TaskStatusInProgress) w1) as (n1 & n2 & -> & F2 & F3).
  assert (tasks (w_store w1) !! fresh = Some (build_task tbl [] fresh n (instance_options reg id t) <| Position := p |>)) as Hf by (rewrite Ht; apply lookup_insert_eq).
  pose proof (status_mem n1 n2 _ TaskStatusInProgress _ _ Hf) as Hm. pose proof (status_acked n1 n2 _ TaskStatusInProgress _ _ Hf) as Ha. rewrite I2 in Hm, Ha.
  unfold status_to in *. destruct (op sch _ w1) as [? w2]. cbn [snd] in *. destruct (UpdateTaskStatus _ _ _ _ _) as [[[]|e] s2]; cbn [fst snd] in *.
  - left. rewrite !bind_run. unfold state_change, event. subst s2. change (CanTransitionTo TaskStatusBacklog TaskStatusInProgress) with true in Hm.
    destruct (event_stage sch no_actor alone fresh EventTypeStateChange (NewStateChangeData EmptyString TaskStatusInProgress TriggerSystem []) w2) as (T3 & _ & X3).
    match goal with |- context [event_as sch no_actor id EventTypeSystem ?d ?w3] => destruct (event_stage sch no_actor alone id EventTypeSystem d w3) as (T4 & _ & X4) end.
    unfold emit. cbn. rewrite T4, X4, T3, X3, F3, E3, Hm, Ht, insert_insert_eq. split; [done|]. eexists. split; [apply running_instance|done].
  - right. cbn. rewrite F3. split; [done|]. intros Hb. by destruct (Ha eq_refl (Hh Hb)).
Qed.
End fires.

(** C27: The fire of an active card, when nothing else happens.  It adds one task to
    the board, in progress, with the prompt, the flow, the kind, the tags and the timeout of the
    card and the tag that names the card; it stamps the card, leaves every other
    task alone and starts the new task.  Only a failing backend prevents that, and
    then no task is started. *)
Theorem fireRoutine_spawns `{UUIDLib} {B : Type} `{!StorageBackend B} tbl (sch : World.Schedule B) reg fresh id t (w : World B) :
  solo sch → tasks (w_store w) !! id = Some t → fires t = true →
  let w' := (fireRoutine tbl sch reg true fresh id w).2 in
  (w_effects w' = (w_effects w ++ [RunBackground fresh (Prompt t) EmptyString false])%list ∧
   ∃ inst n m, instance_of reg fresh id t inst ∧
     tasks (w_store w') = <[fresh := inst]> (<[id := updated n (λ t, t <| RoutineLastFiredAt := nonzero_time (Some m) |>) t]> (tasks (w_store w)))) ∨
  (w_effects w' = w_effects w ∧ ¬ healthy (backend (w_store w))).
Proof.
  intros Ha Ht Hf. rewrite fire_shape. assert (w_store (arrive sch w) = w_store w) as Ea by apply (arrive_solo sch (λ _, true) Ha). rewrite Ea, Ht, Hf.
  set (m := (now sch (arrive sch w)).1). set (w1 := (now sch (arrive sch w)).2).
  assert (w_store w1 = w_store w) as E1 by (unfold w1; cbn; rewrite Ha; exact Ea).
  assert (IsRoutine t = true) as Hr by (unfold fires, listed in Hf; by destruct (IsRoutine t)).
  destruct (op_solo sch Ha (λ n _, UpdateRoutineLastFiredAt n id (Some m)) w1) as (n & n' & _ & S2 & X2).
  unfold quiet. rewrite bind_run. unfold mret, W_ret. cbn [snd]. set (w2 := (op sch _ w1).2) in *. rewrite E1 in S2. unfold UpdateRoutineLastFiredAt in S2.
  rewrite (routine_update _ _ _ _ _ Ht Hr) in S2. destruct (spawn_spec tbl sch reg Ha fresh id t w2) as [(H1 & inst & H2 & H3)|[H1 H2]].
  - left. rewrite H1, X2. split; [done|]. exists inst, n, m. split; [done|]. rewrite H3, S2, (proj1 (mutate_mem _ _ _ _ _ Ht)). done.
  - right. rewrite H1, X2. split; [done|]. intros Hb. apply H2. rewrite S2. by apply (mutate_acked n id _ _ t).
Qed.

(** A card that is stopped, archived, deleted or no routine spawns nothing,
    whatever other goroutines do during the fire: then the store is not touched
    and the scheduler is told to forget the card.  A card that may fire starts at
    most one task, with its own prompt. *)
Theorem fireRoutine_guarded `{UUIDLib} {B : Type} `{!StorageBackend B} tbl (sch : World.Schedule B) reg fresh id (w : World B) :
  let w' := (fireRoutine tbl sch reg true fresh id w).2 in
  match tasks (w_store (arrive sch w)) !! id with
  | Some t => if fires t then w_effects w' = w_effects w ∨ w_effects w' = (w_effects w ++ [RunBackground fresh (Prompt t) EmptyString false])%list
              else w' = arrive sch w <| w_effects := (w_effects w ++ [UnregisterRoutine id])%list |>
  | None => w' = arrive sch w <| w_effects := (w_effects w ++ [UnregisterRoutine id])%list |>
  end.
Proof.
  rewrite fire_shape. destruct (tasks _ !! id) as [t|]; [|done]. destruct (fires t); [|done].
  match goal with |- context [spawn tbl sch reg fresh id t ?w1] => pose proof (spawn_effects tbl sch reg fresh id t w1) as He end.
  rewrite quiet_effects in He. exact He.
Qed.

(** ** A new routine *)

Section create.
Context `{UUIDLib} {B : Type} `{!StorageBackend B} (tbl : Z → Z) (high : Z → bool) (sch : World.Schedule B) (reg : Registry).
Implicit Types (req : RoutineRequest).

(** What the request is checked for. *)
Definition acceptable req : Prop :=
  q_Prompt req ≠ EmptyString ∧ 1 <= q_IntervalMinutes req ∧
  (if decide (q_SpawnFlow req = EmptyString) then q_SpawnKind req = TaskKindTask else is_Some (Get reg (q_SpawnFlow req))).

(** The card of a request; its schedule is exact as long as the interval fits. *)
Definition card_of fresh req (t : Task) : Prop :=
  ID t = fresh ∧ IsRoutine t = true ∧ Status t = TaskStatusBacklog ∧ Prompt t = q_Prompt req ∧ Tags t = q_Tags req ∧
  RoutineSpawnKind t = q_SpawnKind req ∧ RoutineSpawnFlow t = q_SpawnFlow req ∧ RoutineEnabled t = default true (q_Enabled req) ∧
  (1 <= q_IntervalMinutes req <= 153722867 →
   scheduleForTask t = if default true (q_Enabled req) then FixedInterval (q_IntervalMinutes req * 60 * second) else disabled).

Lemma schedule_exact m t : RoutineIntervalSeconds t = wrap64 (m * 60) → Status t = TaskStatusBacklog → 1 <= m <= 153722867 →
  scheduleForTask t = if RoutineEnabled t then FixedInterval (m * 60 * second) else disabled.
Proof.
  intros Hi Hs Hm. unfold scheduleForTask. rewrite Hi, Hs, wrap64_id by lia. change (isRoutineStoppedStatus TaskStatusBacklog) with false.
  destruct (RoutineEnabled t); [|done]. cbn [negb orb]. destruct (Z.leb_spec (m * 60) 0); [lia|]. rewrite wrap64_id; [done|]. unfold second. lia.
Qed.

Lemma new_card fresh req n p : card_of fresh req (build_task tbl [] fresh n (routine_options req) <| Position := p |>).
Proof.
  unfold build_task. cbn [o_ID o_Kind routine_options]. rewrite (decide_True (P := TaskKindRoutine = TaskKindRoutine)) by done.
  split; [cbn; by destruct (decide (uuid_Nil = uuid_Nil))|]. split_and!; try reflexivity. intros Hm. by rewrite (schedule_exact (q_IntervalMinutes req)).
Qed.

Hypothesis alone : solo sch.

(** The rest of a request that is acceptable. *)
Definition add_card actor fresh req : W (B:=B) RoutineAnswer :=
  r ← op sch (λ n _, CreateTaskWithOptions tbl [] fresh n (routine_options req));
  match r with
  | Err e => mret (RoutineStoreError e 500)
  | Ok t =>
    event_as sch actor (ID t) EventTypeSystem (json_map (list_to_map
      [("kind", JStr "routine:created"); ("interval_seconds", JInt (RoutineIntervalSeconds t)); ("enabled", JBool (RoutineEnabled t));
       ("spawn_kind", JStr (RoutineSpawnKind t)); ("spawn_flow", JStr (RoutineSpawnFlow t))]%string)) ;;
    mret (RoutineJSON 201 (toRoutineResponse reg t))
  end.

Lemma add_card_spec actor fresh req w :
  let '(a, w') := add_card actor fresh req w in
  (∃ t, a = RoutineJSON 201 (toRoutineResponse reg t) ∧ card_of fresh req t ∧ tasks (w_store w') = <[fresh := t]> (tasks (w_store w))) ∨
  (∃ e, a = RoutineStoreError e 500 ∧ ¬ healthy (backend (w_store w)) ∧ tasks (w_store w') = tasks (w_store w)).
Proof.
  unfold add_card. rewrite bind_run. destruct (op_solo sch alone (λ n _, CreateTaskWithOptions tbl [] fresh n (routine_options req)) w) as (n & n' & -> & E2 & _).
  pose proof (create_cases tbl [] fresh n (routine_options req) (w_store w)) as Hc. destruct (op sch _ w) as [? w1]. cbn [snd] in *.
  destruct (CreateTaskWithOptions _ _ _ _ _ _) as [[t|e] s1]; cbn [fst snd] in *; [|unfold mret, W_ret; right; subst; destruct Hc; by exists e]. subst s1.
  destruct Hc as (Ht & (p & ->) & _). pose proof (new_card fresh req n p) as Hn. rewrite bind_run.
  match goal with |- context [event_as sch actor ?i ?ty ?d w1] => destruct (event_stage sch actor alone i ty d w1) as (T3 & _ & _) end.
  unfold mret, W_ret. left. eexists. split; [done|]. split; [exact Hn|]. rewrite T3, Ht. destruct Hn as [-> _]. done.
Qed.
End create.

(** The request for a new routine, when nothing else happens.  A request that is
    not acceptable is refused and nothing changes; an acceptable one adds one card,
    in the backlog, with the flow, the tags and the schedule it names, which the
    answer shows; only a failing backend prevents that.  The schedule fires every so
    many minutes, if the interval fits into a duration (up to 292 years). *)
Theorem CreateRoutine_spec `{UUIDLib} {B : Type} `{!StorageBackend B} tbl high (sch : World.Schedule B) reg actor fresh req (w : World B) :
  solo sch →
  let '(a, w') := CreateRoutine tbl high sch reg true actor fresh req w in
  match a with
  | RoutineJSON code r => code = 201 ∧ acceptable reg req ∧
      ∃ t, card_of fresh req t ∧ r = toRoutineResponse reg t ∧ tasks (w_store w') = <[fresh := t]> (tasks (w_store w))
  | RoutineError _ _ => ¬ acceptable reg req ∧ w' = w
  | RoutineStoreError _ code => code = 500 ∧ ¬ healthy (backend (w_store w)) ∧ tasks (w_store w') = tasks (w_store w)
  | _ => False
  end.
Proof.
  intros Ha. unfold CreateRoutine. destruct (bool_decide_reflect (q_Prompt req = EmptyString)) as [Hp|Hp]; [split; [|done]; by intros [? _]|].
  unfold minRoutineIntervalMinutes. destruct (Z.ltb_spec (q_IntervalMinutes req) 1); [split; [|done]; intros (_ & ? & _); lia|].
  assert (acceptable reg req → let '(a, w') := add_card tbl sch reg actor fresh req w in
    match a with
    | RoutineJSON code r => code = 201 ∧ acceptable reg req ∧
        ∃ t, card_of fresh req t ∧ r = toRoutineResponse reg t ∧ tasks (w_store w') = <[fresh := t]> (tasks (w_store w))
    | RoutineError _ _ => ¬ acceptable reg req ∧ w' = w
    | RoutineStoreError _ code => code = 500 ∧ ¬ healthy (backend (w_store w)) ∧ tasks (w_store w') = tasks (w_store w)
    | _ => False
    end) as Hadd.
  { intros Hok. pose proof (add_card_spec tbl sch reg Ha actor fresh req w) as Hc. destruct (add_card _ _ _ _ _ _ _) as [a w'].
    destruct Hc as [(t & -> & ? & ?)|(e & -> & ? & ?)]; eauto 10. }
  destruct (bool_decide_reflect (q_SpawnFlow req = EmptyString)) as [Hf|Hf]; cbn [negb andb].
  - unfold allowedRoutineSpawnKinds. destruct (bool_decide_reflect (q_SpawnKind req ∈ [TaskKindTask])) as [Hk|Hk]; cbn [negb].
    + apply Hadd. split; [done|]. split; [lia|]. rewrite decide_True by done. by apply list_elem_of_singleton.
    + split; [|done]. intros (_ & _ & E). rewrite decide_True in E by done. apply Hk. rewrite E. by left.
  - destruct (bool_decide_reflect (Get reg (q_SpawnFlow req) = None)) as [Hg|Hg].
    + split; [|done]. intros (_ & _ & E). rewrite decide_False in E by done. rewrite Hg in E. by destruct E.
    + apply Hadd. split; [done|]. split; [lia|]. rewrite decide_False by done. by apply not_eq_None_Some.
Qed.
