(* ===== verification/RoutinesRun.v ===== *)
(** * Concrete routines

    Witnesses for the theorems of RoutinesSpec, and runs that show what the
    handlers do not keep: a stopped card that goes on showing a next run, an
    interval that overflows to microseconds, and a trigger that is acknowledged
    and starts nothing. *)

From S2P Require Import Prelude StateMachine GoStrings GoText PkgUtil TaskModel Backend Store StoreUpdate StoreWf StoreRestart StoreSpec StoreQuery RoutineEngine RoutineSpec Flow World WorldRules Runner RunnerRun Execute ExecuteSpec Automation AutomationSpec AutomationRun TaskRequests TaskRequestsSpec BatchSpec TaskRequestsRun Routines RoutinesSpec.
From Stdlib Require Import String.
From stdpp Require Import list gmap.
Local Open Scope Z_scope.
Local Open Scope string_scope.

Module RoutinesRun.
#[local] Existing Instance text_uuid.
Import RunnerRun ExecuteRun AutomationRun TaskRequestsRun.

Definition idN : @uuid text_uuid := "N".
Definition minute : Z := 60 * 10 ^ 9.

(** A card that fires every five minutes, one that is done, and a task. *)
Definition active : Task := zero_Task <| ID := idR |> <| Kind := TaskKindRoutine |> <| Status := TaskStatusBacklog |> <| Prompt := "tidy" |>
  <| Tags := ["chore"] |> <| RoutineEnabled := true |> <| RoutineIntervalSeconds := 300 |>.
Definition over : Task := active <| ID := idC |> <| Status := TaskStatusDone |> <| RoutineNextRun := Some (5 * minute) |>.
Definition cards : gmap (@uuid text_uuid) Task := {[idR := active; idC := over; idD := queued idD []]}.

Lemma cards_wf : store_wf id (store_of cards []).
Proof. apply store_of_wf. apply (bool_decide_unpack _). vm_compute. exact I. Qed.

(** The scheduler still has the card that was stopped; its timer is due in five minutes. *)
Definition before : list action := [DoRegister idC (Some (FixedInterval (5 * minute)))].
Definition system (m : gmap (@uuid text_uuid) Task) (l : list action) : System :=
  MkSystem (world_of m []) (default (started 0) (acts l (started 0))) 0.
Definition runs_order (m : gmap (@uuid text_uuid) Z) : list (@uuid text_uuid) := (map_to_list m).*1.
Definition nothing (_ : nat) : list action := [].
Definition reconcile (x : System) : System := (reconcileRoutines alone true true nothing runs_order x).2.

Lemma reconcile_schedules_witness :
  plan (running (reconcileRoutines alone true true nothing runs_order (system cards before)).2) !! idR = Some (FixedInterval (5 * minute)) ∧
  plan (running (reconcileRoutines alone true true nothing runs_order (system cards before)).2) !! idC = None.
Proof.
  assert (∀ n : nat, Forall no_client (nothing n)) as H1 by (intros n; constructor).
  assert (∀ m, runs_order m ≡ₚ (map_to_list m).*1) as H2 by (intros m; reflexivity).
  assert (∀ n m, NoDup (any_order n m)) as H3 by (intros n m; apply any_order_fair).
  assert (∀ n m i, is_Some (m !! i) → i ∈ any_order n m) as H4 by (intros n m i Hi; apply any_order_covers; exact Hi).
  pose proof (reconcile_schedules id alone nothing runs_order (system cards before) H1 H2 cards_wf (H3 _ _) (H4 _ _)) as Hr.
  split; rewrite Hr; vm_compute; reflexivity.
Defined.

(** The first reconciliation has registered the card. *)
Definition registered : System := system cards [DoRegister idR (Some (FixedInterval (5 * minute)))].

Lemma reconcile_settles_witness :
  shown alone (reconcile registered) ∧ w_store (Routines.world (reconcile (reconcile registered))) = w_store (Routines.world (reconcile registered)) ∧
  RoutineNextRun <$> tasks (w_store (Routines.world (reconcile registered))) !! idR = Some (Some (5 * minute)).
Proof.
  destruct (reconcile_settles id alone nothing runs_order registered) as (_ & H2 & _ & H4 & _).
  - by intros b n s.
  - by intros n.
  - intros m. reflexivity.
  - intros n m. split; [apply any_order_fair|]. intros i Hi. apply any_order_covers. exact Hi.
  - apply cards_wf.
  - vm_compute. reflexivity.
  - split; [exact H2|]. split; [exact H4|]. vm_compute. reflexivity.
Defined.

Definition loaded (i : @uuid text_uuid) : Task := default zero_Task (tasks (store_of cards []) !! i).

Lemma fireRoutine_spawns_witness :
  let w' := (fireRoutine id alone NewBuiltinRegistry true idN idR (world_of cards [])).2 in
  fires (loaded idR) = true ∧ w_effects w' = [RunBackground idN "tidy" EmptyString false] ∧
  ((λ t, (Status t, Tags t, FlowID t)) <$> tasks (w_store w') !! idN) = Some (TaskStatusInProgress, ["chore"; "spawned-by:R"], "implement") ∧
  ((∃ inst, instance_of NewBuiltinRegistry idN idR (loaded idR) inst) ∨ ¬ healthy (backend (w_store (world_of cards [])))).
Proof.
  split; [vm_compute; reflexivity|]. split; [vm_compute; reflexivity|]. split; [vm_compute; reflexivity|].
  destruct (fireRoutine_spawns id alone NewBuiltinRegistry idN idR (loaded idR) (world_of cards [])) as [(_ & inst & _ & _ & Hi & _)|[_ Hh]].
  - by intros b n s.
  - vm_compute. reflexivity.
  - vm_compute. reflexivity.
  - left. exists inst. exact Hi.
  - right. exact Hh.
Defined.

Definition wanted (minutes : Z) : RoutineRequest := MkRoutineRequest "tidy" minutes TaskKindTask EmptyString None 30 ["chore"].
Definition create (minutes : Z) := CreateRoutine id (λ _, false) alone NewBuiltinRegistry true no_actor idN (wanted minutes) (world_of cards []).

Lemma CreateRoutine_spec_witness :
  ∃ r, (create 5).1 = RoutineJSON 201 r ∧ (∃ t, card_of idN (wanted 5) t ∧ r = toRoutineResponse NewBuiltinRegistry t) ∧
    scheduleForTask <$> tasks (w_store (create 5).2) !! idN = Some (FixedInterval (5 * minute)).
Proof.
  pose proof (CreateRoutine_spec id (λ _, false) alone NewBuiltinRegistry no_actor idN (wanted 5) (world_of cards []) (λ _ _ _, eq_refl)) as Hc.
  fold (create 5) in Hc. destruct (create 5) as [a w'] eqn:E.
  assert (a = RoutineJSON 201 (toRoutineResponse NewBuiltinRegistry (default zero_Task (tasks (w_store w') !! idN)))) as Ea.
  { change a with (a, w').1. change w' with (a, w').2 at 2. rewrite <-E. vm_compute. reflexivity. }
  rewrite Ea in Hc. destruct Hc as (_ & _ & t & Ht & Hr & _). eexists. split; [exact Ea|]. split; [exists t; split; [exact Ht|exact Hr]|].
  change w' with (a, w').2. rewrite <-E. vm_compute. reflexivity.
Defined.

(** ** What is not kept *)

(** The card that was stopped is dropped from the scheduler but keeps the next
    run: the snapshot that is written back was taken before. *)
Lemma stopped_card_keeps_next_run :
  let x := reconcile (system cards before) in
  plan (running x) !! idC = None ∧ RoutineNextRun <$> tasks (w_store (Routines.world x)) !! idC = Some (Some (5 * minute)).
Proof. vm_compute. split; reflexivity. Qed.

(** An interval that is too long wraps around: the card fires every two microseconds. *)
Lemma long_interval_fires_at_once :
  scheduleForTask <$> tasks (w_store (create 3749353613647811).2) !! idN = Some (FixedInterval 2048).
Proof. vm_compute. reflexivity. Qed.

(** A card that the scheduler does not know: the trigger is queued, nothing fires. *)
Lemma lost_trigger :
  let '(a, x) := TriggerRoutine alone true true nothing no_actor idR (system cards []) in a = Queued ∧ fired (running x) = [].
Proof. vm_compute. split; reflexivity. Qed.
End RoutinesRun.
