(* ===== verification/CommitPipeline.v ===== *)
(** * The commit pipeline and worktrees (internal/runner: commit.go, worktree.go, snapshot.go)

    [commit] stages and commits the changes of a task's worktrees, rebases and
    merges them into the default branch of their repositories, and removes the
    worktrees.  A goroutine of the runner works on the store ([World]) and makes
    calls ([history]); [P] is the monad of both.

    Parameters: [ranged], the order in which each phase ranges over the map of
    worktrees; [ctx_err], whether the task's context has ended after a history;
    the prompts; the answers of the agents and of the conflict resolver; the
    settings of the auto-push; the process id of the server. *)

From S2P Require Import Prelude GoStrings GoText PkgUtil TaskModel Backend Store StoreUpdate StoreQuery World GitExec.
From Stdlib Require Import String Ascii.
From stdpp Require Import list gmap pretty.
Local Open Scope Z_scope.
Local Open Scope string_scope.

(** ** Commit messages *)

Definition fence : string := of_bytes [96; 96; 96].
Definition backtick : ascii := ascii_of_nat 96.

Definition looksLikePreamble (line : string) : bool :=
  let t := TrimSpace line in
  HasSuffix t ":" || Z.ltb 72 (Z.of_nat (length (runes t))).

(** The first line with text and the first fence, by index. *)
Fixpoint find_fence (lines : list string) (i : nat) (first : option nat) : option nat * option nat :=
  match lines with
  | [] => (first, None)
  | line :: rest =>
    let t := TrimSpace line in
    if decide (t = EmptyString) then find_fence rest (S i) first
    else
      let first := match first with Some f => Some f | None => Some i end in
      if HasPrefix t fence then (first, Some i) else find_fence rest (S i) first
  end.

(** The lines up to the closing fence, or all. *)
Fixpoint fenced (lines : list string) : list string :=
  match lines with
  | [] => []
  | line :: rest => if decide (TrimSpace line = fence) then [] else line :: fenced rest
  end.

Definition extractFencedBlock (s : string) : option string :=
  let lines := Split GoText.newline s in
  match find_fence lines 0 None with
  | (Some first, Some fenceIdx) =>
    if negb (bool_decide (fenceIdx = first)) && negb (looksLikePreamble (default EmptyString (lines !! first))) then None
    else Some (strings_Join (fenced (drop (S fenceIdx) lines)) nl)
  | _ => None
  end.

Definition sanitizeCommitMessage (raw : string) : string :=
  let msg := TrimSpace raw in
  let msg := match extractFencedBlock msg with Some block => TrimSpace block | None => msg end in
  let msg := if Contains msg nl then msg else trim_right (is_ascii backtick) (trim_left (is_ascii backtick) msg) in
  TrimSpace msg.

Definition parseCommitMessageResult (IsError : bool) (Result : string) : result string string :=
  if IsError then
    let msg := TrimSpace Result in
    Err (if decide (msg = EmptyString) then "agent returned an error result" else msg)
  else
    let msg := sanitizeCommitMessage Result in
    if decide (msg = EmptyString) then Err "blank result" else Ok msg.

(** ** Errors *)

(** [generation]: the error wraps [ErrCommitMessageGeneration]. *)
Inductive pipe_error := PipeError (generation : bool) (msg : string) | PipePanic.

Definition IsCommitMessageGenerationError (e : pipe_error) : bool :=
  match e with PipeError g _ => g | PipePanic => false end.

Definition newCommitMessageGenerationError (msg : string) : pipe_error :=
  PipeError true ("commit message generation failed: " +:+ msg).

Definition error_text (e : pipe_error) : string := match e with PipeError _ m => m | PipePanic => EmptyString end.

(** [fmt.Errorf("...: %w", err)]. *)
Definition wrapped (prefix : string) (e : pipe_error) : pipe_error :=
  match e with PipeError g m => PipeError g (prefix +:+ m) | PipePanic => PipePanic end.

Inductive phase := Staging | Merging | Cleaning | Pushing.

(** What the conflict resolver's container returned. *)
Record ResolverAnswer := MkResolver {
  ra_stdout : list Z;
  ra_stderr : list Z;
  ra_err : option string;
  ra_IsError : bool;
  ra_Result : string
}.

Record pendingCommit := MkPending { p_repoPath : string; p_worktreePath : string; p_diffStat : string; p_recentLog : string }.

(** The lists that the first pass fills. *)
Record staging := MkStaging { pending : list pendingCommit; errs : list string; missing : list string }.

Definition MaxRebaseRetries : Z := 3.
Definition emdash : string := of_bytes [226; 128; 148].

Section pipeline.
Context `{UUIDLib} {B : Type} `{!StorageBackend B}.
Variables (sch : Schedule B) (tbl : Z → Z) (reply : history → call → Reply).
Variables (ranged : phase → gmap string string → list string) (ctx_err : history → option string).
Variables (CommitMessagePrompt : string → string → string → string) (ConflictResolutionPrompt : string → string → string).
Variables (inProcess : Task → bool) (runAgent native_agent : history → string → result string string) (resolver : history → ResolverAnswer).
Variables (auto_push : option Z) (worktreesDir : string) (self : Z).

Definition P (A : Type) : Type := World B * history → A * (World B * history).

#[local] Instance P_ret : MRet P := λ A a x, (a, x).
#[local] Instance P_bind : MBind P := λ A C k m x, let '(a, x') := m x in k a x'.

Definition onW {A} (m : W (B:=B) A) : P A := λ '(w, h), let '(a, w') := m w in (a, (w', h)).
Definition onH {A} (m : H A) : P A := λ '(w, h), let '(a, h') := m h in (a, (w, h')).

(** An answer that may depend on everything before. *)
Definition consult {A} (f : history → A) : P A := λ '(w, h), (f h, (w, h)).

(** [ctx.Err()] of the task's context. *)
Definition ended : H (option string) := λ h, (ctx_err h, h).

Abbreviation ask c := (GitExec.ask reply c).
Abbreviation Run c := (GitExec.Run reply c).
Abbreviation Output c := (GitExec.Output reply c).
Abbreviation Combined c := (GitExec.Combined reply c).

(** The worktrees in the order of a phase. *)
Definition paths_of (ph : phase) (m : gmap string string) : list (string * string) := omap (λ r, pair r <$> m !! r) (ranged ph m).

Definition system (id : uuid) (text : string) : P unit := onW (event sch id EventTypeSystem (payload [("result", text)])).
Definition error_event (id : uuid) (text : string) : P unit := onW (event sch id EventTypeError (payload [("error", text)])).
Definition span_start (id : uuid) (ph label : string) : P unit := onW (event sch id EventTypeSpanStart (span ph label)).
Definition span_end (id : uuid) (ph label : string) : P unit := onW (event sch id EventTypeSpanEnd (span ph label)).

(** ** Phase 1: stage and commit *)

(** An instructions file that git does not track is removed. *)
Definition drop_instructions (worktreePath instrFile : string) : H unit :=
  let p := path_Join [worktreePath; instrFile] in
  s ← ask (Stat p);
  if negb (bool_decide (r_err s = None)) then mret tt
  else
    r ← Output (Git worktreePath ["ls-files"; instrFile]);
    match (r : string * option string) with
    | (out, None) => if decide (TrimSpace out = EmptyString) then _ ← Run (Remove p); mret tt else mret tt
    | (_, Some _) => _ ← Run (Remove p); mret tt
    end.

(** One worktree; the error is that of the context. *)
Definition stage_one (repoPath worktreePath : string) (st : staging) : H (result string staging) :=
  s ← ask (Stat worktreePath);
  if negb (bool_decide (r_err s = None)) then mret (Ok (MkStaging (pending st) (errs st) (missing st ++ [repoPath])%list))
  else
    g ← IsGitRepo reply worktreePath;
    if negb g then mret (Ok (MkStaging (pending st) (errs st) (missing st ++ [repoPath])%list))
    else
      drop_instructions worktreePath "CLAUDE.md" ;;
      drop_instructions worktreePath "AGENTS.md" ;;
      a ← Combined (Git worktreePath ["add"; "-A"]);
      match (a : string * option string) with
      | (out, Some err) =>
        c ← ended;
        mret (match c with
              | Some e => Err ("context canceled during git add: " +:+ e)
              | None => Ok (MkStaging (pending st)
                  (errs st ++ ["git add in " +:+ repoPath +:+ " (worktree " +:+ worktreePath +:+ "): " +:+ err +:+ ": " +:+ out])%list (missing st))
              end)
      | (_, None) =>
        c ← HasChanges reply worktreePath;
        match c with
        | Ok true =>
          stat ← Output (Git worktreePath ["diff"; "--cached"; "--stat"]);
          log ← Output (Git worktreePath ["log"; "--format=%s"; "-5"]);
          mret (Ok (MkStaging (pending st ++ [MkPending repoPath worktreePath (stat : string * option string).1 (log : string * option string).1])%list
                      (errs st) (missing st)))
        | _ => mret (Ok st)
        end
      end.

Fixpoint stage_all (l : list (string * string)) (st : staging) : H (result string staging) :=
  match l with
  | [] => mret (Ok st)
  | (repo, wt) :: rest =>
    r ← stage_one repo wt st;
    match r with
    | Err e => mret (Err e)
    | Ok st => stage_all rest st
    end
  end.

Definition all_stats (l : list pendingCommit) : string :=
  String.concat EmptyString ((λ p, (if Nat.ltb 1 (length l) then "Repository: " +:+ p_repoPath p +:+ nl else EmptyString) +:+ p_diffStat p +:+ nl) <$> l).

Definition all_logs (l : list pendingCommit) : string :=
  String.concat EmptyString ((λ p, (if Nat.ltb 1 (length l) then "Repository: " +:+ p_repoPath p +:+ nl else EmptyString) +:+
    (if decide (p_recentLog p = EmptyString) then EmptyString else p_recentLog p +:+ nl)) <$> l).

Definition generateCommitMessageInProcess (commitPrompt : string) : P (result pipe_error string) :=
  onH (ask (Agent commitPrompt)) ;;
  r ← consult (λ h, native_agent h commitPrompt);
  mret (match r with
        | Err e => Err (newCommitMessageGenerationError e)
        | Ok final =>
          let msg := sanitizeCommitMessage final in
          if decide (msg = EmptyString) then Err (newCommitMessageGenerationError "blank result") else Ok msg
        end).

Definition generateCommitMessage (id : uuid) (prompt diffStat recentLog : string) : P (result pipe_error string) :=
  t ← onW (get_task sch id);
  let commitPrompt := CommitMessagePrompt prompt diffStat recentLog in
  if match t with Ok t => inProcess t | Err _ => false end then generateCommitMessageInProcess commitPrompt
  else
    onH (ask (Agent commitPrompt)) ;;
    r ← consult (λ h, runAgent h commitPrompt);
    mret (match r with
          | Err e => Err (newCommitMessageGenerationError e)
          | Ok msg => if decide (msg = EmptyString) then Err (newCommitMessageGenerationError "blank result") else Ok msg
          end).

(** The second pass: whether anything was committed, and the errors. *)
Fixpoint commit_all (overrides : list string) (msg : string) (l : list pendingCommit) (committed : bool) (es : list string)
  : H (result string (bool * list string)) :=
  match l with
  | [] => mret (Ok (committed, es))
  | p :: rest =>
    r ← Combined (New "git" (["-C"; p_worktreePath p] ++ overrides ++ ["commit"; "-m"; msg])%list);
    match (r : string * option string) with
    | (_, None) => commit_all overrides msg rest true es
    | (_, Some err) =>
      c ← ended;
      match c with
      | Some e => mret (Err ("context canceled during git commit: " +:+ e))
      | None => commit_all overrides msg rest committed (es ++ ["git commit in " +:+ p_repoPath p +:+ ": " +:+ err])%list
      end
    end
  end.

Definition hostStageAndCommit (id : uuid) (worktreePaths : gmap string string) (prompt : string) : P (result pipe_error bool) :=
  if decide (worktreePaths = ∅) then mret (Err (PipeError false "no worktrees to commit"))
  else
    r ← onH (stage_all (paths_of Staging worktreePaths) (MkStaging [] [] []));
    match r with
    | Err e => mret (Err (PipeError false e))
    | Ok st =>
      if decide (length (pending st) = 0%nat) then
        mret (if negb (bool_decide (errs st = [])) then Err (PipeError false ("staging failed: " +:+ strings_Join (errs st) "; "))
              else if Nat.ltb 0 (length (missing st)) && bool_decide (length (missing st) = size worktreePaths)
              then Err (PipeError false ("all worktrees missing: " +:+ strings_Join (missing st) ", "))
              else Ok false)
      else
        m ← generateCommitMessage id prompt (all_stats (pending st)) (all_logs (pending st));
        match m with
        | Err e => mret (Err e)
        | Ok msg =>
          onW (quiet sch (λ n _, UpdateTaskCommitMessage n id msg)) ;;
          overrides ← onH (GlobalIdentityOverrides reply);
          c ← onH (commit_all overrides msg (pending st) false (errs st));
          mret (match c with
                | Err e => Err (PipeError false e)
                | Ok (committed, es) =>
                  if negb committed && negb (bool_decide (es = [])) then Err (PipeError false ("commit failed: " +:+ strings_Join es "; "))
                  else Ok committed
                end)
        end
    end.

(** ** Snapshots *)

(** [dircp.Copy] on Unix. *)
Definition dircp_Copy (src dst : string) : H (option string) :=
  e ← Run (Exec ["cp"; "-a"; src +:+ "/."; dst]);
  match e with None => mret None | Some _ => Run (CopyGo src dst) end.

Definition extractSnapshotToWorkspace (snapshotPath targetPath : string) : H (option string) :=
  l ← Run (LookPath "rsync");
  match l with
  | None =>
    r ← Combined (New "rsync" ["-a"; "--checksum"; "--delete"; "--exclude=.git"; snapshotPath +:+ "/"; targetPath +:+ "/"]);
    mret (match (r : string * option string) with
          | (out, Some err) => Some ("rsync snapshot to workspace: " +:+ err +:+ nl +:+ out)
          | (_, None) => None
          end)
  | Some _ =>
    e ← dircp_Copy snapshotPath targetPath;
    match e with
    | Some err => mret (Some ("copy snapshot to workspace: " +:+ err))
    | None => Run (RemoveAll (path_Join [targetPath; ".git"])) ;; mret None
    end
  end.

Definition setupNonGitSnapshot (ws snapshotPath : string) : H (option string) :=
  e ← Run (MkdirAll snapshotPath);
  match e with
  | Some err => mret (Some ("mkdir: " +:+ err))
  | None =>
    e ← dircp_Copy ws snapshotPath;
    match e with
    | Some err => Run (RemoveAll snapshotPath) ;; mret (Some ("cp workspace to snapshot: " +:+ err))
    | None =>
      e ← InitLocalRepo reply snapshotPath "wallfacer@local" "Wallfacer" "wallfacer: initial snapshot";
      match e with
      | Some err => Run (RemoveAll snapshotPath) ;; mret (Some ("init snapshot repo: " +:+ err))
      | None => mret None
      end
    end
  end.

(** ** Phase 2: rebase and merge *)

Definition truncate (s : string) (n : Z) : string := default s (Truncate s n).

(** The fields that all events of the resolver have. *)
Definition resolver_fields (status trigger repoName : string) (attempt maxAttempts : Z) (rest : list (string * jval)) : string :=
  json_map (list_to_map ([("phase", JStr "conflict_resolver"); ("status", JStr status); ("trigger", JStr trigger); ("repo", JStr repoName);
    ("attempt", JInt attempt); ("max_attempts", JInt maxAttempts)] ++ rest)%list).

Definition resolveConflicts (id : uuid) (repoPath worktreePath sessionID defBranch trigger : string) (attempt maxAttempts : Z) : P (option string) :=
  let containerPath := "/workspace/" +:+ path_Base worktreePath in
  let repoName := path_Base repoPath in
  let prompt := ConflictResolutionPrompt containerPath defBranch in
  let fields status rest := resolver_fields status trigger repoName attempt maxAttempts rest in
  onW (event sch id EventTypeSystem (fields "started" [("result", JStr ("Conflict resolver started for " +:+ repoName +:+ " (" +:+ trigger +:+
    ", attempt " +:+ pretty attempt +:+ "/" +:+ pretty maxAttempts +:+ ")."))])) ;;
  onH (ask (Container prompt sessionID)) ;;
  a ← consult resolver;
  t ← onW (get_task sch id);
  let turns := match t with Ok t => wrap64 (Turns t + 1) | Err _ => 0 end in
  onW (quiet sch (λ n _, SaveTurnOutput n id turns (ra_stdout a) (ra_stderr a))) ;;
  (if decide (ra_stderr a = []) then mret tt
   else onW (event sch id EventTypeSystem (payload [("stderr_file", "turn-" +:+ pad4 turns +:+ ".stderr.txt"); ("turn", pretty turns);
          ("phase", "conflict_resolver")]))) ;;
  match ra_err a with
  | Some err =>
    onW (event sch id EventTypeError (fields "failed" [("error", JStr ("Conflict resolver container failed for " +:+ repoName +:+ ": " +:+ err))])) ;;
    mret (Some ("conflict resolver container: " +:+ err))
  | None =>
    if ra_IsError a then
      onW (event sch id EventTypeError (fields "failed" [("error", JStr ("Conflict resolver reported error: " +:+ truncate (ra_Result a) 300))])) ;;
      mret (Some ("conflict resolver reported error: " +:+ truncate (ra_Result a) 300))
    else
      onW (event sch id EventTypeSystem (fields "succeeded" [("result", JStr ("Conflict resolver: " +:+ truncate (ra_Result a) 500))])) ;;
      mret None
  end.

(** The event about the files of a conflict. *)
Definition conflict_event (id : uuid) (e : git_error) : P unit :=
  match e with
  | ConflictError wt ((_ :: _) as files) raw =>
    onW (event sch id EventTypeError (json_map (list_to_map [("error", JStr (git_error_text e)); ("phase", JStr "rebase");
      ("conflicted_files", JList files); ("worktree", JStr wt)])))
  | _ => mret tt
  end.

(** The attempts from [attempt] on; [fuel] are those that are left. *)
Fixpoint rebase_loop (fuel : nat) (id : uuid) (repoPath worktreePath sessionID defBranch : string) (attempt : Z) : P (option string) :=
  match fuel with
  | O => mret None
  | S fuel =>
    system id ("Rebasing " +:+ repoPath +:+ " onto " +:+ defBranch +:+ " (attempt " +:+ pretty attempt +:+ "/" +:+ pretty MaxRebaseRetries +:+ ")...") ;;
    e ← onH (RebaseOntoDefault tbl reply repoPath worktreePath);
    match e with
    | None => mret None
    | Some err =>
      conflict_event id err ;;
      if Z.eqb attempt MaxRebaseRetries then
        mret (Some ("rebase failed after " +:+ pretty MaxRebaseRetries +:+ " attempts in " +:+ repoPath +:+ ": " +:+ git_error_text err))
      else if negb (isConflictError err) then mret (Some ("rebase " +:+ repoPath +:+ ": " +:+ git_error_text err))
      else
        system id ("Conflict in " +:+ repoPath +:+ " " +:+ emdash +:+ " running resolver (attempt " +:+ pretty attempt +:+ ")...") ;;
        r ← resolveConflicts id repoPath worktreePath sessionID defBranch "commit" attempt MaxRebaseRetries;
        match r with
        | Some rerr => mret (Some ("conflict resolution failed: " +:+ rerr))
        | None => rebase_loop fuel id repoPath worktreePath sessionID defBranch (attempt + 1)
        end
    end
  end.

(** The maps that are filled repository by repository. *)
Record merged := MkMerged { commitHashes : gmap string string; baseHashes : gmap string string; snapshotDiffs : gmap string string }.

(** Whether the worktree is a snapshot: no repository, or one without a commit. *)
Definition is_snapshot (repoPath : string) : H bool :=
  g ← IsGitRepo reply repoPath;
  if negb g then mret true
  else c ← HasCommits reply repoPath; mret (negb c).

Definition extract_one (id : uuid) (repoPath worktreePath : string) (m : merged) : P (result pipe_error merged) :=
  system id ("Extracting changes from sandbox to " +:+ path_Base repoPath +:+ "...") ;;
  diff ← onH (SnapshotDiff reply worktreePath);
  let m := if decide (diff = EmptyString) then m else MkMerged (commitHashes m) (baseHashes m) (<[repoPath := diff]> (snapshotDiffs m)) in
  e ← onH (extractSnapshotToWorkspace worktreePath repoPath);
  match e with
  | Some err => mret (Err (PipeError false ("extract snapshot for " +:+ repoPath +:+ ": " +:+ err)))
  | None =>
    r ← onH (GetCommitHash reply worktreePath);
    let m := match r with Ok hash => MkMerged (<[repoPath := hash]> (commitHashes m)) (baseHashes m) (snapshotDiffs m) | Err _ => m end in
    system id ("Changes extracted to " +:+ path_Base repoPath +:+ ".") ;;
    mret (Ok m)
  end.

(** The last part: the fast-forward; [hash[:8]] panics on a short output. *)
Definition merge_one (id : uuid) (repoPath branchName defBranch : string) (m : merged) : P (result pipe_error merged) :=
  system id ("Fast-forward merging " +:+ branchName +:+ " into " +:+ defBranch +:+ "...") ;;
  e ← onH (FFMerge reply repoPath branchName);
  match e with
  | Some err => mret (Err (PipeError false ("ff-merge " +:+ repoPath +:+ ": " +:+ err)))
  | None =>
    r ← onH (GetCommitHash reply repoPath);
    match r with
    | Err _ => mret (Ok m)
    | Ok hash =>
      let m := MkMerged (<[repoPath := hash]> (commitHashes m)) (baseHashes m) (snapshotDiffs m) in
      match slice hash 0 8 with
      | None => mret (Err PipePanic)
      | Some short => system id ("Merged " +:+ repoPath +:+ " " +:+ emdash +:+ " commit " +:+ short) ;; mret (Ok m)
      end
    end
  end.

Definition rebaseAndMergeOne (id : uuid) (repoPath worktreePath branchName sessionID : string) (m : merged) : P (result pipe_error merged) :=
  snap ← onH (is_snapshot repoPath);
  if (snap : bool) then extract_one id repoPath worktreePath m
  else
    defBranch ← onH (DefaultBranch reply repoPath);
    base ← onH (GetCommitHashForRef reply repoPath defBranch);
    let m := match base with Ok b => MkMerged (commitHashes m) (<[repoPath := b]> (baseHashes m)) (snapshotDiffs m) | Err _ => m end in
    ahead ← onH (HasCommitsAheadOf reply worktreePath defBranch);
    if negb (match ahead with Ok a => a | Err _ => false end) then
      system id ("Skipping " +:+ repoPath +:+ " " +:+ emdash +:+ " no new commits to merge.") ;;
      mret (Ok m)
    else
      e ← rebase_loop 3 id repoPath worktreePath sessionID defBranch 1;
      match e with
      | Some err => mret (Err (PipeError false err))
      | None => merge_one id repoPath branchName defBranch m
      end.

(** [gone] counts the worktrees that are missing; [total] is their number. *)
Fixpoint merge_all (id : uuid) (l : list (string * string)) (total gone : nat) (branchName sessionID : string) (m : merged)
  : P (result pipe_error merged) :=
  match l with
  | [] => mret (if Nat.ltb 0 gone && bool_decide (gone = total)
                then Err (PipeError false "all worktrees missing, nothing to rebase/merge") else Ok m)
  | (repo, wt) :: rest =>
    s ← onH (ask (Stat wt));
    if negb (bool_decide (r_err s = None)) then merge_all id rest total (S gone) branchName sessionID m
    else
      r ← rebaseAndMergeOne id repo wt branchName sessionID m;
      match r with
      | Err e => mret (Err e)
      | Ok m => merge_all id rest total gone branchName sessionID m
      end
  end.

Definition rebaseAndMerge (id : uuid) (worktreePaths : gmap string string) (branchName sessionID : string) : P (result pipe_error merged) :=
  merge_all id (paths_of Merging worktreePaths) (size worktreePaths) 0 branchName sessionID (MkMerged ∅ ∅ ∅).

(** ** Phase 3: clean up *)

Definition cwdInDir (cwdPath dir : string) : bool := bool_decide (cwdPath = dir) || HasPrefix cwdPath (dir +:+ "/").

(** The processes of an [lsof] listing whose working directory is inside [dir]. *)
Fixpoint pids_in (dir : string) (lines : list string) (cur : Z) : list Z :=
  match lines with
  | [] => []
  | line :: rest =>
    if HasPrefix line "p" then pids_in dir rest (match Atoi (TrimPrefix line "p") with Some pid => pid | None => cur end)
    else if HasPrefix line "n" then
      if cwdInDir (TrimPrefix line "n") dir && negb (Z.eqb cur 0) && negb (Z.eqb cur self) then cur :: pids_in dir rest cur
      else pids_in dir rest cur
    else pids_in dir rest cur
  end.

Fixpoint signal_all (name : string) (pids : list Z) : H unit :=
  match pids with
  | [] => mret tt
  | pid :: rest => _ ← ask (Signal pid name); signal_all name rest
  end.

Definition killWorktreeProcesses (dir : string) : H unit :=
  r ← ask (Exec ["lsof"; "-a"; "-d"; "cwd"; "-F"; "pn"]);
  match r_err r with
  | Some _ => mret tt
  | None =>
    let pids := pids_in dir (Split GoText.newline (r_stdout r)) 0 in
    signal_all "SIGTERM" pids ;; signal_all "SIGKILL" pids
  end.

Fixpoint remove_worktrees (l : list (string * string)) (branchName : string) : H unit :=
  match l with
  | [] => mret tt
  | (repo, wt) :: rest =>
    snap ← is_snapshot repo;
    (if (snap : bool) then mret tt else _ ← RemoveWorktree reply repo wt branchName; mret tt) ;;
    remove_worktrees rest branchName
  end.

Definition task_dir (id : uuid) : string := path_Join [worktreesDir; uuid_String id].

Definition cleanupWorktrees (id : uuid) (worktreePaths : gmap string string) (branchName : string) : P unit :=
  span_start id "worktree_cleanup" "worktree_cleanup" ;;
  onH (remove_worktrees (paths_of Cleaning worktreePaths) branchName) ;;
  onH (killWorktreeProcesses (task_dir id)) ;;
  onH (Run (RemoveAll (task_dir id))) ;;
  span_end id "worktree_cleanup" "worktree_cleanup".

(** ** Auto-push *)

Definition push_one (id : uuid) (threshold : Z) (repoPath : string) : P unit :=
  g ← onH (IsGitRepo reply repoPath);
  if negb g then mret tt
  else
    s ← onH (WorkspaceStatus reply repoPath);
    if negb (s_HasRemote s) || Z.ltb (s_AheadCount s) threshold then mret tt
    else
      system id ("Auto-pushing " +:+ repoPath +:+ " (" +:+ pretty (s_AheadCount s) +:+ " commit(s) ahead)...") ;;
      span_start id "commit" ("push_" +:+ path_Base repoPath) ;;
      r ← onH (Combined (Git repoPath ["push"]));
      span_end id "commit" ("push_" +:+ path_Base repoPath) ;;
      match (r : string * option string) with
      | (out, Some err) => error_event id ("auto-push failed for " +:+ repoPath +:+ ": " +:+ err +:+ nl +:+ out)
      | (_, None) => system id ("Auto-push succeeded for " +:+ repoPath +:+ ".")
      end.

Fixpoint push_all (id : uuid) (threshold : Z) (l : list (string * string)) : P unit :=
  match l with
  | [] => mret tt
  | (repo, _) :: rest => push_one id threshold repo ;; push_all id threshold rest
  end.

(** [auto_push] is the configured threshold, if the feature is on. *)
Definition maybeAutoPush (id : uuid) (worktreePaths : gmap string string) : P unit :=
  match auto_push with
  | None => mret tt
  | Some threshold => push_all id (if Z.leb threshold 0 then 1 else threshold) (paths_of Pushing worktreePaths)
  end.

(** ** The pipeline *)

Definition save_results (id : uuid) (m : merged) : P unit :=
  (if decide (commitHashes m = ∅) then mret tt else onW (quiet sch (λ n _, UpdateTaskCommitHashes n id (commitHashes m)))) ;;
  (if decide (baseHashes m = ∅) then mret tt else onW (quiet sch (λ n _, UpdateTaskBaseCommitHashes n id (baseHashes m)))) ;;
  (if decide (snapshotDiffs m = ∅) then mret tt else onW (quiet sch (λ n _, UpdateTaskSnapshotDiffs n id (snapshotDiffs m)))).

Definition commit (id : uuid) (sessionID : string) (worktreePaths : gmap string string) (branchName : string) : P (option pipe_error) :=
  system id "Phase 1/3: Staging and committing changes..." ;;
  t ← onW (get_task sch id);
  let taskPrompt := match t with Ok t => Prompt t | Err _ => EmptyString end in
  span_start id "commit" "stage" ;;
  r ← hostStageAndCommit id worktreePaths taskPrompt;
  span_end id "commit" "stage" ;;
  match r with
  | Err e =>
    error_event id (if IsCommitMessageGenerationError e then error_text e else "stage/commit failed: " +:+ error_text e) ;;
    mret (Some (wrapped "stage and commit: " e))
  | Ok _ =>
    system id "Phase 2/3: Rebasing and merging into default branch..." ;;
    span_start id "commit" "rebase_merge" ;;
    r ← rebaseAndMerge id worktreePaths branchName sessionID;
    match r with
    | Err PipePanic => mret (Some PipePanic)
    | Err e =>
      span_end id "commit" "rebase_merge" ;;
      error_event id ("rebase/merge failed: " +:+ error_text e) ;;
      mret (Some (wrapped "rebase/merge: " e))
    | Ok m =>
      span_end id "commit" "rebase_merge" ;;
      system id "Phase 3/3: Cleaning up..." ;;
      save_results id m ;;
      span_start id "commit" "cleanup" ;;
      cleanupWorktrees id worktreePaths branchName ;;
      span_end id "commit" "cleanup" ;;
      system id "Commit pipeline completed." ;;
      maybeAutoPush id worktreePaths ;;
      mret None
    end
  end.

(** The error of the store is wrapped. *)
Definition Commit (id : uuid) (sessionID : string) : P (option (store_error + pipe_error)) :=
  t ← onW (get_task sch id);
  match t with
  | Err e => mret (Some (inl e))
  | Ok t => e ← commit id sessionID (WorktreePaths t) (BranchName t); mret (inr <$> e)
  end.

(** ** Worktrees of a task *)

(** What setting up one workspace leads to. *)
Definition create_one (ws worktreePath branchName : string) : H (option string) :=
  g ← IsGitRepo reply ws;
  if (g : bool) then
    e ← CreateWorktree reply ws worktreePath branchName;
    match e with
    | None => mret None
    | Some ErrEmptyRepo =>
      e ← setupNonGitSnapshot ws worktreePath;
      mret ((λ err, "snapshot for empty repo " +:+ ws +:+ ": " +:+ err) <$> e)
    | Some (CreateFailed err) => mret (Some ("createWorktree for " +:+ ws +:+ ": " +:+ err))
    end
  else
    e ← setupNonGitSnapshot ws worktreePath;
    mret ((λ err, "snapshot for " +:+ ws +:+ ": " +:+ err) <$> e).

(** Whether the directory can be used as it is; one that is no repository is removed. *)
Definition reuse (worktreePath : string) : H bool :=
  s ← ask (Stat worktreePath);
  if negb (bool_decide (r_err s = None)) then mret false
  else
    g ← IsGitRepo reply worktreePath;
    if (g : bool) then mret true else _ ← Run (RemoveAll worktreePath); mret false.

Fixpoint ensure_all (id : uuid) (existing : gmap string string) (branchName : string) (repos : list string) (paths created : gmap string string)
  : P (result string (gmap string string)) :=
  match repos with
  | [] => mret (Ok paths)
  | ws :: rest =>
    let worktreePath := default EmptyString (existing !! ws) in
    let worktreePath := if decide (worktreePath = EmptyString) then path_Join [worktreesDir; uuid_String id; path_Base ws] else worktreePath in
    r ← onH (reuse worktreePath);
    if (r : bool) then ensure_all id existing branchName rest (<[ws := worktreePath]> paths) created
    else
      e ← onH (Run (MkdirAll (path_Dir worktreePath)));
      match e with
      | Some err => cleanupWorktrees id created branchName ;; mret (Err ("mkdir worktree parent: " +:+ err))
      | None =>
        e ← onH (create_one ws worktreePath branchName);
        match e with
        | Some err => cleanupWorktrees id created branchName ;; mret (Err err)
        | None => ensure_all id existing branchName rest (<[ws := worktreePath]> paths) (<[ws := worktreePath]> created)
        end
      end
  end.

(** [existing] empty is also a nil map; [order] is the order in which it is
    ranged over.  The first eight bytes of an identifier always exist. *)
Definition ensureTaskWorktrees (id : uuid) (workspaces : list string) (existing : gmap string string) (order : list string) (branchName : string)
  : P (result string (gmap string string * string)) :=
  let branchName := if decide (branchName = EmptyString) then "task/" +:+ String.substring 0 8 (uuid_String id) else branchName in
  let repos := if decide (existing = ∅) then workspaces else order in
  r ← ensure_all id existing branchName repos ∅ ∅;
  mret (match r with Ok paths => Ok (paths, branchName) | Err e => Err e end).

(** ** Pruning *)

Definition prunable (t : Task) : bool :=
  Archived t || bool_decide (Status t = TaskStatusDone) || bool_decide (Status t = TaskStatusCancelled).

Fixpoint prune_all (ids : list string) (entries : list (string * bool)) : H unit :=
  match entries with
  | [] => mret tt
  | (name, isdir) :: rest =>
    (if negb isdir || negb (bool_decide (name ∈ ids)) then mret tt
     else _ ← Run (RemoveAll (path_Join [worktreesDir; name])); mret tt) ;;
    prune_all ids rest
  end.

(** [entries]: the directory's listing, if it can be read; [del_order] is the
    order in which the map of deleted tasks is ranged over. *)
Definition PruneUnknownWorktrees (entries : option (list (string * bool))) (del_order : gmap uuid Task → list uuid) : P unit :=
  match entries with
  | None => mret tt
  | Some entries =>
    live ← onW (read_range sch (λ order, ListTasks order true));
    dead ← onW (read sch (λ s, ListDeletedTasks (del_order (deleted s)) s));
    onH (prune_all ((uuid_String ∘ ID) <$> (filter (λ t, prunable t = true) (live : list Task) ++ (dead : list Task)))%list entries)
  end.
End pipeline.
