(* ===== verification/CommitSpec.v ===== *)
(** * What the commit pipeline keeps

    Whatever git, the disk, the agents and other goroutines answer: a pipeline that
    fails has removed no worktree and no branch and has pushed nothing; one that
    succeeds has merged every worktree or seen that there is nothing to merge before
    it removes anything.  If git does not fail to stage, every change is committed.
    Pruning only removes the directories of tasks that are over. *)

From S2P Require Import Prelude GoStrings GoText PkgUtil TaskModel Backend Store StoreUpdate StoreQuery World GitExec GitSpec CommitPipeline.
From Stdlib Require Import String.
From stdpp Require Import list gmap.
Local Open Scope Z_scope.
Local Open Scope string_scope.

(** ** Traces of the pipeline *)

Section ptraces.
Context `{UUIDLib} {B : Type} `{!StorageBackend B}.
Abbreviation P := (P (B:=B)).
#[local] Existing Instances P_ret P_bind.

Definition ptraced {A} (m : P A) (Q : A → history → Prop) : Prop := ∀ w h, ∃ n, (m (w, h)).2.2 = (h ++ n)%list ∧ Q (m (w, h)).1 n.

Lemma ptraced_ret {A} (a : A) (Q : A → history → Prop) : Q a [] → ptraced (mret a) Q.
Proof. intros HQ w h. exists []. by rewrite app_nil_r. Qed.

Lemma ptraced_bind {A C} (m : P A) (k : A → P C) (Q : A → history → Prop) (R : C → history → Prop) :
  ptraced m Q → (∀ a n, Q a n → ptraced (k a) (λ c n', R c (n ++ n')%list)) → ptraced (m ≫= k) R.
Proof.
  intros Hm Hk w h. destruct (Hm w h) as (n1 & E1 & Q1). unfold mbind, P_bind. destruct (m (w, h)) as [a [w1 h1]]. simpl in *. subst h1.
  destruct (Hk a n1 Q1 w1 (h ++ n1)%list) as (n2 & E2 & R2). exists (n1 ++ n2)%list. by rewrite (assoc_L (++)%list).
Qed.

Lemma ptraced_weaken {A} (m : P A) (Q R : A → history → Prop) : ptraced m Q → (∀ a n, Q a n → R a n) → ptraced m R.
Proof. intros Hm Hi w h. destruct (Hm w h) as (n & E & HQ). eauto. Qed.

Lemma ptraced_and {A} (m : P A) (Q R : A → history → Prop) : ptraced m Q → ptraced m R → ptraced m (λ a n, Q a n ∧ R a n).
Proof. intros Hq Hr w h. destruct (Hq w h) as (n & E & HQ), (Hr w h) as (n' & E' & HR). rewrite E in E'. simplify_list_eq. eauto. Qed.

Lemma ptraced_onW {A} (m : W (B:=B) A) : ptraced (onW m) (λ _ n, n = []).
Proof. intros w h. exists []. unfold onW. destruct (m w). by rewrite app_nil_r. Qed.

Lemma ptraced_onH {A} (m : H A) Q : traced m Q → ptraced (onH m) Q.
Proof. intros Hm w h. destruct (Hm h) as (n & E & HQ). unfold onH. destruct (m h). eauto. Qed.

Lemma ptraced_consult {A} (f : history → A) : ptraced (consult f) (λ _ n, n = []).
Proof. intros w h. exists []. by rewrite app_nil_r. Qed.

(** A step that makes no call, before the rest. *)
Lemma ptraced_skip {A C} (m : P A) (k : A → P C) (R : C → history → Prop) : ptraced m (λ _ n, n = []) → (∀ a, ptraced (k a) R) → ptraced (m ≫= k) R.
Proof. intros Hm Hk. eapply ptraced_bind; [exact Hm|]. intros a n ->. apply Hk. Qed.

Definition ponly {A} (p : call → Prop) (m : P A) : Prop := ptraced m (λ _ n, Forall p n.*1).

Lemma ponly_ret {A} p (a : A) : ponly p (mret a).
Proof. apply ptraced_ret. constructor. Qed.

Lemma ponly_bind {A C} p (m : P A) (k : A → P C) : ponly p m → (∀ a, ponly p (k a)) → ponly p (m ≫= k).
Proof.
  intros Hm Hk. eapply ptraced_bind; [exact Hm|]. intros a n Hn. eapply ptraced_weaken; [apply Hk|]. intros c n' Hn'. cbv beta in *. rewrite fmap_app. by apply Forall_app.
Qed.

Lemma ponly_onW {A} p (m : W (B:=B) A) : ponly p (onW m).
Proof. eapply ptraced_weaken; [apply ptraced_onW|]. intros a n ->. constructor. Qed.

Lemma ponly_onH {A} p (m : H A) : only p m → ponly p (onH m).
Proof. apply ptraced_onH. Qed.

(** Calls that do not matter, before the rest. *)
Lemma ptraced_any {A C} (m : H A) (k : A → P C) (R : C → history → Prop) :
  only (λ _, True) m → (∀ a n, ptraced (k a) (λ c n', R c (n ++ n')%list)) → ptraced (onH m ≫= k) R.
Proof. intros Hm Hk. eapply ptraced_bind; [by apply ptraced_onH, Hm|]. intros a n _. apply Hk. Qed.

Lemma ponly_consult {A} p (f : history → A) : ponly p (consult f).
Proof. eapply ptraced_weaken; [apply ptraced_consult|]. intros a n ->. constructor. Qed.
End ptraces.

Ltac ponly_tac :=
  repeat match goal with
  | |- ponly _ (mret _) => apply ponly_ret
  | |- ponly _ (_ ≫= _) => apply ponly_bind; [|intros ?]
  | |- ponly _ (onW _) => apply ponly_onW
  | |- ponly _ (consult _) => apply ponly_consult
  | |- ponly _ (onH _) => apply ponly_onH
  | |- ponly _ (match ?x with _ => _ end) => destruct x
  | |- ponly _ (if ?x then _ else _) => destruct x
  end.

(** ** What is spared *)

Section spared.
Context `{UUIDLib} {B : Type} `{!StorageBackend B} (sch : Schedule B) (tbl : Z → Z) (reply : history → call → Reply).
Context (ranged : phase → gmap string string → list string) (ctx_err : history → option string).
Context (CommitMessagePrompt : string → string → string → string) (ConflictResolutionPrompt : string → string → string).
Context (inProcess : Task → bool) (runAgent native_agent : history → string → result string string) (resolver : history → ResolverAnswer).
Context (auto_push : option Z) (worktreesDir : string) (self : Z) (id : uuid).
#[local] Existing Instances P_ret P_bind.

(** A call that removes the work of the task or makes it public. *)
Definition destroys (c : call) : Prop :=
  (∃ d a, c = Git d ("worktree" :: "remove" :: a)) ∨ (∃ d a, c = Git d ("branch" :: "-D" :: a)) ∨ (∃ d a, c = Git d ("push" :: a)) ∨
  c = RemoveAll (task_dir worktreesDir id).

Definition spares (c : call) : Prop := ¬ destroys c.

Lemma spares_git d x args : x ≠ "worktree" → x ≠ "push" → (x, head args) ≠ ("branch", Some "-D") → spares (Git d (x :: args)).
Proof. intros H1 H2 H3 [(? & ? & [= -> -> ->])|[(? & ? & [= -> -> ->])|[(? & ? & [= -> -> ->])|[=]]]]; [by apply H1|by apply H3|by apply H2]. Qed.

Lemma spares_other c : (∀ a, c ≠ Exec ("git" :: a)) → (∀ q, c ≠ RemoveAll q) → spares c.
Proof. intros H1 H2 [(d & a & ->)|[(d & a & ->)|[(d & a & ->)| ->]]]; [by eapply H1..|by eapply H2]. Qed.

Hint Extern 1 (spares (Git _ _)) => (apply spares_git; discriminate) : core.
Hint Extern 2 (spares _) => (apply spares_other; discriminate) : core.

Lemma spares_instructions wt f : only spares (drop_instructions reply wt f).
Proof. unfold drop_instructions. only_tac; auto. Qed.

Lemma only_ended : only spares (ended ctx_err).
Proof. intros h. exists []. by rewrite app_nil_r. Qed.

Lemma spares_stage_one repo wt st : only spares (stage_one reply ctx_err repo wt st).
Proof. unfold stage_one, IsGitRepo, HasChanges. only_tac; auto using spares_instructions, only_ended. Qed.

Lemma spares_stage l st : only spares (stage_all reply ctx_err l st).
Proof. revert st. induction l as [|[repo wt] l IH]; intros st; cbn [stage_all]; only_tac; auto using spares_stage_one. Qed.

(** *** Committing *)

(** The options before a git command. *)
Definition options (o : list string) : Prop := head o = None ∨ head o = Some "-c".

Lemma overrides_traced : traced (GlobalIdentityOverrides reply) (λ o n, options o ∧ Forall spares n.*1).
Proof.
  unfold GlobalIdentityOverrides. eapply traced_bind; [apply traced_Output|]. intros x n (r & -> & ->). eapply traced_bind; [apply traced_Output|].
  intros x' n' (r' & -> & ->). apply traced_ret. split.
  - unfold options. destruct (r_err r), (r_err r'); repeat (destruct (decide _)); cbn; auto.
  - repeat constructor; intros [(? & ? & [=])|[(? & ? & [=])|[(? & ? & [=])|[=]]]].
Qed.

Lemma spares_commit wt o msg : options o → spares (New "git" (["-C"; wt] ++ o ++ ["commit"; "-m"; msg])%list).
Proof.
  intros Ho [(d & a & [= -> E])|[(d & a & [= -> E])|[(d & a & [= -> E])|[=]]]]; destruct o as [|y o]; simplify_eq/=; by destruct Ho.
Qed.

Lemma spares_commit_all o msg l committed es : options o → only spares (commit_all reply ctx_err o msg l committed es).
Proof.
  intros Ho. revert committed es. induction l as [|p l IH]; intros committed es; cbn [commit_all]; only_tac; auto using spares_commit, only_ended.
Qed.

Lemma spares_generate prompt stats logs :
  ponly spares (generateCommitMessage sch reply CommitMessagePrompt inProcess runAgent native_agent id prompt stats logs).
Proof. unfold generateCommitMessage, generateCommitMessageInProcess. ponly_tac; only_tac; auto. Qed.

Lemma spares_host paths prompt :
  ponly spares (hostStageAndCommit sch reply ranged ctx_err CommitMessagePrompt inProcess runAgent native_agent id paths prompt).
Proof.
  unfold hostStageAndCommit. destruct (decide _); [ponly_tac|]. apply ponly_bind; [apply ponly_onH, spares_stage|]. intros [st|e]; [|ponly_tac].
  destruct (decide _); [ponly_tac|]. apply ponly_bind; [apply spares_generate|]. intros [msg|e]; [|ponly_tac]. apply ponly_bind; [apply ponly_onW|]. intros _.
  eapply ptraced_bind; [apply ptraced_onH, overrides_traced|]. intros o n' [Ho Hn].
  eapply ptraced_bind; [apply ptraced_onH, (spares_commit_all o msg (pending st) false (errs st) Ho)|].
  intros c n'' Hn''. apply ptraced_ret. cbv beta in *. rewrite app_nil_r, fmap_app. by apply Forall_app.
Qed.

(** *** Merging *)

Lemma only_tx (p : call → Prop) tx : Forall p (steps tx).*1 → Forall p (omap snd (steps tx)) → Forall p (defers tx) → only p (run_tx reply tx).
Proof.
  intros H1 H2 H3. eapply traced_weaken; [apply run_tx_trace|]. intros e n (dn & rl & df & -> & Hdf & Ht & _). rewrite !fmap_app, !Forall_app, Hdf.
  assert (Forall p dn.*1 ∧ Forall p rl.*1) as [Hd Hr]; [|split; [done|]; split; [done|by rewrite Forall_reverse]].
  destruct (e ≫= te_Step) as [se|].
  - destruct Ht as (b & c & r & -> & Hc & Hb & _ & _ & _ & ->). rewrite fmap_app, Forall_app, Hb. split.
    + split; [by apply Forall_take|]. constructor; [exact (Forall_lookup_1 _ _ _ _ H1 Hc)|constructor].
    + rewrite Forall_reverse. rewrite <-(take_drop (S (se_Index se)) (steps tx)), omap_app in H2. by apply Forall_app in H2 as [? _].
  - destruct Ht as (-> & _ & -> & _). by split.
Qed.

Lemma spares_rebase repo wt : only spares (RebaseOntoDefault tbl reply repo wt).
Proof.
  unfold RebaseOntoDefault. only_tac; auto using only_DefaultBranch.
  - apply only_recover; auto. intros x args Hx. destruct (not_recover _ Hx) as (_ & ? & ? & ?). apply spares_git; congruence.
  - apply only_tx; cbn; repeat constructor; auto.
Qed.

Lemma spares_ffmerge repo branch : only spares (FFMerge reply repo branch).
Proof.
  unfold FFMerge, StashIfDirty. only_tac; auto using only_DefaultBranch.
  match goal with b : bool |- _ => destruct b end; apply only_tx; cbn; repeat constructor; auto.
Qed.

Lemma spares_resolve repo wt sid def trigger a m : ponly spares (resolveConflicts sch reply ConflictResolutionPrompt resolver id repo wt sid def trigger a m).
Proof. unfold resolveConflicts. ponly_tac; only_tac; auto. Qed.

Lemma spares_loop fuel repo wt sid def a :
  ponly spares (rebase_loop sch tbl reply ConflictResolutionPrompt resolver fuel id repo wt sid def a).
Proof.
  revert a. induction fuel as [|fuel IH]; intros a; cbn [rebase_loop]; unfold system, conflict_event; ponly_tac; auto using spares_rebase, spares_resolve.
Qed.

Lemma spares_untracked wt files out : only spares (untracked_diffs reply wt files out).
Proof. revert out. induction files as [|f files IH]; intros out; cbn [untracked_diffs]; only_tac; auto. Qed.

(** The repositories do not lie where the worktrees of the task are. *)
Variable outside : string → Prop.
Hypothesis outside_dir : ∀ repo, outside repo → path_Join [repo; ".git"] ≠ task_dir worktreesDir id.

Lemma spares_extract wt repo : outside repo → only spares (extractSnapshotToWorkspace reply wt repo).
Proof.
  intros Ho. unfold extractSnapshotToWorkspace, dircp_Copy. only_tac; auto.
  intros [(? & ? & [=])|[(? & ? & [=])|[(? & ? & [=])|[= E]]]]. by apply (outside_dir repo).
Qed.

Lemma spares_one repo wt branch sid m : outside repo →
  ponly spares (rebaseAndMergeOne sch tbl reply ConflictResolutionPrompt resolver id repo wt branch sid m).
Proof.
  intros Ho. unfold rebaseAndMergeOne, extract_one, merge_one, is_snapshot, IsGitRepo, HasCommits, SnapshotDiff, GetCommitHash, GetCommitHashForRef, HasCommitsAheadOf, system.
  ponly_tac; only_tac; auto using spares_untracked, spares_extract, spares_loop, spares_ffmerge, only_DefaultBranch.
Qed.

(** *** What became of a worktree *)

Definition count_call (wt def : string) : call := Git wt ["rev-list"; "--count"; def +:+ "..HEAD"].

(** Before the clean-up: the worktree is gone; its files were copied back; git
    counted no commit to merge; or it was rebased and then merged. *)
Inductive landed (branch repo wt : string) (n : history) : Prop :=
| landed_gone r : (Stat wt, r) ∈ n → r_err r ≠ None → landed branch repo wt n
| landed_copied c r : c ∈ [New "rsync" ["-a"; "--checksum"; "--delete"; "--exclude=.git"; wt +:+ "/"; repo +:+ "/"]; Exec ["cp"; "-a"; wt +:+ "/."; repo]; CopyGo wt repo] →
    (c, r) ∈ n → r_err r = None → landed branch repo wt n
| landed_nothing def r : (count_call wt def, r) ∈ n →
    r_err r = None → Atoi_value (TrimSpace (r_stdout r)) <= 0 → landed branch repo wt n
| landed_merged n1 n2 n3 def r r' : n = (n1 ++ [(Git wt ["rebase"; def], r)] ++ n2 ++ [(Git repo ["merge"; "--ff-only"; branch], r')] ++ n3)%list →
    r_err r = None → r_err r' = None → landed branch repo wt n.

Lemma landed_app branch repo wt a n b : landed branch repo wt n → landed branch repo wt (a ++ n ++ b)%list.
Proof.
  intros [r Hr He|c r Hc Hr He|def r Hr He Hz|n1 n2 n3 def r r' -> H1 H2].
  - apply (landed_gone _ _ _ _ r); [|done]. apply elem_of_app. right. apply elem_of_app. by left.
  - apply (landed_copied _ _ _ _ c r); [done| |done]. apply elem_of_app. right. apply elem_of_app. by left.
  - apply (landed_nothing _ _ _ _ def r); [|done..]. apply elem_of_app. right. apply elem_of_app. by left.
  - apply (landed_merged _ _ _ _ (a ++ n1) n2 (n3 ++ b) def r r'); [|done..]. by rewrite <-!app_assoc.
Qed.

(** Git failed to count the commits of the worktree. *)
Definition uncounted (wt : string) (n : history) : Prop := ∃ def r, (count_call wt def, r) ∈ n ∧ r_err r ≠ None.

Definition fate (branch repo wt : string) (n : history) : Prop := landed branch repo wt n ∨ uncounted wt n.

Lemma loop_rebases fuel repo wt sid def a : (0 < fuel)%nat → a + Z.of_nat fuel = MaxRebaseRetries + 1 →
  ptraced (rebase_loop sch tbl reply ConflictResolutionPrompt resolver fuel id repo wt sid def a)
    (λ e n, e = None → ∃ n1 d r, n = (n1 ++ [(Git wt ["rebase"; d], r)])%list ∧ r_err r = None).
Proof.
  revert a. induction fuel as [|fuel IH]; intros a Hf Ha; [lia|]. cbn [rebase_loop]. apply ptraced_skip; [apply ptraced_onW|intros _].
  eapply ptraced_bind; [apply ptraced_onH, rebase_traced|]. intros e n (prep & last & -> & _ & He). destruct e as [err|].
  2: { apply ptraced_ret. intros _. destruct He as (d & r & -> & Hr). exists prep, d, r. by rewrite app_nil_r. }
  apply ptraced_skip; [unfold conflict_event; destruct err as [? [|]|]; [apply ptraced_ret; done|apply ptraced_onW|apply ptraced_ret; done]|intros _].
  destruct (Z.eqb_spec a MaxRebaseRetries) as [->|Hne]; [by apply ptraced_ret|]. destruct (negb _); [by apply ptraced_ret|].
  apply ptraced_skip; [apply ptraced_onW|intros _]. eapply ptraced_bind; [apply (spares_resolve repo wt sid def "commit" a MaxRebaseRetries)|].
  intros [rerr|] n' _; [by apply ptraced_ret|]. unfold MaxRebaseRetries in *. eapply ptraced_weaken; [apply IH; lia|].
  intros e n'' Hn ->. destruct (Hn eq_refl) as (n1 & d & r & -> & Hr). exists ((prep ++ last) ++ n' ++ n1)%list, d, r. by rewrite <-!(assoc_L (++)%list).
Qed.

Lemma landed_right branch repo wt a n : landed branch repo wt n → landed branch repo wt (a ++ n)%list.
Proof. intros Hl. apply (landed_app _ _ _ a n []) in Hl. by rewrite app_nil_r in Hl. Qed.

Lemma landed_left branch repo wt n b : landed branch repo wt n → landed branch repo wt (n ++ b)%list.
Proof. apply (landed_app _ _ _ [] n b). Qed.

Lemma fate_right branch repo wt a n : fate branch repo wt n → fate branch repo wt (a ++ n)%list.
Proof. intros [Hl|(def & r & Hr & He)]; [left; by apply landed_right|right]. exists def, r. by rewrite elem_of_app; auto. Qed.

Lemma fate_left branch repo wt n b : fate branch repo wt n → fate branch repo wt (n ++ b)%list.
Proof. intros [Hl|(def & r & Hr & He)]; [left; by apply landed_left|right]. exists def, r. by rewrite elem_of_app; auto. Qed.

Lemma copied wt repo branch : traced (extractSnapshotToWorkspace reply wt repo) (λ e n, e = None → landed branch repo wt n).
Proof.
  unfold extractSnapshotToWorkspace, dircp_Copy. eapply traced_bind; [apply traced_Run|]. intros e n (r & -> & ->). destruct (r_err r).
  - eapply (traced_bind _ _ (λ e n, e = None → landed branch repo wt n)).
    + eapply traced_bind; [apply traced_Run|]. intros e' n' (r' & -> & ->). destruct (r_err r') eqn:E'.
      * eapply traced_weaken; [apply traced_Run|]. intros e2 n2 (r2 & -> & ->) E2. eapply (landed_copied _ _ _ _ (CopyGo wt repo) r2); [right; right; left| |done]. right. left.
      * apply traced_ret. intros _. eapply (landed_copied _ _ _ _ _ r'); [right; left| |done]. left.
    + intros [err|] n' Hn; [by apply traced_ret|]. eapply traced_bind; [apply traced_Run|]. intros e2 n2 (r2 & -> & ->). apply traced_ret. intros _.
      apply landed_right. rewrite app_nil_r. by apply landed_left, Hn.
  - eapply traced_bind; [apply traced_Combined|]. intros x n' (r' & -> & ->). apply traced_ret. destruct (r_err r') eqn:E'; [done|]. intros _.
    eapply (landed_copied _ _ _ _ _ r'); [left| |done]. right. left.
Qed.

Lemma ahead_traced wt def : traced (HasCommitsAheadOf reply wt def) (λ a n, ∃ r, n = [(count_call wt def, r)] ∧
  match a with
  | Ok true => True
  | _ => r_err r ≠ None ∨ r_err r = None ∧ Atoi_value (TrimSpace (r_stdout r)) <= 0
  end).
Proof.
  unfold HasCommitsAheadOf. eapply traced_bind; [apply traced_Output|]. intros x n (r & -> & ->). apply traced_ret. exists r. split; [done|].
  destruct (r_err r); [by left|]. destruct (Z.ltb_spec 0 (Atoi_value (TrimSpace (r_stdout r)))); [done|]. by right.
Qed.

Lemma merge_merges repo branch def m :
  ptraced (merge_one sch reply id repo branch def m)
    (λ res n, is_ok res = true → ∃ n1 r n2, n = (n1 ++ [(Git repo ["merge"; "--ff-only"; branch], r)] ++ n2)%list ∧ r_err r = None).
Proof.
  unfold merge_one. apply ptraced_skip; [apply ptraced_onW|intros _]. eapply ptraced_bind; [apply ptraced_onH, merge_traced|]. intros [err|] n Hn; [by apply ptraced_ret|].
  destruct (Hn eq_refl) as (pre & r' & post & -> & Hr').
  assert (∀ n', ∃ n1 q n2, ((pre ++ [(Git repo ["merge"; "--ff-only"; branch], r')] ++ post) ++ n')%list =
    (n1 ++ [(Git repo ["merge"; "--ff-only"; branch], q)] ++ n2)%list ∧ r_err q = None) as Hfin.
  { intros n'. exists pre, r', (post ++ n')%list. by rewrite <-!app_assoc. }
  apply ptraced_any; [unfold GetCommitHash; only_tac; done|]. intros [hash|e] n'; [|apply ptraced_ret; intros _; apply Hfin].
  destruct (slice hash 0 8); [|by apply ptraced_ret]. apply ptraced_skip; [apply ptraced_onW|intros _]. apply ptraced_ret. intros _. apply Hfin.
Qed.

(** One repository that is not an error has landed. *)
Lemma one_lands repo wt branch sid m :
  ptraced (rebaseAndMergeOne sch tbl reply ConflictResolutionPrompt resolver id repo wt branch sid m) (λ r n, is_ok r = true → fate branch repo wt n).
Proof.
  unfold rebaseAndMergeOne. apply ptraced_any; [unfold is_snapshot, IsGitRepo, HasCommits; only_tac; done|]. intros snap n0. destruct snap.
  - unfold extract_one. apply ptraced_skip; [apply ptraced_onW|intros _]. apply ptraced_any.
    { unfold SnapshotDiff. only_tac; try done. eapply traced_weaken; [apply spares_untracked|]. intros ? ? _. by apply Forall_true. }
    intros diff n1. eapply ptraced_bind; [apply ptraced_onH, (copied wt repo branch)|]. intros [err|] n2 Hn; [by apply ptraced_ret|].
    apply ptraced_any; [unfold GetCommitHash; only_tac; done|]. intros r n3. apply ptraced_skip; [apply ptraced_onW|intros _].
    apply ptraced_ret. intros _. apply fate_right, fate_right, fate_left. left. by apply Hn.
  - apply ptraced_any; [by apply only_DefaultBranch|]. intros def n1. apply ptraced_any; [unfold GetCommitHashForRef; only_tac; done|]. intros base n2.
    eapply ptraced_bind; [apply ptraced_onH, ahead_traced|]. intros ahead n3 (r & -> & Hr). destruct ahead as [[|]|e]; cbn [negb].
    2,3: apply ptraced_skip; [apply ptraced_onW|intros _]; apply ptraced_ret; intros _; rewrite app_nil_r;
      apply fate_right, fate_right, fate_right; destruct Hr as [Hr|[Hr Hz]]; [right; by eexists _, r; split; [left|]|left; by eapply landed_nothing; [left|..]].
    eapply ptraced_bind; [apply loop_rebases; [lia|done]|]. intros [err|] n4 Hn; [by apply ptraced_ret|]. destruct (Hn eq_refl) as (n5 & d & r1 & -> & Hr1).
    eapply ptraced_weaken; [apply merge_merges|]. intros res n6 Hres Hok. destruct (Hres Hok) as (n7 & r2 & n8 & -> & Hr2). apply fate_right, fate_right, fate_right, fate_right.
    left. eapply (landed_merged _ _ _ _ n5 n7 n8 d r1 r2); [|done..]. by rewrite <-!app_assoc.
Qed.

Lemma all_land l total gone branch sid m : (∀ x, x ∈ l → outside x.1) →
  ptraced (merge_all sch tbl reply ConflictResolutionPrompt resolver id l total gone branch sid m)
    (λ r n, Forall spares n.*1 ∧ (is_ok r = true → ∀ repo wt, (repo, wt) ∈ l → fate branch repo wt n)).
Proof.
  revert gone m. induction l as [|[repo wt] l IH]; intros gone m Ho; cbn [merge_all].
  { apply ptraced_ret. split; [constructor|]. by intros _ repo wt ?%not_elem_of_nil. }
  assert (∀ x, x ∈ l → outside x.1) as Ho' by (intros x Hx; apply Ho; by right).
  eapply ptraced_bind; [apply ptraced_onH, traced_ask|]. intros s n ->. destruct (bool_decide_reflect (r_err s = None)) as [Hs|Hs]; cbn [negb].
  - eapply ptraced_bind; [apply ptraced_and; [apply (spares_one repo wt branch sid m), (Ho (repo, wt)); by left|apply one_lands]|].
    intros r n [Hsp Hl]. cbv beta in Hsp. destruct r as [m'|e].
    + eapply ptraced_weaken; [apply IH, Ho'|]. intros r n' [Hsp' Hl']. rewrite !fmap_app, !Forall_app. split; [split; [|by split]; by repeat constructor; auto|].
      intros Hok repo' wt' [E|Hin]%elem_of_cons; [simplify_eq; apply fate_right, fate_left, Hl; done|]. apply fate_right, fate_right. by apply Hl'.
    + apply ptraced_ret. split; [|done]. rewrite app_nil_r, fmap_app, Forall_app. split; [by repeat constructor; auto|done].
  - eapply ptraced_weaken; [apply IH, Ho'|]. intros r n' [Hsp' Hl']. rewrite fmap_app, Forall_app. split; [split; [by repeat constructor; auto|done]|].
    intros Hok repo' wt' [E|Hin]%elem_of_cons; [simplify_eq; apply fate_left; left; by eapply landed_gone; [left|]|]. apply fate_right. by apply Hl'.
Qed.

Hypothesis covers : ∀ ph m r, is_Some (m !! r) → r ∈ ranged ph m.

Lemma paths_of_elem ph m repo wt : (repo, wt) ∈ paths_of ranged ph m ↔ m !! repo = Some wt ∧ repo ∈ ranged ph m.
Proof.
  unfold paths_of. rewrite list_elem_of_omap. split.
  - intros (r & Hr & E). destruct (m !! r) as [w|] eqn:Em; simplify_eq/=. done.
  - intros [Hm Hr]. exists repo. by rewrite Hm.
Qed.

Lemma paths_of_covers ph m repo wt : m !! repo = Some wt → (repo, wt) ∈ paths_of ranged ph m.
Proof. intros Hm. apply paths_of_elem. split; [done|]. apply covers. eauto. Qed.

(** Everything in the last phase only adds calls. *)
Lemma any_signals name pids : only (λ _, True) (signal_all reply name pids).
Proof. induction pids as [|pid pids IH]; cbn [signal_all]; only_tac; done. Qed.

Lemma any_removals l branch : only (λ _, True) (remove_worktrees reply l branch).
Proof. induction l as [|[repo wt] l IH]; cbn [remove_worktrees]; unfold is_snapshot, IsGitRepo, HasCommits, RemoveWorktree; only_tac; done. Qed.

Lemma any_cleanup paths branch : ponly (λ _, True) (cleanupWorktrees sch reply ranged worktreesDir self id paths branch).
Proof.
  unfold cleanupWorktrees, span_start, span_end, killWorktreeProcesses. ponly_tac; only_tac; auto using any_removals, any_signals.
Qed.

Lemma any_push paths : ponly (λ _, True) (maybeAutoPush sch reply ranged auto_push id paths).
Proof.
  unfold maybeAutoPush. destruct auto_push as [t|]; [|ponly_tac]. generalize (if Z.leb t 0 then 1 else t) as th. intros th.
  induction (paths_of ranged Pushing paths) as [|[repo wt] l IH]; cbn [push_all]; [ponly_tac|]. apply ponly_bind; [|by intros _].
  unfold push_one, IsGitRepo, WorkspaceStatus, output_or, count_of, RemoteDefaultBranch, origin_head, system, span_start, span_end, error_event, output_or.
  ponly_tac; only_tac; done.
Qed.

Lemma ptraced_then {A C} (m : P (B:=B) A) (k : A → P (B:=B) C) (φ : C → Prop) :
  ponly (λ _, True) m → (∀ a, ptraced (k a) (λ c _, φ c)) → ptraced (m ≫= k) (λ c _, φ c).
Proof. intros Hm Hk. eapply ptraced_bind; [exact Hm|]. intros a n _. apply Hk. Qed.

(** How the pipeline ends. *)
Definition commit_trace branch (paths : gmap string string) (e : option pipe_error) (n : history) : Prop :=
  match e with
  | Some _ => Forall spares n.*1
  | None => ∃ n1 n2, n = (n1 ++ n2)%list ∧ Forall spares n1.*1 ∧ ∀ repo wt, paths !! repo = Some wt → landed branch repo wt n1 ∨ uncounted wt n1
  end.

Lemma commit_traced sid paths branch : (∀ repo, is_Some (paths !! repo) → outside repo) →
  ptraced (commit sch tbl reply ranged ctx_err CommitMessagePrompt ConflictResolutionPrompt inProcess runAgent native_agent resolver auto_push worktreesDir self
    id sid paths branch) (commit_trace branch paths).
Proof.
  intros Ho. unfold commit. do 3 (apply ptraced_skip; [apply ptraced_onW|intros ?]). eapply ptraced_bind; [apply spares_host|]. intros r n Hn. cbv beta in Hn.
  apply ptraced_skip; [apply ptraced_onW|intros _]. destruct r as [b|e].
  2: { apply ptraced_skip; [apply ptraced_onW|intros _]. apply ptraced_ret. cbn. by rewrite app_nil_r. }
  do 2 (apply ptraced_skip; [apply ptraced_onW|intros _]). unfold rebaseAndMerge. eapply ptraced_bind; [apply all_land|].
  { intros [repo wt] [Hx _]%paths_of_elem. apply Ho. eauto. }
  intros r n' [Hn' Hl]. assert (Forall spares (n ++ n')%list.*1) as Hs by (rewrite fmap_app; by apply Forall_app).
  destruct r as [m|[g msg|]]; [|do 2 (apply ptraced_skip; [apply ptraced_onW|intros _])|]; [|apply ptraced_ret; cbn; by rewrite app_nil_r..].
  eapply (ptraced_weaken _ (λ e _, e = None)); [|intros e n2 ->; exists (n ++ n')%list, n2; rewrite app_assoc; split; [done|]; split; [done|];
    intros repo wt Hw; apply fate_right, Hl; [done|by apply paths_of_covers]].
  repeat (apply ptraced_then; [first [apply any_cleanup|apply any_push|apply ponly_onW|solve [unfold save_results; ponly_tac]]|intros _]). by apply ptraced_ret.
Qed.
End spared.

(** C5: The commit pipeline removes nothing before the work has landed, unless git
    fails to count commits.  Whatever git, the disk, the agents and the conflict
    resolver answer and whatever other goroutines do to the store: if it fails, it has
    removed no worktree and no branch of the task, has not removed the task's
    directory and has pushed nothing; if it succeeds, then before any of that every
    worktree could not be found, was copied back, had no commit to merge by git's
    count, or was rebased and then merged into the default branch - or git failed to
    count its commits, and then the work is lost (CommitRun.uncounted_commits_lost). *)
Theorem commit_keeps_work `{UUIDLib} {B : Type} `{!StorageBackend B} (sch : Schedule B) tbl reply ranged ctx_err CommitMessagePrompt ConflictResolutionPrompt
    inProcess runAgent native_agent resolver auto_push worktreesDir self id sid paths branch :
  (∀ ph m r, is_Some (m !! r) → r ∈ ranged ph m) → (∀ repo, is_Some (paths !! repo) → path_Join [repo; ".git"] ≠ task_dir worktreesDir id) →
  ptraced (commit sch tbl reply ranged ctx_err CommitMessagePrompt ConflictResolutionPrompt inProcess runAgent native_agent resolver auto_push worktreesDir self
    id sid paths branch) (commit_trace worktreesDir id branch paths).
Proof. intros Hc Ho. by apply (commit_traced _ _ _ _ _ _ _ _ _ _ _ _ _ _ _ (λ repo, path_Join [repo; ".git"] ≠ task_dir worktreesDir id)). Qed.

(** ** Staging *)

Section staging.
Context `{UUIDLib} {B : Type} `{!StorageBackend B} (sch : Schedule B) (reply : history → call → Reply).
Context (ranged : phase → gmap string string → list string) (ctx_err : history → option string).
Context (CommitMessagePrompt : string → string → string → string).
Context (inProcess : Task → bool) (runAgent native_agent : history → string → result string string) (id : uuid).
#[local] Existing Instances P_ret P_bind.

Definition commit_call (wt : string) (o : list string) (msg : string) : call := New "git" (["-C"; wt] ++ o ++ ["commit"; "-m"; msg])%list.

(** The commands that stage and commit. *)
Definition staging_call (c : call) : Prop :=
  (∃ wt, c = Git wt ["add"; "-A"]) ∨ (∃ wt, c = Git wt ["status"; "--porcelain"]) ∨ (∃ wt o msg, c = commit_call wt o msg).

Definition reliable (n : history) : Prop := Forall (λ x, staging_call x.1 → ok x) n.

(** All files of the worktree were staged. *)
Definition staged (wt : string) (n : history) : Prop := ∃ r, (Git wt ["add"; "-A"], r) ∈ n ∧ r_err r = None.

(** The worktree is missing or no repository; or everything in it was staged and
    then git reported no change, or the staged changes were committed. *)
Inductive handled (wt : string) (n : history) : Prop :=
| handled_absent c r : c ∈ [Stat wt; Git wt ["rev-parse"; "--git-dir"]] → (c, r) ∈ n → r_err r ≠ None → handled wt n
| handled_clean n1 n2 r : n = (n1 ++ [(Git wt ["status"; "--porcelain"], r)] ++ n2)%list → staged wt n1 →
    r_err r = None → TrimSpace (r_stdout r) = EmptyString → handled wt n
| handled_committed n1 n2 o msg r : n = (n1 ++ [(commit_call wt o msg, r)] ++ n2)%list → staged wt n1 → r_err r = None → handled wt n.

Lemma staged_app wt n1 n n2 : staged wt n → staged wt (n1 ++ n ++ n2)%list.
Proof. intros (r & Hr & E). exists r. split; [|done]. rewrite !elem_of_app. auto. Qed.

Lemma staged_right wt n1 n : staged wt n → staged wt (n1 ++ n)%list.
Proof. intros Hs. apply (staged_app wt n1 n []) in Hs. by rewrite app_nil_r in Hs. Qed.

Lemma handled_app wt n1 n n2 : handled wt n → handled wt (n1 ++ n ++ n2)%list.
Proof.
  intros [c r Hc Hin He|m1 m2 r -> Hs He Hz|m1 m2 o msg r -> Hs He].
  - apply (handled_absent _ _ c r); [done|rewrite !elem_of_app; auto|done].
  - apply (handled_clean _ _ (n1 ++ m1) (m2 ++ n2) r); [by rewrite <-!app_assoc|by apply staged_right|done..].
  - apply (handled_committed _ _ (n1 ++ m1) (m2 ++ n2) o msg r); [by rewrite <-!app_assoc|by apply staged_right|done].
Qed.

Lemma handled_right wt n1 n : handled wt n → handled wt (n1 ++ n)%list.
Proof. intros Hh. apply (handled_app wt n1 n []) in Hh. by rewrite app_nil_r in Hh. Qed.

Lemma handled_left wt n n2 : handled wt n → handled wt (n ++ n2)%list.
Proof. apply (handled_app wt []). Qed.

(** A worktree that waits for its commit. *)
Definition waits (wt : string) (st : staging) : Prop := ∃ p, p ∈ pending st ∧ p_worktreePath p = wt.

Lemma any_instructions wt f : only (λ _, True) (drop_instructions reply wt f).
Proof. unfold drop_instructions. only_tac; done. Qed.

Lemma stage_one_traced repo wt st : traced (stage_one reply ctx_err repo wt st) (λ res n,
  match res with Ok st' => (∀ x, waits x st → waits x st') ∧ (reliable n → handled wt n ∨ waits wt st' ∧ staged wt n) | Err _ => True end).
Proof.
  unfold stage_one. eapply traced_bind; [apply traced_ask|]. intros s n ->. destruct (bool_decide_reflect (r_err s = None)) as [Hs|Hs]; cbn [negb].
  2: { apply traced_ret. split; [done|]. intros _. left. apply (handled_absent _ _ (Stat wt) s); [left|left|done]. }
  eapply traced_bind; [apply traced_succeeds|]. intros g n (r & -> & Hg). destruct g; cbn [negb].
  2: { apply traced_ret. split; [done|]. intros _. left. eapply (handled_absent _ _ _ r); [right; left|right; left|].
    intros E. by apply Hg in E. }
  do 2 (eapply (traced_bind _ _ (λ _ _, True)); [eapply traced_weaken; [apply any_instructions|done]|intros _ ? _]).
  eapply traced_bind; [apply traced_Combined|]. intros x n2 (r2 & -> & ->). destruct (r_err r2) as [e|] eqn:E2.
  { eapply (traced_bind _ _ (λ _ n, n = [])); [intros h; exists []; by rewrite app_nil_r|]. intros [c|] n3 ->; apply traced_ret; [done|]. split; [done|].
    intros Hr. exfalso. unfold reliable in Hr. rewrite !Forall_app in Hr. destruct Hr as (_ & _ & _ & _ & Hr & _). apply Forall_cons in Hr as [Hr _].
    unfold ok in Hr. simpl in Hr. rewrite E2 in Hr. assert (Some e = None); [|done]. apply Hr. left. by exists wt. }
  unfold HasChanges at 1. eapply (traced_bind _ _ (λ c n, ∃ r, n = [(Git wt ["status"; "--porcelain"], r)] ∧
    c = match r_err r with None => Ok (negb (bool_decide (TrimSpace (r_stdout r) = EmptyString))) | Some err => Err err end)).
  { eapply traced_bind; [apply traced_Output|]. intros x n3 (r3 & -> & ->). apply traced_ret. exists r3. split; [done|]. by destruct (r_err r3). }
  intros c n3 (r3 & -> & ->). destruct (r_err r3) as [e|] eqn:E3.
  { apply traced_ret. split; [done|]. intros Hr. exfalso. unfold reliable in Hr. rewrite !Forall_app in Hr. destruct Hr as (_ & _ & _ & _ & _ & Hr & _).
    apply Forall_cons in Hr as [Hr _]. unfold ok in Hr. simpl in Hr. rewrite E3 in Hr. assert (Some e = None); [|done]. apply Hr. right. left. by exists wt. }
  destruct (bool_decide_reflect (TrimSpace (r_stdout r3) = EmptyString)) as [Hc|Hc]; cbn [negb].
  - apply traced_ret. split; [done|]. intros _. left. do 4 apply handled_right.
    eapply (handled_clean _ _ [_] [] r3); [reflexivity|by exists r2; split; [left|]|done..].
  - eapply (traced_bind _ _ (λ _ _, True)); [eapply traced_weaken; [apply traced_Output|done]|intros stat ? _].
    eapply (traced_bind _ _ (λ _ _, True)); [eapply traced_weaken; [apply traced_Output|done]|intros log ? _]. apply traced_ret. split.
    + intros y (p & Hp & Hy). exists p. split; [|done]. simpl. apply elem_of_app. by left.
    + intros _. right. split; [eexists; split; [simpl; apply elem_of_app; right; left|done]|].
      do 4 apply staged_right. by exists r2; split; [left|].
Qed.

Lemma reliable_app n1 n2 : reliable (n1 ++ n2)%list ↔ reliable n1 ∧ reliable n2.
Proof. apply Forall_app. Qed.

Lemma stage_all_traced l st : traced (stage_all reply ctx_err l st) (λ res n,
  match res with
  | Ok st' => (∀ x, waits x st → waits x st') ∧ (reliable n → ∀ repo wt, (repo, wt) ∈ l → handled wt n ∨ waits wt st' ∧ staged wt n)
  | Err _ => True
  end).
Proof.
  revert st. induction l as [|[repo wt] l IH]; intros st; cbn [stage_all].
  { apply traced_ret. split; [done|]. by intros _ repo wt ?%not_elem_of_nil. }
  eapply traced_bind; [apply stage_one_traced|]. intros [st1|e] n Hn; [|by apply traced_ret]. destruct Hn as [Hm Hw].
  eapply traced_weaken; [apply IH|]. intros [st2|e] n' Hn'; [|done]. destruct Hn' as [Hm' Hw']. split; [auto|].
  intros [Hr Hr']%reliable_app repo' wt' [E|Hin]%elem_of_cons.
  - simplify_eq. destruct (Hw Hr) as [?|[? ?]]; [left; by apply handled_left|right; split; [auto|by apply (staged_app _ [])]].
  - destruct (Hw' Hr' _ _ Hin) as [?|[? ?]]; [left; by apply handled_right|right; split; [done|by apply staged_right]].
Qed.

Lemma commit_all_traced o msg l committed es : traced (commit_all reply ctx_err o msg l committed es) (λ res n,
  is_ok res = true → reliable n → ∀ p, p ∈ l →
    ∃ n1 n2 r, n = (n1 ++ [(commit_call (p_worktreePath p) o msg, r)] ++ n2)%list ∧ r_err r = None).
Proof.
  revert committed es. induction l as [|p l IH]; intros committed es; cbn [commit_all].
  { apply traced_ret. by intros _ _ p ?%not_elem_of_nil. }
  eapply traced_bind; [apply traced_Combined|]. intros x n (r & -> & ->). destruct (r_err r) as [e|] eqn:Er.
  - eapply (traced_bind _ _ (λ _ n, n = [])); [intros h; exists []; by rewrite app_nil_r|]. intros [c|] n3 ->; [by apply traced_ret|].
    eapply traced_weaken; [apply IH|]. intros res n _ _ [Hr _]%reliable_app. apply Forall_cons in Hr as [Hr _]. exfalso. unfold ok in Hr. simpl in Hr. rewrite Er in Hr.
    assert (Some e = None); [|done]. apply Hr. right. right. by exists (p_worktreePath p), o, msg.
  - eapply traced_weaken; [apply IH|]. intros res n Hn Hok [_ Hr]%reliable_app p' [-> |Hp]%elem_of_cons.
    + by exists [], n, r.
    + destruct (Hn Hok Hr p' Hp) as (n1 & n2 & r' & -> & Hr'). by eexists (_ :: n1), n2, r'.
Qed.

Hypothesis covers : ∀ ph m r, is_Some (m !! r) → r ∈ ranged ph m.

Lemma any_generate prompt stats logs :
  ponly (λ _, True) (generateCommitMessage sch reply CommitMessagePrompt inProcess runAgent native_agent id prompt stats logs).
Proof. unfold generateCommitMessage, generateCommitMessageInProcess. ponly_tac; only_tac; done. Qed.

Lemma host_traced paths prompt :
  ptraced (hostStageAndCommit sch reply ranged ctx_err CommitMessagePrompt inProcess runAgent native_agent id paths prompt)
    (λ res n, is_ok res = true → reliable n → ∀ repo wt, paths !! repo = Some wt → handled wt n).
Proof.
  unfold hostStageAndCommit. destruct (decide _); [by apply ptraced_ret|]. eapply ptraced_bind; [apply ptraced_onH, stage_all_traced|].
  intros [st|e] n1 Hn; [|by apply ptraced_ret]. destruct Hn as [_ Hw].
  assert (reliable n1 → ∀ repo wt, paths !! repo = Some wt → handled wt n1 ∨ waits wt st ∧ staged wt n1) as Hw'.
  { intros Hr repo wt Hp. apply (Hw Hr repo). by apply paths_of_covers. }
  destruct (decide (length (pending st) = 0%nat)) as [E|E].
  { apply ptraced_ret. rewrite app_nil_r. intros _ Hr repo wt Hp. destruct (Hw' Hr repo wt Hp) as [?|[(p & Hp' & _) _]]; [done|].
    apply nil_length_inv in E. rewrite E in Hp'. by apply not_elem_of_nil in Hp'. }
  eapply ptraced_bind; [apply any_generate|]. intros [msg|e] n2 _; [|by apply ptraced_ret]. apply ptraced_skip; [apply ptraced_onW|intros _].
  apply ptraced_any; [unfold GlobalIdentityOverrides; only_tac; done|]. intros o n3. eapply ptraced_bind; [apply ptraced_onH, commit_all_traced|].
  intros c n4 Hc. apply ptraced_ret. rewrite app_nil_r. intros Hok Hr repo wt Hp. rewrite !reliable_app in Hr. destruct Hr as (Hr1 & _ & _ & Hr4).
  destruct (Hw' Hr1 repo wt Hp) as [?|[(p & Hp' & <-) Hs]]; [by apply handled_left|].
  destruct (Hc (ltac:(by destruct c as [[]|])) Hr4 p Hp') as (m1 & m2 & r & -> & Hr).
  eapply (handled_committed _ _ (n1 ++ n2 ++ n3 ++ m1) m2 o msg r); [by rewrite <-!app_assoc|by apply (staged_app _ [])|done].
Qed.
End staging.

(** C21: Staging leaves no change behind.  If the first phase succeeds and git did not
    fail to stage, to report the status or to commit, then every worktree of the task
    was missing or git did not find a repository in it, or all its files were staged
    with [git add -A] and after that git reported no change or the changes were
    committed. *)
Theorem staging_complete `{UUIDLib} {B : Type} `{!StorageBackend B} (sch : Schedule B) reply ranged ctx_err CommitMessagePrompt
    inProcess runAgent native_agent id paths prompt : (∀ ph m r, is_Some (m !! r) → r ∈ ranged ph m) →
  ptraced (hostStageAndCommit sch reply ranged ctx_err CommitMessagePrompt inProcess runAgent native_agent id paths prompt)
    (λ res n, is_ok res = true → reliable n → ∀ repo wt, paths !! repo = Some wt → handled wt n).
Proof. intros Hc. by apply host_traced. Qed.

(** ** Worktrees *)

Section worktrees.
Context `{UUIDLib} {B : Type} `{!StorageBackend B} (sch : Schedule B) (reply : history → call → Reply).
Context (ranged : phase → gmap string string → list string) (worktreesDir : string) (self : Z) (id : uuid).
#[local] Existing Instances P_ret P_bind.

(** The command that made the worktree of a workspace, or found that it is one. *)
Definition makes (branch ws wt : string) (c : call) : Prop :=
  c ∈ [Git wt ["rev-parse"; "--git-dir"]; Git ws ["worktree"; "add"; "--force"; wt; branch]; Git ws ["worktree"; "add"; "-b"; branch; wt; "HEAD"];
       Git wt ["commit"; "--allow-empty"; "-m"; "wallfacer: initial snapshot"]].

Definition ready (branch ws wt : string) (n : history) : Prop := ∃ c r, (c, r) ∈ n ∧ makes branch ws wt c ∧ r_err r = None.

Lemma ready_right branch ws wt n1 n : ready branch ws wt n → ready branch ws wt (n1 ++ n)%list.
Proof. intros (c & r & Hin & Hc). exists c, r. split; [|done]. apply elem_of_app. by right. Qed.

Lemma ready_left branch ws wt n n2 : ready branch ws wt n → ready branch ws wt (n ++ n2)%list.
Proof. intros (c & r & Hin & Hc). exists c, r. split; [|done]. apply elem_of_app. by left. Qed.

(** A last command. *)
Lemma ready_last branch ws wt c r n : makes branch ws wt c → r_err r = None → ready branch ws wt (n ++ [(c, r)])%list.
Proof. intros Hc Hr. exists c, r. split; [|done]. apply elem_of_app. right. left. Qed.

Lemma attach_ready branch ws wt : traced (attach reply ws wt branch) (λ e n, e = None → ready branch ws wt n).
Proof.
  unfold attach. eapply traced_bind; [apply traced_Combined|]. intros x n (r & -> & ->). apply traced_ret. rewrite app_nil_r. destruct (r_err r) eqn:E; [done|]. intros _.
  apply (ready_last _ _ _ _ _ []); [right; left|done].
Qed.

Lemma create_ready branch ws wt : traced (CreateWorktree reply ws wt branch) (λ e n, e = None → ready branch ws wt n).
Proof.
  unfold CreateWorktree. eapply traced_bind; [apply traced_succeeds|]. intros hd n0 _. destruct hd; cbn [negb]; [|by apply traced_ret].
  eapply traced_bind; [apply traced_succeeds|]. intros ex n1 _.
  assert (∀ n, traced (Run reply (Git ws ["worktree"; "prune"]) ≫= λ _, attach reply ws wt branch) (λ e n', e = None → ready branch ws wt (n ++ n')%list)) as Hat.
  { intros n. eapply traced_bind; [apply traced_Run|]. intros e n' _. eapply traced_weaken; [apply attach_ready|]. intros e' n'' Hn E. do 2 apply ready_right. auto. }
  destruct ex; [eapply traced_weaken; [apply (Hat (n0 ++ n1)%list)|]; intros e n He; by rewrite app_assoc|].
  eapply traced_bind; [apply traced_Combined|]. intros x n2 (r & -> & ->). destruct (r_err r) eqn:E.
  - destruct (already _); [|by apply traced_ret]. eapply traced_weaken; [apply (Hat (n0 ++ n1 ++ [(Git ws ["worktree"; "add"; "-b"; branch; wt; "HEAD"], r)])%list)|].
    intros e n He. cbn beta in He. by rewrite <-!app_assoc in He.
  - apply traced_ret. intros _. do 2 apply ready_right. apply (ready_last _ _ _ _ _ []); [right; right; left|done].
Qed.

Lemma init_ready branch ws wt : traced (InitLocalRepo reply wt "wallfacer@local" "Wallfacer" "wallfacer: initial snapshot") (λ e n, e = None → ready branch ws wt n).
Proof.
  unfold InitLocalRepo. eapply traced_bind; [apply traced_Combined|]. intros x n (r & -> & ->). destruct (r_err r); [by apply traced_ret|].
  do 3 (eapply traced_bind; [apply traced_Run|]; intros [e|] ? _; [by apply traced_ret|]).
  eapply traced_bind; [apply traced_Combined|]. intros x n' (r' & -> & ->). apply traced_ret. destruct (r_err r') eqn:E; [done|]. intros _.
  do 4 apply ready_right. apply (ready_last _ _ _ _ _ []); [right; right; right; left|done].
Qed.

Lemma snapshot_ready branch ws wt : traced (setupNonGitSnapshot reply ws wt) (λ e n, e = None → ready branch ws wt n).
Proof.
  unfold setupNonGitSnapshot. eapply traced_bind; [apply traced_Run|]. intros [e|] n _; [by apply traced_ret|].
  eapply (traced_bind _ _ (λ _ _, True)).
  { eapply (traced_weaken _ (λ _ n, Forall (λ _, True) n.*1)); [|done]. change (only (λ _, True) (dircp_Copy reply ws wt)). unfold dircp_Copy. only_tac; done. }
  intros [e|] n' _.
  { eapply traced_bind; [apply traced_Run|]. intros ? ? _. by apply traced_ret. }
  eapply traced_bind; [apply (init_ready branch ws wt)|]. intros [e|] n'' Hn.
  - eapply traced_bind; [apply traced_Run|]. intros ? ? _. by apply traced_ret.
  - apply traced_ret. intros _. rewrite app_nil_r. do 2 apply ready_right. auto.
Qed.

Lemma one_ready branch ws wt : traced (create_one reply ws wt branch) (λ e n, e = None → ready branch ws wt n).
Proof.
  unfold create_one. eapply traced_bind; [apply traced_succeeds|]. intros g n _. destruct g.
  - eapply traced_bind; [apply (create_ready branch ws wt)|]. intros [[|err]|] n' Hn.
    + eapply traced_bind; [apply (snapshot_ready branch ws wt)|]. intros [e|] n'' Hn''; apply traced_ret; [done|]. intros _. rewrite app_nil_r. do 2 apply ready_right. auto.
    + by apply traced_ret.
    + apply traced_ret. intros _. rewrite app_nil_r. apply ready_right. auto.
  - eapply traced_bind; [apply (snapshot_ready branch ws wt)|]. intros [e|] n'' Hn''; apply traced_ret; [done|]. intros _. rewrite app_nil_r. apply ready_right. auto.
Qed.

Lemma reuse_ready branch ws wt : traced (reuse reply wt) (λ b n, b = true → ready branch ws wt n).
Proof.
  unfold reuse. eapply traced_bind; [apply traced_ask|]. intros s n ->. destruct (negb _); [by apply traced_ret|].
  eapply traced_bind; [apply traced_succeeds|]. intros g n (r & -> & Hg). destruct g.
  - apply traced_ret. intros _. rewrite app_nil_r. apply ready_right, (ready_last _ _ _ _ _ []); [left|by apply Hg].
  - eapply traced_bind; [apply traced_Run|]. intros ? ? _. by apply traced_ret.
Qed.

(** The map of worktrees after a list of workspaces. *)
Definition ensured (branch : string) (repos : list string) (paths paths' : gmap string string) (n : history) : Prop :=
  (∀ ws, is_Some (paths' !! ws) ↔ ws ∈ repos ∨ is_Some (paths !! ws)) ∧
  ∀ ws wt, paths' !! ws = Some wt → ws ∈ repos ∧ ready branch ws wt n ∨ paths !! ws = Some wt.

Lemma ensured_step branch ws wt repos paths paths' n n' :
  ready branch ws wt n → ensured branch repos (<[ws := wt]> paths) paths' n' → ensured branch (ws :: repos) paths paths' (n ++ n')%list.
Proof.
  intros Hr [H1 H2]. split.
  - intros ws'. rewrite H1, elem_of_cons, lookup_insert_is_Some'. intuition congruence.
  - intros ws' wt' Hw. destruct (H2 ws' wt' Hw) as [[Hin Hr']|Hl]; [left; split; [by right|by apply ready_right]|].
    apply lookup_insert_Some in Hl as [[<- <-]|[_ Hl]]; [left; split; [by left|by apply ready_left]|by right].
Qed.

Lemma any_cleanup_of paths branch : ptraced (cleanupWorktrees sch reply ranged worktreesDir self id paths branch) (λ _ _, True).
Proof. eapply ptraced_weaken; [apply any_cleanup|done]. Qed.

Lemma ensure_traced existing branch repos paths created :
  ptraced (ensure_all sch reply ranged worktreesDir self id existing branch repos paths created) (λ res n,
    match res with Ok paths' => ensured branch repos paths paths' n | Err _ => True end).
Proof.
  revert paths created. induction repos as [|ws repos IH]; intros paths created; cbn [ensure_all].
  { apply ptraced_ret. split; [|by auto]. intros ws. split; [by right|]. by intros [?%not_elem_of_nil|?]. }
  set (wt := if decide _ then _ else _).
  eapply ptraced_bind; [apply ptraced_onH, (reuse_ready branch ws wt)|]. intros b n Hb. destruct b.
  { eapply ptraced_weaken; [apply IH|]. intros [paths'|e] n' Hn; [|done]. eapply ensured_step; eauto. }
  eapply ptraced_bind; [apply ptraced_onH, traced_Run|]. intros [e|] n1 _.
  { eapply ptraced_bind; [apply any_cleanup_of|]. intros ? ? _. by apply ptraced_ret. }
  eapply ptraced_bind; [apply ptraced_onH, (one_ready branch ws wt)|]. intros [e|] n2 Hn2.
  { eapply ptraced_bind; [apply any_cleanup_of|]. intros ? ? _. by apply ptraced_ret. }
  eapply ptraced_weaken; [apply IH|]. intros [paths'|e] n' Hn; [|done]. rewrite !app_assoc. eapply ensured_step; [|done]. rewrite <-app_assoc. do 2 apply ready_right. auto.
Qed.
End worktrees.

(** C30: Setting up the worktrees of a task.  If it succeeds, exactly the workspaces
    asked for have a worktree, and each was found to be a repository or made by a
    command that succeeded. *)
Theorem ensure_ready `{UUIDLib} {B : Type} `{!StorageBackend B} (sch : Schedule B) reply ranged worktreesDir self id workspaces existing order branch :
  ptraced (ensureTaskWorktrees sch reply ranged worktreesDir self id workspaces existing order branch) (λ res n,
    match res with
    | Ok (paths, b) => (b = branch ∨ branch = EmptyString) ∧
        ∀ ws, (is_Some (paths !! ws) ↔ ws ∈ (if decide (existing = ∅) then workspaces else order)) ∧
              ∀ wt, paths !! ws = Some wt → ready b ws wt n
    | Err _ => True
    end).
Proof.
  unfold ensureTaskWorktrees. eapply ptraced_bind; [apply ensure_traced|]. intros [paths|e] n Hn; apply ptraced_ret; [|done]. destruct Hn as [H1 H2].
  rewrite app_nil_r. split; [destruct (decide (branch = _)); auto|]. intros ws. split.
  - rewrite H1. rewrite lookup_empty. split; [|intros ?; by left]. intros [?|[? [=]]]. done.
  - intros wt Hw. destruct (H2 ws wt Hw) as [[_ ?]|[=]]. done.
Qed.

(** What pruning removes. *)
Lemma prune_all_spec reply worktreesDir ids entries :
  only (λ c, ∃ name, name ∈ ids ∧ c = RemoveAll (path_Join [worktreesDir; name])) (prune_all reply worktreesDir ids entries).
Proof.
  induction entries as [|[name isdir] rest IH]; cbn [prune_all]; [only_tac|]. apply only_bind; [|done].
  destruct (negb isdir || negb (bool_decide (name ∈ ids))) eqn:E; only_tac.
  apply orb_false_elim in E as [_ E]. apply negb_false_iff, bool_decide_eq_true in E. eauto.
Qed.

(** Pruning removes only the directories of tasks that are archived, done,
    cancelled or deleted, by whatever other goroutines do between its two reads of
    the store; directories of tasks it does not know are left alone. *)
Theorem prune_only_over `{UUIDLib} {B : Type} `{!StorageBackend B} (sch : Schedule B) reply worktreesDir entries del_order (w : World B) h :
  let s1 := w_store (arrive sch w) in
  let s2 := w_store (arrive sch (arrive sch w)) in
  ∃ n, (PruneUnknownWorktrees sch reply worktreesDir entries del_order (w, h)).2.2 = (h ++ n)%list ∧
    ∀ c, c ∈ n.*1 → ∃ i t, c = RemoveAll (path_Join [worktreesDir; uuid_String (ID t)]) ∧
      ((tasks s1 !! i = Some t ∧ prunable t = true) ∨ deleted s2 !! i = Some t).
Proof.
  intros s1 s2. unfold PruneUnknownWorktrees. destruct entries as [entries|]; [|exists []; rewrite app_nil_r; split; [done|]; by intros c ?%not_elem_of_nil].
  unfold mbind, P_bind, onW, read_range, read, onH. cbn.
  set (ids := uuid_String ∘ ID <$> _). destruct (prune_all_spec reply worktreesDir ids entries h) as (n & En & Hn).
  exists n. split; [by destruct (prune_all _ _ _ _ _) eqn:?|].
  intros c Hc. rewrite Forall_forall in Hn. destruct (Hn c Hc) as (name & Hin & ->). unfold ids in Hin.
  apply list_elem_of_fmap in Hin as (t & -> & Ht). apply elem_of_app in Ht as [Ht|Ht].
  - apply list_elem_of_filter in Ht as [Hp Ht]. unfold ListTasks in Ht. rewrite SortFunc_Permutation in Ht. apply list_elem_of_filter in Ht as [_ Ht].
    unfold range_tasks in Ht. apply list_elem_of_omap in Ht as (i & _ & Hi). exists i, t. auto.
  - unfold ListDeletedTasks in Ht. rewrite SortFunc_Permutation in Ht. apply list_elem_of_omap in Ht as (i & _ & Hi). exists i, t. auto.
Qed.
