(* ===== verification/Recovery.v ===== *)
(** * Recovery after a restart, and the care of worktrees

    internal/runner/recovery.go and worktree_gc.go.  At start-up the tasks that were
    running or committing are settled by what git and the container runtime report;
    a container that still runs is watched until it stops.  In the background one
    watcher restores the worktrees of live tasks and another removes those of
    finished ones.  The functions run in the monad of CommitPipeline, over the
    store with its other goroutines and the history of calls.

    [order] is the order in which the worktrees of a task are ranged over, [lister]
    what the container runtime answers as time goes by, [readdir] what a directory
    holds. *)

From S2P Require Import Prelude GoStrings GoText PkgUtil TaskModel Backend Store StoreUpdate StoreQuery World GoTime GitExec CommitPipeline.
From Stdlib Require Import String.
From stdpp Require Import list gmap.
Local Open Scope Z_scope.
Local Open Scope string_scope.

Record ContainerInfo := MkContainer {
  ci_ID : string;
  ci_Name : string;
  ci_TaskID : string;
  ci_TaskTitle : string;
  ci_Image : string;
  ci_State : string;
  ci_Status : string;
  ci_CreatedAt : Z
}.

Definition TriggerRecovery : Trigger := "recovery".

(** The text of the error of a path that does not exist ends so. *)
Definition os_IsNotExist (err : string) : bool := HasSuffix err "no such file or directory".

(** The task IDs of the containers that run; without an answer there are none. *)
Definition runningContainers (answer : result string (list ContainerInfo)) : list string :=
  match answer with
  | Err _ => []
  | Ok cs => ci_TaskID <$> filter (λ c, ci_State c = "running" ∧ ci_TaskID c ≠ EmptyString) cs
  end.

(** What ends or moves the monitor of a container: the server stops, the safety
    timeout passes, or it is time to ask again. *)
Inductive monitor_event := Cancelled | Deadline | Polled.

Section recovery.
Context `{UUIDLib} {B : Type} `{!StorageBackend B}.
Variables (sch : Schedule B) (reply : history → call → Reply).
Variables (order : history → gmap string string → list string) (ranged : phase → gmap string string → list string).
Variables (lister : nat → result string (list ContainerInfo)) (readdir : history → string → result string (list (string * bool))).
Variables (ctx_err : history → option string) (worktreesDir : string) (self : Z) (workspaces : list string) (has_store : bool).
#[local] Existing Instances P_ret P_bind.

Abbreviation P := (P (B:=B)).
Abbreviation ask c := (GitExec.ask reply c).
Abbreviation Run c := (GitExec.Run reply c).

Definition worktrees_of (h : history) (t : Task) : list (string * string) := omap (λ r, pair r <$> WorktreePaths t !! r) (order h (WorktreePaths t)).

(** ** Missing worktrees *)

Fixpoint missing_from (l : list (string * string)) (missing : list string) : H (list string) :=
  match l with
  | [] => mret missing
  | (repo, wt) :: rest =>
    if decide (wt = EmptyString) then missing_from rest (missing ++ [repo])%list
    else s ← ask (Stat wt); missing_from rest (if bool_decide (r_err s = None) then missing else missing ++ [repo])%list
  end.

Definition missingRecoveryWorktrees (t : Task) : H (list string) := λ h, missing_from (worktrees_of h t) [] h.

Definition force (id : uuid) (st : TaskStatus) : P unit := onW (quiet sch (λ n1 n2, ForceUpdateTaskStatus n1 n2 id st)).
Definition changed (id : uuid) (from to : TaskStatus) (trigger : Trigger) : P unit := onW (state_change sch no_actor id from to trigger).

Definition markTaskFailedForMissingWorktrees (t : Task) (from : TaskStatus) (trigger : Trigger) : P unit :=
  m ← onH (missingRecoveryWorktrees t);
  force (ID t) TaskStatusFailed ;;
  onW (quiet sch (λ n _, SetTaskFailureCategory n (ID t) FailureCategoryWorktree)) ;;
  error_event sch (ID t) ("task worktree missing for: " +:+ strings_Join m ", ") ;;
  changed (ID t) from TaskStatusFailed trigger.

(** ** Tasks that were committing *)

(** Whether the branch has a commit that is newer than the task. *)
Definition tip_after (t : Task) (repo : string) : H bool :=
  r ← BranchTipCommit reply repo (BranchName t);
  mret (match r with Ok (_, _, ts) => Z.ltb (UpdatedAt t) ts | Err _ => false end).

Fixpoint commit_landed (t : Task) (repos : list string) : H bool :=
  match repos with
  | [] => mret false
  | repo :: rest => a ← tip_after t repo; if (a : bool) then mret true else commit_landed t rest
  end.

Definition recover_committing (t : Task) : P unit :=
  landed ← onH (λ h, commit_landed t (worktrees_of h t).*1 h);
  if (landed : bool) then
    force (ID t) TaskStatusDone ;;
    system sch (ID t) "server restarted after commit completed; auto-recovered to done" ;;
    changed (ID t) TaskStatusCommitting TaskStatusDone TriggerRecovery
  else
    force (ID t) TaskStatusFailed ;;
    error_event sch (ID t) "server restarted during commit" ;;
    changed (ID t) TaskStatusCommitting TaskStatusFailed TriggerRecovery.

(** ** Tasks that were running *)

(** The common end: failed without its worktrees, else waiting. *)
Definition settle (t : Task) (text : string) : P unit :=
  m ← onH (missingRecoveryWorktrees t);
  if decide (m = []) then
    force (ID t) TaskStatusWaiting ;;
    system sch (ID t) text ;;
    changed (ID t) TaskStatusInProgress TaskStatusWaiting TriggerRecovery
  else markTaskFailedForMissingWorktrees t TaskStatusInProgress TriggerRecovery.

(** Whether a monitor is started. *)
Definition recover_in_progress (running : list string) (t : Task) : P bool :=
  if decide (uuid_String (ID t) ∈ running) then
    system sch (ID t) ("Server restarted while task was running. Container is still active " +:+ emdash +:+ " monitoring for completion.") ;;
    mret true
  else
    settle t ("Server restarted while task was running. Container is no longer active " +:+ emdash +:+
      " please review the output and decide whether to continue or mark as done.") ;;
    mret false.

Definition recover_one (running : list string) (t : Task) : P bool :=
  if decide (Status t = TaskStatusCommitting) then recover_committing t ;; mret false
  else if decide (Status t = TaskStatusInProgress) then recover_in_progress running t
  else mret false.

(** The tasks that are monitored. *)
Fixpoint recover_all (running : list string) (ts : list Task) (monitored : list uuid) : P (list uuid) :=
  match ts with
  | [] => mret monitored
  | t :: rest =>
    m ← recover_one running t;
    recover_all running rest (if (m : bool) then monitored ++ [ID t] else monitored)%list
  end.

(** ** Worktrees of tasks that are over *)

Fixpoint scan_entries (entries : list (string * bool)) (orphans : list uuid) : P (list uuid) :=
  match entries with
  | [] => mret orphans
  | (name, isdir) :: rest =>
    if negb isdir then scan_entries rest orphans
    else match uuid_Parse name with
         | None => scan_entries rest orphans
         | Some id =>
           r ← onW (get_task sch id);
           scan_entries rest (match r with
                              | Ok t => if prunable t then orphans ++ [id] else orphans
                              | Err _ => orphans
                              end)%list
         end
  end.

Definition ScanOrphanedWorktrees : P (result string (list uuid)) :=
  if negb has_store then mret (Ok [])
  else
    r ← consult (λ h, readdir h worktreesDir);
    match r with
    | Err e => mret (if os_IsNotExist e then Ok [] else Err e)
    | Ok entries => l ← scan_entries entries []; mret (Ok l)
    end.

Definition basenames : gmap string string := foldl (λ m ws, <[path_Base ws := ws]> m) ∅ workspaces.

Fixpoint remove_subdirs (taskDir : string) (subs : list (string * bool)) : H unit :=
  match subs with
  | [] => mret tt
  | (name, isdir) :: rest =>
    (match (if (isdir : bool) then basenames !! name else None) with
     | Some ws => Run (Git ws ["worktree"; "remove"; "--force"; path_Join [taskDir; name]]) ;; mret tt
     | None => mret tt
     end) ;;
    remove_subdirs taskDir rest
  end.

(** Whether the directory of the task is gone. *)
Definition prune_one (id : uuid) : H bool :=
  let taskDir := task_dir worktreesDir id in
  r ← (λ h, (readdir h taskDir, h));
  match r with
  | Err _ => mret false
  | Ok subs =>
    remove_subdirs taskDir subs ;;
    killWorktreeProcesses reply self taskDir ;;
    e ← Run (RemoveAll taskDir);
    mret (match e with Some err => os_IsNotExist err | None => true end)
  end.

Fixpoint PruneOrphanedWorktrees (orphans : list uuid) (removed : Z) : H Z :=
  match orphans with
  | [] => mret removed
  | id :: rest =>
    c ← ended ctx_err;
    match c with
    | Some _ => mret removed
    | None => b ← prune_one id; PruneOrphanedWorktrees rest (if (b : bool) then removed + 1 else removed)
    end
  end.

(** One round of the collector. *)
Definition collect_garbage : P unit :=
  o ← ScanOrphanedWorktrees;
  match o with
  | Ok ((_ :: _) as orphans) => _ ← onH (PruneOrphanedWorktrees orphans 0); mret tt
  | _ => mret tt
  end.

(** [gc]: the lister is the runner itself. *)
Definition RecoverOrphanedTasks (gc : bool) : P (list uuid) :=
  ts ← onW (read_range sch (λ range, ListTasks range true));
  c ← onW (World.ask sch lister);
  monitored ← recover_all (runningContainers c) ts [];
  (if gc then collect_garbage else mret tt) ;;
  mret monitored.

(** ** The monitor *)

Definition transitionToWaiting (id : uuid) : P unit :=
  r ← onW (get_task sch id);
  match r with
  | Err _ => mret tt
  | Ok cur =>
    if decide (Status cur = TaskStatusInProgress)
    then settle cur "Container has stopped. Please review the output and decide whether to continue or mark as done."
    else mret tt
  end.

(** Whether it has returned after the events. *)
Fixpoint monitorContainerUntilStopped (id : uuid) (evs : list monitor_event) : P bool :=
  match evs with
  | [] => mret false
  | Cancelled :: _ => mret true
  | Deadline :: _ => transitionToWaiting id ;; mret true
  | Polled :: rest =>
    c ← onW (World.ask sch lister);
    match c with
    | Err _ => monitorContainerUntilStopped id rest
    | Ok cs =>
      if existsb (λ c, bool_decide (ci_TaskID c = uuid_String id) && bool_decide (ci_State c = "running")) cs then monitorContainerUntilStopped id rest
      else transitionToWaiting id ;; mret true
    end
  end.

(** ** Worktrees of live tasks *)

(** Whether one of the paths is missing; a directory that is no repository is
    removed. *)
Fixpoint broken (paths : list string) : H bool :=
  match paths with
  | [] => mret false
  | path :: rest =>
    s ← ask (Stat path);
    match r_err s with
    | Some e => if os_IsNotExist e then mret true else broken rest
    | None =>
      g ← IsGitRepo reply path;
      if (g : bool) then broken rest else Run (RemoveAll path) ;; mret true
    end
  end.

Fixpoint scan_tasks (ts : list Task) (missing : list Task) : P (list Task) :=
  match ts with
  | [] => mret missing
  | t :: rest => b ← onH (λ h, broken (worktrees_of h t).*2 h); scan_tasks rest (if (b : bool) then missing ++ [t] else missing)%list
  end.

Definition activeStatuses : list TaskStatus := [TaskStatusInProgress; TaskStatusWaiting; TaskStatusCommitting].

Fixpoint scan_statuses (l : list TaskStatus) (missing : list Task) : P (list Task) :=
  match l with
  | [] => mret missing
  | st :: rest =>
    ts ← onW (read_range sch (λ range, ListTasksByStatus range st));
    missing ← scan_tasks ts missing;
    scan_statuses rest missing
  end.

Definition ScanMissingTaskWorktrees : P (list Task) := if has_store then scan_statuses activeStatuses [] else mret [].

Fixpoint restore_all (ts : list Task) (restored : Z) : P Z :=
  match ts with
  | [] => mret restored
  | t :: rest =>
    if decide (BranchName t = EmptyString) then restore_all rest restored
    else
      h ← consult (λ h, h);
      r ← ensureTaskWorktrees sch reply ranged worktreesDir self (ID t) workspaces (WorktreePaths t) (worktrees_of h t).*1 (BranchName t);
      match r with
      | Err _ => restore_all rest restored
      | Ok _ =>
        onW (event sch (ID t) EventTypeSystem (payload [("message", "worktree restored by health watcher")])) ;;
        restore_all rest (restored + 1)
      end
  end.

Definition RestoreMissingTaskWorktrees (ts : list Task) : P Z := if has_store then restore_all ts 0 else mret 0.

(** One round of the health watcher. *)
Definition runScan : P unit :=
  missing ← ScanMissingTaskWorktrees;
  if decide (length missing = 0%nat) then mret tt else _ ← RestoreMissingTaskWorktrees missing; mret tt.
End recovery.
