(* ===== verification/RecoverySpec.v ===== *)
(** * Recovery settles what a crash left behind

    [recovery_settles]: after the recovery no task is committing, and one that is in
    progress has a container and a monitor.  [monitor_settles]: the monitor ends at
    its deadline at the latest, and then the task is not in progress.
    [recover_committing_spec]: how a task that was committing is judged.
    [gc_only_over]: the collector removes only directories of tasks that were over. *)

From S2P Require Import Prelude StateMachine GoStrings GoText PkgUtil TaskModel Backend Store StoreUpdate StoreWf StoreSpec StoreQuery World WorldRules GoTime GitExec GitSpec CommitPipeline CommitSpec Recovery.
From Stdlib Require Import String.
From stdpp Require Import list gmap.
Local Open Scope Z_scope.
Local Open Scope string_scope.

(** ** Invariants of the store *)

Section keeps.
Context `{UUIDLib} {B : Type} `{!StorageBackend B}.
Abbreviation P := (P (B:=B)).
Implicit Types (I : Store B → Prop).
#[local] Existing Instances P_ret P_bind.

Definition pkeeps {A} I (m : P A) : Prop := ∀ w h, I (w_store w) → I (w_store (m (w, h)).2.1).
Definition pmakes {A} I (m : P A) : Prop := ∀ w h, I (w_store (m (w, h)).2.1).

Lemma pkeeps_ret {A} I (a : A) : pkeeps I (mret a).
Proof. by intros w h. Qed.

Lemma pkeeps_bind {A C} I (m : P A) (k : A → P C) : pkeeps I m → (∀ a, pkeeps I (k a)) → pkeeps I (m ≫= k).
Proof. intros Hm Hk w h Hw. specialize (Hm w h Hw). unfold mbind, P_bind. destruct (m (w, h)) as [a [w' h']]. by apply Hk. Qed.

Lemma pkeeps_onW {A} I (m : W (B:=B) A) : preserves I m → pkeeps I (onW m).
Proof. intros Hm w h Hw. specialize (Hm w Hw). unfold onW. by destruct (m w). Qed.

Lemma pkeeps_onH {A} I (m : H A) : pkeeps I (onH m).
Proof. intros w h Hw. unfold onH. by destruct (m h). Qed.

Lemma pkeeps_consult {A} I (f : history → A) : pkeeps I (consult f).
Proof. by intros w h. Qed.

Lemma pmakes_keeps {A} I (m : P A) : pmakes I m → pkeeps I m.
Proof. intros Hm w h _. apply Hm. Qed.

Lemma pmakes_onW {A} I (m : W (B:=B) A) : establishes I m → pmakes I (onW m).
Proof. intros Hm w h. specialize (Hm w Logic.I). unfold onW. by destruct (m w). Qed.

Lemma pmakes_bind_l {A C} I (m : P A) (k : A → P C) : pmakes I m → (∀ a, pkeeps I (k a)) → pmakes I (m ≫= k).
Proof. intros Hm Hk w h. specialize (Hm w h). unfold mbind, P_bind. destruct (m (w, h)) as [a [w' h']]. by apply Hk. Qed.

Lemma pmakes_bind_r {A C} I (m : P A) (k : A → P C) : (∀ a, pmakes I (k a)) → pmakes I (m ≫= k).
Proof. intros Hk w h. unfold mbind, P_bind. destruct (m (w, h)) as [a [w' h']]. apply Hk. Qed.

Lemma pbind_onH {A C} (m : H A) (k : A → P C) w h : (onH m ≫= k) (w, h) = k (m h).1 (w, (m h).2).
Proof. unfold mbind, P_bind, onH. by destruct (m h). Qed.
End keeps.

Ltac pkeeps_step :=
  lazymatch goal with
  | |- pkeeps _ (mret _) => apply pkeeps_ret
  | |- pkeeps _ (_ ≫= _) => apply pkeeps_bind; [|intros ?]
  | |- pkeeps _ (onW _) => apply pkeeps_onW
  | |- pkeeps _ (onH _) => apply pkeeps_onH
  | |- pkeeps _ (consult _) => apply pkeeps_consult
  | |- pkeeps _ (match ?x with _ => _ end) => destruct x
  end.
Ltac pkeeps_tac := intros; repeat pkeeps_step; away_tac.

Section settled.
Context `{UUIDLib} {B : Type} `{!StorageBackend B}.
Variables (sch : Schedule B) (reply : history → call → Reply).
Variables (order : history → gmap string string → list string) (ranged : phase → gmap string string → list string).
Variables (lister : nat → result string (list ContainerInfo)) (readdir : history → string → result string (list (string * bool))).
Variables (ctx_err : history → option string) (worktreesDir : string) (self : Z) (workspaces : list string) (has_store : bool) (id : uuid).
#[local] Existing Instances P_ret P_bind.

(** The statuses that recovery gives. *)
Definition resting (st : TaskStatus) : Prop := st ≠ TaskStatusCommitting ∧ st ≠ TaskStatusInProgress.

Section status.
Variable x : TaskStatus.
Hypothesis active : x = TaskStatusCommitting ∨ x = TaskStatusInProgress.
Hypothesis others_away : never_enters sch x id.
Abbreviation gone := (away x id).

Lemma resting_ne st : resting st → st ≠ x.
Proof. intros [? ?]. destruct active as [-> | ->]; done. Qed.

Lemma force_keeps id' st : resting st → preserves gone (op sch (λ n1 n2, ForceUpdateTaskStatus n1 n2 id' st)).
Proof.
  intros Hst%resting_ne. apply preserves_op; [done|]. intros n1 n2 s Hs. destruct (decide (id' = id)) as [-> |Hne]; [by apply away_forced|].
  intros t. destruct (tasks s !! id') as [u|] eqn:Hu; [|rewrite force_absent by done; apply Hs].
  rewrite (force_mem _ _ _ _ _ _ Hu), lookup_insert_ne by done. apply Hs.
Qed.

Lemma keeps_force id' st : resting st → pkeeps gone (force sch id' st).
Proof. intros Hst. apply pkeeps_onW. unfold quiet. apply preserves_bind; [by apply force_keeps|]. intros ?. apply preserves_ret. Qed.

Lemma makes_force st : resting st → pmakes gone (force sch id st).
Proof. intros Hst%resting_ne. apply pmakes_onW, establishes_quiet. intros n1 n2 s. by apply away_forced. Qed.

Lemma keeps_note id' ty data : pkeeps gone (onW (event sch id' ty data)).
Proof. apply pkeeps_onW. away_tac. Qed.

Lemma keeps_changed id' from to tr : pkeeps gone (changed sch id' from to tr).
Proof. apply pkeeps_onW. away_tac. Qed.

Lemma keeps_mark t : pkeeps gone (markTaskFailedForMissingWorktrees sch reply order t TaskStatusInProgress TriggerRecovery).
Proof.
  unfold markTaskFailedForMissingWorktrees, error_event. pkeeps_step; [apply pkeeps_onH|]. pkeeps_step; [by apply keeps_force|].
  pkeeps_step; [apply pkeeps_onW; away_tac|]. pkeeps_step; [apply keeps_note|apply keeps_changed].
Qed.

Lemma makes_mark t : ID t = id → pmakes gone (markTaskFailedForMissingWorktrees sch reply order t TaskStatusInProgress TriggerRecovery).
Proof.
  intros Hid. unfold markTaskFailedForMissingWorktrees, error_event. apply pmakes_bind_r. intros ?. rewrite Hid. apply pmakes_bind_l; [by apply makes_force|]. intros _.
  pkeeps_step; [apply pkeeps_onW; away_tac|]. pkeeps_step; [apply keeps_note|apply keeps_changed].
Qed.

Lemma keeps_committing t : pkeeps gone (recover_committing sch reply order t).
Proof.
  unfold recover_committing, system, error_event. pkeeps_step; [apply pkeeps_onH|]. pkeeps_step; (pkeeps_step; [by apply keeps_force|]; pkeeps_step; [apply keeps_note|apply keeps_changed]).
Qed.

Lemma makes_committing t : ID t = id → pmakes gone (recover_committing sch reply order t).
Proof.
  intros Hid. unfold recover_committing, system, error_event. apply pmakes_bind_r. intros b. rewrite Hid.
  destruct b; (apply pmakes_bind_l; [by apply makes_force|]; intros _; pkeeps_step; [apply keeps_note|apply keeps_changed]).
Qed.

Lemma keeps_settle t text : pkeeps gone (settle sch reply order t text).
Proof.
  unfold settle, system. pkeeps_step; [apply pkeeps_onH|]. pkeeps_step; [|apply keeps_mark].
  pkeeps_step; [by apply keeps_force|]. pkeeps_step; [apply keeps_note|apply keeps_changed].
Qed.

Lemma makes_settle t text : ID t = id → pmakes gone (settle sch reply order t text).
Proof.
  intros Hid. unfold settle, system. apply pmakes_bind_r. intros m. destruct (decide (m = [])); [|by apply makes_mark]. rewrite Hid.
  apply pmakes_bind_l; [by apply makes_force|]. intros _. pkeeps_step; [apply keeps_note|apply keeps_changed].
Qed.

Lemma keeps_one running t : pkeeps gone (recover_one sch reply order running t).
Proof.
  unfold recover_one, recover_in_progress, system. pkeeps_step; [pkeeps_step; [apply keeps_committing|apply pkeeps_ret]|]. pkeeps_step; [|apply pkeeps_ret].
  pkeeps_step; (pkeeps_step; [first [apply keeps_note|apply keeps_settle]|apply pkeeps_ret]).
Qed.

Lemma keeps_scan entries orphans : pkeeps gone (scan_entries sch entries orphans).
Proof.
  revert orphans. induction entries as [|[name isdir] rest IH]; intros orphans; cbn [scan_entries]; [apply pkeeps_ret|]. pkeeps_step; [done|].
  pkeeps_step; [|done]. pkeeps_step; [apply pkeeps_onW; away_tac|done].
Qed.

Lemma keeps_collect : pkeeps gone (collect_garbage sch reply readdir ctx_err worktreesDir self workspaces has_store).
Proof.
  unfold collect_garbage, ScanOrphanedWorktrees. pkeeps_step.
  - pkeeps_step; [apply pkeeps_ret|]. pkeeps_step; [apply pkeeps_consult|]. pkeeps_step; [|apply pkeeps_ret]. pkeeps_step; [apply keeps_scan|apply pkeeps_ret].
  - pkeeps_step; [|apply pkeeps_ret]. pkeeps_step; [apply pkeeps_ret|]. pkeeps_step; [apply pkeeps_onH|apply pkeeps_ret].
Qed.

Lemma keeps_gc (gc : bool) : pkeeps gone (if gc then collect_garbage sch reply readdir ctx_err worktreesDir self workspaces has_store else mret tt).
Proof. destruct gc; [apply keeps_collect|apply pkeeps_ret]. Qed.
End status.

Hypothesis others_uncommitting : never_enters sch TaskStatusCommitting id.
Hypothesis others_idle : never_enters sch TaskStatusInProgress id.
Abbreviation uncommitted := (away TaskStatusCommitting id).

(** What is still to be done for the task. *)
Definition owed (p : Task → Prop) (ts : list Task) : Prop := ∃ t, t ∈ ts ∧ ID t = id ∧ p t.

Lemma owed_later p t ts : owed p (t :: ts) → ¬ (ID t = id ∧ p t) → owed p ts.
Proof. intros (u & [-> |Hu]%elem_of_cons & Hid & Hp) Hn; [by destruct Hn|]. by exists u. Qed.

Lemma one_settles running t w h :
  let r := recover_one sch reply order running t (w, h) in
  ID t = id → Status t = TaskStatusInProgress → (idle id (w_store r.2.1) ∧ r.1 = false) ∨ (r.1 = true ∧ uuid_String id ∈ running).
Proof.
  intros r Hid Hs. unfold r, recover_one. rewrite decide_False by (rewrite Hs; done). rewrite decide_True by done. unfold recover_in_progress. case_decide as Hr.
  - right. rewrite <-Hid. split; [|done]. unfold mbind, P_bind. by destruct (system _ _ _ _) as [? [? ?]].
  - left. unfold mbind at 1 2, P_bind. pose proof (makes_settle TaskStatusInProgress (or_intror eq_refl) others_idle t) as Hm.
    match goal with |- context [settle sch reply order t ?x _] => specialize (Hm x Hid w h); destruct (settle sch reply order t x (w, h)) as [? [? ?]] end. done.
Qed.

Lemma all_settles running ts : ∀ mon w h,
  (uncommitted (w_store w) ∨ owed (λ t, Status t = TaskStatusCommitting) ts) →
  (idle id (w_store w) ∨ owed (λ t, Status t = TaskStatusCommitting ∨ Status t = TaskStatusInProgress) ts ∨ (id ∈ mon ∧ uuid_String id ∈ running)) →
  let r := recover_all sch reply order running ts mon (w, h) in
  uncommitted (w_store r.2.1) ∧ (idle id (w_store r.2.1) ∨ (id ∈ r.1 ∧ uuid_String id ∈ running)).
Proof.
  induction ts as [|t ts IH]; intros mon w h Hc Hp; cbn [recover_all].
  { destruct Hc as [Hc|(? & ?%not_elem_of_nil & _)]; [|done]. destruct Hp as [Hp|[(? & ?%not_elem_of_nil & _)|Hp]]; [|done|]; split; auto. }
  unfold mbind, P_bind.
  pose proof (keeps_one TaskStatusCommitting (or_introl eq_refl) others_uncommitting running t w h) as Kc.
  pose proof (keeps_one TaskStatusInProgress (or_intror eq_refl) others_idle running t w h) as Kp.
  pose proof (one_settles running t w h) as Ks.
  assert (ID t = id → Status t = TaskStatusCommitting → uncommitted (w_store (recover_one sch reply order running t (w, h)).2.1) ∧
    idle id (w_store (recover_one sch reply order running t (w, h)).2.1)) as Km.
  { intros Hid Hs. unfold recover_one. rewrite decide_True by done. unfold mbind, P_bind.
    pose proof (makes_committing TaskStatusCommitting (or_introl eq_refl) others_uncommitting t Hid w h).
    pose proof (makes_committing TaskStatusInProgress (or_intror eq_refl) others_idle t Hid w h).
    destruct (recover_committing sch reply order t (w, h)) as [? [? ?]]. done. }
  destruct (recover_one sch reply order running t (w, h)) as [b [w' h']]. simpl in *. apply IH.
  - destruct Hc as [Hc|Hc]; [left; auto|]. destruct (decide (ID t = id ∧ Status t = TaskStatusCommitting)) as [[Hid Hs]|Hn]; [left; by apply Km|].
    right. by eapply owed_later.
  - destruct Hp as [Hp|[Hp|[Hp Hr]]]; [left; auto| |right; right; split; [destruct b; [apply elem_of_app; by left|done]|done]].
    destruct (decide (ID t = id ∧ (Status t = TaskStatusCommitting ∨ Status t = TaskStatusInProgress))) as [[Hid [Hs|Hs]]|Hn].
    + left. by apply Km.
    + destruct (Ks Hid Hs) as [[? _]|[-> ?]]; [by left|]. right. right. split; [|done]. apply elem_of_app. right. rewrite Hid. left.
    + right. left. by eapply owed_later.
Qed.
End settled.

Lemma task_listed `{UUIDLib} {B : Type} (s : Store B) range id t :
  tasks s !! id = Some t → id ∈ range → t ∈ ListTasks range true s.
Proof.
  intros Ht Hr. unfold ListTasks. rewrite SortFunc_Permutation. apply list_elem_of_filter. split; [by left|].
  unfold range_tasks. apply list_elem_of_omap. by exists id.
Qed.

(** C6: recovery after a restart.  Whatever git, the disk and the container runtime
    answer, whether saves fail, and however other goroutines interleave, as long as
    none of them puts the task in progress or committing: when it ends, the task is
    not committing, and it is in progress only if its container was running, in
    which case a monitor was started for it. *)
Theorem recovery_settles `{UUIDLib} {B : Type} `{!StorageBackend B} (sch : Schedule B) reply order lister readdir ctx_err worktreesDir self workspaces has_store gc id (w : World B) h :
  never_enters sch TaskStatusCommitting id → never_enters sch TaskStatusInProgress id →
  (∀ n m, is_Some (m !! id) → id ∈ ranges sch n m) → (∀ t, tasks (w_store (arrive sch w)) !! id = Some t → ID t = id) →
  let r := RecoverOrphanedTasks sch reply order lister readdir ctx_err worktreesDir self workspaces has_store gc (w, h) in
  away TaskStatusCommitting id (w_store r.2.1) ∧
  (idle id (w_store r.2.1) ∨ (id ∈ r.1 ∧ uuid_String id ∈ runningContainers (lister (S (w_tick w))))).
Proof.
  intros Hc Hp Hcov Hid r. unfold r, RecoverOrphanedTasks, mbind, P_bind. cbn [onW read_range read World.ask].
  set (w1 := arrive sch w) in *. set (ts := ListTasks _ true (w_store w1)). set (w2 := arrive sch w1). change (w_tick w1) with (S (w_tick w)).
  assert (∀ p : Task → Prop, (∀ t, Decision (p t)) → (∀ t, tasks (w_store w1) !! id = Some t → ¬ p t) ∨ owed id p ts) as Ho.
  { intros p Hd. destruct (tasks (w_store w1) !! id) as [t|] eqn:Ht; [|left; naive_solver]. destruct (decide (p t)); [|left; naive_solver].
    right. exists t. split; [|by auto]. apply task_listed with id; [done|]. apply Hcov. by rewrite Ht. }
  pose proof (all_settles sch reply order id Hc Hp (runningContainers (lister (S (w_tick w)))) ts [] w2 h) as Hs.
  destruct Hs as [H1 H2].
  - destruct (Ho (λ t, Status t = TaskStatusCommitting) _) as [Hn|?]; [left|by right]. apply (Hc (w_locked w1) (w_tick w1)). exact Hn.
  - destruct (Ho (λ t, Status t = TaskStatusCommitting ∨ Status t = TaskStatusInProgress) _) as [Hn|?]; [left|by right; left].
    apply (Hp (w_locked w1) (w_tick w1)). intros t Ht Hst. by apply (Hn t Ht); right.
  - destruct (recover_all _ _ _ _ _ _ _) as [mon [w3 h3]]. cbn [fst snd] in *.
    pose proof (λ x Hn, keeps_gc sch reply readdir ctx_err worktreesDir self workspaces has_store id x Hn gc w3 h3) as Hk.
    pose proof (Hk _ Hc H1) as K1. pose proof (Hk _ Hp) as K2.
    clear Hk. match type of K1 with context [?m (w3, h3)] => destruct (m (w3, h3)) as [? [w4 h4]] end. cbn [fst snd] in *. split; [done|]. destruct H2; auto.
Qed.

(** ** The monitor *)

Section monitor.
Context `{UUIDLib} {B : Type} `{!StorageBackend B}.
Variables (sch : Schedule B) (reply : history → call → Reply) (order : history → gmap string string → list string).
Variables (lister : nat → result string (list ContainerInfo)) (id : uuid).
Hypothesis others_idle : never_enters sch TaskStatusInProgress id.
#[local] Existing Instances P_ret P_bind.

(** The record of the task has its identifier. *)
Definition own (s : Store B) : Prop := ∀ t, tasks s !! id = Some t → ID t = id.
Hypothesis others_own : stable sch own.

Lemma waiting_made (w : World B) h : own (w_store w) → idle id (w_store (transitionToWaiting sch reply order id (w, h)).2.1).
Proof.
  intros Hid%(others_own (w_locked w) (w_tick w)). unfold transitionToWaiting, mbind, P_bind, onW, get_task, read, GetTask.
  change (own (w_store (arrive sch w))) in Hid. destruct (tasks (w_store (arrive sch w)) !! id) as [t|] eqn:Ht; [|intros u; cbn [fst snd mret P_ret]; by rewrite Ht].
  destruct (decide (Status t = TaskStatusInProgress)); [apply (makes_settle sch reply order id TaskStatusInProgress (or_intror eq_refl) others_idle); auto|].
  intros u. cbn [fst snd mret P_ret]. rewrite Ht. by intros [= <-].
Qed.

Lemma monitor_made evs : Cancelled ∉ evs → ∀ (w : World B) h, own (w_store w) →
  let r := monitorContainerUntilStopped sch reply order lister id evs (w, h) in
  (Deadline ∈ evs → r.1 = true) ∧ (r.1 = true → idle id (w_store r.2.1)).
Proof.
  induction evs as [|[] evs IH]; intros Hn w h Hw; cbn [monitorContainerUntilStopped].
  - split; [by intros ?%not_elem_of_nil|done].
  - destruct Hn. left.
  - unfold mbind, P_bind. pose proof (waiting_made w h Hw) as Hm. by destruct (transitionToWaiting _ _ _ _ _) as [? [? ?]].
  - apply not_elem_of_cons in Hn as [_ Hn]. unfold mbind, P_bind, onW, World.ask. pose proof (others_own (w_locked w) (w_tick w) _ Hw) as Hw1.
    change (own (w_store (arrive sch w))) in Hw1. specialize (IH Hn (arrive sch w) h Hw1) as [IH1 IH2].
    assert (∀ X : Prop, (Deadline ∈ evs → X) → Deadline ∈ Polled :: evs → X) as Hd by (intros X HX [?|?]%elem_of_cons; [done|auto]).
    destruct (lister (w_tick w)) as [cs|e]; [|split; [apply Hd, IH1|exact IH2]]. destruct (existsb _ cs); [split; [apply Hd, IH1|exact IH2]|].
    pose proof (waiting_made (arrive sch w) h Hw1) as Hm. by destruct (transitionToWaiting _ _ _ _ _) as [? [? ?]].
Qed.
End monitor.

(** The monitor of a container.  Whatever the runtime answers, if the server is not
    stopped the monitor has returned once its deadline has passed, and when it has
    returned, the task is not in progress any more. *)
Theorem monitor_settles `{UUIDLib} {B : Type} `{!StorageBackend B} (sch : Schedule B) reply order lister id evs (w : World B) h :
  never_enters sch TaskStatusInProgress id → stable sch (own id) → own id (w_store w) → Cancelled ∉ evs →
  let r := monitorContainerUntilStopped sch reply order lister id evs (w, h) in
  (Deadline ∈ evs → r.1 = true) ∧ (r.1 = true → idle id (w_store r.2.1)).
Proof. intros. by apply monitor_made. Qed.

(** ** The verdict on a task that was committing *)

Definition log_call (repo branch : string) : call := Git repo ["log"; "-1"; "--format=%H|%s|%aI"; branch].

(** The time that an answer gives for the tip of the branch. *)
Definition tip_time (r : Reply) : option Z :=
  match r_err r with
  | Some _ => None
  | None => let line := TrimSpace (r_stdout r) in
            if decide (line = EmptyString) then None else '(_, rest) ← Cut bar line; '(_, stamp) ← Cut bar rest; Parse_RFC3339 stamp
  end.

(** Git was asked for the tip of a branch, and it is newer than the task. *)
Definition newer_tip `{UUIDLib} (t : Task) (repo : string) (n : history) : Prop :=
  ∃ r ts, (log_call repo (BranchName t), r) ∈ n ∧ tip_time r = Some ts ∧ UpdatedAt t < ts.
(** Git was asked, and gave no tip that is newer: the tip is older, or git failed, or
    its answer could not be read, as for a subject with a bar. *)
Definition no_newer_tip `{UUIDLib} (t : Task) (repo : string) (n : history) : Prop :=
  ∃ r, (log_call repo (BranchName t), r) ∈ n ∧ ∀ ts, tip_time r = Some ts → ts <= UpdatedAt t.

Section verdict.
Context `{UUIDLib} {B : Type} `{!StorageBackend B}.
Variables (sch : Schedule B) (reply : history → call → Reply) (order : history → gmap string string → list string) (t : Task).
#[local] Existing Instances P_ret P_bind.

Lemma tip_after_traced repo : traced (tip_after reply t repo) (λ b n, if b then newer_tip t repo n else no_newer_tip t repo n).
Proof.
  unfold tip_after, BranchTipCommit. eapply traced_bind.
  { eapply traced_bind; [apply traced_Output|]. intros x n (r & -> & ->). apply traced_ret. instantiate (1 := λ res n, ∃ r, n = [(log_call repo (BranchName t), r)] ∧
      match res with Ok (_, _, ts) => tip_time r = Some ts | Err _ => tip_time r = None end).
    exists r. split; [done|]. unfold tip_time. destruct (r_err r); [done|]. case_decide; [done|]. destruct (Cut bar (TrimSpace (r_stdout r))) as [[hash rest]|]; [|done]. cbn.
    destruct (Cut bar rest) as [[subject stamp]|]; [|done]. cbn. by destruct (Parse_RFC3339 stamp). }
  intros res n (r & -> & Hr). apply traced_ret. assert ((log_call repo (BranchName t), r) ∈ ([(log_call repo (BranchName t), r)] ++ [])%list) as Hin by left.
  destruct res as [[[hash subject] ts]|e]; [|exists r; split; [done|]; rewrite Hr; done].
  destruct (Z.ltb_spec (UpdatedAt t) ts); [exists r, ts; done|]. exists r. split; [done|]. rewrite Hr. intros ? [= <-]. done.
Qed.

Lemma newer_app repo n1 n n2 : newer_tip t repo n → newer_tip t repo (n1 ++ n ++ n2)%list.
Proof. intros (r & ts & Hin & ?). exists r, ts. split; [|done]. rewrite !elem_of_app. auto. Qed.

Lemma no_newer_app repo n1 n n2 : no_newer_tip t repo n → no_newer_tip t repo (n1 ++ n ++ n2)%list.
Proof. intros (r & Hin & ?). exists r. split; [|done]. rewrite !elem_of_app. auto. Qed.

Lemma landed_traced repos : traced (commit_landed reply t repos)
  (λ b n, if b then ∃ repo, repo ∈ repos ∧ newer_tip t repo n else ∀ repo, repo ∈ repos → no_newer_tip t repo n).
Proof.
  induction repos as [|repo repos IH]; cbn [commit_landed]; [apply traced_ret; by intros ? ?%not_elem_of_nil|].
  eapply traced_bind; [apply tip_after_traced|]. intros [] n Hn.
  - apply traced_ret. exists repo. split; [left|]. by apply (newer_app repo [] n []).
  - eapply traced_weaken; [apply IH|]. intros [] n' Hn'.
    + destruct Hn' as (repo' & Hin & Hr). exists repo'. split; [by right|]. apply (newer_app repo' n n' []) in Hr. by rewrite app_nil_r in Hr.
    + intros repo' [-> |Hin]%elem_of_cons; [by apply (no_newer_app repo [] n n')|]. apply Hn' in Hin. apply (no_newer_app repo' n n' []) in Hin. by rewrite app_nil_r in Hin.
Qed.

(** No other goroutine changes the task. *)
Hypothesis alone_with : ∀ b n s, tasks (others sch b n s) !! ID t = tasks s !! ID t.
Definition has_status (st : TaskStatus) (s : Store B) : Prop := Status <$> tasks s !! ID t = Some st.

Lemma status_stays st ty data : pkeeps (has_status st) (onW (event sch (ID t) ty data)).
Proof.
  apply pkeeps_onW. unfold event, event_as. apply preserves_quiet.
  - intros b n s. unfold has_status. by rewrite alone_with.
  - intros n1 n2 s. unfold has_status. pose proof (keeps_InsertEvent n1 (actor_Sub no_actor) (actor_Type no_actor) (ID t) ty (Some data) s) as Hk.
    assert (tasks (InsertEvent n1 (actor_Sub no_actor) (actor_Type no_actor) (ID t) ty (Some data) s).2 = tasks s) as -> by (by injection Hk). done.
Qed.

Lemma forced_status st (w : World B) h : is_Some (tasks (w_store w) !! ID t) → has_status st (w_store (force sch (ID t) st (w, h)).2.1).
Proof.
  intros [u Hu]. unfold force, onW, quiet, mbind, W_bind, op. set (n1 := clock sch (2 * w_tick w)). set (n2 := clock sch (2 * w_tick w + 1)).
  assert (tasks (w_store (arrive sch w)) !! ID t = Some u) as Hu' by (unfold arrive; simpl; by rewrite alone_with).
  pose proof (force_mem n1 n2 (ID t) st _ _ Hu') as E. destruct (ForceUpdateTaskStatus n1 n2 (ID t) st (w_store (arrive sch w))) as [res s']. cbn in *.
  unfold has_status. rewrite E, lookup_insert_eq. cbn [fmap option_fmap option_map]. by rewrite Status_with_status.
Qed.

(** The end of either branch. *)
Lemma ended_status st ty data from to tr (w : World B) h : is_Some (tasks (w_store w) !! ID t) →
  has_status st (w_store ((force sch (ID t) st ≫= λ _, onW (event sch (ID t) ty data) ≫= λ _, changed sch (ID t) from to tr) (w, h)).2.1).
Proof.
  intros Hu. pose proof (forced_status st w h Hu) as Hf. unfold mbind at 1, P_bind. destruct (force sch (ID t) st (w, h)) as [? [w1 h1]]. cbn in Hf.
  revert Hf. apply pkeeps_bind; [apply status_stays|]. intros _. apply status_stays.
Qed.

Lemma ended_silent st ty data from to tr :
  ptraced (force sch (ID t) st ≫= λ _, onW (event sch (ID t) ty data) ≫= λ _, changed sch (ID t) from to tr) (λ _ n, n = []).
Proof. do 2 (apply ptraced_skip; [apply ptraced_onW|intros _]). apply ptraced_onW. Qed.

Lemma verdict_of (w : World B) h :
  let b := commit_landed reply t (worktrees_of order h t).*1 h in
  is_Some (tasks (w_store w) !! ID t) → let r := recover_committing sch reply order t (w, h) in
  r.2.2 = b.2 ∧ has_status (if (b.1 : bool) then TaskStatusDone else TaskStatusFailed) (w_store r.2.1).
Proof.
  intros b Hu r. unfold r, recover_committing. rewrite !pbind_onH. fold b. destruct b as [[] h']; cbn [fst snd].
  - split; [|by apply ended_status]. destruct (ended_silent TaskStatusDone EventTypeSystem (payload [("result", "server restarted after commit completed; auto-recovered to done")])
      TaskStatusCommitting TaskStatusDone TriggerRecovery w h') as (n & E & ->). by rewrite app_nil_r in E.
  - split; [|by apply ended_status]. destruct (ended_silent TaskStatusFailed EventTypeError (payload [("error", "server restarted during commit")])
      TaskStatusCommitting TaskStatusFailed TriggerRecovery w h') as (n & E & ->). by rewrite app_nil_r in E.
Qed.

Lemma only_log repos : only (λ c, ∃ repo, c = log_call repo (BranchName t)) (commit_landed reply t repos).
Proof. induction repos as [|repo repos IH]; cbn [commit_landed]; unfold tip_after, BranchTipCommit; only_tac; eauto. Qed.
End verdict.

(** The verdict on a task that was committing when the server stopped.  With no other
    goroutine at the task, it is done if git gives a tip of the task's branch in one
    of its repositories that is newer than the last change of the task; it has failed
    if git, asked about every repository, gave no such tip.  Whether the branch was
    merged is not asked. *)
Theorem recover_committing_spec `{UUIDLib} {B : Type} `{!StorageBackend B} (sch : Schedule B) reply order t (w : World B) h :
  (∀ b n s, tasks (others sch b n s) !! ID t = tasks s !! ID t) → (∀ h m r, r ∈ order h m ↔ is_Some (m !! r)) → is_Some (tasks (w_store w) !! ID t) →
  let r := recover_committing sch reply order t (w, h) in
  ∃ n b, r.2.2 = (h ++ n)%list ∧ Forall (λ c, ∃ repo, c = log_call repo (BranchName t)) n.*1 ∧
    Status <$> tasks (w_store r.2.1) !! ID t = Some (if (b : bool) then TaskStatusDone else TaskStatusFailed) ∧
    if b then ∃ repo, is_Some (WorktreePaths t !! repo) ∧ newer_tip t repo n else ∀ repo, is_Some (WorktreePaths t !! repo) → no_newer_tip t repo n.
Proof.
  intros Ho Hord Hu r. destruct (verdict_of sch reply order t Ho w h Hu) as [E Hs]. fold r in E, Hs.
  set (repos := (worktrees_of order h t).*1) in *. assert (∀ repo, repo ∈ repos ↔ is_Some (WorktreePaths t !! repo)) as Hin.
  { intros repo. unfold repos, worktrees_of. rewrite list_elem_of_fmap. setoid_rewrite list_elem_of_omap. split.
    - intros (x & -> & i & Hi & Hx). destruct (WorktreePaths t !! i) eqn:Ei; simplify_eq/=. by rewrite Ei.
    - intros [wt Hw]. exists (repo, wt). split; [done|]. exists repo. rewrite Hord, Hw. split; [by eexists|done]. }
  destruct (traced_and _ _ _ (only_log reply t repos) (landed_traced reply t repos) h) as (n & En & Hl & Hb).
  exists n, (commit_landed reply t repos h).1. split; [by rewrite E|]. split; [done|]. split; [done|].
  destruct (commit_landed reply t repos h).1; [destruct Hb as (repo & ?%Hin & ?); eauto|]. intros repo ?%Hin. auto.
Qed.

(** ** Garbage *)

Section garbage.
Context `{UUIDLib} {B : Type} `{!StorageBackend B}.
Variables (sch : Schedule B) (reply : history → call → Reply) (readdir : history → string → result string (list (string * bool))).
Variables (ctx_err : history → option string) (worktreesDir : string) (self : Z) (workspaces : list string) (has_store : bool).
#[local] Existing Instances P_ret P_bind.

(** A path of a task's directory. *)
Definition inside (id : uuid) (p : string) : Prop := p = task_dir worktreesDir id ∨ ∃ name, p = path_Join [task_dir worktreesDir id; name].

(** What the collector may do for the tasks [p]. *)
Definition collects (p : uuid → Prop) (c : call) : Prop :=
  match c with
  | RemoveAll d => ∃ id, p id ∧ d = task_dir worktreesDir id
  | Exec argv => argv = ["lsof"; "-a"; "-d"; "cwd"; "-F"; "pn"] ∨ ∃ ws id d, p id ∧ inside id d ∧ c = Git ws ["worktree"; "remove"; "--force"; d]
  | Signal pid _ => pid ≠ self
  | _ => False
  end.

Lemma pids_not_self dir lines cur : Forall (λ pid, pid ≠ self) (pids_in self dir lines cur).
Proof.
  revert cur. induction lines as [|line lines IH]; intros cur; cbn [pids_in]; [constructor|]. destruct (HasPrefix line "p"); [apply IH|]. destruct (HasPrefix line "n"); [|apply IH].
  destruct (cwdInDir _ _ && _ && _) eqn:E; [|apply IH]. constructor; [|apply IH]. rewrite !andb_true_iff in E. destruct E as [_ E]. intros ->. by rewrite Z.eqb_refl in E.
Qed.

Lemma only_signals p name pids : Forall (λ pid, pid ≠ self) pids → only (collects p) (signal_all reply name pids).
Proof. induction 1 as [|pid pids Hp Hps IH]; cbn [signal_all]; only_tac; done. Qed.

Lemma only_prune_one (p : uuid → Prop) id : p id → only (collects p) (prune_one reply readdir worktreesDir self workspaces id).
Proof.
  intros Hp. unfold prune_one. apply only_bind; [intros h; exists []; rewrite app_nil_r; split; [done|constructor]|]. intros [subs|e]; [|only_tac].
  apply only_bind.
  { induction subs as [|[name isdir] subs IH]; cbn [remove_subdirs]; [only_tac|]. apply only_bind; [|done]. destruct (if isdir then _ else _) as [ws|]; only_tac.
    right. exists ws, id. eexists. split; [done|]. split; [by right; exists name|done]. }
  intros _. apply only_bind; [|intros _; only_tac; by exists id]. unfold killWorktreeProcesses. apply only_bind; [apply only_ask; by left|]. intros r. destruct (r_err r); [only_tac|].
  apply only_bind; [|intros _]; apply only_signals, pids_not_self.
Qed.

Lemma only_prune (p : uuid → Prop) orphans removed : Forall p orphans →
  only (collects p) (PruneOrphanedWorktrees reply readdir ctx_err worktreesDir self workspaces orphans removed).
Proof.
  intros Ho. revert removed. induction Ho as [|id ids Hp Ho IH]; intros removed; cbn [PruneOrphanedWorktrees]; [only_tac|].
  apply only_bind; [intros h; exists []; rewrite app_nil_r; split; [done|constructor]|]. intros [e|]; [only_tac|]. apply only_bind; [by apply only_prune_one|]. intros b. apply IH.
Qed.

(** The task was over at one of the reads that follow [w]. *)
Definition was_over (w : World B) (id : uuid) : Prop := ∃ k t, tasks (w_store (Nat.iter (S k) (arrive sch) w)) !! id = Some t ∧ prunable t = true.

Lemma was_over_later w id : was_over (arrive sch w) id → was_over w id.
Proof. intros (k & t & Ht). exists (S k), t. by rewrite (Nat.iter_succ_r (S k)). Qed.

Lemma scan_spec entries : ∀ orphans w h,
  let r := scan_entries sch entries orphans (w, h) in
  r.2.2 = h ∧ ∀ id, id ∈ r.1 → id ∈ orphans ∨ was_over w id.
Proof.
  induction entries as [|[name isdir] entries IH]; intros orphans w h; cbn [scan_entries]; [split; [done|by left]|].
  destruct (negb isdir); [apply IH|]. destruct (uuid_Parse name) as [id|]; [|apply IH]. unfold mbind, P_bind, onW, get_task, read, GetTask.
  match goal with |- context [scan_entries sch entries ?l] => destruct (IH l (arrive sch w) h) as [E Hi] end. split; [done|].
  intros i Hin. destruct (Hi i Hin) as [Ho|Ho]; [|right; by apply was_over_later]. destruct (tasks (w_store (arrive sch w)) !! id) as [t|] eqn:Ht; [|by left].
  destruct (prunable t) eqn:Hp; [|by left]. apply elem_of_app in Ho as [?| ->%list_elem_of_singleton]; [by left|]. right. by exists 0%nat, t.
Qed.
End garbage.

(** The garbage collector.  Whatever the disk holds and git answers, and whatever
    other goroutines do: it removes only directories of tasks that were done,
    cancelled or archived when it read them, unregisters only worktrees in these
    directories, and signals no process of the server itself. *)
Theorem gc_only_over `{UUIDLib} {B : Type} `{!StorageBackend B} (sch : Schedule B) reply readdir ctx_err worktreesDir self workspaces has_store (w : World B) h :
  ∃ n, (collect_garbage sch reply readdir ctx_err worktreesDir self workspaces has_store (w, h)).2.2 = (h ++ n)%list ∧
    Forall (collects worktreesDir self (was_over sch w)) n.*1.
Proof.
  unfold collect_garbage, ScanOrphanedWorktrees, mbind, P_bind, consult. destruct has_store; cbn; [|exists []; by rewrite app_nil_r].
  destruct (readdir h worktreesDir) as [entries|e]; [|exists []; rewrite app_nil_r; by destruct (os_IsNotExist e)].
  destruct (scan_spec sch entries [] w h) as [E Hi]. destruct (scan_entries sch entries [] (w, h)) as [ids [w1 h1]]. cbn in *. subst h1.
  destruct ids as [|i ids]; [exists []; by rewrite app_nil_r|]. unfold onH.
  destruct (only_prune reply readdir ctx_err worktreesDir self workspaces (was_over sch w) (i :: ids) 0) with (h := h) as (n & En & Hn).
  { apply Forall_forall. intros x Hx. by destruct (Hi x Hx) as [?%not_elem_of_nil|?]. }
  exists n. destruct (PruneOrphanedWorktrees _ _ _ _ _ _ _ _ _) as [? h2]. split; [exact En|exact Hn].
Qed.
