(* ===== verification/CommitRun.v ===== *)
(** * Concrete commits

    Witnesses for the theorems of CommitSpec with a git that answers as the real one
    does, and runs that show what the pipeline does not keep: changes that could not
    be staged, a branch whose commits could not be counted, the record of a
    repository that was merged before another failed, worktrees that were reused,
    and workspaces that have the same name. *)

From S2P Require Import Prelude StateMachine GoStrings GoText PkgUtil TaskModel Backend Store StoreUpdate StoreWf StoreRestart StoreSpec StoreQuery World WorldRules Runner RunnerRun Execute ExecuteSpec Automation AutomationSpec AutomationRun TaskRequests TaskRequestsSpec BatchSpec TaskRequestsRun GitExec GitSpec CommitPipeline CommitSpec.
From Stdlib Require Import String.
From stdpp Require Import list gmap.
Local Open Scope Z_scope.
Local Open Scope string_scope.

Module CommitRun.
#[local] Existing Instance text_uuid.
Import RunnerRun ExecuteRun AutomationRun TaskRequestsRun.

(** Task A has changed two repositories. *)
Definition task : Task := queued idA [] <| Prompt := "add a flag" |>.
Definition start : World MemBackend * history := (world_of {[idA := task]} [], []).
Definition app_wt : string := "/w/A/app".
Definition lib_wt : string := "/w/A/lib".
Definition worktrees : gmap string string := {["/src/app" := app_wt; "/src/lib" := lib_wt]}.

Definition good (out : string) : Reply := MkReply out out None true.
Definition bad (out : string) : Reply := MkReply EmptyString out (Some "exit status 1") false.

(** The answers of a git without trouble: both worktrees have a change and, once it
    is committed, are a commit ahead of the default branch. *)
Definition healthy (_ : history) (c : call) : Reply :=
  match c with
  | Stat p => if HasPrefix p "/w/" && negb (HasSuffix p ".md") then good EmptyString else bad EmptyString
  | Exec (_ :: _ :: dir :: args) =>
    if decide (args = ["status"; "--porcelain"]) then good (if HasPrefix dir "/w/" then " M main.go" else EmptyString)
    else if decide (args = ["branch"; "--show-current"]) then good "main"
    else if decide (hd EmptyString args = "rev-list") then good "1"
    else if decide (args = ["rev-parse"; "HEAD"]) then good "0123456789abcdef"
    else if decide (hd EmptyString args = "rev-parse") then if bool_decide ("-q" ∈ args) then bad EmptyString else good "0123456789abcdef"
    else good EmptyString
  | _ => good EmptyString
  end.

(** Git fails one command. *)
Definition but (f : call) (out : string) (h : history) (c : call) : Reply := if decide (c = f) then bad out else healthy h c.

Definition any_range (_ : phase) (m : gmap string string) : list string := (map_to_list m).*1.

Lemma any_range_covers ph m r : is_Some (m !! r) → r ∈ any_range ph m.
Proof. intros [x Hx]. apply list_elem_of_fmap. exists (r, x). split; [done|]. by apply elem_of_map_to_list. Qed.

Definition run_pipeline (git : history → call → Reply) :=
  commit alone id git any_range (λ _, None) (λ p _ _, p) (λ p _, p) (λ _, false) (λ _ _, Ok "Add a flag") (λ _ _, Err "none")
    (λ _, MkResolver [] [] None false "done") None "/w" 1 idA "s" worktrees "task/A" start.
Definition run_stage (git : history → call → Reply) :=
  hostStageAndCommit alone git any_range (λ _, None) (λ p _ _, p) (λ _, false) (λ _ _, Ok "Add a flag") (λ _ _, Err "none") idA worktrees "add a flag" start.

Definition calls {A} (x : A * (World MemBackend * history)) : list call := x.2.2.*1.
Definition record (w : World MemBackend) : option (gmap string string) := tasks (w_store w) !! idA ≫= λ t, Some (CommitHashes t).

Lemma apart repo : is_Some (worktrees !! repo) → path_Join [repo; ".git"] ≠ task_dir "/w" idA.
Proof.
  intros [wt Hw]. unfold worktrees in Hw. apply lookup_insert_Some in Hw as [[<- _]|[_ Hw]].
  - vm_compute. done.
  - apply lookup_singleton_Some in Hw as [<- _]. vm_compute. done.
Qed.

(** Both repositories are merged, and the hashes recorded, before the worktrees go. *)
Lemma commit_keeps_work_witness :
  (run_pipeline healthy).1 = None ∧
  record (run_pipeline healthy).2.1 = Some {["/src/app" := "0123456789abcdef"; "/src/lib" := "0123456789abcdef"]} ∧
  ∃ n1 n2, (run_pipeline healthy).2.2 = (n1 ++ n2)%list ∧ ∀ repo wt, worktrees !! repo = Some wt → landed "task/A" repo wt n1 ∨ uncounted wt n1.
Proof.
  destruct (commit_keeps_work alone id healthy any_range (λ _, None) (λ p _ _, p) (λ p _, p) (λ _, false) (λ _ _, Ok "Add a flag") (λ _ _, Err "none")
    (λ _, MkResolver [] [] None false "done") None "/w" 1 idA "s" worktrees "task/A" any_range_covers apart start.1 start.2) as (n & En & Hn).
  change (commit_trace "/w" idA "task/A" worktrees (run_pipeline healthy).1 n) in Hn. assert ((run_pipeline healthy).1 = None) as E by (vm_compute; reflexivity). rewrite E in Hn.
  split; [reflexivity|]. split; [vm_compute; reflexivity|]. destruct Hn as (n1 & n2 & -> & _ & Hl). exists n1, n2. split; [exact En|exact Hl].
Defined.

Definition looked (c : call) : bool := match c with Stat _ => true | _ => false end.

Lemma staging_complete_witness :
  (run_stage healthy).1 = Ok true ∧ ∀ repo wt, worktrees !! repo = Some wt → handled wt (run_stage healthy).2.2.
Proof.
  destruct (staging_complete alone healthy any_range (λ _, None) (λ p _ _, p) (λ _, false) (λ _ _, Ok "Add a flag") (λ _ _, Err "none") idA worktrees "add a flag"
    any_range_covers start.1 start.2) as (n & En & Hn).
  change ((run_stage healthy).2.2 = n) in En. change (is_ok (run_stage healthy).1 = true → reliable n → ∀ repo wt, worktrees !! repo = Some wt → handled wt n) in Hn.
  rewrite <-En in Hn.
  split; [vm_compute; reflexivity|]. apply Hn; [vm_compute; reflexivity|].
  apply (Forall_impl (λ x : call * Reply, looked x.1 = true ∨ r_err x.2 = None)); [apply (bool_decide_unpack _); vm_compute; exact I|].
  intros [[] r] [Hx|Hx] Hc; try discriminate Hx; try exact Hx. destruct Hc as [[? ?]|[[? ?]|(? & ? & ? & ?)]]; discriminate.
Defined.

(** ** What is lost *)

Definition commits_in (wt : string) (c : call) : bool :=
  match c with Exec (_ :: _ :: dir :: args) => bool_decide (dir = wt) && bool_decide ("commit" ∈ args) | _ => false end.
Definition calls_of (l : list call) (cs : list call) : bool := bool_decide (Forall (λ c, c ∈ cs) l).

(** The changes of the library cannot be staged; those of the program can.  The
    pipeline succeeds, and removes the worktree with the changes. *)
Definition unstaged : history → call → Reply := but (Git lib_wt ["add"; "-A"]) "fatal: Unable to create index.lock".

Lemma unstaged_work_lost :
  let x := run_pipeline unstaged in
  x.1 = None ∧ existsb (commits_in lib_wt) (calls x) = false ∧
  calls_of [Git "/src/lib" ["worktree"; "remove"; "--force"; lib_wt]; RemoveAll "/w/A"] (calls x) = true.
Proof. vm_compute. auto. Qed.

(** The commits of the library cannot be counted.  The pipeline says that there are
    none, and deletes the branch that has them. *)
Definition uncounted : history → call → Reply := but (Git lib_wt ["rev-list"; "--count"; "main..HEAD"]) "fatal: bad object".

Lemma uncounted_commits_lost :
  let x := run_pipeline uncounted in
  x.1 = None ∧ existsb (commits_in lib_wt) (calls x) = true ∧
  calls_of [Git "/src/lib" ["merge"; "--ff-only"; "task/A"]] (calls x) = false ∧
  calls_of [Git "/src/lib" ["branch"; "-D"; "task/A"]] (calls x) = true.
Proof. vm_compute. auto. Qed.

(** The program is merged, then the merge of the library fails: the task has no
    record of the first. *)
Definition diverged : history → call → Reply := but (Git "/src/lib" ["merge"; "--ff-only"; "task/A"]) "fatal: Not possible to fast-forward".

Lemma merged_unrecorded :
  let x := run_pipeline diverged in
  (∃ e, x.1 = Some e) ∧ calls_of [Git "/src/app" ["merge"; "--ff-only"; "task/A"]] (calls x) = true ∧ record x.2.1 = Some ∅.
Proof. split; [eexists; vm_compute; reflexivity|]. vm_compute. auto. Qed.

(** The user's changes were put aside for the merge and do not apply any more; the
    pipeline succeeds and says nothing. *)
Definition unpopped (h : history) (c : call) : Reply :=
  if decide (c = Git "/src/app" ["status"; "--porcelain"]) then good " M main.go" else but (Git "/src/app" ["stash"; "pop"]) "CONFLICT (content)" h c.

Lemma stash_left_behind :
  let x := run_pipeline unpopped in
  x.1 = None ∧ calls_of [Git "/src/app" ["stash"; "--include-untracked"]; Git "/src/app" ["stash"; "pop"]] (calls x) = true ∧
  existsb (λ e, bool_decide (ev_EventType e = EventTypeError)) (default [] (events (w_store x.2.1) !! idA)) = false.
Proof. vm_compute. auto. Qed.

(** ** Setting up *)

(** A disk on which a worktree exists once git has made it; [there] are those that
    exist already. *)
Definition made (there : list string) (h : history) (p : string) : bool :=
  bool_decide (p ∈ there) ||
  existsb (λ x : call * Reply, match x.1 with Exec (_ :: _ :: _ :: _ :: _ :: _ :: _ :: wt :: _) => bool_decide (wt = p) && bool_decide (r_err x.2 = None) | _ => false end) h.

Definition disk (there : list string) (fails : call → bool) (h : history) (c : call) : Reply :=
  if fails c then bad "fatal" else
  match c with
  | Stat p => if made there h p then good EmptyString else bad EmptyString
  | Exec (_ :: _ :: dir :: args) => if decide (args = ["rev-parse"; "--verify"; "task/A"]) then bad EmptyString else good EmptyString
  | _ => good EmptyString
  end.

Definition set_up (git : history → call → Reply) (workspaces : list string) (existing : gmap string string) :=
  ensureTaskWorktrees alone git any_range "/w" 1 idA workspaces existing (map_to_list existing).*1 "task/A" start.

(** Two workspaces with the same name get one worktree, that of the first. *)
Lemma same_name_same_worktree :
  let x := set_up (disk [] (λ _, false)) ["/work/app"; "/home/app"] ∅ in
  x.1 = Ok ({["/work/app" := app_wt; "/home/app" := app_wt]}, "task/A") ∧
  calls_of [Git "/work/app" ["worktree"; "add"; "-b"; "task/A"; app_wt; "HEAD"]] (calls x) = true ∧
  existsb (λ c, match c with Exec (_ :: _ :: dir :: "worktree" :: _) => bool_decide (dir = "/home/app") | _ => false end) (calls x) = false.
Proof. vm_compute. auto. Qed.

(** The worktree of the program is there and is reused, that of the library cannot
    be made again: the directory with both is removed. *)
Lemma reused_worktree_removed :
  let x := set_up (disk [app_wt] (λ c, bool_decide (c = Git "/src/lib" ["worktree"; "add"; "-b"; "task/A"; lib_wt; "HEAD"]))) [] worktrees in
  is_ok x.1 = false ∧ calls_of [Git app_wt ["rev-parse"; "--git-dir"]; RemoveAll "/w/A"] (calls x) = true.
Proof. vm_compute. auto. Qed.

(** ** Snapshots *)

(** A workspace whose repository has no commit is a snapshot; without [rsync] its
    own [.git] is removed when the changes are copied back. *)
Definition empty_repo (h : history) (c : call) : Reply :=
  if decide (c = Git "/src/app" ["rev-parse"; "HEAD"]) then bad "fatal: ambiguous argument"
  else if decide (c = Git "/src/app" ["rev-parse"; "--verify"; "HEAD"]) then bad "fatal: Needed a single revision"
  else if decide (c = LookPath "rsync") then bad EmptyString else healthy h c.

Lemma users_repository_removed :
  let x := run_pipeline empty_repo in
  x.1 = None ∧ calls_of [RemoveAll "/src/app/.git"] (calls x) = true.
Proof. vm_compute. auto. Qed.

(** The diffs of a snapshot are joined without the newline that was trimmed. *)
Definition two_diffs (_ : history) (c : call) : Reply :=
  if decide (c = Git "/w/A/app" ["diff"; "HEAD~1"]) then good ("diff --git a/x b/x" +:+ nl +:+ "+new line" +:+ nl)
  else if decide (c = Git "/w/A/app" ["ls-files"; "--others"; "--exclude-standard"]) then good ("y" +:+ nl)
  else if decide (c = Git "/w/A/app" ["diff"; "--no-index"; "/dev/null"; "y"]) then good ("diff --git a/y b/y" +:+ nl) else bad EmptyString.

Lemma diffs_glued : (SnapshotDiff two_diffs "/w/A/app" []).1 = "diff --git a/x b/x" +:+ nl +:+ "+new linediff --git a/y b/y".
Proof. vm_compute. reflexivity. Qed.
End CommitRun.
