(* ===== verification/RecoveryRun.v ===== *)
(** * Concrete recoveries

    Witnesses for the theorems of RecoverySpec, and crashes of the commit pipeline
    that the recovery judges wrongly: what was merged has failed, what was not merged
    is done. *)

From S2P Require Import Prelude StateMachine GoStrings GoText PkgUtil TaskModel Backend Store StoreUpdate StoreWf StoreRestart StoreSpec StoreQuery World WorldRules Runner RunnerRun Execute ExecuteSpec Automation AutomationSpec AutomationRun TaskRequests TaskRequestsSpec BatchSpec TaskRequestsRun GoTime GitExec GitSpec CommitPipeline CommitSpec CommitRun Recovery RecoverySpec.
From Stdlib Require Import String.
From stdpp Require Import list gmap.
Local Open Scope Z_scope.
Local Open Scope string_scope.

Module RecoveryRun.
#[local] Existing Instance text_uuid.
Import RunnerRun ExecuteRun AutomationRun TaskRequestsRun CommitRun.

(** A was committing, C was running and has no container any more, D runs. *)
Definition committing : Task := CommitRun.task <| Status := TaskStatusCommitting |> <| WorktreePaths := worktrees |> <| BranchName := "task/A" |>.
Definition running_as (i : @uuid text_uuid) : Task := queued i [] <| Status := TaskStatusInProgress |>.
Definition crashed : World MemBackend := world_of {[idA := committing; idC := running_as idC; idD := running_as idD]} [].

Definition any_order_of (_ : history) (m : gmap string string) : list string := (map_to_list m).*1.
Definition one_running (_ : nat) : result string (list ContainerInfo) := Ok [MkContainer "1" "wallfacer-d" "D" "" "" "running" "Up 5 minutes" 0].
Definition worktree_dirs (_ : history) (p : string) : result string (list (string * bool)) :=
  if decide (p = "/w") then Ok [("A", true)] else if decide (p = "/w/A") then Ok [("app", true); ("lib", true)] else Err (p +:+ ": no such file or directory").

Definition recover (git : history → call → Reply) (x : World MemBackend * history) :=
  RecoverOrphanedTasks alone git any_order_of one_running worktree_dirs (λ _, None) "/w" 1 ["/src/app"; "/src/lib"] true true x.
Definition statuses (w : World MemBackend) : gmap (@uuid text_uuid) TaskStatus := Status <$> tasks (w_store w).

(** The branch is there until it is deleted; its tip is of this year. *)
Definition tip : string := "0123abcd|Add a flag|2026-05-06T07:08:09+02:00".
Definition with_branch (git : history → call → Reply) (h : history) (c : call) : Reply :=
  match c with
  | Exec [_; _; repo; "log"; _; _; branch] => if decide (Git repo ["branch"; "-D"; branch] ∈ h.*1) then bad "fatal: unknown revision" else good tip
  | _ => git h c
  end.

Lemma recovery_settles_witness :
  let r := recover (with_branch healthy) (crashed, []) in
  statuses r.2.1 = {[idA := TaskStatusDone; idC := TaskStatusWaiting; idD := TaskStatusInProgress]} ∧ r.1 = [idD] ∧
  away TaskStatusCommitting idA (w_store r.2.1) ∧ (idle idD (w_store r.2.1) ∨ (idD ∈ r.1 ∧ "D" ∈ runningContainers (one_running 1))).
Proof.
  split; [vm_compute; reflexivity|]. split; [vm_compute; reflexivity|]. split.
  - apply (recovery_settles alone (with_branch healthy) any_order_of one_running worktree_dirs (λ _, None) "/w" 1 ["/src/app"; "/src/lib"] true true idA crashed []);
      [by intros b n s|by intros b n s|intros n m Hm; by apply any_order_covers|].
    intros t. vm_compute. by intros [= <-].
  - apply (recovery_settles alone (with_branch healthy) any_order_of one_running worktree_dirs (λ _, None) "/w" 1 ["/src/app"; "/src/lib"] true true idD crashed []);
      [by intros b n s|by intros b n s|intros n m Hm; by apply any_order_covers|].
    intros t. vm_compute. by intros [= <-].
Defined.

(** The runtime does not answer, then D runs, then it has stopped. *)
Definition stops (n : nat) : result string (list ContainerInfo) :=
  match n with O => Err "no runtime" | 1%nat => one_running 0 | _ => Ok [] end.

Lemma monitor_settles_witness :
  let r := monitorContainerUntilStopped alone healthy any_order_of stops idD [Polled; Polled; Polled; Deadline] (crashed, []) in
  r.1 = true ∧ statuses r.2.1 !! idD = Some TaskStatusWaiting ∧ idle idD (w_store r.2.1).
Proof.
  intros r. assert (r.1 = true) as E by (vm_compute; reflexivity). split; [exact E|]. split; [vm_compute; reflexivity|].
  destruct (monitor_settles alone healthy any_order_of stops idD [Polled; Polled; Polled; Deadline] crashed []) as [_ H2].
  - intros b n s Hs. exact Hs.
  - intros b n s Hs. exact Hs.
  - intros t. vm_compute. intros [= <-]. reflexivity.
  - intros Hin. clear -Hin. repeat (apply elem_of_cons in Hin as [Hin|Hin]; [discriminate Hin|]). by apply not_elem_of_nil in Hin.
  - apply H2. exact E.
Defined.

Lemma any_order_of_covers h m r : r ∈ any_order_of h m ↔ is_Some (m !! r).
Proof.
  unfold any_order_of. rewrite list_elem_of_fmap. split.
  - intros ([k x] & -> & Hx). apply elem_of_map_to_list in Hx. by exists x.
  - intros [x Hx]. exists (r, x). split; [done|]. by apply elem_of_map_to_list.
Qed.

Lemma recover_committing_spec_witness :
  let r := recover_committing alone (with_branch healthy) any_order_of committing (crashed, []) in
  statuses r.2.1 !! idA = Some TaskStatusDone ∧ ∃ n, r.2.2 = n ∧ Forall (λ c, ∃ repo, c = log_call repo "task/A") n.*1.
Proof.
  split; [vm_compute; reflexivity|].
  destruct (recover_committing_spec alone (with_branch healthy) any_order_of committing crashed []) as (n & b & E & Hn & _).
  - intros b n s. reflexivity.
  - apply any_order_of_covers.
  - eexists. vm_compute. reflexivity.
  - exists n. split; [exact E|exact Hn].
Defined.

(** ** Crashes of the pipeline *)

(** The server stops after the pipeline and before the task is marked as done: both
    repositories are merged and their branches deleted, and the task has failed. *)
Definition committed (git : history → call → Reply) : World MemBackend * history :=
  (commit alone id git any_range (λ _, None) (λ p _ _, p) (λ p _, p) (λ _, false) (λ _ _, Ok "Add a flag") (λ _ _, Err "none")
    (λ _, MkResolver [] [] None false "done") None "/w" 1 idA "s" worktrees "task/A" (crashed, [])).2.
Definition merges : list call := [Git "/src/app" ["merge"; "--ff-only"; "task/A"]; Git "/src/lib" ["merge"; "--ff-only"; "task/A"]].
Definition succeeded (c : call) (h : history) : bool := existsb (λ x : call * Reply, bool_decide (x.1 = c) && bool_decide (r_err x.2 = None)) h.

Lemma merged_marked_failed :
  let x := committed (with_branch healthy) in
  forallb (λ c, succeeded c x.2) merges = true ∧ statuses (recover (with_branch healthy) x).2.1 !! idA = Some TaskStatusFailed.
Proof. vm_compute. auto. Qed.

(** The server stops while the pipeline cannot merge: the commit of its first phase is
    on the branch, so the task is done, and its worktree is removed as garbage. *)
Definition unmergeable (h : history) (c : call) : Reply :=
  if decide (c ∈ merges) then bad "fatal: Not possible to fast-forward" else with_branch healthy h c.

Lemma unmerged_marked_done :
  let x := committed unmergeable in
  let r := recover unmergeable x in
  existsb (λ c, succeeded c x.2) merges = false ∧ statuses r.2.1 !! idA = Some TaskStatusDone ∧ calls_of [RemoveAll "/w/A"] r.2.2.*1 = true.
Proof. vm_compute. auto. Qed.

(** A subject with a bar: the time of the commit cannot be read. *)
Definition barred (_ : history) (_ : call) : Reply := good "0123abcd|Fix a|b switch|2026-05-06T07:08:09+02:00".

Lemma bar_in_subject : (BranchTipCommit barred "/src/app" "task/A" []).1 = Err (TipTime "b switch|2026-05-06T07:08:09+02:00").
Proof. vm_compute. reflexivity. Qed.
End RecoveryRun.
